(* ===== verification/_CoqProject ===== *)
-Q . S2P
Prelude.v
Amounts.v
ValueBalances.v
Emission.v
Difficulty.v
Networks.v
Subsidies.v
Retarget.v
AuxCodec.v
AuxMerkle.v
AuxProof.v
AuxCoinbase.v
BlockChecks.v
BlockMerkle.v
QueuedBlocks.v
WinnerJournal.v
GenesisAnchor.v
NoteTrees.v
ChainIndexes.v
NonFinalizedChain.v
ChainInvariant.v
ChainTheorems.v
TransactionValues.v
SpendChecks.v
ContextualTheorems.v
NonFinalizedState.v
ChainSetTheorems.v
StateTheorems.v
Checkpoints.v
CheckpointTheorems.v
WinnerBlocks.v
PoolJournal.v
PoolExample.v
PoolReplay.v
PoolWinners.v
PoolReads.v
HeaderCodec.v
MempoolTx.v
MempoolDeps.v
MempoolSet.v
MempoolInvariant.v
MempoolStorage.v
MempoolTheorems.v
BlockTemplates.v
AuxCandidates.v
AuxRpc.v
