(* ===== verification/Prelude.v ===== *)
(** * A verification library for the Wcash node

    Wcash is a fork of the Zebra node of Zcash.  It shares the blocks,
    transactions and value pools of Zcash, has networks, an emission and a
    foundation share of its own, and takes its proof of work from Zcash by
    merged mining: the header of a Wcash block carries an AuxPoW proof that a
    Zcash block commits to it.

    ** The program and its model

    The library follows the crates under [src/], one file for each component.
    A Rust function keeps its name; a Rust module or type is a Module.

    - [Prelude]: results with errors and panics, machine integers, bytes, and
      the lemmas and tactics of the other files.
    - [Amounts] ([zebra-chain/src/amount.rs]) and [ValueBalances]
      ([zebra-chain/src/value_balance.rs]): constrained amounts, the six value
      pools and their update.
    - [Emission] ([.../network/subsidy/wcash_mainnet.rs]): the smooth emission
      curve of Wcash Mainnet and the table that caches it.
    - [Difficulty] ([zebra-chain/src/work/difficulty.rs]): compact and expanded
      difficulty, work.
    - [Networks] ([block/height.rs], [parameters/network_upgrade.rs],
      [parameters/network.rs], [parameters/network/testnet.rs]): heights,
      network upgrades, branch ids, the Wcash profiles and the builder of
      activation heights.
    - [Subsidies] ([parameters/network/subsidy.rs], [.../wcash_foundation.rs]):
      halvings, block subsidies, the foundation output.
    - [Retarget] ([zebra-state/src/service/check/difficulty.rs],
      [zebra-state/src/service/check.rs]): difficulty adjustment and the
      contextual checks of a block.
    - [AuxCodec], [AuxMerkle], [AuxProof] ([wcash-zcash-aux/src/]): the byte
      reader and CompactSize, targets, Merkle trees and the commitment in the
      parent coinbase, the proof format and its validation.
    - [AuxCoinbase] ([wcash-zcash-aux/src/coinbase.rs],
      [wcash-zec-parent/src/lib.rs]): the choice between the two parsers of a
      parent coinbase.
    - [BlockChecks] ([zebra-consensus/src/block/check.rs]): the semantic checks
      that join the AuxPoW proof, the difficulty and the coinbase value.
    - [QueuedBlocks] ([zebra-state/src/service/queued_blocks.rs]): the blocks
      that wait for their parents, and the hashes sent to the write task.
    - [WinnerJournal] ([wcash-merge-miner/src/accounting.rs]): the replay of the
      journal of shares and winners into the payout snapshot.
    - [GenesisAnchor] ([wcash-genesis/src/lib.rs]): network identities and the
      anchors of the genesis blocks.
    - [BlockMerkle] ([zebra-chain/src/block/merkle.rs], [block/commitment.rs] and
      the checks that use them): transaction and authorizing-data roots, block
      commitments.
    - [NoteTrees] ([zebra-chain/src/sapling/tree.rs], [parallel/tree.rs],
      [subtree.rs]): note commitment trees, their subtrees and their update.
    - [ChainIndexes], [NonFinalizedChain]
      ([zebra-state/src/service/non_finalized_state/chain.rs] and
      [chain/index.rs]): a chain of blocks above the finalized tip with all its
      indexes.  [ChainInvariant] defines what the indexes must hold and
      [ChainTheorems] proves it.
    - [TransactionValues], [SpendChecks] ([zebra-chain/src/transaction.rs],
      [zebra-state/src/service/check/] [utxo.rs], [nullifier.rs], [anchors.rs]):
      the values of a transaction, and the checks of its spends against the
      chain.  [ContextualTheorems] joins them with [NonFinalizedChain].
    - [NonFinalizedState] ([zebra-state/src/service/non_finalized_state.rs]): the
      ordered set of chains, with commits, finalizing, invalidating and
      reconsidering.  [ChainSetTheorems] holds its lemmas and [StateTheorems] its
      theorems.
    - [Checkpoints] ([zebra-consensus/src/checkpoint.rs] with its list and
      progress): the verifier of the checkpointed part of the chain, with its
      queue and its answers; [CheckpointTheorems] proves it.
    - [WinnerBlocks] ([wcash-merge-miner/src/coordinator.rs]): the validation of
      the winner blocks that a journal retains.
    - [PoolJournal] ([wcash-merge-miner/src/pool_backend_journal.rs]): the durable
      journal of the pool backend.  [PoolReplay] holds the theorems on restarts
      and crashes, [PoolWinners] those on shares and winners, [PoolReads] those on
      pages and digests, and [PoolExample] an instance of the crates around it.
    - [HeaderCodec] ([zebra-chain/src/work/equihash.rs], [block/serialize.rs]):
      the bytes of solutions, headers and blocks.
    - [MempoolTx], [MempoolDeps], [MempoolSet], [MempoolStorage]
      ([zebra-chain/src/transaction/unmined.rs],
      [zebra-node-services/src/mempool/transaction_dependencies.rs],
      [zebrad/src/components/mempool/storage.rs] and [storage/]): unmined
      transactions and their fees, dependencies, the verified set with its
      caches, and the storage with its lists of rejections.  [MempoolInvariant]
      defines what the verified set must hold; [MempoolTheorems] has the theorems.
    - [BlockTemplates] ([.../get_block_template/zip317.rs]): the choice of
      transactions for a block template.
    - [AuxCandidates] ([zebra-chain/src/block/hash.rs],
      [zebra-rpc/src/methods/wcash_aux_block.rs]): block ids that do not depend on
      the proof, and the cache of the candidates handed out to pools.
    - [AuxRpc] ([zebra-rpc/src/methods.rs], [wcash_aux_candidate.rs]): the requests
      [createauxblock], [retireauxblock], [getauxblockstatus] and
      [submitauxblock], as programs that ask the node and the cache.

    A block passes through them in this order: [BlockChecks] decodes and
    validates its proof with [AuxProof] and [AuxCoinbase] against the target of
    [Difficulty], checks its coinbase with [Amounts], [Subsidies] and
    [Emission] at the upgrade given by [Networks]; [QueuedBlocks] holds it until
    its parent is known; [Retarget] compares it with the recent chain,
    [SpendChecks] its spends with the chain it extends; [NonFinalizedState]
    pushes it on a chain of [NonFinalizedChain], which updates the trees of
    [NoteTrees] and moves the pools of [ValueBalances].  Below the last checkpoint,
    [Checkpoints] takes the place of [BlockChecks].

    A block is made in the other direction: [MempoolStorage] keeps the transactions
    from which [BlockTemplates] chooses; [AuxRpc] makes a candidate of the
    template, keeps it in the cache of [AuxCandidates], attaches the proof that a
    pool submits and gives the block to the verifier; the pool records its shares
    and winners in [PoolJournal], whose retained blocks [WinnerBlocks] validates,
    and [WinnerJournal] accounts for them.

    ** Conventions

    A function that returns a [Result] or may panic returns [outcome]: a value,
    an error of the source, or [Panic].  Arithmetic that the source checks goes
    through [checked]; arithmetic that wraps is written with [wrap_u] and
    [wrap_i].  Integers are [Z], byte arrays are lists of bytes, hash maps are
    [gmap].  The two consensus builds of the crates, which differ in the supply
    limit, are the instances of the class [ConsensusBuild].

    Code of other crates is a parameter with the documented facts the proofs
    need.  The class [Hashes] holds SHA-256 and BLAKE2b with the lengths of their
    digests; no injectivity is assumed, and the statements about binding end in
    a collision between strings that were really hashed.  [EquihashVerifier],
    [TransactionCodec] and [JournalEnv] hold the Equihash check, the
    transaction parsers, and JSON and hexadecimal.  [EmbeddedBranch] and
    [CoinbaseDigests] state where a version 5 or 6 transaction stores its branch
    id and that its two digests determine its miner data.  [ChainConstants] and
    [FoundationEnv] hold the long tables of Zcash Mainnet, the address parser and
    the order of a hash map.  [ChainTypes] and [ChainOps] hold the types and the
    external operations of a chain (hashes, frontiers, the history tree, address
    parsing), and [ChainAssumptions] what the proofs need of them, such as that
    the root of a frontier and a subtree are functions of its notes.
    [CheckpointEnv] holds the hash and the Equihash check of a block.
    [BlockCodec] of [WinnerBlocks], [PoolTypes] and [PoolOps] hold the codec of
    blocks, the protocol crate of the pool, JSON and hexadecimal.  [JsonLaws] says
    that JSON is one line, reads back what it wrote and recognizes a torn line,
    [HexLaws] that hexadecimal reads back, [ReceiptLaws] that a receipt names a
    chain once, [PageLaws] what the limits of a page are, and [UnsignedLaws] that
    the text under a digest determines its event.  [MempoolEnv] holds sizes, ids
    and script classes, and [tx_codec_exact] says that a transaction reads back
    exactly from its bytes.
    Random choices (evictions, templates, nonces, retirement tokens) are
    functions or lists that the operations receive; a clock is an argument of
    the operation that reads it.  Each such class has an instance in the
    development, with which the theorems are applied.

    ** What the theorems show

    - Proof of work (C1 to C4): a Wcash block is accepted only with numerically
      sufficient parent work that commits to it; one parent header serves one Wcash
      block; the formats of proofs and of blocks are canonical.
    - Money (C5, C8, C30): the coinbase creates exactly subsidy and fees, and no
      other transaction creates value; the cached emission is the recurrence at
      every height.
    - The non-finalized state (C6, C7, C32, C33, C38): the set of chains stays
      ordered, bounded and free of duplicates, every chain keeps its invariant,
      and the best chain is one with the most work; finalizing takes the root of
      the best chain and keeps its descendants; an invalidated block is refused
      until it is reconsidered, which restores the chain.  C38 is the case where
      the code does not do what it means to.
    - A chain (C9, C10, C34): every index holds exactly what its blocks say,
      through push, pop_tip and pop_root, which do not panic; nothing is spent or
      revealed twice; fork ends with the chain that the shared blocks alone would
      have made.
    - The mempool and templates (C11, C12, C28, C29, C39): the caches of the mempool
      are exactly those of its transactions, which do not conflict, and no
      operation panics; a template stays within the limits of a block and never
      has a transaction before one it depends on; insertions and new blocks have
      the documented effect, except in the case of C39.
    - Merged mining (C13 to C17): a submission is answered with [true] only when the
      exact block is in the best chain, and with [false] only when its proof is
      invalid; a candidate that is handed out has room for any proof and is kept
      for its lifetime; the cache is bounded and its assertions hold; concurrent
      requests use it by its rules.
    - The journal of the pool (C18 to C25): a crash at any point of an append leaves
      the state before or after it; a restart reads back the state; the last
      digest authenticates all records; a winner is never lost, has its work, and
      follows its automaton under compare and swap; shares count once; pages
      deliver every event.
    - Checkpoints (C26, C27): exactly the blocks of the checkpointed chain are
      verified, in order, and a complete queue is verified to the end.
    - Commitments, queues, difficulty, accounting (C31, C35 to C37): the payout
      snapshot counts each accepted share once; the Merkle root binds the
      transactions up to a collision or a repeated tail; the block queue refines a
      finite map; the adjusted target is defined, positive and bounded.
    - Networks (C40): the case where the formula for halving heights is not sound.

    The theorems of each file that carry no number state the remaining facts of
    its component: exact amounts and their bytes, CompactSize, branch ids, halving
    heights, the median time, the slots of an auxiliary tree, note trees, genesis
    anchors, the winner automaton, the exact rules of transparent spends, fees of
    admitted transactions, the ids of blocks.

    ** Bounds and recursion

    Almost all functions are structurally recursive.  [fork_loop] has
    the number of blocks of the chain as fuel, and C34 shows that it is enough:
    every iteration removes a block.  [root_loop] and [auth_root_loop] have more
    fuel than hashes, which are halved in each iteration.  The
    emission table has 3,455,360 entries: its entries are computed by induction,
    and the counter at the tail is reached in checked runs of 63-bit machine
    arithmetic between listed milestones.  The parsers recurse on the announced
    count, which is bounded before the first read.  A sent-hash batch is pruned
    along its list.  [replay_lines] has more fuel than the file has bytes, and
    every line has at least one; [read_all] has more fuel than events, and every
    page has one; [remove_levels] and [add_levels] have more fuel than the
    dependency map has keys, of which every level removes one; [evict_while_full],
    [prune_loop] and [select_loop] remove an element of their list or map in each
    round.  The lemmas of these loops show that the fuel is enough.
    [unique_retire_token] draws from a list: with 81 distinct draws it ends,
    because at most 16 tokens are active and 64 retired.

    The theorems on the state assume of the blocks what the callers establish
    ([PreparedOk]): heights in range and hashes that determine the header, by the
    function [header_of].  [fits] and [chain_volumes_ok] say that work and address
    totals stay in their integers.  The theorems on the candidate cache assume that
    the clock does not go back, that a call publishes or discards its reservation
    within the lifetime of an entry, and that the node does not confirm a block
    whose candidate is still reserved.

    ** What is not modelled

    Transaction formats, signatures, shielded proofs and scripts; networking,
    databases, the wallet, the other RPC methods and the asynchronous services
    around the modelled parts; metrics, logs and formatted messages; the floating
    point weights of templates.  In modelled files: the subsidy distribution check
    of Zcash networks, range queries of a chain, the backup directory of the
    non-finalized state, the downloads and the crawler of the mempool, paths, locks
    and permissions of the journals, worker credentials.

    The next steps of the plan: [subsidy_is_valid] with the funding stream tables,
    the coordinator and the Stratum servers of the merge miner, the block write
    loop of the state, and the address book of the network. *)

From Stdlib Require Export ZArith Lia Btauto Sorted.
From stdpp Require Export prelude list gmap strings.
From coqutil Require Export Byte LittleEndianList.

#[global] Open Scope Z_scope.

(** ** Results, errors and panics

    A Rust function that returns [Result<T, E>] and may also panic (through
    [expect], [assert!], an index out of range or [unreachable!]) is a function
    into [outcome E T].  Code that cannot return an error but may panic is
    polymorphic in [E]. *)

Inductive outcome (E A : Type) : Type :=
| Ok (a : A)
| Err (e : E)
| Panic.
Arguments Ok {E A} a.
Arguments Err {E A} e.
Arguments Panic {E A}.

Definition obind {E A B : Type} (m : outcome E A) (k : A -> outcome E B) : outcome E B :=
  match m with
  | Ok a => k a
  | Err e => Err e
  | Panic => Panic
  end.

Declare Scope outcome_scope.
Delimit Scope outcome_scope with outcome.
#[global] Open Scope outcome_scope.

Notation "'let?' x ':=' c 'in' k" := (obind c (fun x => k))
  (at level 10, x name, c at level 100, k at level 200,
   format "'[v' 'let?'  x  ':='  c  'in' '/' k ']'") : outcome_scope.
Notation "'let?' ' p ':=' c 'in' k" := (obind c (fun p => k))
  (at level 10, p strict pattern, c at level 100, k at level 200)
  : outcome_scope.
Notation "'do?' c 'in' k" := (obind c (fun _ => k))
  (at level 10, c at level 100, k at level 200,
   format "'[v' 'do?'  c  'in' '/' k ']'") : outcome_scope.

(** [Result::map_err]. *)
Definition map_err {E F A : Type} (f : E -> F) (m : outcome E A) : outcome F A :=
  match m with
  | Ok a => Ok a
  | Err e => Err (f e)
  | Panic => Panic
  end.

(** [Option::ok_or]. *)
Definition ok_or {E A : Type} (o : option A) (e : E) : outcome E A :=
  match o with
  | Some a => Ok a
  | None => Err e
  end.

(** [Option::expect] and [Option::unwrap]. *)
Definition expect {E A : Type} (o : option A) : outcome E A :=
  match o with
  | Some a => Ok a
  | None => Panic
  end.

(** [Result::expect] and [Result::unwrap]. *)
Definition expect_ok {E F A : Type} (m : outcome E A) : outcome F A :=
  match m with
  | Ok a => Ok a
  | Err _ | Panic => Panic
  end.

(** [if !b { return Err(e) }]. *)
Definition require {E : Type} (b : bool) (e : E) : outcome E unit :=
  if b then Ok tt else Err e.

(** [assert!(b)]. *)
Definition assert_that {E : Type} (b : bool) : outcome E unit :=
  if b then Ok tt else Panic.

(** [Result::ok], on a computation that does not panic. *)
Definition ok {E A : Type} (m : outcome E A) : option A :=
  match m with
  | Ok a => Some a
  | _ => None
  end.

Lemma obind_Ok {E A B} (m : outcome E A) (k : A -> outcome E B) b :
  obind m k = Ok b <-> exists a, m = Ok a /\ k a = Ok b.
Proof. destruct m; simpl; naive_solver. Qed.

Lemma obind_Err {E A B} (m : outcome E A) (k : A -> outcome E B) e :
  obind m k = Err e <-> m = Err e \/ exists a, m = Ok a /\ k a = Err e.
Proof. destruct m; simpl; naive_solver. Qed.

Lemma obind_assoc {E A B C} (m : outcome E A) (f : A -> outcome E B) (g : B -> outcome E C) :
  obind (obind m f) g = obind m (fun a => obind (f a) g).
Proof. by destruct m. Qed.

Lemma map_err_Ok {E F A} (f : E -> F) (m : outcome E A) a : map_err f m = Ok a <-> m = Ok a.
Proof. destruct m; simpl; naive_solver. Qed.

Lemma require_Ok {E} b (e : E) u : require b e = Ok u <-> b = true.
Proof. destruct b, u; simpl; naive_solver. Qed.

Lemma assert_that_Ok {E} b u : assert_that (E:=E) b = Ok u <-> b = true.
Proof. destruct b, u; simpl; naive_solver. Qed.

Lemma ok_or_Ok {E A} (o : option A) (e : E) a : ok_or o e = Ok a <-> o = Some a.
Proof. destruct o; simpl; naive_solver. Qed.

Lemma expect_Ok {E A} (o : option A) a : expect (E:=E) o = Ok a <-> o = Some a.
Proof. destruct o; simpl; naive_solver. Qed.

(** [outcome_inv] turns every successful computation among the hypotheses into
    the successes of its steps. *)
Ltac outcome_inv1 :=
  match goal with
  | H : obind _ _ = Ok _ |- _ =>
      apply obind_Ok in H; let a := fresh "a" in let H1 := fresh "H" in
      destruct H as (a & H1 & H)
  | H : map_err _ _ = Ok _ |- _ => apply map_err_Ok in H
  | H : require _ _ = Ok _ |- _ => apply require_Ok in H
  | H : assert_that _ = Ok _ |- _ => apply assert_that_Ok in H
  | H : ok_or _ _ = Ok _ |- _ => apply ok_or_Ok in H
  | H : expect _ = Ok _ |- _ => apply expect_Ok in H
  | H : Ok _ = Ok _ |- _ => injection H as H
  | H : Err _ = Ok _ |- _ => discriminate H
  | H : Panic = Ok _ |- _ => discriminate H
  end.
Ltac outcome_inv := repeat outcome_inv1; subst.

(** ** Machine integers

    A Rust integer is a [Z] together with the range of its type. *)

Definition U8_MAX : Z := 255.
Definition U16_MAX : Z := 65535.
Definition U32_MAX : Z := 4294967295.
Definition U64_MAX : Z := 18446744073709551615.
Definition U128_MAX : Z := 340282366920938463463374607431768211455.
Definition U256_MAX : Z :=
  115792089237316195423570985008687907853269984665640564039457584007913129639935.
Definition I32_MAX : Z := 2147483647.
Definition I64_MAX : Z := 9223372036854775807.
Definition I64_MIN : Z := -9223372036854775808.
Definition I128_MAX : Z := 170141183460469231731687303715884105727.
Definition I128_MIN : Z := -170141183460469231731687303715884105728.

(** [(lo..=hi).contains(&z)]. *)
Definition within (lo hi z : Z) : bool := (lo <=? z) && (z <=? hi).

(** The result of a checked operation, or of a [try_from] conversion, into the
    integer type with values [lo..=hi]. *)
Definition checked (lo hi z : Z) : option Z := if within lo hi z then Some z else None.

Abbreviation u8_checked := (checked 0 U8_MAX).
Abbreviation u16_checked := (checked 0 U16_MAX).
Abbreviation u32_checked := (checked 0 U32_MAX).
Abbreviation u64_checked := (checked 0 U64_MAX).
Abbreviation u128_checked := (checked 0 U128_MAX).
Abbreviation u256_checked := (checked 0 U256_MAX).
Abbreviation i64_checked := (checked I64_MIN I64_MAX).
Abbreviation i128_checked := (checked I128_MIN I128_MAX).

(** [usize] on the supported 64-bit targets. *)
Definition USIZE_MAX : Z := U64_MAX.
Abbreviation usize_checked := (checked 0 USIZE_MAX).

(** [wrapping_add], [wrapping_mul] and [as] casts into an unsigned type of [w] bits. *)
Definition wrap_u (w z : Z) : Z := z mod 2 ^ w.
(** Two's complement reading of the low [w] bits. *)
Definition wrap_i (w z : Z) : Z := (z + 2 ^ (w - 1)) mod 2 ^ w - 2 ^ (w - 1).

Lemma within_spec lo hi z : within lo hi z = true <-> lo <= z <= hi.
Proof. unfold within. rewrite andb_true_iff, !Z.leb_le. lia. Qed.

Lemma within_false lo hi z : within lo hi z = false <-> ~ (lo <= z <= hi).
Proof. rewrite <- not_true_iff_false, within_spec. tauto. Qed.

Lemma checked_Some lo hi z v : checked lo hi z = Some v <-> v = z /\ lo <= z <= hi.
Proof.
  unfold checked. destruct (within lo hi z) eqn:H;
    [apply within_spec in H | apply within_false in H]; naive_solver.
Qed.

Lemma checked_ok lo hi z : lo <= z <= hi -> checked lo hi z = Some z.
Proof. intros. by apply checked_Some. Qed.

Lemma checked_None lo hi z : checked lo hi z = None <-> ~ (lo <= z <= hi).
Proof. unfold checked. rewrite <- within_false. destruct (within lo hi z); naive_solver. Qed.

(** [bool_lia] reads boolean comparisons as propositions before calling [lia]. *)
Ltac unfold_widths :=
  unfold USIZE_MAX, U8_MAX, U16_MAX, U32_MAX, U64_MAX, U128_MAX, U256_MAX, I32_MAX, I64_MAX,
    I64_MIN, I128_MAX, I128_MIN in *.
Ltac bool_lia := unfold_widths; unfold within in *; lia.

Create HintDb wcash.
#[export] Hint Resolve checked_ok : wcash.

(** ** Bytes *)

#[export] Instance byte_eq_dec : EqDecision byte := Byte.byte_eq_dec.

(** [to_le_bytes] of an integer of [n] bytes. *)
Abbreviation to_le := le_split.
(** [from_le_bytes] of an unsigned integer. *)
Abbreviation of_le := le_combine.

(** [from_le_bytes] of a signed integer. *)
Definition of_le_signed (bs : list byte) : Z := wrap_i (8 * Z.of_nat (length bs)) (of_le bs).

Lemma of_to_le (n : nat) z : 0 <= z < 2 ^ (8 * Z.of_nat n) -> of_le (to_le n z) = z.
Proof. intros. rewrite le_combine_split, Z.mul_comm. by apply Z.mod_small. Qed.

Lemma of_le_bound bs : 0 <= of_le bs < 2 ^ (8 * Z.of_nat (length bs)).
Proof. apply le_combine_bound. Qed.

Lemma wrap_i_small w z : 0 < w -> - 2 ^ (w - 1) <= z < 2 ^ (w - 1) -> wrap_i w z = z.
Proof.
  intros Hw Hz. unfold wrap_i.
  assert (2 ^ w = 2 * 2 ^ (w - 1)) by (rewrite <- Z.pow_succ_r by lia; f_equal; lia).
  rewrite Z.mod_small; lia.
Qed.

Lemma wrap_i_mod w z : 0 < w -> wrap_i w (z mod 2 ^ w) = wrap_i w z.
Proof. intros. unfold wrap_i. by rewrite Zplus_mod_idemp_l. Qed.

Lemma of_to_le_signed (n : nat) z :
  (0 < n)%nat -> - 2 ^ (8 * Z.of_nat n - 1) <= z < 2 ^ (8 * Z.of_nat n - 1) ->
  of_le_signed (to_le n z) = z.
Proof.
  intros Hn Hz. unfold of_le_signed. rewrite length_le_split, le_combine_split.
  rewrite (Z.mul_comm (Z.of_nat n) 8), wrap_i_mod by lia. apply wrap_i_small; lia.
Qed.

Lemma wrap_i_range w z : 0 < w -> - 2 ^ (w - 1) <= wrap_i w z < 2 ^ (w - 1).
Proof.
  intros Hw. unfold wrap_i.
  assert (2 ^ w = 2 * 2 ^ (w - 1)) by (rewrite <- Z.pow_succ_r by lia; f_equal; lia).
  pose proof (Z.mod_pos_bound (z + 2 ^ (w - 1)) (2 ^ w)). lia.
Qed.

Lemma wrap_i_eqm w z : 0 < w -> wrap_i w z mod 2 ^ w = z mod 2 ^ w.
Proof.
  intros Hw. unfold wrap_i. rewrite Zminus_mod_idemp_l. f_equal. lia.
Qed.

Lemma to_le_mod (n : nat) z : to_le n (z mod 2 ^ (8 * Z.of_nat n)) = to_le n z.
Proof.
  rewrite <- (Z.mul_comm (Z.of_nat n)), <- le_combine_split.
  apply split_le_combine'. apply length_le_split.
Qed.

Lemma to_of_le (n : nat) bs : length bs = n -> to_le n (of_le bs) = bs.
Proof. intros <-. apply split_le_combine. Qed.

Lemma to_of_le_signed bs : (0 < length bs)%nat -> to_le (length bs) (of_le_signed bs) = bs.
Proof.
  intros Hn. rewrite <- to_le_mod. unfold of_le_signed. rewrite wrap_i_eqm by lia.
  rewrite to_le_mod. by apply to_of_le.
Qed.

(** ** Panic freedom *)

Definition returns {E A : Type} (m : outcome E A) : Prop := m <> Panic.

Lemma returns_Ok {E A} (a : A) : returns (E:=E) (Ok a).
Proof. done. Qed.
Lemma returns_Err {E A} (e : E) : returns (A:=A) (Err e).
Proof. done. Qed.
Lemma returns_require {E} b (e : E) : returns (require b e).
Proof. by destruct b. Qed.
Lemma returns_ok_or {E A} (o : option A) (e : E) : returns (ok_or o e).
Proof. by destruct o. Qed.
Lemma returns_map_err {E F A} (f : E -> F) (m : outcome E A) : returns m -> returns (map_err f m).
Proof. by destruct m. Qed.
Lemma returns_bind {E A B} (m : outcome E A) (k : A -> outcome E B) :
  returns m -> (forall a, m = Ok a -> returns (k a)) -> returns (obind m k).
Proof. destruct m; simpl; intros; [by eauto|done|done]. Qed.
#[export] Hint Resolve returns_Ok returns_Err returns_require returns_ok_or returns_map_err : wcash.

(** [no_panic] walks through the steps of a computation. *)
Ltac no_panic :=
  repeat first
    [ progress eauto with wcash
    | apply returns_bind; [|intros]
    | apply returns_map_err ].

(** ** Loops that stop at the first error *)

(** The results of a fallible function on a list, in order. *)
Fixpoint traverse {E A B : Type} (f : A -> outcome E B) (l : list A) : outcome E (list B) :=
  match l with
  | [] => Ok []
  | a :: l => let? b := f a in let? bs := traverse f l in Ok (b :: bs)
  end.

(** [try_for_each], with the index of [enumerate]. *)
Fixpoint try_for_each {E A : Type} (f : Z -> A -> outcome E unit) (i : Z) (l : list A) : outcome E unit :=
  match l with
  | [] => Ok tt
  | a :: l => do? f i a in try_for_each f (i + 1) l
  end.

Lemma traverse_Ok {E A B} (f : A -> outcome E B) l bs :
  traverse f l = Ok bs <-> Forall2 (fun a b => f a = Ok b) l bs.
Proof.
  revert bs. induction l as [|a l IH]; intros bs; simpl.
  - split; [by intros [= <-]|by inversion 1].
  - rewrite obind_Ok. split.
    + intros (b & Hb & (cs & Hc & [= <-])%obind_Ok). constructor; [done|]. by apply IH.
    + inversion 1 as [|? b ? cs Hb Hc]; subst. exists b. split; [done|]. apply IH in Hc. by rewrite Hc.
Qed.

Lemma traverse_returns {E A B} (f : A -> outcome E B) l :
  Forall (fun a => returns (f a)) l -> returns (traverse f l).
Proof. induction 1; simpl; [done|]. by repeat (apply returns_bind; [done|intros]). Qed.

Lemma try_for_each_Ok {E A} (f : Z -> A -> outcome E unit) i l u :
  try_for_each f i l = Ok u <-> forall k a, l !! k = Some a -> f (i + Z.of_nat k) a = Ok tt.
Proof.
  destruct u. revert i. induction l as [|a l IH]; intros i; simpl.
  - split; [|done]. intros _ k b. by rewrite lookup_nil.
  - rewrite obind_Ok. split.
    + intros ([] & Ha & Hl) [|k] b Hb; [injection Hb as <-; by rewrite Z.add_0_r|].
      replace (i + Z.of_nat (S k)) with (i + 1 + Z.of_nat k) by lia. by apply (proj1 (IH _) Hl).
    + intros Hl. exists tt. split; [specialize (Hl 0%nat a eq_refl); by rewrite Z.add_0_r in Hl|].
      apply IH. intros k b Hb. specialize (Hl (S k) b Hb).
      by replace (i + Z.of_nat (S k)) with (i + 1 + Z.of_nat k) in Hl by lia.
Qed.

Lemma try_for_each_returns {E A} (f : Z -> A -> outcome E unit) i l :
  (forall k a, l !! k = Some a -> returns (f (i + Z.of_nat k) a)) -> returns (try_for_each f i l).
Proof.
  revert i. induction l as [|a l IH]; intros i Hl; simpl; [done|]. apply returns_bind.
  - specialize (Hl 0%nat a eq_refl). by rewrite Z.add_0_r in Hl.
  - intros _ _. apply IH. intros k b Hb. specialize (Hl (S k) b Hb).
    by replace (i + Z.of_nat (S k)) with (i + 1 + Z.of_nat k) in Hl by lia.
Qed.

(** [by_eval] proves a concrete conjunction of comparisons and equations by evaluation. *)
Ltac by_eval := vm_compute; repeat split; congruence.

(** ** Bits and powers of two *)

Lemma land_pow2 x n : 0 <= n -> Z.land x (2 ^ n) = if Z.testbit x n then 2 ^ n else 0.
Proof.
  intros Hn. apply Z.bits_inj'. intros i Hi. rewrite Z.land_spec, Z.pow2_bits_eqb by done.
  destruct (Z.eqb_spec n i) as [->|Hne].
  - destruct (Z.testbit x i) eqn:Hx; simpl; [by rewrite Z.pow2_bits_true|by rewrite Z.bits_0].
  - rewrite andb_false_r. destruct (Z.testbit x n); [|by rewrite Z.bits_0].
    by rewrite Z.pow2_bits_false by lia.
Qed.

Lemma land_ones_mod x n : 0 <= n -> Z.land x (2 ^ n - 1) = x mod 2 ^ n.
Proof. intros. rewrite <- Z.land_ones by done. by rewrite Z.ones_equiv, <- Z.sub_1_r. Qed.

Lemma pow_pos_le b n m : 0 < b -> 0 <= n <= m -> 0 < b ^ n <= b ^ m.
Proof. intros. split; [apply Z.pow_pos_nonneg; lia|apply Z.pow_le_mono_r; lia]. Qed.

(** ** Lists *)

(** A list without repetitions that is contained in another of the same length is
    a permutation of it. *)
Lemma NoDup_same_length {A} (l k : list A) : NoDup l -> (forall x, x ∈ l -> x ∈ k) -> (length k <= length l)%nat -> l ≡ₚ k.
Proof. intros N I L. apply submseteq_length_Permutation; [by apply NoDup_submseteq|lia]. Qed.

(** The size of the set of the elements of a list. *)
Lemma remove_dups_length `{EqDecision A} (l : list A) : length (remove_dups l) = length l <-> NoDup l.
Proof.
  split.
  - intros E. rewrite <- (NoDup_same_length (remove_dups l) l); [apply NoDup_remove_dups|apply NoDup_remove_dups|by setoid_rewrite elem_of_remove_dups|lia].
  - intros N. apply Permutation_length, NoDup_Permutation; [apply NoDup_remove_dups|done|]. intros x. by rewrite elem_of_remove_dups.
Qed.

Lemma elem_of_take_1 {A} (x : A) n l : x ∈ take n l -> x ∈ l.
Proof. intros. rewrite <- (take_drop n l). apply elem_of_app. by left. Qed.

Lemma elem_of_drop_1 {A} (x : A) n l : x ∈ drop n l -> x ∈ l.
Proof. intros. rewrite <- (take_drop n l). apply elem_of_app. by right. Qed.

(** Bytes are keys of maps and sets. *)
#[global] Instance byte_countable : Countable byte.
Proof.
  apply (inj_countable Byte.to_N Byte.of_N). intros b. apply Byte.of_to_N.
Defined.

(** [Vec::swap_remove]: what is left without the element at an index. *)
Definition swap_remove {A : Type} (i : nat) (l : list A) : list A :=
  match last l with Some y => take (length l - 1) (<[i := y]> l) | None => l end.
Lemma swap_remove_perm {A : Type} (l : list A) i x : l !! i = Some x -> l ≡ₚ x :: swap_remove i l.
Proof.
  destruct l as [|y l _] using rev_ind; [done|]. intros Hx. pose proof (lookup_lt_Some _ _ _ Hx) as Hi. unfold swap_remove. rewrite last_snoc.
  rewrite length_app in *. cbn in *. replace (length l + 1 - 1)%nat with (length l) by lia. destruct (decide (i = length l)) as [->|Ni].
  - rewrite lookup_app_r, Nat.sub_diag in Hx by lia. injection Hx as ->. rewrite insert_app_r_alt, take_app_le, take_ge by lia.
    symmetry. apply Permutation_cons_append.
  - rewrite lookup_app_l in Hx by lia. rewrite insert_app_l, take_app_le, take_ge by (rewrite ?length_insert; lia).
    rewrite insert_take_drop by lia. rewrite <- (take_drop_middle l i x) at 1 by done. rewrite <- app_assoc. cbn.
    rewrite <- Permutation_middle. constructor. apply Permutation_app_head. symmetry. apply Permutation_cons_append.
Qed.
