(* ===== verification/Amounts.v ===== *)
(** * Zatoshi amounts ([zebra-chain/src/amount.rs])

    [Amount<C>] is an [i64] tagged with a [Constraint] that fixes the range of
    its values.  Every arithmetic operation re-validates its result.  The two
    compiled profiles of the node differ in [MAX_MONEY] only, so the profile is
    a type class with the two builds as instances; every theorem holds of both. *)

From S2P Require Import Prelude.

(** Number of zatoshis in one coin. *)
Definition COIN : Z := 100000000.

(** ** The compiled consensus profile *)

(** What the arithmetic relies on: [MAX_MONEY] leaves room for the sum of two
    amounts in an [i64]. *)
Class ConsensusBuild := {
  MAX_MONEY : Z;
  MAX_MONEY_pos : 0 < MAX_MONEY;
  MAX_MONEY_headroom : 2 * MAX_MONEY <= I64_MAX
}.

(** [MAX_MONEY] without the [wcash-consensus] feature. *)
Definition ZCASH_MAX_MONEY : Z := 21000000 * COIN.
(** [MAX_MONEY] with the [wcash-consensus] feature: [i64::MAX / 2]. *)
Definition WCASH_MAX_MONEY : Z := I64_MAX / 2.

Definition zcash_build : ConsensusBuild.
Proof. refine {| MAX_MONEY := ZCASH_MAX_MONEY |}; by vm_compute. Defined.

Definition wcash_build : ConsensusBuild.
Proof. refine {| MAX_MONEY := WCASH_MAX_MONEY |}; by vm_compute. Defined.

(** Maximum value of the inherited transaction-library types. *)
Definition MAX_SINGLE_TRANSACTION_VALUE : Z := 21000000 * COIN.
Definition MAX_WCASH_COINBASE_VALUE : Z := MAX_SINGLE_TRANSACTION_VALUE.

Module Amount.

(** The marker types that implement the trait [Constraint]. *)
Inductive Constraint := NegativeAllowed | NonNegative | NegativeOrZero.

#[global] Instance Constraint_eq_dec : EqDecision Constraint.
Proof. solve_decision. Defined.

(** [pub enum Error]. *)
Inductive Error :=
| ConstraintError (value : Z) (range : Z * Z)
| Convert (value : Z)
| MultiplicationOverflow (amount multiplier overflowing_result : Z)
| DivideByZero (amount : Z)
| SumOverflow (partial_sum : Z) (remaining_items : nat).

#[global] Instance Error_eq_dec : EqDecision Error.
Proof. solve_decision. Defined.

(** [pub struct Amount<C>(i64, PhantomData<C>)]. *)
Record Amount (C : Constraint) := mk { zatoshis : Z }.
Arguments mk {C} zatoshis.
Arguments zatoshis {C} a : rename.

#[global] Instance Amount_eq_dec C : EqDecision (Amount C).
Proof. solve_decision. Defined.

Section operations.
Context `{ConsensusBuild}.

(** [Constraint::valid_range]. *)
Definition valid_range (C : Constraint) : Z * Z :=
  match C with
  | NegativeAllowed => (- MAX_MONEY, MAX_MONEY)
  | NonNegative => (0, MAX_MONEY)
  | NegativeOrZero => (- MAX_MONEY, 0)
  end.

(** [Constraint::validate]. *)
Definition validate (C : Constraint) (value : Z) : outcome Error Z :=
  let range := valid_range C in
  if negb (within range.1 range.2 value) then Err (ConstraintError value range) else Ok value.

(** [TryFrom<i64>] and, after the widening of its argument, [TryFrom<i32>]. *)
Definition try_from_i64 (C : Constraint) (value : Z) : outcome Error (Amount C) :=
  let? v := validate C value in
  Ok (mk v).

(** [TryFrom<u64>]. *)
Definition try_from_u64 (C : Constraint) (value : Z) : outcome Error (Amount C) :=
  let? value := ok_or (i64_checked value) (Convert value) in
  let? v := validate C value in
  Ok (mk v).

(** [TryFrom<i128>]. *)
Definition try_from_i128 (C : Constraint) (value : Z) : outcome Error (Amount C) :=
  let? value := ok_or (i64_checked value) (Convert value) in
  let? v := validate C value in
  Ok (mk v).

(** [Amount::<NonNegative>::new]. *)
Definition new {E} (zatoshis : Z) : outcome E (Amount NonNegative) :=
  do? assert_that ((zatoshis <=? MAX_MONEY) && (zatoshis >=? 0)) in
  Ok (mk zatoshis).

(** [Amount::<NonNegative>::new_from_zec]. *)
Definition new_from_zec {E} (zec_value : Z) : outcome E (Amount NonNegative) :=
  let? z := expect (i64_checked (zec_value * COIN)) in
  new z.

(** [Amount::<NonNegative>::div_exact]: [checked_div] fails on a zero divisor
    and on [i64::MIN / -1]. *)
Definition div_exact {E} (self : Amount NonNegative) (rhs : Z) : outcome E (Amount NonNegative) :=
  let? result := expect (if rhs =? 0 then None else i64_checked (Z.quot (zatoshis self) rhs)) in
  do? assert_that (Z.rem (zatoshis self) rhs =? 0) in
  Ok (mk result).

(** [Amount::constrain]. *)
Definition constrain {C} (C2 : Constraint) (self : Amount C) : outcome Error (Amount C2) :=
  try_from_i64 C2 (zatoshis self).

(** [Amount::checked_sub], into [Amount<NegativeAllowed>]. *)
Definition checked_sub {C C2} (self : Amount C) (rhs : Amount C2) : option (Amount NegativeAllowed) :=
  match i64_checked (zatoshis self - zatoshis rhs) with
  | Some v => ok (try_from_i64 NegativeAllowed v)
  | None => None
  end.

(** [Amount::to_bytes]. *)
Definition to_bytes {C} (self : Amount C) : list byte := to_le 8 (zatoshis self).

(** [Amount::from_bytes]. *)
Definition from_bytes (C : Constraint) (bytes : list byte) : outcome Error (Amount C) :=
  try_from_i64 C (of_le_signed bytes).

(** [Amount::zero]: [0.try_into().expect(..)]. *)
Definition zero {E} (C : Constraint) : outcome E (Amount C) := expect_ok (try_from_i64 C 0).

(** [Amount::is_zero]. *)
Definition is_zero {C} (self : Amount C) : bool := zatoshis self =? 0.

(** [impl Add<Amount<C>> for Amount<C>]. *)
Definition add {C} (self rhs : Amount C) : outcome Error (Amount C) :=
  let? value := expect (i64_checked (zatoshis self + zatoshis rhs)) in
  try_from_i64 C value.

(** [impl Add<Amount<C>> for Result<Amount<C>>]. *)
Definition add_result {C} (self : outcome Error (Amount C)) (rhs : Amount C) :
    outcome Error (Amount C) :=
  let? lhs := self in
  add lhs rhs.

(** [impl Add<Result<Amount<C>>> for Amount<C>]. *)
Definition add_to_result {C} (self : Amount C) (rhs : outcome Error (Amount C)) :
    outcome Error (Amount C) :=
  let? rhs := rhs in
  add self rhs.

(** [impl Sub<Amount<C>> for Amount<C>]. *)
Definition sub {C} (self rhs : Amount C) : outcome Error (Amount C) :=
  let? value := expect (i64_checked (zatoshis self - zatoshis rhs)) in
  try_from_i64 C value.

(** [impl Sub<Amount<C>> for Result<Amount<C>>]. *)
Definition sub_result {C} (self : outcome Error (Amount C)) (rhs : Amount C) :
    outcome Error (Amount C) :=
  let? lhs := self in
  sub lhs rhs.

(** [impl Sub<Result<Amount<C>>> for Amount<C>]. *)
Definition sub_to_result {C} (self : Amount C) (rhs : outcome Error (Amount C)) :
    outcome Error (Amount C) :=
  let? rhs := rhs in
  sub self rhs.

(** [impl AddAssign<Amount<C>> for Result<Amount<C>>]: an error stays in place. *)
Definition add_assign {C} (self : outcome Error (Amount C)) (rhs : Amount C) :
    outcome Error (Amount C) :=
  match self with
  | Ok lhs => add lhs rhs
  | _ => self
  end.

(** [impl SubAssign<Amount<C>> for Result<Amount<C>>]. *)
Definition sub_assign {C} (self : outcome Error (Amount C)) (rhs : Amount C) :
    outcome Error (Amount C) :=
  match self with
  | Ok lhs => sub lhs rhs
  | _ => self
  end.

(** [PartialEq] and [Ord]: amounts compare by value, whatever their constraints. *)
Definition eqb {C1 C2} (self : Amount C1) (other : Amount C2) : bool :=
  zatoshis self =? zatoshis other.
Definition cmp {C1 C2} (self : Amount C1) (other : Amount C2) : comparison :=
  Z.compare (zatoshis self) (zatoshis other).

(** [impl From<Amount<NonNegative>> for u64]. *)
Definition to_u64 {E} (amount : Amount NonNegative) : outcome E Z :=
  expect (u64_checked (zatoshis amount)).

(** [impl Mul<u64> for Amount<C>], in [i128]. *)
Definition mul {C} (self : Amount C) (rhs : Z) : outcome Error (Amount C) :=
  let? value := expect (i128_checked (zatoshis self * rhs)) in
  map_err (fun _ => MultiplicationOverflow (zatoshis self) rhs value) (try_from_i128 C value).

(** [impl Div<u64> for Amount<C>], in [i128]; Rust division truncates. *)
Definition div {C} (self : Amount C) (rhs : Z) : outcome Error (Amount C) :=
  let? quotient := ok_or (if rhs =? 0 then None else i128_checked (Z.quot (zatoshis self) rhs))
                     (DivideByZero (zatoshis self)) in
  expect_ok (try_from_i128 C quotient).

(** [iter.try_fold(zero, add)]: the accumulator or the error, and the items
    left in the iterator. *)
Fixpoint try_fold {C} (acc : Amount C) (iter : list (Amount C)) :
    outcome Error (Amount C) * list (Amount C) :=
  match iter with
  | [] => (Ok acc, [])
  | amount :: rest =>
      match add acc amount with
      | Ok acc' => try_fold acc' rest
      | failure => (failure, rest)
      end
  end.

(** [impl Sum<Amount<C>> for Result<Amount<C>>]. *)
Definition sum {C} (iter : list (Amount C)) : outcome Error (Amount C) :=
  let? z := zero C in
  match try_fold z iter with
  | (Ok sum, _) => Ok sum
  | (Err (ConstraintError value _), rest) => Err (SumOverflow value (length rest))
  | (_, _) => Panic
  end.

(** [impl Neg for Amount<C>]: the [i64] negation wraps on [i64::MIN]. *)
Definition neg {E C} (self : Amount C) : outcome E (Amount NegativeAllowed) :=
  expect_ok (try_from_i64 NegativeAllowed (wrap_i 64 (- zatoshis self))).

(** [Error::invalid_value]. *)
Definition invalid_value (self : Error) : Z :=
  match self with
  | ConstraintError value _ => value
  | Convert value => value
  | MultiplicationOverflow _ _ overflowing_result => overflowing_result
  | DivideByZero amount => amount
  | SumOverflow partial_sum _ => partial_sum
  end.

(** [ZcashSerialize] and [ZcashDeserialize] for [Amount<NonNegative>]: a
    [u64], read back through [TryFrom<u64>]. *)
Definition zcash_serialize_non_negative {E} (self : Amount NonNegative) : outcome E (list byte) :=
  let? amount := expect (u64_checked (zatoshis self)) in
  Ok (to_le 8 amount).
Definition zcash_deserialize_non_negative (bytes : list byte) : outcome Error (Amount NonNegative) :=
  try_from_u64 NonNegative (of_le bytes).

(** [ZcashSerialize] and [ZcashDeserialize] for [Amount<NegativeAllowed>]. *)
Definition zcash_serialize_negative_allowed (self : Amount NegativeAllowed) : list byte :=
  to_le 8 (zatoshis self).
Definition zcash_deserialize_negative_allowed (bytes : list byte) :
    outcome Error (Amount NegativeAllowed) :=
  try_from_i64 NegativeAllowed (of_le_signed bytes).

(** [DeferredPoolBalanceChange], a wrapper of [Amount<NegativeAllowed>]. *)
Record DeferredPoolBalanceChange := deferred_new { deferred_value : Amount NegativeAllowed }.
Definition deferred_zero {E} : outcome E DeferredPoolBalanceChange :=
  let? z := zero NegativeAllowed in
  Ok (deferred_new z).
End operations.

(** ** The type invariant: the range of the constraint *)

Section properties.
Context `{ConsensusBuild}.

Definition valid {C} (a : Amount C) : Prop :=
  (valid_range C).1 <= zatoshis a <= (valid_range C).2.

Lemma valid_range_i64 C :
  - MAX_MONEY <= (valid_range C).1 <= 0 /\ 0 <= (valid_range C).2 <= MAX_MONEY.
Proof. pose proof MAX_MONEY_pos. destruct C; simpl; lia. Qed.

Lemma valid_bounds {C} (a : Amount C) : valid a -> - MAX_MONEY <= zatoshis a <= MAX_MONEY.
Proof. unfold valid. pose proof (valid_range_i64 C). lia. Qed.

Lemma amount_ext {C} (a b : Amount C) : zatoshis a = zatoshis b -> a = b.
Proof. destruct a, b; simpl; by intros ->. Qed.

(** [try_from_i64] is the range check and nothing else. *)
Lemma try_from_i64_unfold C v :
  try_from_i64 C v =
    if within (valid_range C).1 (valid_range C).2 v
    then Ok (mk v) else Err (ConstraintError v (valid_range C)).
Proof. unfold try_from_i64, validate. by destruct (within _ _ v). Qed.

Lemma try_from_i64_Ok C v a :
  try_from_i64 C v = Ok a <-> zatoshis a = v /\ valid a.
Proof.
  rewrite try_from_i64_unfold. unfold valid. destruct (within _ _ v) eqn:Hw.
  - apply within_spec in Hw. split; [by intros [= <-]|].
    intros [<- ?]. f_equal. by apply amount_ext.
  - apply within_false in Hw. split; [done|]. intros [-> ?]. tauto.
Qed.

Lemma try_from_i64_valid {C} (a : Amount C) : valid a -> try_from_i64 C (zatoshis a) = Ok a.
Proof. intros. by apply try_from_i64_Ok. Qed.

Lemma try_from_i64_zero C : try_from_i64 C 0 = Ok (mk 0).
Proof. apply try_from_i64_Ok. split; [done|]. unfold valid. pose proof (valid_range_i64 C). simpl; lia. Qed.

Lemma zero_Ok {E} C : zero (E:=E) C = Ok (mk 0).
Proof. unfold zero. by rewrite try_from_i64_zero. Qed.

Lemma valid_zero C : valid (C:=C) (mk 0).
Proof. unfold valid. pose proof (valid_range_i64 C). simpl; lia. Qed.

(** The range check applied to an exact result. *)
Definition in_range (C : Constraint) (v : Z) : outcome Error (Amount C) :=
  if within (valid_range C).1 (valid_range C).2 v
  then Ok (mk v) else Err (ConstraintError v (valid_range C)).

Lemma in_range_ok C v : within (valid_range C).1 (valid_range C).2 v = true -> in_range C v = Ok (mk v).
Proof. unfold in_range. by intros ->. Qed.

Lemma in_range_Ok C v a : in_range C v = Ok a <-> zatoshis a = v /\ valid a.
Proof. unfold in_range. rewrite <- try_from_i64_unfold. apply try_from_i64_Ok. Qed.

Lemma add_in_range {C} (a b : Amount C) :
  valid a -> valid b -> add a b = in_range C (zatoshis a + zatoshis b).
Proof.
  intros Ha%valid_bounds Hb%valid_bounds. pose proof MAX_MONEY_headroom. unfold add.
  rewrite checked_ok by bool_lia. simpl. by rewrite try_from_i64_unfold.
Qed.

Lemma sub_in_range {C} (a b : Amount C) :
  valid a -> valid b -> sub a b = in_range C (zatoshis a - zatoshis b).
Proof.
  intros Ha%valid_bounds Hb%valid_bounds. pose proof MAX_MONEY_headroom. unfold sub.
  rewrite checked_ok by bool_lia. simpl. by rewrite try_from_i64_unfold.
Qed.

Lemma neg_exact {E C} (a : Amount C) : valid a -> neg (E:=E) a = Ok (mk (- zatoshis a)).
Proof.
  intros Ha%valid_bounds. pose proof MAX_MONEY_headroom. unfold neg.
  rewrite wrap_i_small by bool_lia. rewrite try_from_i64_unfold. simpl.
  by rewrite (proj2 (within_spec _ _ _)) by lia.
Qed.

(** Exact total of a list of amounts. *)
Definition total {C} (l : list (Amount C)) : Z := foldr (fun a t => zatoshis a + t) 0 l.

Definition range_ok (C : Constraint) (v : Z) : bool :=
  within (valid_range C).1 (valid_range C).2 v.

Lemma total_nonneg (l : list (Amount NonNegative)) : Forall valid l -> 0 <= total l.
Proof.
  induction 1 as [|a l V _ IH]; [done|]. change (0 <= zatoshis a + total l).
  assert (0 <= zatoshis a) by apply V. lia.
Qed.
Lemma total_app {C} (l k : list (Amount C)) : total (l ++ k) = total l + total k.
Proof. induction l as [|a l IH]; simpl; [done|]. rewrite IH. lia. Qed.

(** [overflows_at acc l k]: adding [l] to [acc] item by item, the sum first
    leaves the range at item [k]. *)
Definition overflows_at {C} (acc : Z) (l : list (Amount C)) (k : nat) : Prop :=
  (k < length l)%nat /\
  (forall j, (j <= k)%nat -> range_ok C (acc + total (take j l)) = true) /\
  range_ok C (acc + total (take (S k) l)) = false.

Lemma overflows_at_head {C} acc (a : Amount C) l :
  range_ok C acc = true -> range_ok C (acc + zatoshis a) = false -> overflows_at acc (a :: l) 0.
Proof.
  intros H1 H2. split_and!; simpl; [lia| |by rewrite Z.add_0_r].
  intros j ?. replace j with 0%nat by lia. simpl. by rewrite Z.add_0_r.
Qed.

Lemma overflows_at_tail {C} acc (a : Amount C) l k :
  range_ok C acc = true -> overflows_at (acc + zatoshis a) l k -> overflows_at acc (a :: l) (S k).
Proof.
  intros H0 (Hk & Hp & Hf). split_and!; [simpl; lia| |].
  - intros [|j] Hj; simpl; [by rewrite Z.add_0_r|]. rewrite Z.add_assoc. apply Hp. lia.
  - rewrite firstn_cons. simpl. by rewrite Z.add_assoc.
Qed.

(** The two ways a fold over valid amounts ends. *)
Lemma try_fold_cases {C} (l : list (Amount C)) (acc : Amount C) :
  valid acc -> Forall valid l ->
  (try_fold acc l = (Ok (mk (zatoshis acc + total l)), []) /\
   forall j, range_ok C (zatoshis acc + total (take j l)) = true) \/
  exists k, overflows_at (zatoshis acc) l k /\
    try_fold acc l =
      (Err (ConstraintError (zatoshis acc + total (take (S k) l)) (valid_range C)),
       drop (S k) l).
Proof.
  intros Hacc Hl. revert acc Hacc.
  induction Hl as [|a l Ha Hl IH]; intros acc Hacc; simpl.
  { left. rewrite Z.add_0_r. split; [by destruct acc|]. intros j. rewrite take_nil; simpl.
    rewrite Z.add_0_r. by apply within_spec. }
  assert (range_ok C (zatoshis acc) = true) as Hacc' by by apply within_spec.
  rewrite add_in_range by done. unfold in_range. fold (range_ok C (zatoshis acc + zatoshis a)).
  destruct (range_ok C (zatoshis acc + zatoshis a)) eqn:Hr.
  - apply within_spec in Hr. destruct (IH (mk (zatoshis acc + zatoshis a)) Hr)
      as [[-> Hp]|(k & Hk & ->)]; cbn [zatoshis] in *.
    + left. split; [by rewrite Z.add_assoc|]. intros [|j]; [by rewrite Z.add_0_r|].
      simpl. rewrite Z.add_assoc. apply Hp.
    + right. exists (S k). split; [by apply overflows_at_tail|].
      simpl. by rewrite Z.add_assoc.
  - right. exists 0%nat. split; [by apply overflows_at_head|].
    simpl. by rewrite drop_0, Z.add_0_r.
Qed.

Lemma sum_Ok {C} (l : list (Amount C)) s :
  Forall valid l -> sum l = Ok s -> zatoshis s = total l /\ valid s.
Proof.
  intros Hl. unfold sum. rewrite zero_Ok. cbn [obind].
  destruct (try_fold_cases l (mk 0) (valid_zero C) Hl) as [[-> Hp]|(k & Hk & ->)]; [|done].
  intros [= <-]. split; [done|]. specialize (Hp (length l)). rewrite take_ge in Hp by lia.
  by apply within_spec in Hp.
Qed.

(** Adding or subtracting two valid amounts never panics, is exact when the
    result satisfies the constraint, and otherwise returns a constraint error
    that carries the exact result; so a successful result is always valid. *)
Theorem add_sub_exact C (a b : Amount C) :
  valid a -> valid b ->
  add a b = in_range C (zatoshis a + zatoshis b) /\
  sub a b = in_range C (zatoshis a - zatoshis b) /\
  (forall c, add a b = Ok c -> valid c) /\ (forall c, sub a b = Ok c -> valid c).
Proof.
  intros Ha Hb. rewrite add_in_range, sub_in_range by done.
  split_and!; try done; intros c Hc; by apply in_range_Ok in Hc as [_ ?].
Qed.

(** Summing valid amounts succeeds exactly when every partial sum is in
    range, with the exact total; otherwise the error carries the first partial
    sum out of range and the number of items not yet added.  It never panics. *)
Theorem sum_exact C (l : list (Amount C)) :
  Forall valid l ->
  (sum l = Ok (mk (total l)) /\ forall j, range_ok C (total (take j l)) = true) \/
  exists k, overflows_at 0 l k /\
    sum l = Err (SumOverflow (total (take (S k) l)) (length l - S k)).
Proof.
  intros Hl. unfold sum. rewrite zero_Ok. simpl.
  destruct (try_fold_cases l (mk 0) (valid_zero C) Hl) as [[-> Hp]|(k & Hk & ->)];
    cbn [zatoshis] in *.
  - left. by split.
  - right. exists k. split; [done|]. by rewrite length_drop.
Qed.

Lemma mul_div_i128 {C} (a : Amount C) n :
  valid a -> 0 <= n <= U64_MAX -> I128_MIN <= zatoshis a * n <= I128_MAX.
Proof.
  intros Ha%valid_bounds Hn. pose proof MAX_MONEY_headroom. unfold_widths.
  assert (- (4611686018427387904 * 18446744073709551615) <= zatoshis a * n
          <= 4611686018427387904 * 18446744073709551615); [|lia].
  split; nia.
Qed.

Lemma quot_between a n : 0 < n -> (0 <= a -> 0 <= Z.quot a n <= a) /\ (a <= 0 -> a <= Z.quot a n <= 0).
Proof.
  intros Hn. split; intros Ha.
  - split; [by apply Z.quot_pos|]. apply Z.quot_le_upper_bound; nia.
  - split; [|pose proof (Z.quot_pos (- a) n); rewrite Z.quot_opp_l in *; lia].
    apply Z.quot_le_lower_bound; nia.
Qed.

Lemma quot_valid {C} (a : Amount C) n : valid a -> 0 < n -> valid (C:=C) (mk (Z.quot (zatoshis a) n)).
Proof.
  unfold valid. intros Ha Hn. pose proof (valid_range_i64 C).
  pose proof (quot_between (zatoshis a) n Hn). cbn [zatoshis]. lia.
Qed.

Lemma try_from_i128_in_range C v :
  try_from_i128 C v =
    match i64_checked v with Some _ => in_range C v | None => Err (Convert v) end.
Proof.
  unfold try_from_i128. destruct (i64_checked v) as [w|] eqn:Hw; [|done].
  apply checked_Some in Hw as [-> _]. unfold in_range. by rewrite <- try_from_i64_unfold.
Qed.

Lemma try_from_i128_valid {C} (a : Amount C) : valid a -> try_from_i128 C (zatoshis a) = Ok a.
Proof.
  intros Ha. pose proof (valid_bounds a Ha). pose proof MAX_MONEY_headroom.
  rewrite try_from_i128_in_range, checked_ok by bool_lia. by apply in_range_Ok.
Qed.

(** Multiplying a valid amount by a [u64] is exact when the product is in
    range and a multiplication error carrying the exact product otherwise;
    dividing truncates towards zero, is always in range, and fails on zero
    only; negation is exact.  None of the three panics. *)
Theorem mul_div_neg_exact C (a : Amount C) n :
  valid a -> 0 <= n <= U64_MAX ->
  mul a n = (if range_ok C (zatoshis a * n) then Ok (mk (zatoshis a * n))
             else Err (MultiplicationOverflow (zatoshis a) n (zatoshis a * n))) /\
  div a n = (if n =? 0 then Err (DivideByZero (zatoshis a))
             else Ok (mk (Z.quot (zatoshis a) n))) /\
  neg (E:=Error) a = Ok (mk (- zatoshis a)).
Proof.
  intros Ha Hn. pose proof (mul_div_i128 a n Ha Hn). split_and!; [| |by apply neg_exact].
  - unfold mul. rewrite checked_ok by done. simpl. rewrite try_from_i128_in_range.
    unfold in_range. fold (range_ok C (zatoshis a * n)).
    destruct (i64_checked _) eqn:Hc; [by destruct (range_ok _ _)|].
    apply checked_None in Hc. destruct (range_ok C (zatoshis a * n)) eqn:Hr; [|done].
    apply within_spec in Hr. pose proof (valid_range_i64 C). pose proof MAX_MONEY_headroom.
    bool_lia.
  - unfold div. destruct (n =? 0) eqn:Hz; [done|].
    assert (valid (C:=C) (mk (Z.quot (zatoshis a) n))) as Hq by (apply quot_valid; [done|lia]).
    pose proof (valid_bounds _ Hq). pose proof MAX_MONEY_headroom. cbn [zatoshis] in *.
    rewrite checked_ok by bool_lia. simpl.
    by rewrite (try_from_i128_valid (mk (Z.quot (zatoshis a) n))) by done.
Qed.

(** The eight little-endian bytes of a valid amount read back to it, and
    bytes that read as an amount are exactly its encoding. *)
Theorem bytes_roundtrip C (a : Amount C) bytes :
  length bytes = 8%nat -> valid a -> (from_bytes C bytes = Ok a <-> bytes = to_bytes a).
Proof.
  intros Hlen Ha. pose proof (valid_bounds a Ha). pose proof MAX_MONEY_headroom.
  assert (of_le_signed (to_le 8 (zatoshis a)) = zatoshis a) as Hrt
    by (apply of_to_le_signed; bool_lia).
  unfold from_bytes, to_bytes. rewrite try_from_i64_Ok. split.
  - intros [-> _]. rewrite <- Hlen, to_of_le_signed by lia. done.
  - by intros ->.
Qed.
End properties.

Lemma add_sub_exact_witness :
  add (H:=wcash_build) (C:=NonNegative) (mk WCASH_MAX_MONEY) (mk 1)
    = Err (ConstraintError (WCASH_MAX_MONEY + 1) (0, WCASH_MAX_MONEY)) /\
  sub (H:=zcash_build) (C:=NegativeAllowed) (mk 5) (mk 12) = Ok (mk (-7)).
Proof.
  split.
  - by rewrite (proj1 (add_sub_exact (H:=wcash_build) NonNegative (mk WCASH_MAX_MONEY) (mk 1)
      ltac:(by_eval) ltac:(split; vm_compute; congruence))).
  - by rewrite (proj1 (proj2 (add_sub_exact (H:=zcash_build) NegativeAllowed (mk 5) (mk 12)
      ltac:(by_eval) ltac:(split; vm_compute; congruence)))).
Defined.

Lemma sum_exact_witness :
  let l := [mk 5; mk ZCASH_MAX_MONEY; mk 1] : list (Amount NonNegative) in
  sum (H:=zcash_build) l = Err (SumOverflow (5 + ZCASH_MAX_MONEY) 1) /\
  (sum (H:=zcash_build) l = Ok (mk (total l)) \/ exists k, overflows_at (H:=zcash_build) 0 l k).
Proof.
  intros l. split; [by vm_compute|].
  destruct (sum_exact (H:=zcash_build) NonNegative l) as [[? _]|(k & ? & _)];
    [repeat constructor; vm_compute; congruence|by left|right; by exists k].
Defined.

Lemma mul_div_neg_exact_witness :
  mul (H:=zcash_build) (C:=NegativeAllowed) (mk (-3)) 4 = Ok (mk (-12)) /\
  div (H:=zcash_build) (C:=NegativeAllowed) (mk (-7)) 2 = Ok (mk (-3)).
Proof.
  split.
  - by rewrite (proj1 (mul_div_neg_exact (H:=zcash_build) NegativeAllowed (mk (-3)) 4
      ltac:(by_eval) ltac:(split; vm_compute; congruence))).
  - by rewrite (proj1 (proj2 (mul_div_neg_exact (H:=zcash_build) NegativeAllowed (mk (-7)) 2
      ltac:(by_eval) ltac:(split; vm_compute; congruence)))).
Defined.

Lemma bytes_roundtrip_witness :
  from_bytes (H:=zcash_build) NegativeAllowed (to_bytes (mk (C:=NegativeAllowed) (-2))) = Ok (mk (-2)).
Proof.
  by apply (bytes_roundtrip (H:=zcash_build) NegativeAllowed (mk (-2)));
    [| by_eval |].
Defined.
End Amount.
