(* ===== verification/ValueBalances.v ===== *)
(** * Value balances ([zebra-chain/src/value_balance.rs])

    One [Amount] per value pool: the transparent, Sprout, Sapling, Orchard,
    deferred and Ironwood pools of a transaction or of the whole chain. *)

From S2P Require Import Prelude Amounts.
Import Amount(Constraint, NegativeAllowed, NonNegative, NegativeOrZero, zatoshis).

Module ValueBalance.

(** [pub struct ValueBalance<C>]. *)
Record ValueBalance (C : Constraint) := mkBalance {
  transparent : Amount.Amount C;
  sprout : Amount.Amount C;
  sapling : Amount.Amount C;
  orchard : Amount.Amount C;
  deferred : Amount.Amount C;
  ironwood : Amount.Amount C
}.
Arguments mkBalance {C}.
Arguments transparent {C} v : rename.
Arguments sprout {C} v : rename.
Arguments sapling {C} v : rename.
Arguments orchard {C} v : rename.
Arguments deferred {C} v : rename.
Arguments ironwood {C} v : rename.

(** [pub enum ValueBalanceError]. *)
Inductive ValueBalanceError :=
| Transparent (e : Amount.Error)
| Sprout (e : Amount.Error)
| Sapling (e : Amount.Error)
| Orchard (e : Amount.Error)
| Deferred (e : Amount.Error)
| Ironwood (e : Amount.Error)
| Total (e : Amount.Error)
| Unparsable.

Section operations.
Context `{ConsensusBuild}.

(** [ValueBalance::zero]. *)
Definition zero {E} (C : Constraint) : outcome E (ValueBalance C) :=
  let? z := Amount.zero C in
  Ok (mkBalance z z z z z z).

(** The [from_*_amount] constructors. *)
Definition from_transparent_amount {E C} (a : Amount.Amount C) : outcome E (ValueBalance C) :=
  let? z := zero C in
  Ok (mkBalance a (sprout z) (sapling z) (orchard z) (deferred z) (ironwood z)).
Definition from_sprout_amount {E C} (a : Amount.Amount C) : outcome E (ValueBalance C) :=
  let? z := zero C in
  Ok (mkBalance (transparent z) a (sapling z) (orchard z) (deferred z) (ironwood z)).
Definition from_sapling_amount {E C} (a : Amount.Amount C) : outcome E (ValueBalance C) :=
  let? z := zero C in
  Ok (mkBalance (transparent z) (sprout z) a (orchard z) (deferred z) (ironwood z)).
Definition from_orchard_amount {E C} (a : Amount.Amount C) : outcome E (ValueBalance C) :=
  let? z := zero C in
  Ok (mkBalance (transparent z) (sprout z) (sapling z) a (deferred z) (ironwood z)).
Definition from_ironwood_amount {E C} (a : Amount.Amount C) : outcome E (ValueBalance C) :=
  let? z := zero C in
  Ok (mkBalance (transparent z) (sprout z) (sapling z) (orchard z) (deferred z) a).

(** The [set_*] methods, as the record they leave behind. *)
Definition set_transparent_value_balance {C} (self v : ValueBalance C) : ValueBalance C :=
  mkBalance (transparent v) (sprout self) (sapling self) (orchard self) (deferred self) (ironwood self).
Definition set_sprout_value_balance {C} (self v : ValueBalance C) : ValueBalance C :=
  mkBalance (transparent self) (sprout v) (sapling self) (orchard self) (deferred self) (ironwood self).
Definition set_sapling_value_balance {C} (self v : ValueBalance C) : ValueBalance C :=
  mkBalance (transparent self) (sprout self) (sapling v) (orchard self) (deferred self) (ironwood self).
Definition set_orchard_value_balance {C} (self v : ValueBalance C) : ValueBalance C :=
  mkBalance (transparent self) (sprout self) (sapling self) (orchard v) (deferred self) (ironwood self).
Definition set_deferred_amount {C} (self : ValueBalance C) (a : Amount.Amount C) : ValueBalance C :=
  mkBalance (transparent self) (sprout self) (sapling self) (orchard self) a (ironwood self).
Definition set_ironwood_value_balance {C} (self v : ValueBalance C) : ValueBalance C :=
  mkBalance (transparent self) (sprout self) (sapling self) (orchard self) (deferred self) (ironwood v).

(** The pool values in the order of [ValueBalance::total]. *)
Definition pools {C} (self : ValueBalance C) : list Z :=
  [zatoshis (transparent self); zatoshis (sprout self); zatoshis (sapling self);
   zatoshis (orchard self); zatoshis (deferred self); zatoshis (ironwood self)].

(** [ValueBalance::total]: an [i128] sum, then [Amount::try_from]. *)
Definition total {C} (self : ValueBalance C) : outcome Amount.Error (Amount.Amount C) :=
  Amount.try_from_i128 C (foldl Z.add 0 (pools self)).

(** [ValueBalance::constrain]. *)
Definition constrain {C} (C2 : Constraint) (self : ValueBalance C) :
    outcome ValueBalanceError (ValueBalance C2) :=
  let? t := map_err Transparent (Amount.constrain C2 (transparent self)) in
  let? sp := map_err Sprout (Amount.constrain C2 (sprout self)) in
  let? sa := map_err Sapling (Amount.constrain C2 (sapling self)) in
  let? o := map_err Orchard (Amount.constrain C2 (orchard self)) in
  let? d := map_err Deferred (Amount.constrain C2 (deferred self)) in
  let? i := map_err Ironwood (Amount.constrain C2 (ironwood self)) in
  Ok (mkBalance t sp sa o d i).

(** [impl Add for ValueBalance<C>]. *)
Definition add {C} (self rhs : ValueBalance C) : outcome ValueBalanceError (ValueBalance C) :=
  let? t := map_err Transparent (Amount.add (transparent self) (transparent rhs)) in
  let? sp := map_err Sprout (Amount.add (sprout self) (sprout rhs)) in
  let? sa := map_err Sapling (Amount.add (sapling self) (sapling rhs)) in
  let? o := map_err Orchard (Amount.add (orchard self) (orchard rhs)) in
  let? d := map_err Deferred (Amount.add (deferred self) (deferred rhs)) in
  let? i := map_err Ironwood (Amount.add (ironwood self) (ironwood rhs)) in
  Ok (mkBalance t sp sa o d i).

(** [impl Sub for ValueBalance<C>]. *)
Definition sub {C} (self rhs : ValueBalance C) : outcome ValueBalanceError (ValueBalance C) :=
  let? t := map_err Transparent (Amount.sub (transparent self) (transparent rhs)) in
  let? sp := map_err Sprout (Amount.sub (sprout self) (sprout rhs)) in
  let? sa := map_err Sapling (Amount.sub (sapling self) (sapling rhs)) in
  let? o := map_err Orchard (Amount.sub (orchard self) (orchard rhs)) in
  let? d := map_err Deferred (Amount.sub (deferred self) (deferred rhs)) in
  let? i := map_err Ironwood (Amount.sub (ironwood self) (ironwood rhs)) in
  Ok (mkBalance t sp sa o d i).

(** The [Add] and [Sub] variants on a [Result], and [AddAssign], [SubAssign]. *)
Definition add_result {C} (self : outcome ValueBalanceError (ValueBalance C)) (rhs : ValueBalance C) :=
  let? lhs := self in
  add lhs rhs.
Definition sub_result {C} (self : outcome ValueBalanceError (ValueBalance C)) (rhs : ValueBalance C) :=
  let? lhs := self in
  sub lhs rhs.
Definition add_assign {C} (self : outcome ValueBalanceError (ValueBalance C)) (rhs : ValueBalance C) :=
  match self with
  | Ok lhs => add lhs rhs
  | _ => self
  end.
Definition sub_assign {C} (self : outcome ValueBalanceError (ValueBalance C)) (rhs : ValueBalance C) :=
  match self with
  | Ok lhs => sub lhs rhs
  | _ => self
  end.

(** [impl Sum<ValueBalance<C>>]. *)
Fixpoint try_fold {C} (acc : ValueBalance C) (iter : list (ValueBalance C)) :
    outcome ValueBalanceError (ValueBalance C) :=
  match iter with
  | [] => Ok acc
  | v :: rest => let? acc := add acc v in try_fold acc rest
  end.
Definition sum {C} (iter : list (ValueBalance C)) : outcome ValueBalanceError (ValueBalance C) :=
  let? z := zero C in
  try_fold z iter.

(** [impl Neg for ValueBalance<C>]. *)
Definition neg {E C} (self : ValueBalance C) : outcome E (ValueBalance NegativeAllowed) :=
  let? t := Amount.neg (transparent self) in
  let? sp := Amount.neg (sprout self) in
  let? sa := Amount.neg (sapling self) in
  let? o := Amount.neg (orchard self) in
  let? d := Amount.neg (deferred self) in
  let? i := Amount.neg (ironwood self) in
  Ok (mkBalance t sp sa o d i).

(** [ValueBalance::<NegativeAllowed>::remaining_transaction_value]. *)
Definition remaining_transaction_value (self : ValueBalance NegativeAllowed) :
    outcome Amount.Error (Amount.Amount NonNegative) :=
  let? value :=
    Amount.add_result (Amount.add_result (Amount.add_result
      (Amount.add (transparent self) (sprout self)) (sapling self)) (orchard self)) (ironwood self) in
  Amount.constrain NonNegative value.

(** [ValueBalance::<NonNegative>::add_chain_value_pool_change]. *)
Definition add_chain_value_pool_change (self : ValueBalance NonNegative)
    (chain_value_pool_change : ValueBalance NegativeAllowed) :
    outcome ValueBalanceError (ValueBalance NonNegative) :=
  let? chain_value_pool := expect_ok (constrain NegativeAllowed self) in
  let? chain_value_pool := add chain_value_pool chain_value_pool_change in
  let? chain_value_pool := constrain NonNegative chain_value_pool in
  do? map_err Total (total chain_value_pool) in
  Ok chain_value_pool.

(** [ValueBalance::<NonNegative>::to_bytes]. *)
Definition to_bytes (self : ValueBalance NonNegative) : list byte :=
  concat [Amount.to_bytes (transparent self); Amount.to_bytes (sprout self);
          Amount.to_bytes (sapling self); Amount.to_bytes (orchard self);
          Amount.to_bytes (deferred self); Amount.to_bytes (ironwood self)].

(** [bytes[lo..lo + 8].try_into().expect(..)]: panics when the slice is out of range. *)
Definition slice8 {E} (bytes : list byte) (lo : nat) : outcome E (list byte) :=
  if (lo + 8 <=? length bytes)%nat then Ok (take 8 (drop lo bytes)) else Panic.

(** [ValueBalance::<NonNegative>::from_bytes]. *)
Definition from_bytes (bytes : list byte) : outcome ValueBalanceError (ValueBalance NonNegative) :=
  let bytes_length := length bytes in
  let read wrap lo :=
    let? b := slice8 bytes lo in map_err wrap (Amount.from_bytes NonNegative b) in
  do? match bytes_length with
      | 32%nat | 40%nat | 48%nat => Ok tt
      | _ => Err Unparsable
      end in
  let? t := read Transparent 0%nat in
  let? sp := read Sprout 8%nat in
  let? sa := read Sapling 16%nat in
  let? o := read Orchard 24%nat in
  let? d := match bytes_length with
            | 32%nat => Amount.zero NonNegative
            | 40%nat | 48%nat => read Deferred 32%nat
            | _ => Err Unparsable
            end in
  let? i := match bytes_length with
            | 32%nat | 40%nat => Amount.zero NonNegative
            | 48%nat => read Ironwood 40%nat
            | _ => Err Unparsable
            end in
  Ok (mkBalance t sp sa o d i).
End operations.

(** ** The type invariant and the operations on it *)

Section properties.
Context `{ConsensusBuild}.

Definition valid {C} (v : ValueBalance C) : Prop :=
  Amount.valid (transparent v) /\ Amount.valid (sprout v) /\ Amount.valid (sapling v) /\
  Amount.valid (orchard v) /\ Amount.valid (deferred v) /\ Amount.valid (ironwood v).

Lemma pools_inj {C} (v w : ValueBalance C) : pools v = pools w -> v = w.
Proof.
  destruct v as [[] [] [] [] [] []], w as [[] [] [] [] [] []]. unfold pools. simpl. congruence.
Qed.

Lemma pools_ext {C D} (v : ValueBalance C) (w : ValueBalance D) :
  zatoshis (transparent v) = zatoshis (transparent w) -> zatoshis (sprout v) = zatoshis (sprout w) ->
  zatoshis (sapling v) = zatoshis (sapling w) -> zatoshis (orchard v) = zatoshis (orchard w) ->
  zatoshis (deferred v) = zatoshis (deferred w) -> zatoshis (ironwood v) = zatoshis (ironwood w) ->
  pools v = pools w.
Proof. unfold pools. congruence. Qed.

(** A value balance of the exact values [z], as a witness that they are in range. *)
Definition of_pools (C : Constraint) (z : list Z) : ValueBalance C :=
  match z with
  | [t; sp; sa; o; d; i] =>
      mkBalance (Amount.mk t) (Amount.mk sp) (Amount.mk sa) (Amount.mk o) (Amount.mk d) (Amount.mk i)
  | _ => mkBalance (Amount.mk 0) (Amount.mk 0) (Amount.mk 0) (Amount.mk 0) (Amount.mk 0) (Amount.mk 0)
  end.

Lemma add_Ok {C} (v w r : ValueBalance C) :
  valid v -> valid w -> (add v w = Ok r <-> pools r = zip_with Z.add (pools v) (pools w) /\ valid r).
Proof.
  intros (?&?&?&?&?&?) (?&?&?&?&?&?). unfold add, valid. rewrite !Amount.add_in_range by done. split.
  - intros Hr. outcome_inv. simpl in *.
    repeat match goal with Hx : Amount.in_range _ _ = Ok _ |- _ =>
      apply Amount.in_range_Ok in Hx as [? ?] end.
    unfold pools; simpl. split; [congruence|done].
  - destruct r as [a b c d e f]. unfold pools. simpl.
    intros [[= Ha Hb Hc Hd He Hf] (?&?&?&?&?&?)].
    rewrite (proj2 (Amount.in_range_Ok _ _ a)), (proj2 (Amount.in_range_Ok _ _ b)),
      (proj2 (Amount.in_range_Ok _ _ c)), (proj2 (Amount.in_range_Ok _ _ d)),
      (proj2 (Amount.in_range_Ok _ _ e)), (proj2 (Amount.in_range_Ok _ _ f)) by done. done.
Qed.

Lemma constrain_Ok {C} C2 (v : ValueBalance C) (r : ValueBalance C2) :
  constrain C2 v = Ok r <-> pools r = pools v /\ valid r.
Proof.
  unfold constrain, valid, Amount.constrain. split.
  - intros Hr. outcome_inv. simpl in *.
    repeat match goal with Hx : Amount.try_from_i64 _ _ = Ok _ |- _ =>
      apply Amount.try_from_i64_Ok in Hx as [? ?] end.
    unfold pools; simpl. split; [congruence|done].
  - destruct r as [a b c d e f]. unfold pools. simpl.
    intros [[= Ha Hb Hc Hd He Hf] (?&?&?&?&?&?)].
    rewrite (proj2 (Amount.try_from_i64_Ok _ _ a)), (proj2 (Amount.try_from_i64_Ok _ _ b)),
      (proj2 (Amount.try_from_i64_Ok _ _ c)), (proj2 (Amount.try_from_i64_Ok _ _ d)),
      (proj2 (Amount.try_from_i64_Ok _ _ e)), (proj2 (Amount.try_from_i64_Ok _ _ f)) by done. done.
Qed.

Lemma returns_in_range C v : returns (Amount.in_range C v).
Proof. unfold Amount.in_range. by destruct (within _ _ v). Qed.
Lemma returns_try_from_i64 C v : returns (Amount.try_from_i64 C v).
Proof. rewrite Amount.try_from_i64_unfold. by destruct (within _ _ v). Qed.
Lemma returns_try_from_i128 C v : returns (Amount.try_from_i128 C v).
Proof. rewrite Amount.try_from_i128_in_range. destruct (i64_checked v); [apply returns_in_range|done]. Qed.
#[local] Hint Resolve returns_in_range returns_try_from_i64 returns_try_from_i128 : wcash.

Lemma add_returns {C} (v w : ValueBalance C) : valid v -> valid w -> returns (add v w).
Proof.
  intros (?&?&?&?&?&?) (?&?&?&?&?&?). unfold add. rewrite !Amount.add_in_range by done. no_panic.
Qed.

Lemma constrain_returns {C} C2 (v : ValueBalance C) : returns (constrain C2 v).
Proof. unfold constrain, Amount.constrain. no_panic. Qed.

(** Exact sum of the pools. *)
Definition pool_sum {C} (v : ValueBalance C) : Z := foldr Z.add 0 (pools v).

Lemma total_unfold {C} (v : ValueBalance C) : total v = Amount.try_from_i128 C (pool_sum v).
Proof. unfold total, pool_sum, pools. simpl. f_equal. lia. Qed.

Lemma total_Ok {C} (v : ValueBalance C) a :
  total v = Ok a <-> zatoshis a = pool_sum v /\ Amount.valid a.
Proof.
  rewrite total_unfold, Amount.try_from_i128_in_range.
  destruct (i64_checked _) eqn:Hc; [apply Amount.in_range_Ok|].
  apply checked_None in Hc. split; [done|]. intros [Heq Hv].
  pose proof (Amount.valid_bounds a Hv). pose proof MAX_MONEY_headroom. bool_lia.
Qed.

Lemma weaken_valid (v : ValueBalance NonNegative) :
  valid v -> constrain NegativeAllowed v = Ok (of_pools NegativeAllowed (pools v)) /\
    valid (of_pools NegativeAllowed (pools v)).
Proof.
  intros Hv. assert (valid (of_pools NegativeAllowed (pools v))) as Hn.
  { unfold valid, Amount.valid in *. simpl in *. lia. }
  split; [|done]. apply constrain_Ok. by split.
Qed.

Lemma add_change_Ok (p : ValueBalance NonNegative) (c : ValueBalance NegativeAllowed) r :
  valid p -> valid c ->
  add_chain_value_pool_change p c = Ok r <->
  pools r = zip_with Z.add (pools p) (pools c) /\ valid r /\ pool_sum r <= MAX_MONEY.
Proof.
  intros Hp Hc. destruct (weaken_valid p Hp) as [Hw Hv].
  unfold add_chain_value_pool_change. rewrite Hw. cbn [expect_ok obind]. split.
  - intros Hr. outcome_inv.
    apply add_Ok in H0 as [Hs _]; [|done..]. apply constrain_Ok in H1 as [Hpl Hvr].
    apply total_Ok in H2 as [Ht Hva]. split_and!; [by rewrite Hpl, Hs|done|].
    rewrite <- Ht. unfold Amount.valid in Hva. simpl in Hva. lia.
  - intros (Hs & Hr & Hm).
    assert (valid (of_pools NegativeAllowed (pools r))) as Hn by by apply weaken_valid.
    rewrite (proj2 (add_Ok _ _ (of_pools NegativeAllowed (pools r)) Hv Hc)) by (split; [exact Hs|exact Hn]). cbn [obind].
    rewrite (proj2 (constrain_Ok NonNegative (of_pools NegativeAllowed (pools r)) r)) by done. cbn [obind].
    rewrite (proj2 (total_Ok r (Amount.mk (pool_sum r)))); [done|]. split; [done|].
    unfold valid, Amount.valid, pool_sum, pools in *. simpl in *. lia.
Qed.

(** Adding a change to the chain value pools never panics, and succeeds
    exactly when every new pool is non-negative and within [MAX_MONEY] and the
    new total is within [MAX_MONEY]; the new pools are then the exact sums, so
    the total changes by the total of the change and nothing else. *)
Theorem chain_pool_change_exact (p : ValueBalance NonNegative) (c : ValueBalance NegativeAllowed) :
  valid p -> valid c ->
  returns (add_chain_value_pool_change p c) /\
  (forall r, add_chain_value_pool_change p c = Ok r <->
     pools r = zip_with Z.add (pools p) (pools c) /\ valid r /\ pool_sum r <= MAX_MONEY) /\
  (forall r, add_chain_value_pool_change p c = Ok r -> pool_sum r = pool_sum p + pool_sum c).
Proof.
  intros Hp Hc. destruct (weaken_valid p Hp) as [Hw Hv]. split_and!.
  - unfold add_chain_value_pool_change. rewrite Hw. simpl.
    apply returns_bind; [by apply add_returns|intros]. apply returns_bind; [apply constrain_returns|intros].
    rewrite total_unfold. no_panic.
  - intros r. by apply add_change_Ok.
  - intros r (Hs & _ & _)%add_change_Ok; [|done..]. unfold pool_sum. rewrite Hs. unfold pools. simpl. lia.
Qed.

(** Taking back a change gives back the pools. *)
Lemma revert_change (p q : ValueBalance NonNegative) (c : ValueBalance NegativeAllowed) :
  valid p -> pool_sum p <= MAX_MONEY -> valid c -> add_chain_value_pool_change p c = Ok q ->
  forall E, exists c', neg (E:=E) c = Ok c' /\ add_chain_value_pool_change q c' = Ok p /\
    valid q /\ pool_sum q <= MAX_MONEY.
Proof.
  intros Hp Hm Hc (Hs & Hq & Hqm)%add_change_Ok E; [|done..].
  assert (Hn : valid (of_pools NegativeAllowed (Z.opp <$> pools c))).
  { unfold valid, Amount.valid in *. simpl in *. lia. }
  exists (of_pools NegativeAllowed (Z.opp <$> pools c)). split_and!; [| |done..].
  - unfold neg. destruct Hc as (?&?&?&?&?&?). by rewrite !Amount.neg_exact by done.
  - apply add_change_Ok; [done..|]. split_and!; [|done..]. unfold pools in *. simpl in *.
    injection Hs as H1 H2 H3 H4 H5 H6. rewrite H1, H2, H3, H4, H5, H6. repeat f_equal; lia.
Qed.

(** For a valid transaction balance, the remaining value never panics, and
    a result [r] is exactly the sum of the five spendable pools (the deferred
    pool does not count), which is non-negative; when each partial sum is in
    range and the sum is non-negative, the result exists. *)
Theorem remaining_value_exact (v : ValueBalance NegativeAllowed) :
  valid v ->
  let t := zatoshis (transparent v) in let s2 := t + zatoshis (sprout v) in
  let s3 := s2 + zatoshis (sapling v) in let s4 := s3 + zatoshis (orchard v) in
  let s5 := s4 + zatoshis (ironwood v) in
  returns (remaining_transaction_value v) /\
  forall r, remaining_transaction_value v = Ok r <->
    zatoshis r = s5 /\ Amount.valid r /\
    forallb (within (- MAX_MONEY) MAX_MONEY) [s2; s3; s4; s5] = true.
Proof.
  intros (Ht & Hsp & Hsa & Ho & _ & Hi) t s2 s3 s4 s5.
  unfold remaining_transaction_value, Amount.add_result. rewrite Amount.add_in_range by done.
  assert (forall s, Amount.in_range NegativeAllowed s = if within (- MAX_MONEY) MAX_MONEY s then
    Ok (Amount.mk s) else Err (Amount.ConstraintError s (- MAX_MONEY, MAX_MONEY))) as Hin by done.
  rewrite Hin. fold t. fold s2. simpl.
  destruct (within _ _ s2) eqn:H2; simpl; [|by split; [|split; [|intros (_ & _ & ?)]]].
  rewrite Amount.add_in_range by (done || by apply within_spec in H2). rewrite Hin. simpl. fold s3.
  destruct (within _ _ s3) eqn:H3; simpl; [|by split; [|split; [|intros (_ & _ & ?)]]].
  rewrite Amount.add_in_range by (done || by apply within_spec in H3). rewrite Hin. simpl. fold s4.
  destruct (within _ _ s4) eqn:H4; simpl; [|by split; [|split; [|intros (_ & _ & ?)]]].
  rewrite Amount.add_in_range by (done || by apply within_spec in H4). rewrite Hin. simpl. fold s5.
  destruct (within _ _ s5) eqn:H5; simpl; [|by split; [|split; [|intros (_ & _ & ?)]]].
  unfold Amount.constrain. split; [apply returns_try_from_i64|]. intros r.
  rewrite Amount.try_from_i64_Ok. simpl. naive_solver.
Qed.

(** Reading and truncating a record of eight-byte fields. *)
Definition fields8 (ls : list (list byte)) : Prop := Forall (fun b => length b = 8%nat) ls.

Lemma fields8_length ls : fields8 ls -> length (concat ls) = (8 * length ls)%nat.
Proof. induction 1 as [|b ls Hb _ IH]; simpl; [done|]. rewrite length_app, Hb, IH. lia. Qed.

Lemma fields8_take ls n : fields8 ls -> take (8 * n) (concat ls) = concat (take n ls).
Proof.
  intros Hls. revert n. induction Hls as [|b ls Hb _ IH]; intros n; [cbn [concat]; by rewrite !take_nil|].
  destruct n as [|n]; [done|]. simpl concat. rewrite <- IH, take_app, Hb, take_ge by lia.
  do 2 f_equal. lia.
Qed.

Lemma fields8_drop ls n : fields8 ls -> drop (8 * n) (concat ls) = concat (drop n ls).
Proof.
  intros Hls. revert n. induction Hls as [|b ls Hb _ IH]; intros n; [cbn [concat]; by rewrite !drop_nil|].
  destruct n as [|n]; [done|]. simpl concat. rewrite <- (IH n), drop_app, Hb, drop_ge by lia.
  simpl app. f_equal. lia.
Qed.

Lemma slice8_field {E} ls n b :
  fields8 ls -> ls !! n = Some b -> slice8 (E:=E) (concat ls) (8 * n) = Ok b.
Proof.
  intros Hls Hn. unfold slice8. rewrite fields8_length by done.
  pose proof (lookup_lt_Some _ _ _ Hn).
  rewrite (proj2 (Nat.leb_le _ _)) by lia. f_equal. rewrite fields8_drop by done.
  rewrite (drop_S _ _ _ Hn). simpl. apply take_app_length'.
  symmetry. exact (Forall_lookup_1 _ _ _ _ Hls Hn).
Qed.

Lemma slice8_returns {E} (bytes : list byte) n :
  (n + 8 <= length bytes)%nat -> returns (slice8 (E:=E) bytes n).
Proof. intros Hl%Nat.leb_le. unfold slice8. by rewrite Hl. Qed.

Lemma amount_to_from_bytes {C} (a : Amount.Amount C) :
  Amount.valid a -> Amount.from_bytes C (Amount.to_bytes a) = Ok a.
Proof.
  intros Ha. pose proof (Amount.valid_bounds a Ha). pose proof MAX_MONEY_headroom.
  unfold Amount.from_bytes, Amount.to_bytes. rewrite of_to_le_signed by bool_lia.
  by apply Amount.try_from_i64_valid.
Qed.

Lemma amount_bytes_length {C} (a : Amount.Amount C) : length (Amount.to_bytes a) = 8%nat.
Proof. apply length_le_split. Qed.

Lemma from_bytes_returns bytes : returns (from_bytes bytes).
Proof.
  unfold from_bytes. apply returns_bind.
  { repeat (done || case_match). }
  intros u Hl. assert (length bytes = 32 \/ length bytes = 40 \/ length bytes = 48)%nat as Hlen
    by (repeat case_match; simpl in *; (lia || discriminate)).
  assert (forall (w : Amount.Error -> ValueBalanceError) n, (n + 8 <= length bytes)%nat -> returns (let? b := slice8 bytes n in
    map_err w (Amount.from_bytes NonNegative b))) as Hread.
  { intros. apply returns_bind; [by apply slice8_returns|intros]. apply returns_map_err.
    apply returns_try_from_i64. }
  repeat (apply returns_bind; [apply Hread; lia|intros _ _]).
  destruct Hlen as [Hl'|[Hl'|Hl']]; rewrite Hl'; rewrite ?Amount.zero_Ok; simpl;
    repeat (apply returns_bind; [apply Hread; lia|intros]); no_panic.
Qed.

(** One pool read back from its place in the record. *)
Lemma read_pool ls m n (a : Amount.Amount NonNegative) (w : Amount.Error -> ValueBalanceError) :
  m = (8 * n)%nat -> fields8 ls -> ls !! n = Some (Amount.to_bytes a) -> Amount.valid a ->
  (let? b := slice8 (concat ls) m in map_err w (Amount.from_bytes NonNegative b)) = Ok a.
Proof.
  intros -> Hls Hn Ha. rewrite (slice8_field _ _ _ Hls Hn). simpl. by rewrite amount_to_from_bytes.
Qed.

Ltac read_field ls m n a := rewrite (read_pool ls m n a) by done; cbn [obind].
Ltac read_head ls v :=
  read_field ls 0%nat 0%nat (transparent v); read_field ls 8%nat 1%nat (sprout v);
  read_field ls 16%nat 2%nat (sapling v); read_field ls 24%nat 3%nat (orchard v).

(** The 48-byte record of the pools reads back to the same pools; the
    32-byte and 40-byte records written before the deferred and the Ironwood
    pool existed read back with those pools zero; no byte string whatever
    makes the reader panic. *)
Theorem pool_bytes_roundtrip (v : ValueBalance NonNegative) :
  valid v ->
  from_bytes (to_bytes v) = Ok v /\
  from_bytes (take 40 (to_bytes v)) =
    Ok (mkBalance (transparent v) (sprout v) (sapling v) (orchard v) (deferred v) (Amount.mk 0)) /\
  from_bytes (take 32 (to_bytes v)) =
    Ok (mkBalance (transparent v) (sprout v) (sapling v) (orchard v) (Amount.mk 0) (Amount.mk 0)) /\
  forall bytes, returns (from_bytes bytes).
Proof.
  intros (Ht & Hsp & Hsa & Ho & Hd & Hi). unfold to_bytes.
  set (ls := [_; _; _; _; _; _]).
  assert (fields8 ls) as Hls by (repeat constructor; apply amount_bytes_length).
  assert (forall k ls', ls' = take k ls -> fields8 ls') as Htake
    by (intros k ls' ->; by apply Forall_take).
  split_and!; [| | |apply from_bytes_returns].
  - unfold from_bytes. rewrite fields8_length by done. cbn [obind length ls Nat.mul Nat.add].
    read_head ls v.
    read_field ls 32%nat 4%nat (deferred v).
    read_field ls 40%nat 5%nat (ironwood v). by destruct v.
  - change 40%nat with (8 * 5)%nat; rewrite fields8_take by done. set (ls5 := take 5 ls).
    pose proof (Htake 5%nat ls5 eq_refl) as Hls5.
    unfold from_bytes. rewrite fields8_length by done. cbn [obind length ls5 take ls Nat.mul Nat.add].
    read_head ls5 v.
    read_field ls5 32%nat 4%nat (deferred v). by rewrite Amount.zero_Ok.
  - change 32%nat with (8 * 4)%nat; rewrite fields8_take by done. set (ls4 := take 4 ls).
    pose proof (Htake 4%nat ls4 eq_refl) as Hls4.
    unfold from_bytes. rewrite fields8_length by done. cbn [obind length ls4 take ls Nat.mul Nat.add].
    read_head ls4 v. by rewrite Amount.zero_Ok.
Qed.
End properties.

Lemma chain_pool_change_exact_witness :
  let p := of_pools NonNegative [10; 20; 30; 40; 50; 60] in
  let c := of_pools NegativeAllowed [-10; 5; -30; 0; 1; 2] in
  add_chain_value_pool_change (H:=wcash_build) p c = Ok (of_pools NonNegative [0; 25; 0; 40; 51; 62]).
Proof.
  intros p c. apply (chain_pool_change_exact (H:=wcash_build) p c);
    by_eval.
Defined.

Lemma pool_bytes_roundtrip_witness :
  let v := of_pools NonNegative [1; 2; 3; 4; 5; 600000] in
  from_bytes (H:=zcash_build) (to_bytes v) = Ok v.
Proof. intros v. apply (pool_bytes_roundtrip (H:=zcash_build) v). by_eval. Defined.

Lemma remaining_value_exact_witness :
  remaining_transaction_value (H:=zcash_build) (of_pools NegativeAllowed [7; -2; 0; -5; 99; 3])
    = Ok (Amount.mk 3).
Proof.
  apply (remaining_value_exact (H:=zcash_build)); [by_eval|].
  split_and!; [done|by_eval|done].
Defined.
End ValueBalance.
