(* ===== verification/Emission.v ===== *)
(** * Wcash Mainnet emission
      ([zebra-chain/src/parameters/network/subsidy/wcash_mainnet.rs])

    The emission is a recurrence on a curve counter: 40,000 blocks of linear
    slow start, then [floor(5 * (M - emitted) / 2^22)] per block, floored at a
    permanent tail.  The node also has a height-only table of the first
    3,455,360 subsidies.  This file models both and proves them equal at every
    height.  The numeric part, that the curve reaches the tail at exactly that
    height, is an evaluation of the 3,415,359 curve steps on 63-bit machine
    integers, transferred to [Z] by their specification. *)

From Stdlib Require Import Uint63.
From S2P Require Import Prelude Amounts.
#[local] Open Scope Z_scope.

Module Emission.

(** ** Constants *)

Definition TARGET_SECONDS : Z := 75.
Definition SLOW_START_BLOCKS : Z := 40000.
Definition MAIN_EMISSION_SCALE : Z := 1844674407370955.
Definition EMISSION_NUMERATOR : Z := 5.
Definition EMISSION_DENOMINATOR : Z := 4194304.
Definition TAIL_SUBSIDY : Z := 37500000.
Definition RAMP_PEAK : Z := 2199023255.
Definition FIRST_TAIL_HEIGHT : Z := 3455360.

(** [pub enum EmissionError]. *)
Inductive EmissionError :=
| CounterOutOfRange
| CounterBeforeCurve
| GenesisFees
| AmountOverflow
| IncorrectCoinbaseClaim.

(** ** The recurrence *)

(** [subsidy_atoms]. *)
Definition subsidy_atoms (height curve_emitted_before : Z) : outcome EmissionError Z :=
  if curve_emitted_before >? MAIN_EMISSION_SCALE then Err CounterOutOfRange
  else if height <=? SLOW_START_BLOCKS then
    if negb (curve_emitted_before =? 0) then Err CounterBeforeCurve
    else ok_or (u64_checked (RAMP_PEAK * height / SLOW_START_BLOCKS)) AmountOverflow
  else
    let remaining := MAIN_EMISSION_SCALE - curve_emitted_before in
    let? curve_reward :=
      ok_or (u64_checked (EMISSION_NUMERATOR * remaining / EMISSION_DENOMINATOR)) AmountOverflow in
    Ok (Z.max curve_reward TAIL_SUBSIDY).

(** [advance_curve_counter]. *)
Definition advance_curve_counter (height curve_emitted_before subsidy : Z) :
    outcome EmissionError Z :=
  if curve_emitted_before >? MAIN_EMISSION_SCALE then Err CounterOutOfRange
  else if height <=? SLOW_START_BLOCKS then
    if negb (curve_emitted_before =? 0) then Err CounterBeforeCurve else Ok 0
  else
    let? sum := ok_or (u64_checked (curve_emitted_before + subsidy)) AmountOverflow in
    Ok (Z.min sum MAIN_EMISSION_SCALE).

(** [validate_and_advance]. *)
Definition validate_and_advance (height curve_emitted_before fees coinbase_value : Z) :
    outcome EmissionError Z :=
  if (height =? 0) && negb (fees =? 0) then Err GenesisFees
  else
    let? subsidy := subsidy_atoms height curve_emitted_before in
    let? expected := ok_or (u64_checked (subsidy + fees)) AmountOverflow in
    if negb (coinbase_value =? expected) then Err IncorrectCoinbaseClaim
    else advance_curve_counter height curve_emitted_before subsidy.

(** ** The table *)

(** The loop of [build_pre_tail_subsidies], [n] iterations from [height]. *)
Fixpoint build_loop {E} (n : nat) (height curve_counter : Z) : outcome E (list Z) :=
  match n with
  | O => Ok []
  | S n =>
      let? subsidy := expect_ok (subsidy_atoms height curve_counter) in
      let? entry := expect (u32_checked subsidy) in
      let? curve_counter := expect_ok (advance_curve_counter height curve_counter subsidy) in
      let? rest := build_loop n (height + 1) curve_counter in
      Ok (entry :: rest)
  end.

(** [build_pre_tail_subsidies]. *)
Definition build_pre_tail_subsidies {E} : outcome E (list Z) :=
  build_loop (Z.to_nat FIRST_TAIL_HEIGHT) 0 0.

(** [block_subsidy]: the [OnceLock] holds the table, and indexing it panics out of range. *)
Definition block_subsidy `{ConsensusBuild} (height : Z) :
    outcome Amount.Error (Amount.Amount Amount.NonNegative) :=
  let? subsidy :=
    if height >=? FIRST_TAIL_HEIGHT then Ok TAIL_SUBSIDY
    else
      let? subsidies := build_pre_tail_subsidies in
      expect (subsidies !! Z.to_nat height) in
  Amount.try_from_u64 Amount.NonNegative subsidy.

(** ** The canonical counter and subsidy of a height

    [counter n] is the curve counter before block [n] of a chain whose every
    coinbase claim is exact; [reward n] is the subsidy of block [n]. *)

Definition curve_reward (emitted : Z) : Z :=
  EMISSION_NUMERATOR * (MAIN_EMISSION_SCALE - emitted) / EMISSION_DENOMINATOR.

Definition reward_at (height emitted : Z) : Z :=
  if height <=? SLOW_START_BLOCKS then RAMP_PEAK * height / SLOW_START_BLOCKS
  else Z.max (curve_reward emitted) TAIL_SUBSIDY.

Definition counter_after (height emitted : Z) : Z :=
  if height <=? SLOW_START_BLOCKS then 0
  else Z.min (emitted + reward_at height emitted) MAIN_EMISSION_SCALE.

Fixpoint counter (n : nat) : Z :=
  match n with
  | O => 0
  | S n => counter_after (Z.of_nat n) (counter n)
  end.

Definition reward (n : nat) : Z := reward_at (Z.of_nat n) (counter n).

(** The counters a height can have: zero through slow start, then at most the scale. *)
Definition counter_ok (height emitted : Z) : Prop :=
  0 <= emitted <= MAIN_EMISSION_SCALE /\ (height <= SLOW_START_BLOCKS -> emitted = 0).

Ltac unfold_emission :=
  unfold SLOW_START_BLOCKS, MAIN_EMISSION_SCALE, EMISSION_NUMERATOR, EMISSION_DENOMINATOR,
    TAIL_SUBSIDY, RAMP_PEAK, FIRST_TAIL_HEIGHT in *.

Lemma reward_at_bounds height emitted :
  0 <= height -> 0 <= emitted <= MAIN_EMISSION_SCALE -> 0 <= reward_at height emitted <= RAMP_PEAK.
Proof.
  intros Hh He. unfold reward_at, curve_reward.
  destruct (height <=? SLOW_START_BLOCKS) eqn:Hs; unfold_emission; [split|].
  - apply Z.div_pos; lia.
  - apply Z.div_le_upper_bound; lia.
  - assert (0 <= 5 * (1844674407370955 - emitted) / 4194304 <= 2199023255); [|lia].
    split; [apply Z.div_pos; lia|]. transitivity (5 * 1844674407370955 / 4194304); [|by vm_compute].
    apply Z.div_le_mono; lia.
Qed.

Lemma subsidy_atoms_ok height emitted :
  0 <= height -> counter_ok height emitted -> subsidy_atoms height emitted = Ok (reward_at height emitted).
Proof.
  intros Hh [He Hz]. pose proof (reward_at_bounds height emitted Hh He) as Hr.
  unfold subsidy_atoms, reward_at, curve_reward in *. rewrite Z.gtb_ltb.
  destruct (MAIN_EMISSION_SCALE <? emitted) eqn:Hgt; [lia|].
  destruct (height <=? SLOW_START_BLOCKS) eqn:Hs.
  - rewrite Hz by lia. simpl. rewrite checked_ok; [done|]. unfold RAMP_PEAK in *. bool_lia.
  - rewrite checked_ok; [done|]. unfold RAMP_PEAK, TAIL_SUBSIDY in *. split; [|bool_lia].
    apply Z.div_pos; unfold_emission; lia.
Qed.

Lemma advance_ok height emitted :
  0 <= height -> counter_ok height emitted ->
  advance_curve_counter height emitted (reward_at height emitted) = Ok (counter_after height emitted).
Proof.
  intros Hh [He Hz]. pose proof (reward_at_bounds height emitted Hh He) as Hr.
  unfold advance_curve_counter, counter_after. rewrite Z.gtb_ltb.
  destruct (MAIN_EMISSION_SCALE <? emitted) eqn:Hgt; [lia|].
  destruct (height <=? SLOW_START_BLOCKS) eqn:Hs.
  - by rewrite Hz by lia.
  - rewrite checked_ok; [done|]. unfold RAMP_PEAK, MAIN_EMISSION_SCALE in *. bool_lia.
Qed.

Lemma counter_after_ok height emitted :
  0 <= height -> counter_ok height emitted -> counter_ok (height + 1) (counter_after height emitted).
Proof.
  intros Hh [He Hz]. pose proof (reward_at_bounds height emitted Hh He) as Hr.
  unfold counter_ok, counter_after. unfold_emission.
  destruct (height <=? 40000) eqn:Hs; split; lia.
Qed.

Lemma counter_ok_at n : counter_ok (Z.of_nat n) (counter n).
Proof.
  induction n as [|n IH]; [unfold counter_ok; unfold_emission; simpl; lia|].
  rewrite Nat2Z.inj_succ. apply counter_after_ok; [lia|done].
Qed.

Lemma counter_le_S n : counter n <= counter (S n).
Proof.
  destruct (counter_ok_at n) as [He Hz]. simpl. unfold counter_after.
  pose proof (reward_at_bounds (Z.of_nat n) (counter n) ltac:(lia) He).
  destruct (_ <=? _) eqn:Hs; [rewrite Hz by lia; lia|lia].
Qed.

Lemma counter_mono n m : (n <= m)%nat -> counter n <= counter m.
Proof.
  induction 1 as [|m _ IH]; [lia|]. pose proof (counter_le_S m). lia.
Qed.

(** ** The curve, step by step

    [decay] is one smooth step on the remaining emission.  On machine integers,
    [mdecay] computes it, and [mdecay_pow2] and [mdecay_pos] iterate it. *)

Definition decay (x : Z) : Z := x - 5 * x / 4194304.

Definition mdecay (x : int) : int := (x - ((5 * x) >> 22))%uint63.
Fixpoint mdecay_pow2 (n : nat) (x : int) : int :=
  match n with
  | O => mdecay x
  | S n => mdecay_pow2 n (mdecay_pow2 n x)
  end.
Fixpoint mdecay_pos (p : positive) (n : nat) (x : int) : int :=
  match p with
  | xH => mdecay_pow2 n x
  | xO p => mdecay_pos p (S n) x
  | xI p => mdecay_pos p (S n) (mdecay_pow2 n x)
  end.

Lemma decay_bounds x : 0 <= x -> 0 <= decay x <= x.
Proof.
  intros Hx. unfold decay. assert (0 <= 5 * x / 4194304 <= x); [|lia].
  split; [apply Z.div_pos; lia|apply Z.div_le_upper_bound; lia].
Qed.

Lemma decay_iter_bounds x n : 0 <= x -> 0 <= Nat.iter n decay x <= x.
Proof.
  intros Hx. induction n as [|n IH]; simpl; [lia|].
  pose proof (decay_bounds (Nat.iter n decay x)). lia.
Qed.

Lemma decay_iter_mono x n m : 0 <= x -> (n <= m)%nat -> Nat.iter m decay x <= Nat.iter n decay x.
Proof.
  intros Hx. induction 1 as [|m _ IH]; [lia|]. simpl.
  pose proof (decay_bounds (Nat.iter m decay x)). pose proof (decay_iter_bounds x m Hx). lia.
Qed.

Lemma mdecay_spec x : to_Z x <= MAIN_EMISSION_SCALE -> to_Z (mdecay x) = decay (to_Z x).
Proof.
  intros Hx. pose proof (to_Z_bounded x). unfold mdecay, decay. unfold_emission.
  rewrite sub_spec, lsr_spec, mul_spec. change (to_Z 5) with 5. change (to_Z 22) with 22.
  change wB with 9223372036854775808 in *. change (2 ^ 22) with 4194304.
  rewrite (Z.mod_small (5 * _)) by lia.
  pose proof (decay_bounds (to_Z x)). unfold decay in *. apply Z.mod_small. lia.
Qed.

Lemma mdecay_pow2_spec n x :
  to_Z x <= MAIN_EMISSION_SCALE -> to_Z (mdecay_pow2 n x) = Nat.iter (2 ^ n) decay (to_Z x).
Proof.
  revert x. induction n as [|n IH]; intros x Hx; [by apply mdecay_spec|].
  pose proof (to_Z_bounded x). pose proof (decay_iter_bounds (to_Z x) (2 ^ n)).
  cbn [mdecay_pow2]. rewrite IH, IH, <- Nat.iter_add by (rewrite ?IH; lia).
  f_equal. simpl. lia.
Qed.

Lemma mdecay_pos_spec p n x :
  to_Z x <= MAIN_EMISSION_SCALE ->
  to_Z (mdecay_pos p n x) = Nat.iter (2 ^ n * Pos.to_nat p) decay (to_Z x).
Proof.
  revert n x. induction p as [p IH|p IH|]; intros n x Hx; cbn [mdecay_pos].
  - pose proof (to_Z_bounded x). pose proof (decay_iter_bounds (to_Z x) (2 ^ n)).
    rewrite IH, mdecay_pow2_spec, <- Nat.iter_add by (rewrite ?mdecay_pow2_spec; lia).
    f_equal. rewrite Pos2Nat.inj_xI. cbn [Nat.pow]. lia.
  - rewrite IH by done. f_equal. rewrite Pos2Nat.inj_xO. cbn [Nat.pow]. lia.
  - rewrite mdecay_pow2_spec by done. f_equal. lia.
Qed.

Lemma decay_run p (x y : int) :
  (to_Z x <=? MAIN_EMISSION_SCALE) = true -> mdecay_pos p 0 x = y ->
  Nat.iter (Pos.to_nat p) decay (to_Z x) = to_Z y.
Proof.
  intros Hx <-. rewrite mdecay_pos_spec by lia. f_equal. simpl. lia.
Qed.

(** Milestones of the curve: the gap from the previous one, in steps, and the
    remaining emission there.  They are the heights of the canonical vectors of
    the source's tests, the foundation's last funded block, and the last two
    steps before the tail. *)
Definition milestones : list (positive * int) :=
  [(380479%positive, 1172028731684547%uint63); (200974%positive, 922337920589150%uint63);
   (219506%positive, 709982247134213%uint63); (420480%positive, 430087401183038%uint63);
   (420480%positive, 260534926682383%uint63); (420480%positive, 157824776691052%uint63);
   (420480%positive, 95605838617135%uint63); (420480%positive, 57915344976780%uint63);
   (420480%positive, 35083497394280%uint63); (91519%positive, 31457318124751%uint63);
   (1%positive, 31457280624706%uint63)].

Fixpoint check_run (x : int) (l : list (positive * int)) : bool :=
  match l with
  | [] => true
  | (p, y) :: l =>
      Uint63.eqb (mdecay_pos p 0 x) y && (to_Z y <=? MAIN_EMISSION_SCALE) && check_run y l
  end.

(** Step numbers and remaining emissions of a run. *)
Fixpoint run_points (k : Z) (l : list (positive * int)) : list (Z * Z) :=
  match l with
  | [] => []
  | (p, y) :: l => (k + Zpos p, to_Z y) :: run_points (k + Zpos p) l
  end.

Definition remaining_after (k : Z) : Z := Nat.iter (Z.to_nat k) decay MAIN_EMISSION_SCALE.

Lemma check_run_points k x l :
  0 <= k -> remaining_after k = to_Z x -> (to_Z x <=? MAIN_EMISSION_SCALE) = true ->
  check_run x l = true -> Forall (fun kz => remaining_after kz.1 = kz.2) (run_points k l).
Proof.
  intros Hk Hx Hle. revert k x Hk Hx Hle. induction l as [|[p y] l IH]; intros k x Hk Hx Hle Hc; [constructor|].
  simpl in Hc. apply andb_true_iff in Hc as [[Hp Hy]%andb_true_iff Hc].
  apply Uint63.eqb_spec in Hp. pose proof (decay_run p x y Hle Hp) as Hrun.
  assert (remaining_after (k + Zpos p) = to_Z y) as Hn.
  { unfold remaining_after in *. rewrite Z.add_comm, Z2Nat.inj_add, Nat.iter_add, Hx by lia. exact Hrun. }
  simpl. constructor; [exact Hn|]. by apply (IH _ y); [lia| | |].
Qed.

Lemma milestones_run : check_run 1844674407370955 milestones = true.
Proof. vm_cast_no_check (eq_refl true). Qed.

Lemma curve_milestones : Forall (fun kz => remaining_after kz.1 = kz.2) (run_points 0 milestones).
Proof. apply (check_run_points 0 1844674407370955); [lia|by vm_compute|by vm_compute|apply milestones_run]. Qed.

(** The remaining emission at one milestone. *)
Lemma curve_milestone k z : (k, z) ∈ run_points 0 milestones -> remaining_after k = z.
Proof. intros Hin. exact (proj1 (Forall_forall _ _) curve_milestones (k, z) Hin). Qed.

Ltac milestone k z := assert (remaining_after k = z) by (apply curve_milestone; vm_compute; repeat constructor).

(** ** The canonical chain follows the curve up to the tail *)

Definition CURVE_START : Z := SLOW_START_BLOCKS + 1.
Definition CURVE_STEPS : Z := FIRST_TAIL_HEIGHT - CURVE_START.

Lemma remaining_after_S k : 0 <= k -> remaining_after (k + 1) = decay (remaining_after k).
Proof. intros. unfold remaining_after. by rewrite Z.add_1_r, Z2Nat.inj_succ. Qed.

Lemma remaining_after_bounds k : 0 <= remaining_after k <= MAIN_EMISSION_SCALE.
Proof. apply decay_iter_bounds. unfold_emission. lia. Qed.

Lemma remaining_after_mono k l : 0 <= k <= l -> remaining_after l <= remaining_after k.
Proof. intros. apply decay_iter_mono; unfold_emission; lia. Qed.

Lemma last_curve_step : remaining_after (CURVE_STEPS - 1) = 31457318124751.
Proof. milestone 3415358 31457318124751. done. Qed.

Lemma above_tail k : 0 <= k < CURVE_STEPS -> 37500045 <= 5 * remaining_after k / 4194304.
Proof.
  intros Hk. pose proof (remaining_after_mono k (CURVE_STEPS - 1) ltac:(lia)) as Hm.
  rewrite last_curve_step in Hm. apply Z.div_le_lower_bound; lia.
Qed.

Lemma counter_S n : counter (S n) = counter_after (Z.of_nat n) (counter n).
Proof. done. Qed.

Lemma counter_slow n : Z.of_nat n <= SLOW_START_BLOCKS -> counter (S n) = 0.
Proof. intros Hn%Z.leb_le. rewrite counter_S. unfold counter_after. by rewrite Hn. Qed.

Lemma counter_curve_start n : Z.of_nat n = CURVE_START -> counter n = 0.
Proof.
  destruct n as [|n]; [done|]. intros Hn. apply counter_slow. unfold CURVE_START in Hn. lia.
Qed.

Lemma counter_curve k :
  0 <= k <= CURVE_STEPS ->
  counter (Z.to_nat (CURVE_START + k)) = MAIN_EMISSION_SCALE - remaining_after k.
Proof.
  intros Hk. assert (0 <= k) as H0 by lia. revert Hk. pattern k. apply natlike_ind; [| |done]; clear k H0.
  - intros _. rewrite Z.add_0_r, counter_curve_start by (rewrite Z2Nat.id; unfold CURVE_START; unfold_emission; lia).
    unfold remaining_after. simpl. lia.
  - intros k H0 IH Hk. rewrite <- Z.add_1_r in *.
    replace (CURVE_START + (k + 1)) with (Z.succ (CURVE_START + k)) by lia.
    assert (0 <= CURVE_START) by by vm_compute.
    rewrite Z2Nat.inj_succ, counter_S, IH, Z2Nat.id by lia.
    unfold counter_after, reward_at, curve_reward.
    destruct (_ <=? _) eqn:Hs; [unfold CURVE_START in *; lia|].
    pose proof (above_tail k ltac:(lia)). pose proof (remaining_after_bounds k).
    pose proof (decay_bounds (remaining_after k) ltac:(lia)).
    rewrite remaining_after_S by lia. unfold decay in *. unfold_emission.
    replace (1844674407370955 - (1844674407370955 - remaining_after k)) with (remaining_after k) by lia.
    lia.
Qed.

(** The subsidy of a block on the curve, and of a block at or after the tail height. *)
Lemma reward_curve k :
  0 <= k < CURVE_STEPS -> reward (Z.to_nat (CURVE_START + k)) = 5 * remaining_after k / 4194304.
Proof.
  intros Hk. assert (0 <= CURVE_START) by by vm_compute.
  unfold reward, reward_at, curve_reward. rewrite counter_curve, Z2Nat.id by lia.
  destruct (_ <=? _) eqn:Hs; [unfold CURVE_START in *; lia|].
  pose proof (above_tail k Hk). unfold_emission.
  replace (1844674407370955 - (1844674407370955 - remaining_after k)) with (remaining_after k) by lia.
  lia.
Qed.

Lemma reward_tail n : FIRST_TAIL_HEIGHT <= Z.of_nat n -> reward n = TAIL_SUBSIDY.
Proof.
  intros Hn. milestone 3415359 31457280624706.
  pose proof (counter_curve CURVE_STEPS) as Hc.
  replace (CURVE_START + CURVE_STEPS) with FIRST_TAIL_HEIGHT in Hc by done.
  change CURVE_STEPS with 3415359 in Hc. rewrite H in Hc.
  pose proof (counter_mono (Z.to_nat FIRST_TAIL_HEIGHT) n ltac:(lia)) as Hm. rewrite Hc in Hm by lia.
  unfold reward, reward_at, curve_reward. unfold_emission. destruct (_ <=? _) eqn:Hs; [lia|].
  assert (5 * (1844674407370955 - counter n) / 4194304 < 37500001); [|lia].
  apply Z.div_lt_upper_bound; lia.
Qed.

(** On the canonical chain, block [FIRST_TAIL_HEIGHT] is exactly where the
    permanent tail begins: every earlier block after slow start pays strictly
    more than the tail, and it and every later block pay exactly the tail. *)
Theorem first_tail_height_exact n :
  SLOW_START_BLOCKS < Z.of_nat n ->
  (Z.of_nat n < FIRST_TAIL_HEIGHT <-> TAIL_SUBSIDY < reward n) /\
  (FIRST_TAIL_HEIGHT <= Z.of_nat n <-> reward n = TAIL_SUBSIDY).
Proof.
  intros Hs. destruct (Z.lt_ge_cases (Z.of_nat n) FIRST_TAIL_HEIGHT) as [Hn|Hn].
  - assert (37500045 <= reward n); [|unfold_emission; lia].
    replace n with (Z.to_nat (CURVE_START + (Z.of_nat n - CURVE_START))) by lia.
    rewrite reward_curve by (unfold CURVE_STEPS, CURVE_START in *; lia).
    apply above_tail. unfold CURVE_STEPS, CURVE_START in *. lia.
  - rewrite (reward_tail n Hn). lia.
Qed.

(** The table holds the canonical rewards. *)
Lemma build_loop_rewards {E} n h :
  build_loop (E:=E) n (Z.of_nat h) (counter h) = Ok (map reward (seq h n)).
Proof.
  revert h. induction n as [|n IH]; intros h; [done|]. cbn [build_loop].
  pose proof (counter_ok_at h) as Hok. pose proof (reward_at_bounds _ _ (Nat2Z.is_nonneg h) (proj1 Hok)) as Hb.
  rewrite subsidy_atoms_ok by (done || lia). cbn [expect_ok obind].
  rewrite checked_ok by (unfold RAMP_PEAK in *; bool_lia). cbn [expect obind].
  rewrite advance_ok by (done || lia). cbn [expect_ok obind].
  rewrite <- counter_S. replace (Z.of_nat h + 1) with (Z.of_nat (S h)) by lia. by rewrite IH.
Qed.

Lemma build_table {E} n : build_loop (E:=E) n 0 0 = Ok (map reward (seq 0 n)).
Proof. exact (build_loop_rewards n 0). Qed.

Lemma table_lookup (l : list Z) n i :
  l = map reward (seq 0 n) -> (i < n)%nat -> l !! i = Some (reward i).
Proof. intros -> Hi. by rewrite list_lookup_fmap, lookup_seq_lt. Qed.

(** C30: the height-only subsidy (table lookup below the tail height, constant
    tail from it on) is defined at every [u32] height, never panics, and is the
    subsidy of the normative recurrence on the canonical counter. *)
Theorem table_matches_recurrence `{ConsensusBuild} height :
  0 <= height <= U32_MAX -> RAMP_PEAK <= MAX_MONEY ->
  block_subsidy height = Ok (Amount.mk (reward (Z.to_nat height))) /\
  subsidy_atoms height (counter (Z.to_nat height)) = Ok (reward (Z.to_nat height)).
Proof.
  intros Hh Hm. pose proof (counter_ok_at (Z.to_nat height)) as Hok. rewrite Z2Nat.id in Hok by lia.
  pose proof (reward_at_bounds height _ (proj1 Hh) (proj1 Hok)) as Hb.
  assert (reward_at height (counter (Z.to_nat height)) = reward (Z.to_nat height)) as Hr
    by (unfold reward; rewrite Z2Nat.id; lia).
  split; [|by rewrite subsidy_atoms_ok, Hr by (done || lia)]. rewrite Hr in Hb.
  assert (forall r, 0 <= r <= RAMP_PEAK -> Amount.try_from_u64 Amount.NonNegative r = Ok (Amount.mk r)) as Htf.
  { intros r ?. unfold Amount.try_from_u64, Amount.validate. unfold RAMP_PEAK in *.
    rewrite checked_ok by bool_lia. simpl. by rewrite (proj2 (within_spec _ _ _)) by lia. }
  unfold block_subsidy. rewrite Z.geb_leb. destruct (FIRST_TAIL_HEIGHT <=? height) eqn:Ht.
  - cbn [obind]. rewrite <- (reward_tail (Z.to_nat height)) by lia. by apply Htf.
  - unfold build_pre_tail_subsidies. rewrite build_table. cbn [obind].
    rewrite (table_lookup _ _ _ eq_refl) by (apply Z2Nat.inj_lt; lia). simpl. by apply Htf.
Qed.

(** ** Chains of exactly validated blocks *)

(** Validating the blocks of a chain in order, each given by its fees and the
    value its coinbase claims. *)
Fixpoint validate_chain (height counter : Z) (blocks : list (Z * Z)) : outcome EmissionError Z :=
  match blocks with
  | [] => Ok counter
  | (fees, coinbase_value) :: blocks =>
      let? counter := validate_and_advance height counter fees coinbase_value in
      validate_chain (height + 1) counter blocks
  end.

(** The exact claim of block [n]. *)
Definition exact_claim (n : nat) (b : Z * Z) : Prop :=
  (n = 0%nat -> b.1 = 0) /\ b.2 = reward n + b.1 /\ 0 <= reward n + b.1 <= U64_MAX.

Lemma validate_and_advance_iff n fees v c :
  validate_and_advance (Z.of_nat n) (counter n) fees v = Ok c <->
  exact_claim n (fees, v) /\ c = counter (S n).
Proof.
  unfold validate_and_advance, exact_claim. pose proof (counter_ok_at n) as Hok. simpl fst; simpl snd.
  destruct ((Z.of_nat n =? 0) && negb (fees =? 0)) eqn:Hg.
  { split; [done|]. intros [[H0 _] _]. lia. }
  rewrite subsidy_atoms_ok by (done || lia). cbn [obind]. fold (reward n).
  destruct (u64_checked (reward n + fees)) as [e|] eqn:Hc; cbn [ok_or obind].
  - apply checked_Some in Hc as [-> Hb]. destruct (v =? reward n + fees) eqn:Hv; simpl negb; cbn iota.
    + unfold reward at 1. rewrite advance_ok by (done || lia). rewrite <- counter_S.
      split; [intros [= <-]; split_and!; [lia..|done] | intros [_ ->]; done].
    + split; [done|]. intros [(_ & H1 & _) _]. lia.
  - apply checked_None in Hc. split; [done|]. intros [(_ & _ & H1) _]. lia.
Qed.

Lemma validate_chain_from n blocks c :
  validate_chain (Z.of_nat n) (counter n) blocks = Ok c <->
  (forall i b, blocks !! i = Some b -> exact_claim (n + i) b) /\ c = counter (n + length blocks).
Proof.
  revert n. induction blocks as [|[fees v] blocks IH]; intros n; cbn [validate_chain].
  { rewrite Nat.add_0_r. split; [intros [= <-]; by split|by intros [_ ->]]. }
  rewrite obind_Ok. setoid_rewrite validate_and_advance_iff.
  replace (Z.of_nat n + 1) with (Z.of_nat (S n)) by lia. split.
  - intros (c' & [Hcl ->] & Hr). apply IH in Hr as [Hi ->]. simpl length.
    split; [|f_equal; lia]. intros [|i] b Hb; simpl in Hb.
    + injection Hb as <-. by rewrite Nat.add_0_r.
    + rewrite Nat.add_succ_r. by apply (Hi i).
  - intros [Hi ->]. exists (counter (S n)). split.
    + split; [|done]. specialize (Hi 0%nat (fees, v) eq_refl). by rewrite Nat.add_0_r in Hi.
    + apply IH. simpl length. split; [|f_equal; lia]. intros i b Hb.
      specialize (Hi (S i) b Hb). by rewrite Nat.add_succ_r in Hi.
Qed.

(** A chain from genesis is accepted by the stateful rule exactly when
    every coinbase claims its height's subsidy plus its fees (no fees at
    genesis, no [u64] overflow); the counter it ends with depends on the number
    of blocks only, never on the fees. *)
Theorem validated_chain_claims blocks c :
  validate_chain 0 0 blocks = Ok c <->
  (forall i b, blocks !! i = Some b -> exact_claim i b) /\ c = counter (length blocks).
Proof. apply (validate_chain_from 0). Qed.

(** ** The canonical vectors of the source's tests, below the tail *)

(** Height, counter before, subsidy, counter after. *)
Definition CANONICAL : list (Z * Z * Z * Z) :=
  [(420480, 672645675686408, 1397167124, 672647072853532);
   (840960, 1134692160236742, 846364792, 1134693006601534);
   (1261440, 1414587006187917, 512704135, 1414587518892052);
   (1681920, 1584139480688572, 310581835, 1584139791270407);
   (2102400, 1686849630679903, 188141795, 1686849818821698);
   (2522880, 1749068568753820, 113971040, 1749068682724860);
   (2943360, 1786759062394175, 69040471, 1786759131434646);
   (3363840, 1809590909976675, 41822787, 1809590951799462);
   (3455359, 1813217089246204, 37500045, 1813217126746249)].

Lemma canonical_vector h z :
  (h - CURVE_START, z) ∈ run_points 0 milestones -> 0 <= h - CURVE_START < CURVE_STEPS ->
  counter (Z.to_nat h) = MAIN_EMISSION_SCALE - z /\ reward (Z.to_nat h) = 5 * z / 4194304.
Proof.
  intros Hin Hk. apply curve_milestone in Hin.
  pose proof (counter_curve (h - CURVE_START) ltac:(lia)) as Hc.
  pose proof (reward_curve (h - CURVE_START) Hk) as Hr.
  rewrite Hin in Hc, Hr. replace (CURVE_START + (h - CURVE_START)) with h in Hc, Hr by lia. by split.
Qed.

(** The source's canonical test vectors hold of the recurrence: at each
    listed height the counter before the block, its subsidy and the counter
    after it are the listed ones. *)
Theorem canonical_vectors_hold :
  Forall (fun '(h, before, subsidy, after) =>
    counter (Z.to_nat h) = before /\ reward (Z.to_nat h) = subsidy /\
    counter (S (Z.to_nat h)) = after) CANONICAL.
Proof.
  assert (forall h z before subsidy after,
    (h - CURVE_START, z) ∈ run_points 0 milestones -> 0 <= h - CURVE_START < CURVE_STEPS ->
    MAIN_EMISSION_SCALE - z = before -> 5 * z / 4194304 = subsidy -> before + subsidy = after ->
    0 <= subsidy -> after <= MAIN_EMISSION_SCALE ->
    counter (Z.to_nat h) = before /\ reward (Z.to_nat h) = subsidy /\
    counter (S (Z.to_nat h)) = after) as Hv.
  { intros h z before subsidy after Hin Hk <- <- <- H0 Hle.
    destruct (canonical_vector h z Hin Hk) as [Hc Hr]. split_and!; [done..|].
    rewrite counter_S. unfold counter_after. fold (reward (Z.to_nat h)). rewrite Hc, Hr.
    rewrite Z2Nat.id by (unfold CURVE_START in Hk; unfold_emission; lia).
    destruct (h <=? SLOW_START_BLOCKS) eqn:Hs; [unfold CURVE_START in Hk; lia|lia]. }
  unfold CANONICAL. repeat (apply Forall_cons; split); [..|apply Forall_nil; done].
  all: eapply Hv; [vm_compute; repeat constructor | by_eval | by vm_compute ..].
Qed.

Lemma first_tail_height_exact_witness :
  let n := Z.to_nat FIRST_TAIL_HEIGHT in reward n = 37500000.
Proof.
  intros n. assert (Z.of_nat n = FIRST_TAIL_HEIGHT) as Hn by (apply Z2Nat.id; by vm_compute).
  assert (SLOW_START_BLOCKS < Z.of_nat n) as Hs by (rewrite Hn; by vm_compute).
  refine (proj1 (proj2 (first_tail_height_exact n Hs)) _). rewrite Hn. apply Z.le_refl.
Defined.

Lemma table_matches_recurrence_witness :
  block_subsidy (H:=wcash_build) 3455359 = Ok (Amount.mk 37500045).
Proof.
  rewrite (proj1 (table_matches_recurrence (H:=wcash_build) 3455359 ltac:(by_eval) ltac:(by vm_compute))).
  pose proof (proj2 (canonical_vector 3455359 31457318124751
    ltac:(vm_compute; repeat constructor) ltac:(by_eval))) as Hr.
  change (5 * 31457318124751 / 4194304) with 37500045 in Hr. rewrite Hr. exact eq_refl.
Defined.
End Emission.
