(* ===== verification/Difficulty.v ===== *)
(** * Difficulty targets and work ([zebra-chain/src/work/difficulty.rs])

    The header's 32-bit compact difficulty, the 256-bit target it expands to,
    and the work of a block.  [U256] is the 256-bit unsigned integer that
    [work/u256.rs] declares: a [Z] in [0..=U256_MAX] whose additions,
    multiplications and powers panic when they overflow. *)

From S2P Require Import Prelude.

(** ** 256-bit integers *)

Module U256.
Definition add {E} (a b : Z) : outcome E Z := expect (u256_checked (a + b)).
Definition mul {E} (a b : Z) : outcome E Z := expect (u256_checked (a * b)).
Definition pow {E} (a b : Z) : outcome E Z := expect (u256_checked (a ^ b)).
(** Division panics on a zero divisor. *)
Definition div {E} (a b : Z) : outcome E Z := if b =? 0 then Panic else Ok (a / b).
(** Complement, and shifts, which drop the bits that leave the word. *)
Definition not (a : Z) : Z := U256_MAX - a.
Definition shl (a n : Z) : Z := wrap_u 256 (Z.shiftl a n).
Definition shr (a n : Z) : Z := Z.shiftr a n.
(** The number of significant bits. *)
Definition bits (a : Z) : Z := if a =? 0 then 0 else Z.log2 a + 1.
End U256.

Module CompactDifficulty.

Definition BASE : Z := 256.
Definition OFFSET : Z := 3.
Definition PRECISION : Z := 24.
Definition SIGN_BIT : Z := Z.shiftl 1 (PRECISION - 1).
Definition UNSIGNED_MANTISSA_MASK : Z := SIGN_BIT - 1.
Definition INVALID_COMPACT_DIFFICULTY : Z := U32_MAX.

(** The normalisation of mantissa and exponent in [to_expanded]; [None] is an
    early return of [None]. *)
Definition normalise (m e : Z) : option (Z * Z) :=
  if e >=? 32 then None
  else if (e =? 31) && (m >? U8_MAX) then None
  else if (e =? 31) && (m <=? U8_MAX) then Some (Z.shiftl m 16, e - 2)
  else if (e =? 30) && (m >? U16_MAX) then None
  else if (e =? 30) && (m <=? U16_MAX) then Some (Z.shiftl m 8, e - 1)
  else if e <? 0 then Some (Z.shiftr m (Z.abs e * 8), 0)
  else Some (m, e).

(** [CompactDifficulty::to_expanded]. *)
Definition to_expanded {E} (self : Z) : outcome E (option Z) :=
  if Z.land self SIGN_BIT =? SIGN_BIT then Ok None
  else
    let mantissa := Z.land self UNSIGNED_MANTISSA_MASK in
    let? shifted := expect (checked (- I32_MAX - 1) I32_MAX (Z.shiftr self PRECISION)) in
    let exponent := shifted - OFFSET in
    match normalise mantissa exponent with
    | None => Ok None
    | Some (mantissa, exponent) =>
        let? power := U256.pow BASE exponent in
        let? result := U256.mul mantissa power in
        Ok (if result =? 0 then None else Some result)
    end.

(** [impl TryFrom<ExpandedDifficulty> for Work]; the error carries nothing. *)
Definition work_try_from (expanded : Z) : outcome unit Z :=
  let? divisor := U256.add expanded 1 in
  let? quotient := U256.div (U256.not expanded) divisor in
  let? result := U256.add quotient 1 in
  if result <=? U128_MAX then Ok result else Err tt.

(** [CompactDifficulty::to_work]. *)
Definition to_work {E} (self : Z) : outcome E (option Z) :=
  let? expanded := to_expanded self in
  match expanded with
  | None => Ok None
  | Some expanded =>
      match work_try_from expanded with
      | Ok work => Ok (Some work)
      | Err _ => Ok None
      | Panic => Panic
      end
  end.

(** [CompactDifficulty::bytes_in_display_order] and its inverse. *)
Definition bytes_in_display_order (self : Z) : list byte := rev (to_le 4 self).
Definition from_bytes_in_display_order (bytes : list byte) : outcome unit Z :=
  let difficulty := of_le (rev bytes) in
  let? expanded := to_expanded difficulty in
  match expanded with
  | None => Err tt
  | Some _ => Ok difficulty
  end.
End CompactDifficulty.

Module ExpandedDifficulty.

(** [ExpandedDifficulty::from_hash]. *)
Definition from_hash (hash : list byte) : Z := of_le hash.

(** [ExpandedDifficulty::to_compact]. *)
Definition to_compact {E} (self : Z) : outcome E Z :=
  do? assert_that (self >? 0) in
  let size := U256.bits self / 8 + 1 in
  let mantissa :=
    if self <=? CompactDifficulty.UNSIGNED_MANTISSA_MASK
    then U256.shl self (8 * (3 - size))
    else U256.shr self (8 * (size - 3)) in
  do? assert_that (size <? 31 + CompactDifficulty.OFFSET) in
  let? size := expect (u32_checked size) in
  do? assert_that (mantissa <=? CompactDifficulty.UNSIGNED_MANTISSA_MASK) in
  let? mantissa := expect (u32_checked mantissa) in
  if mantissa >? 0 then Ok (mantissa + Z.shiftl size 24) else Panic.

(** [impl Sum], [impl Div] and [impl Mul] for [ExpandedDifficulty]. *)
Fixpoint sum_from {E} (acc : Z) (iter : list Z) : outcome E Z :=
  match iter with
  | [] => Ok acc
  | d :: iter => let? acc := U256.add acc d in sum_from acc iter
  end.
Definition sum {E} (iter : list Z) : outcome E Z := sum_from 0 iter.
Definition div {E} (self rhs : Z) : outcome E Z := U256.div self rhs.
Definition mul {E} (self rhs : Z) : outcome E Z := U256.mul self rhs.

(** [impl PartialOrd<block::Hash> for ExpandedDifficulty] and the reverse. *)
Definition cmp_hash (self : Z) (other : list byte) : comparison := Z.compare self (from_hash other).
Definition hash_cmp (self : list byte) (other : Z) : comparison := CompOpp (cmp_hash other self).

(** The [PoWLimit] of the Zcash Mainnet, through its compact form. *)
Definition mainnet_target_difficulty_limit {E} : outcome E Z :=
  let? compact := to_compact (Z.shiftl 1 243 - 1) in
  let? expanded := CompactDifficulty.to_expanded compact in
  expect expanded.
End ExpandedDifficulty.

Module PartialCumulativeWork.
Definition zero : Z := 0.
Definition add {E} (self rhs : Z) : outcome E Z := expect (u128_checked (self + rhs)).
Definition sub {E} (self rhs : Z) : outcome E Z := expect (u128_checked (self - rhs)).
(** [impl Add for Work]. *)
Definition work_add {E} (self rhs : Z) : outcome E Z := add self rhs.
End PartialCumulativeWork.

(** ** Expansion of compact values *)

Section expansion.
Import CompactDifficulty.

(** [ToTarget] of the protocol specification, rounded down: the mantissa times
    [256 ^ (exponent - 3)], zero for a negative mantissa. *)
Definition to_target (x : Z) : Z :=
  if Z.testbit x 23 then 0 else x mod 2 ^ 23 * 256 ^ (x / 2 ^ 24) / 256 ^ 3.

Lemma scaled_high m b : 3 <= b -> m * 256 ^ b / 256 ^ 3 = m * 256 ^ (b - 3).
Proof.
  intros Hb. replace b with ((b - 3) + 3) at 1 by lia.
  rewrite Z.pow_add_r, Z.mul_assoc, Z.div_mul by lia. done.
Qed.

Lemma scaled_low m b : 0 <= b < 3 -> m * 256 ^ b / 256 ^ 3 = Z.shiftr m ((3 - b) * 8).
Proof.
  intros Hb. rewrite Z.shiftr_div_pow2 by lia.
  assert (256 ^ 3 = 2 ^ ((3 - b) * 8) * 256 ^ b) as ->.
  { change 256 with (2 ^ 8). rewrite <- !Z.pow_mul_r, <- Z.pow_add_r by lia. f_equal. lia. }
  apply Z.div_mul_cancel_r; [|]; pose proof (Z.pow_pos_nonneg 256 b); pose proof (Z.pow_pos_nonneg 2 ((3 - b) * 8)); lia.
Qed.

(** The last steps of [to_expanded] when nothing overflows. *)
Lemma expand_product {E} m e t :
  0 <= e -> m * 256 ^ e = t -> 256 ^ e <= U256_MAX -> 0 <= t <= U256_MAX ->
  (let? power := U256.pow BASE e in
   let? result := U256.mul m power in
   Ok (if result =? 0 then None else Some result)) =
  Ok (E:=E) (if (0 <? t) && (t <=? U256_MAX) then Some t else None).
Proof.
  intros He Ht Hp Hm. unfold U256.pow, U256.mul, BASE.
  rewrite checked_ok by (pose proof (Z.pow_pos_nonneg 256 e); lia). cbn [expect obind]. rewrite Ht.
  rewrite checked_ok by lia. cbn [expect obind]. f_equal.
  destruct (Z.eqb_spec t 0) as [->|]; [done|].
  by rewrite (proj2 (Z.ltb_lt 0 t)), (proj2 (Z.leb_le t _)) by lia.
Qed.

Lemma overflow_none {E} t :
  (t = 0 \/ U256_MAX < t) ->
  Ok (E:=E) None = Ok (if (0 <? t) && (t <=? U256_MAX) then Some t else None).
Proof.
  intros [->|Ht]; [done|]. by rewrite (proj2 (Z.leb_gt t _)), andb_false_r by lia.
Qed.

Lemma scaled_overflow m e k :
  0 < k -> k <= m -> 0 <= e -> k * 256 ^ e > U256_MAX -> U256_MAX < m * 256 ^ e.
Proof. intros. pose proof (Z.pow_pos_nonneg 256 e). nia. Qed.

Lemma normalised_expansion {E} m b :
  0 <= m < 2 ^ 23 -> 0 <= b <= 255 ->
  match normalise m (b - 3) with
  | None => Ok (E:=E) None
  | Some (mantissa, exponent) =>
      let? power := U256.pow BASE exponent in
      let? result := U256.mul mantissa power in
      Ok (if result =? 0 then None else Some result)
  end = Ok (let t := m * 256 ^ b / 256 ^ 3 in
            if (0 <? t) && (t <=? U256_MAX) then Some t else None).
Proof.
  intros Hm Hb. cbv zeta. unfold normalise.
  destruct (Z.lt_ge_cases b 3) as [Hlow|Hhigh].
  { rewrite scaled_low by lia.
    replace (b - 3 >=? 32) with false by lia. replace (b - 3 =? 31) with false by lia.
    replace (b - 3 =? 30) with false by lia. replace (b - 3 <? 0) with true by lia. simpl andb. cbn iota.
    replace (Z.abs (b - 3) * 8) with ((3 - b) * 8) by lia.
    apply expand_product; [lia|lia|by vm_compute|].
    rewrite Z.shiftr_div_pow2 by lia. pose proof (Z.pow_pos_nonneg 2 ((3 - b) * 8)).
    split; [apply Z.div_pos; lia|]. transitivity m; [apply Z.div_le_upper_bound; nia|bool_lia]. }
  rewrite scaled_high by lia. remember (b - 3) as e eqn:Heb. destruct (Z.geb_spec e 32) as [H32|H32].
  { apply overflow_none. destruct (Z.eq_dec m 0) as [->|]; [by left|right].
    apply (scaled_overflow _ _ 1); [lia..|].
    pose proof (pow_pos_le 256 32 e). change (256 ^ 32) with (U256_MAX + 1) in *. lia. }
  destruct (Z.eqb_spec e 31) as [->|H31]; cbn [andb].
  { destruct (Z.gtb_spec m U8_MAX) as [H|H].
    - apply overflow_none. right. by apply (scaled_overflow _ _ 256); [lia|bool_lia|lia|by vm_compute].
    - rewrite (proj2 (Z.leb_le _ _)) by lia. rewrite Z.shiftl_mul_pow2 by lia.
      apply expand_product; [lia| |by vm_compute|].
      + change (31 - 2) with 29. change (256 ^ 31) with (2 ^ 16 * 256 ^ 29). lia.
      + change (256 ^ 31) with 452312848583266388373324160190187140051835877600158453279131187530910662656.
        bool_lia. }
  destruct (Z.eqb_spec e 30) as [->|H30]; cbn [andb].
  { destruct (Z.gtb_spec m U16_MAX) as [H|H].
    - apply overflow_none. right. by apply (scaled_overflow _ _ 65536); [lia|bool_lia|lia|by vm_compute].
    - rewrite (proj2 (Z.leb_le _ _)) by lia. rewrite Z.shiftl_mul_pow2 by lia.
      apply expand_product; [lia| |by vm_compute|].
      + change (30 - 1) with 29. change (256 ^ 30) with (2 ^ 8 * 256 ^ 29). lia.
      + change (256 ^ 30) with 1766847064778384329583297500742918515827483896875618958121606201292619776.
        bool_lia. }
  rewrite (proj2 (Z.ltb_ge e 0)) by lia. pose proof (pow_pos_le 256 e 29) as Hp.
  change (256 ^ 29) with 6901746346790563787434755862277025452451108972170386555162524223799296 in Hp.
  specialize (Hp ltac:(lia) ltac:(lia)). apply expand_product; [lia|done|bool_lia|].
  split; [nia|]. etransitivity; [apply (Z.mul_le_mono_nonneg m (2 ^ 23)); [lia..|apply Hp]|by vm_compute].
Qed.

Lemma to_expanded_target {E} x :
  0 <= x <= U32_MAX ->
  to_expanded (E:=E) x =
    Ok (let t := to_target x in if (0 <? t) && (t <=? U256_MAX) then Some t else None).
Proof.
  intros Hx. unfold to_expanded, to_target.
  change SIGN_BIT with (2 ^ 23). change UNSIGNED_MANTISSA_MASK with (2 ^ 23 - 1).
  rewrite land_pow2 by lia. destruct (Z.testbit x 23); [done|]. change (0 =? 2 ^ 23) with false. cbn iota.
  rewrite land_ones_mod, Z.shiftr_div_pow2 by (unfold PRECISION; lia).
  change PRECISION with 24. change OFFSET with 3.
  assert (0 <= x / 2 ^ 24 <= 255) as Hb.
  { split; [apply Z.div_pos; lia|]. apply Z.lt_succ_r, Z.div_lt_upper_bound; bool_lia. }
  rewrite checked_ok by bool_lia. cbn [expect obind].
  apply normalised_expansion; [apply Z.mod_pos_bound; lia|done].
Qed.

(** [2^256 / (t + 1)] without representing [2^256]. *)
Lemma work_formula t : 0 <= t < U256_MAX -> (U256_MAX - t) / (t + 1) + 1 = 2 ^ 256 / (t + 1).
Proof.
  intros Ht. change (2 ^ 256) with (U256_MAX + 1).
  replace (U256_MAX + 1) with ((U256_MAX - t) + 1 * (t + 1)) by lia. rewrite Z.div_add by lia. done.
Qed.

Lemma work_try_from_exact t :
  1 <= t < U256_MAX ->
  work_try_from t = (let w := 2 ^ 256 / (t + 1) in if w <=? U128_MAX then Ok w else Err tt).
Proof.
  intros Ht. cbv zeta. rewrite <- work_formula by lia.
  unfold work_try_from, U256.add, U256.div, U256.not.
  rewrite checked_ok by lia. cbn [expect obind]. rewrite (proj2 (Z.eqb_neq _ _)) by lia. cbn [obind].
  rewrite checked_ok; [done|]. split; [pose proof (Z.div_pos (U256_MAX - t) (t + 1)); lia|].
  assert ((U256_MAX - t) / (t + 1) <= U256_MAX - t); [|lia].
  apply Z.div_le_upper_bound; [lia|]. assert (0 <= U256_MAX - t) by lia. nia.
Qed.

(** Targets are never all ones, so [expanded + 1] does not overflow. *)
Lemma to_target_not_max x : 0 <= x <= U32_MAX -> to_target x <> U256_MAX.
Proof.
  intros Hx Ht. unfold to_target in Ht. destruct (Z.testbit x 23); [done|].
  assert (0 <= x / 2 ^ 24) as Hb by (apply Z.div_pos; lia).
  destruct (Z.lt_ge_cases (x / 2 ^ 24) 4) as [Hlow|Hhigh].
  - assert (x mod 2 ^ 23 * 256 ^ (x / 2 ^ 24) / 256 ^ 3 < U256_MAX); [|lia].
    apply Z.div_lt_upper_bound; [lia|]. pose proof (Z.mod_pos_bound x (2 ^ 23) ltac:(lia)).
    pose proof (pow_pos_le 256 (x / 2 ^ 24) 4 ltac:(lia) ltac:(lia)).
    change (256 ^ 4) with 4294967296 in *. change (2 ^ 23) with 8388608 in *. unfold U256_MAX. nia.
  - rewrite scaled_high in Ht by lia.
    replace (x / 2 ^ 24 - 3) with (x / 2 ^ 24 - 4 + 1) in Ht by lia.
    rewrite Z.pow_add_r, Z.mul_assoc in Ht by lia. unfold U256_MAX in Ht. lia.
Qed.

(** For every 32-bit compact value, the expanded target is the protocol's
    [ToTarget] (and nothing when that is zero, negative or does not fit 256
    bits), and the work is [floor(2^256 / (target + 1))] when it fits 128 bits.
    Neither computation panics. *)
Theorem target_and_work_exact E x :
  0 <= x <= U32_MAX ->
  let t := to_target x in
  let w := 2 ^ 256 / (t + 1) in
  to_expanded (E:=E) x = Ok (if (0 <? t) && (t <=? U256_MAX) then Some t else None) /\
  to_work (E:=E) x =
    Ok (if (0 <? t) && (t <=? U256_MAX) && (w <=? U128_MAX) then Some w else None).
Proof.
  intros Hx t w. unfold to_work. rewrite to_expanded_target by done. fold t. split; [done|].
  cbv zeta. cbn [obind]. destruct (0 <? t) eqn:H0; [|done]. destruct (t <=? U256_MAX) eqn:H1; [|done].
  cbn [andb]. pose proof (to_target_not_max x Hx). fold t in H.
  rewrite work_try_from_exact by lia. cbv zeta. fold w. by destruct (w <=? U128_MAX).
Qed.
End expansion.

(** ** Compression of targets *)

Section compression.
Import CompactDifficulty ExpandedDifficulty.

(** Size in bytes, mantissa and truncated value of a target. *)
Definition compact_size (x : Z) : Z := (Z.log2 x + 1) / 8 + 1.
Definition compact_mantissa (x : Z) : Z :=
  if x <=? UNSIGNED_MANTISSA_MASK then x * 256 ^ (3 - compact_size x) else x / 256 ^ (compact_size x - 3).
Definition truncate (x : Z) : Z :=
  if x <=? UNSIGNED_MANTISSA_MASK then x
  else x / 256 ^ (compact_size x - 3) * 256 ^ (compact_size x - 3).

Lemma compact_size_small x : 0 < x -> x <= UNSIGNED_MANTISSA_MASK -> 1 <= compact_size x <= 3.
Proof.
  intros H0 Hx. unfold compact_size.
  assert (Z.log2 x < 23) by (apply Z.log2_lt_pow2; [done|]; change (2 ^ 23) with (UNSIGNED_MANTISSA_MASK + 1); lia).
  pose proof (Z.log2_nonneg x). split; [pose proof (Z.div_pos (Z.log2 x + 1) 8); lia|].
  assert ((Z.log2 x + 1) / 8 < 3); [apply Z.div_lt_upper_bound; lia|lia].
Qed.

Lemma compact_size_large x :
  UNSIGNED_MANTISSA_MASK < x <= U256_MAX -> 4 <= compact_size x <= 33.
Proof.
  intros Hx. assert (0 < x) by (change UNSIGNED_MANTISSA_MASK with 8388607 in *; lia). unfold compact_size.
  assert (23 <= Z.log2 x) by (apply Z.log2_le_pow2; [done|]; change (2 ^ 23) with (UNSIGNED_MANTISSA_MASK + 1); lia).
  assert (Z.log2 x < 256) by (apply Z.log2_lt_pow2; [done|]; change (2 ^ 256) with (U256_MAX + 1); lia).
  split; [assert (3 <= (Z.log2 x + 1) / 8) by (apply Z.div_le_lower_bound; lia)|
          assert ((Z.log2 x + 1) / 8 < 33) by (apply Z.div_lt_upper_bound; lia)]; lia.
Qed.

(** The mantissa fills 16 to 23 bits. *)
Lemma compact_mantissa_bounds x :
  0 < x <= U256_MAX -> 2 ^ 15 <= compact_mantissa x < 2 ^ 23.
Proof.
  intros Hx. pose proof (Z.log2_spec x ltac:(lia)) as Hlog. pose proof (Z.log2_nonneg x) as Hl0.
  unfold compact_mantissa. pose proof (Z.div_mod (Z.log2 x + 1) 8 ltac:(lia)) as Hdm.
  pose proof (Z.mod_pos_bound (Z.log2 x + 1) 8 ltac:(lia)) as Hmb.
  assert (forall k, 256 ^ k = 2 ^ (8 * k) \/ k < 0) as H256
    by (intros k; destruct (Z.lt_ge_cases k 0); [by right|left; change 256 with (2 ^ 8); by rewrite <- Z.pow_mul_r by lia]).
  destruct (Z.leb_spec x UNSIGNED_MANTISSA_MASK) as [Hs|Hs].
  - pose proof (compact_size_small x ltac:(lia) Hs) as Hsz.
    destruct (H256 (3 - compact_size x)) as [->|]; [|lia]. unfold compact_size in *.
    split.
    + transitivity (2 ^ Z.log2 x * 2 ^ (8 * (3 - ((Z.log2 x + 1) / 8 + 1)))); [|apply Z.mul_le_mono_nonneg_r; [apply Z.pow_nonneg; lia|lia]].
      rewrite <- Z.pow_add_r by lia. apply Z.pow_le_mono_r; lia.
    + apply Z.lt_le_trans with (2 ^ Z.succ (Z.log2 x) * 2 ^ (8 * (3 - ((Z.log2 x + 1) / 8 + 1)))).
      * apply Z.mul_lt_mono_pos_r; [apply Z.pow_pos_nonneg; lia|lia].
      * rewrite <- Z.pow_add_r by lia. apply Z.pow_le_mono_r; lia.
  - pose proof (compact_size_large x ltac:(lia)) as Hsz.
    destruct (H256 (compact_size x - 3)) as [->|]; [|lia]. unfold compact_size in *.
    set (k := 8 * ((Z.log2 x + 1) / 8 + 1 - 3)) in *. assert (0 < 2 ^ k) by (apply Z.pow_pos_nonneg; lia).
    split.
    + apply Z.div_le_lower_bound; [done|]. transitivity (2 ^ Z.log2 x); [|lia].
      rewrite <- Z.pow_add_r by lia. apply Z.pow_le_mono_r; lia.
    + apply Z.div_lt_upper_bound; [done|]. apply Z.lt_le_trans with (2 ^ Z.succ (Z.log2 x)); [lia|].
      rewrite <- Z.pow_add_r by lia. apply Z.pow_le_mono_r; lia.
Qed.

Lemma to_compact_parts {E} x :
  0 < x <= U256_MAX -> to_compact (E:=E) x = Ok (compact_mantissa x + compact_size x * 2 ^ 24).
Proof.
  intros Hx. pose proof (compact_mantissa_bounds x Hx) as Hm. unfold to_compact, U256.bits, U256.shl, U256.shr, wrap_u.
  rewrite Z.gtb_ltb, (proj2 (Z.ltb_lt 0 x)) by lia. cbn [assert_that obind].
  rewrite (proj2 (Z.eqb_neq x 0)) by lia. fold (compact_size x).
  assert (1 <= compact_size x <= 33) as Hsz.
  { destruct (Z.le_gt_cases x UNSIGNED_MANTISSA_MASK); [pose proof (compact_size_small x)|pose proof (compact_size_large x)]; lia. }
  match goal with |- context [if ?b then Z.modulo ?p ?q else ?r] =>
    replace (if b then Z.modulo p q else r) with (compact_mantissa x) end.
  2: { unfold compact_mantissa in *. destruct (Z.leb_spec x UNSIGNED_MANTISSA_MASK) as [Hs|Hs].
    - pose proof (compact_size_small x ltac:(lia) Hs). rewrite Z.shiftl_mul_pow2, Z.pow_mul_r by lia.
      change (2 ^ 8) with 256. symmetry. apply Z.mod_small. change (2 ^ 256) with (U256_MAX + 1). unfold U256_MAX. lia.
    - pose proof (compact_size_large x ltac:(lia)). rewrite Z.shiftr_div_pow2, Z.pow_mul_r by lia. done. }
  rewrite (proj2 (Z.ltb_lt _ _)) by (unfold OFFSET; lia). cbn [assert_that obind].
  rewrite checked_ok by bool_lia. cbn [expect obind].
  rewrite (proj2 (Z.leb_le _ _)) by (change UNSIGNED_MANTISSA_MASK with (2 ^ 23 - 1); lia). cbn [assert_that obind].
  rewrite checked_ok by bool_lia. cbn [expect obind].
  rewrite Z.gtb_ltb, (proj2 (Z.ltb_lt 0 _)) by lia. by rewrite Z.shiftl_mul_pow2 by lia.
Qed.

Lemma to_target_parts m b : 0 <= m < 2 ^ 23 -> 0 <= b -> to_target (m + b * 2 ^ 24) = m * 256 ^ b / 256 ^ 3.
Proof.
  intros Hm Hb. unfold to_target. rewrite Z.div_add, (Z.div_small m) by lia. simpl (0 + b).
  replace (m + b * 2 ^ 24) with (m + (b * 2) * 2 ^ 23) by (change (2 ^ 24) with (2 * 2 ^ 23); lia).
  rewrite Z.mod_add, Z.mod_small by lia.
  replace (Z.testbit (m + b * 2 * 2 ^ 23) 23) with false; [done|].
  rewrite Z.testbit_eqb by lia. rewrite Z.div_add, (Z.div_small m), Z.add_0_l by lia.
  by rewrite Z.mod_mul by lia.
Qed.

Lemma truncate_bounds x :
  0 < x <= U256_MAX -> 0 < truncate x <= x /\ Z.log2 (truncate x) = Z.log2 x /\ (x - truncate x) * 2 ^ 15 < x.
Proof.
  intros Hx. unfold truncate. destruct (Z.leb_spec x UNSIGNED_MANTISSA_MASK) as [Hs|Hs]; [lia|].
  pose proof (compact_size_large x ltac:(lia)) as Hsz.
  pose proof (compact_mantissa_bounds x Hx) as Hm. unfold compact_mantissa in Hm.
  rewrite (proj2 (Z.leb_gt _ _)) in Hm by lia.
  set (p := 256 ^ (compact_size x - 3)) in *.
  assert (0 < p) as Hp by (apply Z.pow_pos_nonneg; lia).
  pose proof (Z.div_mod x p ltac:(lia)). pose proof (Z.mod_pos_bound x p Hp).
  assert (0 < x / p * p <= x) as Ht by nia. split; [done|]. split; [|nia].
  pose proof (Z.log2_spec x ltac:(lia)) as Hlog.
  apply Z.log2_unique; [apply Z.log2_nonneg|]. split; [|lia].
  assert (8 * (compact_size x - 3) <= Z.log2 x) as Hk.
  { unfold compact_size. pose proof (Z.div_mod (Z.log2 x + 1) 8 ltac:(lia)).
    pose proof (Z.mod_pos_bound (Z.log2 x + 1) 8 ltac:(lia)). lia. }
  assert (2 ^ Z.log2 x = 2 ^ (Z.log2 x - 8 * (compact_size x - 3)) * p) as Hq.
  { unfold p. change 256 with (2 ^ 8). rewrite <- Z.pow_mul_r, <- Z.pow_add_r by lia. f_equal. lia. }
  rewrite Hq in Hlog |- *. apply Z.mul_le_mono_nonneg_r; [lia|].
  apply Z.div_le_lower_bound; lia.
Qed.

Lemma compact_size_truncate x : 0 < x <= U256_MAX -> compact_size (truncate x) = compact_size x.
Proof. intros Hx. unfold compact_size. by rewrite (proj1 (proj2 (truncate_bounds x Hx))). Qed.

Lemma truncate_small x : 0 < x <= U256_MAX ->
  (truncate x <=? UNSIGNED_MANTISSA_MASK) = (x <=? UNSIGNED_MANTISSA_MASK).
Proof.
  intros Hx. destruct (truncate_bounds x Hx) as (Ht & Hl & _).
  destruct (Z.leb_spec x UNSIGNED_MANTISSA_MASK) as [Hs|Hs]; [lia|].
  apply Z.leb_gt. assert (23 <= Z.log2 x) as H23.
  { apply Z.log2_le_pow2; [lia|]. change (2 ^ 23) with (UNSIGNED_MANTISSA_MASK + 1). lia. }
  rewrite <- Hl in H23. apply Z.log2_le_pow2 in H23; [|lia]. change (2 ^ 23) with (UNSIGNED_MANTISSA_MASK + 1) in H23. lia.
Qed.

Lemma compact_mantissa_truncate x :
  0 < x <= U256_MAX -> compact_mantissa (truncate x) = compact_mantissa x.
Proof.
  intros Hx. unfold compact_mantissa. rewrite truncate_small, compact_size_truncate by done.
  unfold truncate. destruct (x <=? UNSIGNED_MANTISSA_MASK) eqn:Hs; [done|].
  pose proof (compact_size_large x ltac:(lia)) as Hsz.
  apply Z.div_mul. pose proof (Z.pow_pos_nonneg 256 (compact_size x - 3)). lia.
Qed.

Lemma to_target_compact x :
  0 < x <= U256_MAX -> to_target (compact_mantissa x + compact_size x * 2 ^ 24) = truncate x.
Proof.
  intros Hx. pose proof (compact_mantissa_bounds x Hx) as Hm. unfold compact_mantissa, truncate in *.
  destruct (Z.leb_spec x UNSIGNED_MANTISSA_MASK) as [Hs|Hs].
  - pose proof (compact_size_small x ltac:(lia) Hs). rewrite to_target_parts by lia.
    rewrite <- Z.mul_assoc, <- Z.pow_add_r by lia.
    replace (3 - compact_size x + compact_size x) with 3 by lia. by rewrite Z.div_mul.
  - pose proof (compact_size_large x ltac:(lia)). rewrite to_target_parts, scaled_high by lia. done.
Qed.

(** Compressing and expanding a target truncates it. *)
Lemma to_compact_expands E x :
  0 < x <= U256_MAX ->
  let c := compact_mantissa x + compact_size x * 2 ^ 24 in
  to_compact (E:=E) x = Ok c /\ 0 <= c <= U32_MAX /\ to_expanded (E:=E) c = Ok (Some (truncate x)).
Proof.
  intros Hx c. destruct (truncate_bounds x Hx) as (Ht & _ & He).
  pose proof (compact_mantissa_bounds x Hx) as Hm.
  assert (1 <= compact_size x <= 33) as Hsz.
  { destruct (Z.le_gt_cases x UNSIGNED_MANTISSA_MASK); [pose proof (compact_size_small x)|pose proof (compact_size_large x)]; lia. }
  assert (0 <= c <= U32_MAX) as Hc by (unfold c; bool_lia).
  split_and!; [by apply to_compact_parts|lia|lia|].
  rewrite to_expanded_target by done. unfold c. rewrite to_target_compact by done. cbv zeta.
  by rewrite (proj2 (Z.ltb_lt 0 _)), (proj2 (Z.leb_le (truncate x) _)) by lia.
Qed.

(** Every positive 256-bit target compresses without panicking to a 32-bit
    compact value whose target keeps its leading bits: it is at most the
    original, misses less than one part in 2^15 of it, and compresses back to
    the same compact value. *)
Theorem compact_roundtrip E x :
  0 < x <= U256_MAX ->
  exists c t,
    to_compact (E:=E) x = Ok c /\ 0 <= c <= U32_MAX /\
    to_expanded (E:=E) c = Ok (Some t) /\ to_compact (E:=E) t = Ok c /\
    t <= x /\ (x - t) * 2 ^ 15 < x.
Proof.
  intros Hx. destruct (truncate_bounds x Hx) as (Ht & _ & He).
  destruct (to_compact_expands E x Hx) as (Hc & Hb & Hex).
  eexists _, (truncate x). split_and!; [exact Hc|lia|lia|exact Hex| |lia|done].
  rewrite to_compact_parts by lia. by rewrite compact_mantissa_truncate, compact_size_truncate.
Qed.
End compression.

Lemma target_and_work_exact_witness :
  CompactDifficulty.to_work (E:=unit) 0x1f07ffff = Ok (Some 8192) /\
  to_target 0x1f07ffff = 0x7ffff * 256 ^ 28.
Proof.
  split; [|by vm_compute].
  rewrite (proj2 (target_and_work_exact unit 0x1f07ffff ltac:(by_eval))). by vm_compute.
Defined.

Lemma compact_roundtrip_witness :
  exists t, CompactDifficulty.to_expanded (E:=unit) 0x1f07ffff = Ok (Some t) /\ t <= 2 ^ 243 - 1.
Proof.
  destruct (compact_roundtrip unit (2 ^ 243 - 1) ltac:(by_eval)) as (c & t & Hc & _ & Ht & _ & Hle & _).
  assert (c = 0x1f07ffff) as -> by (vm_compute in Hc; congruence). by exists t.
Defined.
