(* ===== verification/Networks.v ===== *)
(** * Heights, networks and network upgrades

    [zebra-chain/src/block/height.rs], [parameters/network.rs],
    [parameters/network/testnet.rs] and [parameters/network_upgrade.rs]: block
    heights and their checked arithmetic, the Zcash and Wcash networks, the
    activation heights of their upgrades, and the builder of test networks.

    A [Height] is the [Z] in its [u32].  A [BTreeMap] keyed by height is its
    list of entries in ascending order.  The checkpoint list and the lockbox
    disbursements of a test network are not part of its record here. *)

From S2P Require Import Prelude Amounts Difficulty.

Module Height.

Definition MIN : Z := 0.
Definition MAX : Z := U32_MAX / 2.
Definition MAX_EXPIRY_HEIGHT : Z := 499999999.

Inductive HeightError := Overflow | Underflow.

(** [impl TryFrom<u32> for Height]. *)
Definition try_from_u32 (height : Z) : option Z := if height <=? MAX then Some height else None.

(** [impl TryFrom<i64> for Height]: only the width is checked. *)
Definition try_from_i64 (height : Z) : option Z := u32_checked height.

(** [impl Sub<Height> for Height]. *)
Definition sub_height (self rhs : Z) : Z := self - rhs.

(** [impl Sub<HeightDiff> for Height]; the [i64] subtraction wraps. *)
Definition sub_diff (self rhs : Z) : option Z :=
  res ← u32_checked (wrap_i 64 (self - rhs)); try_from_u32 res.

(** [impl Add<HeightDiff> for Height]; the [i64] addition wraps. *)
Definition add_diff (self rhs : Z) : option Z :=
  res ← u32_checked (wrap_i 64 (self + rhs)); try_from_u32 res.

(** [Height::next] and [Height::previous]. *)
Definition next (self : Z) : outcome HeightError Z := ok_or (add_diff self 1) Overflow.
Definition previous (self : Z) : outcome HeightError Z := ok_or (sub_diff self 1) Underflow.

Definition is_min (self : Z) : bool := self =? MIN.

(** [impl TryIntoHeight for u64], [usize] and [i32]. *)
Definition try_into_height (n : Z) : option Z := h ← u32_checked n; try_from_u32 h.
End Height.

Module NetworkUpgrade.

(** [pub enum NetworkUpgrade], in activation order. *)
Inductive NetworkUpgrade :=
| Genesis | BeforeOverwinter | Overwinter | Sapling | Blossom | Heartwood | Canopy
| Nu5 | Nu6 | Nu6_1 | Nu6_2 | Nu6_3 | Nu7.

#[global] Instance NetworkUpgrade_eq_dec : EqDecision NetworkUpgrade.
Proof. solve_decision. Defined.

(** [NetworkUpgrade::iter]. *)
Definition iter : list NetworkUpgrade :=
  [Genesis; BeforeOverwinter; Overwinter; Sapling; Blossom; Heartwood; Canopy;
   Nu5; Nu6; Nu6_1; Nu6_2; Nu6_3; Nu7].

(** The derived [Ord]: the position of the variant. *)
Definition rank (nu : NetworkUpgrade) : Z :=
  match nu with
  | Genesis => 0 | BeforeOverwinter => 1 | Overwinter => 2 | Sapling => 3 | Blossom => 4
  | Heartwood => 5 | Canopy => 6 | Nu5 => 7 | Nu6 => 8 | Nu6_1 => 9 | Nu6_2 => 10
  | Nu6_3 => 11 | Nu7 => 12
  end.

(** [Iterator::skip_while (|nu| self != nu)]. *)
Fixpoint skip_to (self : NetworkUpgrade) (l : list NetworkUpgrade) : list NetworkUpgrade :=
  match l with
  | [] => []
  | nu :: rest => if decide (self = nu) then l else skip_to self rest
  end.

(** [NetworkUpgrade::next_upgrade] and [previous_upgrade]. *)
Definition next_upgrade (self : NetworkUpgrade) : option NetworkUpgrade := skip_to self iter !! 1%nat.
Definition previous_upgrade (self : NetworkUpgrade) : option NetworkUpgrade :=
  skip_to self (rev iter) !! 1%nat.

(** [BTreeMap<Height, NetworkUpgrade>]: entries in ascending height order. *)
Abbreviation ActivationList := (list (Z * NetworkUpgrade)).

(** [BTreeMap::insert]: a later entry replaces an earlier one at the same height. *)
Fixpoint btree_insert (k : Z) (nu : NetworkUpgrade) (l : ActivationList) : ActivationList :=
  match l with
  | [] => [(k, nu)]
  | (k', nu') :: rest =>
      if k <? k' then (k, nu) :: l
      else if k =? k' then (k, nu) :: rest
      else (k', nu') :: btree_insert k nu rest
  end.

Definition MAINNET_ACTIVATION_HEIGHTS : ActivationList :=
  [(0, Genesis); (1, BeforeOverwinter); (347500, Overwinter); (419200, Sapling);
   (653600, Blossom); (903000, Heartwood); (1046400, Canopy); (1687104, Nu5);
   (2726400, Nu6); (3146400, Nu6_1); (3364600, Nu6_2); (3428143, Nu6_3)].

Definition TESTNET_ACTIVATION_HEIGHTS : ActivationList :=
  [(0, Genesis); (1, BeforeOverwinter); (207500, Overwinter); (280000, Sapling);
   (584000, Blossom); (903800, Heartwood); (1028500, Canopy); (1842420, Nu5);
   (2976000, Nu6); (3536500, Nu6_1); (4052000, Nu6_2); (4134000, Nu6_3)].

(** [range(..=height).next_back()]. *)
Definition last_at_or_below (l : ActivationList) (height : Z) : option (Z * NetworkUpgrade) :=
  last (filter (fun e => e.1 <= height) l).

(** [NetworkUpgrade::current_with_activation_height] and [current], on an activation list. *)
Definition current_with_activation_height {E} (l : ActivationList) (height : Z) :
    outcome E (NetworkUpgrade * Z) :=
  let? e := expect (last_at_or_below l height) in
  Ok (e.2, e.1).
Definition current {E} (l : ActivationList) (height : Z) : outcome E NetworkUpgrade :=
  let? e := expect (last_at_or_below l height) in
  Ok e.2.

(** [iter().find(|(_, nu)| nu == &self).map(|(height, _)| height)]. *)
Definition find_height (self : NetworkUpgrade) (l : ActivationList) : option Z :=
  fst <$> List.find (fun e => bool_decide (e.2 = self)) l.

(** [NetworkUpgrade::activation_height]: its own height, or that of the first
    later upgrade that has one. *)
Fixpoint first_height (nus : list NetworkUpgrade) (l : ActivationList) : option Z :=
  match nus with
  | [] => None
  | nu :: nus =>
      match find_height nu l with
      | Some height => Some height
      | None => first_height nus l
      end
  end.
Definition activation_height (self : NetworkUpgrade) (l : ActivationList) : option Z :=
  first_height (skip_to self iter) l.

(** [NetworkUpgrade::is_activation_height]. *)
Definition is_activation_height (l : ActivationList) (height : Z) : bool :=
  existsb (fun e => e.1 =? height) l.

(** [Network::full_activation_list]. *)
Definition full_activation_list (l : ActivationList) : list (Z * NetworkUpgrade) :=
  omap (fun nu => h ← activation_height nu l; Some (h, nu)) iter.

Definition PRE_BLOSSOM_POW_TARGET_SPACING : Z := 150.
Definition POST_BLOSSOM_POW_TARGET_SPACING : Z := 75.
Definition POW_AVERAGING_WINDOW : Z := 17.
Definition TESTNET_MINIMUM_DIFFICULTY_GAP_MULTIPLIER : Z := 6.
Definition TESTNET_MAX_TIME_START_HEIGHT : Z := 653606.

(** [NetworkUpgrade::target_spacing], in seconds. *)
Definition target_spacing (self : NetworkUpgrade) : Z :=
  match self with
  | Genesis | BeforeOverwinter | Overwinter | Sapling => PRE_BLOSSOM_POW_TARGET_SPACING
  | _ => POST_BLOSSOM_POW_TARGET_SPACING
  end.

(** [NetworkUpgrade::averaging_window_timespan], in seconds. *)
Definition averaging_window_timespan (self : NetworkUpgrade) : Z :=
  target_spacing self * POW_AVERAGING_WINDOW.

(** Consensus branch ids. *)
Definition WCASH_TESTNET_V1_BRANCH_ID : Z := 0xb3cfd27e.
Definition WCASH_TESTNET_V3_BRANCH_ID : Z := 0x54ba2bfb.
Definition WCASH_MAINNET_V1_BRANCH_ID : Z := 0xd9c6a7ee.
Definition WCASH_REGTEST_V1_BRANCH_ID : Z := 0xc3a6678a.

Definition CONSENSUS_BRANCH_IDS : list (NetworkUpgrade * Z) :=
  [(Overwinter, 0x5ba81b19); (Sapling, 0x76b809bb); (Blossom, 0x2bb40e60);
   (Heartwood, 0xf5b9230b); (Canopy, 0xe9ff75a6); (Nu5, 0xc2d6d0b4); (Nu6, 0xc8e71055);
   (Nu6_1, 0x4dec4df0); (Nu6_2, 0x5437f330); (Nu6_3, 0x37a5165b)].

(** [NetworkUpgrade::branch_id]. *)
Definition branch_id (self : NetworkUpgrade) : option Z :=
  snd <$> List.find (fun e => bool_decide (e.1 = self)) CONSENSUS_BRANCH_IDS.

(** [impl TryFrom<u32> for NetworkUpgrade]: the upgrade of a branch id. *)
Definition try_from_branch_id (id : Z) : option NetworkUpgrade :=
  if existsb (Z.eqb id) [WCASH_TESTNET_V1_BRANCH_ID; WCASH_TESTNET_V3_BRANCH_ID;
                         WCASH_MAINNET_V1_BRANCH_ID; WCASH_REGTEST_V1_BRANCH_ID]
  then Some Nu6_3
  else fst <$> List.find (fun e => e.2 =? id) CONSENSUS_BRANCH_IDS.
End NetworkUpgrade.

Module Network.
Import NetworkUpgrade.

(** [wcash_genesis::WcashNetwork]. *)
Inductive WcashNetwork := WcashMainnet | WcashTestnet | WcashRegtest.

#[global] Instance WcashNetwork_eq_dec : EqDecision WcashNetwork.
Proof. solve_decision. Defined.

Inductive NetworkKind := KindMainnet | KindTestnet | KindRegtest.

#[global] Instance NetworkKind_eq_dec : EqDecision NetworkKind.
Proof. solve_decision. Defined.

(** [enum ConsensusFlavor]. *)
Inductive ConsensusFlavor := Zcash | Wcash (network : WcashNetwork).

(** [transparent::Address]; the hashes have 20 bytes. *)
Inductive Address :=
| PayToScriptHash (network_kind : NetworkKind) (script_hash : list byte)
| PayToPublicKeyHash (network_kind : NetworkKind) (pub_key_hash : list byte)
| Tex (network_kind : NetworkKind) (validating_key_hash : list byte).

(** [FundingStreamReceiver], [FundingStreamRecipient] and [FundingStreams]; the
    [HashMap] of recipients is its entries in the order of its iteration. *)
Inductive FundingStreamReceiver := Ecc | ZcashFoundation | MajorGrants | Deferred.
Record FundingStreamRecipient := mkRecipient { numerator : Z; addresses : list Address }.
Record FundingStreams := mkStreams {
  height_range : Z * Z;
  recipients : list (FundingStreamReceiver * FundingStreamRecipient)
}.

(** [testnet::Parameters]. *)
Record Parameters := mkParameters {
  consensus_flavor : ConsensusFlavor;
  network_name : string;
  network_magic : list byte;
  genesis_hash : list byte;
  activation_heights : ActivationList;
  slow_start_interval : Z;
  slow_start_shift : Z;
  funding_streams : list FundingStreams;
  target_difficulty_limit : Z;
  disable_pow : bool;
  minimum_difficulty_start_height : option Z;
  should_allow_unshielded_coinbase_spends : bool;
  pre_blossom_halving_interval : Z;
  post_blossom_halving_interval : Z;
  temporary_orchard_disabling_soft_fork_height : option Z
}.

(** [pub enum Network]. *)
Inductive Network := Mainnet | Testnet (params : Parameters).

(** [Network::wcash_network] and the predicates on it. *)
Definition wcash_network (self : Network) : option WcashNetwork :=
  match self with
  | Mainnet => None
  | Testnet params =>
      match consensus_flavor params with
      | Zcash => None
      | Wcash network => Some network
      end
  end.
Definition uses_wcash_consensus (self : Network) : bool :=
  match self with
  | Mainnet => false
  | Testnet params => match consensus_flavor params with Wcash _ => true | Zcash => false end
  end.
Definition is_wcash_testnet (self : Network) : bool := bool_decide (wcash_network self = Some WcashTestnet).
Definition is_wcash_mainnet (self : Network) : bool := bool_decide (wcash_network self = Some WcashMainnet).
Definition is_wcash_regtest (self : Network) : bool := bool_decide (wcash_network self = Some WcashRegtest).

Definition WCASH_MAINNET_NU7_PARENT_ACTIVATION_HEIGHT : Z := 51350.

(** [Network::wcash_nu7_parent_activation_height]. *)
Definition wcash_nu7_parent_activation_height (self : Network) : option Z :=
  if is_wcash_mainnet self then Some WCASH_MAINNET_NU7_PARENT_ACTIVATION_HEIGHT else None.

(** [Network::is_compatible_with_compiled_consensus], for a build with or
    without the [wcash-consensus] feature, and its assertion. *)
Definition is_compatible_with_compiled_consensus (wcash_consensus : bool) (self : Network) : bool :=
  Bool.eqb (uses_wcash_consensus self) wcash_consensus.
Definition assert_compatible_with_compiled_consensus {E} (wcash_consensus : bool) (self : Network) :
    outcome E unit :=
  assert_that (is_compatible_with_compiled_consensus wcash_consensus self).

(** [Network::default_port] and [wcash_default_rpc_port]. *)
Definition default_port (self : Network) : Z :=
  match self with
  | Mainnet => 8233
  | Testnet _ =>
      if is_wcash_mainnet self then 48233
      else if is_wcash_testnet self then 38233
      else if is_wcash_regtest self then 28233
      else 18233
  end.
Definition wcash_default_rpc_port (self : Network) : option Z :=
  match wcash_network self with
  | Some WcashTestnet => Some 38232
  | Some WcashRegtest => Some 28232
  | Some WcashMainnet => Some 48232
  | None => None
  end.

(** [Network::is_max_block_time_enforced]. *)
Definition is_max_block_time_enforced (self : Network) (height : Z) : bool :=
  if is_wcash_testnet self then negb (Height.is_min height)
  else if is_wcash_mainnet self then true
  else
    match self with
    | Mainnet => true
    | Testnet _ => height >=? TESTNET_MAX_TIME_START_HEIGHT
    end.

(** [Network::activation_list]. *)
Definition activation_list (self : Network) : ActivationList :=
  match self with
  | Mainnet => MAINNET_ACTIVATION_HEIGHTS
  | Testnet params => activation_heights params
  end.

(** [NetworkUpgrade::minimum_difficulty_spacing_for_height], in seconds. *)
Definition minimum_difficulty_spacing_for_height {E} (network : Network) (height : Z) :
    outcome E (option Z) :=
  match network with
  | Mainnet => Ok None
  | Testnet params =>
      match minimum_difficulty_start_height params with
      | None => Ok None
      | Some start_height =>
          if height <? start_height then Ok None
          else
            let? network_upgrade := current (activation_list network) height in
            Ok (Some (target_spacing network_upgrade * TESTNET_MINIMUM_DIFFICULTY_GAP_MULTIPLIER))
      end
  end.

(** [NetworkUpgrade::is_testnet_min_difficulty_block]; times in nanoseconds. *)
Definition is_testnet_min_difficulty_block {E} (network : Network)
    (block_height block_time previous_block_time : Z) : outcome E bool :=
  let block_time_gap := block_time - previous_block_time in
  let? spacing := minimum_difficulty_spacing_for_height network block_height in
  match spacing with
  | Some min_difficulty_gap => Ok (block_time_gap >? min_difficulty_gap * 1000000000)
  | None => Ok false
  end.

(** [NetworkUpgrade::averaging_window_timespan_for_height], in seconds. *)
Definition averaging_window_timespan_for_height {E} (network : Network) (height : Z) : outcome E Z :=
  let? network_upgrade := current (activation_list network) height in
  Ok (averaging_window_timespan network_upgrade).

(** [ConsensusBranchId::for_network_upgrade] and [ConsensusBranchId::current]. *)
Definition for_network_upgrade (network : Network) (network_upgrade : NetworkUpgrade) : option Z :=
  match network_upgrade, wcash_network network with
  | Nu6_3, Some WcashTestnet => Some WCASH_TESTNET_V3_BRANCH_ID
  | Nu6_3, Some WcashRegtest => Some WCASH_REGTEST_V1_BRANCH_ID
  | Nu6_3, Some WcashMainnet => Some WCASH_MAINNET_V1_BRANCH_ID
  | _, _ => branch_id network_upgrade
  end.
Definition current_branch_id {E} (network : Network) (height : Z) : outcome E (option Z) :=
  let? network_upgrade := current (activation_list network) height in
  Ok (for_network_upgrade network network_upgrade).

(** ** Configured test networks *)

(** [ConfiguredActivationHeights]. *)
Record ConfiguredActivationHeights := mkConfigured {
  before_overwinter : option Z; overwinter : option Z; sapling : option Z; blossom : option Z;
  heartwood : option Z; canopy : option Z; nu5 : option Z; nu6 : option Z; nu6_1 : option Z;
  nu6_2 : option Z; nu6_3 : option Z; nu7 : option Z
}.
Definition no_activation_heights : ConfiguredActivationHeights :=
  mkConfigured None None None None None None None None None None None None.

(** [Option::or]. *)
Definition option_or (a b : option Z) : option Z := match a with Some _ => a | None => b end.

(** [ConfiguredActivationHeights::for_regtest]. *)
Definition for_regtest (self : ConfiguredActivationHeights) : ConfiguredActivationHeights :=
  let overwinter := option_or (option_or (overwinter self) (before_overwinter self)) (Some 1) in
  let sapling := option_or (sapling self) overwinter in
  let blossom := option_or (blossom self) sapling in
  let heartwood := option_or (heartwood self) blossom in
  let canopy := option_or (canopy self) heartwood in
  mkConfigured (before_overwinter self) overwinter sapling blossom heartwood canopy
    (nu5 self) (nu6 self) (nu6_1 self) (nu6_2 self) (nu6_3 self) (nu7 self).

Inductive ParametersBuilderError :=
| LockFundingStreams
| InvalidActivationHeight
| InvalidHeightZero
| OutOfOrderUpgrades
| InvaildDifficultyLimits
| HalvingIntervalAfterFundingStreams.

(** [ParametersBuilder]. *)
Record ParametersBuilder := mkBuilder {
  b_network_name : string;
  b_network_magic : list byte;
  b_genesis_hash : list byte;
  b_activation_heights : ActivationList;
  b_slow_start_interval : Z;
  b_funding_streams : list FundingStreams;
  b_should_lock_funding_stream_address_period : bool;
  b_target_difficulty_limit : Z;
  b_disable_pow : bool;
  b_minimum_difficulty_start_height : option Z;
  b_should_allow_unshielded_coinbase_spends : bool;
  b_pre_blossom_halving_interval : Z;
  b_post_blossom_halving_interval : Z;
  b_temporary_orchard_disabling_soft_fork_height : option Z
}.

(** The chain of configured heights, in upgrade order. *)
Definition configured_chain (c : ConfiguredActivationHeights) : list (Z * NetworkUpgrade) :=
  omap (fun '(h, nu) => h ← h; Some (h, nu))
    [(before_overwinter c, BeforeOverwinter); (overwinter c, Overwinter); (sapling c, Sapling);
     (blossom c, Blossom); (heartwood c, Heartwood); (canopy c, Canopy); (nu5 c, Nu5); (nu6 c, Nu6);
     (nu6_1 c, Nu6_1); (nu6_2 c, Nu6_2); (nu6_3 c, Nu6_3); (nu7 c, Nu7)].

(** [collect::<Result<BTreeMap<_, _>, _>>()] of the chain. *)
Fixpoint collect_heights (l : ActivationList) (chain : list (Z * NetworkUpgrade)) :
    outcome ParametersBuilderError ActivationList :=
  match chain with
  | [] => Ok l
  | (h, nu) :: chain =>
      let? height := ok_or (Height.try_from_u32 h) InvalidActivationHeight in
      collect_heights (btree_insert height nu l) chain
  end.

(** The loop that checks the order of the upgrades; [iter] is the iterator over
    the collected map. *)
Fixpoint check_order (present expected : list NetworkUpgrade) (iter : ActivationList) :
    outcome ParametersBuilderError unit :=
  match expected with
  | [] => Ok tt
  | expected_network_upgrade :: expected =>
      if bool_decide (expected_network_upgrade ∈ present) then
        match iter with
        | (height, network_upgrade) :: iter =>
            do? require (negb (height =? 0)) InvalidHeightZero in
            do? require (bool_decide (network_upgrade = expected_network_upgrade)) OutOfOrderUpgrades in
            check_order present expected iter
        | [] => check_order present expected []
        end
      else check_order present expected iter
  end.

Definition set_activation_heights (self : ParametersBuilder) (l : ActivationList) : ParametersBuilder :=
  mkBuilder (b_network_name self) (b_network_magic self) (b_genesis_hash self) l
    (b_slow_start_interval self) (b_funding_streams self)
    (b_should_lock_funding_stream_address_period self) (b_target_difficulty_limit self)
    (b_disable_pow self) (b_minimum_difficulty_start_height self)
    (b_should_allow_unshielded_coinbase_spends self) (b_pre_blossom_halving_interval self)
    (b_post_blossom_halving_interval self) (b_temporary_orchard_disabling_soft_fork_height self).

(** [ParametersBuilder::with_activation_heights]. *)
Definition with_activation_heights (self : ParametersBuilder) (c : ConfiguredActivationHeights) :
    outcome ParametersBuilderError ParametersBuilder :=
  do? require (negb (b_should_lock_funding_stream_address_period self)) LockFundingStreams in
  let? collected := collect_heights [] (configured_chain c) in
  let network_upgrades := map snd collected in
  do? check_order network_upgrades NetworkUpgrade.iter collected in
  let kept := filter (fun e => e.1 < 1) (b_activation_heights self) in
  Ok (set_activation_heights self (foldl (fun l e => btree_insert e.1 e.2 l) kept collected)).

(** A target limit through its compact form, as [with_target_difficulty_limit] stores it. *)
Definition compact_limit (limit : Z) : outcome ParametersBuilderError Z :=
  let? compact := ExpandedDifficulty.to_compact limit in
  let? expanded := CompactDifficulty.to_expanded compact in
  ok_or expanded InvaildDifficultyLimits.

(** [ParametersBuilder::with_halving_interval]: both intervals, or an error. *)
Definition with_halving_interval (locked : bool) (pre_blossom_halving_interval : Z) :
    outcome ParametersBuilderError (Z * Z) :=
  do? require (negb locked) HalvingIntervalAfterFundingStreams in
  Ok (pre_blossom_halving_interval, wrap_i 64 (pre_blossom_halving_interval * 2)).

(** [ParametersBuilder::finish]. *)
Definition finish (self : ParametersBuilder) : Parameters :=
  mkParameters Zcash (b_network_name self) (b_network_magic self) (b_genesis_hash self)
    (b_activation_heights self) (b_slow_start_interval self) (b_slow_start_interval self / 2)
    (b_funding_streams self) (b_target_difficulty_limit self) (b_disable_pow self)
    (b_minimum_difficulty_start_height self) (b_should_allow_unshielded_coinbase_spends self)
    (b_pre_blossom_halving_interval self) (b_post_blossom_halving_interval self)
    (b_temporary_orchard_disabling_soft_fork_height self).

(** [Parameters::is_regtest]: the Wcash flavour decides; otherwise the fields
    are compared with the default Regtest ones.  The hash of the Regtest genesis
    block is an argument. *)
Definition is_regtest_parameters (regtest_genesis_hash : list byte) (self : Parameters) : bool :=
  match consensus_flavor self with
  | Wcash network => bool_decide (network = WcashRegtest)
  | Zcash =>
      bool_decide (network_magic self = [Byte.xaa; Byte.xe8; Byte.x3f; Byte.x5f]) &&
      bool_decide (network_name self = "Regtest"%string) &&
      bool_decide (genesis_hash self = regtest_genesis_hash) &&
      (slow_start_interval self =? 0) && (slow_start_shift self =? 0) &&
      (target_difficulty_limit self =? 0x0f0f0f * 256 ^ 29) && disable_pow self &&
      (pre_blossom_halving_interval self =? 144) && (post_blossom_halving_interval self =? 288)
  end.

(** [Network::kind] and [Network::t_addr_kind]. *)
Definition kind (regtest_genesis_hash : list byte) (self : Network) : NetworkKind :=
  match self with
  | Mainnet => KindMainnet
  | Testnet params =>
      if is_wcash_mainnet self then KindMainnet
      else if is_regtest_parameters regtest_genesis_hash params then KindRegtest
      else KindTestnet
  end.
Definition t_addr_kind (self : Network) : NetworkKind :=
  match self with
  | Mainnet => KindMainnet
  | Testnet _ => if is_wcash_mainnet self then KindMainnet else KindTestnet
  end.

(** The Wcash proof-of-work limit, [0x00002fabe8 << 216], and the Regtest one. *)
Definition WCASH_POW_LIMIT : Z := 0x2fabe8 * 256 ^ 27.
Definition REGTEST_POW_LIMIT : Z := of_le (replicate 32 Byte.x0f).

(** The builders of the three built-in Wcash networks before [finish], from the
    magic, the genesis hash and the target limit. *)
Definition wcash_builder (magic genesis : list byte) (limit slow_start : Z) (min_start : option Z) :
    outcome ParametersBuilderError ParametersBuilder :=
  let? limit := compact_limit limit in
  with_activation_heights
    (mkBuilder "UnknownTestnet" magic genesis TESTNET_ACTIVATION_HEIGHTS slow_start [] false limit
       false min_start false 840000 1680000 None)
    (mkConfigured None None None None None None None None None None (Some 1) None).

Definition as_wcash (network : WcashNetwork) (name : string) (magic : list byte) (p : Parameters) : Parameters :=
  mkParameters (Wcash network) name magic (genesis_hash p) (activation_heights p)
    (slow_start_interval p) (slow_start_shift p) (funding_streams p) (target_difficulty_limit p)
    (disable_pow p) (minimum_difficulty_start_height p) (should_allow_unshielded_coinbase_spends p)
    (pre_blossom_halving_interval p) (post_blossom_halving_interval p)
    (temporary_orchard_disabling_soft_fork_height p).

(** [Parameters::wcash_mainnet_parameters], [new_wcash_testnet] and [new_wcash_regtest]. *)
Definition wcash_mainnet_parameters (magic genesis : list byte) : outcome ParametersBuilderError Parameters :=
  let? b := wcash_builder magic genesis WCASH_POW_LIMIT 40000 None in
  Ok (as_wcash WcashMainnet "WcashMainnet" magic (finish b)).
Definition new_wcash_testnet (magic genesis : list byte) : outcome ParametersBuilderError Parameters :=
  let? b := wcash_builder magic genesis WCASH_POW_LIMIT 40000 (Some 1) in
  Ok (as_wcash WcashTestnet "WcashTestnet" magic (finish b)).
Definition new_wcash_regtest (magic genesis : list byte) : outcome ParametersBuilderError Parameters :=
  let? b := wcash_builder magic genesis REGTEST_POW_LIMIT Height.MIN None in
  Ok (as_wcash WcashRegtest "WcashRegtest" magic (finish b)).
End Network.

(** ** Heights *)

(** The checked conversion of a wrapped [i64] sum is exact. *)
Lemma wrapped_height z :
  - 2 ^ 63 <= z <= 2 ^ 63 + 2 ^ 31 ->
  (res ← u32_checked (wrap_i 64 z); Height.try_from_u32 res) = checked 0 Height.MAX z.
Proof.
  intros Hz. unfold Height.try_from_u32. change Height.MAX with 2147483647.
  destruct (Z.lt_ge_cases z (2 ^ 63)) as [Hs|Hs].
  - rewrite wrap_i_small by lia. unfold checked at 1. destruct (within 0 U32_MAX z) eqn:Hw; simpl.
    + apply within_spec in Hw. unfold checked, within. destruct (z <=? 2147483647) eqn:Hc; [|by rewrite andb_false_r].
      by rewrite (proj2 (Z.leb_le 0 z)) by lia.
    + apply within_false in Hw. symmetry. apply checked_None. bool_lia.
  - assert (wrap_i 64 z < 0) as Hneg.
    { unfold wrap_i. replace (z + 2 ^ (64 - 1)) with (z - 2 ^ 63 + 1 * 2 ^ 64) by lia.
      rewrite Z.mod_add, Z.mod_small by lia. lia. }
    rewrite (proj2 (checked_None 0 U32_MAX _)) by lia. symmetry. apply checked_None. lia.
Qed.

(** Adding or subtracting any [i64] difference gives the exact height when
    it lies in [0..=Height::MAX] and nothing otherwise, even where the [i64]
    arithmetic wraps; [next] and [previous] fail exactly at the two ends. *)
Theorem height_arithmetic_exact h d :
  0 <= h <= Height.MAX -> I64_MIN <= d <= I64_MAX ->
  Height.add_diff h d = checked 0 Height.MAX (h + d) /\
  Height.sub_diff h d = checked 0 Height.MAX (h - d) /\
  Height.next h = ok_or (checked 0 Height.MAX (h + 1)) Height.Overflow /\
  Height.previous h = ok_or (checked 0 Height.MAX (h - 1)) Height.Underflow.
Proof.
  intros Hh Hd. change Height.MAX with 2147483647 in Hh. unfold_widths.
  unfold Height.next, Height.previous, Height.add_diff, Height.sub_diff.
  rewrite !wrapped_height by lia. done.
Qed.

Lemma height_arithmetic_exact_witness :
  Height.sub_diff 5 I64_MIN = None /\ Height.next 7 = Ok 8.
Proof.
  destruct (height_arithmetic_exact 5 I64_MIN ltac:(by_eval) ltac:(by_eval)) as (_ & H & _).
  destruct (height_arithmetic_exact 7 0 ltac:(by_eval) ltac:(by_eval)) as (_ & _ & H' & _).
  rewrite H, H'. by vm_compute.
Defined.

(** ** Activation lists *)

Section activation.
Import NetworkUpgrade Network.

Definition before (a b : Z * NetworkUpgrade) : Prop := a.1 < b.1 /\ rank a.2 < rank b.2.

(** Heights and upgrades both increase, from [Genesis] at height zero. *)
Definition wf_activation (l : ActivationList) : Prop :=
  StronglySorted before l /\ head l = Some (0, Genesis).

Lemma rank_inj a b : rank a = rank b -> a = b.
Proof. by destruct a, b. Qed.

Lemma rank_bounds a : 0 <= rank a <= 12.
Proof. destruct a; simpl; lia. Qed.

(** The upgrades from [self] on are those of greater or equal rank, in order. *)
Lemma skip_to_iter self : skip_to self iter = filter (fun nu => rank self <= rank nu) iter.
Proof. by destruct self. Qed.

Lemma elem_of_iter nu : nu ∈ iter.
Proof. destruct nu; repeat constructor. Qed.

Lemma iter_sorted : StronglySorted (fun a b => rank a < rank b) iter.
Proof. repeat constructor. Qed.

Lemma find_height_Some nu l h : StronglySorted before l -> find_height nu l = Some h <-> (h, nu) ∈ l.
Proof.
  unfold find_height. induction 1 as [|[k nu'] l Hl IH Hall]; simpl; [split; [done|intros []%elem_of_nil]|].
  destruct (bool_decide_reflect (nu' = nu)) as [->|Hne]; simpl.
  - split; [intros [= ->]; left|]. intros [[= ->]|Hin]%elem_of_cons; [done|].
    rewrite Forall_forall in Hall. destruct (Hall _ Hin) as [_ Hr]. simpl in Hr. lia.
  - rewrite IH, elem_of_cons. naive_solver.
Qed.

Lemma first_height_Some nus l h :
  StronglySorted before l -> StronglySorted (fun a b => rank a < rank b) nus ->
  first_height nus l = Some h <->
  exists nu, nu ∈ nus /\ (h, nu) ∈ l /\ forall nu' h', nu' ∈ nus -> (h', nu') ∈ l -> rank nu <= rank nu'.
Proof.
  intros Hl. induction 1 as [|nu nus Hs IH Hall]; simpl.
  { split; [done|]. intros (? & []%elem_of_nil & _). }
  rewrite Forall_forall in Hall.
  destruct (find_height nu l) as [h0|] eqn:Hf.
  - apply find_height_Some in Hf; [|done]. split.
    + intros [= ->]. exists nu. split; [left|]. split; [done|]. intros nu' h' [->|Hin]%elem_of_cons _; [lia|].
      specialize (Hall _ Hin). lia.
    + intros (nu1 & [->|Hin]%elem_of_cons & Hin1 & Hmin).
      * f_equal. apply find_height_Some in Hf, Hin1; [|done..]. congruence.
      * specialize (Hmin nu h0 ltac:(left) Hf). specialize (Hall _ Hin). lia.
  - rewrite IH. assert (forall h', (h', nu) ∉ l) as Hnone.
    { intros h' Hin. apply find_height_Some in Hin; [|done]. congruence. }
    split; intros (nu1 & Hin & Hin1 & Hmin).
    + exists nu1. split; [by right|]. split; [done|]. intros nu' h' [->|Hin']%elem_of_cons Hl'; [by edestruct Hnone|eauto].
    + apply elem_of_cons in Hin as [->|Hin]; [by edestruct Hnone|]. exists nu1. split; [done|]. split; [done|].
      intros nu' h' Hin'. apply Hmin. by right.
Qed.

Lemma activation_height_Some self l h :
  StronglySorted before l ->
  activation_height self l = Some h <->
  exists nu, rank self <= rank nu /\ (h, nu) ∈ l /\
    forall nu' h', rank self <= rank nu' -> (h', nu') ∈ l -> rank nu <= rank nu'.
Proof.
  intros Hl. unfold activation_height. rewrite skip_to_iter.
  rewrite first_height_Some; [|done|by destruct self; repeat constructor].
  split; intros (nu & H1 & H2 & H3).
  - apply list_elem_of_filter in H1 as [H1 _]. exists nu. split_and!; [done..|].
    intros nu' h' Hr. apply H3, list_elem_of_filter. split; [done|apply elem_of_iter].
  - exists nu. split; [apply list_elem_of_filter; split; [done|apply elem_of_iter]|]. split; [done|].
    intros nu' h' [Hr _]%list_elem_of_filter. by apply H3.
Qed.

Lemma activation_height_is_Some self l nu h :
  StronglySorted before l -> rank self <= rank nu -> (h, nu) ∈ l -> is_Some (activation_height self l).
Proof.
  intros Hl Hr Hin. unfold activation_height. rewrite skip_to_iter.
  assert (nu ∈ filter (fun nu => rank self <= rank nu) iter) as Hnu
    by (apply list_elem_of_filter; split; [done|apply elem_of_iter]).
  induction Hnu as [x nus|x y nus Hx IH]; simpl; [|destruct (find_height y l); [by eexists|by apply IH]].
  apply find_height_Some in Hin; [|done]. rewrite Hin. by eexists.
Qed.

(** The recursive equation of the source. *)
Lemma activation_height_unfold self l :
  activation_height self l =
    match find_height self l with
    | Some h => Some h
    | None => match next_upgrade self with Some nu => activation_height nu l | None => None end
    end.
Proof. by destruct self. Qed.

Lemma before_sorted_height l a b :
  StronglySorted before l -> a ∈ l -> b ∈ l -> a.1 <= b.1 <-> rank a.2 <= rank b.2.
Proof.
  induction 1 as [|e l Hl IH Hall]; intros Ha Hb; [by apply elem_of_nil in Ha|].
  rewrite Forall_forall in Hall. unfold before in Hall.
  apply elem_of_cons in Ha as [->|Ha]; apply elem_of_cons in Hb as [->|Hb]; [lia| | |by apply IH].
  - destruct (Hall _ Hb). lia.
  - destruct (Hall _ Ha). lia.
Qed.

Lemma last_filter_elem l h (e : Z * NetworkUpgrade) :
  last (filter (fun e0 : Z * NetworkUpgrade => e0.1 <= h) l) = Some e -> e.1 <= h /\ e ∈ l.
Proof. intros Hl%last_Some_elem_of. by apply list_elem_of_filter in Hl. Qed.

Lemma last_filter_max l h e :
  StronglySorted before l -> last_at_or_below l h = Some e ->
  e ∈ l /\ e.1 <= h /\ forall e', e' ∈ l -> e'.1 <= h -> e'.1 <= e.1.
Proof.
  unfold last_at_or_below. intros Hl Hlast. pose proof (last_filter_elem l h e Hlast) as [Hle Hin].
  split; [done|]. split; [done|]. clear Hin. revert Hlast.
  induction Hl as [|e0 l Hl IH Hall]; [done|]. rewrite Forall_forall in Hall.
  rewrite filter_cons. case_decide as Hd; [rewrite last_cons|].
  - destruct (last (filter _ l)) as [e1|] eqn:Hl1; intros [= ->] e' [->|Hin']%elem_of_cons Hle'.
    + apply last_filter_elem in Hl1 as [_ Hel]. destruct (Hall _ Hel). lia.
    + by apply IH.
    + lia.
    + apply last_None in Hl1. exfalso. apply (not_elem_of_nil e'). rewrite <- Hl1.
      by apply list_elem_of_filter.
  - intros Hl1 e' [->|Hin']%elem_of_cons Hle'; [done|by apply IH].
Qed.

(** Every height has a current upgrade. *)
Lemma last_exists l h : wf_activation l -> 0 <= h -> exists e, last_at_or_below l h = Some e.
Proof.
  intros [_ Hhd] Hh. unfold last_at_or_below. destruct l as [|e0 l]; [done|]. injection Hhd as ->.
  rewrite filter_cons. case_decide as Hd; [|simpl in Hd; lia]. rewrite last_cons.
  destruct (last _) as [e1|]; eauto.
Qed.

(** On a well-formed activation list every height has a current upgrade,
    the current upgrade never goes back as the height grows, and an upgrade is
    active at a height (the current upgrade is it or a later one) exactly when
    its activation height is defined and not above that height. *)
Theorem upgrade_active_iff E l h :
  wf_activation l -> 0 <= h ->
  exists nu, current (E:=E) l h = Ok nu /\
    (forall h' nu', h <= h' -> current (E:=E) l h' = Ok nu' -> rank nu <= rank nu') /\
    (forall u, rank u <= rank nu <-> exists a, activation_height u l = Some a /\ a <= h).
Proof.
  intros Hwf Hh. destruct (last_exists l h Hwf Hh) as [e He]. destruct Hwf as [Hs Hhd].
  destruct (last_filter_max l h e Hs He) as (Hin & Hle & Hmax).
  exists e.2. unfold current. rewrite He. split; [done|]. split.
  - intros h' nu' Hh' Hc. outcome_inv. destruct (last_filter_max l h' a Hs H) as (Hin' & Hle' & Hmax').
    apply (before_sorted_height l); [done..|]. apply Hmax'; [done|lia].
  - intros u. setoid_rewrite activation_height_Some; [|done]. split.
    + intros Hu. destruct (activation_height_is_Some u l e.2 e.1 Hs Hu ltac:(by destruct e)) as [a Ha].
      apply activation_height_Some in Ha; [|done]. exists a. split; [done|].
      destruct Ha as (nu & Hr & Hnu & Hmin). specialize (Hmin e.2 e.1 Hu ltac:(by destruct e)).
      apply (before_sorted_height l (a, nu) e) in Hmin; [simpl in Hmin; lia|done..].
    + intros (a & (nu & Hr & Hnu & _) & Ha). transitivity (rank nu); [done|].
      apply (before_sorted_height l (a, nu) e); [done..|]. by apply Hmax.
Qed.

(** ** The builder keeps activation lists well-formed *)

Definition height_sorted (l : ActivationList) : Prop := StronglySorted (fun a b => a.1 < b.1) l.

Lemma btree_insert_elem k nu l e : e ∈ btree_insert k nu l -> e = (k, nu) \/ e ∈ l.
Proof.
  induction l as [|[k' nu'] l IH]; simpl; [intros ?%list_elem_of_singleton; by left|].
  destruct (k <? k'); [intros [->|?]%elem_of_cons; [by left|by right]|].
  destruct (k =? k'); intros [->|Hin]%elem_of_cons; [by left|right; by right|right; left|].
  destruct (IH Hin); [by left|right; by right].
Qed.

Lemma btree_insert_sorted k nu l : height_sorted l -> height_sorted (btree_insert k nu l).
Proof.
  unfold height_sorted. induction 1 as [|[k' nu'] l Hl IH Hall]; simpl; [repeat constructor|].
  rewrite Forall_forall in Hall. destruct (Z.ltb_spec k k') as [Hlt|Hge].
  - constructor; [constructor; [done|by rewrite Forall_forall]|]. constructor; [done|].
    apply Forall_forall. intros e He%Hall. simpl in *. lia.
  - destruct (Z.eqb_spec k k') as [->|Hne]; constructor; [done|by rewrite Forall_forall|done|].
    apply Forall_forall. intros e [->|He]%btree_insert_elem; [simpl; lia|by apply Hall].
Qed.

Lemma btree_insert_nodup k nu l :
  nu ∉ map snd l -> NoDup (map snd l) -> NoDup (map snd (btree_insert k nu l)).
Proof.
  induction l as [|[k' nu'] l IH]; simpl; intros Hnu Hnd; [by constructor|].
  apply NoDup_cons in Hnd as [Hnd1 Hnd2]. apply not_elem_of_cons in Hnu as [Hne Hnu].
  destruct (k <? k'); [constructor; [by rewrite not_elem_of_cons|by constructor]|].
  destruct (k =? k'); [by constructor|]. simpl. constructor; [|by apply IH].
  intros ([k2 nu2] & -> & Hin)%list_elem_of_fmap. simpl in *.
  apply btree_insert_elem in Hin as [[= -> ->]|Hin]; [done|].
  apply Hnd1. apply list_elem_of_fmap. by exists (k2, nu2).
Qed.

Lemma collect_heights_ok chain l r :
  collect_heights l chain = Ok r -> height_sorted l -> NoDup (map snd l ++ map snd chain) ->
  height_sorted r /\ NoDup (map snd r).
Proof.
  revert l. induction chain as [|[h nu] chain IH]; intros l Hc Hs Hnd; simpl in Hc.
  { injection Hc as <-. rewrite app_nil_r in Hnd. done. }
  outcome_inv. eapply IH; [done|by apply btree_insert_sorted|]. simpl in Hnd.
  apply NoDup_app in Hnd as (Hl & Hdis & Hc'). apply NoDup_cons in Hc' as [Hnu Hc'].
  assert (nu ∉ map snd l) as Hnl by (intros Hin; apply (Hdis _ Hin); left).
  apply NoDup_app. split_and!; [by apply btree_insert_nodup| |done].
  intros x ([k2 nu2] & -> & Hin)%list_elem_of_fmap. simpl.
  apply btree_insert_elem in Hin as [[= -> ->]|Hin]; [done|].
  intros Hx. apply (Hdis nu2); [apply list_elem_of_fmap; by exists (k2, nu2)|by right].
Qed.

(** The order check succeeds only when the collected upgrades are the present
    ones in the order of the enum, none at height zero. *)
Lemma check_order_ok present expected it :
  check_order present expected it = Ok tt ->
  length it = length (filter (fun nu => nu ∈ present) expected) ->
  map snd it = filter (fun nu => nu ∈ present) expected /\ Forall (fun e => e.1 <> 0) it.
Proof.
  revert it. induction expected as [|nu expected IH]; intros it Hc Hlen; simpl in Hc.
  { simpl in Hlen. by destruct it. }
  rewrite filter_cons in Hlen |- *. destruct (bool_decide_reflect (nu ∈ present)) as [Hin|Hin].
  - rewrite decide_True in Hlen |- * by done. destruct it as [|[h nu'] it]; [done|]. outcome_inv.
    apply bool_decide_eq_true in H0 as ->. destruct (IH it Hc) as [Heq Hf]; [simpl in Hlen; lia|].
    simpl. rewrite Heq. split; [done|]. constructor; [simpl; lia|done].
  - rewrite decide_False in Hlen |- * by done. by apply IH.
Qed.

Lemma filter_present_perm (present : list NetworkUpgrade) :
  NoDup present -> present ≡ₚ filter (fun nu => nu ∈ present) iter.
Proof.
  intros Hnd. apply NoDup_Permutation; [done|apply NoDup_filter; vm_compute; repeat constructor; set_solver|].
  intros nu. rewrite list_elem_of_filter. pose proof (elem_of_iter nu). tauto.
Qed.

Lemma sorted_both l :
  height_sorted l -> StronglySorted (fun a b => rank a < rank b) (map snd l) -> StronglySorted before l.
Proof.
  unfold height_sorted. induction 1 as [|[h nu] l Hl IH Hall]; intros Hr; [constructor|].
  apply StronglySorted_inv in Hr as [Hr Hall']. constructor; [by apply IH|].
  rewrite Forall_forall in Hall. rewrite Forall_forall in Hall'.
  apply Forall_forall. intros e He. split; [by apply Hall|].
  apply Hall'. apply list_elem_of_fmap. by exists e.
Qed.

Lemma StronglySorted_filter {A} (R : A -> A -> Prop) P `{!forall x, Decision (P x)} (l : list A) :
  StronglySorted R l -> StronglySorted R (filter P l).
Proof.
  induction 1 as [|x l Hl IH Hall]; [constructor|]. rewrite filter_cons. case_decide; [|done].
  constructor; [done|]. rewrite Forall_forall in Hall |- *. intros y [_ Hy]%list_elem_of_filter. by apply Hall.
Qed.

Lemma insert_all_sorted (k l : ActivationList) :
  height_sorted (k ++ l) -> foldl (fun l e => btree_insert e.1 e.2 l) k l = k ++ l.
Proof.
  revert k. induction l as [|[h nu] l IH]; intros k Hs; simpl; [by rewrite app_nil_r|].
  assert (btree_insert h nu k = k ++ [(h, nu)]) as ->.
  { clear IH. induction k as [|[h' nu'] k IHk]; [done|]. simpl in Hs.
    apply StronglySorted_inv in Hs as [Hs Hall]. rewrite Forall_forall in Hall.
    assert (h' < h) by (apply (Hall (h, nu)); apply elem_of_app; right; left). simpl.
    rewrite (proj2 (Z.ltb_ge h h')), (proj2 (Z.eqb_neq h h')) by lia. f_equal. by apply IHk. }
  rewrite IH; rewrite <- app_assoc; done.
Qed.

Lemma collect_heights_elem chain l r e :
  collect_heights l chain = Ok r -> e ∈ r -> e ∈ l \/ e ∈ chain.
Proof.
  revert l. induction chain as [|[h nu] chain IH]; intros l Hc He; simpl in Hc.
  { injection Hc as <-. by left. }
  outcome_inv. unfold Height.try_from_u32 in H. destruct (h <=? _); [|done]. injection H as <-.
  destruct (IH _ Hc He) as [Hin|Hin]; [|right; by right].
  apply btree_insert_elem in Hin as [->|Hin]; [right; left|by left].
Qed.

Lemma configured_chain_rank c e : e ∈ configured_chain c -> 0 < rank e.2.
Proof.
  unfold configured_chain. intros ([o nu] & Hin & He)%list_elem_of_omap.
  destruct o as [h|]; [|done]. injection He as <-. simpl.
  repeat (apply elem_of_cons in Hin as [[= _ ->]|Hin]; [by vm_compute|]). by apply elem_of_nil in Hin.
Qed.

Lemma configured_chain_nodup c : NoDup (map snd (configured_chain c)).
Proof.
  unfold configured_chain.
  assert (forall (l : list (option Z * NetworkUpgrade)), NoDup (map snd l) ->
    NoDup (map snd (omap (fun '(h, nu) => h ← h; Some (h, nu)) l))) as Ho.
  { induction l as [|[[h|] nu] l IH]; simpl; intros Hnd; [constructor| |];
      apply NoDup_cons in Hnd as [Hn Hnd]; [|by apply IH].
    constructor; [|by apply IH]. intros ([k nu2] & -> & ([o nu3] & Hin & He)%list_elem_of_omap)%list_elem_of_fmap.
    destruct o; [|done]. injection He as -> ->. apply Hn. apply list_elem_of_fmap. by exists (Some k, nu2). }
  apply Ho. vm_compute. repeat constructor; set_solver.
Qed.

Lemma kept_genesis l :
  wf_activation l -> filter (fun e : Z * NetworkUpgrade => e.1 < 1) l = [(0, Genesis)].
Proof.
  intros [Hs Hhd]. destruct l as [|e l]; [done|]. injection Hhd as ->.
  apply StronglySorted_inv in Hs as [_ Hall]. rewrite filter_cons_True by (simpl; lia). f_equal.
  induction Hall as [|e l [He _] Hall IH]; [done|]. simpl in He. rewrite filter_cons_False by lia. done.
Qed.

(** Whatever heights are configured, a builder that holds a well-formed
    activation list and accepts them holds a well-formed activation list
    afterwards: upgrades stay ordered by height and [Genesis] keeps height zero. *)
Theorem with_activation_heights_wf b c b' :
  wf_activation (b_activation_heights b) -> with_activation_heights b c = Ok b' ->
  Forall (fun e => 0 <= e.1) (configured_chain c) ->
  wf_activation (b_activation_heights b').
Proof.
  intros Hwf Hb Hpos. unfold with_activation_heights in Hb. outcome_inv. simpl.
  rename a0 into r. destruct a1. rewrite kept_genesis by done.
  destruct (collect_heights_ok _ _ _ H0) as [Hs Hnd]; [constructor|apply configured_chain_nodup|].
  destruct (check_order_ok _ _ _ H1) as [Hm Hz].
  { rewrite <- (Permutation_length (filter_present_perm _ Hnd)). by rewrite length_map. }
  assert (forall e, e ∈ r -> 0 < e.1 /\ 0 < rank e.2) as Hr.
  { intros e He. rewrite Forall_forall in Hz. specialize (Hz _ He).
    destruct (collect_heights_elem _ _ _ _ H0 He) as [[]%elem_of_nil|Hc].
    rewrite Forall_forall in Hpos. specialize (Hpos _ Hc). split; [lia|by apply (configured_chain_rank c)]. }
  assert (StronglySorted before r) as Hsr.
  { apply sorted_both; [done|]. rewrite Hm. apply StronglySorted_filter, iter_sorted. }
  rewrite (insert_all_sorted [(0, Genesis)] r).
  - split; [|done]. constructor; [done|]. apply Forall_forall. intros e He. by apply Hr.
  - constructor; [done|]. apply Forall_forall. intros e He. simpl. by apply Hr.
Qed.
End activation.

Lemma upgrade_active_iff_witness :
  exists nu, NetworkUpgrade.current (E:=unit) NetworkUpgrade.MAINNET_ACTIVATION_HEIGHTS 700000 = Ok nu /\
    nu = NetworkUpgrade.Blossom.
Proof.
  destruct (upgrade_active_iff unit NetworkUpgrade.MAINNET_ACTIVATION_HEIGHTS 700000) as (nu & Hc & _).
  - split; [|done]. repeat constructor.
  - lia.
  - exists nu. split; [done|]. vm_compute in Hc. congruence.
Defined.

Lemma with_activation_heights_wf_witness :
  let b := Network.mkBuilder "t" [] [] NetworkUpgrade.TESTNET_ACTIVATION_HEIGHTS 0 [] false 1 false None
             false 144 288 None in
  let c := Network.mkConfigured None (Some 1) None (Some 5) None (Some 5) None None None None (Some 9) None in
  exists b', Network.with_activation_heights b c = Ok b' /\
    Network.b_activation_heights b' =
      [(0, NetworkUpgrade.Genesis); (1, NetworkUpgrade.Overwinter); (5, NetworkUpgrade.Canopy);
       (9, NetworkUpgrade.Nu6_3)] /\
    wf_activation (Network.b_activation_heights b').
Proof.
  intros b c. eexists. split; [by vm_compute|]. split; [by vm_compute|].
  eapply (with_activation_heights_wf b c); [|by vm_compute|].
  - split; [|done]. repeat constructor.
  - repeat constructor; by vm_compute.
Defined.

(** ** Transaction domains *)

(** Branch ids separate the networks and identify the upgrade: on every
    network, the branch id of an upgrade maps back to that upgrade, and the
    NU6.3 branch ids of the three Wcash networks differ from each other and
    from Zcash's. *)
Theorem branch_ids_separate_networks (n m : Network.Network) nu id :
  Network.for_network_upgrade n nu = Some id ->
  NetworkUpgrade.try_from_branch_id id = Some nu /\
  (Network.for_network_upgrade m nu = Some id -> nu = NetworkUpgrade.Nu6_3 ->
   Network.wcash_network n = Network.wcash_network m).
Proof.
  unfold Network.for_network_upgrade. intros Hid. split.
  - destruct nu, (Network.wcash_network n) as [[]|]; vm_compute in Hid; simplify_eq; by vm_compute.
  - intros Hm ->. destruct (Network.wcash_network n) as [[]|], (Network.wcash_network m) as [[]|];
      vm_compute in Hid, Hm; congruence.
Qed.

Lemma branch_ids_separate_networks_witness :
  NetworkUpgrade.try_from_branch_id 0xc2d6d0b4 = Some NetworkUpgrade.Nu5.
Proof.
  apply (branch_ids_separate_networks Network.Mainnet Network.Mainnet NetworkUpgrade.Nu5 0xc2d6d0b4).
  by vm_compute.
Defined.
