(* ===== verification/Subsidies.v ===== *)
(** * Block subsidies and the foundation allocation

    [zebra-chain/src/parameters/network/subsidy.rs] and
    [subsidy/wcash_foundation.rs]: halving indexes and heights, the subsidy of
    every network, funding streams, the Wcash foundation's share, and what is
    left for the miner. *)

From S2P Require Import Prelude Amounts Difficulty Emission Networks.
Import NetworkUpgrade(NetworkUpgrade, Blossom, Canopy, rank, current, activation_height).
Import Network.
Import Amount(NonNegative, zatoshis).

Module Subsidy.

Definition WCASH_INITIAL_BLOCK_SUBSIDY : Z := 625000000.
Definition WCASH_TESTNET_SLOW_START_INTERVAL : Z := 40000.
Definition WCASH_TESTNET_SLOW_START_SHIFT : Z := 20000.
Definition WCASH_HALVING_INTERVAL : Z := 1680000.
Definition WCASH_REGTEST_FIRST_HALVING_HEIGHT : Z := 1680001.
Definition WCASH_TESTNET_FIRST_HALVING_HEIGHT : Z := 1700000.
Definition MAX_BLOCK_SUBSIDY : Z := 25 * COIN / 2.
Definition BLOSSOM_POW_TARGET_SPACING_RATIO : Z := 2.
Definition PRE_BLOSSOM_HALVING_INTERVAL : Z := 840000.
Definition POST_BLOSSOM_HALVING_INTERVAL : Z :=
  PRE_BLOSSOM_HALVING_INTERVAL * BLOSSOM_POW_TARGET_SPACING_RATIO.
Definition FUNDING_STREAM_RECEIVER_DENOMINATOR : Z := 100.
Definition REGTEST_FIRST_HALVING : Z := 287.
Definition TESTNET_FIRST_HALVING : Z := 1116000.
Definition SLOW_START_INTERVAL : Z := 20000.
Definition SLOW_START_SHIFT : Z := SLOW_START_INTERVAL / 2.

(** [pub enum SubsidyError]. *)
Inductive SubsidyError :=
| NoCoinbase
| FundingStreamNotFound
| FoundersRewardNotFound
| OneTimeLockboxDisbursementNotFound
| InvalidMinerFees
| WcashSaplingCoinbaseOutput
| WcashOrchardCoinbaseOutput
| WcashCoinbaseOutputMissing
| WcashMixedCoinbaseOutputs
| WcashIronwoodValueBalanceNotNegative
| WcashCoinbaseValueTooLarge
| WcashFoundationOutputMissing
| Overflow
| Underflow
| UnsupportedHeight
| InvalidAmount (e : Amount.Error).

(** Constants of the networks that are tables or hashes of their own: the
    Mainnet funding streams, the Regtest genesis hash, and the comparison with
    the default Testnet parameters. *)
Class ChainConstants := {
  MAINNET_FUNDING_STREAMS : list FundingStreams;
  REGTEST_GENESIS_HASH : list byte;
  is_default_testnet : Parameters -> bool
}.

Section subsidies.
Context `{ConsensusBuild, ChainConstants}.

(** [Network::slow_start_interval] and [slow_start_shift]. *)
Definition net_slow_start_interval (self : Network) : Z :=
  match self with Testnet params => slow_start_interval params | Mainnet => SLOW_START_INTERVAL end.
Definition net_slow_start_shift (self : Network) : Z :=
  match self with Testnet params => slow_start_shift params | Mainnet => SLOW_START_SHIFT end.

(** [Network::all_funding_streams] and [funding_streams]. *)
Definition all_funding_streams (self : Network) : list FundingStreams :=
  match self with Testnet params => funding_streams params | Mainnet => MAINNET_FUNDING_STREAMS end.
Definition net_funding_streams (self : Network) (height : Z) : option FundingStreams :=
  List.find (fun s => ((height_range s).1 <=? height) && (height <? (height_range s).2))
    (all_funding_streams self).

(** [ParameterSubsidy::post_blossom_halving_interval] and [pre_blossom_halving_interval]. *)
Definition net_post_blossom_halving_interval (self : Network) : Z :=
  if uses_wcash_consensus self then WCASH_HALVING_INTERVAL
  else match self with
       | Mainnet => POST_BLOSSOM_HALVING_INTERVAL
       | Testnet params => post_blossom_halving_interval params
       end.
Definition net_pre_blossom_halving_interval (self : Network) : Z :=
  if uses_wcash_consensus self then WCASH_HALVING_INTERVAL
  else match self with
       | Mainnet => PRE_BLOSSOM_HALVING_INTERVAL
       | Testnet params => pre_blossom_halving_interval params
       end.

(** [ParameterSubsidy::funding_stream_address_change_interval]. *)
Definition funding_stream_address_change_interval (self : Network) : Z :=
  Z.quot (net_post_blossom_halving_interval self) 48.

(** [height_for_halving]. *)
Definition height_for_halving (halving : Z) (network : Network) : option Z :=
  if halving =? 0 then Some 0
  else if is_wcash_mainnet network then None
  else if uses_wcash_consensus network then
    height ← u32_checked (halving * WCASH_HALVING_INTERVAL);
    height ← (if is_wcash_testnet network then u32_checked (height + WCASH_TESTNET_SLOW_START_SHIFT)
              else u32_checked (height + 1));
    Height.try_from_u32 height
  else
    let slow_start_shift := net_slow_start_shift network in
    blossom_height ← activation_height Blossom (activation_list network);
    unscaled_height ← i64_checked (halving * net_pre_blossom_halving_interval network);
    pre_blossom_height ← i64_checked (Z.min unscaled_height blossom_height + slow_start_shift);
    post_blossom_height ←
      i64_checked (Z.max 0 (wrap_i 64 (unscaled_height - blossom_height)) * BLOSSOM_POW_TARGET_SPACING_RATIO);
    post_blossom_height ← i64_checked (post_blossom_height + slow_start_shift);
    height ← i64_checked (pre_blossom_height + post_blossom_height);
    height ← u32_checked height;
    Height.try_from_u32 height.

(** [ParameterSubsidy::height_for_first_halving]. *)
Definition height_for_first_halving {E} (self : Network) : outcome E Z :=
  if uses_wcash_consensus self then
    Ok (if is_wcash_mainnet self then Height.MAX
        else if is_wcash_testnet self then WCASH_TESTNET_FIRST_HALVING_HEIGHT
        else WCASH_REGTEST_FIRST_HALVING_HEIGHT)
  else
    match self with
    | Mainnet => expect (activation_height Canopy (activation_list self))
    | Testnet params =>
        if is_regtest_parameters REGTEST_GENESIS_HASH params then Ok REGTEST_FIRST_HALVING
        else if is_default_testnet params then Ok TESTNET_FIRST_HALVING
        else expect (height_for_halving 1 self)
    end.

(** [funding_stream_address_period]; [i64] division truncates and panics on zero. *)
Definition funding_stream_address_period {E} (height : Z) (network : Network) : outcome E Z :=
  let? first_halving := height_for_first_halving network in
  let height_after_first_halving := Height.sub_height height first_halving in
  let interval := funding_stream_address_change_interval network in
  do? assert_that (negb (interval =? 0)) in
  expect (u32_checked (Z.quot
    (wrap_i 64 (height_after_first_halving + net_post_blossom_halving_interval network)) interval)).

(** [halving]; [u32] subtraction saturates, [i64] division panics on zero. *)
Definition halving {E} (height : Z) (network : Network) : outcome E Z :=
  if is_wcash_mainnet network then Ok 0
  else if uses_wcash_consensus network then
    let schedule_height :=
      if is_wcash_testnet network then Z.max 0 (height - WCASH_TESTNET_SLOW_START_SHIFT)
      else Z.max 0 (height - 1) in
    Ok (schedule_height / WCASH_HALVING_INTERVAL)
  else
    let slow_start_shift := net_slow_start_shift network in
    let? blossom_height := expect (activation_height Blossom (activation_list network)) in
    let? halving_index :=
      if height <? slow_start_shift then Ok 0
      else if height <? blossom_height then
        let pre_blossom_height := Height.sub_height height slow_start_shift in
        do? assert_that (negb (net_pre_blossom_halving_interval network =? 0)) in
        Ok (Z.quot pre_blossom_height (net_pre_blossom_halving_interval network))
      else
        let pre_blossom_height := Height.sub_height blossom_height slow_start_shift in
        let scaled_pre_blossom_height := pre_blossom_height * BLOSSOM_POW_TARGET_SPACING_RATIO in
        let post_blossom_height := Height.sub_height height blossom_height in
        do? assert_that (negb (net_post_blossom_halving_interval network =? 0)) in
        Ok (Z.quot (scaled_pre_blossom_height + post_blossom_height)
              (net_post_blossom_halving_interval network)) in
    expect (u32_checked halving_index).

(** [halving_divisor]: [1u64.checked_shl]. *)
Definition halving_divisor {E} (height : Z) (network : Network) : outcome E (option Z) :=
  let? n := halving height network in
  Ok (if n <? 64 then Some (Z.shiftl 1 n) else None).

Definition to_amount (amount : Z) : outcome SubsidyError (Amount.Amount NonNegative) :=
  map_err InvalidAmount (Amount.try_from_u64 NonNegative amount).

(** [block_subsidy]. *)
Definition block_subsidy (height : Z) (net : Network) :
    outcome SubsidyError (Amount.Amount NonNegative) :=
  if is_wcash_mainnet net then map_err InvalidAmount (Emission.block_subsidy height)
  else if uses_wcash_consensus net then
    if is_wcash_testnet net && (height <=? WCASH_TESTNET_SLOW_START_INTERVAL) then
      let? product := expect (u64_checked (WCASH_INITIAL_BLOCK_SUBSIDY * height)) in
      to_amount (product / WCASH_TESTNET_SLOW_START_INTERVAL)
    else if height =? Height.MIN then Amount.zero NonNegative
    else
      let? n := halving height net in
      to_amount (if n <? 64 then Z.shiftr WCASH_INITIAL_BLOCK_SUBSIDY n else 0)
  else
    let? divisor := halving_divisor height net in
    match divisor with
    | None => Amount.zero NonNegative
    | Some halving_div =>
        let slow_start_interval := net_slow_start_interval net in
        if height <? slow_start_interval then
          let slow_start_rate := MAX_BLOCK_SUBSIDY / slow_start_interval in
          to_amount (if height <? net_slow_start_shift net then slow_start_rate * height
                     else slow_start_rate * (height + 1))
        else
          let? nu := current (activation_list net) height in
          let base_subsidy := if rank nu <? rank Blossom then MAX_BLOCK_SUBSIDY
                              else MAX_BLOCK_SUBSIDY / BLOSSOM_POW_TARGET_SPACING_RATIO in
          to_amount (base_subsidy / halving_div)
    end.

(** The loop of [funding_stream_values] over the recipients. *)
Fixpoint stream_values (expected_block_subsidy : Amount.Amount NonNegative)
    (recipients : list (FundingStreamReceiver * FundingStreamRecipient)) :
    outcome Amount.Error (list (FundingStreamReceiver * Amount.Amount NonNegative)) :=
  match recipients with
  | [] => Ok []
  | (receiver, recipient) :: recipients =>
      let? product := Amount.mul expected_block_subsidy (numerator recipient) in
      let? amount_value := Amount.div product FUNDING_STREAM_RECEIVER_DENOMINATOR in
      let? rest := stream_values expected_block_subsidy recipients in
      Ok ((receiver, amount_value) :: rest)
  end.

(** [funding_stream_values]. *)
Definition funding_stream_values (height : Z) (network : Network)
    (expected_block_subsidy : Amount.Amount NonNegative) :
    outcome Amount.Error (list (FundingStreamReceiver * Amount.Amount NonNegative)) :=
  if uses_wcash_consensus network then Ok []
  else if Amount.is_zero expected_block_subsidy then Ok []
  else
    let? nu := current (activation_list network) height in
    if rank Canopy <=? rank nu then
      match net_funding_streams network height with
      | Some streams => stream_values expected_block_subsidy (recipients streams)
      | None => Ok []
      end
    else Ok [].

(** [founders_reward]. *)
Definition founders_reward {E} (net : Network) (height : Z) : outcome E (Amount.Amount NonNegative) :=
  if uses_wcash_consensus net then Amount.zero NonNegative
  else
    let? n := halving height net in
    let? before_canopy :=
      if n <? 1 then let? nu := current (activation_list net) height in Ok (rank nu <? rank Canopy)
      else Ok false in
    if (before_canopy : bool) then
      let? subsidy := expect_ok (block_subsidy height net) in
      Amount.div_exact subsidy 5
    else Amount.zero NonNegative.
End subsidies.
End Subsidy.

(** [Address::hash_bytes] and [Address::script] ([transparent/address.rs]). *)
Module TransparentAddress.
Definition hash_bytes (self : Address) : list byte :=
  match self with
  | PayToScriptHash _ h | PayToPublicKeyHash _ h | Tex _ h => h
  end.
Definition script (self : Address) : list byte :=
  match self with
  | PayToScriptHash _ _ => [Byte.xa9; Byte.x14] ++ hash_bytes self ++ [Byte.x87]
  | PayToPublicKeyHash _ _ => [Byte.x76; Byte.xa9; Byte.x14] ++ hash_bytes self ++ [Byte.x88; Byte.xac]
  | Tex _ _ => []
  end.
End TransparentAddress.

Module Foundation.
Import Subsidy.

Definition WCASH_FOUNDATION_START_HEIGHT : Z := 33000.
Definition WCASH_FOUNDATION_EXPIRY_HEIGHT : Z := 621455.
Definition WCASH_FOUNDATION_NUMERATOR : Z := 3.
Definition WCASH_FOUNDATION_DENOMINATOR : Z := 10.
Definition WCASH_FOUNDATION_ADDRESS : string := "W1ZRudbQKz7jQdKmAarbaJsegscnZzXjpu2".
Definition WCASH_FOUNDATION_TEST_ADDRESS : string := "WRHUq9CTLZFa52NmAyHH5usN21Q8jZVskN1".

(** What the allocation depends on: the compiled Regtest fixture, the parser of
    Wcash addresses, and the iteration order of a [HashMap]. *)
Class FoundationEnv := {
  WCASH_FOUNDATION_TEST_FIXTURE_ENABLED : bool;
  parse_wcash : string -> Network -> option Address;
  hash_values : list (Amount.Amount NonNegative) -> list (Amount.Amount NonNegative);
  hash_values_perm : forall l, hash_values l ≡ₚ l
}.

(** [transparent::Output] and [WcashFoundationAllocation]. *)
Record Output := mkOutput { value : Amount.Amount NonNegative; lock_script : list byte }.
#[global] Instance Output_eq_dec : EqDecision Output.
Proof. solve_decision. Defined.
Record WcashFoundationAllocation := mkAllocation { amount : Amount.Amount NonNegative; address : Address }.

(** [WcashFoundationAllocation::output]. *)
Definition output (self : WcashFoundationAllocation) : Output :=
  mkOutput (amount self) (TransparentAddress.script (address self)).

Section foundation.
Context `{ConsensusBuild, ChainConstants, FoundationEnv}.

(** [wcash_foundation_activation_height] and [wcash_foundation_expiry_height]. *)
Definition wcash_foundation_activation_height (network : Network) : option Z :=
  if is_wcash_mainnet network then Some WCASH_FOUNDATION_START_HEIGHT
  else if WCASH_FOUNDATION_TEST_FIXTURE_ENABLED && is_wcash_regtest network then Some 10
  else None.
Definition wcash_foundation_expiry_height (network : Network) : option Z :=
  if is_wcash_mainnet network then Some WCASH_FOUNDATION_EXPIRY_HEIGHT
  else if WCASH_FOUNDATION_TEST_FIXTURE_ENABLED && is_wcash_regtest network then Some 20
  else None.

(** [wcash_foundation_fund]; the [expect]s are panics. *)
Definition wcash_foundation_fund {E} (height : Z) (network : Network)
    (gross_subsidy : Amount.Amount NonNegative) : outcome E (option WcashFoundationAllocation) :=
  match wcash_foundation_activation_height network, wcash_foundation_expiry_height network with
  | Some activation, Some expiry =>
      if (height <? activation) || (height >=? expiry) then Ok None
      else
        let encoded := if is_wcash_mainnet network then WCASH_FOUNDATION_ADDRESS
                       else WCASH_FOUNDATION_TEST_ADDRESS in
        let? gross := expect (u128_checked (zatoshis gross_subsidy)) in
        let share := gross * WCASH_FOUNDATION_NUMERATOR / WCASH_FOUNDATION_DENOMINATOR in
        let? share := expect (u64_checked share) in
        let? amount := expect_ok (Amount.try_from_u64 NonNegative share) in
        let? address := expect (parse_wcash encoded network) in
        Ok (Some (mkAllocation amount address))
  | _, _ => Ok None
  end.

(** [Iterator::position]. *)
Fixpoint position (required : Output) (outputs : list Output) : option nat :=
  match outputs with
  | [] => None
  | o :: outputs => if decide (o = required) then Some 0%nat else S <$> position required outputs
  end.

(** [wcash_foundation_fund_output_index]. *)
Definition wcash_foundation_fund_output_index (height : Z) (network : Network)
    (gross_subsidy : Amount.Amount NonNegative) (outputs : list Output) :
    outcome SubsidyError (option nat) :=
  let? allocation := wcash_foundation_fund height network gross_subsidy in
  match allocation with
  | None => Ok None
  | Some allocation =>
      let? index := ok_or (position (output allocation) outputs) WcashFoundationOutputMissing in
      Ok (Some index)
  end.

(** [miner_subsidy]. *)
Definition miner_subsidy (height : Z) (network : Network)
    (expected_block_subsidy : Amount.Amount NonNegative) :
    outcome Amount.Error (Amount.Amount NonNegative) :=
  if uses_wcash_consensus network then
    let? allocation := wcash_foundation_fund height network expected_block_subsidy in
    let? share := match allocation with
                  | None => Amount.zero NonNegative
                  | Some allocation => Ok (amount allocation)
                  end in
    Amount.sub expected_block_subsidy share
  else
    let? founders := founders_reward network height in
    let? streams := funding_stream_values height network expected_block_subsidy in
    let? funding_streams_sum := Amount.sum (hash_values (map snd streams)) in
    Amount.sub_result (Amount.sub expected_block_subsidy founders) funding_streams_sum.

(** ** The foundation's share *)

(** Documented of the address parser: the fixed addresses belong to their networks. *)
Definition fixed_addresses_parse (network : Network) : Prop :=
  is_Some (parse_wcash (if is_wcash_mainnet network then WCASH_FOUNDATION_ADDRESS
                        else WCASH_FOUNDATION_TEST_ADDRESS) network).

(** The heights at which a network pays the foundation. *)
Definition funded (network : Network) (height : Z) : bool :=
  if is_wcash_mainnet network then (33000 <=? height) && (height <? 621455)
  else WCASH_FOUNDATION_TEST_FIXTURE_ENABLED && is_wcash_regtest network &&
       (10 <=? height) && (height <? 20).


Lemma foundation_amount {E} (g : Amount.Amount NonNegative) :
  Amount.valid g ->
  let share := zatoshis g * 3 / 10 in
  0 <= share <= zatoshis g /\ 10 * share <= 3 * zatoshis g /\
  expect (E:=E) (u128_checked (zatoshis g)) = Ok (zatoshis g) /\
  expect (E:=E) (u64_checked share) = Ok share /\
  Amount.try_from_u64 NonNegative share = Ok (Amount.mk share).
Proof.
  unfold Amount.valid. simpl. intros Hg. pose proof MAX_MONEY_headroom.
  assert (0 <= zatoshis g * 3 / 10) by (apply Z.div_pos; lia).
  pose proof (Z.mul_div_le (zatoshis g * 3) 10 ltac:(lia)).
  split_and!; [lia..| | |].
  - by rewrite checked_ok by bool_lia.
  - by rewrite checked_ok by bool_lia.
  - unfold Amount.try_from_u64, Amount.validate. rewrite checked_ok by bool_lia. simpl.
    by rewrite (proj2 (within_spec _ _ _)) by lia.
Qed.

Lemma fund_unfunded {E} network height g :
  funded network height = false -> wcash_foundation_fund (E:=E) height network g = Ok None.
Proof.
  unfold funded, wcash_foundation_fund, wcash_foundation_activation_height, wcash_foundation_expiry_height.
  destruct (is_wcash_mainnet network).
  - change WCASH_FOUNDATION_START_HEIGHT with 33000. change WCASH_FOUNDATION_EXPIRY_HEIGHT with 621455.
    intros Hf. by replace ((height <? 33000) || (height >=? 621455)) with true by lia.
  - destruct (WCASH_FOUNDATION_TEST_FIXTURE_ENABLED && is_wcash_regtest network); [|done]. simpl.
    intros Hf. by replace ((height <? 10) || (height >=? 20)) with true by lia.
Qed.

Lemma fund_funded {E} network height g :
  funded network height = true -> Amount.valid g -> fixed_addresses_parse network ->
  exists a, wcash_foundation_fund (E:=E) height network g =
    Ok (Some (mkAllocation (Amount.mk (zatoshis g * 3 / 10)) a)).
Proof.
  intros Hf Hg [a Ha]. exists a. destruct (foundation_amount (E:=E) g Hg) as (_ & _ & H3 & H4 & H5).
  unfold wcash_foundation_fund. rewrite Ha, H3. cbn [obind].
  change WCASH_FOUNDATION_NUMERATOR with 3. change WCASH_FOUNDATION_DENOMINATOR with 10.
  rewrite H4. cbn [obind]. rewrite H5. cbn [expect_ok expect obind].
  unfold funded, wcash_foundation_activation_height, wcash_foundation_expiry_height in *.
  destruct (is_wcash_mainnet network).
  - change WCASH_FOUNDATION_START_HEIGHT with 33000. change WCASH_FOUNDATION_EXPIRY_HEIGHT with 621455.
    by replace ((height <? 33000) || (height >=? 621455)) with false by lia.
  - destruct (WCASH_FOUNDATION_TEST_FIXTURE_ENABLED && is_wcash_regtest network); [|done]. simpl in Hf.
    by replace ((height <? 10) || (height >=? 20)) with false by lia.
Qed.

(** On every Wcash network the gross subsidy is split without loss: at a
    funded height the foundation receives [floor(3/10)] of it and the miner
    exactly the rest, never less than seven tenths; at every other height the
    miner receives all of it.  Nothing fails or panics. *)
Theorem foundation_split network height (g : Amount.Amount NonNegative) :
  uses_wcash_consensus network = true -> Amount.valid g -> fixed_addresses_parse network ->
  exists m, miner_subsidy height network g = Ok m /\
    if funded network height then
      exists allocation, wcash_foundation_fund (E:=Amount.Error) height network g = Ok (Some allocation) /\
        zatoshis (amount allocation) = zatoshis g * 3 / 10 /\
        zatoshis m + zatoshis (amount allocation) = zatoshis g /\ 7 * zatoshis g <= 10 * zatoshis m
    else wcash_foundation_fund (E:=Amount.Error) height network g = Ok None /\ m = g.
Proof.
  intros Hw Hg Hp. unfold miner_subsidy. rewrite Hw.
  destruct (foundation_amount (E:=Amount.Error) g Hg) as (Hs1 & Hs2 & _).
  destruct (funded network height) eqn:Hf.
  - destruct (fund_funded (E:=Amount.Error) network height g Hf Hg Hp) as [a Ha]. rewrite Ha. cbn [obind].
    exists (Amount.mk (zatoshis g - zatoshis g * 3 / 10)). split.
    + simpl amount. rewrite Amount.sub_in_range; [|done|].
      * apply Amount.in_range_Ok. split; [done|]. unfold Amount.valid in *. simpl in *. lia.
      * unfold Amount.valid in *. simpl in *. lia.
    + eexists. split; [done|]. simpl. lia.
  - rewrite (fund_unfunded network height g Hf). cbn [obind]. exists g. split; [|done].
    rewrite Amount.zero_Ok. cbn [obind]. rewrite Amount.sub_in_range; [|done|apply Amount.valid_zero].
    apply Amount.in_range_Ok. simpl. split; [lia|done].
Qed.

Lemma position_Some required outputs i :
  position required outputs = Some i <->
  outputs !! i = Some required /\ forall j, (j < i)%nat -> outputs !! j <> Some required.
Proof.
  revert i. induction outputs as [|o outputs IH]; intros i; simpl; [by split; [|intros [? _]]|].
  destruct (decide (o = required)) as [->|Hne].
  - split; [intros [= <-]; split; [done|lia]|]. intros [Hi Hj]. destruct i as [|i]; [done|].
    by destruct (Hj 0%nat ltac:(lia)).
  - destruct i as [|i]; simpl.
    + destruct (position required outputs); simpl; naive_solver.
    + rewrite fmap_Some. split.
      * intros (k & Hk & [= ->]). apply IH in Hk as [Hk Hj]. split; [done|].
        intros [|j] Hlt; simpl; [congruence|apply Hj; lia].
      * intros [Hi Hj]. exists i. split; [|done]. apply IH. split; [done|]. intros j Hlt.
        apply (Hj (S j)). lia.
Qed.

Lemma position_None required outputs : position required outputs = None <-> required ∉ outputs.
Proof.
  induction outputs as [|o outputs IH]; simpl; [split; [by intros _ ?%elem_of_nil|done]|].
  rewrite not_elem_of_cons. destruct (decide (o = required)) as [->|Hne]; [naive_solver|].
  rewrite fmap_None, IH. naive_solver.
Qed.

(** At a funded height the mandatory output is located at its first
    occurrence, and its absence is the only error; at other heights no output
    is required, whatever the transaction holds. *)
Theorem foundation_output_located network height (g : Amount.Amount NonNegative) outputs :
  Amount.valid g -> fixed_addresses_parse network ->
  let r := wcash_foundation_fund_output_index height network g outputs in
  if funded network height then
    exists a, let required := mkOutput (Amount.mk (zatoshis g * 3 / 10)) (TransparentAddress.script a) in
      (forall i, r = Ok (Some i) <->
        outputs !! i = Some required /\ forall j, (j < i)%nat -> outputs !! j <> Some required) /\
      (r = Err WcashFoundationOutputMissing <-> required ∉ outputs)
  else r = Ok None.
Proof.
  intros Hg Hp r. unfold r, wcash_foundation_fund_output_index.
  destruct (funded network height) eqn:Hf; [|by rewrite (fund_unfunded network height g Hf)].
  destruct (fund_funded (E:=SubsidyError) network height g Hf Hg Hp) as [a Ha]. exists a. rewrite Ha.
  cbn [obind]. unfold output. simpl amount. simpl address. split.
  - intros i. rewrite <- position_Some. destruct (position _ outputs); simpl; naive_solver.
  - rewrite <- position_None. destruct (position _ outputs); simpl; naive_solver.
Qed.
End foundation.
End Foundation.

(** ** Halving indexes and heights *)

Section halvings.
Import Subsidy.
Context `{ConsensusBuild, ChainConstants}.

Lemma div_ge_iff a b n : 0 < b -> n <= a / b <-> n * b <= a.
Proof.
  intros Hb. split; intros Hn.
  - pose proof (Z.mul_div_le a b Hb). nia.
  - apply Z.div_le_lower_bound; lia.
Qed.

Lemma wcash_testing_halving net n h0 h :
  uses_wcash_consensus net = true -> is_wcash_mainnet net = false ->
  1 <= n -> 0 <= h -> height_for_halving n net = Some h0 ->
  exists k, halving (E:=SubsidyError) h net = Ok k /\ (n <= k <-> h0 <= h).
Proof.
  intros Hw Hm Hn Hh. unfold height_for_halving, halving. rewrite Hw, Hm.
  rewrite (proj2 (Z.eqb_neq n 0)) by lia. intros Hh0.
  apply bind_Some in Hh0 as (p & Hp & Hh0). apply bind_Some in Hh0 as (q & Hq & Hh0).
  apply checked_Some in Hp as [-> _]. unfold Height.try_from_u32 in Hh0.
  destruct (q <=? Height.MAX); [|done]. injection Hh0 as ->. eexists. split; [done|].
  rewrite div_ge_iff by by vm_compute.
  unfold WCASH_TESTNET_SLOW_START_SHIFT, WCASH_HALVING_INTERVAL in *.
  destruct (is_wcash_testnet net); apply checked_Some in Hq as [-> _]; lia.
Qed.

(** The height computed for a halving, when nothing overflows. *)
Lemma height_for_halving_zcash net n h0 b :
  uses_wcash_consensus net = false -> 1 <= n ->
  activation_height Blossom (activation_list net) = Some b ->
  0 <= b <= Height.MAX -> 0 < net_pre_blossom_halving_interval net ->
  height_for_halving n net = Some h0 ->
  h0 = Z.min (n * net_pre_blossom_halving_interval net) b
       + 2 * Z.max 0 (n * net_pre_blossom_halving_interval net - b) + 2 * net_slow_start_shift net.
Proof.
  intros Hw Hn Hb Hb0 Hi. unfold height_for_halving. rewrite Hw, Hb, (proj2 (Z.eqb_neq n 0)) by lia.
  assert (is_wcash_mainnet net = false) as ->.
  { unfold is_wcash_mainnet, wcash_network, uses_wcash_consensus in *. destruct net as [|p]; [done|].
    by destruct (consensus_flavor p). }
  simpl. set (i := net_pre_blossom_halving_interval net) in *. intros Hh.
  repeat (apply bind_Some in Hh as (? & Hc & Hh); apply checked_Some in Hc as [-> ?]).
  unfold Height.try_from_u32 in Hh. destruct (_ <=? Height.MAX); [|done]. injection Hh as <-.
  change Height.MAX with 2147483647 in *. unfold BLOSSOM_POW_TARGET_SPACING_RATIO.
  rewrite wrap_i_small by bool_lia. lia.
Qed.

Lemma zcash_halving net n h0 h b :
  uses_wcash_consensus net = false -> 1 <= n -> 0 <= h <= Height.MAX ->
  activation_height Blossom (activation_list net) = Some b ->
  0 <= net_slow_start_shift net <= b -> b <= Height.MAX ->
  0 < net_pre_blossom_halving_interval net ->
  net_post_blossom_halving_interval net = 2 * net_pre_blossom_halving_interval net ->
  b <= n * net_pre_blossom_halving_interval net ->
  height_for_halving n net = Some h0 ->
  exists k, halving (E:=SubsidyError) h net = Ok k /\ (n <= k <-> h0 <= h).
Proof.
  intros Hw Hn Hh Hb Hs Hb0 Hi Hpost Hafter Hh0.
  apply (height_for_halving_zcash net n h0 b) in Hh0; [|done..|lia|done].
  assert (is_wcash_mainnet net = false) as Hm.
  { unfold is_wcash_mainnet, wcash_network, uses_wcash_consensus in *. destruct net as [|p]; [done|].
    by destruct (consensus_flavor p). }
  unfold halving. rewrite Hw, Hb, Hm, Hpost. cbn [expect obind]. unfold Height.sub_height.
  set (i := net_pre_blossom_halving_interval net) in *. set (s := net_slow_start_shift net) in *.
  change Height.MAX with 2147483647 in *. unfold BLOSSOM_POW_TARGET_SPACING_RATIO.
  rewrite (proj2 (Z.eqb_neq i 0)), (proj2 (Z.eqb_neq (2 * i) 0)) by lia. cbn [negb assert_that obind].
  destruct (Z.ltb_spec h s) as [Hlt|Hge]; [|destruct (Z.ltb_spec h b) as [Hltb|Hgeb]]; cbn [obind].
  - exists 0. split; [done|]. lia.
  - assert (0 <= (h - s) / i <= h - s) as Hq by (split; [apply Z.div_pos; lia|apply Z.div_le_upper_bound; nia]).
    rewrite Z.quot_div_nonneg, checked_ok by bool_lia. eexists. split; [done|].
    rewrite div_ge_iff by lia. lia.
  - assert (0 <= ((b - s) * 2 + (h - b)) / (2 * i) <= (b - s) * 2 + (h - b)) as Hq
      by (split; [apply Z.div_pos; lia|apply Z.div_le_upper_bound; nia]).
    rewrite Z.quot_div_nonneg, checked_ok by bool_lia. eexists. split; [done|].
    rewrite div_ge_iff by lia. lia.
Qed.

(** [height_for_halving] is the first height of its halving.  On the Wcash
    testing networks without further assumption, and on a Zcash network whose
    Blossom activation is not after the unscaled halving height: at every
    height the halving index reaches [n] exactly from that height on. *)
Theorem halving_heights_exact net n h0 h :
  is_wcash_mainnet net = false -> 1 <= n -> 0 <= h <= Height.MAX ->
  (uses_wcash_consensus net = false ->
   exists b, activation_height Blossom (activation_list net) = Some b /\
     0 <= net_slow_start_shift net <= b /\ b <= Height.MAX /\
     0 < net_pre_blossom_halving_interval net /\
     net_post_blossom_halving_interval net = 2 * net_pre_blossom_halving_interval net /\
     b <= n * net_pre_blossom_halving_interval net) ->
  height_for_halving n net = Some h0 ->
  exists k, halving (E:=SubsidyError) h net = Ok k /\ (n <= k <-> h0 <= h).
Proof.
  intros Hm Hn Hh Hz Hh0. destruct (uses_wcash_consensus net) eqn:Hw.
  - by apply (wcash_testing_halving net); [..|lia|].
  - destruct (Hz eq_refl) as (b & ? & ? & ? & ? & ? & ?). by apply (zcash_halving net n h0 h b).
Qed.

Lemma shiftr_or_zero n : 0 <= n ->
  (if n <? 64 then Z.shiftr WCASH_INITIAL_BLOCK_SUBSIDY n else 0) = 625000000 / 2 ^ n.
Proof.
  intros Hn. destruct (Z.ltb_spec n 64) as [Hlt|Hge]; [by rewrite Z.shiftr_div_pow2|].
  symmetry. apply Z.div_small. split; [lia|]. pose proof (pow_pos_le 2 64 n ltac:(lia) ltac:(lia)).
  change (2 ^ 64) with 18446744073709551616 in *. lia.
Qed.

Lemma to_amount_ok a : 0 <= a <= 625000000 -> 625000000 <= MAX_MONEY -> to_amount a = Ok (Amount.mk a).
Proof.
  intros Ha Hm. unfold to_amount, Amount.try_from_u64, Amount.validate. rewrite checked_ok by bool_lia.
  simpl. by rewrite (proj2 (within_spec _ _ _)) by lia.
Qed.

(** The subsidy of the Wcash testing networks at every height, without
    error or panic: on Testnet a linear ramp to 6.25 coins at height 40,000 and
    then halvings every 1,680,000 blocks counted from height 20,000; on Regtest
    nothing at genesis and halvings counted from height 1. *)
Theorem wcash_testing_subsidy net h :
  uses_wcash_consensus net = true -> is_wcash_mainnet net = false ->
  0 <= h <= Height.MAX -> 625000000 <= MAX_MONEY ->
  block_subsidy h net = Ok (Amount.mk
    (if is_wcash_testnet net then
       if h <=? 40000 then 625000000 * h / 40000 else 625000000 / 2 ^ ((h - 20000) / 1680000)
     else if h =? 0 then 0 else 625000000 / 2 ^ ((h - 1) / 1680000))).
Proof.
  intros Hw Hm Hh Hmax. unfold block_subsidy, halving. rewrite Hw, Hm. change Height.MAX with 2147483647 in *.
  change WCASH_TESTNET_SLOW_START_INTERVAL with 40000. change WCASH_TESTNET_SLOW_START_SHIFT with 20000.
  change WCASH_HALVING_INTERVAL with 1680000. change Height.MIN with 0.
  assert (forall n, 0 <= n -> to_amount (if n <? 64 then Z.shiftr WCASH_INITIAL_BLOCK_SUBSIDY n else 0) =
    Ok (Amount.mk (625000000 / 2 ^ n))) as Hn.
  { intros n Hn. rewrite shiftr_or_zero by done. pose proof (Z.pow_pos_nonneg 2 n ltac:(lia) Hn).
    apply to_amount_ok; [|done]. split; [apply Z.div_pos; lia|apply Z.div_le_upper_bound; nia]. }
  destruct (is_wcash_testnet net); [destruct (Z.leb_spec h 40000)|]; cbn [andb].
  - change WCASH_INITIAL_BLOCK_SUBSIDY with 625000000. rewrite checked_ok by bool_lia. cbn [expect obind].
    apply to_amount_ok; [|done]. split; [apply Z.div_pos; lia|apply Z.div_le_upper_bound; lia].
  - rewrite (proj2 (Z.eqb_neq h 0)), Z.max_r by lia. cbn [obind]. apply Hn. apply Z.div_pos; lia.
  - destruct (Z.eqb_spec h 0); [apply Amount.zero_Ok|]. rewrite Z.max_r by lia. cbn [obind].
    apply Hn. apply Z.div_pos; lia.
Qed.

(** A configured Zcash test network that halves before Blossom. *)
Definition early_halving_testnet : Network :=
  Testnet (mkParameters Zcash "Early" [] []
    [(0, NetworkUpgrade.Genesis); (1, NetworkUpgrade.Sapling); (1000, Blossom)]
    20 10 [] 1 false None false 100 200 None).
End halvings.


(** ** Concrete networks *)

Definition example_env : Foundation.FoundationEnv :=
  {| Foundation.WCASH_FOUNDATION_TEST_FIXTURE_ENABLED := false;
     Foundation.parse_wcash := fun _ _ => Some (PayToPublicKeyHash KindMainnet (replicate 20 Byte.x01));
     Foundation.hash_values := fun l => l;
     Foundation.hash_values_perm := fun l => Permutation_refl l |}.
Definition example_constants : Subsidy.ChainConstants :=
  {| Subsidy.MAINNET_FUNDING_STREAMS := []; Subsidy.REGTEST_GENESIS_HASH := [];
     Subsidy.is_default_testnet := fun _ => false |}.
Definition network_of (p : outcome ParametersBuilderError Parameters) : Network :=
  match p with Ok p => Testnet p | _ => Mainnet end.
Definition example_mainnet : Network := network_of (wcash_mainnet_parameters [] []).
Definition example_testnet : Network := network_of (new_wcash_testnet [] []).

(** The last funded block: 1,099,512,482 atoms of subsidy. *)
Lemma foundation_split_witness :
  exists m, Foundation.miner_subsidy (H:=wcash_build) (H0:=example_constants) (H1:=example_env)
    621454 example_mainnet (Amount.mk 1099512482) = Ok m /\ zatoshis m = 769658738.
Proof.
  destruct (Foundation.foundation_split (H:=wcash_build) (H0:=example_constants) (H1:=example_env)
    example_mainnet 621454 (Amount.mk 1099512482)) as (m & Hm & Hs).
  - by vm_compute.
  - by_eval.
  - vm_compute. by eexists.
  - exists m. split; [exact Hm|]. vm_compute in Hm. injection Hm as <-. done.
Defined.

Lemma foundation_output_located_witness :
  Foundation.wcash_foundation_fund_output_index (H:=wcash_build) (H1:=example_env)
    621455 example_mainnet (Amount.mk 1099511171) [] = Ok None.
Proof.
  apply (Foundation.foundation_output_located (H:=wcash_build) (H1:=example_env)
    example_mainnet 621455 (Amount.mk 1099511171) []); [by_eval|vm_compute; by eexists].
Defined.

Lemma halving_heights_exact_witness :
  exists k, Subsidy.halving (E:=Subsidy.SubsidyError) 1046399 Mainnet = Ok k /\ (1 <= k <-> 1046400 <= 1046399).
Proof.
  apply (halving_heights_exact Mainnet 1 1046400 1046399); [by vm_compute|lia|by_eval| |by vm_compute].
  intros _. exists 653600. split_and!; by vm_compute.
Defined.

Lemma wcash_testing_subsidy_witness :
  Subsidy.block_subsidy (H:=wcash_build) 1700000 example_testnet = Ok (Amount.mk 312500000).
Proof.
  by rewrite (wcash_testing_subsidy (H:=wcash_build) example_testnet 1700000
    ltac:(by vm_compute) ltac:(by vm_compute) ltac:(by_eval) ltac:(by vm_compute)).
Defined.
