(* ===== verification/Retarget.v ===== *)
(** * Difficulty adjustment and contextual header checks
      ([zebra-state/src/service/check/difficulty.rs] and [check.rs])

    The expected difficulty of a candidate block from the thresholds and times
    of the previous 28 blocks, the median-time-past, and the contextual checks
    of a block against its recent chain.  A [DateTime] is its nanoseconds since
    the epoch and a [Duration] its nanoseconds; header times are whole seconds. *)

From stdpp Require Import sorting.
From S2P Require Import Prelude Amounts Difficulty Networks Subsidies.
Import NetworkUpgrade(NetworkUpgrade, Genesis, activation_height).
Import Network.

Module AdjustedDifficulty.

Definition POW_AVERAGING_WINDOW : nat := 17.
Definition POW_MEDIAN_BLOCK_SPAN : nat := 11.
Definition POW_ADJUSTMENT_BLOCK_SPAN : nat := POW_AVERAGING_WINDOW + POW_MEDIAN_BLOCK_SPAN.
Definition POW_DAMPING_FACTOR : Z := 4.
Definition POW_MAX_ADJUST_UP_PERCENT : Z := 16.
Definition POW_MAX_ADJUST_DOWN_PERCENT : Z := 32.
Definition BLOCK_MAX_TIME_SINCE_MEDIAN : Z := 90 * 60.

(** [Duration::seconds] and [Duration::num_seconds], which truncates towards zero. *)
Definition seconds (s : Z) : Z := s * 1000000000.
Definition num_seconds (d : Z) : Z := Z.quot d 1000000000.

(** [struct AdjustedDifficulty]; the two vectors are in reverse height order. *)
Record AdjustedDifficulty := mkAdjusted {
  candidate_time : Z;
  candidate_height : Z;
  network : Network;
  relevant_difficulty_thresholds : list Z;
  relevant_times : list Z
}.

(** [Network::target_difficulty_limit]. *)
Definition net_target_difficulty_limit {E} (self : Network) : outcome E Z :=
  match self with
  | Mainnet => ExpandedDifficulty.mainnet_target_difficulty_limit
  | Testnet params => Ok (target_difficulty_limit params)
  end.

(** [AdjustedDifficulty::new_from_header_time]; a [BoundedVec] has 1 to 28 items. *)
Definition new_from_header_time {E} (candidate_header_time previous_block_height : Z)
    (network : Network) (context : list (Z * Z)) : outcome E AdjustedDifficulty :=
  let? candidate_height := expect (Height.add_diff previous_block_height 1) in
  let context := take POW_ADJUSTMENT_BLOCK_SPAN context in
  do? assert_that (negb (length context =? 0)%nat) in
  Ok (mkAdjusted candidate_header_time candidate_height network (map fst context) (map snd context)).

(** [AdjustedDifficulty::median_time]: panics on an empty vector. *)
Definition median_time {E} (median_block_span_times : list Z) : outcome E Z :=
  let sorted := merge_sort Z.le median_block_span_times in
  expect (sorted !! (length sorted / 2)%nat).

(** [AdjustedDifficulty::median_time_past]. *)
Definition median_time_past {E} (self : AdjustedDifficulty) : outcome E Z :=
  median_time (take POW_MEDIAN_BLOCK_SPAN (relevant_times self)).

(** [AdjustedDifficulty::median_timespan]. *)
Definition median_timespan {E} (self : AdjustedDifficulty) : outcome E Z :=
  let? newer_median := median_time_past self in
  let? older_median :=
    if (POW_AVERAGING_WINDOW <? length (relevant_times self))%nat then
      median_time (take POW_MEDIAN_BLOCK_SPAN (drop POW_AVERAGING_WINDOW (relevant_times self)))
    else expect (last (relevant_times self)) in
  Ok (newer_median - older_median).

(** [AdjustedDifficulty::median_timespan_bounded]. *)
Definition median_timespan_bounded {E} (self : AdjustedDifficulty) : outcome E Z :=
  let? window := averaging_window_timespan_for_height (network self) (candidate_height self) in
  let averaging_window_timespan := seconds window in
  let? timespan := median_timespan self in
  let damped_variance := Z.quot (timespan - averaging_window_timespan) POW_DAMPING_FACTOR in
  let damped_variance := seconds (num_seconds damped_variance) in
  let median_timespan_damped := averaging_window_timespan + damped_variance in
  let min_median_timespan :=
    Z.quot (averaging_window_timespan * (100 - POW_MAX_ADJUST_UP_PERCENT)) 100 in
  let max_median_timespan :=
    Z.quot (averaging_window_timespan * (100 + POW_MAX_ADJUST_DOWN_PERCENT)) 100 in
  Ok (Z.max min_median_timespan (Z.min max_median_timespan median_timespan_damped)).

(** The expanded thresholds of the averaging window. *)
Fixpoint expand_all {E} (thresholds : list Z) : outcome E (list Z) :=
  match thresholds with
  | [] => Ok []
  | compact :: thresholds =>
      let? expanded := CompactDifficulty.to_expanded compact in
      let? expanded := expect expanded in
      let? rest := expand_all thresholds in
      Ok (expanded :: rest)
  end.

(** [AdjustedDifficulty::mean_target_difficulty]. *)
Definition mean_target_difficulty {E} (self : AdjustedDifficulty) : outcome E Z :=
  if (POW_AVERAGING_WINDOW <=? length (relevant_difficulty_thresholds self))%nat then
    let? expanded := expand_all (take POW_AVERAGING_WINDOW (relevant_difficulty_thresholds self)) in
    let? total := ExpandedDifficulty.sum expanded in
    ExpandedDifficulty.div total (Z.of_nat POW_AVERAGING_WINDOW)
  else net_target_difficulty_limit (network self).

(** [AdjustedDifficulty::threshold_bits]. *)
Definition threshold_bits {E} (self : AdjustedDifficulty) : outcome E Z :=
  let? averaging_window_timespan :=
    averaging_window_timespan_for_height (network self) (candidate_height self) in
  let? mean := mean_target_difficulty self in
  let? quotient := ExpandedDifficulty.div mean (num_seconds (seconds averaging_window_timespan)) in
  let? bounded := median_timespan_bounded self in
  let? threshold := ExpandedDifficulty.mul quotient (num_seconds bounded) in
  let? limit := net_target_difficulty_limit (network self) in
  ExpandedDifficulty.to_compact (Z.min limit threshold).

(** [AdjustedDifficulty::expected_difficulty_threshold]; the Regtest genesis
    hash is the constant that [Network::is_regtest] compares with. *)
Definition expected_difficulty_threshold {E} (regtest_genesis : list byte) (self : AdjustedDifficulty) :
    outcome E Z :=
  let is_regtest := match network self with
                    | Mainnet => false
                    | Testnet params => is_regtest_parameters regtest_genesis params
                    end in
  if is_regtest then
    let? limit := net_target_difficulty_limit (network self) in
    ExpandedDifficulty.to_compact limit
  else
    let? first := expect (head (relevant_times self)) in
    let? min_difficulty :=
      is_testnet_min_difficulty_block (network self) (candidate_height self)
        (candidate_time self) first in
    if (min_difficulty : bool) then
      do? assert_that (negb (bool_decide (kind regtest_genesis (network self) = KindMainnet))) in
      let? limit := net_target_difficulty_limit (network self) in
      ExpandedDifficulty.to_compact limit
    else threshold_bits self.
End AdjustedDifficulty.

Module ContextualCheck.
Import AdjustedDifficulty.

Inductive ValidateContextError :=
| NotReadyToBeCommitted
| OrphanedBlock (candidate_height finalized_tip_height : Z)
| NonSequentialBlock (candidate_height parent_height : Z)
| TimeTooEarly (candidate_time median_time_past : Z)
| TimeTooLate (candidate_time block_time_max : Z)
| InvalidDifficultyThreshold (difficulty_threshold expected_difficulty : Z).

(** What the checks read of a block. *)
Record Block := mkBlock { coinbase_height : option Z; difficulty_threshold : Z; time : Z }.

(** [block_is_not_orphaned]. *)
Definition block_is_not_orphaned (finalized_tip_height candidate_height : Z) :
    outcome ValidateContextError unit :=
  if candidate_height <=? finalized_tip_height
  then Err (OrphanedBlock candidate_height finalized_tip_height) else Ok tt.

(** [height_one_more_than_parent_height]. *)
Definition height_one_more_than_parent_height (parent_height candidate_height : Z) :
    outcome ValidateContextError unit :=
  if negb (bool_decide (Height.add_diff parent_height 1 = Some candidate_height))
  then Err (NonSequentialBlock candidate_height parent_height) else Ok tt.

(** [difficulty_threshold_and_time_are_valid]. *)
Definition difficulty_threshold_and_time_are_valid (regtest_genesis : list byte)
    (difficulty_threshold : Z) (difficulty_adjustment : AdjustedDifficulty) :
    outcome ValidateContextError unit :=
  let candidate_height := candidate_height difficulty_adjustment in
  let candidate_time := candidate_time difficulty_adjustment in
  let network := network difficulty_adjustment in
  let? median_time_past := median_time_past difficulty_adjustment in
  let block_time_max := median_time_past + seconds BLOCK_MAX_TIME_SINCE_MEDIAN in
  let? genesis_height := expect (activation_height Genesis (activation_list network)) in
  if (candidate_time <=? median_time_past) && negb (candidate_height =? genesis_height)
  then Err (TimeTooEarly candidate_time median_time_past)
  else if is_max_block_time_enforced network candidate_height && (candidate_time >? block_time_max)
  then Err (TimeTooLate candidate_time block_time_max)
  else
    let? expected_difficulty := expected_difficulty_threshold regtest_genesis difficulty_adjustment in
    if negb (difficulty_threshold =? expected_difficulty)
    then Err (InvalidDifficultyThreshold difficulty_threshold expected_difficulty)
    else Ok tt.

(** [block_is_valid_for_recent_chain]; the candidate is given by its height and
    its header, the chain by its blocks from the parent down. *)
Definition block_is_valid_for_recent_chain (regtest_genesis : list byte) (height : Z)
    (candidate : Block) (network : Network) (finalized_tip_height : option Z) (relevant_chain : list Block) :
    outcome ValidateContextError unit :=
  let? finalized_tip_height := expect finalized_tip_height in
  do? block_is_not_orphaned finalized_tip_height height in
  let relevant_chain := take POW_ADJUSTMENT_BLOCK_SPAN relevant_chain in
  match relevant_chain with
  | [] => Err NotReadyToBeCommitted
  | parent_block :: _ =>
      let? parent_height := expect (coinbase_height parent_block) in
      do? height_one_more_than_parent_height parent_height height in
      let relevant_data := map (fun b => (difficulty_threshold b, time b)) relevant_chain in
      let? candidate_block_height := expect (coinbase_height candidate) in
      let? previous_block_height := expect (Height.sub_diff candidate_block_height 1) in
      let? difficulty_adjustment :=
        new_from_header_time (time candidate) previous_block_height network relevant_data in
      difficulty_threshold_and_time_are_valid regtest_genesis (difficulty_threshold candidate)
        difficulty_adjustment
  end.
End ContextualCheck.

(** ** Median times *)

Section median.
Import AdjustedDifficulty.

Lemma sorted_split (s : list Z) k m :
  StronglySorted Z.le s -> s !! k = Some m ->
  Forall (fun x => x <= m) (take k s) /\ Forall (fun x => m <= x) (drop k s).
Proof.
  intros Hs. revert k. induction Hs as [|x s Hs IH Hall]; intros k Hk; [done|].
  rewrite Forall_forall in Hall. destruct k as [|k]; simpl in Hk.
  - injection Hk as ->. split; [constructor|]. simpl. constructor; [lia|]. by apply Forall_forall.
  - destruct (IH k Hk) as [Ht Hd]. split; [|done]. simpl. constructor; [|done].
    apply Hall. by apply list_elem_of_lookup_2 in Hk.
Qed.

Lemma filter_length_bound (P : Z -> Prop) `{!forall x, Decision (P x)} (s : list Z) :
  (length (filter P s) <= length s)%nat.
Proof. apply length_filter. Qed.

Lemma filter_none (P : Z -> Prop) `{!forall x, Decision (P x)} (s : list Z) :
  Forall (fun x => ~ P x) s -> filter P s = [].
Proof. induction 1; [done|]. by rewrite filter_cons_False. Qed.

(** The median of a non-empty list of times never panics, is one of the
    times, does not depend on their order, and has at most half of them before
    it and less than half after it. *)
Theorem median_time_is_middle E (l : list Z) :
  l <> [] ->
  exists m, median_time (E:=E) l = Ok m /\ m ∈ l /\
    (length (filter (fun x : Z => (x < m)%Z) l) <= length l / 2)%nat /\
    (length (filter (fun x : Z => (m < x)%Z) l) <= (length l - 1) / 2)%nat /\
    forall l', l ≡ₚ l' -> median_time (E:=E) l' = Ok m.
Proof.
  intros Hne. pose proof (merge_sort_Permutation Z.le l) as Hp.
  pose proof (StronglySorted_merge_sort Z.le l) as Hs.
  set (s := merge_sort Z.le l) in *. assert (length s = length l) as Hlen by by rewrite Hp.
  assert (0 < length l)%nat as Hpos by (destruct l; [done|simpl; lia]).
  pose proof (Nat.div_lt (length l) 2 ltac:(lia) ltac:(lia)) as Hhalf.
  destruct (lookup_lt_is_Some_2 s (length s / 2)) as [m Hm]; [by rewrite Hlen|].
  destruct (sorted_split s _ m Hs Hm) as [Hle Hge]. exists m. unfold median_time. fold s. rewrite Hm.
  split; [done|]. split; [rewrite <- Hp; by apply list_elem_of_lookup_2 in Hm|].
  pose proof (Nat.div_mod_eq (length l) 2). pose proof (Nat.mod_upper_bound (length l) 2 ltac:(lia)).
  assert (forall P (HP : forall x : Z, Decision (P x)), length (filter P l) = length (filter P s)) as Hfl.
  { intros. symmetry. by rewrite Hp. }
  split_and!.
  - rewrite Hfl, <- (take_drop (length s / 2) s), filter_app, length_app.
    rewrite (filter_none _ (drop _ s)) by (eapply Forall_impl; [exact Hge|simpl; lia]). simpl.
    etransitivity; [apply Nat.add_le_mono_r, filter_length_bound|]. rewrite length_take, Hlen. lia.
  - rewrite Hfl, <- (take_drop_middle s _ m Hm), filter_app, length_app.
    rewrite (filter_none _ (take _ s)) by (eapply Forall_impl; [exact Hle|simpl; lia]). cbn [length].
    rewrite Nat.add_0_l, filter_cons_False by lia. etransitivity; [apply filter_length_bound|].
    rewrite length_drop, Hlen. apply Nat.div_le_lower_bound; lia.
  - intros l' Hl'. replace (merge_sort Z.le l') with s; [by rewrite Hm|].
    apply (StronglySorted_unique Z.le); [done|apply (StronglySorted_merge_sort Z.le)|].
    by rewrite Hp, merge_sort_Permutation.
Qed.
End median.

(** ** The bounded timespan and the adjusted threshold *)

Section retarget.
Import AdjustedDifficulty.

Lemma median_time_total E (l : list Z) : l <> [] -> exists m, median_time (E:=E) l = Ok m /\ m ∈ l.
Proof.
  intros Hne. unfold median_time. pose proof (merge_sort_Permutation Z.le l) as Hp.
  destruct (lookup_lt_is_Some_2 (merge_sort Z.le l) (length (merge_sort Z.le l) / 2)) as [m Hm].
  { rewrite Hp. apply Nat.div_lt; [|lia]. destruct l; [done|simpl; lia]. }
  exists m. rewrite Hm. split; [done|]. rewrite <- Hp. by apply list_elem_of_lookup_2 in Hm.
Qed.

(** Header times are whole seconds. *)
Definition whole_seconds (l : list Z) : Prop := Forall (fun t => exists s, t = seconds s) l.

Lemma median_timespan_total E self :
  relevant_times self <> [] -> whole_seconds (relevant_times self) ->
  exists s, median_timespan (E:=E) self = Ok (seconds s).
Proof.
  intros Hne Hw. unfold median_timespan, median_time_past, whole_seconds in *. rewrite Forall_forall in Hw.
  destruct (median_time_total E (take POW_MEDIAN_BLOCK_SPAN (relevant_times self))) as (m & Hm & Hin).
  { by destruct (relevant_times self). }
  rewrite Hm. cbn [obind]. destruct (Hw m ltac:(by eapply elem_of_take_1, Hin)) as [a Ha].
  assert (forall t, t ∈ relevant_times self -> exists s, Ok (E:=E) (m - t) = Ok (seconds s)) as Ht.
  { intros t [b Hb]%Hw. exists (a - b). unfold seconds in *. f_equal. lia. }
  destruct (_ <? _)%nat eqn:Hl.
  - apply Nat.ltb_lt in Hl.
    destruct (median_time_total E (take POW_MEDIAN_BLOCK_SPAN (drop POW_AVERAGING_WINDOW (relevant_times self))))
      as (o & Ho & Hino).
    { intros Hnil%(f_equal length). rewrite length_take, length_drop in Hnil. unfold POW_MEDIAN_BLOCK_SPAN, POW_AVERAGING_WINDOW in *. cbn [length] in Hnil. lia. }
    rewrite Ho. apply Ht. by eapply elem_of_drop_1, elem_of_take_1, Hino.
  - destruct (last (relevant_times self)) as [o|] eqn:Ho; [|by apply last_None in Ho].
    apply Ht. by apply last_Some_elem_of.
Qed.

Lemma window_cases E self w :
  averaging_window_timespan_for_height (E:=E) (network self) (candidate_height self) = Ok w ->
  w = 1275 \/ w = 2550.
Proof.
  unfold averaging_window_timespan_for_height. intros Hw. outcome_inv.
  destruct a; [by right|by right|by right|by right|by left..].
Qed.

(** [ActualTimespanBounded] of the protocol specification, in seconds. *)
Definition actual_timespan_bounded (window timespan : Z) : Z :=
  Z.max (window * 84 / 100) (Z.min (window * 132 / 100) (window + Z.quot (timespan - window) 4)).

Lemma num_seconds_seconds s : num_seconds (seconds s) = s.
Proof. unfold num_seconds, seconds. by apply Z.quot_mul. Qed.

(** Dividing whole seconds by the damping factor and truncating the nanoseconds. *)
Lemma damped_seconds d : num_seconds (Z.quot (seconds d) 4) = Z.quot d 4.
Proof.
  unfold num_seconds, seconds. rewrite Z.quot_quot by lia.
  replace (4 * 1000000000) with (1000000000 * 4) by lia.
  by rewrite <- Z.quot_quot, Z.quot_mul by lia.
Qed.

Lemma bounded_timespan E self w s :
  averaging_window_timespan_for_height (E:=E) (network self) (candidate_height self) = Ok w ->
  median_timespan (E:=E) self = Ok (seconds s) ->
  median_timespan_bounded (E:=E) self = Ok (seconds (actual_timespan_bounded w s)).
Proof.
  intros Hw Hs. unfold median_timespan_bounded. rewrite Hw. cbn [obind]. rewrite Hs. cbn [obind]. f_equal.
  replace (seconds s - seconds w) with (seconds (s - w)) by (unfold seconds; lia).
  change POW_DAMPING_FACTOR with 4. rewrite damped_seconds. unfold actual_timespan_bounded.
  change (100 - POW_MAX_ADJUST_UP_PERCENT) with 84. change (100 + POW_MAX_ADJUST_DOWN_PERCENT) with 132.
  destruct (window_cases E self w Hw) as [-> | ->].
  - change (Z.quot (seconds 1275 * 84) 100) with (seconds 1071).
    change (Z.quot (seconds 1275 * 132) 100) with (seconds 1683).
    change (1275 * 84 / 100) with 1071. change (1275 * 132 / 100) with 1683. unfold seconds. lia.
  - change (Z.quot (seconds 2550 * 84) 100) with (seconds 2142).
    change (Z.quot (seconds 2550 * 132) 100) with (seconds 3366).
    change (2550 * 84 / 100) with 2142. change (2550 * 132 / 100) with 3366. unfold seconds. lia.
Qed.

Lemma expand_all_ok E lo hi thresholds :
  Forall (fun c => exists t, CompactDifficulty.to_expanded (E:=E) c = Ok (Some t) /\ lo <= t <= hi) thresholds ->
  exists ts, expand_all (E:=E) thresholds = Ok ts /\ length ts = length thresholds /\
    Forall (fun t => lo <= t <= hi) ts.
Proof.
  induction 1 as [|c cs (t & Ht & Hb) _ (ts & Hts & Hlen & Hall)]; [by exists []|].
  exists (t :: ts). simpl. rewrite Ht. cbn [obind expect]. rewrite Hts. simpl. by rewrite Hlen, Forall_cons.
Qed.

Lemma sum_from_ok E lo hi ts acc :
  Forall (fun t => lo <= t <= hi) ts -> 0 <= acc -> 0 <= lo ->
  acc + Z.of_nat (length ts) * hi <= U256_MAX ->
  exists s, ExpandedDifficulty.sum_from (E:=E) acc ts = Ok s /\
    acc + Z.of_nat (length ts) * lo <= s <= acc + Z.of_nat (length ts) * hi.
Proof.
  intros Hall. revert acc. induction Hall as [|t ts Ht _ IH]; intros acc Ha Hlo Hmax.
  { exists acc. simpl in *. split; [done|lia]. }
  cbn [length] in *. rewrite Nat2Z.inj_succ in *. cbn [ExpandedDifficulty.sum_from].
  unfold U256.add. rewrite checked_ok by nia. cbn [expect obind].
  destruct (IH (acc + t) ltac:(lia) Hlo ltac:(nia)) as (s & -> & Hs). exists s. split; [done|]. nia.
Qed.

(** A context in which the adjustment is defined: enough upgrades, whole-second
    times, and every threshold of the averaging window a target between 2550
    and the network's limit. *)
Record context_ok E (self : AdjustedDifficulty) (limit : Z) : Prop := {
  ctx_activation : wf_activation (activation_list (network self));
  ctx_height : 0 <= candidate_height self;
  ctx_limit : net_target_difficulty_limit (E:=E) (network self) = Ok limit;
  ctx_limit_range : 2550 <= limit /\ 17 * limit <= U256_MAX;
  ctx_times : relevant_times self <> [] /\ whole_seconds (relevant_times self);
  ctx_thresholds :
    Forall (fun c => exists t, CompactDifficulty.to_expanded (E:=E) c = Ok (Some t) /\ 2550 <= t <= limit)
      (take POW_AVERAGING_WINDOW (relevant_difficulty_thresholds self))
}.

Lemma mean_target_ok E self limit :
  context_ok E self limit -> exists mean, mean_target_difficulty (E:=E) self = Ok mean /\ 2550 <= mean <= limit.
Proof.
  intros []. unfold mean_target_difficulty. destruct (_ <=? _)%nat eqn:Hl; [|exists limit; split; [done|lia]].
  apply Nat.leb_le in Hl. destruct (expand_all_ok E 2550 limit _ ctx_thresholds0) as (ts & -> & Hlen & Hall).
  cbn [obind]. rewrite length_take, Nat.min_l in Hlen by done. unfold POW_AVERAGING_WINDOW in *.
  destruct (sum_from_ok E 2550 limit ts 0 Hall) as (s & Hs & Hb); [lia..|rewrite Hlen; lia|].
  unfold ExpandedDifficulty.sum. rewrite Hs. cbn [obind]. unfold ExpandedDifficulty.div, U256.div.
  rewrite Hlen in Hb. exists (s / 17). split; [done|].
  split; [apply Z.div_le_lower_bound; lia|apply Z.div_le_upper_bound; lia].
Qed.

Lemma current_window E l h :
  wf_activation l -> 0 <= h -> exists nu, NetworkUpgrade.current (E:=E) l h = Ok nu.
Proof.
  intros Hwf Hh. destruct (last_exists l h Hwf Hh) as [e He]. exists e.2.
  unfold NetworkUpgrade.current. by rewrite He.
Qed.

(** C37: in a sound context the adjusted threshold is always defined, and it is
    the compact form of [min limit (mean / window * timespan)] with the
    protocol's bounded timespan; so the new target is positive, never easier
    than the network's limit, and at most 132 percent of the mean target. *)
Theorem threshold_bits_bounded E self limit :
  context_ok E self limit ->
  exists mean w s c t,
    mean_target_difficulty (E:=E) self = Ok mean /\
    averaging_window_timespan_for_height (E:=E) (network self) (candidate_height self) = Ok w /\
    median_timespan (E:=E) self = Ok (seconds s) /\
    threshold_bits (E:=E) self = Ok c /\ CompactDifficulty.to_expanded (E:=E) c = Ok (Some t) /\
    t = truncate (Z.min limit (mean / w * actual_timespan_bounded w s)) /\
    0 < t <= limit /\ 100 * t <= 132 * mean.
Proof.
  intros Hctx. destruct (mean_target_ok E self limit Hctx) as (mean & Hmean & Hmb).
  destruct Hctx as [Hwf Hh Hlim [Hl1 Hl2] [Hne Hws] _].
  destruct (current_window E _ _ Hwf Hh) as [nu Hnu].
  assert (averaging_window_timespan_for_height (E:=E) (network self) (candidate_height self)
    = Ok (NetworkUpgrade.averaging_window_timespan nu)) as Hw
    by (unfold averaging_window_timespan_for_height; by rewrite Hnu).
  set (w := NetworkUpgrade.averaging_window_timespan nu) in *.
  destruct (median_timespan_total E self Hne Hws) as [s Hs].
  set (b := actual_timespan_bounded w s).
  assert (84 * w <= 100 * b <= 132 * w /\ (w = 1275 \/ w = 2550)) as [Hb Hwc].
  { pose proof (window_cases E self w Hw) as [Hc|Hc]; unfold b, actual_timespan_bounded; rewrite Hc;
      [change (1275 * 84 / 100) with 1071; change (1275 * 132 / 100) with 1683
      |change (2550 * 84 / 100) with 2142; change (2550 * 132 / 100) with 3366]; lia. }
  set (q := mean / w). assert (1 <= q) as Hq1 by (apply Z.div_le_lower_bound; lia).
  assert (w * q <= mean) as Hq2 by (apply Z.mul_div_le; lia).
  assert (0 < q * b /\ 100 * (q * b) <= 132 * mean) as [Hpos Hup] by (split; nia).
  set (x := Z.min limit (q * b)). assert (0 < x <= U256_MAX) as Hx by lia.
  destruct (to_compact_expands E x Hx) as (Hc & Hcb & Hexp). destruct (truncate_bounds x Hx) as (Ht & _ & _).
  exists mean, w, s, (compact_mantissa x + compact_size x * 2 ^ 24), (truncate x).
  split_and!; try done; [|lia..].
  unfold threshold_bits. rewrite Hw. cbn [obind]. rewrite Hmean. cbn [obind].
  unfold ExpandedDifficulty.div, U256.div. rewrite num_seconds_seconds, (proj2 (Z.eqb_neq w 0)) by lia.
  cbn [obind]. rewrite (bounded_timespan E self w s Hw Hs). cbn [obind].
  rewrite num_seconds_seconds. unfold ExpandedDifficulty.mul, U256.mul. fold q. fold b.
  rewrite checked_ok by lia. cbn [expect obind]. rewrite Hlim. cbn [obind]. exact Hc.
Qed.

Lemma expected_without_exemption E g self params :
  network self = Testnet params -> consensus_flavor params = Wcash WcashMainnet ->
  minimum_difficulty_start_height params = None -> relevant_times self <> [] ->
  expected_difficulty_threshold (E:=E) g self = threshold_bits self.
Proof.
  intros Hn Hf Hm Ht. unfold expected_difficulty_threshold. rewrite Hn. unfold is_regtest_parameters. rewrite Hf.
  rewrite bool_decide_eq_false_2 by done. destruct (relevant_times self) as [|t ts]; [done|].
  cbn [head expect obind]. unfold is_testnet_min_difficulty_block, minimum_difficulty_spacing_for_height.
  by rewrite Hm.
Qed.

Lemma genesis_height_zero l : wf_activation l -> activation_height Genesis l = Some 0.
Proof.
  intros [Hs Hhd]. apply activation_height_Some; [done|]. exists Genesis. destruct l as [|e l]; [done|].
  injection Hhd as ->. split; [simpl; lia|]. split; [left|]. intros nu' h' _ _. pose proof (rank_bounds nu'). simpl. lia.
Qed.
End retarget.

Section contextual.
Import AdjustedDifficulty ContextualCheck.

(** The adjustment context of a candidate at [height]. *)
Definition adjustment (candidate : Block) (height : Z) (network : Network) (chain : list Block) : AdjustedDifficulty :=
  mkAdjusted (time candidate) height network
    (map difficulty_threshold (take POW_ADJUSTMENT_BLOCK_SPAN chain))
    (map time (take POW_ADJUSTMENT_BLOCK_SPAN chain)).

Lemma new_adjustment E candidate height network chain :
  1 <= height <= Height.MAX -> chain <> [] ->
  new_from_header_time (E:=E) (time candidate) (height - 1) network
    (map (fun b => (difficulty_threshold b, time b)) (take POW_ADJUSTMENT_BLOCK_SPAN chain))
  = Ok (adjustment candidate height network chain).
Proof.
  intros Hh Hne. unfold new_from_header_time, Height.add_diff, Height.try_from_u32.
  change Height.MAX with 2147483647 in *. rewrite wrap_i_small by lia.
  replace (height - 1 + 1) with height by lia. rewrite checked_ok by bool_lia. simpl (_ ≫= _).
  rewrite (proj2 (Z.leb_le _ _)) by lia. cbn [expect obind].
  rewrite take_ge by (rewrite length_map, length_take; lia). rewrite length_map, !map_map.
  by destruct chain.
Qed.

Lemma height_pred height : 1 <= height <= Height.MAX -> Height.sub_diff height 1 = Some (height - 1).
Proof.
  intros Hh. unfold Height.sub_diff, Height.try_from_u32. change Height.MAX with 2147483647 in *.
  rewrite wrap_i_small, checked_ok by bool_lia. simpl. by rewrite (proj2 (Z.leb_le _ _)) by lia.
Qed.

(** A block that passes the contextual checks against a non-empty recent
    chain is not below the finalized tip, directly extends its parent, has a
    time after the median-time-past and (where the rule is enforced) at most 90
    minutes after it, and declares exactly the expected difficulty; on Wcash
    Mainnet that is always the adjusted threshold, without exemption. *)
Theorem accepted_block_rules g height candidate net tip chain parent_height :
  wf_activation (activation_list net) -> 1 <= height <= Height.MAX ->
  coinbase_height candidate = Some height ->
  (b ← head chain; coinbase_height b) = Some parent_height ->
  block_is_valid_for_recent_chain g height candidate net (Some tip) chain = Ok tt ->
  let adj := adjustment candidate height net chain in
  tip < height /\ Height.add_diff parent_height 1 = Some height /\
  exists mtp expected,
    median_time_past (E:=ValidateContextError) adj = Ok mtp /\ mtp < time candidate /\
    (is_max_block_time_enforced net height = true -> time candidate <= mtp + seconds (90 * 60)) /\
    expected_difficulty_threshold (E:=ValidateContextError) g adj = Ok expected /\
    difficulty_threshold candidate = expected /\
    (forall params, net = Testnet params -> consensus_flavor params = Wcash WcashMainnet ->
       minimum_difficulty_start_height params = None ->
       threshold_bits (E:=ValidateContextError) adj = Ok expected).
Proof.
  intros Hwf Hh Hc Hp Hv adj. destruct chain as [|b chain]; [done|]. simpl in Hp.
  unfold block_is_valid_for_recent_chain, block_is_not_orphaned, height_one_more_than_parent_height in Hv.
  cbn [expect obind] in Hv. destruct (Z.leb_spec height tip) as [|Htip]; [done|]. cbn [obind] in Hv.
  assert (take POW_ADJUSTMENT_BLOCK_SPAN (b :: chain) = b :: take 27 chain) as Htk by done.
  rewrite Htk in Hv.
  rewrite Hp in Hv. cbn [expect obind] in Hv.
  destruct (bool_decide_reflect (Height.add_diff parent_height 1 = Some height)) as [Hpar|]; [|done].
  cbn [negb obind] in Hv. rewrite Hc in Hv. cbn [expect obind] in Hv. rewrite height_pred in Hv by done.
  cbn [expect obind] in Hv.
  rewrite <- Htk, new_adjustment in Hv by done. cbn [obind] in Hv. fold adj in Hv.
  split; [done|]. split; [done|]. unfold difficulty_threshold_and_time_are_valid in Hv.
  apply obind_Ok in Hv as (mtp & Hmtp & Hv). simpl network in Hv. rewrite genesis_height_zero in Hv by done.
  cbn [expect obind] in Hv. simpl candidate_time in Hv. simpl candidate_height in Hv.
  destruct ((time candidate <=? mtp) && negb (height =? 0)) eqn:He; [done|].
  destruct (is_max_block_time_enforced net height && _) eqn:Hl; [done|].
  apply obind_Ok in Hv as (expected & Hexp & Hv).
  destruct (difficulty_threshold candidate =? expected) eqn:Hd; [|done].
  exists mtp, expected. change (seconds BLOCK_MAX_TIME_SINCE_MEDIAN) with (seconds (90 * 60)) in Hl.
  split_and!; [done|lia| |done|lia|].
  - intros Hen. rewrite Hen in Hl. simpl in Hl. lia.
  - intros params Hn Hf Hm. rewrite <- (expected_without_exemption _ g adj params); [done..|]. done.
Qed.
End contextual.

(** ** A concrete chain: 28 blocks of Wcash Mainnet at its limit, on schedule *)

Section witnesses.
Import AdjustedDifficulty ContextualCheck.

Definition example_block (i : nat) : Block :=
  mkBlock (Some (Z.of_nat (28 - i))) 0x1e2fabe8 (seconds (1800000000 - 75 * Z.of_nat i)).
Definition example_chain : list Block := map example_block (seq 0 28).
Definition example_candidate : Block := mkBlock (Some 29) 0x1e2fabe7 (seconds 1800000075).
Definition example_adjustment : AdjustedDifficulty :=
  adjustment example_candidate 29 example_mainnet example_chain.
End witnesses.

Lemma median_time_is_middle_witness :
  AdjustedDifficulty.median_time (E:=unit) [5; 1; 9; 3] = Ok 5.
Proof.
  destruct (median_time_is_middle unit [5; 1; 9; 3] ltac:(done)) as (m & Hm & _).
  rewrite Hm. vm_compute in Hm. congruence.
Defined.

Lemma example_mainnet_activation : wf_activation (activation_list example_mainnet).
Proof.
  assert (activation_list example_mainnet = [(0, Genesis); (1, NetworkUpgrade.Nu6_3)]) as -> by by vm_compute.
  split; [|done]. repeat constructor.
Qed.

Lemma example_context_ok :
  context_ok unit example_adjustment Network.WCASH_POW_LIMIT.
Proof.
  split.
  - apply example_mainnet_activation.
  - by vm_compute.
  - by vm_compute.
  - by_eval.
  - split; [by vm_compute|]. repeat (constructor; [by eexists|]). constructor.
  - repeat (constructor; [by exists Network.WCASH_POW_LIMIT; vm_compute|]). constructor.
Qed.

Lemma threshold_bits_bounded_witness :
  exists t, CompactDifficulty.to_expanded (E:=unit) 0x1e2fabe7 = Ok (Some t) /\ t <= Network.WCASH_POW_LIMIT.
Proof.
  destruct (threshold_bits_bounded unit example_adjustment Network.WCASH_POW_LIMIT example_context_ok)
    as (mean & w & s & c & t & _ & _ & _ & Hc & Ht & _ & Hb & _).
  assert (c = 0x1e2fabe7) as -> by (vm_compute in Hc; congruence). exists t. split; [done|apply Hb].
Defined.

Lemma accepted_block_rules_witness :
  exists mtp, AdjustedDifficulty.median_time_past (E:=ContextualCheck.ValidateContextError) example_adjustment
    = Ok mtp /\ mtp < ContextualCheck.time example_candidate.
Proof.
  destruct (accepted_block_rules [] 29 example_candidate example_mainnet 28 example_chain 28)
    as (_ & _ & mtp & expected & Hm & Ht & _).
  - apply example_mainnet_activation.
  - by_eval.
  - done.
  - by vm_compute.
  - by vm_compute.
  - by exists mtp.
Defined.
