(* ===== verification/AuxCodec.v ===== *)
(** * Byte codecs

    The bounded reader and CompactSize codec of the AuxPoW crate
    ([wcash-zcash-aux/src/codec.rs]), its errors ([error.rs]), and the
    node's own CompactSize ([zebra-chain/src/serialization/compact_size.rs]).
    The two implementations are proved to accept and produce the same bytes. *)

From S2P Require Import Prelude.

(** [AuxPowError]. *)
Inductive AuxPowError :=
| ProofTooLarge (actual max : Z)
| CoinbaseTooLarge (actual max : Z)
| InvalidProofMagic (magic : list byte)
| UnsupportedProofVersion (version : Z)
| UnexpectedEnd (field : string) (needed remaining : Z)
| NonCanonicalCompactSize
| CompactSizeOverflow (value : Z)
| BranchTooLong (branch : string) (actual max : Z)
| TrailingBytes (n : Z)
| EncodingLengthOverflow
| InvalidHeaderLength (actual expected : Z)
| HeaderVersionTooLow (version : Z)
| HeaderVersionHighBit (version : Z)
| NonCanonicalSolutionLength
| ZeroTarget
| InsufficientParentWork (hash_le target_le : list byte)
| InvalidEquihash
| InvalidParentCoinbase
| NonCanonicalParentCoinbase
| ParentTransactionIsNotCoinbase
| UnsupportedParentCoinbaseVersion (version : Z)
| UnsupportedParentCoinbaseBranch (branch : Z)
| MissingParentCoinbaseMinerData
| ParentCoinbaseIndexNotZero (index : Z)
| ParentMerkleRootMismatch
| ParentAuthDataIndexNotZero (index : Z)
| ParentMerkleDepthMismatch (transaction auth_data : Z)
| ParentBlockCommitmentsMismatch
| AuxiliaryTreeDepthTooLarge (depth : Z)
| MerkleIndexOutOfRange (tree : string) (index tree_size : Z)
| AuxiliaryTreeSizeMismatch (committed expected : Z)
| AuxiliaryIndexMismatch (actual expected : Z)
| AuxiliaryRootMismatch
| MissingMinerDataCommitment
| DuplicateCommitmentMarker
| CommitmentNotMinerDataSuffix.

(** The length of a slice, as a [usize]. *)
Abbreviation len l := (Z.of_nat (length l)).

Module Reader.

(** [struct Reader]. *)
Record Reader := mkReader { bytes : list byte; position : nat }.

(** [Reader::new] and [Reader::remaining]. *)
Definition new (bytes : list byte) : Reader := mkReader bytes 0.
Definition remaining (self : Reader) : Z := Z.max 0 (len (bytes self) - Z.of_nat (position self)).

(** [Reader::read_slice]. *)
Definition read_slice (length : Z) (field : string) (self : Reader) :
    outcome AuxPowError (list byte * Reader) :=
  let remaining := remaining self in
  if length >? remaining then Err (UnexpectedEnd field length remaining)
  else
    let? end_ := ok_or (usize_checked (Z.of_nat (position self) + length)) EncodingLengthOverflow in
    let slice := take (Z.to_nat length) (drop (position self) (bytes self)) in
    Ok (slice, mkReader (bytes self) (Z.to_nat end_)).

(** [Reader::read_array::<N>]. *)
Definition read_array (n : Z) (field : string) (self : Reader) :
    outcome AuxPowError (list byte * Reader) := read_slice n field self.

(** [Reader::read_u8] and [Reader::read_u32_le]. *)
Definition read_u8 (field : string) (self : Reader) : outcome AuxPowError (Z * Reader) :=
  let? ' (a, self) := read_array 1 field self in
  Ok (of_le a, self).
Definition read_u32_le (field : string) (self : Reader) : outcome AuxPowError (Z * Reader) :=
  let? ' (a, self) := read_array 4 field self in
  Ok (of_le a, self).

(** [Reader::read_compact_size]. *)
Definition read_compact_size (self : Reader) : outcome AuxPowError (Z * Reader) :=
  let? ' (prefix, self) := read_u8 "CompactSize prefix" self in
  let? ' (value, self) :=
    if prefix <=? 0xfc then Ok (prefix, self)
    else if prefix =? 0xfd then
      let? ' (a, self) := read_array 2 "CompactSize u16" self in
      if of_le a <? 0xfd then Err NonCanonicalCompactSize else Ok (of_le a, self)
    else if prefix =? 0xfe then
      let? ' (value, self) := read_u32_le "CompactSize u32" self in
      if within 0 U16_MAX value then Err NonCanonicalCompactSize else Ok (value, self)
    else
      let? ' (a, self) := read_array 8 "CompactSize u64" self in
      if within 0 U32_MAX (of_le a) then Err NonCanonicalCompactSize else Ok (of_le a, self) in
  let? value := ok_or (usize_checked value) (CompactSizeOverflow value) in
  Ok (value, self).
End Reader.

(** [encode_compact_size]: the bytes it appends. *)
Definition encode_compact_size (value : Z) : list byte :=
  if value <=? 0xfc then to_le 1 value
  else if within 0 U16_MAX value then Byte.xfd :: to_le 2 value
  else if within 0 U32_MAX value then Byte.xfe :: to_le 4 value
  else Byte.xff :: to_le 8 value.

(** [compact_size_len] of [proof.rs]. *)
Definition compact_size_len (value : Z) : Z :=
  if value <=? 0xfc then 1
  else if value <=? U16_MAX then 3
  else if value <=? U32_MAX then 5
  else 9.

(** ** The node's CompactSize *)

Module CompactSize.

Definition MAX_PROTOCOL_MESSAGE_LEN : Z := 2 * 1024 * 1024.

Inductive SerializationError :=
| UnexpectedEof
| NonCanonical
| TooLarge
| TryFromInt.

(** [impl ZcashSerialize for CompactSize64]. *)
Definition serialize64 (n : Z) : list byte :=
  if within 0 0xfc n then to_le 1 n
  else if within 0xfd 0xffff n then to_le 1 0xfd ++ to_le 2 n
  else if within 0x10000 0xffffffff n then to_le 1 0xfe ++ to_le 4 n
  else to_le 1 0xff ++ to_le 8 n.

(** [read_u8] and the wider reads: the value and the rest of the stream. *)
Definition read_le (n : nat) (bytes : list byte) : outcome SerializationError (Z * list byte) :=
  if (n <=? length bytes)%nat then Ok (of_le (take n bytes), drop n bytes) else Err UnexpectedEof.

(** [impl ZcashDeserialize for CompactSize64]. *)
Definition deserialize64 (bytes : list byte) : outcome SerializationError (Z * list byte) :=
  let? ' (flag_byte, bytes) := read_le 1 bytes in
  if within 0x00 0xfc flag_byte then Ok (flag_byte, bytes)
  else if flag_byte =? 0xfd then
    let? ' (n, bytes) := read_le 2 bytes in
    if within 0xfd U16_MAX n then Ok (n, bytes) else Err NonCanonical
  else if flag_byte =? 0xfe then
    let? ' (n, bytes) := read_le 4 bytes in
    if within 0x10000 U32_MAX n then Ok (n, bytes) else Err NonCanonical
  else
    let? ' (n, bytes) := read_le 8 bytes in
    if within 0x100000000 U64_MAX n then Ok (n, bytes) else Err NonCanonical.

(** [impl TryFrom<usize> for CompactSizeMessage]. *)
Definition message_try_from (size : Z) : outcome SerializationError Z :=
  let? size := ok_or (u32_checked size) TryFromInt in
  if size >? MAX_PROTOCOL_MESSAGE_LEN then Err TooLarge else Ok size.

(** [impl ZcashSerialize] and [ZcashDeserialize] for [CompactSizeMessage]. *)
Definition serialize_message {E} (self : Z) : outcome E (list byte) :=
  do? assert_that (self <=? MAX_PROTOCOL_MESSAGE_LEN) in
  Ok (serialize64 self).
Definition deserialize_message (bytes : list byte) : outcome SerializationError (Z * list byte) :=
  let? ' (size, bytes) := deserialize64 bytes in
  let? size := ok_or (usize_checked size) TryFromInt in
  let? size := message_try_from size in
  Ok (size, bytes).
End CompactSize.

(** ** What the reader consumes *)

Section Reads.
Import Reader.

(** The invariant of a reader over a slice that fits in memory. *)
Definition reader_wf (r : Reader) : Prop :=
  (position r <= length (bytes r))%nat /\ len (bytes r) <= USIZE_MAX.

(** The unread bytes, and the reader after [n] of them. *)
Definition rest (r : Reader) : list byte := drop (position r) (bytes r).
Definition advance (n : nat) (r : Reader) : Reader := mkReader (bytes r) (position r + n).

(** [r] reads the bytes [s] and becomes [r']. *)
Definition reads (r : Reader) (s : list byte) (r' : Reader) : Prop :=
  s `prefix_of` rest r /\ r' = advance (length s) r.

Lemma rest_advance n r : rest (advance n r) = drop n (rest r).
Proof. unfold rest, advance. simpl. by rewrite drop_drop. Qed.

Lemma reads_rest r s r' : reads r s r' -> rest r = s ++ rest r'.
Proof. intros [[t Ht] ->]. by rewrite rest_advance, Ht, drop_app_length. Qed.

Lemma reads_wf r s r' : reader_wf r -> reads r s r' -> reader_wf r'.
Proof.
  intros [Hp Hl] [Hs ->]. apply prefix_length in Hs. unfold rest in Hs.
  rewrite length_drop in Hs. split; simpl; lia.
Qed.

Lemma reads_nil r : reads r [] r.
Proof. split; [apply prefix_nil|]. destruct r. unfold advance. simpl. f_equal. lia. Qed.

Lemma reads_app r s s' r' :
  reads r (s ++ s') r' <-> exists r1, reads r s r1 /\ reads r1 s' r'.
Proof.
  unfold reads. split.
  - intros [[t Ht] ->]. exists (advance (length s) r). rewrite rest_advance, Ht, <- app_assoc.
    rewrite drop_app_length. split; [split; [by eexists|done]|split; [by eexists|]].
    unfold advance. simpl. f_equal. rewrite length_app. lia.
  - intros (r1 & [[t Ht] ->] & [t' Ht'] & ->). rewrite rest_advance, Ht, drop_app_length in Ht'.
    subst t. split; [exists t'; by rewrite Ht, app_assoc|].
    unfold advance. simpl. f_equal. rewrite length_app. lia.
Qed.

Lemma reads_cons r b s r' :
  reads r (b :: s) r' <-> exists r1, reads r [b] r1 /\ reads r1 s r'.
Proof. apply (reads_app r [b]). Qed.

(** Two readings of the same length read the same bytes. *)
Lemma reads_det r s1 s2 r1 r2 :
  reads r s1 r1 -> reads r s2 r2 -> length s1 = length s2 -> s1 = s2 /\ r1 = r2.
Proof.
  intros [[t1 H1] ->] [[t2 H2] ->] Hl. rewrite H1 in H2. apply app_inj_1 in H2 as [-> _]; done.
Qed.

Lemma remaining_rest r : reader_wf r -> remaining r = len (rest r).
Proof. intros [Hp _]. unfold remaining, rest. rewrite length_drop. lia. Qed.

Lemma read_slice_Ok n f r s r' :
  reader_wf r -> 0 <= n ->
  read_slice n f r = Ok (s, r') <-> reads r s r' /\ len s = n.
Proof.
  intros Hwf Hn. unfold read_slice. rewrite (remaining_rest r Hwf). fold (rest r).
  destruct Hwf as [Hp Hl].
  assert (length (rest r) = (length (bytes r) - position r)%nat) as Hr by apply length_drop.
  destruct (Z.gtb_spec n (len (rest r))) as [Hgt|Hle].
  - split; [done|]. intros [[Hs _] Hlen]. apply prefix_length in Hs. lia.
  - rewrite checked_ok by lia. cbn [ok_or obind]. split.
    + intros [= <- <-]. rewrite length_take_le by lia. split; [|lia]. split.
      * apply prefix_take.
      * unfold advance. rewrite length_take_le by lia. f_equal. lia.
    + intros [[[t Ht] ->] Hlen]. rewrite Ht, take_app_length' by lia.
      unfold advance. do 3 f_equal. lia.
Qed.

Lemma read_slice_returns n f r : returns (read_slice n f r).
Proof. unfold read_slice. destruct (_ >? _); no_panic. Qed.

Lemma read_u8_Ok f r v r' :
  reader_wf r -> read_u8 f r = Ok (v, r') <-> exists b, reads r [b] r' /\ v = of_le [b].
Proof.
  intros Hwf. unfold read_u8, read_array. rewrite obind_Ok. split.
  - intros ([s r1] & Hs & [= <- <-]). apply read_slice_Ok in Hs as [Hs Hl]; [|done|lia].
    destruct s as [|b [|]]; simpl in Hl; try lia. by exists b.
  - intros (b & Hs & ->). exists ([b], r'). split; [|done]. by apply read_slice_Ok.
Qed.

Lemma read_u32_le_Ok f r v r' :
  reader_wf r -> read_u32_le f r = Ok (v, r') <-> 0 <= v <= U32_MAX /\ reads r (to_le 4 v) r'.
Proof.
  intros Hwf. unfold read_u32_le, read_array. rewrite obind_Ok. split.
  - intros ([s r1] & Hs & [= <- <-]). apply read_slice_Ok in Hs as [Hs Hl]; [|done|lia].
    pose proof (of_le_bound s). rewrite Hl in *. rewrite to_of_le by lia. split; [bool_lia|done].
  - intros [Hv Hs]. exists (to_le 4 v, r'). split.
    + apply read_slice_Ok; [done|lia|]. by rewrite length_le_split.
    + by rewrite of_to_le by bool_lia.
Qed.
End Reads.

#[export] Hint Resolve read_slice_returns : wcash.

(** ** The CompactSize languages *)

(** Selects the branch of a known prefix byte. *)
Ltac eval_prefix :=
  cbn [obind within andb Z.leb Z.eqb Z.compare Pos.compare Pos.compare_cont Pos.eqb].

Section CompactSizeLanguage.
Import Reader.

Lemma byte_of_le (b : byte) v : of_le [b] = v -> [b] = to_le 1 v.
Proof. intros <-. symmetry. by apply to_of_le. Qed.

Lemma byte_range (b : byte) : 0 <= of_le [b] <= 255.
Proof. pose proof (of_le_bound [b]). simpl in *. lia. Qed.

Lemma byte_split v : exists b, to_le 1 v = [b].
Proof. by eexists. Qed.

(** The four forms of the encoding, by the range of the value. *)
Lemma encode_cases v :
  0 <= v <= U64_MAX ->
  (0 <= v <= 0xfc /\ encode_compact_size v = to_le 1 v) \/
  (0xfd <= v <= U16_MAX /\ encode_compact_size v = Byte.xfd :: to_le 2 v) \/
  (0x10000 <= v <= U32_MAX /\ encode_compact_size v = Byte.xfe :: to_le 4 v) \/
  (0x100000000 <= v <= U64_MAX /\ encode_compact_size v = Byte.xff :: to_le 8 v).
Proof.
  intros Hv. unfold encode_compact_size, within.
  repeat case_match; [left|right; left|do 2 right; left|do 3 right]; (split; [bool_lia|done]).
Qed.

Lemma read_array_reads n f r s r' :
  reader_wf r -> reads r s r' -> len s = n -> read_array n f r = Ok (s, r').
Proof. intros. apply read_slice_Ok; [done|lia|done]. Qed.

Lemma read_compact_size_encoded r v r' :
  reader_wf r -> 0 <= v <= U64_MAX -> reads r (encode_compact_size v) r' ->
  read_compact_size r = Ok (v, r').
Proof.
  intros Hwf Hv Hr. unfold read_compact_size.
  destruct (encode_cases v Hv) as [[Hc E]|[[Hc E]|[[Hc E]|[Hc E]]]]; rewrite E in Hr.
  - destruct (byte_split v) as [b Hb]. rewrite Hb in Hr.
    assert (of_le [b] = v) as Hbv by (rewrite <- Hb; apply of_to_le; simpl; lia).
    rewrite (proj2 (read_u8_Ok _ r (of_le [b]) r' Hwf)) by by eexists.
    cbn [obind]. rewrite Hbv, (proj2 (Z.leb_le v _)) by lia. cbn [obind].
    by rewrite checked_ok by bool_lia.
  - apply reads_cons in Hr as (r1 & H1 & H2). pose proof (reads_wf _ _ _ Hwf H1).
    rewrite (proj2 (read_u8_Ok _ r 0xfd r1 Hwf)) by by eexists. eval_prefix.
    rewrite (read_array_reads _ _ _ _ _ H H2) by done. cbn [obind].
    rewrite of_to_le by bool_lia. rewrite (proj2 (Z.ltb_ge v _)) by lia. cbn [obind].
    by rewrite checked_ok by bool_lia.
  - apply reads_cons in Hr as (r1 & H1 & H2). pose proof (reads_wf _ _ _ Hwf H1).
    rewrite (proj2 (read_u8_Ok _ r 0xfe r1 Hwf)) by by eexists. eval_prefix.
    rewrite (proj2 (read_u32_le_Ok _ r1 v r' H)) by (split; [bool_lia|done]).
    cbn [obind]. rewrite (proj2 (within_false _ _ _)) by bool_lia. cbn [obind].
    by rewrite checked_ok by bool_lia.
  - apply reads_cons in Hr as (r1 & H1 & H2). pose proof (reads_wf _ _ _ Hwf H1).
    rewrite (proj2 (read_u8_Ok _ r 0xff r1 Hwf)) by by eexists. eval_prefix.
    rewrite (read_array_reads _ _ _ _ _ H H2) by done. cbn [obind].
    rewrite of_to_le by bool_lia. rewrite (proj2 (within_false _ _ _)) by bool_lia. cbn [obind].
    by rewrite checked_ok by bool_lia.
Qed.

Lemma prefix_byte (b c : byte) : of_le [b] = of_le [c] -> b = c.
Proof.
  intros H. assert ([b] = [c]) as [= ->]; [|done].
  by rewrite (byte_of_le b _ H), <- (byte_of_le c _ eq_refl).
Qed.

Lemma of_le_range s n : len s = n -> 0 <= of_le s < 2 ^ (8 * n).
Proof. intros <-. apply of_le_bound. Qed.

Lemma read_array_Ok n f r s r' :
  reader_wf r -> 0 <= n -> read_array n f r = Ok (s, r') ->
  reads r s r' /\ len s = n /\ 0 <= of_le s < 2 ^ (8 * n) /\ to_le (Z.to_nat n) (of_le s) = s.
Proof.
  intros Hwf Hn H. apply read_slice_Ok in H as [Hr Hl]; [|done|done].
  pose proof (of_le_range s n Hl). split_and!; [done|done|lia..|]. apply to_of_le. lia.
Qed.

Lemma encode_form_u16 v : 0xfd <= v <= U16_MAX -> encode_compact_size v = Byte.xfd :: to_le 2 v.
Proof. intros. unfold encode_compact_size, within. repeat case_match; bool_lia || done. Qed.
Lemma encode_form_u32 v : U16_MAX < v <= U32_MAX -> encode_compact_size v = Byte.xfe :: to_le 4 v.
Proof. intros. unfold encode_compact_size, within. repeat case_match; bool_lia || done. Qed.
Lemma encode_form_u64 v : U32_MAX < v <= U64_MAX -> encode_compact_size v = Byte.xff :: to_le 8 v.
Proof. intros. unfold encode_compact_size, within. repeat case_match; bool_lia || done. Qed.

Lemma read_compact_size_reads r v r' :
  reader_wf r -> read_compact_size r = Ok (v, r') ->
  0 <= v <= U64_MAX /\ reads r (encode_compact_size v) r'.
Proof.
  intros Hwf H. unfold read_compact_size in H. apply obind_Ok in H as ([p r1] & Hp & H).
  apply read_u8_Ok in Hp as (b & Hb & ->); [|done].
  pose proof (reads_wf _ _ _ Hwf Hb) as Hwf1. pose proof (byte_range b).
  apply obind_Ok in H as ([w r2] & Hform & H).
  apply obind_Ok in H as (w' & Hw & [= <- <-]). apply ok_or_Ok, checked_Some in Hw as [-> Hw].
  split; [done|].
  destruct (of_le [b] <=? 0xfc) eqn:Hfc.
  { inversion Hform; subst. unfold encode_compact_size. rewrite Hfc.
    by rewrite <- (byte_of_le b _ eq_refl). }
  destruct (Z.eqb_spec (of_le [b]) 0xfd) as [E|Hfd].
  { apply (prefix_byte b Byte.xfd) in E as ->. apply obind_Ok in Hform as ([s r3] & Hs & Hform).
    apply read_array_Ok in Hs as (Hs & _ & Hv & Hback); [|done|lia].
    case_match; [done|]. inversion Hform; subst. rewrite encode_form_u16 by bool_lia.
    apply reads_cons. exists r1. by rewrite <- Hback in Hs. }
  destruct (Z.eqb_spec (of_le [b]) 0xfe) as [E|Hfe].
  { apply (prefix_byte b Byte.xfe) in E as ->. apply obind_Ok in Hform as ([s r3] & Hs & Hform).
    apply read_u32_le_Ok in Hs as (Hv & Hs); [|done].
    case_match; [done|]. inversion Hform; subst. rewrite encode_form_u32 by bool_lia.
    apply reads_cons. by exists r1. }
  apply obind_Ok in Hform as ([s r3] & Hs & Hform).
  apply read_array_Ok in Hs as (Hs & _ & Hv & Hback); [|done|lia].
  case_match; [done|]. inversion Hform; subst. rewrite encode_form_u64 by bool_lia.
  rewrite (prefix_byte b Byte.xff) in Hb by (change (of_le [Byte.xff]) with 255; lia).
  apply reads_cons. exists r1. by rewrite <- Hback in Hs.
Qed.

Lemma encode_compact_size_len v :
  0 <= v <= U64_MAX -> len (encode_compact_size v) = compact_size_len v.
Proof.
  intros Hv. unfold compact_size_len.
  destruct (encode_cases v Hv) as [[Hc ->]|[[Hc ->]|[[Hc ->]|[Hc ->]]]];
    cbn [length]; rewrite length_le_split; repeat case_match; bool_lia.
Qed.
End CompactSizeLanguage.

(** ** Agreement of the two CompactSize implementations *)

Section Agreement.
Import Reader CompactSize.

Lemma serialize64_encode v : 0 <= v <= U64_MAX -> serialize64 v = encode_compact_size v.
Proof.
  intros Hv. unfold serialize64, within.
  destruct (encode_cases v Hv) as [[Hc ->]|[[Hc ->]|[[Hc ->]|[Hc ->]]]];
    repeat case_match; bool_lia || done.
Qed.

Lemma read_le_Ok n bs v t :
  read_le n bs = Ok (v, t) <-> 0 <= v < 2 ^ (8 * Z.of_nat n) /\ bs = to_le n v ++ t.
Proof.
  unfold read_le. destruct (Nat.leb_spec n (length bs)) as [Hn|Hn]; split; try done.
  - intros [= <- <-].
    assert (length (take n bs) = n) as Hl by (rewrite length_take; lia).
    pose proof (of_le_bound (take n bs)) as Hb. rewrite Hl in Hb. split; [done|].
    by rewrite to_of_le, take_drop.
  - intros [Hv ->]. pose proof (length_le_split n v).
    by rewrite take_app_length', drop_app_length', of_to_le by done.
  - intros [_ ->]. rewrite length_app, length_le_split in Hn. lia.
Qed.

(** The reader of the AuxPoW crate and the node's deserializer succeed on the
    same streams, with the same value and the same rest. *)
Lemma deserialize64_read bs v t :
  deserialize64 bs = Ok (v, t) <-> 0 <= v <= U64_MAX /\ bs = encode_compact_size v ++ t.
Proof.
  unfold deserialize64. split.
  - intros H. apply obind_Ok in H as ([p bs1] & Hp & H). apply read_le_Ok in Hp as [Hp ->].
    destruct (within 0 0xfc p) eqn:Hfc.
    { injection H as <- <-. apply within_spec in Hfc. split; [bool_lia|].
      unfold encode_compact_size. by rewrite (proj2 (Z.leb_le _ _)) by lia. }
    destruct (Z.eqb_spec p 0xfd) as [->|Hfd]; [|destruct (Z.eqb_spec p 0xfe) as [->|Hfe]];
      apply obind_Ok in H as ([w bs2] & Hw & H); apply read_le_Ok in Hw as [Hw ->];
      case_match eqn:Hr; try done; injection H as <- <-; apply within_spec in Hr;
      (split; [bool_lia|]).
    + by rewrite encode_form_u16.
    + by rewrite encode_form_u32 by bool_lia.
    + assert (p = 255) as -> by bool_lia. by rewrite encode_form_u64 by bool_lia.
  - intros [Hv ->].
    destruct (encode_cases v Hv) as [[Hc ->]|[[Hc ->]|[[Hc ->]|[Hc ->]]]].
    + rewrite (proj2 (read_le_Ok 1 _ v t)) by (split; [lia|done]). cbn [obind].
      by rewrite (proj2 (within_spec _ _ _)) by lia.
    + rewrite (proj2 (read_le_Ok 1 _ 0xfd (to_le 2 v ++ t))) by done. eval_prefix.
      rewrite (proj2 (read_le_Ok 2 _ v t)) by (split; [bool_lia|done]). cbn [obind].
      by rewrite (proj2 (within_spec _ _ _)) by bool_lia.
    + rewrite (proj2 (read_le_Ok 1 _ 0xfe (to_le 4 v ++ t))) by done. eval_prefix.
      rewrite (proj2 (read_le_Ok 4 _ v t)) by (split; [bool_lia|done]). cbn [obind].
      by rewrite (proj2 (within_spec _ _ _)) by bool_lia.
    + rewrite (proj2 (read_le_Ok 1 _ 0xff (to_le 8 v ++ t))) by done. eval_prefix.
      rewrite (proj2 (read_le_Ok 8 _ v t)) by (split; [bool_lia|done]). cbn [obind].
      by rewrite (proj2 (within_spec _ _ _)) by bool_lia.
Qed.

(** A message size is a canonical one within the limit of a message. *)
Lemma deserialize_message_read bs v t :
  deserialize_message bs = Ok (v, t) <-> 0 <= v <= MAX_PROTOCOL_MESSAGE_LEN /\ bs = encode_compact_size v ++ t.
Proof.
  unfold deserialize_message, message_try_from, MAX_PROTOCOL_MESSAGE_LEN. split.
  - intros H. apply obind_Ok in H as ([w t'] & Hw & H). outcome_inv.
    apply deserialize64_read in Hw as [Hv ->]. apply checked_Some in H0 as [-> _].
    apply checked_Some in H2 as [-> _]. case_match; [done|]. injection H1 as <-. split; [lia|done].
  - intros [Hv ->]. rewrite (proj2 (deserialize64_read _ v t)) by (split; [bool_lia|done]). cbn [obind].
    do 2 (rewrite checked_ok by bool_lia; cbn [ok_or obind]).
    by destruct (Z.gtb_spec v (2 * 1024 * 1024)); [lia|].
Qed.

Lemma read_compact_size_iff bs v r' :
  len bs <= USIZE_MAX ->
  read_compact_size (Reader.new bs) = Ok (v, r') <->
  0 <= v <= U64_MAX /\ bs = encode_compact_size v ++ rest r' /\
  r' = mkReader bs (length (encode_compact_size v)).
Proof.
  intros Hl. assert (reader_wf (Reader.new bs)) as Hwf by (split; simpl; lia). split.
  - intros H. apply read_compact_size_reads in H as [Hv Hr]; [|done].
    pose proof (reads_rest _ _ _ Hr) as Hrest. destruct Hr as [_ ->].
    unfold rest at 1 in Hrest. cbn [Reader.new position bytes] in Hrest. by rewrite drop_0 in Hrest.
  - intros (Hv & Hbs & Hr). apply read_compact_size_encoded; [done|done|].
    split; [|by rewrite Hr]. unfold rest. cbn [Reader.new position bytes]. rewrite drop_0.
    by exists (rest r').
Qed.

(** The CompactSize format is canonical, and the node and the AuxPoW
    crate agree on it.  A stream deserializes to a value and a rest exactly
    when it is the one serialization of that value followed by the rest; the
    AuxPoW reader accepts exactly the same streams with the same value and
    rest; and a deserialized message size is exactly a canonical one of at
    most [MAX_PROTOCOL_MESSAGE_LEN], which serializes again without panic. *)
Theorem compact_sizes_agree (bs t : list byte) (v : Z) :
  len bs <= USIZE_MAX ->
  (deserialize64 bs = Ok (v, t) <-> 0 <= v <= U64_MAX /\ bs = serialize64 v ++ t) /\
  (deserialize64 bs = Ok (v, t) <->
   exists r', read_compact_size (Reader.new bs) = Ok (v, r') /\ rest r' = t) /\
  (deserialize_message bs = Ok (v, t) <->
   0 <= v <= MAX_PROTOCOL_MESSAGE_LEN /\
   exists s, serialize_message (E:=SerializationError) v = Ok s /\ bs = s ++ t).
Proof.
  intros Hl. split_and!.
  - rewrite deserialize64_read. split; intros [Hv ->]; by rewrite serialize64_encode.
  - rewrite deserialize64_read. split.
    + intros [Hv ->]. set (r' := mkReader (encode_compact_size v ++ t) (length (encode_compact_size v))).
      assert (rest r' = t) as Ht by apply drop_app_length.
      exists r'. split; [|done]. apply read_compact_size_iff; [done|]. by rewrite Ht.
    + intros (r' & H & <-). apply read_compact_size_iff in H as (Hv & Hbs & _); done.
  - rewrite deserialize_message_read. unfold serialize_message. split.
    + intros [Hv ->]. rewrite (proj2 (Z.leb_le v _)) by lia. split; [done|]. eexists. split; [done|].
      by rewrite serialize64_encode by (unfold MAX_PROTOCOL_MESSAGE_LEN in Hv; bool_lia).
    + intros (Hv & s & Hs & ->). rewrite (proj2 (Z.leb_le v _)) in Hs by lia. injection Hs as <-. split; [done|].
      by rewrite serialize64_encode by (unfold MAX_PROTOCOL_MESSAGE_LEN in Hv; bool_lia).
Qed.
End Agreement.

(** A three byte size of 515 followed by one byte. *)
Lemma compact_sizes_agree_witness :
  CompactSize.deserialize64 [Byte.xfd; Byte.x03; Byte.x02; Byte.x00] = Ok (515, [Byte.x00]) /\
  exists r', Reader.read_compact_size (Reader.new [Byte.xfd; Byte.x03; Byte.x02; Byte.x00]) = Ok (515, r') /\
    rest r' = [Byte.x00].
Proof.
  assert (CompactSize.deserialize64 [Byte.xfd; Byte.x03; Byte.x02; Byte.x00] = Ok (515, [Byte.x00]))
    as H by reflexivity.
  split; [done|].
  apply (compact_sizes_agree [Byte.xfd; Byte.x03; Byte.x02; Byte.x00] [Byte.x00] 515); by_eval.
Defined.
