(* ===== verification/AuxMerkle.v ===== *)
(** * Targets, Merkle paths and auxiliary commitments

    [target.rs], [merkle.rs] and [commitment.rs] of [wcash-zcash-aux]: the
    little-endian proof-of-work comparison, the SHA-256d and ZIP-244 Merkle
    paths, the deterministic auxiliary slot, and the 44-byte commitment that a
    Zcash parent coinbase carries for a Wcash block.

    SHA-256 and BLAKE2b are external crates: the class [Hashes] has the two
    functions and the digest lengths the source relies on.  Nothing assumes
    that they are injective; the binding theorems produce the colliding
    inputs, taken from the strings that the two validations hash. *)

From S2P Require Import Prelude AuxCodec.

(** The hash functions of the [sha2] and [blake2b_simd] crates. *)
Class Hashes := {
  sha256 : list byte -> list byte;
  blake2b : list byte -> list byte -> list byte;  (* personalization, input *)
  sha256_length bs : length (sha256 bs) = 32%nat;
  blake2b_length p bs : length (blake2b p bs) = 32%nat;
}.

(** A byte string literal. *)
Definition bytes_of (s : string) : list byte := String.list_byte_of_string s.

(** [&l[first..last]], for indices in range. *)
Definition slice (first last : nat) (l : list byte) : list byte := take (last - first) (drop first l).

(** ** Constants of the crate *)

Definition WCASH_AUXILIARY_CHAIN_ID : Z := 0x57434153.
Definition MERGED_MINING_MARKER : list byte := [Byte.xfa; Byte.xbe; Byte.x6d; Byte.x6d].
Definition MAX_PARENT_BRANCH_DEPTH : Z := 32.
Definition MAX_AUTH_DATA_BRANCH_DEPTH : Z := 32.
Definition MAX_AUXILIARY_BRANCH_DEPTH : Z := 16.

(** ** [target.rs] *)

Module Target.

(** [Target::from_le_bytes]. *)
Definition from_le_bytes (bytes : list byte) : outcome AuxPowError (list byte) :=
  if bool_decide (bytes = replicate 32 Byte.x00) then Err ZeroTarget else Ok bytes.

(** The loop of [is_met_by_le_hash], from the most significant byte. *)
Fixpoint compare_down (index : nat) (hash target : list byte) : bool :=
  match index with
  | O => true
  | S index =>
      let h := of_le [nth index hash Byte.x00] in
      let t := of_le [nth index target Byte.x00] in
      if h <? t then true else if h >? t then false else compare_down index hash target
  end.

(** [Target::is_met_by_le_hash]. *)
Definition is_met_by_le_hash (self hash_le : list byte) : bool := compare_down 32 hash_le self.

(** [Target::includes]. *)
Definition includes (self other : list byte) : bool := is_met_by_le_hash self other.
End Target.

(** ** [merkle.rs] *)

Module Merkle.
Section Merkle.
Context `{Hashes}.

Definition AUTH_DATA_HASH_PERSONALIZATION : list byte := bytes_of "ZcashAuthDatHash".
Definition BLOCK_COMMITMENTS_PERSONALIZATION : list byte := bytes_of "ZcashBlockCommit".

(** [sha256d]. *)
Definition sha256d (bytes : list byte) : list byte :=
  let first := sha256 bytes in
  sha256 first.

(** [sha256d_pair] and [auth_data_hash]. *)
Definition sha256d_pair (left right : list byte) : list byte := sha256d (left ++ right).
Definition auth_data_hash (left right : list byte) : list byte :=
  blake2b AUTH_DATA_HASH_PERSONALIZATION (left ++ right).

(** The loop over the branch: the node it reaches and the index bits that are left. *)
Fixpoint climb (pair : list byte -> list byte -> list byte) (leaf : list byte)
    (branch : list (list byte)) (index : Z) : list byte * Z :=
  match branch with
  | [] => (leaf, index)
  | sibling :: branch =>
      let leaf := if Z.land index 1 =? 0 then pair leaf sibling else pair sibling leaf in
      climb pair leaf branch (Z.shiftr index 1)
  end.

(** [sha256d_merkle_root]. *)
Definition sha256d_merkle_root (leaf : list byte) (branch : list (list byte)) (index : Z) :
    outcome AuxPowError (list byte) :=
  if len branch >? MAX_PARENT_BRANCH_DEPTH then
    Err (BranchTooLong "Merkle" (len branch) MAX_PARENT_BRANCH_DEPTH)
  else
    let original_index := index in
    let ' (leaf, index) := climb sha256d_pair leaf branch index in
    if negb (index =? 0) then
      let tree_size := Z.shiftl 1 (len branch) in
      Err (MerkleIndexOutOfRange "Merkle" original_index tree_size)
    else Ok leaf.

(** [auth_data_merkle_root]. *)
Definition auth_data_merkle_root (leaf : list byte) (branch : list (list byte)) (index : Z) :
    outcome AuxPowError (list byte) :=
  if len branch >? MAX_AUTH_DATA_BRANCH_DEPTH then
    Err (BranchTooLong "auth-data" (len branch) MAX_AUTH_DATA_BRANCH_DEPTH)
  else
    let original_index := index in
    let ' (leaf, index) := climb auth_data_hash leaf branch index in
    if negb (index =? 0) then
      let tree_size := Z.shiftl 1 (len branch) in
      Err (MerkleIndexOutOfRange "auth-data" original_index tree_size)
    else Ok leaf.

(** [block_commitments_hash]. *)
Definition block_commitments_hash (chain_history_root auth_data_root : list byte) : list byte :=
  blake2b BLOCK_COMMITMENTS_PERSONALIZATION
    (chain_history_root ++ auth_data_root ++ replicate 32 Byte.x00).

(** [auxiliary_tree_size]. *)
Definition auxiliary_tree_size (branch_depth : Z) : outcome AuxPowError Z :=
  if (branch_depth >? MAX_AUXILIARY_BRANCH_DEPTH) || (branch_depth >=? 32) then
    Err (AuxiliaryTreeDepthTooLarge branch_depth)
  else Ok (Z.shiftl 1 branch_depth).

(** [expected_auxiliary_index]. *)
Definition expected_auxiliary_index (nonce branch_depth : Z) : outcome AuxPowError Z :=
  let? size := auxiliary_tree_size branch_depth in
  let random := nonce in
  let random := wrap_u 32 (wrap_u 32 (random * 1103515245) + 12345) in
  let random := wrap_u 32 (random + WCASH_AUXILIARY_CHAIN_ID) in
  let random := wrap_u 32 (wrap_u 32 (random * 1103515245) + 12345) in
  Ok (random mod size).
End Merkle.
End Merkle.

(** ** [commitment.rs] *)

Module Commitment.
Import Merkle.
Section Commitment.
Context `{Hashes}.

Definition AUXILIARY_LEAF_DOMAIN : list byte := bytes_of "Wcash/ZcashAuxPoW/leaf/v2" ++ [Byte.x00].
Definition MINER_ROOT_START : nat := length MERGED_MINING_MARKER.
Definition MINER_ROOT_END : nat := MINER_ROOT_START + 32.
Definition MINER_TREE_SIZE_END : nat := MINER_ROOT_END + 4.
Definition MINER_DATA_COMMITMENT_BYTES : nat := 44.

(** [auxiliary_leaf_for_chain] and [auxiliary_leaf]. *)
Definition auxiliary_leaf_for_chain (chain_id : Z) (block_hash : list byte) : list byte :=
  sha256 (sha256 (AUXILIARY_LEAF_DOMAIN ++ to_le 4 chain_id ++ block_hash)).
Definition auxiliary_leaf (auxiliary_block_hash : list byte) : list byte :=
  auxiliary_leaf_for_chain WCASH_AUXILIARY_CHAIN_ID auxiliary_block_hash.

(** [check_auxiliary_position]. *)
Definition check_auxiliary_position (branch : list (list byte)) (index nonce : Z) :
    outcome AuxPowError unit :=
  let? tree_size := auxiliary_tree_size (len branch) in
  if index >=? tree_size then Err (MerkleIndexOutOfRange "auxiliary" index tree_size)
  else
    let? expected := expected_auxiliary_index nonce (len branch) in
    if negb (index =? expected) then Err (AuxiliaryIndexMismatch index expected) else Ok tt.

(** [miner_data_commitment]. *)
Definition miner_data_commitment (auxiliary_block_hash : list byte)
    (auxiliary_branch : list (list byte)) (auxiliary_index nonce : Z) :
    outcome AuxPowError (list byte) :=
  do? check_auxiliary_position auxiliary_branch auxiliary_index nonce in
  let? tree_size := auxiliary_tree_size (len auxiliary_branch) in
  let? root := sha256d_merkle_root (auxiliary_leaf auxiliary_block_hash) auxiliary_branch auxiliary_index in
  let root := reverse root in
  Ok (MERGED_MINING_MARKER ++ root ++ to_le 4 tree_size ++ to_le 4 nonce).

(** [commitment_payload]. *)
Definition commitment_payload (auxiliary_block_hash : list byte)
    (auxiliary_branch : list (list byte)) (auxiliary_index nonce : Z) :
    outcome AuxPowError (list byte) :=
  miner_data_commitment auxiliary_block_hash auxiliary_branch auxiliary_index nonce.

(** [struct ValidatedCommitment]. *)
Record ValidatedCommitment := mkValidatedCommitment {
  auxiliary_root : list byte;
  tree_size : Z;
  nonce : Z;
  auxiliary_index : Z;
}.

(** [slice::windows]. *)
Fixpoint windows (size : nat) (l : list byte) : list (list byte) :=
  match l with
  | [] => []
  | _ :: tail => if (size <=? length l)%nat then take size l :: windows size tail else []
  end.

(** [count_markers]. *)
Definition count_markers (bytes : list byte) : nat :=
  length (filter (fun window => window = MERGED_MINING_MARKER)
    (windows (length MERGED_MINING_MARKER) bytes)).

(** [validate_miner_data_carrier]. *)
Definition validate_miner_data_carrier (carrier auxiliary_block_hash : list byte)
    (auxiliary_branch : list (list byte)) (auxiliary_index : Z) :
    outcome AuxPowError ValidatedCommitment :=
  do? assert_that (length carrier =? MINER_DATA_COMMITMENT_BYTES)%nat in
  let committed_tree_size := of_le (slice MINER_ROOT_END MINER_TREE_SIZE_END carrier) in
  let nonce := of_le (drop MINER_TREE_SIZE_END carrier) in
  do? check_auxiliary_position auxiliary_branch auxiliary_index nonce in
  let? expected_tree_size := auxiliary_tree_size (len auxiliary_branch) in
  if negb (committed_tree_size =? expected_tree_size) then
    Err (AuxiliaryTreeSizeMismatch committed_tree_size expected_tree_size)
  else
    let? auxiliary_root :=
      sha256d_merkle_root (auxiliary_leaf auxiliary_block_hash) auxiliary_branch auxiliary_index in
    let committed_root := reverse (slice MINER_ROOT_START MINER_ROOT_END carrier) in
    if negb (bool_decide (committed_root = auxiliary_root)) then Err AuxiliaryRootMismatch
    else Ok (mkValidatedCommitment auxiliary_root expected_tree_size nonce auxiliary_index).

(** [validate_miner_data_commitment]. *)
Definition validate_miner_data_commitment (miner_data auxiliary_block_hash : list byte)
    (auxiliary_branch : list (list byte)) (auxiliary_index : Z) :
    outcome AuxPowError ValidatedCommitment :=
  if len auxiliary_branch >? MAX_AUXILIARY_BRANCH_DEPTH then
    Err (BranchTooLong "auxiliary" (len auxiliary_branch) MAX_AUXILIARY_BRANCH_DEPTH)
  else
    match count_markers miner_data with
    | O => Err MissingMinerDataCommitment
    | 1%nat =>
        let carrier := drop (length miner_data - MINER_DATA_COMMITMENT_BYTES) miner_data in
        if negb (length carrier =? MINER_DATA_COMMITMENT_BYTES)%nat then
          Err CommitmentNotMinerDataSuffix
        else if negb (bool_decide (take MINER_ROOT_START carrier = MERGED_MINING_MARKER)) then
          Err CommitmentNotMinerDataSuffix
        else
          validate_miner_data_carrier carrier auxiliary_block_hash auxiliary_branch auxiliary_index
    | _ => Err DuplicateCommitmentMarker
    end.
End Commitment.
End Commitment.

(** ** The target comparison *)

Section TargetLemmas.

Lemma lor_shiftl a b n : 0 <= n -> 0 <= a < 2 ^ n -> Z.lor a (Z.shiftl b n) = a + b * 2 ^ n.
Proof.
  intros Hn Ha. rewrite <- Z.shiftl_mul_pow2 by done. symmetry. apply Z.add_nocarry_lor.
  destruct (Z.eq_dec a 0) as [->|]; [done|].
  apply Z.bits_inj'. intros i Hi. rewrite Z.land_spec, Z.bits_0.
  destruct (Z.ltb_spec i n).
  - by rewrite Z.shiftl_spec_low, andb_false_r by done.
  - rewrite (Z.bits_above_log2 a i), andb_false_l; [done|lia|].
    apply Z.lt_le_trans with n; [|done]. apply Z.log2_lt_pow2; lia.
Qed.

Lemma of_le_snoc l b : of_le (l ++ [b]) = of_le l + of_le [b] * 2 ^ (8 * len l).
Proof.
  rewrite le_combine_app, Z.mul_comm. apply lor_shiftl; [lia|]. rewrite Z.mul_comm.
  pose proof (of_le_bound l). by rewrite Z.mul_comm.
Qed.

Lemma of_le_nil : of_le [] = 0.
Proof. done. Qed.

(** The loop compares the low bytes as little-endian numbers. *)
Lemma compare_down_le n hash target :
  (n <= length hash)%nat -> (n <= length target)%nat ->
  Target.compare_down n hash target = (of_le (take n hash) <=? of_le (take n target)).
Proof.
  induction n as [|n IH]; intros Hh Ht; [done|].
  assert (forall l : list byte, (S n <= length l)%nat ->
    of_le (take (S n) l) = of_le (take n l) + of_le [nth n l Byte.x00] * 2 ^ (8 * Z.of_nat n)) as Hsnoc.
  { intros l Hl. rewrite (take_S_r l n (nth n l Byte.x00)).
    - rewrite of_le_snoc, length_take_le by lia. done.
    - rewrite nth_lookup. destruct (lookup_lt_is_Some_2 l n) as [x ->]; [lia|done]. }
  cbn [Target.compare_down]. rewrite !Hsnoc, IH by lia.
  pose proof (of_le_bound (take n hash)) as H1. pose proof (of_le_bound (take n target)) as H2.
  rewrite length_take_le in H1, H2 by lia.
  set (h := of_le [nth n hash Byte.x00]). set (t := of_le [nth n target Byte.x00]).
  assert (0 < 2 ^ (8 * Z.of_nat n)) by lia.
  destruct (Z.ltb_spec h t); [symmetry; apply Z.leb_le; nia|].
  destruct (Z.gtb_spec h t); [symmetry; apply Z.leb_gt; nia|].
  assert (h = t) as -> by lia. apply eq_true_iff_eq. rewrite !Z.leb_le. lia.
Qed.

Lemma of_le_zero n bs : length bs = n -> of_le bs = 0 <-> bs = replicate n Byte.x00.
Proof.
  intros <-. assert (of_le (replicate (length bs) Byte.x00) = 0) as Hz.
  { clear. induction (length bs) as [|n IH]; [done|]. 
    change (replicate (S n) Byte.x00) with ([Byte.x00] ++ replicate n Byte.x00).
    by rewrite le_combine_app, IH. }
  split; [|by intros ->]. intros H. apply le_combine_inj; [by rewrite length_replicate|].
  by rewrite H, Hz.
Qed.

(** The byte-by-byte target comparison of the AuxPoW crate is the order
    of the 256-bit little-endian numbers: a hash meets a target exactly when
    it is at most the target.  A target is accepted exactly when it is not
    zero, and [includes] is a total order on targets. *)
Theorem target_comparison_exact (target hash : list byte) :
  length target = 32%nat -> length hash = 32%nat ->
  Target.is_met_by_le_hash target hash = (of_le hash <=? of_le target) /\
  (Target.from_le_bytes target = Ok target <-> 0 < of_le target) /\
  (Target.includes target hash = false -> Target.includes hash target = true).
Proof.
  intros Ht Hh. unfold Target.includes, Target.is_met_by_le_hash.
  rewrite !compare_down_le, !take_ge by lia. split_and!.
  - done.
  - unfold Target.from_le_bytes. pose proof (of_le_bound target). pose proof (of_le_zero 32 target Ht).
    case_bool_decide as Hz; split; try done.
    + intros. apply H0 in Hz. lia.
    + intros _. destruct (Z.eq_dec (of_le target) 0) as [E|]; [by apply H0 in E|lia].
  - rewrite Z.leb_gt, Z.leb_le. lia.
Qed.
End TargetLemmas.

(** The example of the unit test: a target of 256 and the hash 255. *)
Lemma target_comparison_exact_witness :
  Target.is_met_by_le_hash (Byte.x00 :: Byte.x01 :: replicate 30 Byte.x00)
    (Byte.xff :: replicate 31 Byte.x00) = (255 <=? 256).
Proof.
  apply (target_comparison_exact (Byte.x00 :: Byte.x01 :: replicate 30 Byte.x00)
    (Byte.xff :: replicate 31 Byte.x00)); reflexivity.
Defined.

(** ** The auxiliary slot and Merkle indices *)

Section SlotLemmas.
Import Merkle.

Lemma wrap_u_cong w d x : 0 <= d <= w -> exists k, wrap_u w x = x + k * 2 ^ d.
Proof.
  intros Hd. unfold wrap_u. exists (- (x / 2 ^ w) * 2 ^ (w - d)).
  rewrite <- Z.mul_assoc, <- Z.pow_add_r by lia. replace (w - d + d) with w by lia.
  rewrite Z.mod_eq by lia. lia.
Qed.

Lemma auxiliary_tree_size_Ok depth :
  0 <= depth <= MAX_AUXILIARY_BRANCH_DEPTH -> auxiliary_tree_size depth = Ok (2 ^ depth).
Proof.
  unfold MAX_AUXILIARY_BRANCH_DEPTH. intros Hd. unfold auxiliary_tree_size, MAX_AUXILIARY_BRANCH_DEPTH.
  destruct (Z.gtb_spec depth 16); [lia|]. destruct (Z.geb_spec depth 32); [lia|]. simpl.
  by rewrite Z.shiftl_1_l.
Qed.

(** The slot as one affine map of the nonce, without the 32-bit wrap-around. *)
Definition slot (nonce depth : Z) : Z :=
  ((nonce * 1103515245 + 12345 + WCASH_AUXILIARY_CHAIN_ID) * 1103515245 + 12345) mod 2 ^ depth.

Lemma expected_auxiliary_index_slot nonce depth :
  0 <= depth <= MAX_AUXILIARY_BRANCH_DEPTH -> expected_auxiliary_index nonce depth = Ok (slot nonce depth).
Proof.
  intros Hd. unfold expected_auxiliary_index. rewrite auxiliary_tree_size_Ok by done.
  cbn [obind]. f_equal. unfold slot, MAX_AUXILIARY_BRANCH_DEPTH in *.
  set (A := 1103515245). set (C := 12345). set (I := WCASH_AUXILIARY_CHAIN_ID).
  destruct (wrap_u_cong 32 depth (nonce * A)) as [k1 ->]; [lia|].
  destruct (wrap_u_cong 32 depth (nonce * A + k1 * 2 ^ depth + C)) as [k2 ->]; [lia|].
  destruct (wrap_u_cong 32 depth (nonce * A + k1 * 2 ^ depth + C + k2 * 2 ^ depth + I)) as [k3 ->]; [lia|].
  match goal with |- context [wrap_u 32 (?x * A)] => destruct (wrap_u_cong 32 depth (x * A)) as [k4 ->]; [lia|] end.
  match goal with |- context [wrap_u 32 ?x] => destruct (wrap_u_cong 32 depth x) as [k5 ->]; [lia|] end.
  rewrite <- (Z.mod_add ((nonce * A + C + I) * A + C) ((k1 + k2 + k3) * A + k4 + k5)) by lia.
  f_equal. ring.
Qed.

Lemma slot_range nonce depth : 0 <= depth -> 0 <= slot nonce depth < 2 ^ depth.
Proof. intros. apply Z.mod_pos_bound. lia. Qed.

(** The inverse of the multiplier's square modulo 2^32. *)
Definition SLOT_INVERSE : Z := 3698103769.

(** The nonce of a slot. *)
Definition nonce_of_slot (i depth : Z) : Z :=
  ((i - (12345 + WCASH_AUXILIARY_CHAIN_ID) * 1103515245 - 12345) * SLOT_INVERSE) mod 2 ^ depth.

Lemma slot_inverse_mod depth :
  0 <= depth <= 32 -> exists k, 1103515245 * 1103515245 * SLOT_INVERSE = 1 + k * 2 ^ depth.
Proof.
  intros Hd. exists (1048518039166787369 * 2 ^ (32 - depth)).
  transitivity (1 + 1048518039166787369 * 2 ^ (32 - depth + depth)).
  - by replace (32 - depth + depth) with 32 by lia.
  - rewrite Z.pow_add_r by lia. ring.
Qed.

Lemma slot_nonce_of_slot i depth :
  0 <= depth <= 32 -> 0 <= i < 2 ^ depth -> slot (nonce_of_slot i depth) depth = i.
Proof.
  intros Hd Hi. unfold slot, nonce_of_slot. destruct (slot_inverse_mod depth Hd) as [k Hk].
  set (A := 1103515245) in *. set (C := 12345). set (I := WCASH_AUXILIARY_CHAIN_ID).
  set (X := (i - (C + I) * A - C) * SLOT_INVERSE). rewrite (Z.mod_eq X) by lia.
  set (q := X / 2 ^ depth). unfold X.
  rewrite <- (Z.mod_small i (2 ^ depth)) at 2 by done.
  rewrite <- (Z.mod_add i ((i - (C + I) * A - C) * k - q * A * A) (2 ^ depth)) by lia.
  f_equal. set (P := 2 ^ depth) in *.
  transitivity ((i - (C + I) * A - C) * (A * A * SLOT_INVERSE) - P * q * A * A + (C + I) * A + C); [ring|].
  rewrite Hk. ring.
Qed.

Lemma nonce_of_slot_slot n depth :
  0 <= depth <= 32 -> 0 <= n < 2 ^ depth -> nonce_of_slot (slot n depth) depth = n.
Proof.
  intros Hd Hn. unfold slot, nonce_of_slot. destruct (slot_inverse_mod depth Hd) as [k Hk].
  set (A := 1103515245) in *. set (C := 12345). set (I := WCASH_AUXILIARY_CHAIN_ID).
  set (X := (n * A + C + I) * A + C). rewrite (Z.mod_eq X) by lia.
  set (q := X / 2 ^ depth). unfold X.
  rewrite <- (Z.mod_small n (2 ^ depth)) at 2 by done.
  rewrite <- (Z.mod_add n (n * k - q * SLOT_INVERSE) (2 ^ depth)) by lia.
  f_equal. set (P := 2 ^ depth) in *.
  transitivity (n * (A * A * SLOT_INVERSE) - P * q * SLOT_INVERSE); [ring|].
  rewrite Hk. ring.
Qed.

(** The auxiliary slot of a nonce lies in the tree and every slot has
    exactly one nonce below the tree size: [expected_auxiliary_index] is a
    permutation of the slots, in spite of its wrapping 32-bit arithmetic.  A
    branch deeper than [MAX_AUXILIARY_BRANCH_DEPTH] is an error. *)
Theorem auxiliary_slots_permuted (depth : Z) :
  0 <= depth ->
  (depth <= MAX_AUXILIARY_BRANCH_DEPTH ->
   (forall nonce, exists i, expected_auxiliary_index nonce depth = Ok i /\ 0 <= i < 2 ^ depth) /\
   (forall i, 0 <= i < 2 ^ depth -> exists nonce, 0 <= nonce < 2 ^ depth /\
      forall n, 0 <= n < 2 ^ depth -> expected_auxiliary_index n depth = Ok i <-> n = nonce)) /\
  (MAX_AUXILIARY_BRANCH_DEPTH < depth -> forall nonce,
   expected_auxiliary_index nonce depth = Err (AuxiliaryTreeDepthTooLarge depth)).
Proof.
  intros H0. split; [intros Hd; split|intros Hd nonce].
  - intros nonce. rewrite expected_auxiliary_index_slot by done. eexists. split; [done|].
    by apply slot_range.
  - unfold MAX_AUXILIARY_BRANCH_DEPTH in Hd. intros i Hi. exists (nonce_of_slot i depth).
    split; [apply Z.mod_pos_bound; lia|]. intros n Hn.
    rewrite expected_auxiliary_index_slot by (unfold MAX_AUXILIARY_BRANCH_DEPTH; lia). split.
    + intros [= <-]. by rewrite nonce_of_slot_slot by lia.
    + intros ->. by rewrite slot_nonce_of_slot by lia.
  - unfold expected_auxiliary_index, auxiliary_tree_size.
    destruct (Z.gtb_spec depth MAX_AUXILIARY_BRANCH_DEPTH); [done|lia].
Qed.
End SlotLemmas.

(** The two slots of the unit test. *)
Lemma auxiliary_slots_permuted_witness :
  Merkle.expected_auxiliary_index 7 3 = Ok 4 /\
  Merkle.expected_auxiliary_index U32_MAX 16 = Ok 38508 /\
  exists nonce, 0 <= nonce < 2 ^ 16 /\ forall n, 0 <= n < 2 ^ 16 ->
    Merkle.expected_auxiliary_index n 16 = Ok 38508 <-> n = nonce.
Proof.
  split; [reflexivity|]. split; [reflexivity|].
  destruct (auxiliary_slots_permuted 16) as [H _]; [lia|].
  apply H; by_eval.
Defined.

(** ** Merkle paths bind their leaves *)

(** [H] maps an input of the first list and a different one of the second to
    the same digest. *)
Definition collision (H : list byte -> list byte) (inputs1 inputs2 : list (list byte)) : Prop :=
  exists a b, a ∈ inputs1 /\ b ∈ inputs2 /\ a <> b /\ H a = H b.

Section MerkleLemmas.
Import Merkle.
Context (H : list byte -> list byte) (Hlen : forall bs, length (H bs) = 32%nat).
Let pair left right := H (left ++ right).

(** The strings hashed on the way up a branch. *)
Fixpoint climb_inputs (leaf : list byte) (branch : list (list byte)) (index : Z) : list (list byte) :=
  match branch with
  | [] => []
  | sibling :: branch =>
      let input := if Z.land index 1 =? 0 then leaf ++ sibling else sibling ++ leaf in
      input :: climb_inputs (H input) branch (Z.shiftr index 1)
  end.

Lemma climb_index f leaf branch index :
  0 <= index -> snd (climb f leaf branch index) = Z.shiftr index (len branch).
Proof.
  revert leaf index. induction branch as [|s branch IH]; intros leaf index Hi; [done|].
  cbn [climb length]. rewrite IH by (by apply Z.shiftr_nonneg).
  rewrite Z.shiftr_shiftr by lia. f_equal. lia.
Qed.

Lemma climb_length leaf branch index :
  length leaf = 32%nat -> length (fst (climb pair leaf branch index)) = 32%nat.
Proof.
  revert leaf index. induction branch as [|s branch IH]; intros leaf index Hl; [done|].
  cbn [climb]. apply IH. unfold pair. destruct (_ =? _); apply Hlen.
Qed.

Lemma app_inj_lengths {A} (a b c d : list A) :
  length a = length c -> a ++ b = c ++ d -> a = c /\ b = d.
Proof. intros. by apply app_inj_1. Qed.

(** Two paths of the same depth and index that reach the same root have the
    same leaf and siblings, or hash two different strings to one digest. *)
Lemma climb_binding leaf1 leaf2 branch1 branch2 index :
  length branch1 = length branch2 ->
  length leaf1 = 32%nat -> length leaf2 = 32%nat ->
  Forall (fun s => length s = 32%nat) branch1 -> Forall (fun s => length s = 32%nat) branch2 ->
  fst (climb pair leaf1 branch1 index) = fst (climb pair leaf2 branch2 index) ->
  leaf1 = leaf2 /\ branch1 = branch2 \/
  collision H (climb_inputs leaf1 branch1 index) (climb_inputs leaf2 branch2 index).
Proof.
  revert leaf1 leaf2 branch2 index.
  induction branch1 as [|s1 branch1 IH]; intros leaf1 leaf2 [|s2 branch2] index Hb Hl1 Hl2 F1 F2 E;
    try done; [by left|].
  inversion_clear F1. inversion_clear F2. cbn [climb] in E. cbn [climb_inputs].
  set (i1 := if Z.land index 1 =? 0 then leaf1 ++ s1 else s1 ++ leaf1).
  set (i2 := if Z.land index 1 =? 0 then leaf2 ++ s2 else s2 ++ leaf2).
  assert (forall l s, (if Z.land index 1 =? 0 then pair l s else pair s l) =
    H (if Z.land index 1 =? 0 then l ++ s else s ++ l)) as Hp by (intros; by destruct (_ =? _)).
  rewrite !Hp in E. fold i1 i2 in E.
  destruct (IH (H i1) (H i2) branch2 (Z.shiftr index 1)) as [[Ei ->]|(a & b & Ha & Hb' & Hne & Hab)];
    auto.
  - destruct (decide (i1 = i2)) as [Hi|Hi].
    + left. unfold i1, i2 in Hi. destruct (_ =? _); apply app_inj_1 in Hi as [-> ->]; auto; congruence.
    + right. exists i1, i2. repeat split; [by left|by left|done|done].
  - right. exists a, b. repeat split; [by right|by right|done|done].
Qed.

Lemma collision_mono qs1 qs2 qs1' qs2' :
  qs1 ⊆ qs1' -> qs2 ⊆ qs2' -> collision H qs1 qs2 -> collision H qs1' qs2'.
Proof. intros H1 H2 (a & b & Ha & Hb & ?). exists a, b. split; [by apply H1|split; [by apply H2|done]]. Qed.
End MerkleLemmas.

Section Roots.
Import Merkle.
Context `{Hashes}.

Lemma shiftr_zero i n : 0 <= i -> 0 <= n -> Z.shiftr i n = 0 <-> i < 2 ^ n.
Proof.
  intros Hi Hn. rewrite Z.shiftr_div_pow2 by done. rewrite Z.div_small_iff by lia. lia.
Qed.

(** A root is computed exactly for an index inside the tree of a bounded branch. *)
Lemma sha256d_merkle_root_Ok leaf branch index root :
  0 <= index ->
  sha256d_merkle_root leaf branch index = Ok root <->
  len branch <= MAX_PARENT_BRANCH_DEPTH /\ index < 2 ^ len branch /\
  root = fst (climb sha256d_pair leaf branch index).
Proof.
  intros Hi. unfold sha256d_merkle_root.
  destruct (Z.gtb_spec (len branch) MAX_PARENT_BRANCH_DEPTH); [split; [done|lia]|].
  pose proof (climb_index sha256d_pair leaf branch index Hi) as Hs.
  destruct (climb _ _ _ _) as [node left]. simpl in Hs |- *. subst left.
  rewrite <- (shiftr_zero index (len branch)) by lia.
  destruct (Z.eqb_spec (Z.shiftr index (len branch)) 0); simpl; naive_solver.
Qed.

Lemma auth_data_merkle_root_Ok leaf branch index root :
  0 <= index ->
  auth_data_merkle_root leaf branch index = Ok root <->
  len branch <= MAX_AUTH_DATA_BRANCH_DEPTH /\ index < 2 ^ len branch /\
  root = fst (climb auth_data_hash leaf branch index).
Proof.
  intros Hi. unfold auth_data_merkle_root.
  destruct (Z.gtb_spec (len branch) MAX_AUTH_DATA_BRANCH_DEPTH); [split; [done|lia]|].
  pose proof (climb_index auth_data_hash leaf branch index Hi) as Hs.
  destruct (climb _ _ _ _) as [node left]. simpl in Hs |- *. subst left.
  rewrite <- (shiftr_zero index (len branch)) by lia.
  destruct (Z.eqb_spec (Z.shiftr index (len branch)) 0); simpl; naive_solver.
Qed.

Lemma sha256d_length bs : length (sha256d bs) = 32%nat.
Proof. apply sha256_length. Qed.
End Roots.

(** ** Commitments *)

Section CommitmentLemmas.
Import Merkle Commitment.
Context `{Hashes}.

Lemma length_marker : length MERGED_MINING_MARKER = 4%nat.
Proof. done. Qed.

(** The four fields of a carrier. *)
Lemma carrier_split (carrier : list byte) :
  length carrier = MINER_DATA_COMMITMENT_BYTES ->
  carrier = take MINER_ROOT_START carrier ++ slice MINER_ROOT_START MINER_ROOT_END carrier ++
    slice MINER_ROOT_END MINER_TREE_SIZE_END carrier ++ drop MINER_TREE_SIZE_END carrier /\
  length (slice MINER_ROOT_START MINER_ROOT_END carrier) = 32%nat /\
  length (slice MINER_ROOT_END MINER_TREE_SIZE_END carrier) = 4%nat /\
  length (drop MINER_TREE_SIZE_END carrier) = 4%nat.
Proof.
  unfold MINER_DATA_COMMITMENT_BYTES, MINER_TREE_SIZE_END, MINER_ROOT_END, MINER_ROOT_START, slice.
  rewrite length_marker. intros Hl. split_and!.
  - rewrite <- (take_drop 4 carrier) at 1. f_equal.
    rewrite <- (take_drop 32 (drop 4 carrier)) at 1. f_equal. rewrite drop_drop.
    rewrite <- (take_drop 4 (drop (4 + 32) carrier)) at 1. by rewrite drop_drop.
  - rewrite length_take, length_drop. lia.
  - rewrite length_take, length_drop. lia.
  - rewrite length_drop. lia.
Qed.

Lemma carrier_fields (marker root size nonce : list byte) :
  length marker = 4%nat -> length root = 32%nat -> length size = 4%nat ->
  let carrier := marker ++ root ++ size ++ nonce in
  take MINER_ROOT_START carrier = marker /\
  slice MINER_ROOT_START MINER_ROOT_END carrier = root /\
  slice MINER_ROOT_END MINER_TREE_SIZE_END carrier = size /\
  drop MINER_TREE_SIZE_END carrier = nonce.
Proof.
  intros Hm Hr Hs. unfold slice, MINER_TREE_SIZE_END, MINER_ROOT_END, MINER_ROOT_START.
  rewrite length_marker. cbv zeta. split_and!.
  - by apply take_app_length'.
  - rewrite drop_app_length' by done. by apply take_app_length'.
  - rewrite app_assoc, drop_app_length' by (rewrite length_app; lia). by apply take_app_length'.
  - rewrite !app_assoc. apply drop_app_length'. rewrite !length_app. lia.
Qed.

Lemma check_auxiliary_position_Ok branch index nonce u :
  check_auxiliary_position branch index nonce = Ok u <->
  len branch <= MAX_AUXILIARY_BRANCH_DEPTH /\ index = slot nonce (len branch).
Proof.
  unfold check_auxiliary_position. split.
  - intros Hc. apply obind_Ok in Hc as (size & Hs & Hc).
    unfold auxiliary_tree_size in Hs.
    destruct (Z.gtb_spec (len branch) MAX_AUXILIARY_BRANCH_DEPTH); [done|]. split; [done|].
    clear Hs. case_match; [done|]. rewrite expected_auxiliary_index_slot in Hc by lia.
    cbn [obind] in Hc. destruct (Z.eqb_spec index (slot nonce (len branch))); done.
  - intros [Hd ->]. rewrite auxiliary_tree_size_Ok by lia. cbn [obind].
    pose proof (slot_range nonce (len branch)).
    destruct (Z.geb_spec (slot nonce (len branch)) (2 ^ len branch)); [lia|].
    rewrite expected_auxiliary_index_slot by lia. cbn [obind]. rewrite Z.eqb_refl. by destruct u.
Qed.

(** The digest of a Wcash block at its slot. *)
Definition committed_root (block_hash : list byte) (branch : list (list byte)) (index : Z) : list byte :=
  fst (climb sha256d_pair (auxiliary_leaf block_hash) branch index).

Lemma committed_root_length block_hash branch index :
  length (committed_root block_hash branch index) = 32%nat.
Proof. apply (climb_length sha256d sha256d_length). apply sha256_length. Qed.

Lemma slot_nonneg nonce (branch : list (list byte)) : 0 <= slot nonce (len branch) < 2 ^ len branch.
Proof. apply slot_range. lia. Qed.

Lemma aux_root_Ok block_hash branch nonce :
  len branch <= MAX_AUXILIARY_BRANCH_DEPTH ->
  sha256d_merkle_root (auxiliary_leaf block_hash) branch (slot nonce (len branch)) =
  Ok (committed_root block_hash branch (slot nonce (len branch))).
Proof.
  intros Hd. pose proof (slot_nonneg nonce branch). apply sha256d_merkle_root_Ok; [lia|].
  unfold MAX_AUXILIARY_BRANCH_DEPTH, MAX_PARENT_BRANCH_DEPTH in *. split; [lia|]. split; [lia|done].
Qed.

Lemma miner_data_commitment_Ok block_hash branch index nonce payload :
  miner_data_commitment block_hash branch index nonce = Ok payload <->
  len branch <= MAX_AUXILIARY_BRANCH_DEPTH /\ index = slot nonce (len branch) /\
  payload = MERGED_MINING_MARKER ++ reverse (committed_root block_hash branch index) ++
    to_le 4 (2 ^ len branch) ++ to_le 4 nonce.
Proof.
  unfold miner_data_commitment. split.
  - intros Hm. apply obind_Ok in Hm as (u & Hc & Hm).
    apply check_auxiliary_position_Ok in Hc as [Hd ->].
    rewrite auxiliary_tree_size_Ok, aux_root_Ok in Hm by lia. by injection Hm as <-.
  - intros (Hd & -> & ->). rewrite (proj2 (check_auxiliary_position_Ok _ _ _ tt)) by done.
    by rewrite auxiliary_tree_size_Ok, aux_root_Ok by lia.
Qed.

(** What an accepted carrier contains. *)
Lemma validate_miner_data_carrier_Ok carrier block_hash branch index v :
  length carrier = MINER_DATA_COMMITMENT_BYTES ->
  take MINER_ROOT_START carrier = MERGED_MINING_MARKER ->
  validate_miner_data_carrier carrier block_hash branch index = Ok v <->
  0 <= Commitment.nonce v <= U32_MAX /\
  miner_data_commitment block_hash branch index (Commitment.nonce v) = Ok carrier /\
  v = mkValidatedCommitment (committed_root block_hash branch index) (2 ^ len branch)
    (Commitment.nonce v) index.
Proof.
  intros Hl Hm. destruct (carrier_split carrier Hl) as (Hsplit & Hr & Hs & Hn).
  rewrite miner_data_commitment_Ok. unfold validate_miner_data_carrier.
  rewrite (proj2 (Nat.eqb_eq _ _) Hl). cbn [assert_that obind].
  set (R := slice MINER_ROOT_START MINER_ROOT_END carrier) in *.
  set (T := slice MINER_ROOT_END MINER_TREE_SIZE_END carrier) in *.
  set (N := drop MINER_TREE_SIZE_END carrier) in *.
  split.
  - intros Hv. apply obind_Ok in Hv as (u & Hc & Hv).
    apply check_auxiliary_position_Ok in Hc as [Hd ->].
    rewrite auxiliary_tree_size_Ok, aux_root_Ok in Hv by lia. cbn [obind] in Hv.
    destruct (Z.eqb_spec (of_le T) (2 ^ len branch)) as [HT|]; [|done]. cbn [negb] in Hv.
    case_bool_decide as HR; [|done]. injection Hv as <-. cbn [Commitment.nonce].
    pose proof (of_le_bound N) as HN. rewrite Hn in HN. split_and!; [lia|bool_lia|done|done| |done].
    rewrite Hsplit, Hm, <- HT, <- HR, reverse_involutive, !to_of_le by done. done.
  - intros (HN & (Hd & -> & Hc) & ->). cbn [Commitment.nonce] in *. set (nonce := Commitment.nonce v) in *.
    pose proof (carrier_fields MERGED_MINING_MARKER
      (reverse (committed_root block_hash branch (slot nonce (len branch))))
      (to_le 4 (2 ^ len branch)) (to_le 4 nonce)) as (_ & ER & ET & EN);
      [done|by rewrite length_reverse, committed_root_length|apply length_le_split|].
    rewrite <- Hc in ER, ET, EN. fold R T N in ER, ET, EN. rewrite ER, ET, EN.
    unfold MAX_AUXILIARY_BRANCH_DEPTH in Hd.
    assert (0 < 2 ^ len branch <= 2 ^ 16) by (apply pow_pos_le; lia).
    rewrite !of_to_le by (change (2 ^ (8 * Z.of_nat 4)) with (2 ^ 32); bool_lia).
    rewrite (proj2 (check_auxiliary_position_Ok _ _ _ tt)) by done. cbn [obind].
    rewrite auxiliary_tree_size_Ok, aux_root_Ok by (unfold MAX_AUXILIARY_BRANCH_DEPTH; lia). cbn [obind].
    by rewrite Z.eqb_refl, reverse_involutive, bool_decide_eq_true_2.
Qed.

Lemma carrier_suffix (miner_data prefix payload : list byte) :
  length payload = MINER_DATA_COMMITMENT_BYTES -> miner_data = prefix ++ payload ->
  drop (length miner_data - MINER_DATA_COMMITMENT_BYTES) miner_data = payload.
Proof. intros Hl ->. apply drop_app_length'. rewrite length_app. lia. Qed.

Lemma miner_data_commitment_length block_hash branch index nonce payload :
  miner_data_commitment block_hash branch index nonce = Ok payload ->
  length payload = MINER_DATA_COMMITMENT_BYTES /\ take MINER_ROOT_START payload = MERGED_MINING_MARKER.
Proof.
  intros Hp. apply miner_data_commitment_Ok in Hp as (_ & _ & ->).
  rewrite !length_app, length_reverse, committed_root_length, !length_le_split. done.
Qed.

Lemma validate_miner_data_commitment_Ok miner_data block_hash branch index v :
  validate_miner_data_commitment miner_data block_hash branch index = Ok v <->
  count_markers miner_data = 1%nat /\ 0 <= Commitment.nonce v <= U32_MAX /\
  v = mkValidatedCommitment (committed_root block_hash branch index) (2 ^ len branch)
    (Commitment.nonce v) index /\
  exists prefix payload,
    miner_data_commitment block_hash branch index (Commitment.nonce v) = Ok payload /\
    miner_data = prefix ++ payload.
Proof.
  unfold validate_miner_data_commitment.
  set (carrier := drop (length miner_data - MINER_DATA_COMMITMENT_BYTES) miner_data).
  split.
  - destruct (Z.gtb_spec (len branch) MAX_AUXILIARY_BRANCH_DEPTH); [done|].
    destruct (count_markers miner_data) as [|[|]]; [done| |done].
    destruct (Nat.eqb_spec (length carrier) MINER_DATA_COMMITMENT_BYTES) as [Hl|]; [|done].
    cbn [negb]. case_bool_decide as Hm; [|done]. cbn [negb]. intros Hv.
    apply validate_miner_data_carrier_Ok in Hv as (Hn & Hp & Hv); [|done|done].
    split_and!; [done|lia|lia|done|].
    exists (take (length miner_data - MINER_DATA_COMMITMENT_BYTES) miner_data), carrier.
    split; [done|]. symmetry. apply take_drop.
  - intros (-> & Hn & Hv & prefix & payload & Hp & Hmd).
    destruct (miner_data_commitment_length _ _ _ _ _ Hp) as [Hl Hm].
    assert (carrier = payload) as -> by by eapply carrier_suffix.
    assert (len branch <= MAX_AUXILIARY_BRANCH_DEPTH) by (apply miner_data_commitment_Ok in Hp; tauto).
    destruct (Z.gtb_spec (len branch) MAX_AUXILIARY_BRANCH_DEPTH); [lia|].
    rewrite (proj2 (Nat.eqb_eq _ _) Hl), bool_decide_eq_true_2 by done. cbn [negb].
    by apply validate_miner_data_carrier_Ok.
Qed.

Lemma check_auxiliary_position_returns branch index nonce :
  returns (check_auxiliary_position branch index nonce).
Proof.
  unfold check_auxiliary_position, expected_auxiliary_index, auxiliary_tree_size.
  repeat (case_match || cbn [obind]); done.
Qed.

Lemma sha256d_merkle_root_returns leaf branch index :
  returns (sha256d_merkle_root leaf branch index).
Proof. unfold sha256d_merkle_root. repeat case_match; done. Qed.

Lemma validate_returns miner_data block_hash branch index :
  returns (validate_miner_data_commitment miner_data block_hash branch index).
Proof.
  unfold validate_miner_data_commitment. repeat case_match; try done.
  unfold validate_miner_data_carrier.
  match goal with Hc : negb (_ =? _)%nat = false |- _ => apply negb_false_iff in Hc; rewrite Hc end.
  apply returns_bind; [done|intros _ _].
  apply returns_bind; [apply check_auxiliary_position_returns|intros _ _].
  apply returns_bind; [unfold auxiliary_tree_size; by case_match|intros size _].
  case_match; [done|]. apply returns_bind; [apply sha256d_merkle_root_returns|].
  intros root _. by case_match.
Qed.

(** A parent coinbase is accepted for a Wcash block exactly when it
    carries the commitment that the producer makes for it: the validator
    succeeds if and only if the merged-mining marker occurs once and the miner
    data ends with the payload of [commitment_payload] for the same block,
    branch, slot and the returned nonce.  The returned record is determined by
    the payload, and validation of any bytes returns without panic. *)
Theorem commitment_accepted_iff_produced (miner_data block_hash : list byte)
    (branch : list (list byte)) (index : Z) (v : ValidatedCommitment) :
  (validate_miner_data_commitment miner_data block_hash branch index = Ok v <->
   count_markers miner_data = 1%nat /\ 0 <= Commitment.nonce v <= U32_MAX /\
   v = mkValidatedCommitment (committed_root block_hash branch index) (2 ^ len branch)
     (Commitment.nonce v) index /\
   exists prefix payload,
     commitment_payload block_hash branch index (Commitment.nonce v) = Ok payload /\
     miner_data = prefix ++ payload) /\
  returns (validate_miner_data_commitment miner_data block_hash branch index).
Proof. split; [apply validate_miner_data_commitment_Ok|apply validate_returns]. Qed.

(** Every string that the validation of a commitment hashes with SHA-256d. *)
Definition commitment_inputs (block_hash : list byte) (branch : list (list byte)) (index : Z) :
    list (list byte) :=
  (AUXILIARY_LEAF_DOMAIN ++ to_le 4 WCASH_AUXILIARY_CHAIN_ID ++ block_hash) ::
  climb_inputs sha256d (auxiliary_leaf block_hash) branch index.

Lemma committed_root_binding h1 h2 branch1 branch2 index :
  length branch1 = length branch2 ->
  Forall (fun s => length s = 32%nat) branch1 -> Forall (fun s => length s = 32%nat) branch2 ->
  committed_root h1 branch1 index = committed_root h2 branch2 index ->
  h1 = h2 /\ branch1 = branch2 \/
  collision sha256d (commitment_inputs h1 branch1 index) (commitment_inputs h2 branch2 index).
Proof.
  intros Hb F1 F2 E. unfold commitment_inputs.
  set (L1 := AUXILIARY_LEAF_DOMAIN ++ _ ++ h1). set (L2 := AUXILIARY_LEAF_DOMAIN ++ _ ++ h2).
  destruct (climb_binding sha256d sha256d_length (auxiliary_leaf h1) (auxiliary_leaf h2)
    branch1 branch2 index) as [[El ->]|Hc]; try done; try apply sha256_length.
  - destruct (decide (L1 = L2)) as [EL|NL].
    + left. split; [|done]. by apply app_inv_head, app_inv_head in EL.
    + right. exists L1, L2. repeat split; [by left|by left|done|exact El].
  - right. eapply collision_mono; [| |exact Hc]; by right.
Qed.

(** One coinbase authenticates at most one Wcash block.  If the same
    miner data is accepted for two blocks (with any branches and slots), then
    the blocks, branches, slots and results are the same, or the two
    validations hash two different strings to the same SHA-256d digest: the
    colliding pair is among the strings they hash. *)
Lemma commitment_binding (miner_data h1 h2 : list byte) (branch1 branch2 : list (list byte))
    (i1 i2 : Z) (v1 v2 : ValidatedCommitment) :
  Forall (fun s => length s = 32%nat) branch1 -> Forall (fun s => length s = 32%nat) branch2 ->
  validate_miner_data_commitment miner_data h1 branch1 i1 = Ok v1 ->
  validate_miner_data_commitment miner_data h2 branch2 i2 = Ok v2 ->
  (h1 = h2 /\ branch1 = branch2 /\ i1 = i2 /\ v1 = v2) \/
  collision sha256d (commitment_inputs h1 branch1 i1) (commitment_inputs h2 branch2 i2).
Proof.
  intros F1 F2 H1 H2.
  apply validate_miner_data_commitment_Ok in H1 as (_ & Hn1 & Hv1 & p1 & c1 & Hp1 & E1).
  apply validate_miner_data_commitment_Ok in H2 as (_ & Hn2 & Hv2 & p2 & c2 & Hp2 & E2).
  destruct (miner_data_commitment_length _ _ _ _ _ Hp1) as [Hl1 _].
  destruct (miner_data_commitment_length _ _ _ _ _ Hp2) as [Hl2 _].
  assert (c1 = c2) as <-
    by (rewrite <- (carrier_suffix miner_data p1 c1), <- (carrier_suffix miner_data p2 c2) by done; done).
  apply miner_data_commitment_Ok in Hp1 as (Hd1 & Hi1 & Hc1).
  apply miner_data_commitment_Ok in Hp2 as (Hd2 & Hi2 & Hc2).
  rewrite Hc1 in Hc2. apply app_inv_head in Hc2.
  apply app_inj_1 in Hc2 as [Hroot Hc2]; [|by rewrite !length_reverse, !committed_root_length].
  apply app_inj_1 in Hc2 as [Hsize Hnonce]; [|by rewrite !length_le_split].
  apply (f_equal of_le) in Hsize, Hnonce. unfold MAX_AUXILIARY_BRANCH_DEPTH in *.
  assert (0 < 2 ^ len branch1 <= 2 ^ 16) by (apply pow_pos_le; lia).
  assert (0 < 2 ^ len branch2 <= 2 ^ 16) by (apply pow_pos_le; lia).
  rewrite !of_to_le in Hsize, Hnonce by (change (2 ^ (8 * Z.of_nat 4)) with (2 ^ 32); bool_lia).
  apply Z.pow_inj_r in Hsize; [|lia..]. apply (inj reverse) in Hroot.
  rewrite <- Hnonce, <- Hsize, <- Hi1 in Hi2. subst i2.
  destruct (committed_root_binding h1 h2 branch1 branch2 i1) as [[-> ->]|]; try done; [lia| |by right].
  left. rewrite Hv1, Hv2, Hnonce. done.
Qed.
End CommitmentLemmas.

(** ** A concrete instance

    Digests that are the first 32 bytes of the input, enough to evaluate the
    definitions. *)

Definition example_hashes : Hashes := {|
  sha256 bs := to_le 32 (of_le bs);
  blake2b p bs := to_le 32 (of_le (p ++ bs));
  sha256_length bs := length_le_split 32 (of_le bs);
  blake2b_length p bs := length_le_split 32 (of_le (p ++ bs));
|}.

Definition example_block : list byte := replicate 32 Byte.x07.
Definition example_branch : list (list byte) := [replicate 32 Byte.x02; replicate 32 Byte.x03].
Definition example_index : Z := slot 9 2.
Definition example_miner_data : list byte :=
  match Commitment.commitment_payload (H := example_hashes) example_block example_branch example_index 9 with
  | Ok payload => bytes_of "pool/" ++ payload
  | _ => []
  end.
Definition example_commitment : Commitment.ValidatedCommitment :=
  Commitment.mkValidatedCommitment
    (committed_root (H := example_hashes) example_block example_branch example_index) 4 9 example_index.

(** The produced miner data is accepted. *)
Lemma example_commitment_accepted :
  Commitment.validate_miner_data_commitment (H := example_hashes)
    example_miner_data example_block example_branch example_index = Ok example_commitment.
Proof. vm_compute. reflexivity. Qed.
