(* ===== verification/AuxProof.v ===== *)
(** * AuxPoW proofs

    [header.rs], [parent_rules.rs] and [proof.rs] of [wcash-zcash-aux]: the
    parent header parser, the parent transaction domains, the canonical proof
    format and the validation pipeline.

    The two adapters of the pipeline are traits in the source and classes
    here: [CoinbaseVerifier] and [EquihashVerifier].  The pipeline is proved
    for every implementation of them. *)

From S2P Require Import Prelude AuxCodec AuxMerkle.

(** ** Constants *)

Definition PROOF_VERSION : Z := 2.
Definition PROOF_MAGIC : list byte := bytes_of "WCAZ".
Definition MAX_PROOF_BYTES : Z := 256 * 1024.
Definition MAX_COINBASE_BYTES : Z := 128 * 1024.
Definition PARENT_HEADER_BYTES : Z := 4 + 32 * 3 + 4 * 2 + 32 + 3 + 1344.

(** ** [parent_rules.rs] *)

Module ParentCoinbaseRules.

Inductive ParentCoinbaseRules := Legacy | LegacyAndNu7.

#[global] Instance rules_eq_dec : EqDecision ParentCoinbaseRules.
Proof. solve_decision. Defined.

(** [ParentCoinbaseRules::for_candidate_height]. *)
Definition for_candidate_height (candidate_height : Z) (activation_height : option Z) :
    ParentCoinbaseRules :=
  match activation_height with
  | Some activation => if candidate_height >=? activation then LegacyAndNu7 else Legacy
  | None => Legacy
  end.

(** The branch identifiers of the frozen parser. *)
Definition legacy_branches : list Z :=
  [0x00000000; 0x5ba81b19; 0x76b809bb; 0x2bb40e60; 0xf5b9230b; 0xe9ff75a6; 0xc2d6d0b4;
   0xc8e71055; 0x4dec4df0; 0x5437f330; 0x37a5165b; 0xb3cfd27e; 0x54ba2bfb; 0xd9c6a7ee; 0xc3a6678a].

(** [ParentCoinbaseRules::check_branch]. *)
Definition check_branch (self : ParentCoinbaseRules) (branch_id : Z) : outcome AuxPowError unit :=
  let legacy := existsb (Z.eqb branch_id) legacy_branches in
  let allowed := legacy || (bool_decide (self = LegacyAndNu7) && (branch_id =? 0x77190ad9)) in
  if allowed then Ok tt else Err (UnsupportedParentCoinbaseBranch branch_id).
End ParentCoinbaseRules.

(** ** [header.rs] *)

Module ParentHeader.

Definition HEADER_INPUT_BYTES : nat := 4 + 32 * 3 + 4 * 2.
Definition NONCE_BYTES : nat := 32.
Definition SOLUTION_BYTES : nat := 1344.
Definition NONCE_START : nat := HEADER_INPUT_BYTES.
Definition SOLUTION_LENGTH_START : nat := NONCE_START + NONCE_BYTES.
Definition SOLUTION_START : nat := SOLUTION_LENGTH_START + 3.
Definition CANONICAL_SOLUTION_LENGTH : list byte := [Byte.xfd; Byte.x40; Byte.x05].

(** [struct ParentHeader]. *)
Record ParentHeader := mkParentHeader {
  as_bytes : list byte;
  version : Z;
  advertised_n_bits : Z;
}.

(** [ParentHeader::decode]. *)
Definition decode (bytes : list byte) : outcome AuxPowError ParentHeader :=
  if negb (len bytes =? PARENT_HEADER_BYTES) then
    Err (InvalidHeaderLength (len bytes) PARENT_HEADER_BYTES)
  else
    let version := of_le (take 4 bytes) in
    if negb (Z.shiftr version 31 =? 0) then Err (HeaderVersionHighBit version)
    else if version <? 4 then Err (HeaderVersionTooLow version)
    else if negb (bool_decide
      (slice SOLUTION_LENGTH_START SOLUTION_START bytes = CANONICAL_SOLUTION_LENGTH)) then
      Err NonCanonicalSolutionLength
    else
      let advertised_n_bits := of_le (slice 104 108 bytes) in
      Ok (mkParentHeader bytes version advertised_n_bits).

(** The accessors. *)
Definition merkle_root (self : ParentHeader) : list byte := slice 36 68 (as_bytes self).
Definition block_commitments_hash (self : ParentHeader) : list byte := slice 68 100 (as_bytes self).
Definition equihash_input (self : ParentHeader) : list byte := take HEADER_INPUT_BYTES (as_bytes self).
Definition equihash_nonce (self : ParentHeader) : list byte :=
  slice NONCE_START SOLUTION_LENGTH_START (as_bytes self).
Definition equihash_solution (self : ParentHeader) : list byte :=
  slice SOLUTION_START (SOLUTION_START + SOLUTION_BYTES) (as_bytes self).

(** [struct ValidatedParentWork]. *)
Record ValidatedParentWork := mkValidatedParentWork {
  header : ParentHeader;
  work_block_hash : list byte;
  required_target : list byte;
}.

Section Work.
Context `{Hashes}.

(** [ParentHeader::block_hash]. *)
Definition block_hash (self : ParentHeader) : list byte := Merkle.sha256d (as_bytes self).

(** [ParentHeader::check_target]. *)
Definition check_target (self : ParentHeader) (required_target : list byte) :
    outcome AuxPowError (list byte) :=
  let block_hash := block_hash self in
  if negb (Target.is_met_by_le_hash required_target block_hash) then
    Err (InsufficientParentWork block_hash required_target)
  else Ok block_hash.
End Work.
End ParentHeader.

(** [trait EquihashVerifier], whose implementation calls the [equihash] crate
    with the parameters (200, 9), and that implementation. *)
Class EquihashVerifier := verify_work : ParentHeader.ParentHeader -> outcome AuxPowError unit.

Definition Equihash200_9 (is_valid_solution : Z -> Z -> list byte -> list byte -> list byte -> bool) :
    EquihashVerifier := fun header =>
  if is_valid_solution 200 9 (ParentHeader.equihash_input header) (ParentHeader.equihash_nonce header)
       (ParentHeader.equihash_solution header)
  then Ok tt else Err InvalidEquihash.

(** [ParentHeader::validate_work_with]. *)
Definition validate_work_with `{Hashes} {W : EquihashVerifier} (self : ParentHeader.ParentHeader)
    (required_target : list byte) : outcome AuxPowError ParentHeader.ValidatedParentWork :=
  let? block_hash := ParentHeader.check_target self required_target in
  do? verify_work self in
  Ok (ParentHeader.mkValidatedParentWork self block_hash required_target).

(** [struct CoinbaseSummary] and [trait CoinbaseVerifier]. *)
Record CoinbaseSummary := mkCoinbaseSummary {
  transaction_id : list byte;
  authorizing_data_digest : list byte;
  miner_data : list byte;
}.
Class CoinbaseVerifier := verify_coinbase : list byte -> outcome AuxPowError CoinbaseSummary.

(** ** [proof.rs] *)

Module AuxPowProof.

(** [struct AuxPowProof]. *)
Record AuxPowProof := mkAuxPowProof {
  coinbase_bytes : list byte;
  parent_merkle_branch : list (list byte);
  parent_coinbase_index : Z;
  auth_data_merkle_branch : list (list byte);
  auth_data_coinbase_index : Z;
  chain_history_root : list byte;
  auxiliary_merkle_branch : list (list byte);
  auxiliary_index : Z;
  parent_header : ParentHeader.ParentHeader;
}.

(** [check_branch]. *)
Definition check_branch (name : string) (actual maximum : Z) : outcome AuxPowError unit :=
  if actual >? maximum then Err (BranchTooLong name actual maximum) else Ok tt.

(** [AuxPowProof::check_bounds]. *)
Definition check_bounds (self : AuxPowProof) : outcome AuxPowError unit :=
  if len (coinbase_bytes self) >? MAX_COINBASE_BYTES then
    Err (CoinbaseTooLarge (len (coinbase_bytes self)) MAX_COINBASE_BYTES)
  else
    do? check_branch "parent" (len (parent_merkle_branch self)) MAX_PARENT_BRANCH_DEPTH in
    do? check_branch "auth-data" (len (auth_data_merkle_branch self)) MAX_AUTH_DATA_BRANCH_DEPTH in
    do? check_branch "auxiliary" (len (auxiliary_merkle_branch self)) MAX_AUXILIARY_BRANCH_DEPTH in
    if negb (parent_coinbase_index self =? 0) then
      Err (ParentCoinbaseIndexNotZero (parent_coinbase_index self))
    else if negb (auth_data_coinbase_index self =? 0) then
      Err (ParentAuthDataIndexNotZero (auth_data_coinbase_index self))
    else if negb (len (parent_merkle_branch self) =? len (auth_data_merkle_branch self)) then
      Err (ParentMerkleDepthMismatch (len (parent_merkle_branch self)) (len (auth_data_merkle_branch self)))
    else
      let? tree_size := Merkle.auxiliary_tree_size (len (auxiliary_merkle_branch self)) in
      if auxiliary_index self >=? tree_size then
        Err (MerkleIndexOutOfRange "auxiliary" (auxiliary_index self) tree_size)
      else Ok tt.

(** A chain of [checked_add] on [usize]. *)
Definition checked_sum (start : Z) (terms : list Z) : option Z :=
  foldl (fun length term => length ≫= fun length => usize_checked (length + term)) (Some start) terms.

(** [AuxPowProof::encoded_len]. *)
Definition encoded_len (self : AuxPowProof) : outcome AuxPowError Z :=
  let? branch_bytes :=
    ok_or
      (checked_sum (len (parent_merkle_branch self))
         [len (auth_data_merkle_branch self); len (auxiliary_merkle_branch self)]
       ≫= fun nodes => usize_checked (nodes * 32))
      EncodingLengthOverflow in
  ok_or
    (checked_sum (len PROOF_MAGIC)
       [1; compact_size_len (len (coinbase_bytes self)); len (coinbase_bytes self);
        compact_size_len (len (parent_merkle_branch self)); branch_bytes; 4;
        compact_size_len (len (auth_data_merkle_branch self)); 4; 32;
        compact_size_len (len (auxiliary_merkle_branch self)); 4; PARENT_HEADER_BYTES])
    EncodingLengthOverflow.

(** [AuxPowProof::new]. *)
Definition new (coinbase_bytes : list byte) (parent_merkle_branch : list (list byte))
    (parent_coinbase_index : Z) (auth_data_merkle_branch : list (list byte))
    (auth_data_coinbase_index : Z) (chain_history_root : list byte)
    (auxiliary_merkle_branch : list (list byte)) (auxiliary_index : Z)
    (parent_header : ParentHeader.ParentHeader) : outcome AuxPowError AuxPowProof :=
  let proof := mkAuxPowProof coinbase_bytes parent_merkle_branch parent_coinbase_index
    auth_data_merkle_branch auth_data_coinbase_index chain_history_root auxiliary_merkle_branch
    auxiliary_index parent_header in
  do? check_bounds proof in
  let? length := encoded_len proof in
  if length >? MAX_PROOF_BYTES then Err (ProofTooLarge length MAX_PROOF_BYTES) else Ok proof.

(** The loop of [read_branch]. *)
Fixpoint read_nodes (n : nat) (reader : Reader.Reader) :
    outcome AuxPowError (list (list byte) * Reader.Reader) :=
  match n with
  | O => Ok ([], reader)
  | S n =>
      let? ' (node, reader) := Reader.read_array 32 "Merkle branch node" reader in
      let? ' (branch, reader) := read_nodes n reader in
      Ok (node :: branch, reader)
  end.

(** [read_branch] and [write_branch]. *)
Definition read_branch (name : string) (maximum : Z) (reader : Reader.Reader) :
    outcome AuxPowError (list (list byte) * Reader.Reader) :=
  let? ' (length, reader) := Reader.read_compact_size reader in
  do? check_branch name length maximum in
  read_nodes (Z.to_nat length) reader.
Definition write_branch (branch : list (list byte)) : list byte :=
  encode_compact_size (len branch) ++ concat branch.

(** [AuxPowProof::decode]. *)
Definition decode (bytes : list byte) : outcome AuxPowError AuxPowProof :=
  if len bytes >? MAX_PROOF_BYTES then Err (ProofTooLarge (len bytes) MAX_PROOF_BYTES)
  else
    let reader := Reader.new bytes in
    let? ' (magic, reader) := Reader.read_array 4 "proof magic" reader in
    if negb (bool_decide (magic = PROOF_MAGIC)) then Err (InvalidProofMagic magic)
    else
      let? ' (version, reader) := Reader.read_u8 "proof version" reader in
      if negb (version =? PROOF_VERSION) then Err (UnsupportedProofVersion version)
      else
        let? ' (coinbase_length, reader) := Reader.read_compact_size reader in
        if coinbase_length >? MAX_COINBASE_BYTES then
          Err (CoinbaseTooLarge coinbase_length MAX_COINBASE_BYTES)
        else
          let? ' (coinbase_bytes, reader) :=
            Reader.read_slice coinbase_length "parent coinbase transaction" reader in
          let? ' (parent_merkle_branch, reader) := read_branch "parent" MAX_PARENT_BRANCH_DEPTH reader in
          let? ' (parent_coinbase_index, reader) := Reader.read_u32_le "parent coinbase index" reader in
          let? ' (auth_data_merkle_branch, reader) :=
            read_branch "auth-data" MAX_AUTH_DATA_BRANCH_DEPTH reader in
          let? ' (auth_data_coinbase_index, reader) :=
            Reader.read_u32_le "auth-data coinbase index" reader in
          let? ' (chain_history_root, reader) := Reader.read_array 32 "chain-history root" reader in
          let? ' (auxiliary_merkle_branch, reader) :=
            read_branch "auxiliary" MAX_AUXILIARY_BRANCH_DEPTH reader in
          let? ' (auxiliary_index, reader) := Reader.read_u32_le "auxiliary index" reader in
          let? ' (header, reader) := Reader.read_slice PARENT_HEADER_BYTES "parent header" reader in
          let? parent_header := ParentHeader.decode header in
          if negb (Reader.remaining reader =? 0) then Err (TrailingBytes (Reader.remaining reader))
          else
            new coinbase_bytes parent_merkle_branch parent_coinbase_index auth_data_merkle_branch
              auth_data_coinbase_index chain_history_root auxiliary_merkle_branch auxiliary_index
              parent_header.

(** [AuxPowProof::encode]. *)
Definition encode (self : AuxPowProof) : outcome AuxPowError (list byte) :=
  do? check_bounds self in
  let? length := encoded_len self in
  if length >? MAX_PROOF_BYTES then Err (ProofTooLarge length MAX_PROOF_BYTES)
  else
    let output :=
      PROOF_MAGIC ++ to_le 1 PROOF_VERSION ++
      encode_compact_size (len (coinbase_bytes self)) ++ coinbase_bytes self ++
      write_branch (parent_merkle_branch self) ++ to_le 4 (parent_coinbase_index self) ++
      write_branch (auth_data_merkle_branch self) ++ to_le 4 (auth_data_coinbase_index self) ++
      chain_history_root self ++
      write_branch (auxiliary_merkle_branch self) ++ to_le 4 (auxiliary_index self) ++
      ParentHeader.as_bytes (parent_header self) in
    do? assert_that (len output =? length) in
    Ok output.

(** [struct ValidatedAuxPow]. *)
Record ValidatedAuxPow := mkValidatedAuxPow {
  parent_work : ParentHeader.ValidatedParentWork;
  coinbase_transaction_id : list byte;
  coinbase_authorizing_data_digest : list byte;
  auth_data_root : list byte;
  validated_chain_history_root : list byte;
  commitment : Commitment.ValidatedCommitment;
}.

Section Validate.
Context `{Hashes} {C : CoinbaseVerifier} {W : EquihashVerifier}.

(** [AuxPowProof::validate_parent_merkle_path]. *)
Definition validate_parent_merkle_path (self : AuxPowProof) (coinbase : CoinbaseSummary) :
    outcome AuxPowError unit :=
  if negb (parent_coinbase_index self =? 0) then
    Err (ParentCoinbaseIndexNotZero (parent_coinbase_index self))
  else
    let? root := Merkle.sha256d_merkle_root (transaction_id coinbase) (parent_merkle_branch self)
      (parent_coinbase_index self) in
    if negb (bool_decide (root = ParentHeader.merkle_root (parent_header self))) then
      Err ParentMerkleRootMismatch
    else Ok tt.

(** [AuxPowProof::validate_parent_auth_data_path]. *)
Definition validate_parent_auth_data_path (self : AuxPowProof) (coinbase : CoinbaseSummary) :
    outcome AuxPowError (list byte) :=
  if negb (auth_data_coinbase_index self =? 0) then
    Err (ParentAuthDataIndexNotZero (auth_data_coinbase_index self))
  else if negb (len (parent_merkle_branch self) =? len (auth_data_merkle_branch self)) then
    Err (ParentMerkleDepthMismatch (len (parent_merkle_branch self)) (len (auth_data_merkle_branch self)))
  else
    let? auth_data_root := Merkle.auth_data_merkle_root (authorizing_data_digest coinbase)
      (auth_data_merkle_branch self) (auth_data_coinbase_index self) in
    let expected := Merkle.block_commitments_hash (chain_history_root self) auth_data_root in
    if negb (bool_decide (expected = ParentHeader.block_commitments_hash (parent_header self))) then
      Err ParentBlockCommitmentsMismatch
    else Ok auth_data_root.

(** [AuxPowProof::validate_with_verifiers]. *)
Definition validate_with_verifiers (self : AuxPowProof) (auxiliary_block_hash required_target : list byte) :
    outcome AuxPowError ValidatedAuxPow :=
  do? check_bounds self in
  do? ParentHeader.check_target (parent_header self) required_target in
  let? coinbase := verify_coinbase (coinbase_bytes self) in
  do? validate_parent_merkle_path self coinbase in
  let? auth_data_root := validate_parent_auth_data_path self coinbase in
  let? commitment := Commitment.validate_miner_data_commitment (miner_data coinbase)
    auxiliary_block_hash (auxiliary_merkle_branch self) (auxiliary_index self) in
  let? parent_work := validate_work_with (parent_header self) required_target in
  Ok (mkValidatedAuxPow parent_work (transaction_id coinbase) (authorizing_data_digest coinbase)
    auth_data_root (chain_history_root self) commitment).
End Validate.
End AuxPowProof.

(** ** The canonical proof format *)

Section Codec.
Import Reader AuxPowProof.

(** The values the source's types allow: 32-byte nodes and roots, 32-bit
    indices, and a header that the parser produced. *)
Definition node (s : list byte) : Prop := length s = 32%nat.
Record proof_typed (p : AuxPowProof) : Prop := {
  typed_parent : Forall node (parent_merkle_branch p);
  typed_auth : Forall node (auth_data_merkle_branch p);
  typed_aux : Forall node (auxiliary_merkle_branch p);
  typed_root : node (chain_history_root p);
  typed_index : 0 <= auxiliary_index p <= U32_MAX;
  typed_header : ParentHeader.decode (ParentHeader.as_bytes (parent_header p)) = Ok (parent_header p);
}.

(** The bounds of [check_bounds] as a proposition. *)
Record bounded (p : AuxPowProof) : Prop := {
  bounded_coinbase : len (coinbase_bytes p) <= MAX_COINBASE_BYTES;
  bounded_parent : len (parent_merkle_branch p) <= MAX_PARENT_BRANCH_DEPTH;
  bounded_aux : len (auxiliary_merkle_branch p) <= MAX_AUXILIARY_BRANCH_DEPTH;
  bounded_parent_index : parent_coinbase_index p = 0;
  bounded_auth_index : auth_data_coinbase_index p = 0;
  bounded_depths : length (parent_merkle_branch p) = length (auth_data_merkle_branch p);
  bounded_aux_index : auxiliary_index p < 2 ^ len (auxiliary_merkle_branch p);
}.

Lemma check_branch_Ok name n max u : check_branch name n max = Ok u <-> n <= max.
Proof. unfold check_branch. destruct u, (Z.gtb_spec n max); split; done || lia. Qed.

Lemma check_bounds_Ok p u : check_bounds p = Ok u <-> bounded p.
Proof.
  unfold check_bounds. split.
  - intros Hc. destruct (Z.gtb_spec (len (coinbase_bytes p)) MAX_COINBASE_BYTES); [done|].
    apply obind_Ok in Hc as (? & H1 & Hc). apply obind_Ok in Hc as (? & H2 & Hc).
    apply obind_Ok in Hc as (? & H3 & Hc). apply check_branch_Ok in H1, H2, H3.
    destruct (Z.eqb_spec (parent_coinbase_index p) 0); [|done].
    destruct (Z.eqb_spec (auth_data_coinbase_index p) 0); [|done]. cbn [negb] in Hc.
    destruct (Z.eqb_spec (len (parent_merkle_branch p)) (len (auth_data_merkle_branch p))); [|done].
    rewrite auxiliary_tree_size_Ok in Hc by lia. cbn [negb obind] in Hc.
    destruct (Z.geb_spec (auxiliary_index p) (2 ^ len (auxiliary_merkle_branch p))); [done|].
    constructor; try done; lia.
  - intros [Hc Hp Ha Hi1 Hi2 Hd Hi]. rewrite Hd, Hi1, Hi2 in *.
    destruct (Z.gtb_spec (len (coinbase_bytes p)) MAX_COINBASE_BYTES); [lia|].
    rewrite !(proj2 (check_branch_Ok _ _ _ tt)) by done. cbn [obind negb Z.eqb].
    rewrite Z.eqb_refl, auxiliary_tree_size_Ok by lia. cbn [negb obind].
    destruct (Z.geb_spec (auxiliary_index p) (2 ^ len (auxiliary_merkle_branch p))); [lia|].
    by destruct u.
Qed.

Lemma checked_sum_Some start terms :
  0 <= start -> Forall (fun t => 0 <= t) terms -> start + foldr Z.add 0 terms <= USIZE_MAX ->
  checked_sum start terms = Some (start + foldr Z.add 0 terms).
Proof.
  unfold checked_sum. revert start.
  induction terms as [|t terms IH]; intros start Hs Ht Hmax; cbn [foldl foldr] in *.
  - f_equal. lia.
  - inversion_clear Ht. assert (0 <= foldr Z.add 0 terms) by (clear -H0; induction H0; simpl; lia).
    cbn [mbind option_bind]. rewrite checked_ok by lia. rewrite IH by (done || lia). f_equal. lia.
Qed.

Lemma compact_size_len_small n : 0 <= n <= MAX_COINBASE_BYTES -> 1 <= compact_size_len n <= 5.
Proof. unfold compact_size_len, MAX_COINBASE_BYTES. intros. repeat case_match; bool_lia. Qed.

(** The number of bytes of the encoding. *)
Definition proof_size (p : AuxPowProof) : Z :=
  4 + 1 + compact_size_len (len (coinbase_bytes p)) + len (coinbase_bytes p) +
  compact_size_len (len (parent_merkle_branch p)) + compact_size_len (len (auth_data_merkle_branch p)) +
  compact_size_len (len (auxiliary_merkle_branch p)) +
  (len (parent_merkle_branch p) + len (auth_data_merkle_branch p) + len (auxiliary_merkle_branch p)) * 32 +
  12 + 32 + PARENT_HEADER_BYTES.

(** Bounded proofs are far below the outer limit and their size does not overflow. *)
Lemma encoded_len_bounded p :
  bounded p -> encoded_len p = Ok (proof_size p) /\ proof_size p <= MAX_PROOF_BYTES.
Proof.
  intros [Hc Hp Ha _ _ Hd _]. unfold encoded_len, proof_size.
  unfold MAX_PARENT_BRANCH_DEPTH, MAX_AUXILIARY_BRANCH_DEPTH in *.
  pose proof (compact_size_len_small (len (coinbase_bytes p)) ltac:(lia)).
  assert (forall n : nat, Z.of_nat n <= 32 -> 1 <= compact_size_len (Z.of_nat n) <= 5) as Hs
    by (intros; apply compact_size_len_small; unfold MAX_COINBASE_BYTES; lia).
  pose proof (Hs _ Hp). rewrite Hd in *. pose proof (Hs _ Hp).
  pose proof (Hs (length (auxiliary_merkle_branch p)) ltac:(lia)).
  unfold MAX_COINBASE_BYTES, MAX_PROOF_BYTES, PARENT_HEADER_BYTES in *.
  rewrite checked_sum_Some; [|lia|repeat constructor; lia|cbn [foldr]; bool_lia].
  cbn [foldr mbind option_bind]. rewrite checked_ok by bool_lia. cbn [ok_or obind].
  rewrite checked_sum_Some; [|done|repeat (constructor; [lia|]); constructor|cbn [foldr]; change (len PROOF_MAGIC) with 4; bool_lia].
  cbn [foldr ok_or]. change (len PROOF_MAGIC) with 4. split; [f_equal|]; lia.
Qed.

(** The bytes of a proof. *)
Definition encoding (p : AuxPowProof) : list byte :=
  PROOF_MAGIC ++ to_le 1 PROOF_VERSION ++
  encode_compact_size (len (coinbase_bytes p)) ++ coinbase_bytes p ++
  write_branch (parent_merkle_branch p) ++ to_le 4 (parent_coinbase_index p) ++
  write_branch (auth_data_merkle_branch p) ++ to_le 4 (auth_data_coinbase_index p) ++
  chain_history_root p ++
  write_branch (auxiliary_merkle_branch p) ++ to_le 4 (auxiliary_index p) ++
  ParentHeader.as_bytes (parent_header p).

Lemma concat_length branch : Forall node branch -> len (concat branch) = 32 * len branch.
Proof.
  induction 1 as [|s branch Hs _ IH]; [done|]. cbn [concat length]. rewrite length_app, Hs. lia.
Qed.

Lemma header_length h :
  ParentHeader.decode (ParentHeader.as_bytes h) = Ok h -> len (ParentHeader.as_bytes h) = PARENT_HEADER_BYTES.
Proof.
  unfold ParentHeader.decode. by destruct (Z.eqb_spec (len (ParentHeader.as_bytes h)) PARENT_HEADER_BYTES).
Qed.

Lemma encoding_length p : proof_typed p -> bounded p -> len (encoding p) = proof_size p.
Proof.
  intros [Tp Ta Tx Tr _ Th] [Hc Hp Ha _ _ Hd _]. unfold encoding, write_branch, proof_size.
  pose proof (concat_length _ Tp). pose proof (concat_length _ Ta). pose proof (concat_length _ Tx).
  pose proof (header_length _ Th). unfold node in Tr.
  unfold MAX_PARENT_BRANCH_DEPTH, MAX_AUXILIARY_BRANCH_DEPTH, MAX_COINBASE_BYTES in *.
  rewrite <- !encode_compact_size_len by bool_lia.
  rewrite !length_app, !length_le_split. change (length PROOF_MAGIC) with 4%nat. lia.
Qed.

Lemma encode_Ok p bytes :
  proof_typed p -> encode p = Ok bytes <-> bounded p /\ bytes = encoding p.
Proof.
  intros Ht. unfold encode. fold (encoding p). split.
  - intros He. apply obind_Ok in He as (u & Hb & He). apply check_bounds_Ok in Hb. split; [done|].
    apply obind_Ok in He as (length & _ & He). case_match; [done|].
    apply obind_Ok in He as (? & _ & He). by injection He as <-.
  - intros [Hb ->]. rewrite (proj2 (check_bounds_Ok p tt) Hb). cbn [obind].
    destruct (encoded_len_bounded p Hb) as [-> Hmax]. cbn [obind].
    destruct (Z.gtb_spec (proof_size p) MAX_PROOF_BYTES); [lia|].
    by rewrite (encoding_length p Ht Hb), Z.eqb_refl.
Qed.

(** ** Reading a proof *)

Lemma read_nodes_Ok n r branch r' :
  reader_wf r ->
  read_nodes n r = Ok (branch, r') <->
  length branch = n /\ Forall node branch /\ reads r (concat branch) r'.
Proof.
  revert r branch r'. induction n as [|n IH]; intros r branch r' Hwf; cbn [read_nodes].
  - split.
    + intros [= <- <-]. split_and!; [done|constructor|apply reads_nil].
    + intros (Hl & _ & Hr). destruct branch; [|done].
      by destruct (reads_det _ _ _ _ _ Hr (reads_nil r) eq_refl) as [_ ->].
  - split.
    + intros Hb. apply obind_Ok in Hb as ([s r1] & Hs & Hb).
      apply read_slice_Ok in Hs as [Hs Hl]; [|done|lia].
      apply obind_Ok in Hb as ([ss r2] & Hss & [= <- <-]).
      apply IH in Hss as (Hn & HF & Hss); [|by eapply reads_wf].
      split_and!; [simpl; lia|constructor; [unfold node; lia|done]|].
      cbn [concat]. apply reads_app. by exists r1.
    + intros (Hl & HF & Hr). destruct branch as [|s ss]; [done|]. inversion_clear HF.
      cbn [concat] in Hr. apply reads_app in Hr as (r1 & Hs & Hss).
      unfold node in *. rewrite (read_array_reads 32 _ _ _ _ Hwf Hs) by lia. cbn [obind].
      rewrite (proj2 (IH r1 ss r' ltac:(by eapply reads_wf))); [done|].
      split_and!; [simpl in Hl; lia|done|done].
Qed.

Lemma read_branch_Ok name max r branch r' :
  reader_wf r -> max <= U32_MAX ->
  read_branch name max r = Ok (branch, r') <->
  len branch <= max /\ Forall node branch /\ reads r (write_branch branch) r'.
Proof.
  intros Hwf Hmax. unfold read_branch, write_branch. split.
  - intros Hb. apply obind_Ok in Hb as ([n r1] & Hn & Hb).
    apply read_compact_size_reads in Hn as [Hv Hn]; [|done].
    apply obind_Ok in Hb as (u & Hc & Hb). apply check_branch_Ok in Hc.
    apply read_nodes_Ok in Hb as (Hl & HF & Hb); [|by eapply reads_wf].
    assert (len branch = n) as -> by lia. split_and!; [done|done|]. apply reads_app. by exists r1.
  - intros (Hl & HF & Hr). apply reads_app in Hr as (r1 & Hn & Hb).
    rewrite (read_compact_size_encoded r (len branch) r1) by (done || bool_lia). cbn [obind].
    rewrite (proj2 (check_branch_Ok _ _ _ tt)) by done. cbn [obind].
    apply read_nodes_Ok; [by eapply reads_wf|]. split_and!; [lia|done|done].
Qed.

Lemma header_decode_bytes bytes h : ParentHeader.decode bytes = Ok h -> ParentHeader.as_bytes h = bytes.
Proof. unfold ParentHeader.decode. repeat case_match; intros [= <-]; done. Qed.

Lemma new_Ok p :
  new (coinbase_bytes p) (parent_merkle_branch p) (parent_coinbase_index p)
    (auth_data_merkle_branch p) (auth_data_coinbase_index p) (chain_history_root p)
    (auxiliary_merkle_branch p) (auxiliary_index p) (parent_header p) = Ok p <-> bounded p.
Proof.
  unfold new. destruct p as [p1 p2 p3 p4 p5 p6 p7 p8 p9].
  set (p := mkAuxPowProof _ _ _ _ _ _ _ _ _). cbn. fold p. split.
  - intros H. apply obind_Ok in H as (u & Hb & _). by apply check_bounds_Ok in Hb.
  - intros Hb. rewrite (proj2 (check_bounds_Ok p tt) Hb). cbn [obind].
    destruct (encoded_len_bounded p Hb) as [-> Hmax]. cbn [obind].
    by destruct (Z.gtb_spec (proof_size p) MAX_PROOF_BYTES); [lia|].
Qed.

Lemma new_result a b c d e f g h i p :
  new a b c d e f g h i = Ok p -> p = mkAuxPowProof a b c d e f g h i /\ bounded p.
Proof.
  intros H. pose proof H as H'. unfold new in H. apply obind_Ok in H as (u & Hb & H).
  apply obind_Ok in H as (n & _ & H). case_match; [done|]. injection H as <-.
  split; [done|]. by apply check_bounds_Ok in Hb.
Qed.

(** *** Parsers and their languages

    [parses m L]: [m] succeeds with [a] exactly after reading a string of
    [L a].  [accepts k L]: [k], which reads to the end of the input, succeeds
    with [p] exactly when the input is in [L p]. *)
Definition parses {A} (m : Reader -> outcome AuxPowError (A * Reader)) (L : A -> list byte -> Prop) : Prop :=
  forall r a r', reader_wf r -> m r = Ok (a, r') <-> exists s, L a s /\ reads r s r'.
Definition accepts {P} (k : Reader -> outcome AuxPowError P) (L : P -> list byte -> Prop) : Prop :=
  forall r p, reader_wf r -> k r = Ok p <-> L p (rest r).

Lemma accepts_bind {A P} m (k : A -> Reader -> outcome AuxPowError P) La Lk :
  parses m La -> (forall a s, La a s -> accepts (k a) (Lk a)) ->
  accepts (fun r => let? ' (a, r) := m r in k a r)
    (fun p bs => exists a s t, La a s /\ Lk a p t /\ bs = s ++ t).
Proof.
  intros Hm Hk r p Hwf. rewrite obind_Ok. split.
  - intros ([a r1] & Ha & Hp). apply Hm in Ha as (s & Hs & Hr); [|done].
    apply (Hk a s Hs) in Hp; [|by eapply reads_wf]. exists a, s, (rest r1).
    split_and!; [done|done|by apply reads_rest].
  - intros (a & s & t & Hs & Hp & E). exists (a, advance (length s) r).
    assert (reads r s (advance (length s) r)) as Hr by (split; [by exists t|done]).
    split; [apply Hm; [done|by exists s]|]. apply (Hk a s Hs); [by eapply reads_wf|].
    by rewrite rest_advance, E, drop_app_length.
Qed.

Lemma accepts_guard {P} (b : bool) e (k : Reader -> outcome AuxPowError P) L :
  (b = false -> accepts k L) ->
  accepts (fun r => if b then Err e else k r) (fun p bs => b = false /\ L p bs).
Proof.
  intros Hk r p Hwf. destruct b; [split; naive_solver|]. rewrite (Hk eq_refl r p Hwf). tauto.
Qed.

Lemma accepts_pure {A P} (m : outcome AuxPowError A) (k : A -> Reader -> outcome AuxPowError P) Lk :
  (forall a, accepts (k a) (Lk a)) ->
  accepts (fun r => let? a := m in k a r) (fun p bs => exists a, m = Ok a /\ Lk a p bs).
Proof. intros Hk r p Hwf. rewrite obind_Ok. by setoid_rewrite (Hk _ r p Hwf). Qed.

Lemma accepts_end {P} (m : outcome AuxPowError P) :
  accepts (fun r => if negb (remaining r =? 0) then Err (TrailingBytes (remaining r)) else m)
    (fun p bs => m = Ok p /\ bs = []).
Proof.
  intros r p Hwf. rewrite remaining_rest by done.
  destruct (rest r) as [|b bs]; simpl; split; naive_solver.
Qed.

Lemma accepts_run {P} (k : Reader -> outcome AuxPowError P) L bytes p :
  accepts k L -> len bytes <= USIZE_MAX -> k (Reader.new bytes) = Ok p <-> L p bytes.
Proof.
  intros Hk Hl. rewrite (Hk (Reader.new bytes) p) by (split; simpl; lia).
  unfold rest. simpl. by rewrite drop_0.
Qed.

Lemma parses_slice n f : 0 <= n -> parses (read_slice n f) (fun a s => a = s /\ len s = n).
Proof. intros Hn r a r' Hwf. rewrite read_slice_Ok by done. naive_solver. Qed.
Lemma parses_u8 f : parses (read_u8 f) (fun a s => s = to_le 1 a /\ 0 <= a <= 255).
Proof.
  intros r a r' Hwf. rewrite read_u8_Ok by done. split.
  - intros (b & Hr & ->). exists [b]. split; [|done]. split; [by apply byte_of_le|apply byte_range].
  - intros (s & [-> Ha] & Hr). destruct (byte_split a) as [b Hb]. rewrite Hb in Hr. exists b.
    split; [done|]. rewrite <- Hb, of_to_le; [done|simpl; lia].
Qed.
Lemma parses_u32 f : parses (read_u32_le f) (fun a s => s = to_le 4 a /\ 0 <= a <= U32_MAX).
Proof. intros r a r' Hwf. rewrite read_u32_le_Ok by done. naive_solver. Qed.
Lemma parses_compact_size :
  parses read_compact_size (fun a s => s = encode_compact_size a /\ 0 <= a <= U64_MAX).
Proof.
  intros r a r' Hwf. split.
  - intros Hr. apply read_compact_size_reads in Hr as [Ha Hr]; [|done]. by eexists.
  - intros (s & [-> Ha] & Hr). by apply read_compact_size_encoded.
Qed.
Lemma parses_branch name max :
  max <= U32_MAX ->
  parses (read_branch name max) (fun a s => s = write_branch a /\ len a <= max /\ Forall node a).
Proof. intros Hmax r a r' Hwf. rewrite read_branch_Ok by done. naive_solver. Qed.

Ltac parse_step :=
  first
    [ eapply accepts_bind;
      [first [apply parses_u8 | apply parses_u32 | apply parses_compact_size | apply parses_branch; done
             | apply parses_slice; first [done | tauto]]
      |cbv beta; intros]
    | apply accepts_guard; intros
    | apply accepts_end
    | apply accepts_pure; intros ].

(** The next field of an input that is known. *)
Ltac next_field tac := do 3 eexists; split; [|split; [|reflexivity]]; [tac|].

Lemma decode_Ok bytes p :
  decode bytes = Ok p <-> proof_typed p /\ bounded p /\ bytes = encoding p.
Proof.
  unfold decode. destruct (Z.gtb_spec (len bytes) MAX_PROOF_BYTES) as [Hlen|Hlen].
  { split; [done|]. intros (Ht & Hb & ->). rewrite encoding_length in Hlen by done.
    destruct (encoded_len_bounded p Hb). lia. }
  cbv zeta.
  match goal with |- ?X = _ <-> _ =>
    let X' := eval pattern (Reader.new bytes) in X in
    match X' with ?k _ => etransitivity; [eapply (accepts_run k _ bytes p)|] end end.
  { repeat parse_step. }
  { unfold MAX_PROOF_BYTES in Hlen. bool_lia. }
  cbv beta. split.
  - intros L. destruct_and?. repeat match goal with
      | H : exists _, _ |- _ => destruct H
      | H : _ /\ _ |- _ => destruct H
      end; subst.
    match goal with H : new _ _ _ _ _ _ _ _ _ = Ok p |- _ => apply new_result in H as [-> Hb] end.
    repeat match goal with H : negb _ = false |- _ => apply negb_false_iff in H end.
    match goal with H : (_ =? PROOF_VERSION) = true |- _ => apply Z.eqb_eq in H as -> end.
    match goal with H : bool_decide _ = true |- _ => apply bool_decide_eq_true in H as -> end.
    match goal with H : ParentHeader.decode _ = Ok _ |- _ =>
      pose proof (header_decode_bytes _ _ H) as <- end.
    split_and!; [constructor; unfold node; simpl; try done; lia|done|].
    unfold encoding. simpl. by rewrite app_nil_r.
  - intros ([Tp Ta Tx Tr Ti Th] & Hb & ->). pose proof Hb as [Hc Hp Ha Hi1 Hi2 Hd Hi].
    pose proof (header_length _ Th). unfold node in Tr.
    unfold encoding.
    next_field ltac:(by split). split; [by rewrite bool_decide_eq_true_2|].
    next_field ltac:(by split). split; [done|].
    next_field ltac:(split; [done|unfold MAX_COINBASE_BYTES in *; bool_lia]).
    split; [destruct (Z.gtb_spec (len (coinbase_bytes p)) MAX_COINBASE_BYTES); done || lia|].
    next_field ltac:(by split).
    next_field ltac:(by split_and!).
    next_field ltac:(split; [done|rewrite Hi1; bool_lia]).
    next_field ltac:(split_and!; [done|by rewrite <- Hd|done]).
    next_field ltac:(split; [done|rewrite Hi2; bool_lia]).
    next_field ltac:(split; [done|lia]).
    next_field ltac:(by split_and!).
    next_field ltac:(split; [done|lia]).
    exists (ParentHeader.as_bytes (parent_header p)), (ParentHeader.as_bytes (parent_header p)), [].
    split; [done|]. split; [|by rewrite app_nil_r].
    exists (parent_header p). split; [done|]. split; [by apply new_Ok|done].
Qed.
End Codec.

Section CodecTheorem.
Import AuxPowProof.

(** C3: The proof format is canonical.  Decoding accepts exactly the
    encodings of well-typed proofs, so encoding and decoding are inverse to
    each other and no proof has two encodings.  A proof whose fields are
    within their bounds always encodes, without overflow, to at most
    [MAX_PROOF_BYTES]; any other proof does not encode. *)
Theorem proof_codec_exact (bytes : list byte) (p : AuxPowProof) :
  (decode bytes = Ok p <-> proof_typed p /\ encode p = Ok bytes) /\
  (proof_typed p -> bounded p ->
   exists encoded, encode p = Ok encoded /\ len encoded <= MAX_PROOF_BYTES) /\
  (proof_typed p -> encode p = Ok bytes -> bounded p).
Proof.
  split_and!.
  - rewrite decode_Ok. split.
    + intros (Ht & Hb & ->). split; [done|]. by apply encode_Ok.
    + intros [Ht He]. apply encode_Ok in He as [Hb ->]; done.
  - intros Ht Hb. exists (encoding p). split; [by apply encode_Ok|].
    rewrite encoding_length by done. by apply encoded_len_bounded.
  - intros Ht He. apply encode_Ok in He; tauto.
Qed.
End CodecTheorem.

(** ** The validation pipeline *)

Section Validation.
Import Merkle Commitment AuxPowProof.
Context `{Hashes} {C : CoinbaseVerifier} {W : EquihashVerifier}.

Lemma check_target_Ok h target hash :
  ParentHeader.check_target h target = Ok hash <->
  Target.is_met_by_le_hash target (ParentHeader.block_hash h) = true /\ hash = ParentHeader.block_hash h.
Proof.
  unfold ParentHeader.check_target.
  destruct (Target.is_met_by_le_hash target (ParentHeader.block_hash h)); simpl; naive_solver.
Qed.

Lemma validate_work_with_Ok h target w :
  validate_work_with h target = Ok w <->
  Target.is_met_by_le_hash target (ParentHeader.block_hash h) = true /\
  verify_work h = Ok tt /\ w = ParentHeader.mkValidatedParentWork h (ParentHeader.block_hash h) target.
Proof.
  unfold validate_work_with. rewrite obind_Ok. split.
  - intros (hash & Ht & Hw). apply check_target_Ok in Ht as [Ht ->].
    apply obind_Ok in Hw as ([] & Hw & [= <-]). done.
  - intros (Ht & Hw & ->). exists (ParentHeader.block_hash h). split; [by apply check_target_Ok|].
    by rewrite Hw.
Qed.

Lemma merkle_path_Ok p s u :
  validate_parent_merkle_path p s = Ok u ->
  sha256d_merkle_root (transaction_id s) (parent_merkle_branch p) 0 =
    Ok (ParentHeader.merkle_root (parent_header p)).
Proof.
  unfold validate_parent_merkle_path. destruct (Z.eqb_spec (parent_coinbase_index p) 0) as [->|]; [|done].
  cbn [negb]. intros Hp. apply obind_Ok in Hp as (root & -> & Hp). by case_bool_decide; subst.
Qed.

Lemma auth_path_Ok p s root :
  validate_parent_auth_data_path p s = Ok root ->
  auth_data_merkle_root (authorizing_data_digest s) (auth_data_merkle_branch p) 0 = Ok root /\
  block_commitments_hash (chain_history_root p) root =
    ParentHeader.block_commitments_hash (parent_header p).
Proof.
  unfold validate_parent_auth_data_path.
  destruct (Z.eqb_spec (auth_data_coinbase_index p) 0) as [->|]; [|done].
  cbn [negb]. case_match; [done|]. intros Hp. apply obind_Ok in Hp as (root' & -> & Hp).
  case_bool_decide; [|done]. by injection Hp as <-.
Qed.

(** Every check that an accepted proof passed. *)
Record checked_proof (p : AuxPowProof) (block_hash target : list byte) (s : CoinbaseSummary)
    (v : ValidatedAuxPow) : Prop := {
  checked_bounds : bounded p;
  checked_coinbase : verify_coinbase (coinbase_bytes p) = Ok s;
  checked_merkle : sha256d_merkle_root (transaction_id s) (parent_merkle_branch p) 0 =
    Ok (ParentHeader.merkle_root (parent_header p));
  checked_auth : auth_data_merkle_root (authorizing_data_digest s) (auth_data_merkle_branch p) 0 =
    Ok (auth_data_root v);
  checked_commitments : block_commitments_hash (chain_history_root p) (auth_data_root v) =
    ParentHeader.block_commitments_hash (parent_header p);
  checked_commitment : validate_miner_data_commitment (miner_data s) block_hash
    (auxiliary_merkle_branch p) (auxiliary_index p) = Ok (commitment v);
  checked_target : Target.is_met_by_le_hash target (ParentHeader.block_hash (parent_header p)) = true;
  checked_equihash : verify_work (parent_header p) = Ok tt;
  checked_result : v = mkValidatedAuxPow
    (ParentHeader.mkValidatedParentWork (parent_header p) (ParentHeader.block_hash (parent_header p)) target)
    (transaction_id s) (authorizing_data_digest s) (auth_data_root v) (chain_history_root p) (commitment v);
}.

Lemma validate_with_verifiers_Ok p block_hash target v :
  validate_with_verifiers p block_hash target = Ok v ->
  exists s, checked_proof p block_hash target s v.
Proof.
  intros Hv. unfold validate_with_verifiers in Hv.
  apply obind_Ok in Hv as (? & Hb & Hv). apply check_bounds_Ok in Hb.
  apply obind_Ok in Hv as (? & Ht & Hv). apply check_target_Ok in Ht as [Ht _].
  apply obind_Ok in Hv as (s & Hs & Hv). apply obind_Ok in Hv as (? & Hm & Hv).
  apply merkle_path_Ok in Hm. apply obind_Ok in Hv as (root & Ha & Hv).
  apply auth_path_Ok in Ha as [Ha Hc]. apply obind_Ok in Hv as (c & Hc' & Hv).
  apply obind_Ok in Hv as (w & Hw & Hv). apply validate_work_with_Ok in Hw as (_ & Hw & ->).
  injection Hv as <-. exists s. constructor; done.
Qed.

(** The string that [block_commitments_hash] hashes. *)
Definition commitments_input (history_root auth_root : list byte) : list byte :=
  history_root ++ auth_root ++ replicate 32 Byte.x00.

Lemma auth_root_length s branch root :
  length (authorizing_data_digest s) = 32%nat ->
  auth_data_merkle_root (authorizing_data_digest s) branch 0 = Ok root -> length root = 32%nat.
Proof.
  intros Hl Hr. apply auth_data_merkle_root_Ok in Hr as (_ & _ & ->); [|done].
  by apply (climb_length (blake2b AUTH_DATA_HASH_PERSONALIZATION) (blake2b_length _)).
Qed.

(** Two proofs over one header whose trees have the same depth authenticate
    the same digest, or exhibit a BLAKE2b collision. *)
Lemma header_binds_digest p1 p2 h1 h2 t1 t2 s1 s2 v1 v2 :
  proof_typed p1 -> proof_typed p2 ->
  checked_proof p1 h1 t1 s1 v1 -> checked_proof p2 h2 t2 s2 v2 ->
  length (authorizing_data_digest s1) = 32%nat -> length (authorizing_data_digest s2) = 32%nat ->
  parent_header p1 = parent_header p2 ->
  length (parent_merkle_branch p1) = length (parent_merkle_branch p2) ->
  authorizing_data_digest s1 = authorizing_data_digest s2 \/
  collision (blake2b BLOCK_COMMITMENTS_PERSONALIZATION)
    [commitments_input (chain_history_root p1) (auth_data_root v1)]
    [commitments_input (chain_history_root p2) (auth_data_root v2)] \/
  collision (blake2b AUTH_DATA_HASH_PERSONALIZATION)
    (climb_inputs (blake2b AUTH_DATA_HASH_PERSONALIZATION) (authorizing_data_digest s1)
      (auth_data_merkle_branch p1) 0)
    (climb_inputs (blake2b AUTH_DATA_HASH_PERSONALIZATION) (authorizing_data_digest s2)
      (auth_data_merkle_branch p2) 0).
Proof.
  intros T1 T2 K1 K2 L1 L2 Eh El.
  pose proof (checked_commitments _ _ _ _ _ K1) as E1. pose proof (checked_commitments _ _ _ _ _ K2) as E2.
  rewrite Eh, <- E2 in E1. unfold block_commitments_hash in E1.
  set (i1 := _ ++ auth_data_root v1 ++ _) in E1. set (i2 := _ ++ auth_data_root v2 ++ _) in E1.
  destruct (decide (i1 = i2)) as [Ei|Ni].
  2: { right. left. exists i1, i2. split_and!; [by left|by left|done|done]. }
  pose proof (auth_root_length _ _ _ L1 (checked_auth _ _ _ _ _ K1)) as LR1.
  pose proof (auth_root_length _ _ _ L2 (checked_auth _ _ _ _ _ K2)) as LR2.
  apply app_inj_1 in Ei as [_ Ei]; [|by rewrite (typed_root _ T1), (typed_root _ T2)].
  apply app_inj_1 in Ei as [Er _]; [|congruence].
  pose proof (checked_auth _ _ _ _ _ K1) as A1. pose proof (checked_auth _ _ _ _ _ K2) as A2.
  apply auth_data_merkle_root_Ok in A1 as (_ & _ & A1); [|done].
  apply auth_data_merkle_root_Ok in A2 as (_ & _ & A2); [|done]. rewrite A1, A2 in Er.
  destruct (climb_binding (blake2b AUTH_DATA_HASH_PERSONALIZATION) (blake2b_length _)
    (authorizing_data_digest s1) (authorizing_data_digest s2) (auth_data_merkle_branch p1)
    (auth_data_merkle_branch p2) 0) as [[Ed _]|Hc]; try done.
  - rewrite <- (bounded_depths _ (checked_bounds _ _ _ _ _ K1)).
    by rewrite <- (bounded_depths _ (checked_bounds _ _ _ _ _ K2)).
  - apply (typed_auth _ T1).
  - apply (typed_auth _ T2).
  - by left.
  - by right; right.
Qed.
End Validation.

(** What the coinbase adapter promises about its digests: they have 32 bytes
    and commit to the miner data, as ZIP-244 specifies. *)
Class CoinbaseDigests (C : CoinbaseVerifier) : Prop := {
  digest_length bytes s : verify_coinbase bytes = Ok s -> length (authorizing_data_digest s) = 32%nat;
  digest_commits b1 b2 s1 s2 :
    verify_coinbase b1 = Ok s1 -> verify_coinbase b2 = Ok s2 ->
    authorizing_data_digest s1 = authorizing_data_digest s2 -> miner_data s1 = miner_data s2;
}.

Section Binding.
Import Merkle Commitment AuxPowProof.
Context `{Hashes} {C : CoinbaseVerifier} {W : EquihashVerifier} `{!CoinbaseDigests C}.

End Binding.

(** ** A concrete proof

    A parent block of two transactions, whose coinbase carries the example
    commitment, with an adapter that knows this one coinbase. *)

Definition example_coinbase : list byte := bytes_of "coinbase".
Definition example_summary : CoinbaseSummary :=
  mkCoinbaseSummary (replicate 32 Byte.x11) (replicate 32 Byte.x12) example_miner_data.
#[local] Instance example_verifier : CoinbaseVerifier := fun bytes =>
  if bool_decide (bytes = example_coinbase) then Ok example_summary else Err InvalidParentCoinbase.
#[local] Instance example_work : EquihashVerifier := Equihash200_9 (fun _ _ _ _ _ => true).

Definition example_sibling : list byte := replicate 32 Byte.x13.
Definition example_header_bytes : list byte :=
  to_le 4 4 ++ replicate 32 Byte.x01 ++
  Merkle.sha256d_pair (H := example_hashes) (transaction_id example_summary) example_sibling ++
  Merkle.block_commitments_hash (H := example_hashes) (replicate 32 Byte.x14)
    (Merkle.auth_data_hash (H := example_hashes) (authorizing_data_digest example_summary) example_sibling) ++
  replicate 40 Byte.x02 ++ ParentHeader.CANONICAL_SOLUTION_LENGTH ++ replicate 1344 Byte.x03.
Definition example_header : ParentHeader.ParentHeader :=
  ParentHeader.mkParentHeader example_header_bytes 4 0x02020202.
Definition example_proof : AuxPowProof.AuxPowProof :=
  AuxPowProof.mkAuxPowProof example_coinbase [example_sibling] 0 [example_sibling] 0
    (replicate 32 Byte.x14) example_branch example_index example_header.
Definition example_target : list byte := replicate 32 Byte.xff.

Lemma example_digests : CoinbaseDigests example_verifier.
Proof.
  assert (forall b s, verify_coinbase b = Ok s -> s = example_summary) as E.
  { intros b s. unfold verify_coinbase, example_verifier. case_bool_decide; congruence. }
  split.
  - by intros b s ->%E.
  - by intros b1 b2 s1 s2 ->%E ->%E.
Qed.

Lemma example_typed : proof_typed example_proof.
Proof.
  assert (forall b, node (replicate 32 b)) as N by (intros; apply length_replicate).
  split.
  - apply Forall_cons; split; [apply N|constructor].
  - apply Forall_cons; split; [apply N|constructor].
  - apply Forall_cons; split; [apply N|apply Forall_cons; split; [apply N|constructor]].
  - apply N.
  - by_eval.
  - vm_compute. reflexivity.
Qed.

(** The example proof encodes to 1676 bytes and decodes again. *)
Lemma proof_codec_exact_witness :
  exists bytes, AuxPowProof.encode example_proof = Ok bytes /\ len bytes = 1676 /\
    AuxPowProof.decode bytes = Ok example_proof.
Proof.
  assert (AuxPowProof.encode example_proof = Ok (encoding example_proof)) as He
    by (vm_compute; reflexivity).
  exists (encoding example_proof). split; [exact He|]. split; [reflexivity|].
  apply (proof_codec_exact (encoding example_proof) example_proof).
  split; [exact example_typed|exact He].
Defined.

Definition example_validated : AuxPowProof.ValidatedAuxPow :=
  AuxPowProof.mkValidatedAuxPow
    (ParentHeader.mkValidatedParentWork example_header
       (ParentHeader.block_hash (H := example_hashes) example_header) example_target)
    (transaction_id example_summary) (authorizing_data_digest example_summary)
    (Merkle.auth_data_hash (H := example_hashes) (authorizing_data_digest example_summary) example_sibling)
    (replicate 32 Byte.x14) example_commitment.

