(* ===== verification/AuxCoinbase.v ===== *)
(** * The parent coinbase adapter

    [coinbase.rs] of [wcash-zcash-aux] and [canonical_nu7_coinbase] of
    [wcash-zec-parent]: which parent coinbase bytes a rule set accepts, and
    the selection of the rule set from the candidate Wcash height.

    The adapter runs two transaction parsers: the node's own one for every
    legacy domain and a separately pinned one for NU7.  [TransactionCodec] is
    what the adapter calls of such a parser. *)

From S2P Require Import Prelude AuxCodec AuxMerkle AuxProof.
Import ParentCoinbaseRules.

(** The operations of a [Transaction] type that the adapter uses. *)
Class TransactionCodec := {
  Transaction : Type;
  zcash_deserialize : list byte -> option (Transaction * Z);  (* and the cursor position *)
  zcash_serialize : Transaction -> option (list byte);
  is_coinbase : Transaction -> bool;
  tx_version : Transaction -> Z;
  embedded_consensus_branch_id : Transaction -> option Z;
  consensus_branch_id : Transaction -> Z;
  auth_digest : Transaction -> option (list byte);
  tx_hash : Transaction -> list byte;
  first_input_miner_data : Transaction -> option (list byte);
}.

(** Version 5 and 6 transactions have their branch identifier in bytes 8 to 11. *)
Class EmbeddedBranch (T : TransactionCodec) : Prop :=
  embedded_branch_bytes bytes tx position branch :
    zcash_deserialize bytes = Some (tx, position) -> (tx_version tx = 5 \/ tx_version tx = 6) ->
    embedded_consensus_branch_id tx = Some branch ->
    (12 <= length bytes)%nat /\ slice 8 12 bytes = to_le 4 branch /\ 0 <= branch <= U32_MAX.

Definition NU7_BRANCH_ID : Z := 0x77190ad9.
Definition MAX_PARENT_COINBASE_BYTES : Z := 128 * 1024.

(** [ParentError]. *)
Inductive ParentError :=
| ParentCoinbaseTooLarge
| InvalidCoinbase
| NonCanonicalCoinbase
| NotCoinbase
| UnsupportedVersion (version : Z)
| UnsupportedBranch (branch : Z).

Definition version_5_or_6 (version : Z) : bool := (version =? 5) || (version =? 6).

(** [canonical_nu7_coinbase]. *)
Definition canonical_nu7_coinbase {T : TransactionCodec} (bytes : list byte) :
    outcome ParentError Transaction :=
  if len bytes >? MAX_PARENT_COINBASE_BYTES then Err ParentCoinbaseTooLarge
  else
    let? ' (transaction, position) := ok_or (zcash_deserialize bytes) InvalidCoinbase in
    if negb (position =? len bytes) then Err NonCanonicalCoinbase
    else if negb (version_5_or_6 (tx_version transaction)) then
      Err (UnsupportedVersion (tx_version transaction))
    else
      let branch := consensus_branch_id transaction in
      if negb (branch =? NU7_BRANCH_ID) then Err (UnsupportedBranch branch)
      else if negb (is_coinbase transaction) then Err NotCoinbase
      else
        let? canonical := ok_or (zcash_serialize transaction) InvalidCoinbase in
        if negb (bool_decide (canonical = bytes)) then Err NonCanonicalCoinbase
        else Ok transaction.

(** The error translation of [verify_nu7_coinbase]. *)
Definition of_parent_error (error : ParentError) : AuxPowError :=
  match error with
  | NonCanonicalCoinbase => NonCanonicalParentCoinbase
  | NotCoinbase => ParentTransactionIsNotCoinbase
  | UnsupportedVersion version => UnsupportedParentCoinbaseVersion version
  | UnsupportedBranch branch => UnsupportedParentCoinbaseBranch branch
  | ParentCoinbaseTooLarge | InvalidCoinbase => InvalidParentCoinbase
  end.

(** [verify_nu7_coinbase]. *)
Definition verify_nu7_coinbase {T : TransactionCodec} (serialized_coinbase : list byte) :
    outcome AuxPowError CoinbaseSummary :=
  let? transaction := map_err of_parent_error (canonical_nu7_coinbase serialized_coinbase) in
  let? digest := ok_or (auth_digest transaction) InvalidParentCoinbase in
  let? miner_data := ok_or (first_input_miner_data transaction) MissingParentCoinbaseMinerData in
  Ok (mkCoinbaseSummary (tx_hash transaction) digest miner_data).

(** The legacy path of [ZebraCoinbaseVerifierWithRules::verify]. *)
Definition verify_legacy_coinbase {T : TransactionCodec} (rules : ParentCoinbaseRules)
    (serialized_coinbase : list byte) : outcome AuxPowError CoinbaseSummary :=
  let? ' (transaction, position) := ok_or (zcash_deserialize serialized_coinbase) InvalidParentCoinbase in
  let? expected_length := ok_or (u64_checked (len serialized_coinbase)) InvalidParentCoinbase in
  if negb (position =? expected_length) then Err NonCanonicalParentCoinbase
  else if negb (is_coinbase transaction) then Err ParentTransactionIsNotCoinbase
  else
    let? canonical := ok_or (zcash_serialize transaction) InvalidParentCoinbase in
    if negb (bool_decide (canonical = serialized_coinbase)) then Err NonCanonicalParentCoinbase
    else if negb (version_5_or_6 (tx_version transaction)) then
      Err (UnsupportedParentCoinbaseVersion (tx_version transaction))
    else
      let? branch_id := ok_or (embedded_consensus_branch_id transaction) InvalidParentCoinbase in
      do? check_branch rules branch_id in
      let? authorizing_data_digest :=
        ok_or (auth_digest transaction) (UnsupportedParentCoinbaseVersion (tx_version transaction)) in
      let? miner_data := ok_or (first_input_miner_data transaction) MissingParentCoinbaseMinerData in
      Ok (mkCoinbaseSummary (tx_hash transaction) authorizing_data_digest miner_data).

(** [serialized_coinbase.get(8..12)]. *)
Definition branch_bytes (serialized_coinbase : list byte) : option (list byte) :=
  if (12 <=? length serialized_coinbase)%nat then Some (slice 8 12 serialized_coinbase) else None.

(** [ZebraCoinbaseVerifierWithRules::verify], with the two parsers. *)
Definition ZebraCoinbaseVerifierWithRules (legacy modern : TransactionCodec)
    (rules : ParentCoinbaseRules) : CoinbaseVerifier := fun serialized_coinbase =>
  if bool_decide (rules = LegacyAndNu7) &&
     bool_decide (branch_bytes serialized_coinbase = Some (to_le 4 NU7_BRANCH_ID))
  then verify_nu7_coinbase (T := modern) serialized_coinbase
  else verify_legacy_coinbase (T := legacy) rules serialized_coinbase.

(** [AuxPowProof::validate_with_parent_rules]. *)
Definition validate_with_parent_rules `{Hashes} (legacy modern : TransactionCodec) {W : EquihashVerifier}
    (self : AuxPowProof.AuxPowProof) (auxiliary_block_hash required_target : list byte)
    (parent_rules : ParentCoinbaseRules) : outcome AuxPowError AuxPowProof.ValidatedAuxPow :=
  AuxPowProof.validate_with_verifiers (C := ZebraCoinbaseVerifierWithRules legacy modern parent_rules)
    self auxiliary_block_hash required_target.

(** ** Growing the accepted domain *)

Section Rules.

Lemma check_rules_branch_Ok rules branch u :
  check_branch rules branch = Ok u <->
  branch ∈ legacy_branches \/ (rules = LegacyAndNu7 /\ branch = NU7_BRANCH_ID).
Proof.
  unfold check_branch.
  assert (existsb (Z.eqb branch) legacy_branches = true <-> branch ∈ legacy_branches) as L.
  { rewrite existsb_exists, list_elem_of_In. split.
    - by intros (x & Hx & ->%Z.eqb_eq).
    - intros Hx. exists branch. split; [done|apply Z.eqb_refl]. }
  rewrite <- L. unfold NU7_BRANCH_ID.
  destruct (existsb _ _); simpl; [destruct u; naive_solver|].
  destruct (Z.eqb_spec branch 0x77190ad9), rules, u; simpl; naive_solver.
Qed.

Lemma nu7_not_legacy : NU7_BRANCH_ID ∉ legacy_branches.
Proof. apply (bool_decide_unpack _). vm_compute. exact I. Qed.

Lemma for_candidate_height_mono h1 h2 activation :
  h1 <= h2 -> for_candidate_height h1 activation = LegacyAndNu7 ->
  for_candidate_height h2 activation = LegacyAndNu7.
Proof.
  intros Hh. unfold for_candidate_height. destruct activation as [a|]; [|done].
  destruct (Z.geb_spec h1 a), (Z.geb_spec h2 a); done || lia.
Qed.

(** What the legacy path checked. *)
Lemma verify_legacy_coinbase_Ok {T : TransactionCodec} rules bytes s :
  verify_legacy_coinbase rules bytes = Ok s <->
  exists tx branch digest data,
    zcash_deserialize bytes = Some (tx, len bytes) /\ len bytes <= U64_MAX /\
    is_coinbase tx = true /\ zcash_serialize tx = Some bytes /\
    (tx_version tx = 5 \/ tx_version tx = 6) /\ embedded_consensus_branch_id tx = Some branch /\
    check_branch rules branch = Ok tt /\ auth_digest tx = Some digest /\
    first_input_miner_data tx = Some data /\ s = mkCoinbaseSummary (tx_hash tx) digest data.
Proof.
  unfold verify_legacy_coinbase, version_5_or_6. split.
  - intros V. apply obind_Ok in V as ([tx position] & D%ok_or_Ok & V).
    apply obind_Ok in V as (n & [-> Hn]%ok_or_Ok%checked_Some & V).
    destruct (Z.eqb_spec position (len bytes)) as [->|]; [|done]. cbn [negb] in V.
    destruct (is_coinbase tx) eqn:Hc; [|done]. cbn [negb] in V.
    apply obind_Ok in V as (canonical & Hs%ok_or_Ok & V).
    case_bool_decide; [subst canonical|done]. cbn [negb] in V. case_match eqn:Hv; [done|].
    apply obind_Ok in V as (branch & Hb%ok_or_Ok & V). apply obind_Ok in V as ([] & Hcb & V).
    apply obind_Ok in V as (digest & Hd%ok_or_Ok & V). apply obind_Ok in V as (data & Hm%ok_or_Ok & [= <-]).
    exists tx, branch, digest, data. split_and!; try done; [bool_lia|].
    apply negb_false_iff, orb_true_iff in Hv as [?%Z.eqb_eq|?%Z.eqb_eq]; auto.
  - intros (tx & branch & digest & data & -> & Hl & Hc & Hs & Hv & Hb & Hcb & Hd & Hm & ->).
    cbn [ok_or obind]. rewrite checked_ok by lia. cbn [ok_or obind].
    rewrite Z.eqb_refl, Hc, Hs. cbn [negb ok_or obind]. rewrite bool_decide_eq_true_2 by done. cbn [negb].
    assert ((tx_version tx =? 5) || (tx_version tx =? 6) = true) as -> by (destruct Hv as [-> | ->]; done).
    cbn [negb]. by rewrite Hb, Hd, Hm; cbn [ok_or obind]; rewrite Hcb.
Qed.

(** The new rules accept what the legacy rules accept, with the same summary. *)
Lemma verifier_extends (legacy modern : TransactionCodec) `{!EmbeddedBranch legacy} bytes s :
  ZebraCoinbaseVerifierWithRules legacy modern Legacy bytes = Ok s ->
  ZebraCoinbaseVerifierWithRules legacy modern LegacyAndNu7 bytes = Ok s.
Proof.
  unfold ZebraCoinbaseVerifierWithRules. rewrite bool_decide_eq_false_2, andb_false_l by done. intros V.
  pose proof V as V'. apply verify_legacy_coinbase_Ok in V'
    as (tx & branch & digest & data & D & Hl & Hc & Hs & Hv & Hb & Hcb & Hd & Hm & ->).
  apply check_rules_branch_Ok in Hcb as [Hcb|[? _]]; [|done].
  destruct (EmbeddedBranch0 bytes tx _ branch D Hv Hb) as (Hlen & Hbytes & Hr).
  assert (branch_bytes bytes <> Some (to_le 4 NU7_BRANCH_ID)) as Hne.
  { unfold branch_bytes. rewrite (proj2 (Nat.leb_le _ _)) by done. rewrite Hbytes. intros E.
    apply (inj Some), (f_equal of_le) in E. unfold NU7_BRANCH_ID in E. rewrite !of_to_le in E by bool_lia.
    apply nu7_not_legacy. change NU7_BRANCH_ID with 0x77190ad9. by rewrite <- E. }
  rewrite (bool_decide_eq_false_2 (branch_bytes _ = _)), andb_false_r by done.
  apply verify_legacy_coinbase_Ok. exists tx, branch, digest, data.
  split_and!; try done. apply check_rules_branch_Ok. by left.
Qed.

(** The pipeline is monotone in its coinbase adapter. *)
Lemma validate_extends `{Hashes} {W : EquihashVerifier} (C1 C2 : CoinbaseVerifier) p h t v :
  (forall bytes s, C1 bytes = Ok s -> C2 bytes = Ok s) ->
  AuxPowProof.validate_with_verifiers (C := C1) p h t = Ok v ->
  AuxPowProof.validate_with_verifiers (C := C2) p h t = Ok v.
Proof.
  intros HC. unfold AuxPowProof.validate_with_verifiers. intros V.
  apply obind_Ok in V as (? & -> & V). cbn [obind] in *.
  apply obind_Ok in V as (? & -> & V). cbn [obind] in *.
  apply obind_Ok in V as (s & Hs & V). unfold verify_coinbase in *. by rewrite (HC _ _ Hs).
Qed.
End Rules.
