(* ===== verification/BlockChecks.v ===== *)
(** * Semantic block checks

    [zebra-consensus/src/block/check.rs]: the coinbase position, the
    difficulty filter, the AuxPoW rules of a Wcash header, and the coinbase
    value rules with the Wcash payout modes. *)

From S2P Require Import Prelude Amounts Difficulty Networks Subsidies Retarget AuxCodec AuxMerkle AuxProof AuxCoinbase.
Import Amount(Amount, zatoshis, NegativeAllowed, NonNegative) Network NetworkUpgrade.

Module BlockCheck.

(** [equihash::Solution]; the Wcash variant holds the encoded AuxPoW proof. *)
Inductive Solution :=
| CommonSolution (bytes : list byte)
| RegtestSolution (bytes : list byte)
| WcashSolution (bytes : list byte).

(** [Solution::as_wcash]. *)
Definition as_wcash (self : Solution) : option (list byte) :=
  match self with
  | WcashSolution solution => Some solution
  | CommonSolution _ | RegtestSolution _ => None
  end.

(** The fields of [block::Header] that these checks read. *)
Record Header := mkHeader { version : Z; difficulty_threshold : Z; solution : Solution }.

Definition WCASH_BLOCK_WIRE_VERSION : Z := 0xd7430001.

(** The errors of [TransactionError] and [BlockError] that these checks return. *)
Inductive TransactionError :=
| CoinbasePosition
| CoinbaseAfterFirst
| TransactionNotCoinbase
| WcashCoinbaseOutputPubliclyRecoverable.
Inductive BlockError :=
| NoTransactions
| BadMerkleRoot (actual expected : list byte)
| DuplicateTransaction
| WrongTransactionConsensusBranchId
| TransactionFailed (e : TransactionError)
| InvalidDifficulty (height : Z) (hash : list byte)
| TargetDifficultyLimit (height : Z) (hash : list byte) (threshold limit : Z)
| DifficultyFilter (height : Z) (hash : list byte) (threshold : Z)
| InvalidWcashHeaderVersion (height : Z) (hash : list byte) (actual expected : Z)
| MissingWcashAuxPowVariant (height : Z) (hash : list byte)
| UnexpectedWcashGenesisAuxPow (hash : list byte)
| MissingWcashAuxPow (height : Z) (hash : list byte)
| InvalidWcashAuxPow (height : Z) (hash : list byte) (source : AuxPowError)
| SubsidyFailed (e : Subsidy.SubsidyError)
| InvalidTransparentValueBalance (e : Amount.Error).

(** [coinbase_is_first], on transactions with the two predicates it calls. *)
Definition coinbase_is_first {T : Type} (is_coinbase is_valid_non_coinbase : T -> bool)
    (transactions : list T) : outcome BlockError T :=
  let? first := ok_or (head transactions) NoTransactions in
  let rest := drop 1 transactions in
  if negb (is_coinbase first) then Err (TransactionFailed CoinbasePosition)
  else if negb (forallb is_valid_non_coinbase rest) then Err (TransactionFailed CoinbaseAfterFirst)
  else Ok first.

(** ** Difficulty *)

(** [difficulty_threshold_is_valid]. *)
Definition difficulty_threshold_is_valid (header : Header) (network : Network) (height : Z)
    (hash : list byte) : outcome BlockError Z :=
  let? expanded := CompactDifficulty.to_expanded (difficulty_threshold header) in
  let? difficulty_threshold := ok_or expanded (InvalidDifficulty height hash) in
  let? limit := AdjustedDifficulty.net_target_difficulty_limit network in
  if difficulty_threshold >? limit then
    Err (TargetDifficultyLimit height hash difficulty_threshold limit)
  else Ok difficulty_threshold.

(** [difficulty_is_valid]. *)
Definition difficulty_is_valid (header : Header) (network : Network) (height : Z)
    (hash : list byte) : outcome BlockError unit :=
  let? difficulty_threshold := difficulty_threshold_is_valid header network height hash in
  match ExpandedDifficulty.hash_cmp hash difficulty_threshold with
  | Gt => Err (DifficultyFilter height hash difficulty_threshold)
  | _ => Ok tt
  end.

(** ** AuxPoW *)

(** [wcash_auxpow_witness]. *)
Definition wcash_auxpow_witness (header : Header) (height : Z) (hash : list byte) :
    outcome BlockError (list byte) :=
  if negb (version header =? WCASH_BLOCK_WIRE_VERSION) then
    Err (InvalidWcashHeaderVersion height hash (version header) WCASH_BLOCK_WIRE_VERSION)
  else ok_or (as_wcash (solution header)) (MissingWcashAuxPowVariant height hash).

(** [wcash_auxpow_target]. *)
Definition wcash_auxpow_target (difficulty : Z) : outcome AuxPowError (list byte) :=
  Target.from_le_bytes (to_le 32 difficulty).

(** [wcash_auxpow_proposal_is_valid]. *)
Definition wcash_auxpow_proposal_is_valid (header : Header) (network : Network) (height : Z)
    (hash : list byte) : outcome BlockError unit :=
  let? witness := wcash_auxpow_witness header height hash in
  do? difficulty_threshold_is_valid header network height hash in
  if Height.is_min height && negb (bool_decide (witness = [])) then
    Err (UnexpectedWcashGenesisAuxPow hash)
  else Ok tt.

Section AuxPow.
Context `{Hashes} (legacy modern : TransactionCodec) {W : EquihashVerifier}.

(** The rule set of a candidate block. *)
Definition parent_rules (network : Network) (height : Z) : ParentCoinbaseRules.ParentCoinbaseRules :=
  ParentCoinbaseRules.for_candidate_height height (wcash_nu7_parent_activation_height network).

(** [wcash_auxpow_is_valid]. *)
Definition wcash_auxpow_is_valid (header : Header) (network : Network) (height : Z)
    (hash : list byte) : outcome BlockError unit :=
  let? witness := wcash_auxpow_witness header height hash in
  let? difficulty := difficulty_threshold_is_valid header network height hash in
  if Height.is_min height then
    if bool_decide (witness = []) then Ok tt else Err (UnexpectedWcashGenesisAuxPow hash)
  else if bool_decide (witness = []) then Err (MissingWcashAuxPow height hash)
  else
    let? target := map_err (InvalidWcashAuxPow height hash) (wcash_auxpow_target difficulty) in
    let? proof := map_err (InvalidWcashAuxPow height hash) (AuxPowProof.decode witness) in
    let parent_rules := parent_rules network height in
    do? map_err (InvalidWcashAuxPow height hash)
      (validate_with_parent_rules legacy modern proof hash target parent_rules) in
    Ok tt.
End AuxPow.

(** ** Coinbase value *)

(** What [miner_fees_are_valid] reads of a coinbase transaction. *)
Record CoinbaseTransaction := mkCoinbase {
  outputs : list Foundation.Output;
  sapling_value_balance : Amount NegativeAllowed;
  orchard_value_balance : Amount NegativeAllowed;
  ironwood_value_balance : Amount NegativeAllowed;
  has_sapling_shielded_data : bool;
  has_orchard_shielded_data : bool;
  has_ironwood_actions : bool;
  is_coinbase : bool;
}.

(** [WcashCoinbasePayoutMode] and [wcash_coinbase_payout_mode]. *)
Inductive WcashCoinbasePayoutMode := Transparent | Ironwood.
Definition wcash_coinbase_payout_mode (has_transparent_outputs has_ironwood_outputs : bool) :
    outcome Subsidy.SubsidyError WcashCoinbasePayoutMode :=
  match has_transparent_outputs, has_ironwood_outputs with
  | false, false => Err Subsidy.WcashCoinbaseOutputMissing
  | true, true => Err Subsidy.WcashMixedCoinbaseOutputs
  | true, false => Ok Transparent
  | false, true => Ok Ironwood
  end.

Section CoinbaseValue.
Context `{ConsensusBuild, Foundation.FoundationEnv}.

(** [zcash_note_encryption::ironwood_outputs_are_private_from_zero_ovk], a trial
    decryption by the [orchard] crate. *)
Context (ironwood_outputs_are_private_from_zero_ovk : CoinbaseTransaction -> Network -> Z -> bool).

(** [wcash_coinbase_outputs_are_private]. *)
Definition wcash_coinbase_outputs_are_private (transaction : CoinbaseTransaction) (network : Network)
    (height : Z) : outcome TransactionError unit :=
  if negb (uses_wcash_consensus network) then Ok tt
  else if negb (is_coinbase transaction) then Err TransactionNotCoinbase
  else if negb (ironwood_outputs_are_private_from_zero_ovk transaction network height) then
    Err WcashCoinbaseOutputPubliclyRecoverable
  else Ok tt.

(** The payout rules of a Wcash coinbase, after genesis. *)
Definition wcash_payout_is_valid (coinbase_tx : CoinbaseTransaction) (height : Z)
    (expected_block_subsidy total_input_value : Amount NonNegative) (network : Network) :
    outcome BlockError unit :=
  if has_sapling_shielded_data coinbase_tx then Err (SubsidyFailed Subsidy.WcashSaplingCoinbaseOutput)
  else if has_orchard_shielded_data coinbase_tx then
    Err (SubsidyFailed Subsidy.WcashOrchardCoinbaseOutput)
  else
    let? foundation_output_index := map_err SubsidyFailed
      (Foundation.wcash_foundation_fund_output_index height network expected_block_subsidy
         (outputs coinbase_tx)) in
    let has_transparent_outputs :=
      len (outputs coinbase_tx) >? (if foundation_output_index then 1 else 0) in
    let has_ironwood_outputs := has_ironwood_actions coinbase_tx in
    let? mode := map_err SubsidyFailed
      (wcash_coinbase_payout_mode has_transparent_outputs has_ironwood_outputs) in
    match mode with
    | Ironwood =>
        do? map_err TransactionFailed (wcash_coinbase_outputs_are_private coinbase_tx network height) in
        let? allocation := Foundation.wcash_foundation_fund height network expected_block_subsidy in
        let? share := match allocation with
                      | None => Amount.zero NonNegative
                      | Some allocation => Ok (Foundation.amount allocation)
                      end in
        let? miner_input_value := map_err (fun _ => SubsidyFailed Subsidy.Underflow)
          (Amount.sub total_input_value share) in
        if negb (Amount.is_zero miner_input_value) &&
           (zatoshis (ironwood_value_balance coinbase_tx) >=? 0)
        then Err (SubsidyFailed Subsidy.WcashIronwoodValueBalanceNotNegative)
        else Ok tt
    | Transparent => Ok tt
    end.

(** [miner_fees_are_valid]. *)
Definition miner_fees_are_valid (coinbase_tx : CoinbaseTransaction) (height : Z)
    (block_miner_fees expected_block_subsidy : Amount NonNegative)
    (expected_deferred_pool_balance_change : Amount.DeferredPoolBalanceChange) (network : Network) :
    outcome BlockError unit :=
  let overflow := fun _ : Amount.Error => SubsidyFailed Subsidy.Overflow in
  let? transparent := map_err overflow (Amount.sum (map Foundation.value (outputs coinbase_tx))) in
  let? transparent_value_balance := map_err InvalidTransparentValueBalance
    (Amount.constrain NegativeAllowed transparent) in
  let? total_output_value := map_err overflow
    (Amount.add_result
       (Amount.sub_result
          (Amount.sub_result
             (Amount.sub transparent_value_balance (sapling_value_balance coinbase_tx))
             (orchard_value_balance coinbase_tx))
          (ironwood_value_balance coinbase_tx))
       (Amount.deferred_value expected_deferred_pool_balance_change)) in
  let wcash := uses_wcash_consensus network && (height >? Height.MIN) in
  do? if wcash then
        let? raw_total_input := ok_or
          (i64_checked (zatoshis expected_block_subsidy + zatoshis block_miner_fees))
          (SubsidyFailed Subsidy.Overflow) in
        if raw_total_input >? MAX_WCASH_COINBASE_VALUE
        then Err (SubsidyFailed Subsidy.WcashCoinbaseValueTooLarge) else Ok tt
      else Ok tt in
  let? total_input_value := map_err overflow (Amount.add expected_block_subsidy block_miner_fees) in
  do? if wcash then
        wcash_payout_is_valid coinbase_tx height expected_block_subsidy total_input_value network
      else Ok tt in
  let? pre_nu6 :=
    if negb (is_wcash_mainnet network) then
      let? nu := current (activation_list network) height in
      Ok (rank nu <? rank Nu6)
    else Ok false in
  let out := zatoshis total_output_value in
  let inp := zatoshis total_input_value in
  if (if pre_nu6 then out >? inp else negb (out =? inp)) then Err (SubsidyFailed Subsidy.InvalidMinerFees)
  else Ok tt.
End CoinbaseValue.
End BlockCheck.

(** ** Accepted AuxPoW headers *)

Section AuxPowChecks.
Import BlockCheck.
Context `{Hashes} (legacy modern : TransactionCodec) {W : EquihashVerifier}.

Lemma threshold_Ok header network height hash d :
  0 <= difficulty_threshold header <= U32_MAX ->
  difficulty_threshold_is_valid header network height hash = Ok d ->
  d = to_target (difficulty_threshold header) /\ 0 < d <= U256_MAX /\
  exists limit, AdjustedDifficulty.net_target_difficulty_limit (E:=BlockError) network = Ok limit /\ d <= limit.
Proof.
  intros Hx V. unfold difficulty_threshold_is_valid in V.
  rewrite to_expanded_target in V by done. cbn [obind] in V.
  set (t := to_target (difficulty_threshold header)) in *.
  destruct ((0 <? t) && (t <=? U256_MAX)) eqn:Hr; [|done]. cbn [ok_or obind] in V.
  apply obind_Ok in V as (limit & Hl & V). case_match; [done|]. injection V as <-.
  split; [done|]. split; [bool_lia|]. exists limit. split; [done|bool_lia].
Qed.

Lemma witness_Ok header height hash w :
  wcash_auxpow_witness header height hash = Ok w <->
  version header = WCASH_BLOCK_WIRE_VERSION /\ solution header = WcashSolution w.
Proof.
  unfold wcash_auxpow_witness.
  destruct (Z.eqb_spec (version header) WCASH_BLOCK_WIRE_VERSION), (solution header); simpl; naive_solver.
Qed.

Lemma target_Ok d t :
  0 < d <= U256_MAX -> wcash_auxpow_target d = Ok t <-> t = to_le 32 d.
Proof.
  intros Hd. unfold wcash_auxpow_target, Target.from_le_bytes.
  assert (to_le 32 d <> replicate 32 Byte.x00) as Hne.
  { intros E. apply (f_equal of_le) in E. rewrite of_to_le in E by (change (2 ^ (8 * Z.of_nat 32)) with (U256_MAX + 1); lia).
    rewrite (proj2 (of_le_zero 32 _ (length_replicate _ _)) eq_refl) in E. lia. }
  rewrite bool_decide_eq_false_2 by done. naive_solver.
Qed.

(** The steps of an accepted header after genesis. *)
Lemma auxpow_accepted header network height hash :
  0 < height -> 0 <= difficulty_threshold header <= U32_MAX ->
  wcash_auxpow_is_valid legacy modern header network height hash = Ok tt <->
  exists w d p v, version header = WCASH_BLOCK_WIRE_VERSION /\ solution header = WcashSolution w /\
    difficulty_threshold_is_valid header network height hash = Ok d /\
    AuxPowProof.decode w = Ok p /\
    validate_with_parent_rules legacy modern p hash (to_le 32 d) (parent_rules network height) = Ok v.
Proof.
  intros Hh Hx. unfold wcash_auxpow_is_valid, Height.is_min, Height.MIN.
  rewrite (proj2 (Z.eqb_neq height 0)) by lia. split.
  - intros V. apply obind_Ok in V as (w & [Hv Hs]%witness_Ok & V). apply obind_Ok in V as (d & Hd & V).
    case_match; [done|]. apply obind_Ok in V as (t & Ht%map_err_Ok & V).
    apply target_Ok in Ht as ->; [|by eapply threshold_Ok].
    apply obind_Ok in V as (p & Hp%map_err_Ok & V). apply obind_Ok in V as (v & Hval%map_err_Ok & _).
    by exists w, d, p, v.
  - intros (w & d & p & v & Hv & Hs & Hd & Hp & Hval).
    rewrite (proj2 (witness_Ok _ _ _ w)) by done. cbn [obind]. rewrite Hd. cbn [obind].
    rewrite bool_decide_eq_false_2 by (intros ->; by vm_compute in Hp).
    rewrite (proj2 (target_Ok d (to_le 32 d) ltac:(by eapply threshold_Ok)) eq_refl). cbn [map_err obind].
    rewrite Hp. cbn [map_err obind]. by rewrite Hval.
Qed.

(** What a validated proof shows about its parent. *)
Lemma validated_parent_work p hash d rules v : 0 < d <= U256_MAX ->
  validate_with_parent_rules legacy modern p hash (to_le 32 d) rules = Ok v ->
  let parent := AuxPowProof.parent_header p in
  of_le (ParentHeader.block_hash parent) <= d /\ verify_work parent = Ok tt /\
  exists s, ZebraCoinbaseVerifierWithRules legacy modern rules (AuxPowProof.coinbase_bytes p) = Ok s /\
    exists prefix payload nonce, miner_data s = prefix ++ payload /\
      Commitment.commitment_payload hash (AuxPowProof.auxiliary_merkle_branch p)
        (AuxPowProof.auxiliary_index p) nonce = Ok payload.
Proof.
  intros Hd Hval. apply validate_with_verifiers_Ok in Hval as [s K]. cbv zeta. split_and!.
  - pose proof (checked_target _ _ _ _ _ K) as M. unfold Target.is_met_by_le_hash in M.
    pose proof (sha256d_length (ParentHeader.as_bytes (AuxPowProof.parent_header p))) as Lh.
    fold (ParentHeader.block_hash (AuxPowProof.parent_header p)) in Lh. pose proof (length_le_split 32 d) as Lt.
    rewrite compare_down_le, !take_ge in M by lia.
    rewrite of_to_le in M by (change (2 ^ (8 * Z.of_nat 32)) with (U256_MAX + 1); lia). lia.
  - apply (checked_equihash _ _ _ _ _ K).
  - exists s. split; [apply (checked_coinbase _ _ _ _ _ K)|]. pose proof (checked_commitment _ _ _ _ _ K) as M.
    apply validate_miner_data_commitment_Ok in M as (_ & _ & _ & prefix & payload & Hpay & Hmd).
    by exists prefix, payload, (Commitment.nonce (AuxPowProof.commitment v)).
Qed.


(** Activating the NU7 parent rules never invalidates a block: on every
    network, a header accepted at one height after genesis is accepted at
    every later height as well, with the same hash and target.  Both parsers
    are arbitrary; the legacy one has the branch identifier of version 5 and 6
    transactions where their format puts it. *)
Theorem auxpow_rules_monotone (header : Header) (network : Network) (h1 h2 : Z) (hash : list byte) :
  EmbeddedBranch legacy -> 0 < h1 <= h2 -> 0 <= difficulty_threshold header <= U32_MAX ->
  wcash_auxpow_is_valid legacy modern header network h1 hash = Ok tt ->
  wcash_auxpow_is_valid legacy modern header network h2 hash = Ok tt.
Proof.
  intros HE Hh Hx V. apply auxpow_accepted in V as (w & d & p & v & Hv & Hs & Hd & Hp & Hval); [|lia|done].
  apply auxpow_accepted; [lia|done|]. exists w, d, p, v. split_and!; try done.
  - unfold difficulty_threshold_is_valid in *. rewrite to_expanded_target in * by done.
    cbn [obind] in *. case_match; [|done]. cbn [ok_or obind] in *.
    apply obind_Ok in Hd as (limit & -> & Hd). cbn [obind]. case_match; done.
  - unfold validate_with_parent_rules in *. eapply validate_extends; [|exact Hval]. intros bytes s.
    unfold parent_rules. destruct (ParentCoinbaseRules.for_candidate_height h1 _) eqn:E1.
    + destruct (ParentCoinbaseRules.for_candidate_height h2 _); [done|]. by apply verifier_extends.
    + by rewrite (for_candidate_height_mono h1 h2 _ ltac:(lia) E1).
Qed.
End AuxPowChecks.

(** ** Accepted coinbase values *)

Section CoinbaseChecks.
Import BlockCheck Foundation.
Context `{ConsensusBuild, FoundationEnv}.
Context (ironwood_outputs_are_private_from_zero_ovk : CoinbaseTransaction -> Network -> Z -> bool).

(** The amounts of a coinbase are valid, as their type guarantees. *)
Record coinbase_valid (tx : CoinbaseTransaction) : Prop := {
  valid_outputs : Forall (fun o => Amount.valid (value o)) (outputs tx);
  valid_sapling : Amount.valid (sapling_value_balance tx);
  valid_orchard : Amount.valid (orchard_value_balance tx);
  valid_ironwood : Amount.valid (ironwood_value_balance tx);
}.

(** Total of the transparent outputs. *)
Definition output_total (l : list Output) : Z := Amount.total (map value l).

Lemma valid_map_value l : Forall (fun o => Amount.valid (value o)) l -> Forall Amount.valid (map value l).
Proof. induction 1; simpl; by constructor. Qed.

Lemma amount_sub_Ok {C} (a b c : Amount C) :
  Amount.valid a -> Amount.valid b -> Amount.sub a b = Ok c ->
  zatoshis c = zatoshis a - zatoshis b /\ Amount.valid c.
Proof. intros Ha Hb Hc. rewrite Amount.sub_in_range in Hc by done. by apply Amount.in_range_Ok in Hc. Qed.

Lemma amount_add_Ok {C} (a b c : Amount C) :
  Amount.valid a -> Amount.valid b -> Amount.add a b = Ok c ->
  zatoshis c = zatoshis a + zatoshis b /\ Amount.valid c.
Proof. intros Ha Hb Hc. rewrite Amount.add_in_range in Hc by done. by apply Amount.in_range_Ok in Hc. Qed.

(** The chain of checked operations computes the exact balance. *)
Lemma total_output_Ok (t s o i d r : Amount NegativeAllowed) :
  Amount.valid t -> Amount.valid s -> Amount.valid o -> Amount.valid i -> Amount.valid d ->
  Amount.add_result (Amount.sub_result (Amount.sub_result (Amount.sub t s) o) i) d = Ok r ->
  zatoshis r = zatoshis t - zatoshis s - zatoshis o - zatoshis i + zatoshis d.
Proof.
  intros Ht Hs Ho Hi Hd R. unfold Amount.add_result, Amount.sub_result in R.
  apply obind_Ok in R as (a & Ra & R). apply obind_Ok in Ra as (b & Rb & Ra).
  apply obind_Ok in Rb as (c & Rc & Rb).
  apply amount_sub_Ok in Rc as [Ec Vc]; [|done|done]. apply amount_sub_Ok in Rb as [Eb Vb]; [|done|done].
  apply amount_sub_Ok in Ra as [Ea Va]; [|done|done]. apply amount_add_Ok in R as [Er _]; [|done|done]. lia.
Qed.

(** The foundation's share of a subsidy at a height. *)
Definition share (network : Network) (height : Z) (subsidy : Amount NonNegative) : Z :=
  if funded network height then zatoshis subsidy * 3 / 10 else 0.

(** The payout rules: the foundation is paid, and the miner is paid either
    transparently or privately. *)
Definition payout_ok (tx : CoinbaseTransaction) (network : Network) (height : Z)
    (subsidy : Amount NonNegative) (input : Z) : Prop :=
  has_sapling_shielded_data tx = false /\ has_orchard_shielded_data tx = false /\
  (funded network height = true -> exists a,
     mkOutput (Amount.mk (share network height subsidy)) (TransparentAddress.script a) ∈ outputs tx) /\
  let others := len (outputs tx) - (if funded network height then 1 else 0) in
  if has_ironwood_actions tx then
    others = 0 /\ ironwood_outputs_are_private_from_zero_ovk tx network height = true /\
    (input <> share network height subsidy -> zatoshis (ironwood_value_balance tx) < 0)
  else 0 < others.

Lemma output_index_Ok network height (g : Amount NonNegative) outputs i :
  Amount.valid g -> fixed_addresses_parse network ->
  wcash_foundation_fund_output_index height network g outputs = Ok i ->
  bool_decide (i = None) = negb (funded network height) /\
  (funded network height = true -> exists a,
     mkOutput (Amount.mk (share network height g)) (TransparentAddress.script a) ∈ outputs).
Proof.
  intros Hg Hp. unfold wcash_foundation_fund_output_index, share.
  destruct (funded network height) eqn:Hf.
  - destruct (fund_funded (E:=Subsidy.SubsidyError) network height g Hf Hg Hp) as [a ->].
    cbn [obind]. unfold output. cbn [amount address]. intros V.
    apply obind_Ok in V as (k & Hk%ok_or_Ok & [= <-]). split; [done|]. intros _. exists a.
    apply position_Some in Hk as [Hk _]. by eapply list_elem_of_lookup_2.
  - rewrite (fund_unfunded network height g Hf). intros [= <-]. done.
Qed.

(** The share that the Ironwood branch subtracts. *)
Lemma share_Ok {E} network height (g : Amount NonNegative) allocation a :
  Amount.valid g -> fixed_addresses_parse network ->
  wcash_foundation_fund (E:=E) height network g = Ok allocation ->
  match allocation with
  | None => Amount.zero NonNegative
  | Some allocation => Ok (amount allocation)
  end = Ok (E:=E) a ->
  zatoshis a = share network height g /\ Amount.valid a.
Proof.
  intros Hg Hp. unfold share. destruct (funded network height) eqn:Hf.
  - destruct (fund_funded (E:=E) network height g Hf Hg Hp) as [addr ->].
    intros [= <-] [= <-]. cbn [amount zatoshis]. split; [done|].
    destruct (foundation_amount (E:=E) g Hg) as (Hs & _). unfold Amount.valid in *. simpl in *. lia.
  - rewrite (fund_unfunded network height g Hf). intros [= <-].
    rewrite Amount.zero_Ok. intros [= <-]. split; [done|apply Amount.valid_zero].
Qed.

Lemma payout_Ok tx network height (g input : Amount NonNegative) :
  uses_wcash_consensus network = true -> Amount.valid g -> Amount.valid input ->
  fixed_addresses_parse network ->
  wcash_payout_is_valid ironwood_outputs_are_private_from_zero_ovk tx height g input network = Ok tt ->
  payout_ok tx network height g (zatoshis input).
Proof.
  intros Hw Hg Hi Hp. unfold wcash_payout_is_valid, payout_ok.
  destruct (has_sapling_shielded_data tx); [done|]. destruct (has_orchard_shielded_data tx); [done|].
  intros V. apply obind_Ok in V as (i & Hidx%map_err_Ok & V).
  destruct (output_index_Ok _ _ _ _ _ Hg Hp Hidx) as [Hsome Hin].
  split_and!; [done|done|done|].
  assert ((if i then 1 else 0) = (if funded network height then 1 else 0)) as Ei
    by (destruct i, (funded network height); done).
  apply obind_Ok in V as (mode & Hm%map_err_Ok & V). rewrite Ei in Hm.
  destruct (Z.gtb_spec (len (outputs tx)) (if funded network height then 1 else 0)) as [Hgt|Hle];
    destruct (has_ironwood_actions tx); try done; cbn in Hm; injection Hm as <-; [cbv zeta; lia|].
  apply obind_Ok in V as ([] & Hpriv%map_err_Ok & V).
  apply obind_Ok in V as (allocation & Ha & V). apply obind_Ok in V as (a & Hshare & V).
  destruct (share_Ok _ _ _ _ _ Hg Hp Ha Hshare) as [Ea Va].
  apply obind_Ok in V as (m & Hsub%map_err_Ok & V). apply amount_sub_Ok in Hsub as [Em _]; [|done|done].
  split_and!.
  - assert (funded network height = true -> outputs tx <> []) as Hne.
    { intros Hf E. destruct (Hin Hf) as [? Hx]. rewrite E in Hx. by apply elem_of_nil in Hx. }
    destruct (funded network height), (outputs tx); simpl in *; try lia. by destruct Hne.
  - unfold wcash_coinbase_outputs_are_private in Hpriv. rewrite Hw in Hpriv. cbn [negb] in Hpriv.
    destruct (is_coinbase tx); [|done]. by destruct (ironwood_outputs_are_private_from_zero_ovk tx network height).
  - intros Hne. unfold Amount.is_zero in V. rewrite (proj2 (Z.eqb_neq _ 0)) in V by lia. cbn [negb andb] in V.
    destruct (Z.geb_spec (zatoshis (ironwood_value_balance tx)) 0); [done|lia].
Qed.

(** The network applies the post-NU6 rule of exact coinbase value. *)
Definition exact_coinbase (network : Network) (height : Z) : Prop :=
  is_wcash_mainnet network = true \/
  exists nu, current (E:=BlockError) (activation_list network) height = Ok nu /\ rank Nu6 <= rank nu.

(** What [miner_fees_are_valid] establishes on Wcash. *)
Lemma miner_fees_Ok tx height (fees g : Amount NonNegative) deferred network :
  uses_wcash_consensus network = true -> 0 < height -> exact_coinbase network height ->
  fixed_addresses_parse network -> coinbase_valid tx ->
  Amount.valid fees -> Amount.valid g -> Amount.valid (Amount.deferred_value deferred) ->
  miner_fees_are_valid ironwood_outputs_are_private_from_zero_ovk tx height fees g deferred network = Ok tt ->
  output_total (outputs tx) - zatoshis (sapling_value_balance tx) - zatoshis (orchard_value_balance tx) -
    zatoshis (ironwood_value_balance tx) + zatoshis (Amount.deferred_value deferred) =
    zatoshis g + zatoshis fees /\
  zatoshis g + zatoshis fees <= MAX_WCASH_COINBASE_VALUE /\
  payout_ok tx network height g (zatoshis g + zatoshis fees).
Proof.
  intros Hw Hh Hx Hp [Vo Vs Vr Vi] Vf Vg Vd. unfold miner_fees_are_valid. rewrite Hw.
  rewrite (proj2 (Z.gtb_lt height Height.MIN)) by done. cbn [andb]. intros V.
  apply obind_Ok in V as (t & Ht%map_err_Ok & V).
  apply Amount.sum_Ok in Ht as [Et Vt]; [|by apply valid_map_value].
  apply obind_Ok in V as (t' & Hc%map_err_Ok & V). apply Amount.try_from_i64_Ok in Hc as [Et' Vt'].
  apply obind_Ok in V as (out & Ho%map_err_Ok & V). apply total_output_Ok in Ho; try done.
  apply obind_Ok in V as ([] & Hmax & V). apply obind_Ok in Hmax as (raw & [-> _]%ok_or_Ok%checked_Some & Hmax).
  destruct (Z.gtb_spec (zatoshis g + zatoshis fees) MAX_WCASH_COINBASE_VALUE) as [|Hle]; [done|].
  apply obind_Ok in V as (input & Hin%map_err_Ok & V). apply amount_add_Ok in Hin as [Ei Vi']; [|done|done].
  apply obind_Ok in V as ([] & Hpay & V). apply payout_Ok in Hpay; try done. rewrite Ei in Hpay.
  apply obind_Ok in V as (pre & Hpre & V).
  assert (pre = false) as ->.
  { destruct Hx as [Hm|(nu & Hnu & Hrank)]; [rewrite Hm in Hpre; by injection Hpre as <-|].
    destruct (is_wcash_mainnet network); [by injection Hpre as <-|]. cbn [negb] in Hpre.
    rewrite Hnu in Hpre. cbn [obind] in Hpre. injection Hpre as <-. by apply Z.ltb_ge. }
  destruct (Z.eqb_spec (zatoshis out) (zatoshis input)) as [E|]; [|done].
  split_and!; [unfold output_total; lia|done|done].
Qed.

(** In the Ironwood mode, all but the foundation's share enters Ironwood. *)
Lemma ironwood_payout tx network height (g : Amount NonNegative) input :
  payout_ok tx network height g input -> has_ironwood_actions tx = true ->
  output_total (outputs tx) = share network height g.
Proof.
  intros (_ & _ & Hfund & Hmode) Hi. rewrite Hi in Hmode. destruct Hmode as (Hlen & _ & _).
  unfold output_total. destruct (funded network height) eqn:Hf.
  - destruct (Hfund eq_refl) as [a Ha]. destruct (outputs tx) as [|o [|]]; simpl in Hlen; try lia.
    apply list_elem_of_singleton in Ha as <-. simpl. lia.
  - destruct (outputs tx); simpl in Hlen; [|lia]. unfold share. by rewrite Hf.
Qed.

(** The foundation output of an accepted coinbase is found. *)
Lemma payout_index tx network height (g input : Amount NonNegative) :
  wcash_payout_is_valid ironwood_outputs_are_private_from_zero_ovk tx height g input network = Ok tt ->
  exists i, wcash_foundation_fund_output_index height network g (outputs tx) = Ok i.
Proof.
  unfold wcash_payout_is_valid. destruct (has_sapling_shielded_data tx), (has_orchard_shielded_data tx); try done.
  intros (i & Hi%map_err_Ok & _)%obind_Ok. eauto.
Qed.
Lemma miner_fees_index tx height (fees g : Amount NonNegative) deferred network :
  uses_wcash_consensus network = true -> 0 < height ->
  miner_fees_are_valid ironwood_outputs_are_private_from_zero_ovk tx height fees g deferred network = Ok tt ->
  exists i, wcash_foundation_fund_output_index height network g (outputs tx) = Ok i.
Proof.
  intros Hw Hh. unfold miner_fees_are_valid. rewrite Hw, (proj2 (Z.gtb_lt height Height.MIN)) by done. cbn [andb].
  intros (? & _ & (? & _ & (? & _ & (? & _ & (? & _ & ([] & P%payout_index & _)%obind_Ok)%obind_Ok)%obind_Ok)%obind_Ok)%obind_Ok)%obind_Ok.
  done.
Qed.

End CoinbaseChecks.

(** ** Concrete blocks *)

(** A private coinbase of the last funded block, with 1000 atoms of fees. *)
Definition example_fund_output : Foundation.Output :=
  Foundation.mkOutput (Amount.mk 329853744)
    (TransparentAddress.script (PayToPublicKeyHash KindMainnet (replicate 20 Byte.x01))).
Definition example_coinbase_tx : BlockCheck.CoinbaseTransaction :=
  BlockCheck.mkCoinbase [example_fund_output] (Amount.mk 0) (Amount.mk 0) (Amount.mk (- 769659738))
    false false true true.


(** A parser whose transactions are their bytes: a 12-byte prefix with the
    branch identifier, then the miner data. *)
Definition example_codec : TransactionCodec := {|
  Transaction := list byte;
  zcash_deserialize bytes := if (12 <=? length bytes)%nat then Some (bytes, len bytes) else None;
  zcash_serialize tx := Some tx;
  AuxCoinbase.is_coinbase _ := true;
  tx_version _ := 5;
  embedded_consensus_branch_id tx := Some (of_le (slice 8 12 tx));
  consensus_branch_id tx := of_le (slice 8 12 tx);
  auth_digest _ := Some (authorizing_data_digest example_summary);
  tx_hash _ := transaction_id example_summary;
  first_input_miner_data tx := Some (drop 12 tx);
|}.

Lemma example_codec_branch : EmbeddedBranch example_codec.
Proof.
  intros bytes tx position branch. cbn [zcash_deserialize tx_version embedded_consensus_branch_id example_codec].
  destruct (Nat.leb_spec 12 (length bytes)) as [Hl|]; [|done].
  intros [= <- <-] _ [= <-]. split; [done|].
  assert (length (slice 8 12 bytes) = 4%nat) as Ls by (unfold slice; rewrite length_take, length_drop; lia).
  split; [by rewrite to_of_le|]. pose proof (of_le_bound (slice 8 12 bytes)) as B. rewrite Ls in B. bool_lia.
Qed.

(** A Wcash Regtest block whose proof has a coinbase of the NU6.3 domain. *)
Definition example_regtest : Network := network_of (new_wcash_regtest [] []).
Definition example_block_proof : AuxPowProof.AuxPowProof :=
  AuxPowProof.mkAuxPowProof (to_le 4 5 ++ to_le 4 0 ++ to_le 4 0x37a5165b ++ example_miner_data)
    [example_sibling] 0 [example_sibling] 0 (replicate 32 Byte.x14) AuxMerkle.example_branch
    AuxMerkle.example_index example_header.
Definition example_block_header : BlockCheck.Header :=
  BlockCheck.mkHeader BlockCheck.WCASH_BLOCK_WIRE_VERSION 0x200f0f0f
    (BlockCheck.WcashSolution (encoding example_block_proof)).

Abbreviation example_header_accepted network height :=
  (BlockCheck.wcash_auxpow_is_valid (H := example_hashes) (W := Equihash200_9 (fun _ _ _ _ _ => true))
    example_codec example_codec example_block_header network height AuxMerkle.example_block).


(** The same block, under Mainnet rules without a Mainnet threshold, at the
    heights around the activation of the NU7 parent domain. *)
Definition example_easy_mainnet : Network :=
  match example_mainnet, example_regtest with
  | Testnet m, Testnet r =>
      Testnet (mkParameters (consensus_flavor m) (network_name m) (network_magic m) (genesis_hash m)
        (activation_heights m) (slow_start_interval m) (slow_start_shift m) (funding_streams m)
        (target_difficulty_limit r) (disable_pow m) (minimum_difficulty_start_height m)
        (should_allow_unshielded_coinbase_spends m) (pre_blossom_halving_interval m)
        (post_blossom_halving_interval m) (temporary_orchard_disabling_soft_fork_height m))
  | _, _ => Mainnet
  end.

Lemma auxpow_rules_monotone_witness :
  BlockCheck.parent_rules example_easy_mainnet 51349 = ParentCoinbaseRules.Legacy /\
  BlockCheck.parent_rules example_easy_mainnet 51350 = ParentCoinbaseRules.LegacyAndNu7 /\
  example_header_accepted example_easy_mainnet 51350 = Ok tt.
Proof.
  split; [reflexivity|]. split; [reflexivity|].
  apply (auxpow_rules_monotone (H := example_hashes) (W := Equihash200_9 (fun _ _ _ _ _ => true))
    example_codec example_codec example_block_header example_easy_mainnet 51349 51350
    AuxMerkle.example_block example_codec_branch ltac:(lia) ltac:(by_eval)).
  assert (example_header_accepted example_easy_mainnet 51349 = Ok tt) as V by (vm_compute; reflexivity).
  exact V.
Defined.
