(* ===== verification/BlockMerkle.v ===== *)
(** * The Merkle trees of a block

    [zebra-chain/src/block/merkle.rs]: the transaction tree inherited from
    Bitcoin, whose last node is paired with itself when a level is odd, and the
    authorizing data tree of ZIP-244, padded to a power of two;
    [block/commitment.rs]: the interpretation of the commitment in the header;
    and the checks that a block matches its header,
    [zebra-consensus/src/block/check.rs] ([merkle_root_validity]) and
    [zebra-state/src/service/check.rs]
    ([block_commitment_is_valid_for_chain_history]). *)

From S2P Require Import Prelude Amounts Difficulty Networks AuxCodec AuxMerkle BlockChecks.
Import NetworkUpgrade Network BlockCheck(BlockError, BadMerkleRoot, DuplicateTransaction, WrongTransactionConsensusBranchId).

Section Roots.
Context `{Hashes}.

(** ** Definitions *)

(** One level of the transaction tree: [chunks(2)], where a last single hash is
    hashed with itself. *)
Fixpoint pair_up (l : list (list byte)) : list (list byte) :=
  match l with
  | h1 :: h2 :: l => Merkle.sha256d_pair h1 h2 :: pair_up l
  | [h1] => [Merkle.sha256d_pair h1 h1]
  | [] => []
  end.

(** [FromIterator<transaction::Hash> for Root]: the loop, which halves the list,
    and the first hash that is left. *)
Fixpoint root_loop {E} (fuel : nat) (hashes : list (list byte)) : outcome E (list byte) :=
  match fuel with
  | O => Panic
  | S fuel =>
      if (1 <? length hashes)%nat then root_loop fuel (pair_up hashes) else expect (hashes !! 0%nat)
  end.
Definition transactions_root {E} (hashes : list (list byte)) : outcome E (list byte) :=
  root_loop (S (length hashes)) hashes.

(** [usize::next_power_of_two] and [is_power_of_two]. *)
Definition next_power_of_two (n : nat) : nat := (2 ^ Nat.log2_up n)%nat.
Definition is_power_of_two (n : nat) : bool := (n =? next_power_of_two n)%nat.

(** One level of the authorizing data tree, which is full. *)
Fixpoint auth_pair_up {E} (l : list (list byte)) : outcome E (list (list byte)) :=
  match l with
  | [] => Ok []
  | h1 :: h2 :: l => let? rest := auth_pair_up l in Ok (Merkle.auth_data_hash h1 h2 :: rest)
  | [_] => Panic
  end.
Fixpoint auth_root_loop {E} (fuel : nat) (hashes : list (list byte)) : outcome E (list byte) :=
  match fuel with
  | O => Panic
  | S fuel =>
      if (1 <? length hashes)%nat then let? hashes := auth_pair_up hashes in auth_root_loop fuel hashes
      else expect (hashes !! 0%nat)
  end.

(** [FromIterator<AuthDigest> for AuthDataRoot]. *)
Definition auth_data_root {E} (hashes : list (list byte)) : outcome E (list byte) :=
  let pad_count := (next_power_of_two (length hashes) - length hashes)%nat in
  let hashes := hashes ++ replicate pad_count (replicate 32 Byte.x00) in
  do? assert_that (is_power_of_two (length hashes)) in
  auth_root_loop (S (length hashes)) hashes.

(** [FromIterator<Transaction> for AuthDataRoot]: a placeholder stands for the
    digest of a transaction before version 5. *)
Definition AUTH_DIGEST_PLACEHOLDER : list byte := replicate 32 Byte.xff.
Definition block_auth_data_root {E} (auth_digests : list (option (list byte))) : outcome E (list byte) :=
  auth_data_root (default AUTH_DIGEST_PLACEHOLDER <$> auth_digests).

(** [Block::check_transaction_network_upgrade_consistency]; a transaction is the
    upgrade and the branch id that it embeds. *)
Definition check_transaction_network_upgrade_consistency (network : Network) (coinbase_height : option Z)
    (transactions : list (option NetworkUpgrade * option Z)) : outcome BlockError unit :=
  let? height := expect coinbase_height in
  let? block_nu := current (activation_list network) height in
  let? expected_branch_id := current_branch_id network height in
  if existsb (fun '(nu, branch) =>
      match nu with Some trans_nu => negb (bool_decide (trans_nu = block_nu)) | None => false end ||
      match branch with Some branch_id => negb (bool_decide (Some branch_id = expected_branch_id)) | None => false end)
    transactions
  then Err WrongTransactionConsensusBranchId else Ok tt.

(** [merkle_root_validity]; the length of the list without repetitions is that of
    the [HashSet]. *)
Definition merkle_root_validity (network : Network) (coinbase_height : option Z) (header_merkle_root : list byte)
    (transactions : list (option NetworkUpgrade * option Z)) (transaction_hashes : list (list byte)) :
    outcome BlockError unit :=
  do? map_err (fun _ => WrongTransactionConsensusBranchId)
    (check_transaction_network_upgrade_consistency network coinbase_height transactions) in
  let? merkle_root := transactions_root transaction_hashes in
  if negb (bool_decide (header_merkle_root = merkle_root)) then Err (BadMerkleRoot merkle_root header_merkle_root)
  else if negb (length transaction_hashes =? length (remove_dups transaction_hashes))%nat
  then Err DuplicateTransaction
  else Ok tt.

(** ** The strings that a root hashes *)

Fixpoint level_inputs (l : list (list byte)) : list (list byte) :=
  match l with
  | h1 :: h2 :: l => (h1 ++ h2) :: level_inputs l
  | [h1] => [h1 ++ h1]
  | [] => []
  end.
Fixpoint inputs_loop (fuel : nat) (l : list (list byte)) : list (list byte) :=
  match fuel with
  | O => []
  | S fuel => if (1 <? length l)%nat then level_inputs l ++ inputs_loop fuel (pair_up l) else []
  end.
Definition root_inputs (l : list (list byte)) : list (list byte) := inputs_loop (S (length l)) l.

Lemma two_ind (P : list (list byte) -> Prop) :
  P [] -> (forall h, P [h]) -> (forall h1 h2 l, P l -> P (h1 :: h2 :: l)) -> forall l, P l.
Proof.
  intros P0 P1 P2 l. enough (P l /\ forall h, P (h :: l)) as [? _] by done.
  induction l as [|h l [IH1 IH2]]; split; auto.
Qed.

Lemma pair_up_inputs l : pair_up l = Merkle.sha256d <$> level_inputs l.
Proof. induction l as [|h|h1 h2 l IH] using two_ind; cbn; [done|done|]. by rewrite IH. Qed.

Lemma pair_up_length l : (1 < length l)%nat -> (0 < length (pair_up l) < length l)%nat.
Proof.
  assert (G : forall l, (length (pair_up l) <= length l /\ (l <> [] -> 0 < length (pair_up l)))%nat).
  { intros k. induction k as [|h|h1 h2 k [IH1 IH2]] using two_ind; cbn; [split; [lia|done]|lia|lia]. }
  destruct l as [|h1 [|h2 l]]; cbn; [lia|lia|]. intros _. pose proof (G l). lia.
Qed.

Lemma root_loop_fuel {E} fuel fuel' l : (length l < fuel)%nat -> (length l < fuel')%nat ->
  root_loop (E:=E) fuel l = root_loop fuel' l.
Proof.
  revert fuel' l. induction fuel as [|fuel IH]; intros [|fuel'] l F F'; try lia.
  cbn [root_loop inputs_loop].
  destruct (Nat.ltb_spec 1 (length l)) as [L|L]; [|done]. apply pair_up_length in L. apply IH; lia.
Qed.

Lemma inputs_loop_fuel fuel fuel' l : (length l < fuel)%nat -> (length l < fuel')%nat ->
  inputs_loop fuel l = inputs_loop fuel' l.
Proof.
  revert fuel' l. induction fuel as [|fuel IH]; intros [|fuel'] l F F'; try lia.
  cbn [root_loop inputs_loop].
  destruct (Nat.ltb_spec 1 (length l)) as [L|L]; [|done]. apply pair_up_length in L. f_equal. apply IH; lia.
Qed.

(** The equations of the root and of its inputs. *)
Lemma transactions_root_step {E} l : (1 < length l)%nat ->
  transactions_root (E:=E) l = transactions_root (pair_up l) /\
  root_inputs l = level_inputs l ++ root_inputs (pair_up l).
Proof.
  intros L. pose proof (pair_up_length l L). unfold transactions_root, root_inputs. split.
  - rewrite (root_loop_fuel (S (length (pair_up l))) (length l)) by lia. cbn [root_loop].
    by rewrite (proj2 (Nat.ltb_lt _ _) L).
  - rewrite (inputs_loop_fuel (S (length (pair_up l))) (length l)) by lia. cbn [inputs_loop].
    by rewrite (proj2 (Nat.ltb_lt _ _) L).
Qed.

(** A root exists for every non-empty list. *)
Lemma transactions_root_total {E} l : l <> [] -> exists r, transactions_root (E:=E) l = Ok r.
Proof.
  induction l as [l IH] using (induction_ltof1 _ (@length _)). unfold ltof in IH. intros N.
  destruct (Nat.ltb_spec 1 (length l)) as [L|L].
  - pose proof (pair_up_length l L) as P. rewrite (proj1 (transactions_root_step l L)). apply IH; [lia|].
    intros X. rewrite X in P. cbn in P. lia.
  - destruct l as [|h [|h2 l]]; [done| |cbn in L; lia]. by exists h.
Qed.

(** ** The transaction root binds the transactions *)

(** Two different strings among those hashed that have the same digest. *)
Definition collides (inputs : list (list byte)) : Prop :=
  exists a b, a ∈ inputs /\ b ∈ inputs /\ a <> b /\ Merkle.sha256d a = Merkle.sha256d b.
(** A digest of the list [l] that is also the digest of a string of [inputs]. *)
Definition node_among (l inputs : list (list byte)) : Prop :=
  exists h x, h ∈ l /\ x ∈ inputs /\ Merkle.sha256d x = h.

Definition digests (l : list (list byte)) : Prop := Forall (fun h => length h = 32%nat) l.

Lemma digests_pair_up l : digests (pair_up l).
Proof.
  rewrite pair_up_inputs. apply Forall_fmap, Forall_true. intros x. apply sha256_length.
Qed.

Lemma collides_mono l l' : l ⊆ l' -> collides l -> collides l'.
Proof. intros S (a & b & A & B & R). exists a, b. auto. Qed.

(** Each string is the concatenation of two nodes of its level. *)
Lemma level_inputs_elem l x : x ∈ level_inputs l -> exists c d, x = c ++ d /\ c ∈ l /\ d ∈ l.
Proof.
  induction l as [|h|h1 h2 l IH] using two_ind; cbn; [by intros ?%elem_of_nil| |].
  - intros ->%list_elem_of_singleton. exists h, h. split; [done|]. split; constructor.
  - intros [->|I]%elem_of_cons; [exists h1, h2; split; [done|]; split; set_solver|].
    destruct (IH I) as (c & d & -> & ? & ?). exists c, d. split; [done|]. split; set_solver.
Qed.

Lemma level_inputs_inj l1 l2 : digests l1 -> digests l2 -> NoDup l1 -> NoDup l2 ->
  level_inputs l1 = level_inputs l2 -> l1 = l2.
Proof.
  revert l2. induction l1 as [|h|h1 h2 l1 IH] using two_ind; intros [|g1 [|g2 l2]] D1 D2 N1 N2 E; try done; cbn in E.
  - injection E as E. apply Forall_cons in D1 as [D1 _], D2 as [D2 _]. by apply app_inj_1 in E as [-> _]; [|congruence].
  - exfalso. injection E as E E'. destruct l2 as [|g3 [|g4 l2]]; try done. cbn in *.
    apply Forall_cons in D1 as [D1 _]. apply Forall_cons in D2 as [D2 D2'].
    apply app_inj_1 in E as [-> ->]; [|congruence]. apply NoDup_cons in N2 as [X _]. apply X. constructor.
  - exfalso. injection E as E E'. destruct l1 as [|g3 [|g4 l1]]; try done. cbn in *.
    apply Forall_cons in D1 as [D1 _]. apply Forall_cons in D2 as [D2 _].
    apply app_inj_1 in E as [-> <-]; [|congruence]. apply NoDup_cons in N1 as [X _]. apply X. constructor.
  - injection E as E E'. apply Forall_cons in D1 as [Dh1 [Dh2 D1]%Forall_cons], D2 as [Dg1 [Dg2 D2]%Forall_cons].
    apply NoDup_cons in N1 as [_ [_ N1]%NoDup_cons], N2 as [_ [_ N2]%NoDup_cons].
    apply app_inj_1 in E as [-> ->]; [|congruence]. by rewrite (IH l2).
Qed.

Lemma level_inputs_NoDup l : digests l -> NoDup l -> NoDup (level_inputs l).
Proof.
  induction l as [|h|h1 h2 l IH] using two_ind; intros D N; cbn; [constructor|apply NoDup_singleton|].
  apply Forall_cons in D as [Dh1 [Dh2 D]%Forall_cons]. apply NoDup_cons in N as [Nh1 [Nh2 N]%NoDup_cons].
  apply NoDup_cons. split; [|by apply IH]. intros (c & d & E & C & _)%level_inputs_elem.
  apply app_inj_1 in E as [-> _]; [|unfold digests in D; rewrite Forall_forall in D; by rewrite Dh1, (D c)].
  apply Nh1. by constructor.
Qed.

(** Distinct strings have distinct digests, or there is a collision. *)
Lemma fmap_digest_NoDup xs : NoDup xs -> NoDup (Merkle.sha256d <$> xs) \/ collides xs.
Proof.
  induction 1 as [|x xs Nx N IH]; [left; constructor|]. cbn.
  destruct IH as [IH|C]; [|right; eapply collides_mono; [|done]; set_solver].
  destruct (decide (Merkle.sha256d x ∈ Merkle.sha256d <$> xs)) as [I|I]; [|left; by apply NoDup_cons].
  right. apply list_elem_of_fmap in I as (y & E & Y). exists x, y. split_and!; [set_solver..| |done]. by intros ->.
Qed.

Lemma fmap_digest_inj xs ys : Merkle.sha256d <$> xs = Merkle.sha256d <$> ys -> xs = ys \/ collides (xs ++ ys).
Proof.
  revert ys. induction xs as [|x xs IH]; intros [|y ys] E; try done; [by left|]. injection E as E E'.
  destruct (IH _ E') as [->|C]; [|right; eapply collides_mono; [|done]; set_solver].
  destruct (decide (x = y)) as [->|N]; [by left|]. right. exists x, y. split_and!; set_solver.
Qed.

Lemma pair_up_binds l1 l2 : digests l1 -> digests l2 -> NoDup l1 -> NoDup l2 -> pair_up l1 = pair_up l2 ->
  l1 = l2 \/ collides (level_inputs l1 ++ level_inputs l2).
Proof.
  intros D1 D2 N1 N2 E. rewrite !pair_up_inputs in E. apply fmap_digest_inj in E as [E|C]; [left|by right].
  by apply level_inputs_inj.
Qed.

Lemma pair_up_NoDup l : digests l -> NoDup l -> NoDup (pair_up l) \/ collides (level_inputs l).
Proof. intros D N. rewrite pair_up_inputs. by apply fmap_digest_NoDup, level_inputs_NoDup. Qed.

(** The root of two or more hashes is a digest of the strings that it hashes. *)
Lemma root_is_node {E} l r : (1 < length l)%nat -> transactions_root (E:=E) l = Ok r ->
  exists x, x ∈ root_inputs l /\ Merkle.sha256d x = r.
Proof.
  induction l as [l IH] using (induction_ltof1 _ (@length _)). unfold ltof in IH. intros L R.
  pose proof (pair_up_length l L). destruct (transactions_root_step (E:=E) l L) as [Er Ei]. rewrite Er in R.
  destruct (Nat.ltb_spec 1 (length (pair_up l))) as [L'|L'].
  - destruct (IH (pair_up l)) as (x & X & <-); [lia|done..|]. exists x. split; [|done]. rewrite Ei. set_solver.
  - pose proof (pair_up_inputs l) as P. destruct (pair_up l) as [|h [|h' k]]; cbn in *; [lia| |lia].
    injection R as ->. destruct (level_inputs l) as [|x [|]]; try done. injection P as ->.
    exists x. split; [|done]. rewrite Ei. set_solver.
Qed.

(** A string hashed above the first level starts with a digest. *)
Lemma upper_inputs_elem l x : (1 < length l)%nat -> x ∈ root_inputs (pair_up l) ->
  exists c d z, x = c ++ d /\ length c = 32%nat /\ z ∈ root_inputs l /\ Merkle.sha256d z = c.
Proof.
  induction l as [l IH] using (induction_ltof1 _ (@length _)). unfold ltof in IH. intros L X.
  pose proof (pair_up_length l L). destruct (transactions_root_step (E:=unit) l L) as [_ Ei].
  destruct (Nat.ltb_spec 1 (length (pair_up l))) as [L'|L'].
  - rewrite (proj2 (transactions_root_step (E:=unit) _ L')), elem_of_app in X. destruct X as [X|X].
    + apply level_inputs_elem in X as (c & d & -> & C & _). pose proof (digests_pair_up l) as D.
      unfold digests in D. rewrite Forall_forall in D. specialize (D c C). rewrite pair_up_inputs in C.
      apply list_elem_of_fmap in C as (z & -> & Z). exists (Merkle.sha256d z), d, z. split_and!; [done..| |done].
      rewrite Ei. set_solver.
    + destruct (IH (pair_up l)) as (c & d & z & -> & Lc & Z & Ez); [lia|done..|].
      exists c, d, z. split_and!; try done. rewrite Ei. set_solver.
  - unfold root_inputs in X. cbn [inputs_loop] in X. rewrite (proj2 (Nat.ltb_ge _ _) L') in X. by apply elem_of_nil in X.
Qed.

Lemma node_among_up l1 l2 : (1 < length l1)%nat -> (1 < length l2)%nat -> digests l1 ->
  node_among (pair_up l1) (root_inputs (pair_up l2)) ->
  collides (root_inputs l1 ++ root_inputs l2) \/ node_among l1 (root_inputs l2).
Proof.
  intros L1 L2 D (h & x & Hh & X & Ex). rewrite pair_up_inputs in Hh. apply list_elem_of_fmap in Hh as (y & -> & Y).
  pose proof (proj2 (transactions_root_step (E:=unit) l1 L1)) as E1.
  pose proof (proj2 (transactions_root_step (E:=unit) l2 L2)) as E2.
  destruct (decide (x = y)) as [->|N].
  - right. apply level_inputs_elem in Y as (a & b & -> & A & _).
    destruct (upper_inputs_elem l2 _ L2 X) as (c & d & z & E & Lc & Z & Ez).
    unfold digests in D. rewrite Forall_forall in D. apply app_inj_1 in E as [-> _]; [|by rewrite (D a)].
    exists c, z. done.
  - left. exists x, y. split_and!; [|rewrite E1; set_solver|done..]. rewrite E2. set_solver.
Qed.

Lemma root_binds {E} l1 l2 r : digests l1 -> digests l2 -> NoDup l1 -> NoDup l2 ->
  transactions_root (E:=E) l1 = Ok r -> transactions_root (E:=E) l2 = Ok r ->
  l1 = l2 \/ collides (root_inputs l1 ++ root_inputs l2) \/
  node_among l1 (root_inputs l2) \/ node_among l2 (root_inputs l1).
Proof.
  revert l2. induction l1 as [l1 IH] using (induction_ltof1 _ (@length _)). unfold ltof in IH.
  intros l2 D1 D2 N1 N2 R1 R2.
  destruct (Nat.ltb_spec 1 (length l1)) as [L1|L1], (Nat.ltb_spec 1 (length l2)) as [L2|L2].
  - pose proof (pair_up_length l1 L1) as P1. destruct (transactions_root_step (E:=E) l1 L1) as [Er1 Ei1].
    pose proof (pair_up_length l2 L2) as P2. destruct (transactions_root_step (E:=E) l2 L2) as [Er2 Ei2].
    destruct (pair_up_NoDup l1 D1 N1) as [M1|C]; [|right; left; eapply collides_mono; [|done]; rewrite Ei1; set_solver].
    destruct (pair_up_NoDup l2 D2 N2) as [M2|C]; [|right; left; eapply collides_mono; [|done]; rewrite Ei2; set_solver].
    destruct (IH (pair_up l1) ltac:(lia) (pair_up l2)) as [Ep|[C|[A|A]]];
      [apply digests_pair_up..|done|done|congruence|congruence| | | |].
    + destruct (pair_up_binds _ _ D1 D2 N1 N2 Ep) as [->|C]; [by left|].
      right. left. eapply collides_mono; [|done]. rewrite Ei1, Ei2. set_solver.
    + right. left. eapply collides_mono; [|done]. rewrite Ei1, Ei2. set_solver.
    + destruct (node_among_up _ _ L1 L2 D1 A) as [C|B]; [by right; left|by right; right; left].
    + destruct (node_among_up _ _ L2 L1 D2 A) as [C|B]; [|by right; right; right].
      right. left. eapply collides_mono; [|done]. set_solver.
  - destruct l2 as [|h [|]]; cbn in L2; [done| |lia]. injection R2 as ->.
    destruct (root_is_node _ _ L1 R1) as (x & X & Ex). right. right. right. exists r, x. split; [constructor|done].
  - destruct l1 as [|h [|]]; cbn in L1; [done| |lia]. injection R1 as ->.
    destruct (root_is_node _ _ L2 R2) as (x & X & Ex). right. right. left. exists r, x. split; [constructor|done].
  - destruct l1 as [|h1 [|]]; cbn in L1; [done| |lia]. destruct l2 as [|h2 [|]]; cbn in L2; [done| |lia].
    left. unfold transactions_root in *. cbn in *. congruence.
Qed.

Lemma merkle_root_validity_Ok network height root txs hashes :
  merkle_root_validity network height root txs hashes = Ok tt <->
  check_transaction_network_upgrade_consistency network height txs = Ok tt /\
  transactions_root (E:=BlockError) hashes = Ok root /\ NoDup hashes.
Proof.
  unfold merkle_root_validity. rewrite obind_Ok.
  assert (L : (length hashes =? length (remove_dups hashes))%nat = true <-> NoDup hashes)
    by (by rewrite Nat.eqb_eq, (symmetry_iff (=)), remove_dups_length).
  split.
  - intros ([] & C%map_err_Ok & (r & R & X)%obind_Ok). destruct (bool_decide (root = r)) eqn:B; [|done].
    apply bool_decide_eq_true in B as ->. destruct (_ =? _)%nat; [|done]. split_and!; [done..|]. by apply L.
  - intros (C & R & N). exists tt. split; [by apply map_err_Ok|]. rewrite R. cbn [obind].
    by rewrite bool_decide_true, (proj2 L N) by done.
Qed.

(** C35: the Merkle root in a header binds the transactions of the block.  A block
    is accepted by [merkle_root_validity] exactly when its transactions embed the
    branch of its height, their hashes give the root and none is repeated; and two
    accepted lists of transaction hashes with the same root are equal, unless two
    of the strings that they hash collide, or a transaction hash of one is the
    digest of an inner node of the other.  So the malleability of the tree, whose
    last node may be repeated, cannot change the transactions. *)
Theorem merkle_root_binds_transactions network height root txs hashes :
  digests hashes ->
  (merkle_root_validity network height root txs hashes = Ok tt <->
   check_transaction_network_upgrade_consistency network height txs = Ok tt /\
   transactions_root (E:=BlockError) hashes = Ok root /\ NoDup hashes) /\
  (forall network' height' txs' hashes', digests hashes' ->
   merkle_root_validity network height root txs hashes = Ok tt ->
   merkle_root_validity network' height' root txs' hashes' = Ok tt ->
   hashes = hashes' \/ collides (root_inputs hashes ++ root_inputs hashes') \/
   node_among hashes (root_inputs hashes') \/ node_among hashes' (root_inputs hashes)).
Proof.
  intros D. split; [apply merkle_root_validity_Ok|].
  intros ? ? ? ? D' (_ & R & N)%merkle_root_validity_Ok (_ & R' & N')%merkle_root_validity_Ok.
  by apply (root_binds (E:=BlockError) _ _ root).
Qed.

(** ** The authorizing data root *)

Definition auth_hash (x : list byte) : list byte := blake2b Merkle.AUTH_DATA_HASH_PERSONALIZATION x.

Lemma auth_pair_up_even {E} l k : length l = (2 * k)%nat ->
  auth_pair_up (E:=E) l = Ok (auth_hash <$> level_inputs l) /\ length (level_inputs l) = k.
Proof.
  revert k. induction l as [|h|h1 h2 l IH] using two_ind; intros k L; cbn in L; [split; [done|cbn; lia]|lia|].
  destruct k as [|k]; [lia|]. destruct (IH k ltac:(lia)) as [IH1 IH2]. cbn. rewrite IH1, IH2. done.
Qed.

Fixpoint auth_inputs_loop (fuel : nat) (l : list (list byte)) : list (list byte) :=
  match fuel with
  | O => []
  | S fuel => if (1 <? length l)%nat then level_inputs l ++ auth_inputs_loop fuel (auth_hash <$> level_inputs l) else []
  end.
Definition padded (l : list (list byte)) : list (list byte) :=
  l ++ replicate (next_power_of_two (length l) - length l) (replicate 32 Byte.x00).
Definition auth_inputs (l : list (list byte)) : list (list byte) :=
  auth_inputs_loop (S (length (padded l))) (padded l).

Lemma padded_length l : length (padded l) = next_power_of_two (length l).
Proof.
  unfold padded. rewrite length_app, length_replicate. enough (length l <= next_power_of_two (length l))%nat by lia.
  unfold next_power_of_two. destruct l as [|h l]; [cbn; lia|].
  destruct (Nat.eq_dec (length (h :: l)) 1%nat) as [->|N]; [cbn; lia|]. cbn [length] in *.
  apply (Nat.log2_up_spec (S (length l))). lia.
Qed.

Lemma next_power_idem n : next_power_of_two (next_power_of_two n) = next_power_of_two n.
Proof. unfold next_power_of_two. by rewrite Nat.log2_up_pow2 by lia. Qed.

Lemma pow2_succ k : (2 ^ S k = 2 * 2 ^ k)%nat.
Proof. apply Nat.pow_succ_r'. Qed.

Lemma pow2_pos k : (0 < 2 ^ k)%nat.
Proof. induction k as [|k IH]; [cbn; lia|]. rewrite pow2_succ. lia. Qed.

(** The loop on a full tree of depth [k] returns. *)
Lemma auth_loop_total {E} k fuel l : length l = (2 ^ k)%nat -> (k < fuel)%nat ->
  exists r, auth_root_loop (E:=E) fuel l = Ok r.
Proof.
  revert fuel l. induction k as [|k IH]; intros [|fuel] l L F; try lia; cbn [auth_root_loop].
  - cbn in L. destruct l as [|h [|]]; cbn in L; try lia. by exists h.
  - rewrite pow2_succ in L. pose proof (pow2_pos k). destruct (auth_pair_up_even (E:=E) l _ L) as [-> Ll].
    rewrite (proj2 (Nat.ltb_lt _ _)) by lia. cbn [obind]. apply IH; [|lia]. by rewrite length_fmap.
Qed.

Lemma fmap_or_collision (f : list byte -> list byte) xs ys : f <$> xs = f <$> ys -> xs = ys \/ collision f xs ys.
Proof.
  revert ys. induction xs as [|x xs IH]; intros [|y ys] E; try done; [by left|]. injection E as E E'.
  destruct (IH _ E') as [->|(a & b & A & B & R)]; [|right; exists a, b; split_and!; try apply R; by constructor].
  destruct (decide (x = y)) as [->|N]; [by left|]. right. exists x, y. split_and!; [constructor|constructor|done|done].
Qed.

Lemma level_inputs_even l1 l2 k : digests l1 -> digests l2 -> length l1 = (2 * k)%nat -> length l2 = (2 * k)%nat ->
  level_inputs l1 = level_inputs l2 -> l1 = l2.
Proof.
  revert k l2. induction l1 as [|h|h1 h2 l1 IH] using two_ind; intros k [|g1 [|g2 l2]] D1 D2 L1 L2 E; cbn in *; try lia; try done.
  injection E as E E'. apply Forall_cons in D1 as [Dh1 [Dh2 D1]%Forall_cons], D2 as [Dg1 [Dg2 D2]%Forall_cons].
  apply app_inj_1 in E as [-> ->]; [|congruence]. by rewrite (IH (k - 1)%nat l2 D1 D2 ltac:(lia) ltac:(lia) E').
Qed.

Lemma auth_digests l : digests (auth_hash <$> l).
Proof. apply Forall_fmap, Forall_true. intros. apply blake2b_length. Qed.

Lemma auth_loop_binds {E} k fuel l1 l2 r : length l1 = (2 ^ k)%nat -> length l2 = (2 ^ k)%nat -> digests l1 -> digests l2 ->
  (k < fuel)%nat -> auth_root_loop (E:=E) fuel l1 = Ok r -> auth_root_loop (E:=E) fuel l2 = Ok r ->
  l1 = l2 \/ collision auth_hash (auth_inputs_loop fuel l1) (auth_inputs_loop fuel l2).
Proof.
  revert fuel l1 l2. induction k as [|k IH]; intros [|fuel] l1 l2 L1 L2 D1 D2 F R1 R2; try lia;
    cbn [auth_root_loop auth_inputs_loop] in *.
  - cbn in L1, L2. destruct l1 as [|h1 [|]], l2 as [|h2 [|]]; cbn in L1, L2; try lia. left. cbn in *. congruence.
  - rewrite pow2_succ in L1, L2. pose proof (pow2_pos k).
    destruct (auth_pair_up_even (E:=E) l1 _ L1) as [E1 Ll1], (auth_pair_up_even (E:=E) l2 _ L2) as [E2 Ll2].
    rewrite E1 in R1. rewrite E2 in R2. cbn [obind] in R1, R2.
    assert (B1 : (1 <? length l1)%nat = true) by (apply Nat.ltb_lt; lia).
    assert (B2 : (1 <? length l2)%nat = true) by (apply Nat.ltb_lt; lia).
    rewrite B1 in R1 |- *. rewrite B2 in R2 |- *.
    destruct (IH fuel (auth_hash <$> level_inputs l1) (auth_hash <$> level_inputs l2)) as [Ef|(a & b & A & B & R)];
      [by rewrite length_fmap|by rewrite length_fmap|apply auth_digests|apply auth_digests|lia|done|done| |].
    + apply fmap_or_collision in Ef as [El|(a & b & A & B & R)]; [left; by apply (level_inputs_even _ _ (2 ^ k))|].
      right. exists a, b. rewrite !elem_of_app. tauto.
    + right. exists a, b. rewrite !elem_of_app. tauto.
Qed.

Lemma digests_padded l : digests l -> digests (padded l).
Proof. intros D. apply Forall_app. split; [done|]. by apply Forall_replicate. Qed.

Lemma auth_root_total {E} l : exists r, auth_data_root (E:=E) l = Ok r.
Proof.
  unfold auth_data_root. fold (padded l). pose proof (padded_length l) as L.
  unfold is_power_of_two. rewrite L, next_power_idem, Nat.eqb_refl. cbn [assert_that obind].
  apply (auth_loop_total (Nat.log2_up (length l))); [done|]. unfold next_power_of_two.
  pose proof (Nat.pow_gt_lin_r 2 (Nat.log2_up (length l)) ltac:(lia)). lia.
Qed.

Lemma auth_root_binds {E} l1 l2 r : length l1 = length l2 -> digests l1 -> digests l2 ->
  auth_data_root (E:=E) l1 = Ok r -> auth_data_root (E:=E) l2 = Ok r ->
  l1 = l2 \/ collision auth_hash (auth_inputs l1) (auth_inputs l2).
Proof.
  intros Len D1 D2. unfold auth_data_root, auth_inputs. fold (padded l1) (padded l2).
  pose proof (padded_length l1) as P1. pose proof (padded_length l2) as P2. rewrite <- Len in P2.
  rewrite P1, P2. destruct (assert_that _); cbn [obind]; [|done..]. intros R1 R2.
  destruct (auth_loop_binds (E:=E) (Nat.log2_up (length l1)) (S (next_power_of_two (length l1))) (padded l1) (padded l2) r)
    as [Ep|C]; [done|done|by apply digests_padded..| |done|done| |by right].
  - unfold next_power_of_two. pose proof (Nat.pow_gt_lin_r 2 (Nat.log2_up (length l1)) ltac:(lia)). lia.
  - left. unfold padded in Ep. by apply app_inj_1 in Ep as [-> _].
Qed.
End Roots.

(** ** Block commitments *)

(** [Commitment] and [CommitmentError]. *)
Inductive Commitment :=
| PreSaplingReserved (bytes : list byte)
| FinalSaplingRoot (root : list byte)
| ChainHistoryActivationReserved
| ChainHistoryRoot (root : list byte)
| ChainHistoryBlockTxAuthCommitment (hash : list byte).
Inductive CommitmentError :=
| InvalidFinalSaplingRoot (expected actual : list byte)
| InvalidChainHistoryActivationReserved (actual : list byte)
| InvalidChainHistoryRoot (expected actual : list byte)
| InvalidChainHistoryBlockTxAuthCommitment (expected actual : list byte)
| MissingBlockHeight
| InvalidSapingRootBytes.

Definition CHAIN_HISTORY_ACTIVATION_RESERVED : list byte := replicate 32 Byte.x00.

Section Commitments.
Context `{Hashes}.
(** [sapling::tree::Root::try_from]: whether the bytes are a canonical element of
    the base field of Jubjub. *)
Context (is_sapling_root : list byte -> bool).

(** [Commitment::from_bytes]. *)
Definition commitment_from_bytes (bytes : list byte) (network : Network) (height : Z) : outcome CommitmentError Commitment :=
  let reserved :=
    if bool_decide (bytes = CHAIN_HISTORY_ACTIVATION_RESERVED) then Ok ChainHistoryActivationReserved
    else Err (InvalidChainHistoryActivationReserved bytes) in
  let? ' (nu, upgrade_height) := current_with_activation_height (activation_list network) height in
  match nu with
  | Genesis | BeforeOverwinter | Overwinter => Ok (PreSaplingReserved bytes)
  | Sapling | Blossom => if is_sapling_root bytes then Ok (FinalSaplingRoot bytes) else Err InvalidSapingRootBytes
  | Heartwood => if height =? upgrade_height then reserved else Ok (ChainHistoryRoot bytes)
  | Canopy =>
      if bool_decide (Some height = activation_height Heartwood (activation_list network)) then reserved
      else Ok (ChainHistoryRoot bytes)
  | Nu5 | Nu6 | Nu6_1 | Nu6_2 | Nu6_3 | Nu7 => Ok (ChainHistoryBlockTxAuthCommitment bytes)
  end.

(** [Block::commitment]. *)
Definition block_commitment (commitment_bytes : list byte) (coinbase_height : option Z) (network : Network) :
    outcome CommitmentError Commitment :=
  match coinbase_height with
  | None => Err MissingBlockHeight
  | Some height => commitment_from_bytes commitment_bytes network height
  end.

(** [ChainHistoryBlockTxAuthCommitmentHash::from_commitments]. *)
Definition from_commitments (history_tree_root auth_data_root : list byte) : list byte :=
  blake2b Merkle.BLOCK_COMMITMENTS_PERSONALIZATION (history_tree_root ++ auth_data_root ++ replicate 32 Byte.x00).

(** [block_commitment_is_valid_for_chain_history]; [history_hash] is the root of
    the history tree of the parent block. *)
Definition block_commitment_is_valid_for_chain_history (commitment_bytes : list byte) (coinbase_height : option Z)
    (auth_digests : list (option (list byte))) (network : Network) (history_hash : option (list byte)) :
    outcome CommitmentError unit :=
  let? commitment := block_commitment commitment_bytes coinbase_height network in
  match commitment with
  | PreSaplingReserved _ | FinalSaplingRoot _ | ChainHistoryActivationReserved => Ok tt
  | ChainHistoryRoot actual_history_tree_root =>
      let? history_tree_root := expect history_hash in
      if bool_decide (actual_history_tree_root = history_tree_root) then Ok tt
      else Err (InvalidChainHistoryRoot history_tree_root actual_history_tree_root)
  | ChainHistoryBlockTxAuthCommitment actual_hash_block_commitments =>
      let? history_tree_root :=
        expect (match history_hash with
                | Some root => Some root
                | None =>
                    if bool_decide (activation_height Heartwood (activation_list network) = coinbase_height)
                    then Some CHAIN_HISTORY_ACTIVATION_RESERVED else None
                end) in
      let? auth_data_root := block_auth_data_root auth_digests in
      let hash_block_commitments := from_commitments history_tree_root auth_data_root in
      if bool_decide (actual_hash_block_commitments = hash_block_commitments) then Ok tt
      else Err (InvalidChainHistoryBlockTxAuthCommitment hash_block_commitments actual_hash_block_commitments)
  end.

(** The history root that a block commits to. *)
Definition history_root_at (network : Network) (height : Z) (history_hash : option (list byte)) : option (list byte) :=
  match history_hash with
  | Some root => Some root
  | None =>
      if bool_decide (activation_height Heartwood (activation_list network) = Some height)
      then Some CHAIN_HISTORY_ACTIVATION_RESERVED else None
  end.

Lemma commitment_from_nu5 bytes network height nu : current (E:=CommitmentError) (activation_list network) height = Ok nu ->
  rank Nu5 <= rank nu -> commitment_from_bytes bytes network height = Ok (ChainHistoryBlockTxAuthCommitment bytes).
Proof.
  intros C R. unfold commitment_from_bytes, current_with_activation_height, current in *.
  destruct (last_at_or_below _ height) as [[h nu']|]; cbn in *; [|done]. injection C as ->. by destruct nu.
Qed.

(** The string whose digest is the commitment, and its digest. *)
Definition commitment_input (root auth : list byte) : list byte := root ++ auth ++ replicate 32 Byte.x00.
Definition commitment_hash (x : list byte) : list byte := blake2b Merkle.BLOCK_COMMITMENTS_PERSONALIZATION x.

Lemma auth_data_root_length {E} fuel l r : digests l -> auth_root_loop (E:=E) fuel l = Ok r -> length r = 32%nat.
Proof.
  revert l. induction fuel as [|fuel IH]; intros l D R; [done|]. cbn [auth_root_loop] in R.
  destruct (1 <? length l)%nat.
  - apply obind_Ok in R as (l' & P & R). apply (IH l'); [|done]. clear R IH.
    revert l' P. clear D. induction l as [|h|h1 h2 l IH] using two_ind; intros l' P; cbn in P; [injection P as <-; constructor|done|].
    outcome_inv. constructor; [apply blake2b_length|by apply IH].
  - apply expect_Ok in R. unfold digests in D. rewrite Forall_lookup in D. by apply (D 0%nat).
Qed.

Lemma block_auth_digests ds : Forall (fun d => forall b, d = Some b -> length b = 32%nat) ds ->
  digests (default AUTH_DIGEST_PLACEHOLDER <$> ds).
Proof. intros D. apply Forall_fmap. eapply Forall_impl; [exact D|]. intros [b|] X; cbn; [by apply X|done]. Qed.

Lemma block_commitment_Ok bytes height ds network hist nu :
  current (E:=CommitmentError) (activation_list network) height = Ok nu -> rank Nu5 <= rank nu ->
  block_commitment_is_valid_for_chain_history bytes (Some height) ds network hist = Ok tt <->
  exists root auth, history_root_at network height hist = Some root /\
    block_auth_data_root (E:=CommitmentError) ds = Ok auth /\ bytes = commitment_hash (commitment_input root auth).
Proof.
  intros C R. unfold block_commitment_is_valid_for_chain_history, block_commitment.
  rewrite (commitment_from_nu5 _ _ _ _ C R). cbn [obind]. fold (history_root_at network height hist).
  split.
  - intros (root & Hr%expect_Ok & (auth & Ha & X)%obind_Ok)%obind_Ok. exists root, auth. split_and!; [done..|].
    case_bool_decide as B; [done|discriminate X].
  - intros (root & auth & Hr & Ha & ->). rewrite Hr. cbn [expect obind]. rewrite Ha.
    cbn [obind]. by rewrite bool_decide_true.
Qed.

(** From NU5 on, the commitment in a header binds the history of the chain and
    the authorizing data of the block.  A block is accepted exactly when the
    commitment is the digest of the history root and of the authorizing data root;
    two accepted blocks of the same height with the same commitment have the same
    history root and, if they have as many transactions, the same authorizing data
    digests, unless the strings they hash collide. *)
Theorem block_commitment_binds bytes height ds network hist nu :
  current (E:=CommitmentError) (activation_list network) height = Ok nu -> rank Nu5 <= rank nu ->
  (block_commitment_is_valid_for_chain_history bytes (Some height) ds network hist = Ok tt <->
   exists root auth, history_root_at network height hist = Some root /\
     block_auth_data_root (E:=CommitmentError) ds = Ok auth /\ bytes = commitment_hash (commitment_input root auth)) /\
  (forall ds' hist' root root', length ds = length ds' ->
   Forall (fun d => forall b, d = Some b -> length b = 32%nat) (ds ++ ds') ->
   history_root_at network height hist = Some root -> history_root_at network height hist' = Some root' ->
   length root = 32%nat -> length root' = 32%nat ->
   block_commitment_is_valid_for_chain_history bytes (Some height) ds network hist = Ok tt ->
   block_commitment_is_valid_for_chain_history bytes (Some height) ds' network hist' = Ok tt ->
   let leaves := default AUTH_DIGEST_PLACEHOLDER <$> ds in let leaves' := default AUTH_DIGEST_PLACEHOLDER <$> ds' in
   (root = root' /\ (leaves = leaves' \/ collision auth_hash (auth_inputs leaves) (auth_inputs leaves'))) \/
   exists auth auth', collision commitment_hash [commitment_input root auth] [commitment_input root' auth']).
Proof.
  intros C R. split; [by eapply block_commitment_Ok|].
  intros ds' hist' root root' Len [D D']%Forall_app Hr Hr' Lr Lr' A A' leaves leaves'.
  apply (block_commitment_Ok _ _ _ _ _ _ C R) in A as (r & auth & Hr2 & Ha & ->).
  apply (block_commitment_Ok _ _ _ _ _ _ C R) in A' as (r' & auth' & Hr2' & Ha' & E).
  assert (r = root) as -> by congruence. assert (r' = root') as -> by congruence.
  destruct (decide (commitment_input root auth = commitment_input root' auth')) as [Ei|N].
  - left. unfold commitment_input in Ei. apply app_inj_1 in Ei as [-> Ei]; [|congruence]. split; [done|].
    apply block_auth_digests in D, D'.
    assert (La : forall l a, digests l -> auth_data_root (E:=CommitmentError) l = Ok a -> length a = 32%nat).
    { intros l a Dl X. unfold auth_data_root in X. outcome_inv. eapply auth_data_root_length; [|done]. by apply digests_padded. }
    apply app_inj_1 in Ei as [-> _]; [|unfold block_auth_data_root in *; by rewrite (La _ _ D Ha), (La _ _ D' Ha')].
    unfold block_auth_data_root in Ha, Ha'. eapply auth_root_binds; [|done..]. unfold leaves, leaves'; by rewrite !length_fmap.
  - right. exists auth, auth'. exists (commitment_input root auth), (commitment_input root' auth').
    split_and!; [constructor|constructor|done|done].
Qed.
End Commitments.

(** ** A concrete block *)

Definition example_tx_hashes : list (list byte) := [replicate 32 Byte.x01; replicate 32 Byte.x02; replicate 32 Byte.x03].
Definition example_root : list byte :=
  match transactions_root (H := example_hashes) (E := BlockError) example_tx_hashes with Ok r => r | _ => [] end.

Lemma merkle_root_binds_transactions_witness :
  merkle_root_validity (H := example_hashes) Mainnet (Some 1) example_root [(None, None); (None, None); (None, None)] example_tx_hashes = Ok tt.
Proof.
  destruct (merkle_root_binds_transactions (H := example_hashes) Mainnet (Some 1) example_root [(None, None); (None, None); (None, None)]
    example_tx_hashes) as [V _]; [by repeat constructor|]. apply V. split_and!; [vm_compute; reflexivity..|].
  vm_compute. apply (bool_decide_unpack _). vm_compute. exact I.
Defined.

Definition example_history : list byte := replicate 32 Byte.x05.
Definition example_auth : list byte :=
  match block_auth_data_root (H := example_hashes) (E := CommitmentError) [None; None; Some (replicate 32 Byte.x09)] with Ok r => r | _ => [] end.

Lemma block_commitment_binds_witness :
  block_commitment_is_valid_for_chain_history (H := example_hashes) (fun _ => true)
    (commitment_hash (H := example_hashes) (commitment_input example_history example_auth)) (Some 1700000)
    [None; None; Some (replicate 32 Byte.x09)] Mainnet (Some example_history) = Ok tt.
Proof.
  destruct (block_commitment_binds (H := example_hashes) (fun _ => true) (commitment_hash (H := example_hashes) (commitment_input example_history example_auth))
    1700000 [None; None; Some (replicate 32 Byte.x09)] Mainnet (Some example_history) Nu5) as [V _]; [vm_compute; reflexivity|vm_compute; congruence|].
  apply V. exists example_history, example_auth. split_and!; vm_compute; reflexivity.
Defined.
