(* ===== verification/QueuedBlocks.v ===== *)
(** * Queued and sent blocks

    [zebra-state/src/service/queued_blocks.rs]: the queue of verified blocks
    that wait for their parents, with its two secondary indexes, and the set
    of blocks sent to the write task.  The queue refines a finite map from
    hashes to blocks: the indexes never disagree with the map, so none of the
    [expect] and [assert!] calls of the code can fail.

    Hashes and outpoints are any countable types.  A [HashMap] is a [gmap], a
    [HashSet] a [gset] and a [BTreeMap] a [gmap]; results that the code
    returns in the iteration order of a set are lists up to permutation. *)

From S2P Require Import Prelude Networks.

Section Queue.
Context {Hash : Type} `{Countable Hash} {OutPoint : Type} `{Countable OutPoint} {Utxo : Type}.
Context `{!EqDecision Utxo}.

(** [SemanticallyVerifiedBlock] and the sender of its result channel. *)
Record Block := mkQueued {
  hash : Hash;
  height : Z;
  previous_block_hash : Hash;
  new_outputs : gmap OutPoint Utxo;
  sender : nat;
}.

(** [struct QueuedBlocks]. *)
Record QueuedBlocks := mkQueue {
  blocks : gmap Hash Block;
  by_parent : gmap Hash (gset Hash);
  by_height : gmap Z (gset Hash);
  known_utxos : gmap OutPoint Utxo;
}.

Definition empty_queue : QueuedBlocks := mkQueue ∅ ∅ ∅ ∅.

(** [entry(k).or_default().insert(h)]. *)
Definition index_insert {K} `{Countable K} (k : K) (h : Hash) (m : gmap K (gset Hash)) :
    gmap K (gset Hash) := <[k := {[h]} ∪ default ∅ (m !! k)]> m.

(** [QueuedBlocks::queue]. *)
Definition queue (new : Block) (self : QueuedBlocks) : QueuedBlocks :=
  let new_hash := hash new in
  let new_height := height new in
  let parent_hash := previous_block_hash new in
  match blocks self !! new_hash with
  | Some _ => self
  | None =>
      mkQueue (<[new_hash := new]> (blocks self))
        (index_insert parent_hash new_hash (by_parent self))
        (index_insert new_height new_hash (by_height self))
        (new_outputs new ∪ known_utxos self)
  end.

(** [QueuedBlocks::has_queued_children]. *)
Definition has_queued_children (parent_hash : Hash) (self : QueuedBlocks) : bool :=
  bool_decide (is_Some (by_parent self !! parent_hash)).

(** The [map] of [dequeue_children]: removes the blocks one by one. *)
Fixpoint remove_all {E} (hashes : list Hash) (blocks : gmap Hash Block) :
    outcome E (list Block * gmap Hash Block) :=
  match hashes with
  | [] => Ok ([], blocks)
  | h :: hashes =>
      let? b := expect (blocks !! h) in
      let? ' (bs, blocks) := remove_all hashes (delete h blocks) in
      Ok (b :: bs, blocks)
  end.

(** The loop of [dequeue_children] on the other fields. *)
Definition forget_height (b : Block) (by_height : gmap Z (gset Hash)) : gmap Z (gset Hash) :=
  match by_height !! height b with
  | None => by_height
  | Some hashes =>
      let hashes := hashes ∖ {[hash b]} in
      if decide (hashes = ∅) then delete (height b) by_height
      else <[height b := hashes]> by_height
  end.
Definition forget_child (fields : gmap Z (gset Hash) * gmap OutPoint Utxo) (b : Block) :
    gmap Z (gset Hash) * gmap OutPoint Utxo :=
  (forget_height b fields.1, fields.2 ∖ new_outputs b).

(** [QueuedBlocks::dequeue_children]. *)
Definition dequeue_children {E} (parent_hash : Hash) (self : QueuedBlocks) :
    outcome E (list Block * QueuedBlocks) :=
  let hashes := default ∅ (by_parent self !! parent_hash) in
  let? ' (queued_children, blocks) := remove_all (elements hashes) (blocks self) in
  let fields := foldl forget_child (by_height self, known_utxos self) queued_children in
  Ok (queued_children, mkQueue blocks (delete parent_hash (by_parent self)) fields.1 fields.2).

(** The body of the loop of [prune_by_height], on one expired hash. *)
Definition expire {E} (h : Hash) (self : QueuedBlocks) : outcome E (Block * QueuedBlocks) :=
  let? expired_block := expect (blocks self !! h) in
  let parent_hash := previous_block_hash expired_block in
  let known_utxos := known_utxos self ∖ new_outputs expired_block in
  let? parent_list := expect (by_parent self !! parent_hash) in
  let? by_parent :=
    if decide (size parent_list = 1%nat) then
      do? assert_that (bool_decide (h ∈ parent_list)) in
      Ok (delete parent_hash (by_parent self))
    else
      do? assert_that (bool_decide (h ∈ parent_list)) in
      Ok (<[parent_hash := parent_list ∖ {[h]}]> (by_parent self)) in
  Ok (expired_block, mkQueue (delete h (blocks self)) by_parent (by_height self) known_utxos).

Fixpoint expire_all {E} (hashes : list Hash) (self : QueuedBlocks) :
    outcome E (list Block * QueuedBlocks) :=
  match hashes with
  | [] => Ok ([], self)
  | h :: hashes =>
      let? ' (b, self) := expire h self in
      let? ' (bs, self) := expire_all hashes self in
      Ok (b :: bs, self)
  end.

(** [QueuedBlocks::prune_by_height]; the blocks returned are those whose
    senders receive the duplicate error. *)
Definition prune_by_height {E} (finalized_tip_height : Z) (self : QueuedBlocks) :
    outcome E (list Block * QueuedBlocks) :=
  let? split_height := expect (Height.add_diff finalized_tip_height 1) in
  let kept := filter (fun e => split_height <= e.1) (by_height self) in
  let pruned := filter (fun e => ~ split_height <= e.1) (by_height self) in
  let hashes := map_to_list pruned ≫= (fun e => elements e.2) in
  expire_all hashes (mkQueue (blocks self) (by_parent self) kept (known_utxos self)).

(** [QueuedBlocks::get_mut], as a lookup, and [QueuedBlocks::utxo]. *)
Definition get (h : Hash) (self : QueuedBlocks) : option Block := blocks self !! h.
Definition utxo (outpoint : OutPoint) (self : QueuedBlocks) : option Utxo := known_utxos self !! outpoint.

(** [QueuedBlocks::drain]. *)
Definition drain (self : QueuedBlocks) : list (Hash * Block) * QueuedBlocks :=
  (map_to_list (blocks self), empty_queue).

(** ** The index invariant *)

(** [m] indexes the blocks by [key], without empty sets. *)
Definition indexes {K} `{Countable K} (m : gmap K (gset Hash)) (key : Block -> K)
    (bs : gmap Hash Block) : Prop :=
  (forall k h, h ∈ default ∅ (m !! k) <-> exists b, bs !! h = Some b /\ key b = k) /\
  (forall k s, m !! k = Some s -> s <> ∅).

(** The invariant of the queue. *)
Record queue_inv (q : QueuedBlocks) : Prop := {
  inv_hash h b : blocks q !! h = Some b -> hash b = h;
  inv_parent : indexes (by_parent q) previous_block_hash (blocks q);
  inv_height : indexes (by_height q) height (blocks q);
  inv_utxo o u : known_utxos q !! o = Some u ->
    exists h b, blocks q !! h = Some b /\ new_outputs b !! o = Some u;
}.

(** ** Lemmas on indexes *)

Section Indexes.
Context {K : Type} `{Countable K} (key : Block -> K).

Lemma indexes_insert m bs h b :
  indexes m key bs -> bs !! h = None -> indexes (index_insert (key b) h m) key (<[h := b]> bs).
Proof.
  intros [Hi Hne] Hh. unfold index_insert. split.
  - intros k h'. destruct (decide (k = key b)) as [->|Hk].
    + rewrite lookup_insert_eq. simpl. rewrite elem_of_union, elem_of_singleton, Hi.
      destruct (decide (h' = h)) as [->|Hh']; [rewrite lookup_insert_eq; naive_solver|].
      rewrite lookup_insert_ne by done. naive_solver.
    + rewrite lookup_insert_ne by done. rewrite Hi.
      destruct (decide (h' = h)) as [->|Hh']; [rewrite lookup_insert_eq; naive_solver|].
      by rewrite lookup_insert_ne by done.
  - intros k s. destruct (decide (k = key b)) as [->|Hk].
    + rewrite lookup_insert_eq. intros [= <-]. set_solver.
    + rewrite lookup_insert_ne by done. apply Hne.
Qed.

(** Removing one hash, with its set when it becomes empty. *)
Definition index_remove (k : K) (h : Hash) (m : gmap K (gset Hash)) : gmap K (gset Hash) :=
  let s := default ∅ (m !! k) ∖ {[h]} in
  if decide (s = ∅) then delete k m else <[k := s]> m.

Lemma index_remove_lookup k h m k' :
  default ∅ (index_remove k h m !! k') = default ∅ (m !! k') ∖ (if decide (k = k') then {[h]} else ∅).
Proof.
  unfold index_remove. case_decide as Hs; destruct (decide (k = k')) as [->|Hk].
  - by rewrite lookup_delete_eq, Hs.
  - rewrite lookup_delete_ne by done. set_solver.
  - by rewrite lookup_insert_eq.
  - rewrite lookup_insert_ne by done. set_solver.
Qed.

Lemma indexes_remove m bs h b :
  indexes m key bs -> bs !! h = Some b -> indexes (index_remove (key b) h m) key (delete h bs).
Proof.
  intros [Hi Hne] Hh. split.
  - intros k h'. rewrite index_remove_lookup, elem_of_difference, Hi.
    destruct (decide (h' = h)) as [->|Hh'].
    + rewrite lookup_delete_eq, Hh. split; [|naive_solver].
      intros [(b' & [= <-] & <-) Hno]. rewrite decide_True in Hno by done. set_solver.
    + rewrite lookup_delete_ne by done. split; [naive_solver|]. intros Hb. split; [done|].
      case_decide; set_solver.
  - intros k s. unfold index_remove. case_decide as Hs.
    + intros [_ Hk]%lookup_delete_Some. by eapply Hne.
    + intros [[_ <-]|[_ Hk]]%lookup_insert_Some; [done|]. by eapply Hne.
Qed.

Lemma indexes_delete_key m bs k :
  indexes m key bs -> indexes (delete k m) key (filter (fun e => key e.2 <> k) bs).
Proof.
  intros [Hi Hne]. split.
  - intros k' h. setoid_rewrite map_lookup_filter_Some. simpl.
    destruct (decide (k' = k)) as [->|Hk].
    + rewrite lookup_delete_eq. simpl. split; [set_solver|naive_solver].
    + rewrite lookup_delete_ne by done. rewrite Hi. naive_solver.
  - intros k' s [_ Hk]%lookup_delete_Some. by eapply Hne.
Qed.

Lemma indexes_filter m bs (P : K -> Prop) `{!forall k, Decision (P k)} :
  indexes m key bs ->
  indexes (filter (fun e => P e.1) m) key (filter (fun e => P (key e.2)) bs).
Proof.
  intros [Hi Hne]. split.
  - intros k h. setoid_rewrite map_lookup_filter_Some. simpl.
    assert (h ∈ default ∅ (filter (fun e => P e.1) m !! k) <-> P k /\ h ∈ default ∅ (m !! k)) as ->.
    { destruct (m !! k) as [s|] eqn:Hk; [|rewrite map_lookup_filter_None_2 by auto; set_solver].
      destruct (decide (P k)).
      - rewrite (proj2 (map_lookup_filter_Some _ m k s)) by done. naive_solver.
      - rewrite map_lookup_filter_None_2 by naive_solver. set_solver. }
    rewrite Hi. naive_solver.
  - intros k s [Hk _]%map_lookup_filter_Some. by eapply Hne.
Qed.

Lemma indexes_elem m bs k s h :
  indexes m key bs -> m !! k = Some s -> h ∈ s -> exists b, bs !! h = Some b /\ key b = k.
Proof. intros [Hi _] Hk Hh. apply Hi. by rewrite Hk. Qed.

Lemma indexes_lookup m bs h b :
  indexes m key bs -> bs !! h = Some b -> exists s, m !! key b = Some s /\ h ∈ s.
Proof.
  intros [Hi _] Hb. assert (h ∈ default ∅ (m !! key b)) as Hh by (apply Hi; eauto).
  destruct (m !! key b) as [s|]; [by exists s|]. set_solver.
Qed.
End Indexes.

(** ** The operations against a finite map *)

(** The map without a list of hashes. *)
Definition without (hs : list Hash) (bs : gmap Hash Block) : gmap Hash Block :=
  filter (fun e => e.1 ∉ hs) bs.

Lemma without_cons h hs bs : without (h :: hs) bs = without hs (delete h bs).
Proof.
  apply map_eq. intros h'. apply option_eq. intros b. unfold without.
  rewrite !map_lookup_filter_Some, lookup_delete_Some, not_elem_of_cons. naive_solver.
Qed.
Lemma without_nil bs : without [] bs = bs.
Proof.
  apply map_eq. intros h'. apply option_eq. intros b. unfold without.
  rewrite map_lookup_filter_Some. set_solver.
Qed.

(** UTXOs are only known from queued blocks. *)
Definition utxos_known (known : gmap OutPoint Utxo) (bs : gmap Hash Block) : Prop :=
  forall o u, known !! o = Some u -> exists h b, bs !! h = Some b /\ new_outputs b !! o = Some u.

Lemma utxos_known_delete known bs h b :
  utxos_known known bs -> bs !! h = Some b -> utxos_known (known ∖ new_outputs b) (delete h bs).
Proof.
  intros Hk Hb o u [Ho Hno]%lookup_difference_Some. destruct (Hk o u Ho) as (h' & b' & Hb' & Hu).
  exists h', b'. split; [|done]. rewrite lookup_delete_ne; [done|]. intros <-. congruence.
Qed.

(** The list of the blocks of some hashes. *)
Definition listed (hs : list Hash) (bs : gmap Hash Block) (l : list Block) : Prop :=
  Forall2 (fun h b => bs !! h = Some b) hs l.

Lemma listed_delete h hs bs l : h ∉ hs -> listed hs (delete h bs) l -> listed hs bs l.
Proof.
  intros Hh Hl. induction Hl as [|h' b hs l Hb _ IH]; [constructor|].
  apply not_elem_of_cons in Hh as [Hne Hh]. constructor; [|by apply IH].
  by rewrite lookup_delete_ne in Hb.
Qed.

Lemma listed_delete_2 h hs bs l : h ∉ hs -> listed hs bs l -> listed hs (delete h bs) l.
Proof.
  intros Hh Hl. induction Hl as [|h' b hs l Hb _ IH]; [constructor|].
  apply not_elem_of_cons in Hh as [Hne Hh]. constructor; [|by apply IH].
  by rewrite lookup_delete_ne.
Qed.

Lemma remove_all_Ok {E} hs bs :
  NoDup hs -> (forall h, h ∈ hs -> is_Some (bs !! h)) ->
  exists l, remove_all (E:=E) hs bs = Ok (l, without hs bs) /\ listed hs bs l.
Proof.
  revert bs. induction hs as [|h hs IH]; intros bs Hnd Hin; cbn [remove_all].
  { exists []. rewrite without_nil. by split; [|constructor]. }
  apply NoDup_cons in Hnd as [Hh Hnd]. destruct (Hin h) as [b Hb]; [by left|].
  rewrite Hb. cbn [expect obind]. destruct (IH (delete h bs)) as (l & -> & Hl); [done| |].
  { intros h' Hh'. rewrite lookup_delete_ne by (intros ->; done). apply Hin. by right. }
  exists (b :: l). cbn [obind]. rewrite without_cons. split; [done|].
  constructor; [done|]. by apply (listed_delete h).
Qed.

Lemma forget_height_remove b m :
  is_Some (m !! height b) -> forget_height b m = index_remove (height b) (hash b) m.
Proof. intros [s Hs]. unfold forget_height, index_remove. by rewrite Hs. Qed.

Lemma forget_children_Ok hs l bs m known :
  NoDup hs -> listed hs bs l -> (forall h b, bs !! h = Some b -> hash b = h) ->
  indexes m height bs -> utxos_known known bs ->
  let fields := foldl forget_child (m, known) l in
  indexes fields.1 height (without hs bs) /\ utxos_known fields.2 (without hs bs).
Proof.
  intros Hnd Hl. revert l bs m known Hl. induction hs as [|h hs IH]; intros l bs m known Hl Hhash Hm Hk.
  { inversion_clear Hl. simpl. by rewrite without_nil. }
  inversion Hl as [|? b ? l' Hb Hl']; subst. apply NoDup_cons in Hnd as [Hh Hnd].
  cbn [foldl]. unfold forget_child at 2 4. cbn [fst snd]. rewrite without_cons.
  rewrite forget_height_remove, (Hhash h b Hb)
    by (destruct (indexes_lookup height m bs h b Hm Hb) as (s & ? & _); eauto).
  apply IH; [done| | | |].
  - by apply listed_delete_2.
  - intros h' b' [_ Hb']%lookup_delete_Some. by apply Hhash.
  - by apply indexes_remove.
  - by apply utxos_known_delete.
Qed.

Lemma expire_Ok {E} h q b :
  indexes (by_parent q) previous_block_hash (blocks q) -> utxos_known (known_utxos q) (blocks q) ->
  blocks q !! h = Some b ->
  exists q', expire (E:=E) h q = Ok (b, q') /\ blocks q' = delete h (blocks q) /\
    by_height q' = by_height q /\
    indexes (by_parent q') previous_block_hash (blocks q') /\ utxos_known (known_utxos q') (blocks q').
Proof.
  intros Hp Hk Hb. unfold expire. rewrite Hb. cbn [expect obind].
  destruct (indexes_lookup previous_block_hash _ _ h b Hp Hb) as (s & Hs & Hh). rewrite Hs.
  cbn [expect obind]. rewrite bool_decide_eq_true_2 by done. cbn [assert_that obind].
  exists (mkQueue (delete h (blocks q)) (index_remove (previous_block_hash b) h (by_parent q))
    (by_height q) (known_utxos q ∖ new_outputs b)).
  split_and!; [|done|done|by apply indexes_remove|by apply utxos_known_delete].
  unfold index_remove. rewrite Hs. cbn [default]. destruct (decide (size s = 1%nat)) as [H1|H1].
  - apply size_1_elem_of in H1 as [x Hx]. 
    assert (s ∖ {[h]} = ∅) as He by set_solver. by rewrite decide_True.
  - rewrite decide_False; [done|]. intros He. apply H1.
    assert (s = {[h]}) as ->; [|apply size_singleton].
    apply set_eq. intros x. destruct (decide (x = h)); set_solver.
Qed.

Lemma expire_all_Ok {E} hs q :
  NoDup hs -> (forall h, h ∈ hs -> is_Some (blocks q !! h)) ->
  indexes (by_parent q) previous_block_hash (blocks q) -> utxos_known (known_utxos q) (blocks q) ->
  exists l q', expire_all (E:=E) hs q = Ok (l, q') /\ listed hs (blocks q) l /\
    blocks q' = without hs (blocks q) /\ by_height q' = by_height q /\
    indexes (by_parent q') previous_block_hash (blocks q') /\ utxos_known (known_utxos q') (blocks q').
Proof.
  revert q. induction hs as [|h hs IH]; intros q Hnd Hin Hp Hk; cbn [expire_all].
  { exists [], q. rewrite without_nil. split_and!; try done. constructor. }
  apply NoDup_cons in Hnd as [Hh Hnd]. destruct (Hin h) as [b Hb]; [by left|].
  destruct (expire_Ok (E:=E) h q b Hp Hk Hb) as (q1 & -> & Eb & Eh & Hp1 & Hk1). cbn [obind].
  destruct (IH q1) as (l & q2 & -> & Hl & Eb2 & Eh2 & Hp2 & Hk2); try done.
  { intros h' Hh'. rewrite Eb, lookup_delete_ne by (intros ->; done). apply Hin. by right. }
  cbn [obind]. exists (b :: l), q2. split_and!; try done.
  - constructor; [done|]. apply (listed_delete h); [done|]. by rewrite <- Eb.
  - by rewrite without_cons, <- Eb.
  - by rewrite Eh2.
Qed.

(** The blocks that satisfy [P], in the order of the map. *)
Definition selected (P : Block -> Prop) `{!forall b, Decision (P b)} (bs : gmap Hash Block) : list Block :=
  (map_to_list (filter (fun e => P e.2) bs)).*2.

Lemma elem_of_zip_listed hs bs l h b :
  listed hs bs l -> (h, b) ∈ zip hs l <-> h ∈ hs /\ bs !! h = Some b.
Proof.
  intros Hl. induction Hl as [|h' b' hs l Hb _ IH]; simpl; [set_solver|].
  rewrite !elem_of_cons, IH. naive_solver.
Qed.

Lemma listed_selected (P : Block -> Prop) `{!forall b, Decision (P b)} hs bs l :
  NoDup hs -> listed hs bs l -> (forall h, h ∈ hs <-> exists b, bs !! h = Some b /\ P b) ->
  l ≡ₚ selected P bs.
Proof.
  intros Hnd Hl Hin. pose proof (Forall2_length _ _ _ Hl) as Hlen.
  rewrite <- (snd_zip hs l) by lia. apply fmap_Permutation, NoDup_Permutation.
  - apply (NoDup_fmap_1 fst). by rewrite fst_zip by lia.
  - apply NoDup_map_to_list.
  - intros [h b]. rewrite elem_of_map_to_list, map_lookup_filter_Some, (elem_of_zip_listed _ bs) by done.
    simpl. rewrite Hin. naive_solver.
Qed.

Lemma without_filter (P : Block -> Prop) `{!forall b, Decision (P b)} hs bs :
  (forall h, h ∈ hs <-> exists b, bs !! h = Some b /\ P b) ->
  without hs bs = filter (fun e => ~ P e.2) bs.
Proof.
  intros Hin. apply map_eq. intros h. apply option_eq. intros b. unfold without.
  rewrite !map_lookup_filter_Some. simpl. split; intros [Hb Hn]; (split; [done|]).
  - intros HP. apply Hn, Hin. eauto.
  - intros (b' & Hb' & HP)%Hin. naive_solver.
Qed.

Lemma queue_Ok b q :
  queue_inv q ->
  queue_inv (queue b q) /\
  blocks (queue b q) = (if blocks q !! hash b then blocks q else <[hash b := b]> (blocks q)).
Proof.
  intros Hq. unfold queue. destruct (blocks q !! hash b) as [b'|] eqn:Hb; [done|].
  split; [|done]. destruct Hq as [Hh Hp Hg Hu]. split; cbn [blocks by_parent by_height known_utxos].
  - intros h b' [[<- <-]|[_ Hb']]%lookup_insert_Some; [done|]. by apply Hh.
  - by apply (indexes_insert previous_block_hash).
  - by apply (indexes_insert height).
  - intros o u [Ho|[_ Ho]]%lookup_union_Some_raw.
    + exists (hash b), b. by rewrite lookup_insert_eq.
    + destruct (Hu o u Ho) as (h & b' & Hb' & Hu'). exists h, b'. split; [|done].
      rewrite lookup_insert_ne; [done|]. intros <-. congruence.
Qed.

Lemma dequeue_Ok {E} p q :
  queue_inv q ->
  exists l q', dequeue_children (E:=E) p q = Ok (l, q') /\ queue_inv q' /\
    blocks q' = filter (fun e => ~ previous_block_hash e.2 = p) (blocks q) /\
    l ≡ₚ selected (fun b => previous_block_hash b = p) (blocks q).
Proof.
  intros [Hh Hp Hg Hu]. unfold dequeue_children. set (s := default ∅ (by_parent q !! p)).
  assert (forall h, h ∈ elements s <-> exists b, blocks q !! h = Some b /\ previous_block_hash b = p) as Hin
    by (intros h; rewrite elem_of_elements; apply Hp).
  pose proof (NoDup_elements s) as Hnd.
  destruct (remove_all_Ok (E:=E) (elements s) (blocks q)) as (l & -> & Hl); [done| |].
  { intros h (b & Hb & _)%Hin. eauto. }
  cbn [obind]. destruct (forget_children_Ok (elements s) l (blocks q) (by_height q) (known_utxos q))
    as [Hg' Hu']; try done.
  rewrite (without_filter (fun b => previous_block_hash b = p)) in * by done.
  eexists l, _. split; [done|]. split_and!; [|done|by eapply listed_selected].
  split; cbn [blocks by_parent by_height known_utxos]; try done.
  - intros h b [Hb _]%map_lookup_filter_Some. by apply Hh.
  - by apply (indexes_delete_key previous_block_hash).
Qed.

(** The hashes at or below a height, read off the height index. *)
Lemma pruned_hashes m bs t :
  indexes m height bs ->
  let hs := map_to_list (filter (fun e => ~ t + 1 <= e.1) m) ≫= (fun e => elements e.2) in
  NoDup hs /\ forall h, h ∈ hs <-> exists b, bs !! h = Some b /\ height b <= t.
Proof.
  intros Hg hs. split.
  - unfold hs. apply NoDup_bind.
    + intros [k1 s1] [k2 s2] h. rewrite !elem_of_map_to_list, !map_lookup_filter_Some, !elem_of_elements. simpl.
      intros [H1 _] [H2 _] Hh1 Hh2.
      destruct (indexes_elem height _ _ _ _ _ Hg H1 Hh1) as (b1 & Hb1 & <-).
      destruct (indexes_elem height _ _ _ _ _ Hg H2 Hh2) as (b2 & Hb2 & <-). congruence.
    + intros [k s] _. apply NoDup_elements.
    + apply NoDup_map_to_list.
  - intros h. unfold hs. rewrite list_elem_of_bind. split.
    + intros ([k s] & Hs%elem_of_elements & Hk%elem_of_map_to_list). simpl in Hs.
      apply map_lookup_filter_Some in Hk as [Hk Hle]. simpl in Hle.
      destruct (indexes_elem height _ _ _ _ _ Hg Hk Hs) as (b & Hb & <-). exists b. split; [done|lia].
    + intros (b & Hb & Hle). destruct (indexes_lookup height _ _ _ _ Hg Hb) as (s & Hs & Hh').
      exists (height b, s). split; [by apply elem_of_elements|].
      apply elem_of_map_to_list, map_lookup_filter_Some. split; [done|simpl; lia].
Qed.

Lemma prune_Ok {E} t q :
  queue_inv q -> 0 <= t < Height.MAX ->
  exists l q', prune_by_height (E:=E) t q = Ok (l, q') /\ queue_inv q' /\
    blocks q' = filter (fun e => ~ height e.2 <= t) (blocks q) /\
    l ≡ₚ selected (fun b => height b <= t) (blocks q).
Proof.
  intros [Hh Hp Hg Hu] Ht. unfold prune_by_height.
  assert (Height.add_diff t 1 = Some (t + 1)) as ->.
  { change Height.MAX with 2147483647 in Ht. unfold Height.add_diff. rewrite wrapped_height by lia.
    apply checked_ok. change Height.MAX with 2147483647. lia. }
  cbn [expect obind]. destruct (pruned_hashes _ _ t Hg) as [Hnd Hin].
  set (hs := _ ≫= _) in *. set (q0 := mkQueue _ _ _ _).
  destruct (expire_all_Ok (E:=E) hs q0) as (l & q' & -> & Hl & Eb & Eh & Hp' & Hu'); try done.
  { intros h (b & Hb & _)%Hin. eauto. }
  cbn [q0 blocks by_height] in *.
  rewrite (without_filter (fun b => height b <= t)) in Eb by done.
  exists l, q'. split; [done|]. split_and!; [|done|by eapply listed_selected].
  split; [|done| |done].
  - intros h b. rewrite Eb. intros [Hb _]%map_lookup_filter_Some. by apply Hh.
  - rewrite Eh, Eb.
    assert (filter (fun e => ~ height e.2 <= t) (blocks q) =
      filter (fun e => t + 1 <= height e.2) (blocks q)) as ->.
    { apply map_filter_ext. intros h b _. simpl. lia. }
    by apply (indexes_filter height _ _ (fun k => t + 1 <= k)).
Qed.

(** ** Refinement of a finite map *)

(** A request to the queue, and its answer: the blocks it releases. *)
Inductive request :=
| Queue (b : Block)
| Dequeue (parent : Hash)
| Prune (finalized_tip_height : Z).

Definition step {E} (r : request) (q : QueuedBlocks) : outcome E (list Block * QueuedBlocks) :=
  match r with
  | Queue b => Ok ([], queue b q)
  | Dequeue parent => dequeue_children parent q
  | Prune t => prune_by_height t q
  end.

(** The specification on a map from hashes to blocks. *)
Definition spec_step (r : request) (bs : gmap Hash Block) : list Block * gmap Hash Block :=
  match r with
  | Queue b => ([], if bs !! hash b then bs else <[hash b := b]> bs)
  | Dequeue parent =>
      (selected (fun b => previous_block_hash b = parent) bs,
       filter (fun e => ~ previous_block_hash e.2 = parent) bs)
  | Prune t => (selected (fun b => height b <= t) bs, filter (fun e => ~ height e.2 <= t) bs)
  end.

Fixpoint run {E} (rs : list request) (q : QueuedBlocks) : outcome E (list (list Block) * QueuedBlocks) :=
  match rs with
  | [] => Ok ([], q)
  | r :: rs =>
      let? ' (released, q) := step r q in
      let? ' (later, q) := run rs q in
      Ok (released :: later, q)
  end.

Fixpoint spec_run (rs : list request) (bs : gmap Hash Block) : list (list Block) * gmap Hash Block :=
  match rs with
  | [] => ([], bs)
  | r :: rs =>
      let ' (released, bs) := spec_step r bs in
      let ' (later, bs) := spec_run rs bs in
      (released :: later, bs)
  end.

(** Finalized heights are below the last one. *)
Definition valid_request (r : request) : Prop :=
  match r with Prune t => 0 <= t < Height.MAX | _ => True end.

Lemma step_refines {E} r q :
  queue_inv q -> valid_request r ->
  exists l q', step (E:=E) r q = Ok (l, q') /\ queue_inv q' /\
    l ≡ₚ (spec_step r (blocks q)).1 /\ blocks q' = (spec_step r (blocks q)).2.
Proof.
  intros Hq Hr. destruct r as [b|p|t]; simpl.
  - destruct (queue_Ok b q Hq) as [Hq' Eb]. by exists [], (queue b q).
  - destruct (dequeue_Ok (E:=E) p q Hq) as (l & q' & -> & Hq' & Eb & El). by exists l, q'.
  - destruct (prune_Ok (E:=E) t q Hq Hr) as (l & q' & -> & Hq' & Eb & El). by exists l, q'.
Qed.

Lemma empty_queue_inv : queue_inv empty_queue.
Proof.
  split; cbn [empty_queue blocks by_parent by_height known_utxos]; [| | |];
    try split; intros *; rewrite ?lookup_empty; set_solver.
Qed.

Lemma run_refines {E} rs q :
  queue_inv q -> Forall valid_request rs ->
  exists ls q', run (E:=E) rs q = Ok (ls, q') /\ queue_inv q' /\
    Forall2 Permutation ls (spec_run rs (blocks q)).1 /\ blocks q' = (spec_run rs (blocks q)).2.
Proof.
  revert q. induction rs as [|r rs IH]; intros q Hq Hrs; cbn [run spec_run].
  { exists [], q. by split_and!. }
  inversion_clear Hrs as [|? ? Hr Hrs']. destruct (step_refines (E:=E) r q Hq Hr) as (l & q1 & -> & Hq1 & El & Eb).
  cbn [obind]. destruct (spec_step r (blocks q)) as [l0 bs1]. simpl in El, Eb.
  destruct (IH q1 Hq1 Hrs') as (ls & q2 & -> & Hq2 & Els & Eb2). cbn [obind]. rewrite Eb in Els, Eb2.
  destruct (spec_run rs bs1) as [ls0 bs2]. simpl in *. exists (l :: ls), q2.
  split_and!; [done|done|by constructor|done].
Qed.


(** After any such sequence of calls, a UTXO that the queue reports is an
    output of a block that is still queued, and a block is found under its own
    hash: dequeued or pruned blocks leave no stale entry behind. *)
Theorem queue_utxos_sound {E} (rs : list request) (released : list (list Block)) (q : QueuedBlocks) :
  Forall valid_request rs -> run (E:=E) rs empty_queue = Ok (released, q) ->
  (forall o u, utxo o q = Some u -> exists h b, get h q = Some b /\ new_outputs b !! o = Some u) /\
  (forall h b, get h q = Some b -> hash b = h) /\
  (forall p, has_queued_children p q = true <-> exists h b, get h q = Some b /\ previous_block_hash b = p).
Proof.
  intros Hrs Hr. destruct (run_refines (E:=E) rs empty_queue empty_queue_inv Hrs) as (ls & q' & Hr' & Hq & _).
  rewrite Hr in Hr'. injection Hr' as <- <-. split_and!; [apply Hq|apply Hq|].
  intros p. unfold has_queued_children. rewrite bool_decide_eq_true.
  destruct Hq as [_ [Hi Hne] _ _]. split.
  - intros [s Hs]. destruct (set_choose_L s) as [h Hh]; [by eapply Hne|].
    destruct (proj1 (Hi p h)) as (b & Hb & Hp); [by rewrite Hs|]. by exists h, b.
  - intros (h & b & Hb & Hp). assert (h ∈ default ∅ (by_parent q !! p)) as Hh by (apply Hi; eauto).
    destruct (by_parent q !! p); [by eexists|set_solver].
Qed.
End Queue.

(** * Sent blocks *)

Section Sent.
Context {Hash : Type} `{Countable Hash} {OutPoint : Type} `{Countable OutPoint} {Utxo : Type}.
Abbreviation SentBlock := (Block (Hash:=Hash) (OutPoint:=OutPoint) (Utxo:=Utxo)).

(** [struct SentHashes]. *)
Record SentHashes := mkSent {
  bufs : list (list (Hash * Z));
  curr_buf : list (Hash * Z);
  sent : gmap Hash (list OutPoint);
  sent_utxos : gmap OutPoint Utxo;
  can_fork_chain_at_hashes : bool;
}.

Definition empty_sent : SentHashes := mkSent [] [] ∅ ∅ false.

(** [SentHashes::add]; [SentHashes::add_finalized] has the same body. *)
Definition add (block : SentBlock) (self : SentHashes) : SentHashes :=
  let outpoints := (map_to_list (new_outputs block)).*1 in
  mkSent (bufs self) (curr_buf self ++ [(hash block, height block)])
    (<[hash block := outpoints]> (sent self)) (new_outputs block ∪ sent_utxos self)
    (can_fork_chain_at_hashes self).

(** [SentHashes::new], from the blocks of the chains of the non-finalized state. *)
Definition new (chain_blocks : list SentBlock) : SentHashes :=
  let sent_hashes := foldl (fun s b => add b s) empty_sent chain_blocks in
  if decide (sent sent_hashes = ∅) then sent_hashes
  else mkSent (bufs sent_hashes) (curr_buf sent_hashes) (sent sent_hashes) (sent_utxos sent_hashes) true.

(** [SentHashes::finish_batch]. *)
Definition finish_batch (self : SentHashes) : SentHashes :=
  match curr_buf self with
  | [] => self
  | buf => mkSent (bufs self ++ [buf]) [] (sent self) (sent_utxos self) (can_fork_chain_at_hashes self)
  end.

(** Removing the expired outpoints. *)
Definition drop_outpoints (outpoints : list OutPoint) (known : gmap OutPoint Utxo) : gmap OutPoint Utxo :=
  foldl (fun m o => delete o m) known outpoints.

(** The closure of [prune_by_height] on one buffer: what is left of it. *)
Fixpoint prune_buf (height_bound : Z) (buf : list (Hash * Z))
    (maps : gmap Hash (list OutPoint) * gmap OutPoint Utxo) :
    list (Hash * Z) * (gmap Hash (list OutPoint) * gmap OutPoint Utxo) :=
  match buf with
  | [] => ([], maps)
  | (h, ht) :: rest =>
      if ht >? height_bound then (buf, maps)
      else
        prune_buf height_bound rest
          match maps.1 !! h with
          | Some expired => (delete h maps.1, drop_outpoints expired maps.2)
          | None => maps
          end
  end.

(** [bufs.retain_mut(..)]. *)
Fixpoint prune_bufs (height_bound : Z) (bufs : list (list (Hash * Z)))
    (maps : gmap Hash (list OutPoint) * gmap OutPoint Utxo) :
    list (list (Hash * Z)) * (gmap Hash (list OutPoint) * gmap OutPoint Utxo) :=
  match bufs with
  | [] => ([], maps)
  | buf :: rest =>
      let ' (buf, maps) := prune_buf height_bound buf maps in
      let ' (rest, maps) := prune_bufs height_bound rest maps in
      (if decide (buf = []) then rest else buf :: rest, maps)
  end.

(** [SentHashes::prune_by_height]. *)
Definition prune_sent (height_bound : Z) (self : SentHashes) : SentHashes :=
  let self := finish_batch self in
  let ' (bufs, maps) := prune_bufs height_bound (bufs self) (sent self, sent_utxos self) in
  mkSent bufs (curr_buf self) maps.1 maps.2 (can_fork_chain_at_hashes self).

(** [SentHashes::contains] and [SentHashes::can_fork_chain_at]. *)
Definition contains (h : Hash) (self : SentHashes) : bool := bool_decide (is_Some (sent self !! h)).
Definition can_fork_chain_at (h : Hash) (self : SentHashes) : bool :=
  can_fork_chain_at_hashes self && contains h self.

(** [SentHashes::remove]. *)
Definition remove (h : Hash) (self : SentHashes) : SentHashes :=
  match sent self !! h with
  | None => self
  | Some outpoints =>
      let keep := filter (fun e : Hash * Z => e.1 <> h) in
      mkSent (map keep (bufs self)) (keep (curr_buf self)) (delete h (sent self))
        (drop_outpoints outpoints (sent_utxos self)) (can_fork_chain_at_hashes self)
  end.

(** ** The invariant of the sent blocks *)

(** All recorded entries. *)
Definition entries (self : SentHashes) : list (Hash * Z) := concat (bufs self) ++ curr_buf self.

(** A batch in increasing height order. *)
Definition ordered (buf : list (Hash * Z)) : Prop := StronglySorted (fun a b => a.2 <= b.2) buf.

(** Batches are ordered, a hash has one height, and the sent hashes are the recorded ones. *)
Record sent_inv (s : SentHashes) : Prop := {
  sent_ordered : Forall ordered (bufs s);
  sent_curr : ordered (curr_buf s);
  sent_heights h h1 h2 : (h, h1) ∈ entries s -> (h, h2) ∈ entries s -> h1 = h2;
  sent_recorded h : is_Some (sent s !! h) <-> exists ht, (h, ht) ∈ entries s;
}.

Lemma ordered_app buf h ht :
  ordered buf -> Forall (fun e => e.2 <= ht) buf -> ordered (buf ++ [(h, ht)]).
Proof.
  intros Ho Hf. induction Ho as [|e buf Ho IH He]; simpl; [repeat constructor|].
  apply Forall_cons in Hf as [Hle Hf]. constructor; [by apply IH|].
  apply Forall_app; split; [done|]. by constructor.
Qed.

Lemma ordered_filter buf (P : Hash * Z -> Prop) `{!forall e, Decision (P e)} :
  ordered buf -> ordered (filter P buf).
Proof.
  induction 1 as [|e buf Ho IH He]; [constructor|]. rewrite filter_cons. case_decide; [|done].
  constructor; [done|]. rewrite Forall_forall in *. intros e' [_ He']%list_elem_of_filter. auto.
Qed.

Lemma filter_all (buf : list (Hash * Z)) (P : Hash * Z -> Prop) `{!forall e, Decision (P e)} :
  Forall P buf -> filter P buf = buf.
Proof. induction 1 as [|e buf He _ IH]; [done|]. by rewrite filter_cons, decide_True, IH. Qed.

(** On an ordered batch, pruning is a filter. *)
Lemma prune_buf_Ok bound buf maps :
  ordered buf ->
  (prune_buf bound buf maps).1 = filter (fun e => bound < e.2) buf /\
  forall h, is_Some ((prune_buf bound buf maps).2.1 !! h) <->
    is_Some (maps.1 !! h) /\ ~ exists ht, (h, ht) ∈ buf /\ ht <= bound.
Proof.
  intros Ho. revert maps. induction Ho as [|[h ht] buf Ho IH He]; intros maps; cbn [prune_buf].
  { split; [done|]. set_solver. }
  destruct (Z.gtb_spec ht bound) as [Hgt|Hle].
  - split.
    + cbn [fst]. symmetry. apply filter_all. constructor; [done|].
      rewrite Forall_forall in *. intros e Hin. specialize (He e Hin). simpl in *. lia.
    + intros h'. split; [|tauto]. intros Hs. split; [done|]. intros (ht' & Hin & Hle).
      rewrite Forall_forall in He. apply elem_of_cons in Hin as [[= -> ->]|Hin]; [lia|].
      specialize (He _ Hin). simpl in He. lia.
  - rewrite filter_cons, decide_False by (simpl; lia).
    set (maps' := match maps.1 !! h with Some _ => _ | None => _ end).
    destruct (IH maps') as [-> Hs]. split; [done|]. intros h'. rewrite Hs.
    assert (is_Some (maps'.1 !! h') <-> is_Some (maps.1 !! h') /\ h' <> h) as ->.
    { unfold maps'. destruct (maps.1 !! h) as [o|] eqn:Ho'; simpl.
      - rewrite lookup_delete_is_Some. naive_solver.
      - split; [|tauto]. intros Hm. split; [done|]. intros ->. rewrite Ho' in Hm. by destruct Hm. }
    setoid_rewrite elem_of_cons. split.
    + intros [[Hm Hne] Hno]. split; [done|]. intros (ht' & [[= -> ->]|Hin] & Hle'); [done|]. apply Hno. eauto.
    + intros [Hm Hno]. split; [split; [done|]|].
      * intros ->. apply Hno. exists ht. auto.
      * intros (ht' & Hin & Hle'). apply Hno. eauto.
Qed.

Lemma prune_bufs_Ok bound bs maps :
  Forall ordered bs ->
  concat (prune_bufs bound bs maps).1 = filter (fun e => bound < e.2) (concat bs) /\
  Forall ordered (prune_bufs bound bs maps).1 /\
  forall h, is_Some ((prune_bufs bound bs maps).2.1 !! h) <->
    is_Some (maps.1 !! h) /\ ~ exists ht, (h, ht) ∈ concat bs /\ ht <= bound.
Proof.
  intros Hf. revert maps. induction Hf as [|buf bs Ho _ IH]; intros maps; cbn [prune_bufs concat].
  { split_and!; [done|constructor|set_solver]. }
  destruct (prune_buf_Ok bound buf maps Ho) as [Eb Hs]. destruct (prune_buf bound buf maps) as [buf' maps1].
  destruct (IH maps1) as (Ebs & Hos & Hs'). destruct (prune_bufs bound bs maps1) as [bs' maps2].
  simpl in *. rewrite filter_app, <- Eb, <- Ebs. split_and!.
  - case_decide as E; [by rewrite E|done].
  - case_decide; [done|]. constructor; [|done]. rewrite Eb. by apply ordered_filter.
  - intros h. rewrite Hs', Hs. setoid_rewrite elem_of_app. naive_solver.
Qed.

Lemma entries_finish s : entries (finish_batch s) = entries s.
Proof.
  unfold finish_batch, entries. destruct (curr_buf s) eqn:E; [by rewrite E|]. simpl.
  by rewrite concat_app, app_nil_r; simpl; rewrite app_nil_r.
Qed.

Lemma sent_inv_finish s : sent_inv s -> sent_inv (finish_batch s).
Proof.
  intros [Ho Hc Hh Hr]. split.
  - unfold finish_batch. destruct (curr_buf s) eqn:E; [done|].
    apply Forall_app. split; [done|]. by apply Forall_singleton.
  - unfold finish_batch. destruct (curr_buf s) eqn:E; [by rewrite E|constructor].
  - rewrite entries_finish. apply Hh.
  - rewrite entries_finish. intros h. rewrite <- Hr. unfold finish_batch. by destruct (curr_buf s).
Qed.

Lemma finish_curr s : curr_buf (finish_batch s) = [].
Proof. unfold finish_batch. by destruct (curr_buf s) eqn:E. Qed.

Lemma entries_prune bound s :
  sent_inv s -> entries (prune_sent bound s) = filter (fun e => bound < e.2) (entries s).
Proof.
  intros Hs. rewrite <- (entries_finish s). apply sent_inv_finish in Hs. unfold prune_sent.
  pose proof (prune_bufs_Ok bound (bufs (finish_batch s)) (sent (finish_batch s), sent_utxos (finish_batch s))
    (sent_ordered _ Hs)) as (E & _ & _).
  destruct (prune_bufs _ _ _) as [bs maps]. unfold entries. cbn [bufs curr_buf fst] in *.
  by rewrite finish_curr, !app_nil_r.
Qed.

Lemma prune_sent_lookup bound s h :
  sent_inv s ->
  is_Some (sent (prune_sent bound s) !! h) <->
  is_Some (sent s !! h) /\ ~ exists ht, (h, ht) ∈ entries s /\ ht <= bound.
Proof.
  intros Hs. rewrite <- (entries_finish s). apply sent_inv_finish in Hs. unfold prune_sent.
  pose proof (prune_bufs_Ok bound (bufs (finish_batch s)) (sent (finish_batch s), sent_utxos (finish_batch s))
    (sent_ordered _ Hs)) as (_ & _ & Hl).
  assert (sent (finish_batch s) = sent s) as E by (unfold finish_batch; by destruct (curr_buf s)).
  destruct (prune_bufs _ _ _) as [bs maps]. cbn [sent fst snd] in *. rewrite Hl, E.
  unfold entries. by rewrite finish_curr, app_nil_r.
Qed.

Lemma sent_inv_prune bound s : sent_inv s -> sent_inv (prune_sent bound s).
Proof.
  intros Hs. pose proof (sent_inv_finish s Hs) as Hf. split.
  - unfold prune_sent.
    pose proof (prune_bufs_Ok bound (bufs (finish_batch s)) (sent (finish_batch s), sent_utxos (finish_batch s))
      (sent_ordered _ Hf)) as (_ & Ho & _). by destruct (prune_bufs _ _ _).
  - unfold prune_sent. destruct (prune_bufs _ _ _). cbn [curr_buf]. apply Hf.
  - intros h h1 h2. rewrite entries_prune by done. rewrite !list_elem_of_filter.
    intros [_ H1] [_ H2]. exact (sent_heights _ Hs h h1 h2 H1 H2).
  - intros h. rewrite prune_sent_lookup, entries_prune by done. setoid_rewrite list_elem_of_filter. simpl.
    rewrite (sent_recorded _ Hs h). split.
    + intros [(ht & Hin) Hno]. exists ht. split; [|done].
      destruct (Z.le_gt_cases ht bound); [|lia]. exfalso. apply Hno. eauto.
    + intros (ht & Hgt & Hin). split; [eauto|]. intros (ht' & Hin' & Hle).
      rewrite (sent_heights _ Hs h ht ht' Hin Hin') in Hgt. lia.
Qed.

Lemma sent_inv_add (b : SentBlock) s :
  sent_inv s -> Forall (fun e => e.2 <= height b) (curr_buf s) ->
  (forall ht, (hash b, ht) ∈ entries s -> ht = height b) -> sent_inv (add b s).
Proof.
  intros [Ho Hc Hh Hr] Hle Hsame.
  assert (forall e, e ∈ entries (add b s) <-> e ∈ entries s \/ e = (hash b, height b)) as He.
  { intros e. unfold entries, add. cbn [bufs curr_buf]. rewrite !elem_of_app, list_elem_of_singleton. tauto. }
  split.
  - done.
  - by apply ordered_app.
  - intros h h1 h2. rewrite !He.
    intros [H1|E1] [H2|E2]; [by eapply Hh|injection E2 as -> ->|injection E1 as -> ->|congruence];
      [by apply Hsame|symmetry; by apply Hsame].
  - intros h. unfold add at 1. cbn [sent]. setoid_rewrite He. rewrite lookup_insert_is_Some, Hr.
    destruct (decide (hash b = h)) as [<-|Hne]; naive_solver.
Qed.

Lemma elem_of_concat_map (keep : list (Hash * Z) -> list (Hash * Z)) (P : Hash * Z -> Prop) bs e :
  (forall l e, e ∈ keep l <-> P e /\ e ∈ l) -> e ∈ concat (map keep bs) <-> P e /\ e ∈ concat bs.
Proof.
  intros Hk. induction bs as [|b bs IH]; simpl; [set_solver|]. rewrite !elem_of_app, Hk, IH. tauto.
Qed.

Lemma sent_inv_remove h s : sent_inv s -> sent_inv (remove h s) /\ contains h (remove h s) = false.
Proof.
  intros [Ho Hc Hh Hr]. unfold remove. destruct (sent s !! h) as [o|] eqn:Es.
  2: { split; [done|]. unfold contains. rewrite Es. by apply bool_decide_eq_false. }
  set (keep := filter _).
  assert (forall e, e ∈ entries (mkSent (map keep (bufs s)) (keep (curr_buf s)) (delete h (sent s))
    (drop_outpoints o (sent_utxos s)) (can_fork_chain_at_hashes s)) <-> e.1 <> h /\ e ∈ entries s) as He.
  { intros e. unfold entries. cbn [bufs curr_buf]. rewrite !elem_of_app.
    rewrite (elem_of_concat_map keep (fun e => e.1 <> h)) by (intros; unfold keep; by rewrite list_elem_of_filter).
    unfold keep. rewrite list_elem_of_filter. tauto. }
  split.
  - split.
    + cbn [bufs]. apply Forall_fmap. eapply Forall_impl; [exact Ho|]. intros. by apply ordered_filter.
    + by apply ordered_filter.
    + intros h' h1 h2. rewrite !He. intros [_ H1] [_ H2]. eauto.
    + intros h'. setoid_rewrite He. cbn [sent fst]. rewrite lookup_delete_is_Some, Hr. naive_solver.
  - unfold contains. cbn [sent]. rewrite lookup_delete_eq. by apply bool_decide_eq_false.
Qed.

(** The states that the write task reaches: within a batch blocks are added in
    the order of their heights, and a hash is always sent with its own height. *)
Inductive reachable : SentHashes -> Prop :=
| reach_empty : reachable empty_sent
| reach_add s b : reachable s -> Forall (fun e => e.2 <= height b) (curr_buf s) ->
    (forall ht, (hash b, ht) ∈ entries s -> ht = height b) -> reachable (add b s)
| reach_finish s : reachable s -> reachable (finish_batch s)
| reach_prune s bound : reachable s -> reachable (prune_sent bound s)
| reach_remove s h : reachable s -> reachable (remove h s).

Lemma reachable_inv s : reachable s -> sent_inv s.
Proof.
  induction 1 as [|s b _ IH Hc Hh|s _ IH|s bound _ IH|s h _ IH].
  - split; [constructor|constructor|set_solver|]. intros h. cbn [empty_sent sent]. rewrite lookup_empty.
    split; [by intros []|set_solver].
  - by apply sent_inv_add.
  - by apply sent_inv_finish.
  - by apply sent_inv_prune.
  - by apply sent_inv_remove.
Qed.

(** In every state the write task reaches, the sent hashes are those of
    the recorded batches; pruning at a height forgets exactly the hashes at or
    below it, although it stops at the first higher entry of each batch; and a
    rejected block is forgotten, so its hash can be sent again. *)
Theorem sent_hashes_exact (s : SentHashes) (bound : Z) (h : Hash) :
  reachable s ->
  (contains h s = true <-> exists ht, (h, ht) ∈ entries s) /\
  (contains h (prune_sent bound s) = true <-> exists ht, (h, ht) ∈ entries s /\ bound < ht) /\
  contains h (remove h s) = false.
Proof.
  intros Hs%reachable_inv. split_and!; [| |by apply sent_inv_remove].
  - unfold contains. rewrite bool_decide_eq_true. apply Hs.
  - unfold contains. rewrite bool_decide_eq_true, (sent_recorded _ (sent_inv_prune bound s Hs)), entries_prune by done.
    setoid_rewrite list_elem_of_filter. simpl. naive_solver.
Qed.
End Sent.

(** ** Concrete queues *)

Section Examples.
#[local] Abbreviation TestBlock := (Block (Hash:=Z) (OutPoint:=Z) (Utxo:=Z)).

(** Two competing children of block 10 and one grandchild. *)
Definition block_a : TestBlock := mkQueued 11 5 10 {[ 1 := 100 ]} 0.
Definition block_b : TestBlock := mkQueued 12 5 10 {[ 2 := 200 ]} 1.
Definition block_c : TestBlock := mkQueued 13 6 11 {[ 3 := 300 ]} 2.
Definition example_requests : list (request (Hash:=Z) (OutPoint:=Z) (Utxo:=Z)) :=
  [Queue block_a; Queue block_c; Queue block_b; Queue block_a; Dequeue 10; Prune 6].


Lemma queue_utxos_sound_witness :
  exists q, run (E:=unit) [Queue block_a; Queue block_c; Dequeue 10] empty_queue = Ok ([[]; []; [block_a]], q) /\
    forall o u, utxo o q = Some u -> exists h b, get h q = Some b /\ new_outputs b !! o = Some u.
Proof.
  destruct (run (E:=unit) [Queue block_a; Queue block_c; Dequeue 10] empty_queue) as [[released q]| |] eqn:E;
    [|by vm_compute in E..].
  destruct (queue_utxos_sound (E:=unit) [Queue block_a; Queue block_c; Dequeue 10] released q) as [Hu _].
  - repeat constructor.
  - exact E.
  - exists q. split; [|exact Hu]. vm_compute in E. by injection E as <- <-.
Defined.

Lemma sent_hashes_exact_witness :
  contains 13 (prune_sent 5 (add block_c (add block_a empty_sent))) = true /\
  contains 11 (remove 11 (add block_a empty_sent)) = false.
Proof.
  assert (reachable (add block_a empty_sent)) as R1
    by (apply reach_add; [constructor|constructor|intros ht Hin; by apply elem_of_nil in Hin]).
  assert (reachable (add block_c (add block_a empty_sent))) as R2.
  { apply reach_add; [exact R1|repeat constructor; by_eval|].
    intros ht Hin. apply list_elem_of_singleton in Hin. discriminate. }
  split.
  - apply (sent_hashes_exact (add block_c (add block_a empty_sent)) 5 13 R2).
    exists 6. split; [right; left|lia].
  - apply (sent_hashes_exact (add block_a empty_sent) 5 11 R1).
Defined.
End Examples.
