(* ===== verification/WinnerJournal.v ===== *)
(** * The share and winner journal of the merge miner

    [wcash-merge-miner/src/accounting.rs]: the replay of the version-2 journal,
    from its bytes to the payout snapshot.  Every record kind is modelled with
    its metadata checks: job activations, accepted shares, winner outbox
    entries and the life cycle of a winner.

    JSON parsing ([serde_json]), hexadecimal ([hex]) and SHA-256 are external
    crates; the validation of the bytes of a winner block is an operation of
    the coordinator.  They are the parameters of [JournalEnv]. *)

From S2P Require Import Prelude AuxCodec AuxMerkle.

Module Journal.

(** ** Records *)

(** [struct JournalRecord]; [record] is the kind. *)
Record JournalRecord := mkRecord {
  version : Z;
  record : string;
  job_id : string;
  share_id : option string;
  accepted_at : option Z;
  recorded_at : option Z;
  worker : option string;
  worker_authentication : option string;
  share_target : option string;
  parent_hash_le : option string;
  wcash_candidate : option bool;
  zcash_candidate : option bool;
  wcash_block_hash : option string;
  wcash_height : option Z;
  zcash_height : option Z;
  wcash_block : option string;
  zcash_block : option string;
  chain : option string;
  block_hash : option string;
  height : option Z;
}.

(** [MinerError::InvalidRequest], built by [invalid]; the formatted details of
    a message are left out. *)
Inductive MinerError := InvalidRequest (message : string).
Definition invalid (message : string) : MinerError := InvalidRequest message.

(** [PersistedWinnerBlockKind] and [WinnerChain]. *)
Inductive WinnerChain := Wcash | Zcash.
#[global] Instance chain_eq_dec : EqDecision WinnerChain.
Proof. solve_decision. Defined.
#[global] Instance chain_countable : Countable WinnerChain.
Proof.
  apply (inj_countable' (fun c => match c with Wcash => true | Zcash => false end)
    (fun b : bool => if b then Wcash else Zcash)). by intros [].
Defined.

(** What the replay calls of other crates and of the coordinator. *)
Class JournalEnv := {
  parse_record : list byte -> option JournalRecord;
  hex_encode : list byte -> string;
  hex_decode : string -> option (list byte);
  validate_persisted_winner_block : list byte -> string -> Z -> WinnerChain -> outcome MinerError (list byte);
}.

(** [struct WinnerKey]. *)
Record WinnerKey := mkKey { key_share_id : list byte; key_chain : WinnerChain }.
#[global] Instance key_eq_dec : EqDecision WinnerKey.
Proof. solve_decision. Defined.
#[global] Instance key_countable : Countable WinnerKey.
Proof.
  apply (inj_countable' (fun k => (key_share_id k, key_chain k)) (fun p => mkKey p.1 p.2)). by intros [].
Defined.

(** [struct PendingWinnerStatus]. *)
Record PendingWinnerStatus := mkPending {
  pending_job_id : string;
  pending_block_hash : string;
  pending_height : Z;
  observed : bool;
  conflicting_witness : bool;
}.

(** [struct ImmutableShare]. *)
Record ImmutableShare := mkShare {
  share_accepted_at : Z;
  share_worker : string;
  authentication : string;
  share_job_id : string;
  share_parent_hash_le : string;
  share_share_target : string;
  share_wcash_block_hash : string;
  share_wcash_height : Z;
  share_zcash_height : Z;
  share_wcash_candidate : bool;
  share_zcash_candidate : bool;
  winner_fingerprint : option (list byte);
}.
#[global] Instance share_eq_dec : EqDecision ImmutableShare.
Proof. solve_decision. Defined.

(** [WorkerAccounting] and [AccountingSnapshot]. *)
Record WorkerAccounting := mkWorker {
  worker_accepted : Z;
  worker_by_authentication : gmap string Z;
  wcash_winners : Z;
  zcash_winners : Z;
  shares_by_target : gmap string Z;
}.
Record AccountingSnapshot := mkSnapshot {
  accepted_shares : Z;
  shares_by_authentication : gmap string Z;
  workers : gmap string WorkerAccounting;
}.
Definition default_worker : WorkerAccounting := mkWorker 0 ∅ 0 0 ∅.
Definition default_snapshot : AccountingSnapshot := mkSnapshot 0 ∅ ∅.

Definition MAX_ACCOUNTING_SHARES : Z := 1000000.
Definition MAX_ACCOUNTING_GENERATIONS : Z := 1000000.
Definition JOURNAL_VERSION : Z := 2.
Definition MAX_JOURNAL_RECORD_BYTES : Z := 10 * 1024 * 1024.
Definition MAX_WINNER_BLOCK_BYTES : Z := 2000000.

(** [Option::is_some] and [Option::is_none]. *)
Definition is_some {A} (o : option A) : bool := if o then true else false.
Definition is_none {A} (o : option A) : bool := negb (is_some o).
(** The length of a string in bytes. *)
Definition str_len (s : string) : Z := Z.of_nat (String.length s).

(** ** Checks of fields *)

(** [validate_worker_name] and [validate_legacy_worker_name]. *)
Definition alphanumeric (b : Z) : bool :=
  within 48 57 b || within 65 90 b || within 97 122 b.
Definition string_bytes (s : string) : list Z := map (fun b => of_le [b]) (bytes_of s).
Definition validate_worker_name (worker : string) : outcome MinerError unit :=
  if bool_decide (worker = EmptyString) || (str_len worker >? 128) ||
     negb (forallb (fun b => alphanumeric b || existsb (Z.eqb b) [46; 45; 95; 58]) (string_bytes worker))
  then Err (invalid "worker name must contain 1..=128 ASCII letters, digits, '.', '-', '_', or ':'")
  else Ok tt.
Definition ascii_control (b : Z) : bool := (b <? 32) || (b =? 127).
Definition validate_legacy_worker_name (worker : string) : outcome MinerError unit :=
  if bool_decide (worker = EmptyString) || (str_len worker >? 128) ||
     existsb ascii_control (string_bytes worker)
  then Err (invalid "legacy worker name must contain 1..=128 bytes without ASCII control characters")
  else Ok tt.

(** [validate_authentication]. *)
Definition validate_authentication (authentication : option string) : outcome MinerError string :=
  match authentication with
  | None => Ok "legacy_unknown"
  | Some a =>
      if bool_decide (a = "operator") || bool_decide (a = "exact_credential") ||
         bool_decide (a = "shared_secret")
      then Ok a
      else Err (invalid "accepted share has unknown authentication provenance")
  end.

(** [required_record_field]. *)
Definition required_record_field (value : option string) : outcome MinerError string :=
  ok_or value (invalid "share journal has no such field").

(** [height.filter(|height| *height > 0)]. *)
Definition positive (height : option Z) : option Z :=
  match height with Some h => if h >? 0 then Some h else None | None => None end.

(** [ensure_accounting_generation_capacity]. *)
Definition ensure_accounting_generation_capacity (count : Z) (already_seen : bool) :
    outcome MinerError unit :=
  if negb already_seen && (count >=? MAX_ACCOUNTING_GENERATIONS)
  then Err (invalid "share journal contains more mining generations than the maximum") else Ok tt.

Section Replay.
Context `{Hashes, JournalEnv}.

(** [validate_hex::<N>] and [validate_canonical_hex::<N>]. *)
Definition validate_hex (n : Z) (encoded : string) : outcome MinerError (list byte) :=
  let? bytes := ok_or (hex_decode encoded) (invalid "invalid hexadecimal") in
  if len bytes =? n then Ok bytes else Err (invalid "decoded to an unexpected number of bytes").
Definition validate_canonical_hex (n : Z) (encoded : string) : outcome MinerError (list byte) :=
  let? bytes := validate_hex n encoded in
  if negb (bool_decide (encoded = hex_encode bytes)) then Err (invalid "not canonical lowercase hexadecimal")
  else Ok bytes.

(** [decode_bounded_block]. *)
Definition decode_bounded_block (encoded : string) : outcome MinerError (list byte) :=
  if str_len encoded >? MAX_WINNER_BLOCK_BYTES * 2 then Err (invalid "exceeds the maximum decoded bytes")
  else
    let? bytes := ok_or (hex_decode encoded) (invalid "invalid hexadecimal") in
    if negb (bool_decide (encoded = hex_encode bytes)) then Err (invalid "not canonical lowercase hexadecimal")
    else Ok bytes.

(** [validate_job_activation]. *)
Definition validate_job_activation (record : JournalRecord) : outcome MinerError unit :=
  if bool_decide (recorded_at record = Some 0) || is_none (recorded_at record) ||
     is_some (accepted_at record) || is_some (share_id record) || is_some (worker record) ||
     is_some (worker_authentication record) || is_some (share_target record) ||
     is_some (parent_hash_le record) || is_some (wcash_candidate record) ||
     is_some (zcash_candidate record) || is_some (wcash_block record) ||
     is_some (zcash_block record) || is_some (chain record) || is_some (block_hash record) ||
     is_some (height record)
  then Err (invalid "job activation contains malformed metadata")
  else
    let? hash := required_record_field (wcash_block_hash record) in
    do? validate_canonical_hex 32 hash in
    if match wcash_height record with None => true | Some h => h =? 0 end ||
       match zcash_height record with None => true | Some h => h =? 0 end
    then Err (invalid "job activation has no positive chain heights")
    else Ok tt.

(** [immutable_share]. *)
Definition immutable_share (r : JournalRecord) : outcome MinerError ImmutableShare :=
  if bool_decide (accepted_at r = Some 0) || is_none (accepted_at r) || is_some (recorded_at r)
  then Err (invalid "accepted share has an invalid acceptance timestamp")
  else if is_some (chain r) || is_some (block_hash r) || is_some (height r)
  then Err (invalid "accepted share contains winner-status metadata")
  else
    let? worker := ok_or (worker r) (invalid "accepted share has no worker") in
    let? authentication := validate_authentication (worker_authentication r) in
    do? (if bool_decide (authentication = "legacy_unknown") then validate_legacy_worker_name worker
         else validate_worker_name worker) in
    let? parent_hash_le := ok_or (parent_hash_le r) (invalid "accepted share has no parent_hash_le") in
    do? validate_canonical_hex 32 parent_hash_le in
    let? share_target := ok_or (share_target r) (invalid "accepted share has no share_target") in
    let? target := validate_canonical_hex 32 share_target in
    if bool_decide (target = replicate 32 Byte.x00) then Err (invalid "accepted share has a zero target")
    else
      let? wcash_block_hash := required_record_field (wcash_block_hash r) in
      do? validate_canonical_hex 32 wcash_block_hash in
      let? wcash_height := ok_or (positive (wcash_height r))
        (invalid "accepted share has no positive Wcash height") in
      let? zcash_height := ok_or (positive (zcash_height r))
        (invalid "accepted share has no positive Zcash height") in
      let? wcash_candidate := ok_or (wcash_candidate r)
        (invalid "accepted share has no wcash_candidate flag") in
      let? zcash_candidate := ok_or (zcash_candidate r)
        (invalid "accepted share has no zcash_candidate flag") in
      if bool_decide (record r = "accepted_share") && (wcash_candidate || zcash_candidate)
      then Err (invalid "accepted_share is incorrectly marked as a network winner")
      else if bool_decide (record r = "winner_outbox") && negb wcash_candidate && negb zcash_candidate
      then Err (invalid "winner_outbox contains no network winner")
      else
        let? accepted_at := expect (accepted_at r) in
        Ok (mkShare accepted_at worker authentication (job_id r) parent_hash_le share_target
          wcash_block_hash wcash_height zcash_height wcash_candidate zcash_candidate None).

(** [validate_share_id]. *)
Definition validate_share_id (r : JournalRecord) (share : ImmutableShare) :
    outcome MinerError (list byte) :=
  let? encoded := required_record_field (share_id r) in
  let? actual := validate_canonical_hex 32 encoded in
  let? parent_hash := validate_canonical_hex 32 (share_parent_hash_le share) in
  let? length := ok_or (u64_checked (str_len (share_job_id share))) (invalid "job ID length overflowed") in
  let expected := sha256 (bytes_of "Wcash/share-journal/v2" ++ [Byte.x00] ++ to_le 8 length ++
    bytes_of (share_job_id share) ++ parent_hash) in
  if negb (bool_decide (actual = expected))
  then Err (invalid "share ID does not match its immutable job and parent hash")
  else Ok actual.

(** [struct ValidatedWinnerBlocks]. *)
Record ValidatedWinnerBlocks := mkWinners {
  entries : list (WinnerKey * PendingWinnerStatus);
  fingerprint : option (list byte);
}.

(** What one winning block adds to the fingerprint. *)
Definition fingerprint_part (tag block_hash : string) (height : Z) (block : list byte) : list byte :=
  bytes_of tag ++ [Byte.x00] ++ bytes_of block_hash ++ to_le 4 height ++ to_le 8 (len block) ++ block.

(** The Wcash half of [validate_winner_blocks]. *)
Definition wcash_winner (r : JournalRecord) (share_id expected_parent_hash : list byte) :
    outcome MinerError (list (WinnerKey * PendingWinnerStatus) * list byte) :=
  if bool_decide (wcash_candidate r = Some true) then
    let? block_hash := required_record_field (wcash_block_hash r) in
    do? validate_canonical_hex 32 block_hash in
    let? height := ok_or (positive (wcash_height r)) (invalid "winner_outbox has no positive Wcash height") in
    let? encoded := required_record_field (wcash_block r) in
    let? block := decode_bounded_block encoded in
    let? recovered := validate_persisted_winner_block block block_hash height Wcash in
    if negb (bool_decide (recovered = expected_parent_hash))
    then Err (invalid "winner_outbox Wcash block is bound to a different parent header")
    else
      Ok ([(mkKey share_id Wcash, mkPending (job_id r) block_hash height false false)],
          fingerprint_part "wcash" block_hash height block)
  else if is_some (wcash_block r)
  then Err (invalid "winner_outbox has Wcash block bytes without a Wcash candidate")
  else Ok ([], []).

(** The Zcash half of [validate_winner_blocks]. *)
Definition zcash_winner (r : JournalRecord) (share_id expected_parent_hash : list byte) :
    outcome MinerError (list (WinnerKey * PendingWinnerStatus) * list byte) :=
  if bool_decide (zcash_candidate r = Some true) then
    let block_hash := hex_encode (reverse expected_parent_hash) in
    let? height := ok_or (positive (zcash_height r)) (invalid "winner_outbox has no positive Zcash height") in
    let? encoded := required_record_field (zcash_block r) in
    let? block := decode_bounded_block encoded in
    let? recovered := validate_persisted_winner_block block block_hash height Zcash in
    if negb (bool_decide (recovered = expected_parent_hash))
    then Err (invalid "winner_outbox Zcash block is bound to a different parent header")
    else
      Ok ([(mkKey share_id Zcash, mkPending (job_id r) block_hash height false false)],
          fingerprint_part "zcash" block_hash height block)
  else if is_some (zcash_block r)
  then Err (invalid "winner_outbox has Zcash block bytes without a Zcash candidate")
  else Ok ([], []).

(** [validate_winner_blocks]. *)
Definition validate_winner_blocks (r : JournalRecord) (share_id : list byte) :
    outcome MinerError ValidatedWinnerBlocks :=
  if bool_decide (record r = "accepted_share") then
    if is_some (wcash_block r) || is_some (zcash_block r)
    then Err (invalid "accepted_share contains network-winner block bytes")
    else Ok (mkWinners [] None)
  else
    let? encoded := required_record_field (parent_hash_le r) in
    let? expected_parent_hash := validate_canonical_hex 32 encoded in
    let? ' (wcash, wcash_part) := wcash_winner r share_id expected_parent_hash in
    let? ' (zcash, zcash_part) := zcash_winner r share_id expected_parent_hash in
    let winners := wcash ++ zcash in
    if bool_decide (winners = []) then Err (invalid "winner_outbox contains no network winner")
    else
      Ok (mkWinners winners (Some (sha256 (bytes_of "Wcash/share-journal/winner-record/v1" ++ [Byte.x00] ++
        wcash_part ++ zcash_part)))).

(** ** Accounting *)

(** [increment_bucket]. *)
Definition increment_bucket (buckets : gmap string Z) (key label : string) :
    outcome MinerError (gmap string Z) :=
  let? count := ok_or (u64_checked (default 0 (buckets !! key) + 1)) (invalid label) in
  Ok (<[key := count]> buckets).

(** [apply_share]. *)
Definition apply_share (snapshot : AccountingSnapshot) (share : ImmutableShare) :
    outcome MinerError AccountingSnapshot :=
  let? total := ok_or (u64_checked (accepted_shares snapshot + 1))
    (invalid "accepted-share count overflowed") in
  let? by_authentication := increment_bucket (shares_by_authentication snapshot) (authentication share)
    "authentication-provenance count overflowed" in
  let w := default default_worker (workers snapshot !! share_worker share) in
  let? accepted := ok_or (u64_checked (worker_accepted w + 1))
    (invalid "worker accepted-share count overflowed") in
  let? worker_authentication := increment_bucket (worker_by_authentication w) (authentication share)
    "worker authentication-provenance count overflowed" in
  let? wcash :=
    if share_wcash_candidate share
    then ok_or (u64_checked (wcash_winners w + 1)) (invalid "worker Wcash-winner count overflowed")
    else Ok (wcash_winners w) in
  let? zcash :=
    if share_zcash_candidate share
    then ok_or (u64_checked (zcash_winners w + 1)) (invalid "worker Zcash-winner count overflowed")
    else Ok (zcash_winners w) in
  let? targets := increment_bucket (shares_by_target w) (share_share_target share)
    "worker target-bucket count overflowed" in
  Ok (mkSnapshot total by_authentication
    (<[share_worker share := mkWorker accepted worker_authentication wcash zcash targets]> (workers snapshot))).

(** ** The life cycle of a winner *)

(** The [match] of [apply_winner_status] on the kind of the record: the new
    status, or [None] when the winner is removed. *)
Definition transition (kind : string) (key_chain : WinnerChain) (pending : PendingWinnerStatus) :
    outcome MinerError (option PendingWinnerStatus) :=
  let set o c := mkPending (pending_job_id pending) (pending_block_hash pending) (pending_height pending) o c in
  if bool_decide (kind = "winner_observed") || bool_decide (kind = "winner_confirmed") then
    if negb (observed pending) then Ok (Some (set true false))
    else Err (invalid "winner is observed twice without an intervening orphan transition")
  else if bool_decide (kind = "winner_orphaned") then
    if observed pending || conflicting_witness pending then Ok (Some (set false false))
    else Err (invalid "winner is orphaned before best-chain observation or conflicting-witness quarantine")
  else if bool_decide (kind = "winner_conflicting") then
    if negb (bool_decide (key_chain = Wcash))
    then Err (invalid "only a Wcash winner can enter conflicting-witness quarantine")
    else if negb (conflicting_witness pending) then Ok (Some (set false true))
    else Err (invalid "winner enters conflicting-witness quarantine twice without exact best-chain observation")
  else if bool_decide (kind = "winner_matured") then
    if observed pending && negb (conflicting_witness pending) then Ok None
    else Err (invalid "winner is matured before best-chain observation")
  else Panic.

(** [apply_winner_status]. *)
Definition apply_winner_status (r : JournalRecord) (pending_winners : gmap WinnerKey PendingWinnerStatus) :
    outcome MinerError (gmap WinnerKey PendingWinnerStatus) :=
  if bool_decide (recorded_at r = Some 0) || is_none (recorded_at r) || is_some (accepted_at r) ||
     is_some (worker r) || is_some (worker_authentication r) || is_some (share_target r) ||
     is_some (parent_hash_le r) || is_some (wcash_candidate r) || is_some (zcash_candidate r) ||
     is_some (wcash_block_hash r) || is_some (wcash_height r) || is_some (zcash_height r) ||
     is_some (wcash_block r) || is_some (zcash_block r)
  then Err (invalid "winner status record contains malformed metadata")
  else
    do? validate_canonical_hex 32 (job_id r) in
    let? encoded := required_record_field (share_id r) in
    let? share_id := validate_canonical_hex 32 encoded in
    let? chain :=
      if bool_decide (chain r = Some "wcash") then Ok Wcash
      else if bool_decide (chain r = Some "zcash") then Ok Zcash
      else Err (invalid "winner status record has an unknown chain") in
    let key := mkKey share_id chain in
    let? pending := ok_or (pending_winners !! key)
      (invalid "winner status record updates an unknown or already-matured winner") in
    let? block_hash := required_record_field (block_hash r) in
    do? validate_canonical_hex 32 block_hash in
    let? height := ok_or (positive (height r)) (invalid "winner status record has no positive height") in
    if negb (bool_decide (pending_job_id pending = job_id r)) ||
       negb (bool_decide (pending_block_hash pending = block_hash)) ||
       negb (pending_height pending =? height)
    then Err (invalid "winner status metadata differs from its immutable outbox entry")
    else
      let? next := transition (record r) chain pending in
      Ok (match next with
          | Some status => <[key := status]> pending_winners
          | None => delete key pending_winners
          end).

(** ** Replay *)

(** The locals of [read_accounting_snapshot_from_reader]. *)
Record Replay := mkReplay {
  accepted : gmap (list byte) ImmutableShare;
  pending_winners : gmap WinnerKey PendingWinnerStatus;
  used_jobs : gset (list byte);
  snapshot : AccountingSnapshot;
}.
Definition empty_replay : Replay := mkReplay ∅ ∅ ∅ default_snapshot.

(** The loop that adds the winners of a new share. *)
Fixpoint add_winners (winners : list (WinnerKey * PendingWinnerStatus))
    (pending_winners : gmap WinnerKey PendingWinnerStatus) :
    outcome MinerError (gmap WinnerKey PendingWinnerStatus) :=
  match winners with
  | [] => Ok pending_winners
  | (key, winner) :: winners =>
      if is_some (pending_winners !! key)
      then Err (invalid "share journal defines one network winner more than once")
      else add_winners winners (<[key := winner]> pending_winners)
  end.

(** The immutable data of a share record and the winners it announces. *)
Definition validate_share (r : JournalRecord) :
    outcome MinerError (list byte * ImmutableShare * list (WinnerKey * PendingWinnerStatus)) :=
  let? immutable := immutable_share r in
  let? share_id := validate_share_id r immutable in
  let? winners := validate_winner_blocks r share_id in
  let immutable := mkShare (share_accepted_at immutable) (share_worker immutable) (authentication immutable)
    (share_job_id immutable) (share_parent_hash_le immutable) (share_share_target immutable)
    (share_wcash_block_hash immutable) (share_wcash_height immutable) (share_zcash_height immutable)
    (share_wcash_candidate immutable) (share_zcash_candidate immutable) (fingerprint winners) in
  Ok (share_id, immutable, entries winners).

(** The arm of accepted shares and winner outbox entries. *)
Definition replay_share (r : JournalRecord) (job : list byte) (st : Replay) : outcome MinerError Replay :=
  do? ensure_accounting_generation_capacity (Z.of_nat (size (used_jobs st)))
    (bool_decide (job ∈ used_jobs st)) in
  let used_jobs := {[job]} ∪ used_jobs st in
  let? ' (share_id, immutable, winners) := validate_share r in
  match accepted st !! share_id with
  | Some previous =>
      if bool_decide (previous = immutable)
      then Ok (mkReplay (accepted st) (pending_winners st) used_jobs (snapshot st))
      else Err (invalid "share journal assigns one share ID to conflicting accounting data")
  | None =>
      if Z.of_nat (size (accepted st)) >=? MAX_ACCOUNTING_SHARES
      then Err (invalid "share journal contains more accepted shares than the maximum")
      else
        let? snapshot := apply_share (snapshot st) immutable in
        let? pending_winners := add_winners winners (pending_winners st) in
        Ok (mkReplay (<[share_id := immutable]> (accepted st)) pending_winners used_jobs snapshot)
  end.

Definition status_kinds : list string :=
  ["winner_observed"; "winner_orphaned"; "winner_conflicting"; "winner_matured"; "winner_confirmed"].

(** The body of the loop on one parsed record. *)
Definition replay_record (r : JournalRecord) (st : Replay) : outcome MinerError Replay :=
  if negb (version r =? JOURNAL_VERSION) then Err (invalid "share journal contains unsupported version record")
  else
    let? job := validate_canonical_hex 32 (job_id r) in
    if bool_decide (record r = "job_activated") then
      do? validate_job_activation r in
      if bool_decide (job ∈ used_jobs st)
      then Err (invalid "share journal activates a previously used job ID")
      else
        do? ensure_accounting_generation_capacity (Z.of_nat (size (used_jobs st))) false in
        Ok (mkReplay (accepted st) (pending_winners st) ({[job]} ∪ used_jobs st) (snapshot st))
    else if bool_decide (record r = "accepted_share") || bool_decide (record r = "winner_outbox") then
      replay_share r job st
    else if existsb (fun k => bool_decide (record r = k)) status_kinds then
      let? pending_winners := apply_winner_status r (pending_winners st) in
      Ok (mkReplay (accepted st) pending_winners (used_jobs st) (snapshot st))
    else Err (invalid "share journal contains unsupported record").

(** Successive calls of [read_bounded_line]: the lines of a stream, and
    whether each is terminated. *)
Fixpoint lines_from (line stream : list byte) : list (list byte * bool) :=
  match stream with
  | [] => if bool_decide (line = []) then [] else [(line, false)]
  | b :: stream =>
      if bool_decide (b = Byte.x0a) then (line, true) :: lines_from [] stream
      else lines_from (line ++ [b]) stream
  end.

(** The [while let] loop over the lines. *)
Fixpoint replay_lines (lines : list (list byte * bool)) (st : Replay) : outcome MinerError Replay :=
  match lines with
  | [] => Ok st
  | (line, terminated) :: lines =>
      if len line >? MAX_JOURNAL_RECORD_BYTES
      then Err (invalid "share journal contains a record larger than the maximum")
      else if negb terminated then Ok st
      else
        let? r := ok_or (parse_record line) (invalid "share journal is corrupted") in
        let? st := replay_record r st in
        replay_lines lines st
  end.

(** [read_accounting_snapshot_from_reader]. *)
Definition read_accounting_snapshot_from_reader (stream : list byte) : outcome MinerError AccountingSnapshot :=
  let? st := replay_lines (lines_from [] stream) empty_replay in
  Ok (snapshot st).
End Replay.
End Journal.

(** ** The snapshot aggregates the accepted shares *)

Section Counting.
Import Journal.

(** The number of accepted shares that satisfy [P]. *)
Definition count (P : ImmutableShare -> Prop) `{!forall s, Decision (P s)}
    (m : gmap (list byte) ImmutableShare) : Z := Z.of_nat (size (filter (fun e => P e.2) m)).

Lemma count_insert (P : ImmutableShare -> Prop) `{!forall s, Decision (P s)} m i s :
  m !! i = None -> count P (<[i := s]> m) = count P m + (if decide (P s) then 1 else 0).
Proof.
  intros Hi. unfold count. rewrite map_filter_insert. simpl. case_decide as Hd.
  - rewrite map_size_insert_None; [lia|]. apply map_lookup_filter_None. by left.
  - rewrite delete_id by done. lia.
Qed.

Lemma count_empty (P : ImmutableShare -> Prop) `{!forall s, Decision (P s)} : count P ∅ = 0.
Proof. unfold count. by rewrite map_filter_empty. Qed.

Lemma count_le_size (P : ImmutableShare -> Prop) `{!forall s, Decision (P s)} m :
  0 <= count P m <= Z.of_nat (size m).
Proof.
  unfold count. split; [lia|]. apply inj_le, map_subseteq_size, map_filter_subseteq.
Qed.

(** A bucket map holds the exact positive counts of the shares grouped by [f]. *)
Definition buckets_exact (b : gmap string Z) (f : ImmutableShare -> string) (P : ImmutableShare -> Prop)
    `{!forall s, Decision (P s)} (m : gmap (list byte) ImmutableShare) : Prop :=
  forall k, b !! k = (let n := count (fun s => P s /\ f s = k) m in if n =? 0 then None else Some n).

Lemma buckets_empty f (P : ImmutableShare -> Prop) `{!forall s, Decision (P s)} m :
  count P m = 0 -> buckets_exact ∅ f P m.
Proof.
  intros Hc k. rewrite lookup_empty.
  assert (count (fun s => P s /\ f s = k) m = 0) as ->; [|done].
  unfold count in *. assert (size (filter (fun e => P e.2) m) = 0%nat) as E%map_size_empty_inv by lia.
  assert (filter (fun e => P e.2 /\ f e.2 = k) m = ∅) as ->; [|done].
  apply map_empty. intros i. apply map_lookup_filter_None. destruct (m !! i) as [s|] eqn:Hi; [|by left].
  right. intros s' [= <-] [HP _]. simpl in HP.
  assert (filter (fun e => P e.2) m !! i = Some s) as X by by apply map_lookup_filter_Some.
  by rewrite E, lookup_empty in X.
Qed.

Lemma increment_exact b f (P : ImmutableShare -> Prop) `{!forall s, Decision (P s)} m i s label :
  m !! i = None -> P s -> buckets_exact b f P m -> Z.of_nat (size m) < U64_MAX ->
  exists b', increment_bucket b (f s) label = Ok b' /\ buckets_exact b' f P (<[i := s]> m).
Proof.
  intros Hi HP Hb Hs. unfold increment_bucket.
  pose proof (count_le_size (fun x => P x /\ f x = f s) m) as Hc.
  assert (default 0 (b !! f s) = count (fun x => P x /\ f x = f s) m) as ->.
  { rewrite (Hb (f s)). cbv zeta. destruct (Z.eqb_spec (count (fun x => P x /\ f x = f s) m) 0) as [->|]; done. }
  rewrite checked_ok by lia. cbn [ok_or obind]. eexists. split; [done|]. intros k.
  cbv zeta. rewrite (count_insert (fun x => P x /\ f x = k)) by done.
  destruct (decide (k = f s)) as [->|Hk].
  - rewrite lookup_insert_eq, decide_True by done.
    rewrite (proj2 (Z.eqb_neq _ 0)) by lia. done.
  - rewrite lookup_insert_ne, decide_False by naive_solver. rewrite Z.add_0_r. apply Hb.
Qed.

Lemma buckets_other b f (P : ImmutableShare -> Prop) `{!forall s, Decision (P s)} m i s :
  m !! i = None -> ~ P s -> buckets_exact b f P m -> buckets_exact b f P (<[i := s]> m).
Proof.
  intros Hi HP Hb k. rewrite (Hb k), (count_insert (fun x => P x /\ f x = k)) by done.
  rewrite decide_False by naive_solver. by rewrite Z.add_0_r.
Qed.

(** The counters of a worker are the counts of its accepted shares. *)
Record worker_exact (m : gmap (list byte) ImmutableShare) (w : string) (a : WorkerAccounting) : Prop := {
  exact_accepted : worker_accepted a = count (fun s => share_worker s = w) m;
  exact_authentication : buckets_exact (worker_by_authentication a) authentication (fun s => share_worker s = w) m;
  exact_wcash : wcash_winners a = count (fun s => share_worker s = w /\ share_wcash_candidate s = true) m;
  exact_zcash : zcash_winners a = count (fun s => share_worker s = w /\ share_zcash_candidate s = true) m;
  exact_targets : buckets_exact (shares_by_target a) share_share_target (fun s => share_worker s = w) m;
}.

Record snapshot_exact (m : gmap (list byte) ImmutableShare) (s : AccountingSnapshot) : Prop := {
  exact_total : accepted_shares s = Z.of_nat (size m);
  exact_buckets : buckets_exact (shares_by_authentication s) authentication (fun _ => True) m;
  exact_workers w : match workers s !! w with
    | Some a => worker_exact m w a /\ 0 < worker_accepted a
    | None => count (fun s => share_worker s = w) m = 0
    end;
}.

Lemma count_sub (P Q : ImmutableShare -> Prop) `{!forall s, Decision (P s)} `{!forall s, Decision (Q s)} m :
  (forall s, Q s -> P s) -> count Q m <= count P m.
Proof.
  intros HQ. unfold count. apply inj_le, map_subseteq_size, map_subseteq_spec.
  intros i s [Hi Hs]%map_lookup_filter_Some. apply map_lookup_filter_Some. simpl in *. auto.
Qed.

Lemma default_worker_exact m w :
  count (fun s => share_worker s = w) m = 0 -> worker_exact m w default_worker.
Proof.
  intros Hc. split; cbn [default_worker worker_accepted worker_by_authentication wcash_winners zcash_winners shares_by_target].
  - done.
  - by apply buckets_empty.
  - pose proof (count_sub (fun s => share_worker s = w)
      (fun s => share_worker s = w /\ share_wcash_candidate s = true) m ltac:(naive_solver)).
    pose proof (count_le_size (fun s => share_worker s = w /\ share_wcash_candidate s = true) m). lia.
  - pose proof (count_sub (fun s => share_worker s = w)
      (fun s => share_worker s = w /\ share_zcash_candidate s = true) m ltac:(naive_solver)).
    pose proof (count_le_size (fun s => share_worker s = w /\ share_zcash_candidate s = true) m). lia.
  - by apply buckets_empty.
Qed.

Lemma snapshot_worker_exact m snap w :
  snapshot_exact m snap -> worker_exact m w (default default_worker (workers snap !! w)).
Proof.
  intros Hs. pose proof (exact_workers _ _ Hs w) as Hw. destruct (workers snap !! w); [by destruct Hw|].
  by apply default_worker_exact.
Qed.

(** A winner counter after one more share. *)
Lemma winner_count m i s w n (flag : ImmutableShare -> bool) label :
  m !! i = None -> share_worker s = w -> Z.of_nat (size m) < U64_MAX ->
  n = count (fun x => share_worker x = w /\ flag x = true) m ->
  (if flag s then ok_or (u64_checked (n + 1)) (invalid label) else Ok n) =
  Ok (count (fun x => share_worker x = w /\ flag x = true) (<[i := s]> m)).
Proof.
  intros Hi Hw Hs ->. rewrite (count_insert (fun x => share_worker x = w /\ flag x = true)) by done.
  pose proof (count_le_size (fun x => share_worker x = w /\ flag x = true) m).
  destruct (flag s) eqn:Hf.
  - rewrite decide_True by done. by rewrite checked_ok by lia.
  - rewrite decide_False by naive_solver. f_equal. lia.
Qed.

Lemma worker_exact_other m i s w a :
  m !! i = None -> share_worker s <> w -> worker_exact m w a -> worker_exact (<[i := s]> m) w a.
Proof.
  intros Hi Hw [H1 H2 H3 H4 H5]. split; try by apply buckets_other.
  - rewrite count_insert, decide_False by done. lia.
  - rewrite (count_insert (fun x => _ /\ _)), decide_False by naive_solver. lia.
  - rewrite (count_insert (fun x => _ /\ _)), decide_False by naive_solver. lia.
Qed.

Lemma apply_share_exact m snap i s :
  m !! i = None -> Z.of_nat (size m) < U64_MAX -> snapshot_exact m snap ->
  exists snap', apply_share snap s = Ok snap' /\ snapshot_exact (<[i := s]> m) snap'.
Proof.
  intros Hi Hlt Hs. unfold apply_share. pose proof (snapshot_worker_exact m snap (share_worker s) Hs) as Hw.
  set (w := default default_worker _) in *. destruct Hw as [W1 W2 W3 W4 W5].
  rewrite (exact_total _ _ Hs), checked_ok by lia. cbn [ok_or obind].
  destruct (increment_exact (shares_by_authentication snap) authentication (fun _ => True) m i s
    "authentication-provenance count overflowed" Hi I (exact_buckets _ _ Hs) Hlt) as (b & -> & Hb).
  cbn [obind]. pose proof (count_le_size (fun x => share_worker x = share_worker s) m).
  rewrite W1, checked_ok by lia. cbn [ok_or obind].
  destruct (increment_exact (worker_by_authentication w) authentication (fun x => share_worker x = share_worker s)
    m i s "worker authentication-provenance count overflowed" Hi eq_refl W2 Hlt) as (wb & -> & Hwb). cbn [obind].
  rewrite (winner_count m i s (share_worker s) _ share_wcash_candidate) by done. cbn [obind].
  rewrite (winner_count m i s (share_worker s) _ share_zcash_candidate) by done. cbn [obind].
  destruct (increment_exact (shares_by_target w) share_share_target (fun x => share_worker x = share_worker s)
    m i s "worker target-bucket count overflowed" Hi eq_refl W5 Hlt) as (wt & -> & Hwt). cbn [obind].
  eexists. split; [done|]. split; cbn [accepted_shares shares_by_authentication workers].
  - rewrite map_size_insert_None by done. lia.
  - done.
  - intros w'. destruct (decide (w' = share_worker s)) as [->|Hne].
    + rewrite lookup_insert_eq. cbn [worker_accepted]. split; [|lia].
      split; cbn [worker_accepted worker_by_authentication wcash_winners zcash_winners shares_by_target]; try done.
      by rewrite count_insert, decide_True.
    + rewrite lookup_insert_ne by done. pose proof (exact_workers _ _ Hs w') as Hw'.
      destruct (workers snap !! w') as [a|].
      * destruct Hw' as [Hx Hp]. split; [|done]. by apply worker_exact_other.
      * rewrite count_insert, decide_False by done. lia.
Qed.

Lemma default_snapshot_exact : snapshot_exact ∅ default_snapshot.
Proof.
  split; [done|by apply buckets_empty, count_empty|]. intros w. cbn [default_snapshot workers].
  rewrite lookup_empty. apply count_empty.
Qed.
End Counting.

(** ** The automaton of a winner *)

Section Lifecycle.
Import Journal.
Context `{Hashes, JournalEnv}.

(** Where a pending winner stands: submitted, on the best chain, or held back
    because another block has its place. *)
Inductive status := Waiting | Observed | Quarantined.

Definition status_of (p : PendingWinnerStatus) : option status :=
  match observed p, conflicting_witness p with
  | false, false => Some Waiting
  | true, false => Some Observed
  | false, true => Some Quarantined
  | true, true => None
  end.

(** The moves of the automaton; [None] is the matured winner. *)
Inductive moves (c : WinnerChain) : string -> status -> option status -> Prop :=
| move_observe kind s : kind = "winner_observed" \/ kind = "winner_confirmed" -> s <> Observed ->
    moves c kind s (Some Observed)
| move_orphan s : s <> Waiting -> moves c "winner_orphaned" s (Some Waiting)
| move_conflict s : c = Wcash -> s <> Quarantined -> moves c "winner_conflicting" s (Some Quarantined)
| move_mature : moves c "winner_matured" Observed None.

(** A status update leaves the immutable part of the entry. *)
Definition same_entry (p q : PendingWinnerStatus) : Prop :=
  pending_job_id p = pending_job_id q /\ pending_block_hash p = pending_block_hash q /\
  pending_height p = pending_height q.

(** [next] is the status [n] of the entry [p]. *)
Definition becomes (p : PendingWinnerStatus) (next : option PendingWinnerStatus) (n : option status) : Prop :=
  match next, n with
  | None, None => True
  | Some q, Some s => same_entry p q /\ status_of q = Some s
  | _, _ => False
  end.

Lemma transition_moves kind c p s next :
  status_of p = Some s ->
  transition kind c p = Ok next -> exists n, moves c kind s n /\ becomes p next n.
Proof.
  intros Hs. unfold transition, status_of in *.
  case_bool_decide as K1; [|case_bool_decide as K2]; cbn [orb].
  1,2: destruct (observed p) eqn:Ho; [done|]; intros [= <-]; exists (Some Observed);
    (split; [apply move_observe; [auto|]; intros ->; by destruct (conflicting_witness p)|done]).
  case_bool_decide as K3.
  { intros E. subst kind. destruct (observed p || conflicting_witness p) eqn:Hoc; [|done]. injection E as <-.
    exists (Some Waiting). split; [|done]. apply move_orphan. intros ->.
    by destruct (observed p), (conflicting_witness p). }
  case_bool_decide as K4.
  { intros E. subst kind. case_bool_decide as Hc; [|done]. cbn [negb] in E.
    destruct (conflicting_witness p) eqn:Hw; [done|]. injection E as <-. exists (Some Quarantined).
    split; [|done]. apply move_conflict; [done|]. intros ->. by destruct (observed p). }
  case_bool_decide as K5; [|done]. subst kind.
  destruct (observed p), (conflicting_witness p); simpl; try done. injection Hs as <-.
  intros [= <-]. exists None. split; [constructor|done].
Qed.

Lemma moves_transition kind c p s n :
  status_of p = Some s -> moves c kind s n ->
  exists next, transition kind c p = Ok next /\ becomes p next n.
Proof.
  intros Hs Hm. unfold transition, status_of in *.
  destruct Hm as [kind s [->| ->] Hne|s Hne|s -> Hne|]; cbn; 
    destruct (observed p), (conflicting_witness p); simplify_eq; cbn; eexists; split; done.
Qed.

(** The record is well formed and names this entry. *)
Definition status_malformed (r : JournalRecord) : bool :=
  bool_decide (recorded_at r = Some 0) || is_none (recorded_at r) || is_some (accepted_at r) ||
  is_some (worker r) || is_some (worker_authentication r) || is_some (share_target r) ||
  is_some (parent_hash_le r) || is_some (wcash_candidate r) || is_some (zcash_candidate r) ||
  is_some (wcash_block_hash r) || is_some (wcash_height r) || is_some (zcash_height r) ||
  is_some (wcash_block r) || is_some (zcash_block r).
Definition chain_name (c : WinnerChain) : string := match c with Wcash => "wcash" | Zcash => "zcash" end.
Record addresses (r : JournalRecord) (key : WinnerKey) (p : PendingWinnerStatus) : Prop := {
  addresses_formed : status_malformed r = false;
  addresses_job : is_Some (ok (validate_canonical_hex 32 (job_id r))) /\ pending_job_id p = job_id r;
  addresses_share : exists encoded, share_id r = Some encoded /\
    validate_canonical_hex 32 encoded = Ok (key_share_id key);
  addresses_chain : chain r = Some (chain_name (key_chain key));
  addresses_hash : block_hash r = Some (pending_block_hash p) /\
    is_Some (ok (validate_canonical_hex 32 (pending_block_hash p)));
  addresses_height : height r = Some (pending_height p) /\ 0 < pending_height p;
}.

(** The pending winners after a transition of one of them. *)
Definition updated (key : WinnerKey) (next : option PendingWinnerStatus)
    (pending : gmap WinnerKey PendingWinnerStatus) : gmap WinnerKey PendingWinnerStatus :=
  match next with Some q => <[key := q]> pending | None => delete key pending end.

Lemma positive_Some o h : positive o = Some h <-> o = Some h /\ 0 < h.
Proof.
  unfold positive. destruct o as [x|]; [|naive_solver]. destruct (Z.gtb_spec x 0); naive_solver lia.
Qed.

Lemma apply_winner_status_Ok r pm pm' :
  apply_winner_status r pm = Ok pm' <->
  exists key p next, addresses r key p /\ pm !! key = Some p /\
    transition (record r) (key_chain key) p = Ok next /\ pm' = updated key next pm.
Proof.
  unfold apply_winner_status. fold (status_malformed r). split.
  - destruct (status_malformed r) eqn:Hf; [done|]. intros A.
    apply obind_Ok in A as (job & Hj & A). apply obind_Ok in A as (encoded & He%ok_or_Ok & A).
    apply obind_Ok in A as (id & Hid & A). apply obind_Ok in A as (c & Hc & A).
    apply obind_Ok in A as (p & Hp%ok_or_Ok & A). apply obind_Ok in A as (bh & Hb%ok_or_Ok & A).
    apply obind_Ok in A as (hex & Hx & A). apply obind_Ok in A as (h & [Hh Hpos]%ok_or_Ok%positive_Some & A).
    case_bool_decide as E1; [|done]. case_bool_decide as E2; [|done].
    destruct (Z.eqb_spec (pending_height p) h) as [E3|]; [|done]. cbn [negb orb] in A.
    apply obind_Ok in A as (next & Ht & [= <-]).
    exists (mkKey id c), p, next. split_and!; try done. split; subst; try done.
    + rewrite Hj. split; [by eexists|done].
    + by exists encoded.
    + cbn [key_chain]. case_bool_decide; [by injection Hc as <-|]. case_bool_decide; [by injection Hc as <-|done].
    + rewrite Hx. split; [done|by eexists].
  - intros ([id c] & p & next & [Hf [[job Hj] Ej] (enc & He & Hid) Hc [Hb [hx Hx]] [Hh Hpos]] & Hp & Ht & ->).
    rewrite Hf. destruct (validate_canonical_hex 32 (job_id r)); try done. cbn [obind].
    rewrite He. cbn [required_record_field ok_or obind]. rewrite Hid. cbn [obind]. rewrite Hc.
    assert ((if bool_decide (Some (chain_name c) = Some "wcash") then Ok Wcash
      else if bool_decide (Some (chain_name c) = Some "zcash") then Ok Zcash
      else Err (invalid "winner status record has an unknown chain")) = Ok c) as E by by destruct c.
    cbn [key_chain key_share_id] in *. rewrite E. cbn [obind]. rewrite Hp. cbn [ok_or obind].
    rewrite Hb. cbn [required_record_field ok_or obind].
    destruct (validate_canonical_hex 32 (pending_block_hash p)); try done. cbn [obind].
    rewrite (proj2 (positive_Some _ (pending_height p))) by done. cbn [ok_or obind].
    rewrite Ej, !bool_decide_eq_true_2, Z.eqb_refl by done. cbn [negb orb]. by rewrite Ht.
Qed.
End Lifecycle.

(** ** The invariant of the replay *)

Section ReplayInvariant.
Import Journal.
Context `{Hashes, JournalEnv}.

(** The identifier that commits to the job and the parent hash of a share. *)
Definition share_id_ok (id : list byte) (s : ImmutableShare) : Prop :=
  exists parent, validate_canonical_hex 32 (share_parent_hash_le s) = Ok parent /\
    id = sha256 (bytes_of "Wcash/share-journal/v2" ++ [Byte.x00] ++ to_le 8 (str_len (share_job_id s)) ++
      bytes_of (share_job_id s) ++ parent).

(** The share is a winner on a chain. *)
Definition candidate (s : ImmutableShare) (c : WinnerChain) : bool :=
  match c with Wcash => share_wcash_candidate s | Zcash => share_zcash_candidate s end.

Record replay_inv (st : Replay) : Prop := {
  replay_exact : snapshot_exact (accepted st) (snapshot st);
  replay_size : Z.of_nat (size (accepted st)) <= MAX_ACCOUNTING_SHARES;
  replay_ids id s : accepted st !! id = Some s -> share_id_ok id s;
  replay_status key p : pending_winners st !! key = Some p ->
    exists s, status_of p = Some s /\ (s = Quarantined -> key_chain key = Wcash);
  replay_backed key p : pending_winners st !! key = Some p ->
    exists s, accepted st !! key_share_id key = Some s /\ candidate s (key_chain key) = true;
}.

Lemma immutable_share_flags r s :
  immutable_share r = Ok s ->
  wcash_candidate r = Some (share_wcash_candidate s) /\ zcash_candidate r = Some (share_zcash_candidate s).
Proof.
  unfold immutable_share. do 2 (case_match; [done|]). intros I.
  do 7 (apply obind_Ok in I as (? & _ & I)). case_match; [done|].
  do 4 (apply obind_Ok in I as (? & _ & I)). apply obind_Ok in I as (wc & Hw%ok_or_Ok & I).
  apply obind_Ok in I as (zc & Hz%ok_or_Ok & I). do 2 (case_match; [done|]).
  apply obind_Ok in I as (? & _ & [= <-]). by rewrite Hw, Hz.
Qed.

(** A new entry of the outbox: it waits, and its chain is flagged. *)
Definition fresh_entry (id : list byte) (flag : WinnerChain -> option bool)
    (e : WinnerKey * PendingWinnerStatus) : Prop :=
  key_share_id e.1 = id /\ status_of e.2 = Some Waiting /\ flag (key_chain e.1) = Some true.

Lemma winner_blocks_fresh r id v :
  validate_winner_blocks r id = Ok v ->
  Forall (fresh_entry id (fun c => match c with Wcash => wcash_candidate r | Zcash => zcash_candidate r end))
    (entries v).
Proof.
  unfold validate_winner_blocks. case_match.
  { case_match; [done|]. intros [= <-]. constructor. }
  intros V. apply obind_Ok in V as (? & _ & V). apply obind_Ok in V as (parent & _ & V).
  apply obind_Ok in V as ([ws wp] & Hw & V). apply obind_Ok in V as ([zs zp] & Hz & V).
  case_match; [done|]. injection V as <-. cbn [entries]. apply Forall_app. split.
  - unfold wcash_winner in Hw. destruct (bool_decide_reflect (wcash_candidate r = Some true)) as [Hc|Hc].
    + do 6 (apply obind_Ok in Hw as (? & _ & Hw)). case_match; [done|]. injection Hw as <- <-.
      by apply Forall_singleton.
    + case_match; [done|]. injection Hw as <- <-. constructor.
  - unfold zcash_winner in Hz. destruct (bool_decide_reflect (zcash_candidate r = Some true)) as [Hc|Hc].
    + do 4 (apply obind_Ok in Hz as (? & _ & Hz)). case_match; [done|]. injection Hz as <- <-.
      by apply Forall_singleton.
    + case_match; [done|]. injection Hz as <- <-. constructor.
Qed.

Lemma validate_share_Ok r id s winners :
  validate_share r = Ok (id, s, winners) ->
  share_id_ok id s /\ Forall (fresh_entry id (fun c => Some (candidate s c))) winners.
Proof.
  unfold validate_share. intros V. apply obind_Ok in V as (imm & Hi & V).
  apply obind_Ok in V as (id' & Hid & V). apply obind_Ok in V as (v & Hv & [= <- <- <-]).
  apply immutable_share_flags in Hi as [Hw Hz]. apply winner_blocks_fresh in Hv. split.
  - unfold validate_share_id in Hid. apply obind_Ok in Hid as (? & _ & Hid).
    apply obind_Ok in Hid as (actual & _ & Hid). apply obind_Ok in Hid as (parent & Hp & Hid).
    apply obind_Ok in Hid as (n & [-> _]%ok_or_Ok%checked_Some & Hid).
    case_bool_decide as E; [|done]. injection Hid as <-. by exists parent.
  - eapply Forall_impl; [exact Hv|]. intros [[sid c] p] (Hs & Hst & Hf). split_and!; try done.
    destruct c; simpl in *; congruence.
Qed.

Lemma add_winners_Ok id flag ws pm pm' :
  Forall (fresh_entry id flag) ws -> add_winners ws pm = Ok pm' ->
  forall key p, pm' !! key = Some p -> pm !! key = Some p \/ fresh_entry id flag (key, p).
Proof.
  intros Hf. revert pm. induction Hf as [|[k w] ws Hw _ IH]; intros pm; cbn [add_winners].
  { intros [= <-]. auto. }
  case_match; [done|]. intros A key p Hp. destruct (IH _ A key p Hp) as [Hl|Hl]; [|auto].
  apply lookup_insert_Some in Hl as [[<- <-]|[_ Hl]]; auto.
Qed.

Lemma replay_inv_share r job st st' : replay_inv st -> replay_share r job st = Ok st' -> replay_inv st'.
Proof.
  intros [Hx Hsz Hids Hst Hbk]. unfold replay_share. intros R. apply obind_Ok in R as (? & _ & R).
  apply obind_Ok in R as ([[id s] ws] & Hv & R). apply validate_share_Ok in Hv as [Hid Hws].
  destruct (accepted st !! id) as [prev|] eqn:Ha.
  { case_bool_decide; [|done]. injection R as <-. by split. }
  destruct (Z.geb_spec (Z.of_nat (size (accepted st))) MAX_ACCOUNTING_SHARES); [done|].
  unfold MAX_ACCOUNTING_SHARES in *.
  destruct (apply_share_exact (accepted st) (snapshot st) id s Ha ltac:(bool_lia) Hx) as (snap & Es & Hx').
  rewrite Es in R. cbn [obind] in R. apply obind_Ok in R as (pm & Hpm & [= <-]).
  assert (forall key p, pm !! key = Some p -> pending_winners st !! key = Some p \/
    fresh_entry id (fun c => Some (candidate s c)) (key, p)) as Hnew by by eapply add_winners_Ok.
  split; cbn [accepted pending_winners snapshot].
  - done.
  - rewrite map_size_insert_None by done. unfold MAX_ACCOUNTING_SHARES. lia.
  - intros id' s' [[<- <-]|[_ Hl]]%lookup_insert_Some; [done|]. by apply Hids.
  - intros key p Hp. destruct (Hnew key p Hp) as [Hl|(_ & Hs & _)]; [by eapply Hst|]. by exists Waiting.
  - intros key p Hp. destruct (Hnew key p Hp) as [Hl|(Hk & _ & Hf)].
    + destruct (Hbk key p Hl) as (s' & Hs' & Hc). exists s'. split; [|done].
      rewrite lookup_insert_ne; [done|]. intros ->. congruence.
    + exists s. simpl in Hk, Hf. rewrite Hk, lookup_insert_eq. by injection Hf as ->.
Qed.

Lemma replay_inv_status r st pm :
  replay_inv st -> apply_winner_status r (pending_winners st) = Ok pm ->
  replay_inv (mkReplay (accepted st) pm (used_jobs st) (snapshot st)).
Proof.
  intros [Hx Hsz Hids Hst Hbk] A.
  apply apply_winner_status_Ok in A as (key & p & next & _ & Hp & Ht & ->).
  destruct (Hst key p Hp) as (s & Hs & _). destruct (transition_moves _ _ _ s _ Hs Ht) as (n & Hm & Hn).
  assert (forall k q, updated key next (pending_winners st) !! k = Some q ->
    pending_winners st !! k = Some q \/ k = key /\ next = Some q) as Hu.
  { intros k q. destruct next as [q'|]; simpl.
    - intros [[<- <-]|[_ Hl]]%lookup_insert_Some; auto.
    - intros [_ Hl]%lookup_delete_Some. auto. }
  split; cbn [accepted pending_winners snapshot]; try done.
  - intros k q Hq. destruct (Hu k q Hq) as [Hl|[-> ->]]; [by eapply Hst|].
    destruct n as [s'|]; [|done]. destruct Hn as [_ Hs']. exists s'. split; [done|].
    intros ->. by inversion Hm.
  - intros k q Hq. destruct (Hu k q Hq) as [Hl|[-> ->]]; [by eapply Hbk|]. by eapply Hbk.
Qed.

Lemma replay_inv_record r st st' : replay_inv st -> replay_record r st = Ok st' -> replay_inv st'.
Proof.
  intros Hst. unfold replay_record. case_match; [done|]. intros R. apply obind_Ok in R as (job & _ & R).
  case_match.
  { apply obind_Ok in R as (? & _ & R). case_match; [done|]. apply obind_Ok in R as (? & _ & [= <-]).
    by destruct Hst; split. }
  case_match; [by eapply replay_inv_share|]. case_match; [|done].
  apply obind_Ok in R as (pm & Hpm & [= <-]). by eapply replay_inv_status.
Qed.

Lemma replay_inv_lines ls st st' : replay_inv st -> replay_lines ls st = Ok st' -> replay_inv st'.
Proof.
  revert st. induction ls as [|[l t] ls IH]; intros st Hst; cbn [replay_lines]; [by intros [= <-]|].
  do 2 (case_match; [done || by intros [= <-]|]). intros R. apply obind_Ok in R as (r & _ & R).
  apply obind_Ok in R as (st1 & Hr & R). eapply IH; [|exact R]. by eapply replay_inv_record.
Qed.

Lemma empty_replay_inv : replay_inv empty_replay.
Proof.
  split; cbn [empty_replay accepted pending_winners snapshot].
  - apply default_snapshot_exact.
  - by_eval.
  - intros id s. by rewrite lookup_empty.
  - intros k p. by rewrite lookup_empty.
  - intros k p. by rewrite lookup_empty.
Qed.
End ReplayInvariant.

(** ** What the accepted shares are *)

Section Accepted.
Import Journal.
Context `{Hashes, JournalEnv}.

(** The kinds of records that carry a share. *)
Definition share_kind (r : JournalRecord) : bool :=
  bool_decide (record r = "accepted_share") || bool_decide (record r = "winner_outbox").

(** The record announces the share [s] under the identifier [id]. *)
Definition announces (r : JournalRecord) (id : list byte) (s : ImmutableShare) : Prop :=
  share_kind r = true /\ exists winners, validate_share r = Ok (id, s, winners).

(** The records of the terminated lines. *)
Fixpoint records (lines : list (list byte * bool)) : list JournalRecord :=
  match lines with
  | [] => []
  | (line, terminated) :: lines =>
      if terminated then match parse_record line with Some r => r :: records lines | None => [] end else []
  end.

Lemma replay_record_share r st :
  share_kind r = true ->
  replay_record r st =
  if negb (version r =? JOURNAL_VERSION) then Err (invalid "share journal contains unsupported version record")
  else let? job := validate_canonical_hex 32 (job_id r) in replay_share r job st.
Proof.
  intros K. unfold replay_record. case_match; [done|].
  destruct (validate_canonical_hex 32 (job_id r)) as [job| |]; [|done..]. cbn [obind].
  assert (bool_decide (record r = "job_activated") = false) as ->.
  { apply bool_decide_eq_false. intros E. unfold share_kind in K. by rewrite E in K. }
  unfold share_kind in K. by rewrite K.
Qed.

Lemma replay_record_other r st st' :
  share_kind r = false -> replay_record r st = Ok st' ->
  accepted st' = accepted st /\ snapshot st' = snapshot st /\ used_jobs st ⊆ used_jobs st'.
Proof.
  unfold replay_record, share_kind. intros K. rewrite K. case_match; [done|]. intros R.
  apply obind_Ok in R as (job & _ & R). case_match.
  - apply obind_Ok in R as (? & _ & R). case_match; [done|]. apply obind_Ok in R as (? & _ & [= <-]).
    cbn. split_and!; [done..|]. set_solver.
  - case_match; [|done]. by apply obind_Ok in R as (pm & _ & [= <-]).
Qed.

(** What an accepted share record does to the set of accepted shares. *)
Lemma replay_record_accepts r st st' :
  share_kind r = true -> replay_record r st = Ok st' ->
  exists job id s winners, validate_canonical_hex 32 (job_id r) = Ok job /\
    validate_share r = Ok (id, s, winners) /\ (accepted st !! id = None \/ accepted st !! id = Some s) /\
    accepted st' = <[id := s]> (accepted st) /\ used_jobs st' = {[job]} ∪ used_jobs st.
Proof.
  intros K. rewrite replay_record_share by done. case_match; [done|]. intros R.
  apply obind_Ok in R as (job & Hj & R). unfold replay_share in R. apply obind_Ok in R as (? & _ & R).
  apply obind_Ok in R as ([[id s] ws] & Hv & R). exists job, id, s, ws.
  destruct (accepted st !! id) as [prev|] eqn:Ha.
  - case_bool_decide; [|done]. subst prev. injection R as <-. cbn [accepted used_jobs].
    split_and!; [done..|by right| |done]. by rewrite insert_id.
  - case_match; [done|]. apply obind_Ok in R as (snap & _ & R). apply obind_Ok in R as (pm & _ & [= <-]).
    split_and!; auto.
Qed.

Lemma accepted_record r st st' :
  replay_record r st = Ok st' ->
  forall id s, accepted st' !! id = Some s <-> accepted st !! id = Some s \/ announces r id s.
Proof.
  intros R id s. unfold announces. destruct (share_kind r) eqn:K.
  - destruct (replay_record_accepts _ _ _ K R) as (job & id' & s' & ws & _ & Hv & Hn & -> & _).
    rewrite lookup_insert_Some, Hv. split.
    + intros [[<- <-]|[_ Ha]]; [|by left]. right. split; [done|]. by exists ws.
    + intros [Ha|(_ & ws' & [= <- <- <-])]; [|by left].
      destruct (decide (id' = id)) as [<-|]; [|by right]. left. destruct Hn; naive_solver.
  - destruct (replay_record_other _ _ _ K R) as (-> & _ & _). naive_solver.
Qed.

Lemma accepted_lines ls st st' :
  replay_lines ls st = Ok st' ->
  forall id s, accepted st' !! id = Some s <->
    accepted st !! id = Some s \/ exists r, r ∈ records ls /\ announces r id s.
Proof.
  revert st. induction ls as [|[l t] ls IH]; intros st; cbn [replay_lines records].
  { intros [= <-] id s. split; [by left|]. intros [?|(r & Hr & _)]; [done|set_solver]. }
  case_match; [done|]. destruct t; cbn [negb].
  2:{ intros [= <-] id s. split; [by left|]. intros [?|(r & Hr & _)]; [done|set_solver]. }
  intros R id s. apply obind_Ok in R as (r & Hp%ok_or_Ok & R). rewrite Hp.
  apply obind_Ok in R as (st1 & Hr & R). rewrite (IH _ R), (accepted_record _ _ _ Hr).
  setoid_rewrite elem_of_cons. naive_solver.
Qed.

(** The replay only adds shares and jobs. *)
Lemma replay_record_grows r st st' :
  replay_record r st = Ok st' -> accepted st ⊆ accepted st' /\ used_jobs st ⊆ used_jobs st'.
Proof.
  intros R. split.
  - apply map_subseteq_spec. intros id s Hs. apply (accepted_record _ _ _ R). by left.
  - destruct (share_kind r) eqn:K.
    + destruct (replay_record_accepts _ _ _ K R) as (? & ? & ? & ? & _ & _ & _ & _ & ->). set_solver.
    + by destruct (replay_record_other _ _ _ K R) as (_ & _ & ?).
Qed.

(** A share record read again changes nothing. *)
Lemma replay_record_again r st0 st1 st :
  share_kind r = true -> replay_record r st0 = Ok st1 ->
  accepted st1 ⊆ accepted st -> used_jobs st1 ⊆ used_jobs st -> replay_record r st = Ok st.
Proof.
  intros K R Ha Hu. pose proof R as R'. rewrite replay_record_share in R' |- * by done.
  destruct (replay_record_accepts _ _ _ K R) as (job & id & s & ws & Hj & Hv & _ & Ea & Eu).
  case_match; [done|]. rewrite Hj. cbn [obind]. unfold replay_share.
  assert (job ∈ used_jobs st) as Hin by (apply Hu; rewrite Eu; set_solver).
  rewrite bool_decide_eq_true_2 by done. cbn [ensure_accounting_generation_capacity negb andb obind].
  rewrite Hv. cbn [obind].
  assert (accepted st !! id = Some s) as ->.
  { eapply lookup_weaken; [|exact Ha]. rewrite Ea. apply lookup_insert_eq. }
  rewrite bool_decide_eq_true_2 by done.
  assert ({[job]} ∪ used_jobs st = used_jobs st) as -> by set_solver. by destruct st.
Qed.

(** ** Lines *)

(** The bytes of terminated lines. *)
Definition journal (lines : list (list byte)) : list byte :=
  concat (map (fun l => l ++ [Byte.x0a]) lines).
Definition newline_free (l : list byte) : Prop := Byte.x0a ∉ l.

Lemma lines_from_free l rest line :
  newline_free l -> lines_from line (l ++ rest) = lines_from (line ++ l) rest.
Proof.
  revert line. induction l as [|b l IH]; intros line Hl; cbn [app]; [by rewrite app_nil_r|].
  cbn [lines_from]. unfold newline_free in *. rewrite bool_decide_eq_false_2 by set_solver.
  rewrite IH by set_solver. by rewrite <- app_assoc.
Qed.

Lemma lines_journal lines rest :
  Forall newline_free lines ->
  lines_from [] (journal lines ++ rest) = map (fun l => (l, true)) lines ++ lines_from [] rest.
Proof.
  induction 1 as [|l lines Hl _ IH]; [done|]. unfold journal in *. cbn [map concat app].
  rewrite <- !app_assoc, lines_from_free by done. cbn [app lines_from].
  by rewrite bool_decide_eq_true_2, IH by done.
Qed.

Lemma lines_tail tail :
  newline_free tail -> lines_from [] tail = [] \/ lines_from [] tail = [(tail, false)].
Proof.
  intros Ht. pose proof (lines_from_free tail [] [] Ht) as E. rewrite app_nil_r in E. rewrite E.
  cbn [lines_from app]. case_bool_decide; auto.
Qed.

Lemma replay_lines_app ls ls' st :
  Forall (fun l => l.2 = true) ls ->
  replay_lines (ls ++ ls') st = let? st := replay_lines ls st in replay_lines ls' st.
Proof.
  intros Hls. revert st. induction Hls as [|[l t] ls Ht _ IH]; intros st; [done|]. simpl in Ht. subst t.
  cbn [app replay_lines negb]. case_match; [done|]. destruct (parse_record l) as [r|]; [|done].
  cbn [ok_or obind]. destruct (replay_record r st); [|done..]. cbn [obind]. apply IH.
Qed.

Lemma record_fits (l : list byte) :
  len l <= MAX_JOURNAL_RECORD_BYTES -> (len l >? MAX_JOURNAL_RECORD_BYTES) = false.
Proof. rewrite Z.gtb_ltb. apply Z.ltb_ge. Qed.

Lemma terminated_all (ls : list (list byte)) : Forall (fun l => l.2 = true) (map (fun l => (l, true)) ls).
Proof. by apply Forall_map, Forall_true. Qed.

Lemma replay_lines_grows ls st st' :
  replay_lines ls st = Ok st' -> accepted st ⊆ accepted st' /\ used_jobs st ⊆ used_jobs st'.
Proof.
  revert st. induction ls as [|[l t] ls IH]; intros st; cbn [replay_lines]; [by intros [= <-]|].
  case_match; [done|]. case_match; [by intros [= <-]|]. intros R. apply obind_Ok in R as (r & _ & R).
  apply obind_Ok in R as (st1 & Hr%replay_record_grows & R%IH). destruct Hr, R. split; by etrans.
Qed.

(** A line of the journal was read in some state, and the state grew since. *)
Lemma replay_lines_member ls st st' l r :
  replay_lines (map (fun l => (l, true)) ls) st = Ok st' -> l ∈ ls -> parse_record l = Some r ->
  len l <= MAX_JOURNAL_RECORD_BYTES /\
  exists st0 st1, replay_record r st0 = Ok st1 /\ accepted st1 ⊆ accepted st' /\ used_jobs st1 ⊆ used_jobs st'.
Proof.
  intros R Hl Hr. revert st R. induction ls as [|l' ls IH]; intros st; [set_solver|].
  cbn [map replay_lines negb]. destruct (Z.gtb_spec (len l') MAX_JOURNAL_RECORD_BYTES); [done|]. intros R.
  apply obind_Ok in R as (r' & Hr'%ok_or_Ok & R). apply obind_Ok in R as (st1 & Hst & R).
  apply elem_of_cons in Hl as [<-|Hl]; [|by eapply IH]. rewrite Hr in Hr'. injection Hr' as <-.
  split; [done|]. exists st, st1. split; [done|]. by eapply replay_lines_grows.
Qed.
End Accepted.

(** ** The properties of the journal *)

Section JournalProperties.
Import Journal.
Context `{Hashes, JournalEnv}.

(** C31: the payout snapshot is exact.  When the journal is accepted, its
    distinct shares form a finite map: an identifier is mapped to the share
    that every record announcing it carries, and it is the hash of the job and
    the parent header of the share.  Every counter of the snapshot is the
    number of shares of that map in its class: the total, the totals by
    authentication, and for each worker the shares, the winners of both chains
    and the shares by authentication and by target.  No worker and no bucket is
    listed for nothing.  The number of shares is bounded, so no counter
    overflows. *)
Theorem accounting_exact stream snap :
  read_accounting_snapshot_from_reader stream = Ok snap ->
  exists m : gmap (list byte) ImmutableShare,
    snapshot_exact m snap /\ Z.of_nat (size m) <= MAX_ACCOUNTING_SHARES /\
    (forall id s, m !! id = Some s <-> exists r, r ∈ records (lines_from [] stream) /\ announces r id s) /\
    (forall id s, m !! id = Some s -> share_id_ok id s).
Proof.
  unfold read_accounting_snapshot_from_reader. intros R. apply obind_Ok in R as (st & Hr & [= <-]).
  destruct (replay_inv_lines _ _ _ empty_replay_inv Hr) as [Hx Hs Hi _ _].
  exists (accepted st). split_and!; [done..| |done]. intros id s. rewrite (accepted_lines _ _ _ Hr).
  cbn [empty_replay accepted]. rewrite lookup_empty. naive_solver.
Qed.

(** The journal survives a crash and a retry.  A torn last line, that is
    bytes without a newline after the terminated lines, never changes what the
    replay returns, unless it exceeds the size of a record.  A share line
    written a second time is accepted and changes no counter. *)
Theorem replay_crash_safe lines tail :
  Forall newline_free lines -> newline_free tail ->
  (len tail <= MAX_JOURNAL_RECORD_BYTES ->
   read_accounting_snapshot_from_reader (journal lines ++ tail) =
   read_accounting_snapshot_from_reader (journal lines)) /\
  (forall snap l r, read_accounting_snapshot_from_reader (journal lines) = Ok snap ->
   l ∈ lines -> parse_record l = Some r -> share_kind r = true ->
   read_accounting_snapshot_from_reader (journal (lines ++ [l])) = Ok snap).
Proof.
  intros Hls Ht. unfold read_accounting_snapshot_from_reader. pose proof (lines_journal lines [] Hls) as E0.
  rewrite app_nil_r in E0. cbn [lines_from] in E0. rewrite bool_decide_eq_true_2, app_nil_r in E0 by done.
  rewrite E0. split.
  - intros Hsz. rewrite lines_journal, replay_lines_app by (done || apply terminated_all).
    destruct (replay_lines _ empty_replay) as [st| |]; [|done..]. cbn [obind].
    destruct (lines_tail tail Ht) as [->| ->]; [done|]. cbn [replay_lines negb].
    by rewrite record_fits.
  - intros snap l r R Hl Hp K. apply obind_Ok in R as (st & Hr & [= <-]).
    destruct (replay_lines_member _ _ _ _ _ Hr Hl Hp) as (Hsz & st0 & st1 & Hst & Ha & Hu).
    assert (newline_free l) as Hf by by eapply Forall_forall in Hls.
    assert (journal (lines ++ [l]) = journal lines ++ (l ++ [Byte.x0a])) as ->.
    { unfold journal. rewrite map_app, concat_app. cbn [map concat]. by rewrite app_nil_r. }
    rewrite lines_journal, lines_from_free, replay_lines_app by (done || apply terminated_all).
    rewrite Hr. cbn [obind app lines_from replay_lines negb]. rewrite bool_decide_eq_true_2 by done.
    cbn [replay_lines negb]. rewrite record_fits, Hp by done. cbn [ok_or obind].
    rewrite (replay_record_again _ _ _ _ K Hst Ha Hu). cbn [obind].
    rewrite bool_decide_eq_true_2 by done. done.
Qed.

Lemma becomes_unique p next next' n : becomes p next n -> becomes p next' n -> next = next'.
Proof.
  unfold becomes, same_entry, status_of.
  destruct next as [[? ? ? [] []]|], next' as [[? ? ? [] []]|], n as [[]|]; naive_solver.
Qed.

(** The outbox is a state machine.  In every state the replay reaches, a
    pending winner belongs to an accepted share flagged as a candidate on its
    chain, and is waiting, observed or, on Wcash only, quarantined; it is never
    observed and conflicting at once.  A status record is accepted exactly when
    it names a pending winner with all its immutable data and the automaton has
    a move for it; only that winner changes, and it leaves the outbox exactly
    when it matures. *)
Theorem winner_lifecycle lines st :
  replay_lines lines empty_replay = Ok st ->
  (forall key p, pending_winners st !! key = Some p ->
    exists s share, status_of p = Some s /\ (s = Quarantined -> key_chain key = Wcash) /\
      accepted st !! key_share_id key = Some share /\ candidate share (key_chain key) = true) /\
  (forall r pending, apply_winner_status r (pending_winners st) = Ok pending <->
    exists key p s n next, pending_winners st !! key = Some p /\ addresses r key p /\
      status_of p = Some s /\ moves (key_chain key) (record r) s n /\ becomes p next n /\
      pending = updated key next (pending_winners st)).
Proof.
  intros R. destruct (replay_inv_lines _ _ _ empty_replay_inv R) as [_ _ _ Hst Hbk]. split.
  - intros key p Hp. destruct (Hst key p Hp) as (s & Hs & Hq). destruct (Hbk key p Hp) as (share & Ha & Hc).
    by exists s, share.
  - intros r pending. rewrite apply_winner_status_Ok. split.
    + intros (key & p & next & Ha & Hp & Ht & ->). destruct (Hst key p Hp) as (s & Hs & _).
      destruct (transition_moves _ _ _ s _ Hs Ht) as (n & Hm & Hb). by exists key, p, s, n, next.
    + intros (key & p & s & n & next & Hp & Ha & Hs & Hm & Hb & ->).
      destruct (moves_transition _ _ _ _ _ Hs Hm) as (next' & Ht & Hb').
      rewrite (becomes_unique _ _ _ _ Hb Hb'). by exists key, p, next'.
Qed.
End JournalProperties.

(** ** A concrete journal *)

Section Examples.
Import Journal.

(** The identity of a message is its last 32 bytes. *)
Definition journal_hashes : Hashes := {|
  sha256 bs := to_le 32 (of_le (reverse bs));
  blake2b p bs := to_le 32 (of_le (reverse bs));
  sha256_length bs := length_le_split 32 (of_le (reverse bs));
  blake2b_length p bs := length_le_split 32 (of_le (reverse bs));
|}.

Definition hex_digit (n : Z) : byte := default Byte.x00 (nth_error (bytes_of "0123456789abcdef") (Z.to_nat n)).
Definition hex_value (b : byte) : option Z :=
  let v := of_le [b] in
  if within 48 57 v then Some (v - 48) else if within 97 102 v then Some (v - 87)
  else if within 65 70 v then Some (v - 55) else None.
Definition hex (l : list byte) : string :=
  String.string_of_list_byte (flat_map (fun b => [hex_digit (of_le [b] / 16); hex_digit (of_le [b] mod 16)]) l).
Fixpoint unhex (l : list byte) : option (list byte) :=
  match l with
  | [] => Some []
  | [_] => None
  | h :: l :: rest =>
      match hex_value h, hex_value l, unhex rest with
      | Some h, Some l, Some rest => Some (to_le 1 (16 * h + l) ++ rest)
      | _, _, _ => None
      end
  end.

Definition hash_of (b : byte) : string := hex (replicate 32 b).
Definition activation_record : JournalRecord :=
  mkRecord 2 "job_activated" (hash_of Byte.x01) None None (Some 5) None None None None None None
    (Some (hash_of Byte.x02)) (Some 10) (Some 20) None None None None None.
(** The identifier that [journal_hashes] gives to a share: its parent, reversed. *)
Definition share_record : JournalRecord :=
  mkRecord 2 "accepted_share" (hash_of Byte.x01) (Some (hash_of Byte.x03)) (Some 6) None (Some "rig.1")
    (Some "operator") (Some (hash_of Byte.x7f)) (Some (hash_of Byte.x03)) (Some false) (Some false)
    (Some (hash_of Byte.x02)) (Some 10) (Some 20) None None None None None.
Definition winner_record : JournalRecord :=
  mkRecord 2 "winner_outbox" (hash_of Byte.x01) (Some (hash_of Byte.x04)) (Some 7) None (Some "rig.1")
    (Some "operator") (Some (hash_of Byte.x7f)) (Some (hash_of Byte.x04)) (Some true) (Some false)
    (Some (hash_of Byte.x02)) (Some 10) (Some 20) (Some (hash_of Byte.x04)) None None None None.
Definition observed_record : JournalRecord :=
  mkRecord 2 "winner_observed" (hash_of Byte.x01) (Some (hash_of Byte.x04)) None (Some 8) None None None None
    None None None None None None None (Some "wcash") (Some (hash_of Byte.x02)) (Some 10).

(** One-byte lines stand for the four records; a block is its parent hash. *)
Definition example_env : JournalEnv := {|
  parse_record l := match l with
    | [Byte.x41] => Some activation_record
    | [Byte.x42] => Some share_record
    | [Byte.x43] => Some winner_record
    | [Byte.x44] => Some observed_record
    | _ => None
    end;
  hex_encode := hex;
  hex_decode s := unhex (bytes_of s);
  validate_persisted_winner_block block _ _ _ := Ok block;
|}.

#[local] Existing Instances journal_hashes example_env.

Definition example_lines : list (list byte) :=
  [[Byte.x41]; [Byte.x42]; [Byte.x43]; [Byte.x42]; [Byte.x44]].
Definition example_snapshot : AccountingSnapshot :=
  mkSnapshot 2 {["operator" := 2]}
    {["rig.1" := mkWorker 2 {["operator" := 2]} 1 0 {[hash_of Byte.x7f := 2]}]}.

Lemma example_lines_free : Forall newline_free example_lines.
Proof. apply (bool_decide_unpack _). vm_compute. exact I. Qed.

(** Two distinct shares, one of them written twice, and a winner on Wcash. *)
Lemma example_journal_read :
  read_accounting_snapshot_from_reader (journal example_lines) = Ok example_snapshot.
Proof. vm_compute. reflexivity. Qed.

Lemma accounting_exact_witness :
  exists m : gmap (list byte) ImmutableShare,
    snapshot_exact m example_snapshot /\ Z.of_nat (size m) <= MAX_ACCOUNTING_SHARES /\
    (forall id s, m !! id = Some s <->
      exists r, r ∈ records (lines_from [] (journal example_lines)) /\ announces r id s) /\
    (forall id s, m !! id = Some s -> share_id_ok id s).
Proof. exact (accounting_exact (journal example_lines) example_snapshot example_journal_read). Defined.

Lemma replay_crash_safe_witness :
  read_accounting_snapshot_from_reader (journal example_lines ++ [Byte.x42]) = Ok example_snapshot /\
  read_accounting_snapshot_from_reader (journal (example_lines ++ [[Byte.x43]])) = Ok example_snapshot.
Proof.
  assert (newline_free [Byte.x42]) as Hf by (apply (bool_decide_unpack _); vm_compute; exact I).
  destruct (replay_crash_safe example_lines [Byte.x42] example_lines_free Hf) as [H1 H2]. split.
  - rewrite H1; [exact example_journal_read|]. by_eval.
  - apply (H2 example_snapshot [Byte.x43] winner_record example_journal_read); [|reflexivity|reflexivity].
    apply (bool_decide_unpack _). vm_compute. exact I.
Defined.

Lemma winner_lifecycle_witness :
  exists st, replay_lines (lines_from [] (journal example_lines)) empty_replay = Ok st /\
    size (pending_winners st) = 1%nat /\
    forall key p, pending_winners st !! key = Some p ->
      exists s share, status_of p = Some s /\ (s = Quarantined -> key_chain key = Wcash) /\
        accepted st !! key_share_id key = Some share /\ candidate share (key_chain key) = true.
Proof.
  assert (match replay_lines (lines_from [] (journal example_lines)) empty_replay with
    | Ok st => size (pending_winners st) = 1%nat | _ => False end) as S by (vm_compute; reflexivity).
  destruct (replay_lines _ empty_replay) as [st| |] eqn:R; [|destruct S..].
  exists st. destruct (winner_lifecycle _ _ R) as [H1 _]. exact (conj eq_refl (conj S H1)).
Defined.
End Examples.
