(* ===== verification/GenesisAnchor.v ===== *)
(** * External anchors of the genesis blocks

    [wcash-genesis/src/lib.rs]: the identities of the Wcash networks, the
    external block that each genesis block is anchored to, the strict 40-byte
    encoding of an anchor and its commitment, the hexadecimal parser, and the
    check of an isolated Bitcoin header, which has a compact-target decoder of
    its own.  The hash functions are those of [Hashes]. *)

From stdpp Require Import pretty.
From S2P Require Import Prelude Difficulty Networks AuxCodec AuxMerkle.
Import Network.

Module Genesis.

(** ** Names and identities *)

Definition MAINNET_CURRENCY_TICKER : string := "WEC".
Definition TESTNET_CURRENCY_TICKER : string := "TWC".
Definition GENESIS_TIMESTAMP_TEXT : string := "06/Sep/2026 Wcash (WEC)".
Definition PUBLIC_TESTNET_GENESIS_TIMESTAMP_TEXT : string := "17/Sep/2026 W.cash".
Definition PUBLIC_TESTNET_ZCASH_HEIGHT : Z := 4362016.
Definition PUBLIC_MAINNET_ZCASH_HEIGHT : Z := 3488810.
Definition LOCAL_REGTEST_BITCOIN_HEIGHT : Z := 965910.
Definition PUBLIC_TESTNET_POW_LIMIT_BITS : Z := 0x1e2fabe8.
Definition ANCHOR_ENCODING_VERSION : Z := 1.
Definition ANCHOR_ENCODING_LEN : nat := 40.
Definition BITCOIN_ANCHOR_PERSONALIZATION : list byte := bytes_of "WcashBtcAnchorV1".
Definition ZCASH_ANCHOR_PERSONALIZATION : list byte := bytes_of "WcashZecAnchorV1".
Definition RESERVED_BYTE : Z := 0.
Definition BITCOIN_HEADER_LEN : nat := 80.

(** The value of a byte. *)
Definition byte_value (b : byte) : Z := of_le [b].
(** The byte with the low eight bits of a value. *)
Definition byte_from (z : Z) : byte := byte.of_Z z.

(** [WcashNetwork]: its number, name and ticker. *)
Definition network_id (self : WcashNetwork) : Z :=
  match self with WcashMainnet => 0 | WcashTestnet => 1 | WcashRegtest => 2 end.
Definition as_str (self : WcashNetwork) : string :=
  match self with WcashMainnet => "mainnet" | WcashTestnet => "testnet" | WcashRegtest => "regtest" end.
Definition currency_ticker (self : WcashNetwork) : string :=
  match self with
  | WcashMainnet => MAINNET_CURRENCY_TICKER
  | WcashTestnet | WcashRegtest => TESTNET_CURRENCY_TICKER
  end.
Definition network_from_str (value : string) : option WcashNetwork :=
  if bool_decide (value = "mainnet") then Some WcashMainnet
  else if bool_decide (value = "testnet") then Some WcashTestnet
  else if bool_decide (value = "regtest") then Some WcashRegtest
  else None.

(** [NetworkIdentity] and [network_identity]. *)
Record NetworkIdentity := mkIdentity { network : WcashNetwork; domain_label : string; p2p_magic : list byte }.
Definition network_identity (network : WcashNetwork) : NetworkIdentity :=
  match network with
  | WcashMainnet => mkIdentity network "Wcash/mainnet/v1" [Byte.xc1; Byte.xe0; Byte.xdc; Byte.x1b]
  | WcashTestnet => mkIdentity network "Wcash/testnet/v7" [Byte.x49; Byte.xd2; Byte.x93; Byte.x4b]
  | WcashRegtest => mkIdentity network "Wcash/regtest/v5" [Byte.x4c; Byte.x23; Byte.x72; Byte.x61]
  end.

(** ** Hexadecimal *)

Inductive HexParseError :=
| HexInvalidLength (actual expected : Z)
| InvalidHex (index : Z).

(** [decode_nibble]. *)
Definition decode_nibble (b : byte) : option Z :=
  let v := byte_value b in
  if within 48 57 v then Some (v - 48)
  else if within 97 102 v then Some (v - 97 + 10)
  else if within 65 70 v then Some (v - 65 + 10)
  else None.

(** The loop of [parse_hex_array] over pairs of characters. *)
Fixpoint parse_pairs (index : Z) (input : list byte) : outcome HexParseError (list byte) :=
  match input with
  | high :: low :: input =>
      let? high := ok_or (decode_nibble high) (InvalidHex (index * 2)) in
      let? low := ok_or (decode_nibble low) (InvalidHex (index * 2 + 1)) in
      let? rest := parse_pairs (index + 1) input in
      Ok (byte_from (Z.lor (Z.shiftl high 4) low) :: rest)
  | _ => Ok []
  end.

(** [parse_hex_array::<N>]. *)
Definition parse_hex_array (n : nat) (input : string) : outcome HexParseError (list byte) :=
  let? expected := expect (usize_checked (Z.of_nat n * 2)) in
  if negb (len (bytes_of input) =? expected) then Err (HexInvalidLength (len (bytes_of input)) expected)
  else parse_pairs 0 (bytes_of input).

(** The lower-case digits of [{byte:02x}]. *)
Definition hex_digit (v : Z) : byte := byte_from (if v <? 10 then 48 + v else 87 + v).
Definition hex_byte (b : byte) : list byte := [hex_digit (byte_value b / 16); hex_digit (byte_value b mod 16)].

(** [Display] and [FromStr] of [BitcoinBlockHash]: the bytes in reverse order. *)
Definition display_hash (hash : list byte) : string :=
  String.string_of_list_byte (flat_map hex_byte (rev hash)).
Definition hash_from_str (display_hash : string) : outcome HexParseError (list byte) :=
  let? display_bytes := parse_hex_array 32 display_hash in
  Ok (rev display_bytes).

(** ** Anchors *)

(** [AnchorSource] and its number. *)
Inductive AnchorSource := BitcoinMainnet | ZcashTestnet | ZcashMainnet.
#[global] Instance source_eq_dec : EqDecision AnchorSource.
Proof. solve_decision. Defined.
Definition source_id (self : AnchorSource) : Z :=
  match self with BitcoinMainnet => 0 | ZcashTestnet => 1 | ZcashMainnet => 2 end.

Inductive AnchorDecodeError :=
| InvalidLength (length : Z)
| UnknownVersion (version : Z)
| UnknownWcashNetwork (network : Z)
| UnknownSourceChain (network : Z)
| NonZeroReservedByte (byte : Z).

(** [TryFrom<u8>] for the two enumerations. *)
Definition network_try_from (value : Z) : outcome AnchorDecodeError WcashNetwork :=
  if value =? 0 then Ok WcashMainnet else if value =? 1 then Ok WcashTestnet
  else if value =? 2 then Ok WcashRegtest else Err (UnknownWcashNetwork value).
Definition source_try_from (value : Z) : outcome AnchorDecodeError AnchorSource :=
  if value =? 0 then Ok BitcoinMainnet else if value =? 1 then Ok ZcashTestnet
  else if value =? 2 then Ok ZcashMainnet else Err (UnknownSourceChain value).

(** [BitcoinAnchor]. *)
Record BitcoinAnchor := mkAnchor {
  wcash_network : WcashNetwork;
  source : AnchorSource;
  bitcoin_height : Z;
  bitcoin_block_hash : list byte;
}.

(** [BitcoinAnchor::encode]. *)
Definition encode (self : BitcoinAnchor) : list byte :=
  [byte_from ANCHOR_ENCODING_VERSION; byte_from (network_id (wcash_network self));
   byte_from (source_id (source self)); byte_from RESERVED_BYTE] ++
  to_le 4 (bitcoin_height self) ++ bitcoin_block_hash self.

(** An indexed byte; out of range the source panics. *)
Definition byte_at {E} (l : list byte) (i : nat) : outcome E Z :=
  let? b := expect (l !! i) in Ok (byte_value b).

(** [BitcoinAnchor::decode]. *)
Definition decode (encoding : list byte) : outcome AnchorDecodeError BitcoinAnchor :=
  if negb (length encoding =? ANCHOR_ENCODING_LEN)%nat then Err (InvalidLength (len encoding))
  else
    let? version := byte_at encoding 0 in
    if negb (version =? ANCHOR_ENCODING_VERSION) then Err (UnknownVersion version)
    else
      let? network := byte_at encoding 1 in
      let? wcash_network := network_try_from network in
      let? chain := byte_at encoding 2 in
      let? source := source_try_from chain in
      let? reserved := byte_at encoding 3 in
      if negb (reserved =? RESERVED_BYTE) then Err (NonZeroReservedByte reserved)
      else
        Ok (mkAnchor wcash_network source (of_le (slice 4 8 encoding)) (drop 8 encoding)).

(** [BitcoinAnchor::genesis_statement]. *)
Definition genesis_statement (self : BitcoinAnchor) : string :=
  let height := pretty (Z.to_N (bitcoin_height self)) in
  let hash := display_hash (bitcoin_block_hash self) in
  match source self with
  | BitcoinMainnet => GENESIS_TIMESTAMP_TEXT +:+ " BTC #" +:+ height +:+ " " +:+ hash
  | ZcashTestnet => PUBLIC_TESTNET_GENESIS_TIMESTAMP_TEXT +:+ " ZECtest #" +:+ height +:+ " " +:+ hash
  | ZcashMainnet => "Wcash Mainnet ZEC #" +:+ height +:+ " " +:+ hash
  end.

(** [BitcoinAnchor::commitment]. *)
Definition personalization (s : AnchorSource) : list byte :=
  match s with
  | BitcoinMainnet => BITCOIN_ANCHOR_PERSONALIZATION
  | ZcashTestnet | ZcashMainnet => ZCASH_ANCHOR_PERSONALIZATION
  end.
Definition commitment `{Hashes} (self : BitcoinAnchor) : list byte :=
  blake2b (personalization (source self)) (encode self).

(** The frozen anchors. *)
Definition REGTEST_ANCHOR : BitcoinAnchor :=
  mkAnchor WcashRegtest BitcoinMainnet LOCAL_REGTEST_BITCOIN_HEIGHT
    [Byte.x46; Byte.xb1; Byte.x46; Byte.xd1; Byte.x92; Byte.x7c; Byte.x70; Byte.x4a; Byte.xd8; Byte.x5f;
     Byte.x0a; Byte.xde; Byte.x6f; Byte.x2c; Byte.x64; Byte.x98; Byte.xf0; Byte.x2f; Byte.x8d; Byte.xb2;
     Byte.xbd; Byte.xbb; Byte.x00; Byte.x00; Byte.x00; Byte.x00; Byte.x00; Byte.x00; Byte.x00; Byte.x00;
     Byte.x00; Byte.x00].
Definition TESTNET_ANCHOR : BitcoinAnchor :=
  mkAnchor WcashTestnet ZcashTestnet PUBLIC_TESTNET_ZCASH_HEIGHT
    [Byte.xac; Byte.x73; Byte.xde; Byte.x04; Byte.xd1; Byte.x4a; Byte.x53; Byte.x25; Byte.x29; Byte.xf2;
     Byte.x2e; Byte.x3c; Byte.x32; Byte.x94; Byte.xec; Byte.xab; Byte.xec; Byte.x90; Byte.x57; Byte.x58;
     Byte.x16; Byte.x7e; Byte.xb1; Byte.xee; Byte.x2f; Byte.x1d; Byte.xd2; Byte.x9a; Byte.x28; Byte.x0e;
     Byte.x00; Byte.x00].
Definition MAINNET_ANCHOR : BitcoinAnchor :=
  mkAnchor WcashMainnet ZcashMainnet PUBLIC_MAINNET_ZCASH_HEIGHT
    [Byte.x49; Byte.x5e; Byte.x75; Byte.x04; Byte.xad; Byte.x2f; Byte.x1f; Byte.xd7; Byte.x71; Byte.x2f;
     Byte.x43; Byte.x8a; Byte.x88; Byte.x98; Byte.x22; Byte.x59; Byte.xfe; Byte.x76; Byte.xb1; Byte.x1a;
     Byte.x10; Byte.x50; Byte.xbf; Byte.x17; Byte.x43; Byte.x3e; Byte.x46; Byte.x00; Byte.x00; Byte.x00;
     Byte.x00; Byte.x00].

(** ** Isolated Bitcoin headers *)

Inductive BitcoinPowError :=
| NegativeTarget | ZeroTarget | TargetOverflow | TargetAboveMainnetLimit | HashAboveTarget.

(** The loop of [decode_compact_target] that stores the three bytes. *)
Fixpoint place_bytes (index : Z) (bytes target : list byte) : outcome BitcoinPowError (list byte) :=
  match bytes with
  | [] => Ok target
  | b :: bytes =>
      if index <? 0 then
        if negb (byte_value b =? 0) then Err TargetOverflow else place_bytes (index + 1) bytes target
      else if index <? len target then place_bytes (index + 1) bytes (<[Z.to_nat index := b]> target)
      else if negb (byte_value b =? 0) then Err TargetOverflow
      else place_bytes (index + 1) bytes target
  end.

(** [decode_compact_target]: 32 big-endian bytes. *)
Definition decode_compact_target (bits : Z) : outcome BitcoinPowError (list byte) :=
  let size := Z.shiftr bits 24 in
  let word := Z.land bits 0x007fffff in
  if negb (Z.land bits 0x00800000 =? 0) then Err NegativeTarget
  else if word =? 0 then Err ZeroTarget
  else if (size >? 34) || ((word >? 0xff) && (size >? 33)) || ((word >? 0xffff) && (size >? 32))
  then Err TargetOverflow
  else
    let target := replicate 32 Byte.x00 in
    if size <=? 3 then
      let value := Z.shiftr word (8 * (3 - size)) in
      if value =? 0 then Err ZeroTarget
      else Ok (take 28 target ++ rev (to_le 4 value))
    else
      let? high := expect (u8_checked (Z.shiftr word 16)) in
      let? middle := expect (u8_checked (Z.land (Z.shiftr word 8) 0xff)) in
      let? low := expect (u8_checked (Z.land word 0xff)) in
      place_bytes (32 - size) [byte_from high; byte_from middle; byte_from low] target.

(** The order of byte arrays, [self > other]. *)
Fixpoint array_gt (self other : list byte) : bool :=
  match self, other with
  | a :: self, b :: other =>
      if byte_value a =? byte_value b then array_gt self other else byte_value a >? byte_value b
  | _ :: _, [] => true
  | [], _ => false
  end.

Definition BITCOIN_MAINNET_POW_LIMIT : list byte :=
  [Byte.x00; Byte.x00; Byte.x00; Byte.x00; Byte.xff; Byte.xff] ++ replicate 26 Byte.x00.

Section Header.
Context `{Hashes}.

(** [BitcoinHeader]: its hash, and the two fields that are read. *)
Definition header_block_hash (self : list byte) : list byte := Merkle.sha256d self.
Definition bits (self : list byte) : Z := of_le (slice 72 76 self).
Definition time (self : list byte) : Z := of_le (slice 68 72 self).

(** [BitcoinHeader::validate_isolated_mainnet_work]. *)
Definition validate_isolated_mainnet_work (self : list byte) : outcome BitcoinPowError unit :=
  let? target := decode_compact_target (bits self) in
  if array_gt target BITCOIN_MAINNET_POW_LIMIT then Err TargetAboveMainnetLimit
  else
    let hash := rev (header_block_hash self) in
    if array_gt hash target then Err HashAboveTarget else Ok tt.

(** [RegtestAnchorOverride::from_header]; the override is the anchor it holds. *)
Definition from_header (height : Z) (header : list byte) : outcome BitcoinPowError BitcoinAnchor :=
  do? validate_isolated_mainnet_work header in
  Ok (mkAnchor WcashRegtest BitcoinMainnet height (header_block_hash header)).
End Header.

(** [select_anchor]: no built-in network is disabled. *)
Definition select_anchor (network : WcashNetwork) (regtest_override : option BitcoinAnchor) : BitcoinAnchor :=
  match network with
  | WcashMainnet => MAINNET_ANCHOR
  | WcashTestnet => TESTNET_ANCHOR
  | WcashRegtest =>
      match regtest_override with
      | Some anchor_override => anchor_override
      | None => REGTEST_ANCHOR
      end
  end.
End Genesis.

(** ** Big-endian numbers *)

Section BigEndian.
Import Genesis.

Definition of_be (l : list byte) : Z := of_le (rev l).

Lemma byte_value_unsigned b : byte_value b = byte.unsigned b.
Proof. by destruct b. Qed.

Lemma byte_value_range b : 0 <= byte_value b < 256.
Proof. apply (of_le_bound [b]). Qed.

Lemma byte_value_from z : 0 <= z < 256 -> byte_value (byte_from z) = z.
Proof.
  intros Hz. unfold byte_from. rewrite byte_value_unsigned, byte.unsigned_of_Z. unfold byte.wrap.
  by rewrite Z.mod_small.
Qed.

Lemma byte_from_value b : byte_from (byte_value b) = b.
Proof. unfold byte_from. rewrite byte_value_unsigned. apply byte.of_Z_unsigned. Qed.

Lemma byte_value_inj a b : byte_value a = byte_value b -> a = b.
Proof. intros E. by rewrite <- (byte_from_value a), E, byte_from_value. Qed.

Lemma of_be_cons b l : of_be (b :: l) = byte_value b * 256 ^ len l + of_be l.
Proof.
  unfold of_be. cbn [rev]. rewrite of_le_snoc, length_rev.
  change 256 with (2 ^ 8). rewrite <- Z.pow_mul_r by lia. unfold byte_value. lia.
Qed.

Lemma of_be_bound l : 0 <= of_be l < 256 ^ len l.
Proof.
  unfold of_be. pose proof (of_le_bound (rev l)) as H. rewrite length_rev in H.
  change 256 with (2 ^ 8). by rewrite <- Z.pow_mul_r by lia.
Qed.

Lemma of_be_zeros n : of_be (replicate n Byte.x00) = 0.
Proof. induction n as [|n IH]; [done|]. cbn [replicate]. rewrite of_be_cons, IH. done. Qed.

Lemma of_be_app l1 l2 : of_be (l1 ++ l2) = of_be l1 * 256 ^ len l2 + of_be l2.
Proof.
  induction l1 as [|b l1 IH]; [done|]. cbn [app]. rewrite !of_be_cons, IH, length_app, Nat2Z.inj_add.
  rewrite Z.pow_add_r by lia. ring.
Qed.

Lemma of_be_insert (i : nat) b l :
  l !! i = Some Byte.x00 ->
  of_be (<[i := b]> l) = of_be l + byte_value b * 256 ^ (len l - 1 - Z.of_nat i).
Proof.
  revert i. induction l as [|c l IH]; intros i; [done|]. destruct i as [|i]; cbn [lookup list_lookup].
  - intros [= ->]. cbn [insert list_insert]. rewrite !of_be_cons.
    change (byte_value Byte.x00) with 0. cbn [length]. replace (Z.of_nat (S (length l)) - 1 - Z.of_nat 0) with (len l) by lia. lia.
  - intros Hi. change (<[S i := b]> (c :: l)) with (c :: <[i := b]> l). rewrite !of_be_cons, length_insert, IH by done.
    cbn [length]. replace (Z.of_nat (S (length l)) - 1 - Z.of_nat (S i)) with (len l - 1 - Z.of_nat i) by lia. lia.
Qed.

(** Arrays of one length compare as big-endian numbers. *)
Lemma array_gt_spec a b : length a = length b -> array_gt a b = (of_be a >? of_be b).
Proof.
  revert b. induction a as [|x a IH]; intros [|y b] Hl; try done. injection Hl as Hl.
  cbn [array_gt]. rewrite !of_be_cons, Hl.
  pose proof (of_be_bound a) as Ha. pose proof (of_be_bound b) as Hb. rewrite Hl in Ha.
  destruct (Z.eqb_spec (byte_value x) (byte_value y)) as [->|Hne].
  - rewrite (IH _ Hl). destruct (Z.gtb_spec (of_be a) (of_be b)), (Z.gtb_spec (byte_value y * 256 ^ len b + of_be a)
      (byte_value y * 256 ^ len b + of_be b)); lia.
  - destruct (Z.gtb_spec (byte_value x) (byte_value y)), (Z.gtb_spec (byte_value x * 256 ^ len b + of_be a)
      (byte_value y * 256 ^ len b + of_be b)); try done; nia.
Qed.
End BigEndian.

(** ** Anchors *)

Section Anchors.
Import Genesis.

(** The fields fit the source's types. *)
Definition anchor_ok (a : BitcoinAnchor) : Prop :=
  0 <= bitcoin_height a <= U32_MAX /\ length (bitcoin_block_hash a) = 32%nat.

Lemma network_try_from_Ok z n : network_try_from z = Ok n <-> z = network_id n.
Proof.
  unfold network_try_from. destruct (Z.eqb_spec z 0), (Z.eqb_spec z 1), (Z.eqb_spec z 2);
    destruct n; cbn; split; congruence.
Qed.

Lemma source_try_from_Ok z s : source_try_from z = Ok s <-> z = source_id s.
Proof.
  unfold source_try_from. destruct (Z.eqb_spec z 0), (Z.eqb_spec z 1), (Z.eqb_spec z 2);
    destruct s; cbn; split; congruence.
Qed.

Lemma byte_at_Ok {E} l i z : byte_at (E:=E) l i = Ok z <-> exists b, l !! i = Some b /\ byte_value b = z.
Proof. unfold byte_at. destruct (l !! i); cbn [expect obind]; naive_solver. Qed.

Lemma anchor_decode_Ok bs a : decode bs = Ok a <-> anchor_ok a /\ bs = encode a.
Proof.
  unfold decode, anchor_ok. split.
  - destruct (Nat.eqb_spec (length bs) ANCHOR_ENCODING_LEN) as [Hl|]; [|done]. cbn [negb].
    intros D. apply obind_Ok in D as (v & Hv%byte_at_Ok & D). destruct (Z.eqb_spec v ANCHOR_ENCODING_VERSION) as [->|]; [|done].
    apply obind_Ok in D as (n & Hn%byte_at_Ok & D). apply obind_Ok in D as (net & ->%network_try_from_Ok & D).
    apply obind_Ok in D as (c & Hc%byte_at_Ok & D). apply obind_Ok in D as (src & ->%source_try_from_Ok & D).
    apply obind_Ok in D as (r & Hr%byte_at_Ok & D). destruct (Z.eqb_spec r RESERVED_BYTE) as [->|]; [|done].
    injection D as <-. cbn [bitcoin_height bitcoin_block_hash].
    destruct Hv as (b0 & H0 & E0), Hn as (b1 & H1 & E1), Hc as (b2 & H2 & E2), Hr as (b3 & H3 & E3).
    do 4 (destruct bs as [|? bs]; [done|]). cbn in H0, H1, H2, H3. simplify_eq.
    cbn [length] in Hl. change (slice 4 8 _) with (take 4 bs). change (drop 8 _) with (drop 4 bs).
    assert (length (take 4 bs) = 4%nat) as Ht by (rewrite length_take_le; [done|unfold ANCHOR_ENCODING_LEN in Hl; lia]).
    split; [split|].
    + pose proof (of_le_bound (take 4 bs)) as Hb. rewrite Ht in Hb. bool_lia.
    + rewrite length_drop. unfold ANCHOR_ENCODING_LEN in Hl. lia.
    + unfold encode. cbn [wcash_network source bitcoin_height bitcoin_block_hash].
      rewrite <- E0, <- E1, <- E2, <- E3, !byte_from_value, (to_of_le 4), take_drop by done. done.
  - intros [[Hh Hl] ->]. destruct a as [net src h hash]. cbn [bitcoin_height bitcoin_block_hash] in *. unfold encode.
    cbn [wcash_network source bitcoin_height bitcoin_block_hash].
    assert (length (to_le 4 h ++ hash) = 36%nat) as L by (rewrite length_app, length_le_split; lia).
    rewrite (length_app _ (to_le 4 h ++ hash)), L. cbn [length Nat.add Nat.eqb ANCHOR_ENCODING_LEN negb].
    unfold byte_at. cbn [app lookup list_lookup expect obind]. rewrite (byte_value_from ANCHOR_ENCODING_VERSION) by done.
    cbn [Z.eqb ANCHOR_ENCODING_VERSION Pos.eqb negb].
    rewrite byte_value_from by (destruct net; simpl; lia).
    rewrite (proj2 (network_try_from_Ok _ net)) by done. cbn [obind].
    rewrite byte_value_from by (destruct src; simpl; lia).
    rewrite (proj2 (source_try_from_Ok _ src)) by done. cbn [obind].
    rewrite (byte_value_from RESERVED_BYTE) by done. cbn [Z.eqb RESERVED_BYTE negb].
    change (slice 4 8 _) with (take 4 (to_le 4 h ++ hash)). change (drop 8 _) with (drop 4 (to_le 4 h ++ hash)).
    rewrite take_app_length', drop_app_length' by (by rewrite length_le_split).
    by rewrite of_to_le by (unfold_widths; lia).
Qed.

Lemma decode_returns bs : returns (decode bs).
Proof.
  unfold decode. destruct (Nat.eqb_spec (length bs) ANCHOR_ENCODING_LEN) as [Hl|]; [|done]. cbn [negb].
  unfold ANCHOR_ENCODING_LEN in Hl. do 4 (destruct bs as [|? bs]; [done|]).
  unfold byte_at. cbn [lookup list_lookup expect obind].
  unfold network_try_from, source_try_from. repeat case_match; done.
Qed.
End Anchors.

(** ** The compact target of a Bitcoin header *)

Section CompactTarget.
Import Genesis.

(** A byte stored at an index of the zero part of the target. *)
Lemma place_at index b bytes target :
  0 <= index < len target -> target !! Z.to_nat index = Some Byte.x00 ->
  place_bytes index (b :: bytes) target =
    place_bytes (index + 1) bytes (<[Z.to_nat index := b]> target) /\
  of_be (<[Z.to_nat index := b]> target) = of_be target + byte_value b * 256 ^ (len target - 1 - index).
Proof.
  intros Hi Hz. cbn [place_bytes]. rewrite (proj2 (Z.ltb_ge index 0)), (proj2 (Z.ltb_lt index _)) by lia.
  split; [done|]. rewrite of_be_insert by done. by rewrite Z2Nat.id by lia.
Qed.

Lemma place_before index b bytes target :
  index < 0 -> byte_value b = 0 ->
  place_bytes index (b :: bytes) target = place_bytes (index + 1) bytes target.
Proof. intros Hi Hb. cbn [place_bytes]. by rewrite (proj2 (Z.ltb_lt index 0)), Hb by lia. Qed.

(** The three bytes of a mantissa, stored from [32 - size]. *)
Lemma place_mantissa size h m l :
  4 <= size <= 34 -> (size = 33 \/ size = 34 -> byte_value h = 0) -> (size = 34 -> byte_value m = 0) ->
  exists target, place_bytes (32 - size) [h; m; l] (replicate 32 Byte.x00) = Ok target /\
    length target = 32%nat /\
    of_be target = (byte_value h * 65536 + byte_value m * 256 + byte_value l) * 256 ^ (size - 3).
Proof.
  intros Hs Hh Hm. assert (forall n, (n < 32)%nat -> replicate 32 Byte.x00 !! n = Some Byte.x00) as Hz.
  { intros n Hn. by apply lookup_replicate_2. }
  assert (256 ^ (size - 3) * 256 = 256 ^ (size - 2)) as P2.
  { replace (size - 2) with (size - 3 + 1) by lia. by rewrite Z.pow_add_r by lia. }
  assert (256 ^ (size - 2) * 256 = 256 ^ (size - 1)) as P1.
  { replace (size - 1) with (size - 2 + 1) by lia. by rewrite Z.pow_add_r by lia. }
  set (t := replicate 32 Byte.x00) in *. assert (len t = 32) as Lt by done.
  assert (forall t' index b bytes, len t' = 32 -> 0 <= index < 32 -> t' !! Z.to_nat index = Some Byte.x00 ->
    place_bytes index (b :: bytes) t' = place_bytes (index + 1) bytes (<[Z.to_nat index := b]> t') /\
    of_be (<[Z.to_nat index := b]> t') = of_be t' + byte_value b * 256 ^ (31 - index)) as Hplace.
  { intros t' index b bytes Ht Hi Hl. destruct (place_at index b bytes t') as [-> ->]; [lia|done|].
    rewrite Ht. split; [done|]. replace (32 - 1 - index) with (31 - index) by lia. done. }
  assert (of_be t = 0) as Vt by apply of_be_zeros.
  destruct (Z.le_gt_cases size 32) as [Hle|Hgt].
  - destruct (Hplace t (32 - size) h [m; l]) as [-> V1]; [done|lia|apply Hz; lia|].
    edestruct (Hplace (<[Z.to_nat (32 - size) := h]> t) (32 - size + 1) m [l]) as [-> V2];
      [by rewrite length_insert|lia|rewrite list_lookup_insert_ne by lia; apply Hz; lia|].
    edestruct (Hplace (<[Z.to_nat (32 - size + 1) := m]> (<[Z.to_nat (32 - size) := h]> t)) (32 - size + 1 + 1) l [])
      as [-> V3]; [by rewrite !length_insert|lia|rewrite !list_lookup_insert_ne by lia; apply Hz; lia|].
    eexists. split; [done|]. rewrite !length_insert. split; [done|]. rewrite V3, V2, V1, Vt.
    replace (31 - (32 - size)) with (size - 1) by lia. replace (31 - (32 - size + 1)) with (size - 2) by lia.
    replace (31 - (32 - size + 1 + 1)) with (size - 3) by lia. lia.
  - rewrite place_before by (lia || apply Hh; lia). rewrite Hh by lia.
    destruct (Z.eq_dec size 33) as [->|]; [|assert (size = 34) as -> by lia].
    + destruct (Hplace t (32 - 33 + 1) m [l]) as [-> V2]; [done|lia|apply Hz; lia|].
      edestruct (Hplace (<[Z.to_nat (32 - 33 + 1) := m]> t) (32 - 33 + 1 + 1) l []) as [-> V3];
        [by rewrite length_insert|lia|rewrite list_lookup_insert_ne by lia; apply Hz; lia|].
      eexists. split; [done|]. rewrite !length_insert. split; [done|]. rewrite V3, V2, Vt.
      change (31 - (32 - 33 + 1)) with (33 - 2). change (31 - (32 - 33 + 1 + 1)) with (33 - 3). lia.
    + rewrite place_before by (lia || apply Hm; lia). rewrite Hm by lia.
      destruct (Hplace t (32 - 34 + 1 + 1) l []) as [-> V3]; [done|lia|apply Hz; lia|].
      eexists. split; [done|]. rewrite !length_insert. split; [done|]. rewrite V3, Vt.
      change (31 - (32 - 34 + 1 + 1)) with (34 - 3). lia.
Qed.

(** The bytes of a 23-bit mantissa. *)
Lemma mantissa_bytes {E A} word (k : list byte -> outcome E A) :
  0 <= word < 2 ^ 23 ->
  exists h m l, byte_value h = word / 65536 /\ byte_value m = word / 256 mod 256 /\ byte_value l = word mod 256 /\
    (let? high := expect (u8_checked (Z.shiftr word 16)) in
     let? middle := expect (u8_checked (Z.land (Z.shiftr word 8) 0xff)) in
     let? low := expect (u8_checked (Z.land word 0xff)) in
     k [byte_from high; byte_from middle; byte_from low]) = k [h; m; l].
Proof.
  intros Hw. change 0xff with (2 ^ 8 - 1). rewrite !land_ones_mod, !Z.shiftr_div_pow2 by lia.
  change (2 ^ 16) with 65536. change (2 ^ 8) with 256.
  assert (0 <= word / 65536 < 256) by (split; [apply Z.div_pos|apply Z.div_lt_upper_bound]; lia).
  pose proof (Z.mod_pos_bound (word / 256) 256). pose proof (Z.mod_pos_bound word 256).
  rewrite !checked_ok by bool_lia. cbn [expect obind].
  eexists _, _, _. split_and!; [..|done]; apply byte_value_from; lia.
Qed.

Lemma mantissa_sum word : 0 <= word -> word / 65536 * 65536 + word / 256 mod 256 * 256 + word mod 256 = word.
Proof.
  intros Hw. change 65536 with (256 * 256). rewrite <- Z.div_div by lia.
  pose proof (Z.div_mod word 256). pose proof (Z.div_mod (word / 256) 256). lia.
Qed.

(** The node's decoder sees the same target. *)
Lemma decode_compact_spec {E} x :
  0 <= x <= U32_MAX ->
  match decode_compact_target x with
  | Ok target => length target = 32%nat /\ CompactDifficulty.to_expanded (E:=E) x = Ok (Some (of_be target))
  | Err _ => CompactDifficulty.to_expanded (E:=E) x = Ok None
  | Panic => False
  end.
Proof.
  intros Hx. rewrite to_expanded_target by done. cbv zeta. unfold to_target, decode_compact_target.
  change 0x007fffff with (2 ^ 23 - 1). change 0x00800000 with (2 ^ 23).
  rewrite land_pow2, land_ones_mod, Z.shiftr_div_pow2 by lia. destruct (Z.testbit x 23); [done|].
  change (negb (0 =? 0)) with false. cbn iota.
  pose proof (Z.mod_pos_bound x (2 ^ 23) ltac:(lia)) as Hw. set (word := x mod 2 ^ 23) in *.
  assert (0 <= x / 2 ^ 24 <= 255) as Hs.
  { split; [apply Z.div_pos; lia|]. apply Z.lt_succ_r, Z.div_lt_upper_bound; bool_lia. }
  set (size := x / 2 ^ 24) in *. destruct (Z.eqb_spec word 0) as [->|Hw0]; [done|].
  destruct (_ || _) eqn:Ho.
  { rewrite scaled_high by lia. symmetry. apply overflow_none. right.
    destruct (Z.gtb_spec size 34); [|destruct (Z.gtb_spec size 33); [|]].
    - apply (scaled_overflow _ _ 1); [lia..|]. pose proof (pow_pos_le 256 32 (size - 3) ltac:(lia) ltac:(lia)).
      change (256 ^ 32) with (U256_MAX + 1) in *. lia.
    - assert (size - 3 = 31) as -> by lia. apply (scaled_overflow _ _ 256); [lia|lia|lia|by vm_compute].
    - assert (size - 3 = 30) as -> by lia. apply (scaled_overflow _ _ 65536); [lia|lia|lia|by vm_compute]. }
  destruct (Z.leb_spec size 3) as [Hlow|Hhigh].
  - assert (Z.shiftr word (8 * (3 - size)) = word * 256 ^ size / 256 ^ 3) as ->.
    { destruct (Z.eq_dec size 3) as [->|]; [by rewrite Z.div_mul, Z.shiftr_0_r by lia|].
      rewrite scaled_low by lia. f_equal. lia. }
    set (v := word * 256 ^ size / 256 ^ 3). assert (0 <= v <= word) as Hv.
    { pose proof (pow_pos_le 256 size 3 ltac:(lia) ltac:(lia)). pose proof (Z.pow_pos_nonneg 256 size ltac:(lia) ltac:(lia)).
      split; [apply Z.div_pos; lia|]. apply Z.div_le_upper_bound; nia. }
    destruct (Z.eqb_spec v 0) as [->|]; [done|].
    split; [done|]. rewrite of_be_app. change (take 28 _) with (replicate 28 Byte.x00). rewrite of_be_zeros.
    unfold of_be. rewrite rev_involutive, of_to_le by lia.
    rewrite (proj2 (Z.ltb_lt 0 v)), (proj2 (Z.leb_le v _)) by bool_lia. done.
  - destruct (mantissa_bytes word (fun bytes => place_bytes (32 - size) bytes (replicate 32 Byte.x00)) Hw)
      as (h & m & l & Eh & Em & El & ->).
    destruct (place_mantissa size h m l) as (target & -> & Hl & Hv); [lia| | |].
    + intros ?. rewrite Eh. apply Z.div_small. lia.
    + intros ->. rewrite Em, Z.div_small; [done|]. lia.
    + split; [done|]. rewrite Eh, Em, El, mantissa_sum in Hv by lia. rewrite scaled_high, <- Hv by lia.
      pose proof (of_be_bound target) as Hb. rewrite Hl in Hb. change (256 ^ Z.of_nat 32) with (U256_MAX + 1) in Hb.
      assert (0 < of_be target) by (rewrite Hv; pose proof (Z.pow_pos_nonneg 256 (size - 3)); nia).
      rewrite (proj2 (Z.ltb_lt 0 _)), (proj2 (Z.leb_le (of_be target) _)) by lia. done.
Qed.
End CompactTarget.

(** ** Display and parsing of hashes *)

Section Hex.
Import Genesis.

Lemma decode_hex_digit v : 0 <= v < 16 -> decode_nibble (hex_digit v) = Some v.
Proof.
  intros Hv.
  assert (forallb (fun v => bool_decide (decode_nibble (hex_digit v) = Some v)) (seqZ 0 16) = true) as F by by_eval.
  rewrite forallb_forall in F. eapply bool_decide_unpack, Is_true_true, F, list_elem_of_In, elem_of_seqZ. lia.
Qed.

Lemma parse_hex_byte index b rest :
  parse_pairs index (hex_byte b ++ rest) = (let? l := parse_pairs (index + 1) rest in Ok (b :: l)).
Proof.
  pose proof (byte_value_range b) as Hb. unfold hex_byte. cbn [app parse_pairs].
  pose proof (Z.mod_pos_bound (byte_value b) 16 ltac:(lia)) as Hm.
  assert (0 <= byte_value b / 16 < 16) by (split; [apply Z.div_pos|apply Z.div_lt_upper_bound]; lia).
  rewrite !decode_hex_digit by lia. cbn [ok_or obind]. rewrite Z.lor_comm, lor_shiftl by (simpl; lia).
  assert (byte_value b mod 16 + byte_value b / 16 * 2 ^ 4 = byte_value b) as ->.
  { pose proof (Z.div_mod (byte_value b) 16). lia. }
  by rewrite byte_from_value.
Qed.

Lemma parse_hex_bytes index l : parse_pairs index (flat_map hex_byte l) = Ok l.
Proof.
  revert index. induction l as [|b l IH]; intros index; [done|]. cbn [flat_map].
  by rewrite parse_hex_byte, IH.
Qed.

Lemma length_hex_bytes l : length (flat_map hex_byte l) = (2 * length l)%nat.
Proof. induction l as [|b l IH]; [done|]. cbn [flat_map]. rewrite length_app, IH. cbn [hex_byte length]. lia. Qed.

(** A displayed hash parses back to its bytes. *)
Lemma hash_display_roundtrip hash : length hash = 32%nat -> hash_from_str (display_hash hash) = Ok hash.
Proof.
  intros Hl. unfold hash_from_str, display_hash, parse_hex_array, bytes_of.
  rewrite String.list_byte_of_string_of_list_byte.
  rewrite length_hex_bytes, length_rev, Hl.
  change (Z.of_nat 32 * 2) with 64. change (Z.of_nat (2 * 32)) with 64. rewrite checked_ok by bool_lia.
  cbn [expect obind]. rewrite Z.eqb_refl. cbn [negb]. rewrite parse_hex_bytes. cbn [obind]. by rewrite rev_involutive.
Qed.
End Hex.

(** ** The properties of anchors *)

Section AnchorProperties.
Import Genesis.
Context `{Hashes}.

(** The anchor of a genesis block has one encoding and belongs to one
    network.  Forty bytes decode to an anchor exactly when they are its encoding,
    what decodes is well formed, and no bytes make the decoder panic.  The anchor
    selected for a network names that network, whatever header an override was
    made from, so the genesis commitments of two networks are hashes of different
    strings. *)
Theorem anchor_codec_exact a :
  anchor_ok a ->
  (forall bs, returns (decode bs)) /\
  (forall bs, decode bs = Ok a <-> bs = encode a) /\
  (forall bs c, decode bs = Ok c -> anchor_ok c /\ encode c = bs) /\
  (forall network network' o o',
    (forall x, o = Some x \/ o' = Some x -> exists height header, from_header height header = Ok x) ->
    wcash_network (select_anchor network o) = network /\
    (encode (select_anchor network o) = encode (select_anchor network' o') -> network = network')).
Proof.
  intros Ha. split_and!.
  - apply decode_returns.
  - intros bs. rewrite anchor_decode_Ok. naive_solver.
  - by intros bs c [Hc ->]%anchor_decode_Ok.
  - intros n n' o o' Ho.
    assert (forall n o, (forall x, o = Some x -> exists height header, from_header height header = Ok x) ->
      wcash_network (select_anchor n o) = n) as Hsel.
    { intros [] o0 H0; try done. destruct o0 as [x|]; [|done]. destruct (H0 x eq_refl) as (h & hd & F).
      unfold from_header in F. by apply obind_Ok in F as (? & _ & [= <-]). }
    rewrite Hsel by eauto. split; [done|]. intros E. apply (f_equal (fun l => l !! 1%nat)) in E.
    unfold encode in E. cbn in E. injection E as E. apply (f_equal byte_value) in E.
    rewrite !Hsel in E by eauto. by destruct n, n'.
Qed.

(** The work of an isolated Bitcoin header is checked exactly.  The header
    is accepted if and only if its compact target, as the node itself reads it,
    exists, is at most the Bitcoin limit and is at least the double SHA-256 of
    the header read as a little-endian number; nothing panics. *)
Theorem isolated_work_exact header :
  length header = BITCOIN_HEADER_LEN ->
  returns (validate_isolated_mainnet_work header) /\
  (validate_isolated_mainnet_work header = Ok tt <->
   exists t, CompactDifficulty.to_expanded (E:=unit) (bits header) = Ok (Some t) /\
     t <= 0xffff * 256 ^ 26 /\ of_le (Merkle.sha256d header) <= t).
Proof.
  intros Hl. assert (0 <= bits header <= U32_MAX) as Hb.
  { unfold bits, slice. pose proof (of_le_bound (take (76 - 72) (drop 72 header))) as Hb.
    rewrite length_take_le in Hb; [change (2 ^ _) with 4294967296 in Hb; bool_lia|]. rewrite length_drop, Hl. unfold BITCOIN_HEADER_LEN. lia. }
  unfold validate_isolated_mainnet_work. pose proof (decode_compact_spec (E:=unit) _ Hb) as D.
  destruct (decode_compact_target (bits header)) as [target|e|]; [|split; [done|]|done].
  2:{ split; [done|]. intros (t & Ht & _). congruence. }
  destruct D as [Ht D]. cbn [obind]. rewrite array_gt_spec by done.
  change (of_be BITCOIN_MAINNET_POW_LIMIT) with (0xffff * 256 ^ 26). rewrite array_gt_spec.
  2:{ rewrite Ht, length_rev. apply sha256_length. }
  unfold header_block_hash. assert (of_be (rev (Merkle.sha256d header)) = of_le (Merkle.sha256d header)) as ->.
  { unfold of_be. by rewrite rev_involutive. }
  split; [by repeat case_match|]. rewrite D.
  destruct (Z.gtb_spec (of_be target) (0xffff * 256 ^ 26)).
  { split; [done|]. intros (t & [= <-] & ? & _). lia. }
  destruct (Z.gtb_spec (of_le (Merkle.sha256d header)) (of_be target)).
  - split; [done|]. intros (t & [= <-] & _ & ?). lia.
  - split; [|done]. intros _. by exists (of_be target).
Qed.
End AnchorProperties.

(** ** Concrete anchors *)

Section Examples.
Import Genesis.

(** Hash functions with one digest. *)
Definition zero_hashes : Hashes := {|
  sha256 _ := replicate 32 Byte.x00;
  blake2b _ _ := replicate 32 Byte.x00;
  sha256_length _ := eq_refl;
  blake2b_length _ _ := eq_refl;
|}.

Lemma anchor_codec_exact_witness :
  decode (encode MAINNET_ANCHOR) = Ok MAINNET_ANCHOR /\
  wcash_network (select_anchor WcashTestnet None) = WcashTestnet.
Proof.
  assert (anchor_ok MAINNET_ANCHOR) as Hok by (split; [by_eval|reflexivity]).
  destruct (anchor_codec_exact (H := zero_hashes) MAINNET_ANCHOR Hok) as (_ & D & _ & S). split.
  - apply D. reflexivity.
  - destruct (S WcashTestnet WcashTestnet None None) as [N _]; [|exact N]. intros x [F|F]; discriminate F.
Defined.

(** A header with an easy target under a hash that is zero. *)
Definition example_bitcoin_header : list byte :=
  replicate 72 Byte.x00 ++ [Byte.xff; Byte.xff; Byte.x00; Byte.x1d] ++ replicate 4 Byte.x00.

Lemma isolated_work_exact_witness :
  validate_isolated_mainnet_work (H := zero_hashes) example_bitcoin_header = Ok tt.
Proof.
  assert (length example_bitcoin_header = BITCOIN_HEADER_LEN) as Hl by reflexivity.
  destruct (isolated_work_exact (H := zero_hashes) example_bitcoin_header Hl) as [_ [_ W]].
  apply W. exists (0xffff * 256 ^ 26). split; [vm_compute; reflexivity|]. by_eval.
Defined.
End Examples.
