(* ===== verification/NoteTrees.v ===== *)
(** * Note commitment trees

    [zebra-chain/src/sapling/tree.rs], [orchard/tree.rs] and [sprout/tree.rs]:
    the incremental note commitment tree of a shielded pool, a frontier with a
    cached root; [zebra-chain/src/subtree.rs]: the subtrees of [2^16] leaves;
    and [zebra-chain/src/parallel/tree.rs]: the update of the four trees by the
    note commitments of a block.

    The frontier is the type of the [incrementalmerkletree] package: a
    parameter, with its documented behaviour as the laws of a class.  The
    theorems show that the cache is never stale, that a tree takes notes until
    its capacity and no further, and that the subtree test, which only looks at
    positions, agrees with counting the complete subtrees.  What the chain
    needs of a tree is the class [PoolTree]; the trees of this file are an
    instance of it. *)

From S2P Require Import Prelude.

(** [TRACKED_SUBTREE_HEIGHT]. *)
Definition TRACKED_SUBTREE_HEIGHT : Z := 16.

(** [enum sapling::tree::NoteCommitmentTreeError]. *)
Inductive TreeError := FullTree.

(** [NoteCommitmentSubtree] and [NoteCommitmentSubtreeData]. *)
Record NoteCommitmentSubtree (Node : Type) := mkSubtree {
  index : Z;
  subtree_root : Node;
  end_height : Z;
}.
Arguments mkSubtree {Node}.
Arguments index {Node}.
Arguments subtree_root {Node}.
Arguments end_height {Node}.

Record NoteCommitmentSubtreeData (Node : Type) := mkSubtreeData {
  data_root : Node;
  data_end_height : Z;
}.
Arguments mkSubtreeData {Node}.
Arguments data_root {Node}.
Arguments data_end_height {Node}.

Definition into_data {Node} (self : NoteCommitmentSubtree Node) : NoteCommitmentSubtreeData Node :=
  mkSubtreeData (subtree_root self) (end_height self).
Definition with_index {Node} (self : NoteCommitmentSubtreeData Node) (i : Z) : NoteCommitmentSubtree Node :=
  mkSubtree i (data_root self) (data_end_height self).

(** [incrementalmerkletree::frontier::Frontier], its positions and the
    addresses of its subtrees. *)
Class Frontier (F Node Root : Type) := {
  frontier_empty : F;
  frontier_position : F -> option Z;
  frontier_append : F -> Node -> bool * F;
  frontier_root : F -> Root;
  frontier_subtree_root : F -> Z -> Node;
  position_is_complete_subtree : Z -> Z -> bool;
  address_index_above_position : Z -> Z -> Z;
  address_max_position : Z -> Z -> Z;
  address_range_start : Z -> Z -> Z;
  address_range_end : Z -> Z -> Z;
}.

(** The number of leaves of a frontier. *)
Definition leaves {F Node Root} `{Frontier F Node Root} (f : F) : Z :=
  match frontier_position f with None => 0 | Some p => p + 1 end.

(** The documented behaviour of a frontier of depth [depth]: positions count
    the leaves from zero, [append] fails exactly on a full tree, and a position
    completes a subtree when it is the last one of the subtree's range. *)
Class FrontierLaws (F Node Root : Type) (depth : Z) `{Frontier F Node Root} := {
  depth_bounds : 0 <= depth <= 32;
  leaves_empty : frontier_position frontier_empty = None;
  position_bounds f p : frontier_position f = Some p -> 0 <= p < 2 ^ depth;
  append_ok f n : leaves f < 2 ^ depth ->
    exists f', frontier_append f n = (true, f') /\ leaves f' = leaves f + 1;
  append_full f n : leaves f = 2 ^ depth -> frontier_append f n = (false, f);
  complete_position p level : 0 <= p -> 0 <= level ->
    position_is_complete_subtree p level = bool_decide ((p + 1) mod 2 ^ level = 0);
  index_above p level : 0 <= p -> 0 <= level -> address_index_above_position level p = p / 2 ^ level;
  max_above p level : 0 <= p -> 0 <= level ->
    address_max_position level p = (p / 2 ^ level + 1) * 2 ^ level - 1;
  range_start_above p level : 0 <= p -> 0 <= level ->
    address_range_start level p = p / 2 ^ level * 2 ^ level;
  range_end_above p level : 0 <= p -> 0 <= level ->
    address_range_end level p = (p / 2 ^ level + 1) * 2 ^ level;
}.

Section Tree.
Context {F Node Root : Type} `{EqDecision F, EqDecision Root} `{FR : Frontier F Node Root}.

(** [struct NoteCommitmentTree]. *)
Record NoteCommitmentTree := mkTree {
  inner : F;
  cached_root : option Root;
}.

(** [NoteCommitmentTree::default]. *)
Definition default_tree : NoteCommitmentTree := mkTree frontier_empty None.

(** [NoteCommitmentTree::append]. *)
Definition append (self : NoteCommitmentTree) (cm : Node) : outcome TreeError NoteCommitmentTree :=
  let '(appended, inner) := frontier_append (inner self) cm in
  if appended then Ok (mkTree inner None) else Err FullTree.

(** [NoteCommitmentTree::recalculate_root]. *)
Definition recalculate_root (self : NoteCommitmentTree) : Root := frontier_root (inner self).

(** [NoteCommitmentTree::root]: the root, and the tree with the root cached. *)
Definition root (self : NoteCommitmentTree) : Root * NoteCommitmentTree :=
  match cached_root self with
  | Some r => (r, self)
  | None => let r := recalculate_root self in (r, mkTree (inner self) (Some r))
  end.

(** [NoteCommitmentTree::position] and [NoteCommitmentTree::count]. *)
Definition position (self : NoteCommitmentTree) : option Z := frontier_position (inner self).
Definition count (self : NoteCommitmentTree) : Z :=
  match frontier_position (inner self) with None => 0 | Some p => p + 1 end.

(** [NoteCommitmentTree::is_complete_subtree]. *)
Definition is_complete_subtree (self : NoteCommitmentTree) : bool :=
  match frontier_position (inner self) with
  | None => false
  | Some p => position_is_complete_subtree p TRACKED_SUBTREE_HEIGHT
  end.

(** [NoteCommitmentTree::subtree_index]; the index must fit in a [u16]. *)
Definition subtree_index {E} (self : NoteCommitmentTree) : outcome E (option Z) :=
  match frontier_position (inner self) with
  | None => Ok None
  | Some p =>
      let? i := expect (checked 0 U16_MAX (address_index_above_position TRACKED_SUBTREE_HEIGHT p)) in
      Ok (Some i)
  end.

(** [NoteCommitmentTree::contains_new_subtree]. *)
Definition contains_new_subtree {E} (self prev_tree : NoteCommitmentTree) : outcome E bool :=
  let? self_index := subtree_index self in
  let? prev_tree_index := subtree_index prev_tree in
  let index := default (-1) self_index in
  let prev_index := default (-1) prev_tree_index in
  let index_difference := index - prev_index in
  Ok (if index <? prev_index then false
      else if 1 <? index_difference then true
      else if index =? prev_index then is_complete_subtree self
      else if is_complete_subtree self then true
      else if is_complete_subtree prev_tree || (prev_index =? -1) then false
      else true).

(** [NoteCommitmentTree::remaining_subtree_leaf_nodes]. *)
Definition remaining_subtree_leaf_nodes {E} (self : NoteCommitmentTree) : outcome E Z :=
  let? remaining :=
    match frontier_position (inner self) with
    | Some p => Ok (address_max_position TRACKED_SUBTREE_HEIGHT p - p)
    | None =>
        do? assert_that (address_range_start TRACKED_SUBTREE_HEIGHT 0 =? 0) in
        Ok (address_range_end TRACKED_SUBTREE_HEIGHT 0)
    end in
  expect (checked 0 USIZE_MAX remaining).

(** [NoteCommitmentTree::completed_subtree_index_and_root]. *)
Definition completed_subtree_index_and_root {E} (self : NoteCommitmentTree) :
    outcome E (option (Z * Node)) :=
  if negb (is_complete_subtree self) then Ok None
  else
    let? i := subtree_index self in
    Ok (match i, frontier_position (inner self) with
        | Some i, Some _ => Some (i, frontier_subtree_root (inner self) TRACKED_SUBTREE_HEIGHT)
        | _, _ => None
        end).

(** [impl PartialEq for NoteCommitmentTree]. *)
Definition tree_eq (self other : NoteCommitmentTree) : bool :=
  match cached_root self, cached_root other with
  | Some r, Some other_root => bool_decide (r = other_root)
  | _, _ => bool_decide (inner self = inner other)
  end.

(** [impl From<Vec<_>> for NoteCommitmentTree]; a failed [append] is ignored. *)
Fixpoint append_ignoring (tree : NoteCommitmentTree) (values : list Node) : NoteCommitmentTree :=
  match values with
  | [] => tree
  | cm :: values =>
      append_ignoring (match append tree cm with Ok tree => tree | _ => tree end) values
  end.
Definition from_values (values : list Node) : NoteCommitmentTree := append_ignoring default_tree values.

(** The loop of [NoteCommitmentTrees::update_sapling_note_commitment_tree] and
    [update_orchard_note_commitment_tree]. *)
Fixpoint append_notes (tree : NoteCommitmentTree) (notes : list Node) (subtree_root : option (Z * Node)) :
    outcome TreeError (NoteCommitmentTree * option (Z * Node)) :=
  match notes with
  | [] => Ok (tree, subtree_root)
  | note :: notes =>
      let? tree := append tree note in
      let? completed := completed_subtree_index_and_root tree in
      append_notes tree notes (match completed with Some s => Some s | None => subtree_root end)
  end.
Definition update_note_commitment_tree (tree : NoteCommitmentTree) (notes : list Node) :
    outcome TreeError (NoteCommitmentTree * option (Z * Node)) :=
  let? ' (tree, subtree_root) := append_notes tree notes None in
  let '(_, tree) := root tree in
  Ok (tree, subtree_root).

(** [NoteCommitmentTrees::update_sprout_note_commitment_tree]. *)
Fixpoint append_sprout_notes (tree : NoteCommitmentTree) (notes : list Node) :
    outcome TreeError NoteCommitmentTree :=
  match notes with
  | [] => Ok tree
  | note :: notes => let? tree := append tree note in append_sprout_notes tree notes
  end.
Definition update_sprout_note_commitment_tree (tree : NoteCommitmentTree) (notes : list Node) :
    outcome TreeError NoteCommitmentTree :=
  let? tree := append_sprout_notes tree notes in
  let '(_, tree) := root tree in
  Ok tree.

End Tree.
Arguments NoteCommitmentTree : clear implicits.

(** ** Positions and counts *)

Ltac div_lia :=
  change (2 ^ 16) with 65536 in *; change (2 ^ 32) with 4294967296 in *;
  Z.to_euclidean_division_equations; lia.

Section Laws.
Context {F Node Root : Type} `{EqDecision F, EqDecision Root}.
Context `{FL : FrontierLaws F Node Root depth}.
Implicit Types t : NoteCommitmentTree F Root.

Lemma count_bounds t : 0 <= count t <= 2 ^ depth.
Proof.
  unfold count. destruct (frontier_position (inner t)) as [p|] eqn:P.
  - apply position_bounds in P. lia.
  - pose proof (Z.pow_pos_nonneg 2 depth ltac:(lia) (proj1 depth_bounds)). lia.
Qed.

Lemma count_u32 t : 0 <= count t <= 2 ^ 32.
Proof.
  pose proof (count_bounds t). pose proof (pow_pos_le 2 depth 32 ltac:(lia) depth_bounds). lia.
Qed.

Lemma count_position t :
  match frontier_position (inner t) with
  | None => count t = 0
  | Some p => count t = p + 1 /\ 0 <= p
  end.
Proof.
  unfold count. destruct (frontier_position (inner t)) as [p|] eqn:P; [|done].
  apply position_bounds in P. lia.
Qed.

Lemma append_spec t cm :
  append t cm =
    if count t <? 2 ^ depth then Ok (mkTree (frontier_append (inner t) cm).2 None) else Err FullTree.
Proof.
  pose proof (count_bounds t). change (count t) with (leaves (inner t)) in *. unfold append.
  destruct (Z.ltb_spec (leaves (inner t)) (2 ^ depth)) as [L|L].
  - destruct (append_ok (inner t) cm L) as (f & -> & _). done.
  - rewrite append_full by lia. done.
Qed.

Lemma append_count t cm t' : append t cm = Ok t' -> count t' = count t + 1.
Proof.
  rewrite append_spec. destruct (Z.ltb_spec (count t) (2 ^ depth)) as [L|]; [|done].
  intros [= <-]. destruct (append_ok (inner t) cm L) as (f & -> & C). done.
Qed.

Lemma is_complete_count t :
  is_complete_subtree t = bool_decide (0 < count t /\ count t mod 2 ^ 16 = 0).
Proof.
  pose proof (count_position t) as C. unfold is_complete_subtree.
  destruct (frontier_position (inner t)) as [p|].
  - rewrite complete_position by (unfold TRACKED_SUBTREE_HEIGHT; lia).
    destruct C as [-> ?]. apply bool_decide_ext. unfold TRACKED_SUBTREE_HEIGHT. lia.
  - rewrite bool_decide_false; [done|]. lia.
Qed.

Lemma subtree_index_count {E} t :
  subtree_index (E:=E) t = Ok (if count t =? 0 then None else Some ((count t - 1) / 2 ^ 16)).
Proof.
  pose proof (count_position t) as C. pose proof (count_u32 t). unfold subtree_index.
  destruct (frontier_position (inner t)) as [p|].
  - destruct C as [C ?]. rewrite index_above by (unfold TRACKED_SUBTREE_HEIGHT; lia).
    replace (count t =? 0) with false by lia. replace (count t - 1) with p by lia.
    rewrite checked_ok; [done|]. unfold U16_MAX, TRACKED_SUBTREE_HEIGHT. div_lia.
  - rewrite C. done.
Qed.

(** The number of complete subtrees. *)
Definition complete_subtrees t : Z := count t / 2 ^ 16.

(** [NoteCommitmentTree::contains_new_subtree] only compares the positions
    of two trees, with four cases.  It never panics, and on trees with
    different numbers of notes it returns [true] exactly when the tree has more
    complete subtrees of [2^16] leaves than the previous one.  On trees with the
    same number of notes it tests whether the last subtree is complete. *)
Theorem contains_new_subtree_exact {E} t p :
  contains_new_subtree (E:=E) t p =
    Ok (bool_decide (complete_subtrees p < complete_subtrees t \/
                     count p = count t /\ is_complete_subtree t = true)).
Proof.
  pose proof (count_u32 t). pose proof (count_u32 p).
  unfold contains_new_subtree, complete_subtrees. rewrite !subtree_index_count. cbn [obind]. f_equal.
  rewrite !is_complete_count.
  generalize dependent (count t). generalize dependent (count p). intros m Hm n Hn.
  symmetry. destruct (Z.eqb_spec n 0), (Z.eqb_spec m 0); cbn [default from_option]; unfold id;
  repeat match goal with
  | |- context [?x <? ?y] => destruct (Z.ltb_spec x y)
  | |- context [?x =? ?y] => destruct (Z.eqb_spec x y)
  end; repeat case_bool_decide; cbn [orb]; try done; exfalso; div_lia.
Qed.

Lemma remaining_leaf_nodes_count {E} t :
  remaining_subtree_leaf_nodes (E:=E) t =
    Ok (if count t =? 0 then 2 ^ 16 else (- count t) mod 2 ^ 16).
Proof.
  pose proof (count_position t) as C. pose proof (count_u32 t). unfold remaining_subtree_leaf_nodes.
  destruct (frontier_position (inner t)) as [p|].
  - destruct C as [C ?]. rewrite max_above by (unfold TRACKED_SUBTREE_HEIGHT; lia). cbn [obind].
    unfold TRACKED_SUBTREE_HEIGHT. replace (count t =? 0) with false by lia.
    replace ((p / 2 ^ 16 + 1) * 2 ^ 16 - 1 - p) with ((- count t) mod 2 ^ 16) by div_lia.
    rewrite checked_ok; [done|]. unfold USIZE_MAX, U64_MAX. div_lia.
  - rewrite C, range_start_above, range_end_above by (unfold TRACKED_SUBTREE_HEIGHT; lia). done.
Qed.

(** ** The cache and the updates *)

(** A cached root is the root of the frontier. *)
Definition coherent t : Prop := forall r, cached_root t = Some r -> r = recalculate_root t.

Lemma append_coherent t cm t' : append t cm = Ok t' -> coherent t'.
Proof. rewrite append_spec. destruct (_ <? _); [|done]. by intros [= <-]. Qed.

Lemma root_coherent t : coherent t ->
  (root t).1 = recalculate_root t /\ inner (root t).2 = inner t /\
  cached_root (root t).2 = Some (recalculate_root t) /\ coherent (root t).2.
Proof.
  intros C. unfold root. destruct (cached_root t) as [r|] eqn:R; cbn.
  - rewrite R, (C _ R). done.
  - repeat split; try done. by intros ? [= <-].
Qed.

Lemma completed_count {E} t :
  exists root, completed_subtree_index_and_root (E:=E) t =
    Ok (if is_complete_subtree t then Some (complete_subtrees t - 1, root) else None).
Proof.
  unfold completed_subtree_index_and_root, complete_subtrees. rewrite subtree_index_count.
  exists (frontier_subtree_root (inner t) TRACKED_SUBTREE_HEIGHT).
  destruct (is_complete_subtree t) eqn:C; cbn [negb obind]; [|done].
  rewrite is_complete_count in C. apply bool_decide_eq_true in C.
  pose proof (count_position t) as P. replace (count t =? 0) with false by lia.
  destruct (frontier_position (inner t)); [|lia].
  replace ((count t - 1) / 2 ^ 16) with (count t / 2 ^ 16 - 1) by div_lia. done.
Qed.

(** The subtree that a tree of [m] notes completed on the way to [n] notes. *)
Definition new_subtree (m n : Z) : option Z :=
  if m / 2 ^ 16 <? n / 2 ^ 16 then Some (n / 2 ^ 16 - 1) else None.

Lemma append_notes_spec t ns s : coherent t ->
  if count t + Z.of_nat (length ns) <=? 2 ^ depth then
    exists t' s', append_notes t ns s = Ok (t', s') /\
      count t' = count t + Z.of_nat (length ns) /\ coherent t' /\
      match new_subtree (count t) (count t') with
      | Some i => exists root, s' = Some (i, root)
      | None => s' = s
      end
  else append_notes t ns s = Err FullTree.
Proof.
  revert t s. induction ns as [|cm ns IH]; intros t s C; cbn [append_notes length].
  - pose proof (count_bounds t). rewrite (proj2 (Z.leb_le _ _)) by lia.
    exists t, s. repeat split; try done; [lia|]. unfold new_subtree. by rewrite Z.ltb_irrefl.
  - rewrite append_spec. destruct (Z.ltb_spec (count t) (2 ^ depth)) as [L|L]; cbn [obind];
      [|pose proof (count_bounds t); by rewrite (proj2 (Z.leb_gt _ _)) by lia].
    assert (A : append t cm = Ok (mkTree (frontier_append (inner t) cm).2 None))
      by (rewrite append_spec; by rewrite (proj2 (Z.ltb_lt _ _)) by lia).
    set (u := mkTree _ _) in *. pose proof (append_count _ _ _ A) as Cu.
    destruct (completed_count (E:=TreeError) u) as (r & ->). cbn [obind].
    set (s1 := match _ with Some s => _ | None => _ end).
    specialize (IH u s1 (append_coherent _ _ _ A)). rewrite Cu in *.
    replace (count t + Z.of_nat (S (length ns))) with (count t + 1 + Z.of_nat (length ns)) by lia.
    destruct (_ <=? _); [|done].
    destruct IH as (t' & s' & E & Ct & Co & N). exists t', s'. repeat split; [done|lia|done|].
    assert (S1 : if is_complete_subtree u then exists root, s1 = Some (complete_subtrees u - 1, root) else s1 = s)
      by (unfold s1; destruct (is_complete_subtree u); eauto).
    pose proof (count_bounds t). clearbody s1. unfold new_subtree in *. rewrite is_complete_count in S1.
    unfold complete_subtrees in S1. rewrite Cu in S1. rewrite Ct in N |- *.
    destruct (Z.ltb_spec ((count t + 1) / 2 ^ 16) ((count t + 1 + Z.of_nat (length ns)) / 2 ^ 16)).
    + rewrite (proj2 (Z.ltb_lt _ _)) by div_lia. done.
    + subst s'. destruct (bool_decide_reflect (0 < count t + 1 /\ (count t + 1) mod 2 ^ 16 = 0)) as [M|M].
      * destruct S1 as [root ->]. rewrite (proj2 (Z.ltb_lt _ _)) by div_lia. exists root. do 2 f_equal. div_lia.
      * rewrite (proj2 (Z.ltb_ge _ _)) by div_lia. done.
Qed.

(** The update of a Sapling, Orchard or Ironwood tree by the notes of a
    block never panics.  It fails exactly when the notes exceed the capacity of
    the tree; otherwise the new tree has that many more notes, its cached root is
    the recalculated root, and it reports a subtree exactly when the notes
    complete one, with the index of the last one completed. *)
Theorem tree_update_exact t ns : coherent t ->
  if count t + Z.of_nat (length ns) <=? 2 ^ depth then
    exists t' s, update_note_commitment_tree t ns = Ok (t', s) /\
      count t' = count t + Z.of_nat (length ns) /\
      cached_root t' = Some (recalculate_root t') /\
      fst <$> s = new_subtree (count t) (count t')
  else update_note_commitment_tree t ns = Err FullTree.
Proof.
  intros C. pose proof (append_notes_spec t ns None C) as S. unfold update_note_commitment_tree.
  destruct (_ <=? _); [|by rewrite S].
  destruct S as (t' & s & -> & Ct & Co & N). cbn [obind].
  destruct (root_coherent _ Co) as (_ & I & R & _). destruct (root t') as [r u]. cbn in *.
  exists u, s. repeat split.
  - unfold count. by rewrite I.
  - rewrite R. unfold recalculate_root. by rewrite I.
  - unfold count at 2. rewrite I. fold (count t').
    destruct (new_subtree _ _); [by destruct N as [? ->]|by subst].
Qed.
End Laws.

(** ** What a chain needs of the trees *)

(** The tree of a pool with subtrees: its root, the comparison, and the update
    by the notes of a block, with the index and root of a completed subtree. *)
Class PoolTree (T Note Root Node : Type) := {
  tree_root : T -> Root;
  tree_same : T -> T -> bool;
  tree_count : T -> Z;
  update_tree : T -> list Note -> outcome TreeError (T * option (Z * Node));
  tree_same_spec t u : tree_same t u = true <-> tree_root t = tree_root u;
  update_tree_returns t ns : returns (update_tree t ns);
  update_tree_subtree t ns t' s : update_tree t ns = Ok (t', s) ->
    tree_count t <= tree_count t' /\
    forall i node, s = Some (i, node) -> tree_count t < (i + 1) * 2 ^ 16 <= tree_count t';
}.

(** The Sprout tree, which has no subtrees. *)
Class SproutTree (T Note Root : Type) := {
  sprout_root : T -> Root;
  sprout_same : T -> T -> bool;
  update_sprout : T -> list Note -> outcome TreeError T;
  sprout_same_spec t u : sprout_same t u = true <-> sprout_root t = sprout_root u;
  update_sprout_returns t ns : returns (update_sprout t ns);
}.

(** The trees that a chain stores have a cached root, and it is coherent. *)
Definition CachedTree (F Root : Type) {Node} `{EqDecision Root} `{FR : Frontier F Node Root} : Type :=
  {t : NoteCommitmentTree F Root | bool_decide (cached_root t = Some (recalculate_root t))}.

Section Instances.
Context {F Node Root : Type} `{EqDecision F, EqDecision Root}.
Context `{FL : FrontierLaws F Node Root depth}.
Implicit Types t : NoteCommitmentTree F Root.

(** A tree with its root calculated and cached. *)
Definition sealed t : CachedTree F Root :=
  exist _ (mkTree (inner t) (Some (recalculate_root t))) (bool_decide_pack _ eq_refl).

Lemma sealed_id t : cached_root t = Some (recalculate_root t) -> proj1_sig (sealed t) = t.
Proof. intros C. destruct t; cbn in *. unfold recalculate_root in *. cbn in *. by rewrite <- C. Qed.

Lemma cached_coherent (t : CachedTree F Root) : coherent (`t) /\ cached_root (`t) = Some (recalculate_root (`t)).
Proof.
  destruct t as [t C]; cbn. apply bool_decide_unpack in C. split; [|done].
  intros r. rewrite C. by intros [= <-].
Qed.

Lemma cached_tree_eq (t u : CachedTree F Root) :
  tree_eq (`t) (`u) = true <-> recalculate_root (`t) = recalculate_root (`u).
Proof.
  unfold tree_eq. destruct (cached_coherent t) as [_ ->], (cached_coherent u) as [_ ->].
  by rewrite bool_decide_eq_true.
Qed.

Definition update_cached (t : CachedTree F Root) (ns : list Node) :
    outcome TreeError (CachedTree F Root * option (Z * Node)) :=
  let? ' (t, s) := update_note_commitment_tree (`t) ns in Ok (sealed t, s).

#[refine, export] Instance cached_pool_tree : PoolTree (CachedTree F Root) Node Root Node := {
  tree_root x := recalculate_root (`x);
  tree_same x y := tree_eq (`x) (`y);
  tree_count x := count (`x);
  update_tree := update_cached;
}.
Proof.
  - apply cached_tree_eq.
  - intros t ns. pose proof (tree_update_exact (`t) ns (proj1 (cached_coherent t))) as U.
    unfold update_cached. destruct (_ <=? _); [destruct U as (? & ? & -> & _)|rewrite U]; done.
  - intros t ns t' s. pose proof (tree_update_exact (`t) ns (proj1 (cached_coherent t))) as U.
    unfold update_cached. destruct (_ <=? _); [|by rewrite U].
    destruct U as (u & s' & -> & C & R & N). cbn [obind]. intros [= <- <-].
    rewrite (sealed_id u R). split; [lia|]. intros i node ->. cbn in N. unfold new_subtree in N.
    destruct (Z.ltb_spec (count (`t) / 2 ^ 16) (count u / 2 ^ 16)); [|done]. injection N as ->.
    pose proof (count_bounds (`t)). div_lia.
Defined.

Lemma append_sprout_notes_spec t ns : coherent t ->
  append_sprout_notes t ns = Err FullTree \/
  exists t', append_sprout_notes t ns = Ok t' /\ coherent t'.
Proof.
  revert t. induction ns as [|n ns IH]; intros t C; cbn; [eauto|].
  destruct (append t n) as [u|[]|] eqn:A; cbn [obind]; [eauto using append_coherent|by left|].
  rewrite append_spec in A. by destruct (_ <? _).
Qed.

Definition update_sprout_cached (t : CachedTree F Root) (ns : list Node) :
    outcome TreeError (CachedTree F Root) :=
  let? t := update_sprout_note_commitment_tree (`t) ns in Ok (sealed t).

#[refine, export] Instance cached_sprout_tree : SproutTree (CachedTree F Root) Node Root := {
  sprout_root x := recalculate_root (`x);
  sprout_same x y := tree_eq (`x) (`y);
  update_sprout := update_sprout_cached;
}.
Proof.
  - apply cached_tree_eq.
  - intros t ns. unfold update_sprout_cached, update_sprout_note_commitment_tree.
    destruct (append_sprout_notes_spec (`t) ns (proj1 (cached_coherent t))) as [->|(u & -> & C)];
      cbn [obind]; [done|]. by destruct (root u).
Defined.
End Instances.

(** ** The trees of a block *)

(** [struct NoteCommitmentTrees]. *)
Record NoteCommitmentTrees (ST T Node : Type) := mkTrees {
  sprout : ST;
  sapling : T;
  sapling_subtree : option (NoteCommitmentSubtree Node);
  orchard : T;
  orchard_subtree : option (NoteCommitmentSubtree Node);
  ironwood : T;
  ironwood_subtree : option (NoteCommitmentSubtree Node);
}.
Arguments mkTrees {ST T Node}.
Arguments sprout {ST T Node}.
Arguments sapling {ST T Node}.
Arguments sapling_subtree {ST T Node}.
Arguments orchard {ST T Node}.
Arguments orchard_subtree {ST T Node}.
Arguments ironwood {ST T Node}.
Arguments ironwood_subtree {ST T Node}.

(** [enum NoteCommitmentTreeError]. *)
Inductive NoteCommitmentTreeError :=
| SproutError (e : TreeError)
| SaplingError (e : TreeError)
| OrchardError (e : TreeError)
| IronwoodError (e : TreeError).

(** The note commitments of the transactions of a block, pool by pool. *)
Record BlockNotes (Note : Type) := mkNotes {
  sprout_notes : list Note;
  sapling_notes : list Note;
  orchard_notes : list Note;
  ironwood_notes : list Note;
}.
Arguments mkNotes {Note}.
Arguments sprout_notes {Note}.
Arguments sapling_notes {Note}.
Arguments orchard_notes {Note}.
Arguments ironwood_notes {Note}.

Section Parallel.
Context {ST T Note Root Node : Type} `{SproutTree ST Note Root} `{PoolTree T Note Root Node}.

(** One pool of [NoteCommitmentTrees::update_trees_parallel]: a pool without
    notes in the block keeps its tree and its subtree. *)
Definition update_pool (wrap : TreeError -> NoteCommitmentTreeError) (height : Z)
    (tree : T) (subtree : option (NoteCommitmentSubtree Node)) (notes : list Note) :
    outcome NoteCommitmentTreeError (T * option (NoteCommitmentSubtree Node)) :=
  match notes with
  | [] => Ok (tree, subtree)
  | _ =>
      let? ' (tree, subtree_root) := map_err wrap (update_tree tree notes) in
      Ok (tree, (fun '(idx, node) => mkSubtree idx node height) <$> subtree_root)
  end.

(** [NoteCommitmentTrees::update_trees_parallel]; the results of the threads
    are examined in the order of the pools. *)
Definition update_trees_parallel (self : NoteCommitmentTrees ST T Node) (height : Z)
    (notes : BlockNotes Note) : outcome NoteCommitmentTreeError (NoteCommitmentTrees ST T Node) :=
  let? sprout :=
    match sprout_notes notes with
    | [] => Ok (sprout self)
    | sprout_notes => map_err SproutError (update_sprout (sprout self) sprout_notes)
    end in
  let? ' (sapling, sapling_subtree) :=
    update_pool SaplingError height (sapling self) (sapling_subtree self) (sapling_notes notes) in
  let? ' (orchard, orchard_subtree) :=
    update_pool OrchardError height (orchard self) (orchard_subtree self) (orchard_notes notes) in
  let? ' (ironwood, ironwood_subtree) :=
    update_pool IronwoodError height (ironwood self) (ironwood_subtree self) (ironwood_notes notes) in
  Ok (mkTrees sprout sapling sapling_subtree orchard orchard_subtree ironwood ironwood_subtree).

Lemma update_pool_returns wrap height tree subtree notes :
  returns (update_pool wrap height tree subtree notes).
Proof.
  unfold update_pool. destruct notes; [done|].
  pose proof (update_tree_returns tree (n :: notes)). by destruct (update_tree _ _) as [[]| |].
Qed.

Lemma update_trees_returns self height notes : returns (update_trees_parallel self height notes).
Proof.
  apply returns_bind.
  - destruct (sprout_notes notes); [done|]. apply returns_map_err, update_sprout_returns.
  - intros ? _. apply returns_bind; [apply update_pool_returns|]. intros [??] _.
    apply returns_bind; [apply update_pool_returns|]. intros [??] _.
    apply returns_bind; [apply update_pool_returns|]. by intros [??].
Qed.
End Parallel.

(** ** A concrete frontier *)

(** A frontier that keeps the number of its first leaves and the others; its
    root is that data. *)
Definition counted (f : Z * list Z) : Z := Z.min (2 ^ 32) (Z.max 0 f.1 + Z.of_nat (length f.2)).

Definition counted_position (f : Z * list Z) : option Z :=
  if counted f =? 0 then None else Some (counted f - 1).

#[export] Instance counted_frontier : Frontier (Z * list Z) Z (Z * list Z) := {
  frontier_empty := (0, []);
  frontier_position := counted_position;
  frontier_append f n := if counted f <? 2 ^ 32 then (true, (f.1, f.2 ++ [n])) else (false, f);
  frontier_root f := f;
  frontier_subtree_root f level := counted f / 2 ^ level;
  position_is_complete_subtree p level := (p + 1) mod 2 ^ level =? 0;
  address_index_above_position level p := p / 2 ^ level;
  address_max_position level p := (p / 2 ^ level + 1) * 2 ^ level - 1;
  address_range_start level p := p / 2 ^ level * 2 ^ level;
  address_range_end level p := (p / 2 ^ level + 1) * 2 ^ level;
}.

Lemma counted_leaves f : leaves f = counted f.
Proof.
  unfold leaves. cbn. unfold counted_position. destruct (Z.eqb_spec (counted f) 0); lia.
Qed.

#[export] Instance counted_laws : FrontierLaws (Z * list Z) Z (Z * list Z) 32.
Proof.
  split; try done.
  - intros f p. cbn. unfold counted_position.
    destruct (Z.eqb_spec (counted f) 0); [done|]. intros [= <-]. unfold counted in *. change (2 ^ 32) with 4294967296 in *. lia.
  - intros f n. rewrite !counted_leaves. cbn. intros L. rewrite (proj2 (Z.ltb_lt _ _)) by done.
    eexists; split; [done|]. rewrite counted_leaves. revert L. unfold counted; cbn [fst snd].
    rewrite length_app. cbn [length]. change (2 ^ 32) with 4294967296. lia.
  - intros f n. rewrite counted_leaves. cbn. intros ->. by rewrite Z.ltb_irrefl.
  - intros p level ? ?. cbn. apply eq_bool_prop_intro. rewrite bool_decide_spec, Is_true_true. lia.
Qed.

(** A tree with one note left in its first subtree. *)
Definition example_tree : NoteCommitmentTree (Z * list Z) (Z * list Z) := mkTree (2 ^ 16 - 1, []) None.

Lemma contains_new_subtree_exact_witness :
  exists t, append example_tree 7 = Ok t /\
    contains_new_subtree (E:=unit) t example_tree = Ok true /\
    contains_new_subtree (E:=unit) example_tree example_tree = Ok false.
Proof.
  eexists; split; [vm_compute; reflexivity|].
  rewrite !(contains_new_subtree_exact (depth:=32)). split; vm_compute; reflexivity.
Defined.

Lemma tree_update_exact_witness :
  exists t s, update_note_commitment_tree example_tree [7; 8] = Ok (t, s) /\
    count t = 65537 /\ fst <$> s = Some 0.
Proof.
  destruct (tree_update_exact (depth:=32) example_tree [7; 8] ltac:(intros ? [=]))
    as (t & s & E & C & _ & S).
  exists t, s. rewrite S, C. repeat split; [exact E|vm_compute; reflexivity..].
Defined.
