(* ===== verification/ChainIndexes.v ===== *)
(** * The indexes of a non-finalized chain

    The maps that [zebra-state/src/service/non_finalized_state/chain.rs] keeps
    beside its blocks, and the operations on one index: the nullifier sets
    ([check/nullifier.rs]), the note commitment trees and anchors of a pool
    ([chain.rs]), and the transparent address index ([chain/index.rs]).

    Every index is a function of the blocks of the chain.  [Ext m0 l m] says
    that [m] is [m0] with the entries [l] added, all of them new: an insertion
    appends an entry, a removal deletes one anywhere in the list, so the same
    relation follows a chain that grows at its tip and shrinks at both ends.

    A [HashMap] and a [BTreeMap] are [gmap]s, a [MultiSet] is a [gmultiset]. *)

From stdpp Require Import gmultiset.
From S2P Require Import Prelude Amounts Networks NoteTrees.

(** ** Maps *)

(** [assert_eq!(map.insert(k, v), None)]. *)
Definition insert_new {E K V} `{Countable K} (k : K) (v : V) (m : gmap K V) : outcome E (gmap K V) :=
  match m !! k with None => Ok (<[k:=v]> m) | Some _ => Panic end.

(** [map.remove(k).expect(..)]. *)
Definition remove_present {E K V} `{Countable K} (k : K) (m : gmap K V) : outcome E (V * gmap K V) :=
  let? v := expect (m !! k) in Ok (v, delete k m).

Section Ext.
Context {K V : Type} `{Countable K}.
Implicit Types (m : gmap K V) (l : list (K * V)).

Definition Ext m0 l m : Prop :=
  NoDup l.*1 /\ (forall k, k ∈ l.*1 -> m0 !! k = None) /\ m = list_to_map l ∪ m0.

Lemma Ext_nil m0 m : Ext m0 [] m <-> m = m0.
Proof.
  unfold Ext. cbn. rewrite map_empty_union. split; [by intros (_&_&?)|intros ->].
  split; [constructor|]. split; [|done]. intros k Hk. by apply elem_of_nil in Hk.
Qed.

Lemma Ext_lookup m0 l m k v : Ext m0 l m -> (k, v) ∈ l -> m !! k = Some v.
Proof.
  intros (N & _ & ->) Hk. apply lookup_union_Some_l. by apply elem_of_list_to_map_1.
Qed.

Lemma Ext_None m0 l m k : Ext m0 l m -> m !! k = None <-> k ∉ l.*1 /\ m0 !! k = None.
Proof.
  intros (_ & _ & ->). rewrite lookup_union_None. by rewrite <- not_elem_of_list_to_map.
Qed.

Lemma Ext_snoc m0 l m k v : Ext m0 l m -> m !! k = None -> Ext m0 (l ++ [(k, v)]) (<[k:=v]> m).
Proof.
  intros X Hk. pose proof (proj1 (Ext_None _ _ _ k X) Hk) as [Hl H0]. destruct X as (N & D & ->).
  split; [|split].
  - rewrite fmap_app. apply NoDup_app. split; [done|]. split; [|apply NoDup_singleton].
    cbn. intros k' Hk' ->%list_elem_of_singleton. done.
  - intros k'. rewrite fmap_app, elem_of_app. cbn. rewrite list_elem_of_singleton.
    intros [?| ->]; eauto.
  - rewrite list_to_map_snoc by done. by rewrite insert_union_l.
Qed.

(** Deleting the key of an entry anywhere in the list removes that entry. *)
Lemma Ext_remove m0 l1 l2 m k v :
  Ext m0 (l1 ++ (k, v) :: l2) m -> m !! k = Some v /\ Ext m0 (l1 ++ l2) (delete k m).
Proof.
  intros X. split; [by eapply Ext_lookup; [|apply elem_of_app; right; left]|].
  destruct X as (N & D & ->).
  assert (P : l1 ++ (k, v) :: l2 ≡ₚ (k, v) :: l1 ++ l2) by (symmetry; apply Permutation_middle).
  assert (N' : NoDup (k :: (l1 ++ l2).*1)) by (by rewrite <- (fmap_Permutation fst _ _ P)).
  apply NoDup_cons in N' as [Hk N'].
  assert (D0 : m0 !! k = None) by (apply D; rewrite (fmap_Permutation fst _ _ P); left).
  split; [done|]. split.
  - intros k' Hk'. apply D. rewrite (fmap_Permutation fst _ _ P). by right.
  - rewrite (list_to_map_proper _ _ N P). cbn. rewrite delete_union, delete_insert_id.
    + by rewrite (delete_id m0).
    + by apply not_elem_of_list_to_map_1.
Qed.

Lemma insert_new_Ok {E} k v m m' :
  insert_new (E:=E) k v m = Ok m' <-> m !! k = None /\ m' = <[k:=v]> m.
Proof. unfold insert_new. destruct (m !! k); naive_solver. Qed.

Lemma insert_new_Ext {E} m0 l m k v m' :
  Ext m0 l m -> insert_new (E:=E) k v m = Ok m' -> Ext m0 (l ++ [(k, v)]) m'.
Proof. intros X [Hk ->]%insert_new_Ok. by apply Ext_snoc. Qed.

Lemma remove_present_Ext {E} m0 l1 l2 m k v :
  Ext m0 (l1 ++ (k, v) :: l2) m ->
  remove_present (E:=E) k m = Ok (v, delete k m) /\ Ext m0 (l1 ++ l2) (delete k m).
Proof.
  intros X. destruct (Ext_remove _ _ _ _ _ _ X) as [Hk ?]. split; [|done].
  unfold remove_present. by rewrite Hk.
Qed.
End Ext.

(** ** Ordered maps *)

(** [BTreeMap::last_key_value] and [BTreeMap::first_key_value]. *)
Definition last_key_value {V} (m : gmap Z V) : option (Z * V) :=
  map_fold (fun k v acc =>
    match acc with Some (k', _) => if k' <? k then Some (k, v) else acc | None => Some (k, v) end) None m.
Definition first_key_value {V} (m : gmap Z V) : option (Z * V) :=
  map_fold (fun k v acc =>
    match acc with Some (k', _) => if k <? k' then Some (k, v) else acc | None => Some (k, v) end) None m.

(** [map.range(..=height).next_back()], without the key. *)
Definition last_at_or_below {V} (height : Z) (m : gmap Z V) : option V :=
  snd <$> last_key_value (filter (fun e => e.1 <= height) m).

Section Ordered.
Context {V : Type}.
Implicit Types m : gmap Z V.

Lemma last_key_value_cases m :
  match last_key_value m with
  | None => m = ∅
  | Some (k, v) => m !! k = Some v /\ forall k', is_Some (m !! k') -> k' <= k
  end.
Proof.
  unfold last_key_value. apply (map_fold_weak_ind (fun r m => match r with
    | None => m = ∅
    | Some (k, v) => m !! k = Some v /\ forall k', is_Some (m !! k') -> k' <= k end)); [done|].
  intros k v m' [[k' v']|] N IH.
  - destruct IH as [L M]. destruct (Z.ltb_spec k' k).
    + split; [by rewrite lookup_insert_eq|]. intros j [w Hj].
      apply lookup_insert_Some in Hj as [[? _]|[_ Hj]]; [lia|]. specialize (M j (mk_is_Some _ _ Hj)). lia.
    + split; [rewrite lookup_insert_ne; congruence|]. intros j [w Hj].
      apply lookup_insert_Some in Hj as [[? _]|[_ Hj]]; [lia|]. exact (M j (mk_is_Some _ _ Hj)).
  - subst. split; [by rewrite lookup_insert_eq|]. intros j [w Hj].
    apply lookup_insert_Some in Hj as [[? _]|[_ Hj]]; [lia|]. by rewrite lookup_empty in Hj.
Qed.

Lemma first_key_value_cases m :
  match first_key_value m with
  | None => m = ∅
  | Some (k, v) => m !! k = Some v /\ forall k', is_Some (m !! k') -> k <= k'
  end.
Proof.
  unfold first_key_value. apply (map_fold_weak_ind (fun r m => match r with
    | None => m = ∅
    | Some (k, v) => m !! k = Some v /\ forall k', is_Some (m !! k') -> k <= k' end)); [done|].
  intros k v m' [[k' v']|] N IH.
  - destruct IH as [L M]. destruct (Z.ltb_spec k k').
    + split; [by rewrite lookup_insert_eq|]. intros j [w Hj].
      apply lookup_insert_Some in Hj as [[? _]|[_ Hj]]; [lia|]. specialize (M j (mk_is_Some _ _ Hj)). lia.
    + split; [rewrite lookup_insert_ne; congruence|]. intros j [w Hj].
      apply lookup_insert_Some in Hj as [[? _]|[_ Hj]]; [lia|]. exact (M j (mk_is_Some _ _ Hj)).
  - subst. split; [by rewrite lookup_insert_eq|]. intros j [w Hj].
    apply lookup_insert_Some in Hj as [[? _]|[_ Hj]]; [lia|]. by rewrite lookup_empty in Hj.
Qed.

Lemma last_key_value_Some m k v :
  last_key_value m = Some (k, v) <-> m !! k = Some v /\ forall k', is_Some (m !! k') -> k' <= k.
Proof.
  pose proof (last_key_value_cases m) as C. destruct (last_key_value m) as [[k' v']|].
  - destruct C as [L M]. split; [by intros [= <- <-]|]. intros [L' M'].
    assert (k = k') as -> by (pose proof (M' k' ltac:(eauto)); pose proof (M k ltac:(eauto)); lia).
    congruence.
  - subst. split; [done|]. intros [L _]. by rewrite lookup_empty in L.
Qed.

Lemma first_key_value_Some m k v :
  first_key_value m = Some (k, v) <-> m !! k = Some v /\ forall k', is_Some (m !! k') -> k <= k'.
Proof.
  pose proof (first_key_value_cases m) as C. destruct (first_key_value m) as [[k' v']|].
  - destruct C as [L M]. split; [by intros [= <- <-]|]. intros [L' M'].
    assert (k = k') as -> by (pose proof (M' k' ltac:(eauto)); pose proof (M k ltac:(eauto)); lia).
    congruence.
  - subst. split; [done|]. intros [L _]. by rewrite lookup_empty in L.
Qed.

Lemma last_key_value_None m : last_key_value m = None <-> m = ∅.
Proof.
  pose proof (last_key_value_cases m) as C. destruct (last_key_value m) as [[k v]|]; [|done].
  split; [done|]. intros ->. destruct C as [L _]. by rewrite lookup_empty in L.
Qed.

Lemma last_at_or_below_Some height m v :
  last_at_or_below height m = Some v <->
  exists k, k <= height /\ m !! k = Some v /\ forall k', k' <= height -> is_Some (m !! k') -> k' <= k.
Proof.
  unfold last_at_or_below. rewrite fmap_Some. split.
  - intros ([k v'] & [[L H]%map_lookup_filter_Some M]%last_key_value_Some & ->). cbn in *.
    exists k. repeat split; try done. intros k' Hk [w Hw]. apply M. exists w.
    by apply map_lookup_filter_Some.
  - intros (k & Hk & L & M). exists (k, v). split; [|done]. apply last_key_value_Some.
    split; [by apply map_lookup_filter_Some|].
    intros k' [w [Hw Hk']%map_lookup_filter_Some]. eauto.
Qed.

(** The value at or below a height does not depend on the entries above it. *)
Lemma last_at_or_below_ext height m m' :
  (forall k, k <= height -> m !! k = m' !! k) -> last_at_or_below height m = last_at_or_below height m'.
Proof.
  intros E. unfold last_at_or_below. do 2 f_equal. apply map_eq. intros k.
  apply option_eq. intros v. rewrite !map_lookup_filter_Some. cbn.
  split; intros [L ?]; (split; [|done]); [rewrite <- E|rewrite E]; done.
Qed.
(** Moving the value in force at [height] to the next height changes no value
    in force above. *)
Lemma restored_at_or_below height v0 m m' h :
  last_at_or_below height m = Some v0 ->
  (forall k, m' !! k = if k <=? height then None else
     if decide (k = height + 1) then Some (default v0 (m !! k)) else m !! k) ->
  height < h -> last_at_or_below h m' = last_at_or_below h m.
Proof.
  intros (k0 & ? & L0 & M0)%last_at_or_below_Some L' Hlt.
  assert (exists v, last_at_or_below h m = Some v) as [v Lv].
  { unfold last_at_or_below. pose proof (last_key_value_cases (filter (fun e => e.1 <= h) m)) as C.
    destruct (last_key_value _) as [[k v]|]; [by exists v|].
    assert (X : filter (fun e => e.1 <= h) m !! k0 = Some v0) by (apply map_lookup_filter_Some; cbn; split; [done|lia]).
    rewrite C in X. by rewrite lookup_empty in X. }
  rewrite Lv. apply last_at_or_below_Some. apply last_at_or_below_Some in Lv as (k & Hk & Lk & Mk).
  destruct (Z.le_gt_cases k height) as [Le|Gt].
  - exists (height + 1). rewrite L', (proj2 (Z.leb_gt _ _)), decide_True by lia.
    assert (m !! (height + 1) = None) as ->.
    { apply eq_None_not_Some. intros X. specialize (Mk (height + 1) ltac:(lia) X). lia. }
    assert (k0 = k) as -> by (pose proof (M0 k Le ltac:(eauto)); pose proof (Mk k0 ltac:(lia) ltac:(eauto)); lia).
    split; [lia|]. split; [cbn; congruence|]. intros k' Hk' [w Hw]. rewrite L' in Hw.
    destruct (Z.leb_spec k' height); [done|].
    destruct (decide (k' = height + 1)); [lia|]. specialize (Mk k' ltac:(lia) ltac:(eauto)). lia.
  - exists k. rewrite L', (proj2 (Z.leb_gt _ _)) by lia. split; [done|]. split.
    + destruct (decide (k = height + 1)); by rewrite Lk.
    + intros k' Hk' [w Hw]. rewrite L' in Hw. destruct (Z.leb_spec k' height); [done|].
      destruct (decide (k' = height + 1)); [lia|]. apply Mk; eauto.
Qed.
End Ordered.

(** ** Nullifiers *)

Section Nullifiers.
Context {E Nf TxId : Type} `{Countable Nf}.
Implicit Types chain_nullifiers : gmap Nf TxId.

(** [check::nullifier::add_to_non_finalized_chain_unique]; [duplicate] is
    [duplicate_nullifier_error(false)]. *)
Fixpoint add_to_non_finalized_chain_unique (duplicate : Nf -> E) chain_nullifiers
    (shielded_data_nullifiers : list Nf) (revealing_tx_id : TxId) : outcome E (gmap Nf TxId) :=
  match shielded_data_nullifiers with
  | [] => Ok chain_nullifiers
  | nullifier :: rest =>
      let previous := chain_nullifiers !! nullifier in
      let chain_nullifiers := <[nullifier := revealing_tx_id]> chain_nullifiers in
      match previous with
      | Some _ => Err (duplicate nullifier)
      | None => add_to_non_finalized_chain_unique duplicate chain_nullifiers rest revealing_tx_id
      end
  end.

(** [check::nullifier::remove_from_non_finalized_chain]. *)
Fixpoint remove_from_non_finalized_chain chain_nullifiers (shielded_data_nullifiers : list Nf) :
    outcome E (gmap Nf TxId) :=
  match shielded_data_nullifiers with
  | [] => Ok chain_nullifiers
  | nullifier :: rest =>
      let? ' (_, chain_nullifiers) := remove_present nullifier chain_nullifiers in
      remove_from_non_finalized_chain chain_nullifiers rest
  end.

(** The entries that a list of nullifiers adds. *)
Definition revealed (nfs : list Nf) (id : TxId) : list (Nf * TxId) := (fun nf => (nf, id)) <$> nfs.

Lemma revealed_keys nfs id : (revealed nfs id).*1 = nfs.
Proof. unfold revealed. rewrite <- list_fmap_compose. apply list_fmap_id. Qed.

Lemma add_unique_returns duplicate m nfs id :
  returns (add_to_non_finalized_chain_unique duplicate m nfs id).
Proof. revert m. induction nfs as [|nf nfs IH]; intros m; cbn; [done|]. by destruct (m !! nf). Qed.

Lemma add_unique_Ext duplicate m0 l m nfs id m' :
  Ext m0 l m -> add_to_non_finalized_chain_unique duplicate m nfs id = Ok m' ->
  Ext m0 (l ++ revealed nfs id) m'.
Proof.
  revert l m. induction nfs as [|nf nfs IH]; intros l m X; cbn.
  - intros [= <-]. by rewrite app_nil_r.
  - destruct (m !! nf) eqn:N; [done|]. intros A. rewrite cons_middle, app_assoc.
    eapply IH; [|done]. by apply Ext_snoc.
Qed.

Lemma remove_Ext m0 l1 l2 m nfs id :
  Ext m0 (l1 ++ revealed nfs id ++ l2) m ->
  exists m', remove_from_non_finalized_chain m nfs = Ok m' /\ Ext m0 (l1 ++ l2) m'.
Proof.
  revert m. induction nfs as [|nf nfs IH]; intros m X; cbn in *; [eauto|].
  destruct (remove_present_Ext (E:=E) _ _ _ _ _ _ X) as [-> X']. cbn [obind]. by apply IH.
Qed.

(** Adding the nullifiers of a transaction to a chain never panics; it
    succeeds exactly when they are distinct and none is in the chain already,
    and the error names the first nullifier that repeats. *)
Theorem nullifiers_added_once duplicate m nfs id :
  (NoDup nfs /\ (forall nf, nf ∈ nfs -> m !! nf = None) /\
   add_to_non_finalized_chain_unique duplicate m nfs id = Ok (list_to_map (revealed nfs id) ∪ m)) \/
  exists before nf after, nfs = before ++ nf :: after /\
    (nf ∈ before \/ is_Some (m !! nf)) /\ NoDup before /\ (forall nf, nf ∈ before -> m !! nf = None) /\
    add_to_non_finalized_chain_unique duplicate m nfs id = Err (duplicate nf).
Proof.
  assert (S : forall before rest, Ext m (revealed before id) (list_to_map (revealed before id) ∪ m) ->
    nfs = before ++ rest ->
    (NoDup nfs /\ (forall nf, nf ∈ nfs -> m !! nf = None) /\
     add_to_non_finalized_chain_unique duplicate (list_to_map (revealed before id) ∪ m) rest id =
       Ok (list_to_map (revealed nfs id) ∪ m)) \/
    exists b nf after, nfs = b ++ nf :: after /\ (nf ∈ b \/ is_Some (m !! nf)) /\ NoDup b /\
      (forall nf, nf ∈ b -> m !! nf = None) /\
      add_to_non_finalized_chain_unique duplicate (list_to_map (revealed before id) ∪ m) rest id =
        Err (duplicate nf)).
  - intros before rest. revert before. induction rest as [|nf rest IH]; intros before X ->; cbn.
    + left. rewrite app_nil_r. destruct X as (N & D & _). rewrite revealed_keys in *. done.
    + destruct ((list_to_map (revealed before id) ∪ m) !! nf) eqn:L.
      * right. exists before, nf, rest. pose proof X as (N & D & _). rewrite revealed_keys in *.
        repeat split; try done. apply lookup_union_Some_raw in L as [L|[_ L]]; [left|eauto].
        apply elem_of_list_to_map_2 in L. rewrite <- (revealed_keys before id).
        by apply (list_elem_of_fmap_2 fst _ (nf, t)).
      * pose proof (Ext_snoc _ _ _ nf id X L) as X'. pose proof X' as (_ & _ & U).
        rewrite U in *. change [(nf, id)] with (revealed [nf] id) in *.
        unfold revealed in *. rewrite <- fmap_app in *. apply IH; [done|]. by rewrite <- app_assoc.
  - assert (U : list_to_map (revealed [] id) ∪ m = m) by apply map_empty_union.
    specialize (S [] nfs). rewrite U in S. apply S; [by apply Ext_nil|done].
Qed.
End Nullifiers.

(** ** Note commitment trees and anchors *)

(** [enum RevertPosition]. *)
Inductive RevertPosition := RevertRoot | RevertTip.

Section TreeIndex.
Context {T Root : Type} `{Countable Root} (root : T -> Root) (same : T -> T -> bool).

(** The trees and anchors of one pool in [ChainInner]: [*_trees_by_height],
    [*_anchors_by_height] and [*_anchors]. *)
Record TreeIndex := mkIndex {
  trees_by_height : gmap Z T;
  anchors_by_height : gmap Z Root;
  anchors : gmultiset Root;
}.

Definition empty_index : TreeIndex := mkIndex ∅ ∅ ∅.

(** [Chain::sapling_tree], [orchard_tree], [ironwood_tree] and [sprout_tree], by
    height; and [Chain::*_note_commitment_tree_for_tip]. *)
Definition tree_at (height : Z) (self : TreeIndex) : option T := last_at_or_below height (trees_by_height self).
Definition tree_for_tip {E} (self : TreeIndex) : outcome E T :=
  let? ' (_, tree) := expect (last_key_value (trees_by_height self)) in Ok tree.

(** [Chain::add_sapling_tree_and_anchor], and
    [Chain::add_note_commitment_tree_and_anchor] with its callers. *)
Definition add_tree_and_anchor {E} (height : Z) (tree : T) (self : TreeIndex) : outcome E TreeIndex :=
  let anchor := root tree in
  let? prev_tree :=
    if Height.is_min height then Ok None
    else let? previous := expect_ok (Height.previous height) in Ok (tree_at previous self) in
  let? trees :=
    if Height.is_min height || match prev_tree with None => true | Some prev_tree => negb (same prev_tree tree) end
    then insert_new height tree (trees_by_height self)
    else Ok (trees_by_height self) in
  let? by_height := insert_new height anchor (anchors_by_height self) in
  Ok (mkIndex trees by_height ({[+ anchor +]} ⊎ anchors self)).

(** The heights that [remove_*_tree_and_anchor] removes. *)
Definition removed_heights (position : RevertPosition) (height : Z) (self : TreeIndex) : list Z :=
  match position with
  | RevertRoot => (map_to_list (filter (fun e => e.1 <= height) (anchors_by_height self))).*1
  | RevertTip => [height]
  end.

(** The body of the loop over the removed heights, which also returns the
    anchor, and the loop. *)
Definition remove_height {E} (height : Z) (self : TreeIndex) : outcome E (Root * TreeIndex) :=
  let? ' (anchor, by_height) := remove_present height (anchors_by_height self) in
  let trees := delete height (trees_by_height self) in
  do? assert_that (bool_decide (anchor ∈ anchors self)) in
  Ok (anchor, mkIndex trees by_height (anchors self ∖ {[+ anchor +]})).
Fixpoint remove_heights {E} (heights : list Z) (self : TreeIndex) : outcome E TreeIndex :=
  match heights with
  | [] => Ok self
  | height :: heights => let? ' (_, self) := remove_height height self in remove_heights heights self
  end.

(** The end of [remove_*_tree_and_anchor]: the height after the removed ones
    keeps a tree. *)
Definition restore_next {E} (height : Z) (non_finalized_tip_height : option Z)
    (highest_removed_tree : option T) (trees : gmap Z T) : outcome E (gmap Z T) :=
  match non_finalized_tip_height with
  | Some tip =>
      if height <? tip then
        let? next_height := expect_ok (Height.next height) in
        match trees !! next_height with
        | Some _ => Ok trees
        | None => let? tree := expect highest_removed_tree in Ok (<[next_height := tree]> trees)
        end
      else Ok trees
  | None => Ok trees
  end.

(** [Chain::remove_sapling_tree_and_anchor], and
    [Chain::remove_note_commitment_tree_and_anchor] with its callers; the tip
    height is [None] when the chain is empty. *)
Definition remove_tree_and_anchor {E} (position : RevertPosition) (height : Z)
    (non_finalized_tip_height : option Z) (self : TreeIndex) : outcome E TreeIndex :=
  let highest_removed_tree :=
    match position with RevertRoot => tree_at height self | RevertTip => None end in
  let? self := remove_heights (removed_heights position height self) self in
  let? trees := restore_next height non_finalized_tip_height highest_removed_tree (trees_by_height self) in
  Ok (mkIndex trees (anchors_by_height self) (anchors self)).

(** *** The invariant of an index *)

Lemma height_next_ok h : 0 <= h < Height.MAX -> Height.next h = Ok (h + 1).
Proof.
  change Height.MAX with 2147483647. intros Hh. unfold Height.next, Height.add_diff.
  rewrite wrapped_height by lia. by rewrite checked_ok by (change Height.MAX with 2147483647; lia).
Qed.

Lemma height_previous_ok h : 0 < h <= Height.MAX -> Height.previous h = Ok (h - 1).
Proof.
  change Height.MAX with 2147483647. intros Hh. unfold Height.previous, Height.sub_diff.
  rewrite wrapped_height by lia. by rewrite checked_ok by (change Height.MAX with 2147483647; lia).
Qed.

(** The anchors of all heights. *)
Definition all_anchors (m : gmap Z Root) : gmultiset Root :=
  map_fold (fun _ anchor acc => {[+ anchor +]} ⊎ acc) ∅ m.

Lemma all_anchors_insert m h a : m !! h = None -> all_anchors (<[h:=a]> m) = {[+ a +]} ⊎ all_anchors m.
Proof. intros N. unfold all_anchors. rewrite map_fold_insert_L; [done| |done]. intros. multiset_solver. Qed.

Lemma all_anchors_delete m h a :
  m !! h = Some a -> a ∈ all_anchors m /\ all_anchors m ∖ {[+ a +]} = all_anchors (delete h m).
Proof.
  intros L. rewrite <- (insert_delete_id m h a L) at 1 2.
  rewrite all_anchors_insert by apply lookup_delete_eq. split; multiset_solver.
Qed.

(** An index for the heights [lo..=hi]: there is an anchor for each of them, a
    tree at the lowest one, and the anchor is the root of the tree in force. *)
Record TreeWf (lo hi : Z) (self : TreeIndex) : Prop := {
  wf_range : 0 <= lo <= hi;
  wf_anchors h : is_Some (anchors_by_height self !! h) <-> lo <= h <= hi;
  wf_trees h : is_Some (trees_by_height self !! h) -> lo <= h <= hi;
  wf_first : is_Some (trees_by_height self !! lo);
  wf_all : anchors self = all_anchors (anchors_by_height self);
  wf_root h a : anchors_by_height self !! h = Some a -> root <$> tree_at h self = Some a;
}.

Hypothesis same_spec : forall t u, same t u = true <-> root t = root u.

Lemma wf_none_above lo hi self h : TreeWf lo hi self -> hi < h ->
  trees_by_height self !! h = None /\ anchors_by_height self !! h = None.
Proof.
  intros W Hh. split; apply eq_None_not_Some.
  - intros X%(wf_trees _ _ _ W). lia.
  - intros X%(wf_anchors _ _ _ W). lia.
Qed.

(** The tree in force at a height of the index. *)
Lemma wf_tree_at lo hi self h : TreeWf lo hi self -> lo <= h <= hi -> is_Some (tree_at h self).
Proof.
  intros W [a A]%(wf_anchors _ _ _ W). apply (wf_root _ _ _ W), fmap_Some in A as (t & -> & _). eauto.
Qed.

Lemma tree_for_tip_at {E} lo hi self : TreeWf lo hi self ->
  exists t, tree_for_tip (E:=E) self = Ok t /\ tree_at hi self = Some t.
Proof.
  intros W. unfold tree_for_tip. pose proof (last_key_value_cases (trees_by_height self)) as C.
  destruct (last_key_value _) as [[k t]|].
  - exists t. split; [done|]. apply last_at_or_below_Some. exists k. destruct C as [L M].
    repeat split; [|done|]; [apply (wf_trees _ _ _ W); eauto|]. intros; by apply M.
  - destruct (wf_first _ _ _ W) as [t L]. rewrite C in L. by rewrite lookup_empty in L.
Qed.

Lemma insert_new_fresh {E K V} `{Countable K} (k : K) (v : V) m :
  m !! k = None -> insert_new (E:=E) k v m = Ok (<[k:=v]> m).
Proof. unfold insert_new. by intros ->. Qed.

Lemma add_first {E} height t : 0 <= height <= Height.MAX ->
  exists self, add_tree_and_anchor (E:=E) height t empty_index = Ok self /\
    TreeWf height height self /\ tree_at height self = Some t.
Proof.
  intros Hh. unfold add_tree_and_anchor. set (self := mkIndex {[height := t]} {[height := root t]} {[+ root t +]}).
  assert (A : tree_at height self = Some t).
  { apply last_at_or_below_Some. exists height. cbn. rewrite lookup_singleton_eq. repeat split; try done. }
  assert (W : TreeWf height height self).
  { split; cbn.
    - lia.
    - intros h. rewrite lookup_singleton_is_Some. lia.
    - intros h. rewrite lookup_singleton_is_Some. lia.
    - by rewrite lookup_singleton_eq.
    - unfold all_anchors, singletonM, map_singleton. rewrite map_fold_insert_L; [|multiset_solver|done].
      rewrite map_fold_empty. multiset_solver.
    - intros h a [<- <-]%lookup_singleton_Some. by rewrite A. }
  exists self. split; [|done].
  assert (P : (if Height.is_min height then Ok None
    else let? previous := expect_ok (Height.previous height) in Ok (tree_at previous empty_index)) = Ok (E:=E) None).
  { unfold Height.is_min. destruct (Z.eqb_spec height Height.MIN) as [|N]; [done|].
    change Height.MIN with 0 in N. rewrite height_previous_ok by lia. done. }
  rewrite P. cbn [obind]. rewrite orb_true_r, !insert_new_fresh by apply lookup_empty.
  cbn [obind empty_index anchors]. by rewrite gmultiset_disj_union_right_id.
Qed.

Lemma add_next {E} lo hi t self : TreeWf lo hi self -> hi < Height.MAX ->
  exists self', add_tree_and_anchor (E:=E) (hi + 1) t self = Ok self' /\ TreeWf lo (hi + 1) self' /\
    root <$> tree_at (hi + 1) self' = Some (root t) /\
    (forall h, h <= hi -> tree_at h self' = tree_at h self) /\
    (trees_by_height self' = trees_by_height self \/ trees_by_height self' = <[hi + 1 := t]> (trees_by_height self)) /\
    anchors_by_height self' = <[hi + 1 := root t]> (anchors_by_height self).
Proof.
  intros W Hh. pose proof (wf_range _ _ _ W) as R.
  destruct (wf_none_above _ _ _ (hi + 1) W ltac:(lia)) as [Nt Na].
  destruct (wf_tree_at _ _ _ hi W ltac:(lia)) as [p P].
  unfold add_tree_and_anchor, Height.is_min. change Height.MIN with 0.
  rewrite (proj2 (Z.eqb_neq _ _)), height_previous_ok by lia. replace (hi + 1 - 1) with hi by lia.
  cbn [obind expect_ok]. rewrite P. cbn [orb].
  rewrite (insert_new_fresh _ _ _ Nt), (insert_new_fresh _ _ _ Na). cbn [obind].
  set (keep := same p t).
  set (trees := if negb keep then <[hi + 1 := t]> (trees_by_height self) else trees_by_height self).
  set (self' := mkIndex trees (<[hi + 1 := root t]> (anchors_by_height self)) ({[+ root t +]} ⊎ anchors self)).
  assert (below : forall h, h <= hi -> tree_at h self' = tree_at h self).
  { intros h Hle. apply last_at_or_below_ext. intros k ?. cbn. unfold trees.
    destruct (negb keep); [|done]. by rewrite lookup_insert_ne by lia. }
  assert (tip : root <$> tree_at (hi + 1) self' = Some (root t)).
  { destruct keep eqn:K.
    - apply same_spec in K. rewrite <- K. apply fmap_Some. exists p. split; [|done].
      rewrite <- P. rewrite <- (below hi) by lia. unfold tree_at, last_at_or_below. do 2 f_equal.
      apply map_filter_ext. intros h u L. cbn in *. pose proof (wf_trees _ _ _ W h (mk_is_Some _ _ L)). lia.
    - apply fmap_Some. exists t. split; [|done]. apply last_at_or_below_Some. exists (hi + 1). cbn.
      rewrite lookup_insert_eq. repeat split; try done. }
  exists self'. split; [unfold self', trees; by destruct keep|]. split; [|split; [done|split; [done|split; [|done]]]].
  - split; cbn.
    + lia.
    + intros h. rewrite lookup_insert_is_Some, (wf_anchors _ _ _ W). lia.
    + intros h X. assert (h = hi + 1 \/ is_Some (trees_by_height self !! h)) as [->|Y]; [|lia|].
      { unfold trees in X. destruct (negb keep); [|by right].
        apply lookup_insert_is_Some in X as [->|[_ X]]; [by left|by right]. }
      pose proof (wf_trees _ _ _ W h Y). lia.
    + pose proof (wf_first _ _ _ W). unfold trees. destruct (negb keep); [|done].
      by rewrite lookup_insert_ne by lia.
    + rewrite all_anchors_insert by done. by rewrite (wf_all _ _ _ W).
    + intros h a [[<- <-]|[? L]]%lookup_insert_Some; [done|].
      rewrite below; [by apply (wf_root _ _ _ W)|]. apply (wf_anchors _ _ _ W). eauto.
  - cbn. unfold trees. destruct keep; cbn; [by left|by right].
Qed.

Lemma remove_height_ok {E} h a self :
  anchors_by_height self !! h = Some a -> anchors self = all_anchors (anchors_by_height self) ->
  remove_height (E:=E) h self =
    Ok (a, mkIndex (delete h (trees_by_height self)) (delete h (anchors_by_height self))
             (all_anchors (delete h (anchors_by_height self)))).
Proof.
  intros L A. unfold remove_height, remove_present. rewrite L. cbn [expect obind].
  destruct (all_anchors_delete _ _ _ L) as [I D]. rewrite A, bool_decide_true by done.
  cbn [assert_that obind]. by rewrite D.
Qed.

Lemma remove_heights_ok {E} hs self :
  NoDup hs -> (forall h, h ∈ hs -> is_Some (anchors_by_height self !! h)) ->
  anchors self = all_anchors (anchors_by_height self) ->
  exists self', remove_heights (E:=E) hs self = Ok self' /\
    (forall h, anchors_by_height self' !! h = if bool_decide (h ∈ hs) then None else anchors_by_height self !! h) /\
    (forall h, trees_by_height self' !! h = if bool_decide (h ∈ hs) then None else trees_by_height self !! h) /\
    anchors self' = all_anchors (anchors_by_height self').
Proof.
  revert self. induction hs as [|h hs IH]; intros self N P A; cbn [remove_heights].
  - exists self. repeat split; try done; intros; by rewrite bool_decide_false by apply not_elem_of_nil.
  - apply NoDup_cons in N as [Nh N]. destruct (P h ltac:(left)) as [a L].
    rewrite (remove_height_ok h a) by done. cbn [obind].
    destruct (IH (mkIndex (delete h (trees_by_height self)) (delete h (anchors_by_height self))
             (all_anchors (delete h (anchors_by_height self))))) as (self' & -> & La & Lt & A'); [done| |done|].
    { intros h' Hh'. cbn. rewrite lookup_delete_ne by (intros ->; done). apply P. by right. }
    exists self'. cbn in *. repeat split; [| |done]; intros k; [rewrite La|rewrite Lt];
      destruct (decide (k = h)) as [->|]; rewrite ?lookup_delete_eq, ?lookup_delete_ne by done;
      repeat case_bool_decide; set_solver.
Qed.

Lemma index_ext (self self' : TreeIndex) :
  (forall h, trees_by_height self !! h = trees_by_height self' !! h) ->
  (forall h, anchors_by_height self !! h = anchors_by_height self' !! h) ->
  anchors self = anchors self' -> self = self'.
Proof.
  destruct self, self'; cbn. intros ?%map_eq ?%map_eq ->. by subst.
Qed.

Lemma remove_tip {E} lo hi tip self : TreeWf lo (hi + 1) self -> lo <= hi -> tip <= hi + 1 ->
  exists self', remove_tree_and_anchor (E:=E) RevertTip (hi + 1) (Some tip) self = Ok self' /\
    TreeWf lo hi self' /\
    trees_by_height self' = delete (hi + 1) (trees_by_height self) /\
    anchors_by_height self' = delete (hi + 1) (anchors_by_height self) /\
    forall h, h <= hi -> tree_at h self' = tree_at h self.
Proof.
  intros W L T0. pose proof (wf_range _ _ _ W). unfold remove_tree_and_anchor. cbn [removed_heights remove_heights].
  destruct (proj2 (wf_anchors _ _ _ W (hi + 1)) ltac:(lia)) as [a A].
  rewrite (remove_height_ok _ a) by (done || apply W). cbn [obind restore_next trees_by_height].
  rewrite (proj2 (Z.ltb_ge _ _)) by lia. cbn [obind anchors_by_height anchors].
  set (self' := mkIndex _ _ _). exists self'.
  assert (below : forall h, h <= hi -> tree_at h self' = tree_at h self).
  { intros h Hh. apply last_at_or_below_ext. intros k ?. cbn. by rewrite lookup_delete_ne by lia. }
  split; [done|]. split; [|done]. split; cbn.
  - lia.
  - intros h. rewrite lookup_delete_is_Some, (wf_anchors _ _ _ W). lia.
  - intros h [? ?%(wf_trees _ _ _ W)]%lookup_delete_is_Some. lia.
  - apply lookup_delete_is_Some. split; [lia|]. apply W.
  - done.
  - intros h b [? Lb]%lookup_delete_Some. rewrite below; [by apply W|].
    assert (lo <= h <= hi + 1) by (apply (wf_anchors _ _ _ W); eauto). lia.
Qed.

(** Reverting the tip undoes the addition of a tree. *)
Lemma remove_tip_add {E} lo hi tip t self self' : TreeWf lo hi self -> hi < Height.MAX -> tip <= hi + 1 ->
  add_tree_and_anchor (E:=E) (hi + 1) t self = Ok self' ->
  remove_tree_and_anchor (E:=E) RevertTip (hi + 1) (Some tip) self' = Ok self.
Proof.
  intros W M T0 A. destruct (add_next (E:=E) lo hi t self W M) as (s & A' & W' & _ & _ & Tr & An).
  rewrite A in A'. injection A' as <-. pose proof (wf_range _ _ _ W).
  destruct (remove_tip (E:=E) lo hi tip self' W' ltac:(lia) T0) as (s & -> & W'' & Tr' & An' & _).
  destruct (wf_none_above _ _ _ (hi + 1) W ltac:(lia)) as [Nt Na].
  assert (An'' : anchors_by_height s = anchors_by_height self) by (rewrite An', An; by apply delete_insert_id).
  f_equal. apply index_ext.
  - rewrite Tr'. destruct Tr as [->| ->]; [by rewrite delete_id|by rewrite delete_insert_id].
  - by rewrite An''.
  - rewrite (wf_all _ _ _ W''), (wf_all _ _ _ W). by rewrite An''.
Qed.

Lemma removed_root_heights height self :
  NoDup (removed_heights RevertRoot height self) /\
  forall h, h ∈ removed_heights RevertRoot height self <->
    h <= height /\ is_Some (anchors_by_height self !! h).
Proof.
  cbn. split; [apply NoDup_fst_map_to_list|]. intros h. rewrite list_elem_of_fmap. split.
  - intros ([h' a] & -> & [L ?]%elem_of_map_to_list%map_lookup_filter_Some). eauto.
  - intros [? [a L]]. exists (h, a). split; [done|]. by apply elem_of_map_to_list, map_lookup_filter_Some.
Qed.

Lemma removed_root {E} lo hi height self : TreeWf lo hi self -> lo <= height <= hi ->
  exists self', remove_heights (E:=E) (removed_heights RevertRoot height self) self = Ok self' /\
    (forall h, anchors_by_height self' !! h = if h <=? height then None else anchors_by_height self !! h) /\
    (forall h, trees_by_height self' !! h = if h <=? height then None else trees_by_height self !! h) /\
    anchors self' = all_anchors (anchors_by_height self').
Proof.
  intros W Hh. destruct (removed_root_heights height self) as [N I].
  destruct (remove_heights_ok (E:=E) _ self N) as (s & R & La & Lt & A); [by intros h [_ ?]%I|apply W|].
  exists s. repeat split; [done| | |done]; intros h; [rewrite La|rewrite Lt]; case_bool_decide as X;
    rewrite I in X; destruct (Z.leb_spec h height); try done; try lia.
  - apply eq_None_not_Some. tauto.
  - apply eq_None_not_Some. intros Y. apply X. split; [done|]. apply (wf_anchors _ _ _ W). by apply (wf_trees _ _ _ W).
Qed.

(** Finalizing the root removes every height up to it and keeps the trees in
    force at the other heights. *)
Lemma remove_root {E} lo hi height self :
  TreeWf lo hi self -> lo <= height < hi -> hi <= Height.MAX ->
  exists self', remove_tree_and_anchor (E:=E) RevertRoot height (Some hi) self = Ok self' /\
    TreeWf (height + 1) hi self' /\ (forall h, height < h -> tree_at h self' = tree_at h self) /\
    (forall h, height < h -> anchors_by_height self' !! h = anchors_by_height self !! h).
Proof.
  intros W Hh M. pose proof (wf_range _ _ _ W).
  destruct (removed_root (E:=E) lo hi height self W ltac:(lia)) as (s & R & La & Lt & A).
  destruct (wf_tree_at _ _ _ height W ltac:(lia)) as [t0 T0].
  unfold remove_tree_and_anchor. rewrite R. cbn [obind restore_next].
  rewrite (proj2 (Z.ltb_lt _ _)), height_next_ok by lia. cbn [expect_ok obind]. rewrite T0. cbn [expect obind].
  rewrite Lt, (proj2 (Z.leb_gt _ _)) by lia.
  set (trees := match trees_by_height self !! (height + 1) with Some _ => trees_by_height s
    | None => <[height + 1 := t0]> (trees_by_height s) end).
  exists (mkIndex trees (anchors_by_height s) (anchors s)).
  assert (Ltr : forall h, trees !! h = if h <=? height then None else
    if decide (h = height + 1) then Some (default t0 (trees_by_height self !! h)) else trees_by_height self !! h).
  { intros h. unfold trees. destruct (trees_by_height self !! (height + 1)) as [u|] eqn:U;
      [|destruct (decide (h = height + 1)) as [->|]; [by rewrite lookup_insert_eq, U, (proj2 (Z.leb_gt _ _)) by lia|
        rewrite lookup_insert_ne by done]];
      rewrite Lt; destruct (Z.leb_spec h height); try done. destruct (decide (h = height + 1)) as [->|]; [by rewrite U|done]. }
  assert (above : forall h, height < h -> tree_at h (mkIndex trees (anchors_by_height s) (anchors s)) = tree_at h self)
    by (intros h; by apply (restored_at_or_below height t0)).
  split; [unfold trees; by destruct (trees_by_height self !! (height + 1))|]. split; [|split; [exact above|]].
  - split; cbn.
    + lia.
    + intros h. rewrite La. destruct (Z.leb_spec h height); [split; [by intros []|lia]|].
      rewrite (wf_anchors _ _ _ W). lia.
    + intros h. rewrite Ltr. destruct (Z.leb_spec h height); [by intros []|].
      destruct (decide (h = height + 1)); [lia|]. intros ?%(wf_trees _ _ _ W). lia.
    + rewrite Ltr, (proj2 (Z.leb_gt _ _)), decide_True by lia. eauto.
    + done.
    + intros h a. rewrite La. destruct (Z.leb_spec h height); [done|]. intros. rewrite above by lia. by apply W.
  - intros h Hlt. cbn. by rewrite La, (proj2 (Z.leb_gt _ _)) by lia.
Qed.

(** Finalizing the only block empties the index. *)
Lemma remove_last_root {E} lo hi self : TreeWf lo hi self ->
  remove_tree_and_anchor (E:=E) RevertRoot hi None self = Ok empty_index.
Proof.
  intros W. pose proof (wf_range _ _ _ W).
  destruct (removed_root (E:=E) lo hi hi self W ltac:(lia)) as (s & R & La & Lt & A).
  unfold remove_tree_and_anchor. rewrite R. cbn [obind restore_next].
  assert (Na : anchors_by_height s = ∅).
  { apply map_eq. intros h. rewrite La, lookup_empty. destruct (Z.leb_spec h hi); [done|].
    by apply (wf_none_above _ _ _ h W). }
  f_equal. apply index_ext; cbn.
  - intros h. rewrite Lt, lookup_empty. destruct (Z.leb_spec h hi); [done|]. by apply (wf_none_above _ _ _ h W).
  - by rewrite Na.
  - rewrite A, Na. done.
Qed.
End TreeIndex.

(** ** Transparent transfers *)

Section Transfers.
Context `{CB : ConsensusBuild} {TxHash Script : Type} `{Countable TxHash}.
Notation NonNegative := Amount.NonNegative.
Notation NegativeAllowed := Amount.NegativeAllowed.

(** [transparent::OutPoint], [transparent::Output], [transparent::Utxo] and
    [transparent::OrderedUtxo]. *)
Notation OutPoint := (TxHash * Z)%type.
Record Output := mkOutput { value : Amount.Amount NonNegative; lock_script : Script }.
Record Utxo := mkUtxo { output : Output; utxo_height : Z; from_coinbase : bool }.
Record OrderedUtxo := mkOrdered { utxo : Utxo; tx_index_in_block : Z }.

(** [OutputLocation]: the height, the index of the transaction in its block and
    the index of the output in its transaction. *)
Definition OutputLocation : Type := Z * Z * Z.

(** [TransactionLocation::from_usize]: the index must fit in a [u16]. *)
Definition transaction_location_from_usize {E} (height transaction_index : Z) : outcome E (Z * Z) :=
  let? i := expect (checked 0 U16_MAX transaction_index) in Ok (height, i).

(** [index::transaction_location] and [OutputLocation::from_outpoint]. *)
Definition transaction_location {E} (ordered_utxo : OrderedUtxo) : outcome E (Z * Z) :=
  transaction_location_from_usize (utxo_height (utxo ordered_utxo)) (tx_index_in_block ordered_utxo).
Definition from_outpoint (transaction_location : Z * Z) (outpoint : OutPoint) : OutputLocation :=
  (transaction_location, outpoint.2).

(** [struct TransparentTransfers]. *)
Record TransparentTransfers := mkTransfers {
  balance : Amount.Amount NegativeAllowed;
  tx_ids : gmultiset TxHash;
  created_utxos : gmap OutputLocation Output;
  spent_utxos : gset OutputLocation;
}.

(** [TransparentTransfers::default]. *)
Definition default_transfers : TransparentTransfers := mkTransfers (Amount.mk 0) ∅ ∅ ∅.

(** [value().constrain().expect(..)]. *)
Definition utxo_value {E} (ordered_utxo : OrderedUtxo) : outcome E (Amount.Amount NegativeAllowed) :=
  expect_ok (Amount.constrain NegativeAllowed (value (output (utxo ordered_utxo)))).

(** [update_chain_tip_with] and [revert_chain_with] of a created UTXO. *)
Definition update_created {E} (outpoint : OutPoint) (created_utxo : OrderedUtxo) (self : TransparentTransfers) :
    outcome E TransparentTransfers :=
  let? value := utxo_value created_utxo in
  let? balance := expect_ok (Amount.add (balance self) value) in
  let? transaction_location := transaction_location created_utxo in
  let output_location := from_outpoint transaction_location outpoint in
  let? created := insert_new output_location (output (utxo created_utxo)) (created_utxos self) in
  Ok (mkTransfers balance ({[+ outpoint.1 +]} ⊎ tx_ids self) created (spent_utxos self)).
Definition revert_created {E} (outpoint : OutPoint) (created_utxo : OrderedUtxo) (self : TransparentTransfers) :
    outcome E TransparentTransfers :=
  let? value := utxo_value created_utxo in
  let? balance := expect_ok (Amount.sub (balance self) value) in
  let? transaction_location := transaction_location created_utxo in
  let output_location := from_outpoint transaction_location outpoint in
  let? ' (_, created) := remove_present output_location (created_utxos self) in
  do? assert_that (bool_decide (outpoint.1 ∈ tx_ids self)) in
  Ok (mkTransfers balance (tx_ids self ∖ {[+ outpoint.1 +]}) created (spent_utxos self)).

(** [update_chain_tip_with] and [revert_chain_with] of a transparent input. *)
Definition update_spent {E} (spent_outpoint : OutPoint) (spending_tx_hash : TxHash) (spent_output : OrderedUtxo)
    (self : TransparentTransfers) : outcome E TransparentTransfers :=
  let? value := utxo_value spent_output in
  let? balance := expect_ok (Amount.sub (balance self) value) in
  let? spent_output_tx_loc := transaction_location spent_output in
  let output_location := from_outpoint spent_output_tx_loc spent_outpoint in
  do? assert_that (negb (bool_decide (output_location ∈ spent_utxos self))) in
  Ok (mkTransfers balance ({[+ spending_tx_hash +]} ⊎ tx_ids self) (created_utxos self)
        ({[output_location]} ∪ spent_utxos self)).
Definition revert_spent {E} (spent_outpoint : OutPoint) (spending_tx_hash : TxHash) (spent_output : OrderedUtxo)
    (self : TransparentTransfers) : outcome E TransparentTransfers :=
  let? value := utxo_value spent_output in
  let? balance := expect_ok (Amount.add (balance self) value) in
  let? spent_output_tx_loc := transaction_location spent_output in
  let output_location := from_outpoint spent_output_tx_loc spent_outpoint in
  do? assert_that (bool_decide (output_location ∈ spent_utxos self)) in
  do? assert_that (bool_decide (spending_tx_hash ∈ tx_ids self)) in
  Ok (mkTransfers balance (tx_ids self ∖ {[+ spending_tx_hash +]}) (created_utxos self)
        (spent_utxos self ∖ {[output_location]})).

(** [TransparentTransfers::is_empty]. *)
Definition transfers_is_empty (self : TransparentTransfers) : bool :=
  Amount.is_zero (balance self) && bool_decide (tx_ids self = ∅) &&
  match map_to_list (created_utxos self) with [] => true | _ => false end &&
  bool_decide (spent_utxos self = ∅).

(** A transfer of an address, as the updates above see it. *)
Inductive Transfer :=
| Received (outpoint : OutPoint) (created_utxo : OrderedUtxo)
| Sent (spent_outpoint : OutPoint) (spending_tx_hash : TxHash) (spent_output : OrderedUtxo).

Definition update_transfer {E} (e : Transfer) : TransparentTransfers -> outcome E TransparentTransfers :=
  match e with
  | Received outpoint u => update_created outpoint u
  | Sent outpoint tx u => update_spent outpoint tx u
  end.
Definition revert_transfer {E} (e : Transfer) : TransparentTransfers -> outcome E TransparentTransfers :=
  match e with
  | Received outpoint u => revert_created outpoint u
  | Sent outpoint tx u => revert_spent outpoint tx u
  end.

(** *** The transfers of an address determine its entry *)

Definition transfer_utxo (e : Transfer) : OrderedUtxo := match e with Received _ u | Sent _ _ u => u end.
Definition transfer_tx (e : Transfer) : TxHash := match e with Received o _ => o.1 | Sent _ tx _ => tx end.
Definition transfer_amount (e : Transfer) : Z := Amount.zatoshis (value (output (utxo (transfer_utxo e)))).
Definition transfer_location (e : Transfer) : OutputLocation :=
  let u := transfer_utxo e in
  (utxo_height (utxo u), tx_index_in_block u, match e with Received o _ | Sent o _ _ => o.2 end).
Definition delta (e : Transfer) : Z := match e with Received _ _ => transfer_amount e | Sent _ _ _ => - transfer_amount e end.

Definition created_entry (e : Transfer) : option (OutputLocation * Output) :=
  match e with Received _ u => Some (transfer_location e, output (utxo u)) | Sent _ _ _ => None end.
Definition spent_entry (e : Transfer) : option OutputLocation :=
  match e with Received _ _ => None | Sent _ _ _ => Some (transfer_location e) end.

Definition total_delta (es : list Transfer) : Z := foldr (fun e acc => delta e + acc) 0 es.
(** The value that moved in or out of the address. *)
Definition volume (es : list Transfer) : Z := foldr (fun e acc => transfer_amount e + acc) 0 es.

Definition summary (es : list Transfer) : TransparentTransfers :=
  mkTransfers (Amount.mk (total_delta es)) (list_to_set_disj (transfer_tx <$> es))
    (list_to_map (omap created_entry es)) (list_to_set (omap spent_entry es)).

(** A transfer whose value and location are valid. *)
Definition transfer_ok (e : Transfer) : Prop :=
  0 <= transfer_amount e <= MAX_MONEY /\ 0 <= tx_index_in_block (transfer_utxo e) <= U16_MAX.

Record TransfersWf (es : list Transfer) : Prop := {
  tw_ok : Forall transfer_ok es;
  tw_created : NoDup (omap created_entry es).*1;
  tw_spent : NoDup (omap spent_entry es);
  tw_balance : - MAX_MONEY <= total_delta es <= MAX_MONEY;
}.

Lemma total_delta_cons e es : total_delta (e :: es) = delta e + total_delta es.
Proof. done. Qed.

Lemma summary_perm es es' : es ≡ₚ es' -> TransfersWf es -> summary es = summary es' /\ TransfersWf es'.
Proof.
  intros P W. assert (D : total_delta es = total_delta es').
  { unfold total_delta. clear W. induction P; cbn; lia. }
  assert (C : omap created_entry es ≡ₚ omap created_entry es') by by rewrite P.
  assert (S : omap spent_entry es ≡ₚ omap spent_entry es') by by rewrite P.
  split.
  - unfold summary. rewrite D. f_equal.
    + apply leibniz_equiv. by rewrite P.
    + apply list_to_map_proper; [apply W|done].
    + apply leibniz_equiv. by rewrite S.
  - destruct W as [O Nc Ns B]. split.
    + by rewrite <- P.
    + by rewrite <- C.
    + by rewrite <- S.
    + by rewrite <- D.
Qed.

Lemma utxo_value_ok {E} e : transfer_ok e ->
  utxo_value (E:=E) (transfer_utxo e) = Ok (Amount.mk (transfer_amount e)).
Proof.
  intros [V _]. unfold utxo_value, Amount.constrain. rewrite Amount.try_from_i64_unfold.
  rewrite (proj2 (within_spec _ _ _)); [done|]. cbn. fold (transfer_amount e). lia.
Qed.

Lemma location_ok {E} e : transfer_ok e ->
  transaction_location (E:=E) (transfer_utxo e) =
    Ok (utxo_height (utxo (transfer_utxo e)), tx_index_in_block (transfer_utxo e)).
Proof. intros [_ V]. unfold transaction_location, transaction_location_from_usize. by rewrite checked_ok. Qed.

Lemma valid_negative z : Amount.valid (C:=NegativeAllowed) (Amount.mk z) <-> - MAX_MONEY <= z <= MAX_MONEY.
Proof. done. Qed.

(** Adding a transfer to an entry. *)
Lemma update_transfer_wf {E} e es t :
  TransfersWf es -> transfer_ok e -> update_transfer (E:=E) e (summary es) = Ok t ->
  TransfersWf (es ++ [e]) /\ t = summary (es ++ [e]).
Proof.
  intros W O U. assert (P : e :: es ≡ₚ es ++ [e]) by apply Permutation_cons_append.
  enough (G : TransfersWf (e :: es) /\ t = summary (e :: es)).
  { destruct G as [G ->]. destruct (summary_perm _ _ P G) as [-> ?]. done. }
  pose proof (tw_balance _ W) as B. pose proof O as [V I].
  assert (X : Amount.valid (C:=NegativeAllowed) (Amount.mk (transfer_amount e))) by (apply valid_negative; lia).
  assert (X' : Amount.valid (C:=NegativeAllowed) (Amount.mk (total_delta es))) by done.
  destruct e as [o u|o tx u]; cbn [update_transfer] in U.
  - unfold update_created in U. rewrite (utxo_value_ok (Received o u) O), (location_ok (Received o u) O) in U.
    cbn [obind summary balance] in U. rewrite (Amount.add_in_range _ _ X' X) in U. outcome_inv.
    destruct (Amount.in_range _ _) as [b| |] eqn:R; cbn in *; try done. injection H0 as ->.
    apply Amount.in_range_Ok in R as [Zb R]. apply insert_new_Ok in H1 as [N ->].
    rewrite <- not_elem_of_list_to_map in N. split.
    + split; [constructor; [done|apply W]| | |].
      * cbn. apply NoDup_cons. split; [exact N|apply W].
      * apply (tw_spent _ W).
      * unfold Amount.valid in R. rewrite Zb in R. rewrite total_delta_cons. cbn in *. lia.
    + unfold summary. rewrite total_delta_cons. f_equal. destruct a. cbn [Amount.zatoshis delta] in *. f_equal. lia.
  - unfold update_spent in U. rewrite (utxo_value_ok (Sent o tx u) O), (location_ok (Sent o tx u) O) in U.
    cbn [obind summary balance] in U. rewrite (Amount.sub_in_range _ _ X' X) in U. outcome_inv.
    destruct (Amount.in_range _ _) as [b| |] eqn:R; cbn in *; try done. injection H0 as ->.
    apply Amount.in_range_Ok in R as [Zb R]. apply negb_true_iff, bool_decide_eq_false in H1.
    rewrite elem_of_list_to_set in H1. split.
    + split; [constructor; [done|apply W]| | |].
      * apply (tw_created _ W).
      * cbn. apply NoDup_cons. split; [exact H1|apply W].
      * unfold Amount.valid in R. rewrite Zb in R. rewrite total_delta_cons. cbn in *. lia.
    + unfold summary. rewrite total_delta_cons. f_equal. destruct a. cbn [Amount.zatoshis delta] in *. f_equal. lia.
Qed.

Lemma summary_tx_ids e es : tx_ids (summary (e :: es)) = {[+ transfer_tx e +]} ⊎ tx_ids (summary es).
Proof. done. Qed.

Lemma summary_created o u es : created_utxos (summary (Received o u :: es)) =
  <[transfer_location (Received o u) := output (utxo u)]> (created_utxos (summary es)).
Proof. done. Qed.

Lemma summary_spent o tx u es : spent_utxos (summary (Sent o tx u :: es)) =
  {[transfer_location (Sent o tx u)]} ∪ spent_utxos (summary es).
Proof. done. Qed.

(** Removing a transfer from an entry, when the remaining balance is in range. *)
Lemma revert_transfer_wf {E} e es :
  TransfersWf (e :: es) -> - MAX_MONEY <= total_delta es <= MAX_MONEY ->
  revert_transfer (E:=E) e (summary (e :: es)) = Ok (summary es) /\ TransfersWf es.
Proof.
  intros [O Nc Ns B] R. apply Forall_cons in O as [O O'].
  assert (W : TransfersWf es).
  { split; [done| | |done]; destruct e; cbn in *; try done; [by apply NoDup_cons in Nc as [_ ?]|by apply NoDup_cons in Ns as [_ ?]]. }
  split; [|done]. pose proof O as [V I]. rewrite total_delta_cons in B.
  assert (X : Amount.valid (C:=NegativeAllowed) (Amount.mk (transfer_amount e))) by (apply valid_negative; lia).
  assert (X' : Amount.valid (C:=NegativeAllowed) (Amount.mk (delta e + total_delta es))) by done.
  assert (Tx : transfer_tx e ∈ tx_ids (summary (e :: es)) /\
    tx_ids (summary (e :: es)) ∖ {[+ transfer_tx e +]} = tx_ids (summary es)) by (rewrite summary_tx_ids; split; multiset_solver).
  destruct Tx as [Tx Tx'].
  destruct e as [o u|o tx u]; cbn [revert_transfer].
  - unfold revert_created, remove_present. rewrite (utxo_value_ok (Received o u) O), (location_ok (Received o u) O).
    cbn [obind]. change (balance (summary _)) with (Amount.mk (C:=NegativeAllowed) (delta (Received o u) + total_delta es)).
    rewrite (Amount.sub_in_range _ _ X' X), Amount.in_range_ok by (apply within_spec; cbn in *; lia).
    cbn [expect_ok obind]. change (from_outpoint _ o) with (transfer_location (Received o u)).
    cbn in Nc. apply NoDup_cons in Nc as [Nc _]. rewrite summary_created, lookup_insert_eq. cbn [expect obind].
    rewrite bool_decide_true by done. cbn [assert_that obind]. f_equal. unfold summary at 4. f_equal.
    + f_equal. cbn. lia.
    + exact Tx'.
    + apply delete_insert_id. by apply not_elem_of_list_to_map_1.
  - unfold revert_spent. rewrite (utxo_value_ok (Sent o tx u) O), (location_ok (Sent o tx u) O).
    cbn [obind]. change (balance (summary _)) with (Amount.mk (C:=NegativeAllowed) (delta (Sent o tx u) + total_delta es)).
    rewrite (Amount.add_in_range _ _ X' X), Amount.in_range_ok by (apply within_spec; cbn in *; lia).
    cbn [expect_ok obind]. change (from_outpoint _ o) with (transfer_location (Sent o tx u)).
    cbn in Ns. apply NoDup_cons in Ns as [Ns _]. rewrite <- (elem_of_list_to_set (C:=gset OutputLocation)) in Ns.
    rewrite summary_spent, (bool_decide_true (_ ∈ {[_]} ∪ _)), (bool_decide_true (tx ∈ _)) by (done || set_solver).
    cbn [assert_that obind]. f_equal. unfold summary at 4. f_equal.
    + f_equal. cbn. lia.
    + exact Tx'.
    + change (spent_utxos (summary es)) with (list_to_set (C:=gset OutputLocation) (omap spent_entry es)). set_solver.
Qed.

Lemma summary_is_empty es : transfers_is_empty (summary es) = true <-> es = [].
Proof.
  split; [|by intros ->]. destruct es as [|e es]; [done|]. unfold transfers_is_empty.
  assert (tx_ids (summary (e :: es)) <> ∅) by (rewrite summary_tx_ids; multiset_solver).
  rewrite (bool_decide_false (tx_ids _ = ∅)) by done. by rewrite andb_false_r.
Qed.

Lemma volume_bounds es : Forall transfer_ok es -> - volume es <= total_delta es <= volume es.
Proof.
  induction 1 as [|e es [V _] _ IH]; cbn; [done|]. fold (total_delta es) (volume es).
  destruct e; cbn in *; unfold delta; lia.
Qed.

(** *** The address index *)

Context {Address : Type} `{Countable Address}.
Implicit Types index : gmap Address TransparentTransfers.

(** [entry(address).or_default()] followed by an update. *)
Definition index_update {E} (address : Address) (e : Transfer) index :
    outcome E (gmap Address TransparentTransfers) :=
  let? transfers := update_transfer e (default default_transfers (index !! address)) in
  Ok (<[address := transfers]> index).

(** [get_mut(address).expect(..)], a revert, and the removal of an empty entry. *)
Definition index_revert {E} (address : Address) (e : Transfer) index :
    outcome E (gmap Address TransparentTransfers) :=
  let? transfers := expect (index !! address) in
  let? transfers := revert_transfer e transfers in
  Ok (if transfers_is_empty transfers then delete address index else <[address := transfers]> index).

Definition transfers_of (address : Address) (es : list (Address * Transfer)) : list Transfer :=
  snd <$> filter (fun e => e.1 = address) es.

Definition entry_of (es : list Transfer) : option TransparentTransfers :=
  match es with [] => None | _ => Some (summary es) end.

(** The index has exactly the transfers [es]. *)
Definition IndexOf index (es : list (Address * Transfer)) : Prop :=
  forall a, TransfersWf (transfers_of a es) /\ index !! a = entry_of (transfers_of a es).

Lemma transfers_of_app a es es' : transfers_of a (es ++ es') = transfers_of a es ++ transfers_of a es'.
Proof. unfold transfers_of. by rewrite filter_app, fmap_app. Qed.

Lemma transfers_of_cons a b e es :
  transfers_of a ((b, e) :: es) = if decide (b = a) then e :: transfers_of a es else transfers_of a es.
Proof. unfold transfers_of. rewrite filter_cons. cbn. by destruct (decide (b = a)). Qed.

Lemma wf_nil : TransfersWf [].
Proof. pose proof MAX_MONEY_pos. split; cbn; [constructor..|lia]. Qed.

Lemma IndexOf_empty : IndexOf ∅ [].
Proof. intros a. split; [apply wf_nil|apply lookup_empty]. Qed.

Lemma entry_default es : default default_transfers (entry_of es) = summary es.
Proof. by destruct es. Qed.

Lemma index_update_of {E} index es a e index' :
  IndexOf index es -> transfer_ok e -> index_update (E:=E) a e index = Ok index' ->
  IndexOf index' (es ++ [(a, e)]).
Proof.
  intros X O U. unfold index_update in U. outcome_inv. destruct (X a) as [W L]. rewrite L, entry_default in H1.
  destruct (update_transfer_wf _ _ _ W O H1) as [W' ->]. intros b. rewrite transfers_of_app, transfers_of_cons.
  destruct (decide (a = b)) as [<-|N].
  - split; [done|]. rewrite lookup_insert_eq. by destruct (transfers_of a es).
  - cbn. rewrite app_nil_r, lookup_insert_ne by done. apply X.
Qed.

Lemma index_revert_of {E} index es1 es2 a e :
  IndexOf index (es1 ++ (a, e) :: es2) ->
  - MAX_MONEY <= total_delta (transfers_of a (es1 ++ es2)) <= MAX_MONEY ->
  exists index', index_revert (E:=E) a e index = Ok index' /\ IndexOf index' (es1 ++ es2).
Proof.
  intros X R. destruct (X a) as [W L].
  assert (P : transfers_of a (es1 ++ (a, e) :: es2) ≡ₚ e :: transfers_of a (es1 ++ es2)).
  { rewrite !transfers_of_app, transfers_of_cons, decide_True by done. by rewrite Permutation_middle. }
  destruct (summary_perm _ _ P W) as [S W']. destruct (revert_transfer_wf (E:=E) _ _ W' R) as [V W''].
  assert (L' : index !! a = Some (summary (e :: transfers_of a (es1 ++ es2)))).
  { rewrite L, <- S. destruct (transfers_of a (es1 ++ (a, e) :: es2)); [|done].
    by apply Permutation_nil_cons in P. }
  unfold index_revert. rewrite L'. cbn [expect obind]. rewrite V. cbn [obind]. eexists; split; [done|].
  intros b. destruct (decide (a = b)) as [<-|N].
  - split; [done|]. pose proof (summary_is_empty (transfers_of a (es1 ++ es2))) as Em.
    destruct (transfers_is_empty _).
    + rewrite (proj1 Em eq_refl). by rewrite lookup_delete_eq.
    + rewrite lookup_insert_eq. destruct (transfers_of a _); [|done]. by pose proof (proj2 Em eq_refl).
  - destruct (X b) as [Wb Lb]. rewrite transfers_of_app, transfers_of_cons, decide_False in Wb, Lb by done.
    rewrite transfers_of_app. split; [done|].
    destruct (transfers_is_empty _); [rewrite lookup_delete_ne by done|rewrite lookup_insert_ne by done]; done.
Qed.

(** Two indexes of the same transfers, in any order, are equal. *)
Lemma IndexOf_unique index index' es : IndexOf index es -> IndexOf index' es -> index = index'.
Proof. intros X Y. apply map_eq. intros a. destruct (X a) as [_ ->], (Y a) as [_ ->]. done. Qed.
End Transfers.
