(* ===== verification/NonFinalizedChain.v ===== *)
(** * Non-finalized chains

    [zebra-state/src/service/non_finalized_state/chain.rs]: a partial chain from
    the child of the finalized tip to a chain tip, with all its indexes.
    [push] adds a block at the tip, [pop_root] removes the lowest block when it
    is finalized, [pop_tip] removes the highest one, and [fork] reverts a copy
    of the chain to one of its blocks.

    Transactions and blocks are records of what the chain reads of them.
    Hashes, nullifiers, note commitments, roots and the history tree are the
    parameters of the class [ChainTypes]; the note commitment trees are known by
    the interfaces of [NoteTrees]. *)

From stdpp Require Import gmultiset.
From S2P Require Import Prelude Amounts ValueBalances Difficulty Networks BlockMerkle NoteTrees ChainIndexes.

Notation NonNegative := Amount.NonNegative.
Notation NegativeAllowed := Amount.NegativeAllowed.
Notation Balance := ValueBalance.ValueBalance.

(** The types that the chain is indexed by. *)
Class ChainTypes := {
  Hash : Type;
  TxHash : Type;
  Address : Type;
  Script : Type;
  Nullifier : Type;
  Note : Type;
  Root : Type;
  Node : Type;
  STree : Type;
  PTree : Type;
  HistoryTree : Type;
  HistoryTreeError : Type;
  Hash_eq_dec :: EqDecision Hash;
  Hash_countable :: Countable Hash;
  TxHash_eq_dec :: EqDecision TxHash;
  TxHash_countable :: Countable TxHash;
  Address_eq_dec :: EqDecision Address;
  Address_countable :: Countable Address;
  Nullifier_eq_dec :: EqDecision Nullifier;
  Nullifier_countable :: Countable Nullifier;
  Root_eq_dec :: EqDecision Root;
  Root_countable :: Countable Root;
  sprout_tree_ops :: SproutTree STree Note Root;
  pool_tree_ops :: PoolTree PTree Note Root Node;
}.

(** [transparent::OutPoint]: the transaction and the index of its output. *)
Notation OutPoint := (TxHash * Z)%type.

Section Data.
Context `{CT : ChainTypes}.

(** [transparent::Input]; the other fields of its variants are not read here. *)
Inductive Input :=
| PrevOut (outpoint : OutPoint)
| Coinbase.

(** [transparent::Input::outpoint]. *)
Definition outpoint (self : Input) : option OutPoint :=
  match self with PrevOut outpoint => Some outpoint | Coinbase => None end.

(** A Sprout JoinSplit description, a Sapling bundle, whose spends are a
    nullifier and an anchor, and an Orchard or Ironwood bundle, whose actions are
    a nullifier and a note commitment; the anchor of a bundle is the tree root
    of its bytes, and balances are in zatoshis. *)
Record JoinSplit := mkJoinSplit {
  js_anchor : Root;
  js_nullifiers : list Nullifier;
  js_commitments : list Note;
  vpub_old : Z;
  vpub_new : Z;
}.
Record SaplingBundle := mkSapling {
  sapling_spends : list (Nullifier * Root);
  sapling_outputs : list Note;
  sapling_bundle_balance : Z;
}.
Record ActionBundle := mkActions {
  actions : list (Nullifier * Note);
  bundle_anchor : option Root;
  action_bundle_balance : Z;
}.

(** [transaction::Transaction]: the parts that the state reads. *)
Record Transaction := mkTransaction {
  inputs : list Input;
  outputs : list (Output (Script:=Script));
  sprout_joinsplit_descriptions : list JoinSplit;
  sapling_bundle : option SaplingBundle;
  orchard_bundle : option ActionBundle;
  ironwood_bundle : option ActionBundle;
  auth_digest : option (list byte);
}.

(** [Transaction::sprout_nullifiers] and the other three. *)
Definition tx_sprout_nullifiers (self : Transaction) : list Nullifier :=
  sprout_joinsplit_descriptions self ≫= js_nullifiers.
Definition tx_sapling_nullifiers (self : Transaction) : list Nullifier :=
  match sapling_bundle self with Some b => (sapling_spends b).*1 | None => [] end.
Definition action_nullifiers (bundle : option ActionBundle) : list Nullifier :=
  match bundle with Some b => (actions b).*1 | None => [] end.
Definition tx_orchard_nullifiers (self : Transaction) : list Nullifier := action_nullifiers (orchard_bundle self).
Definition tx_ironwood_nullifiers (self : Transaction) : list Nullifier := action_nullifiers (ironwood_bundle self).

(** [Transaction::sprout_note_commitments] and the other three. *)
Definition tx_notes (self : Transaction) : BlockNotes Note :=
  mkNotes (sprout_joinsplit_descriptions self ≫= js_commitments)
    (match sapling_bundle self with Some b => sapling_outputs b | None => [] end)
    (match orchard_bundle self with Some b => (actions b).*2 | None => [] end)
    (match ironwood_bundle self with Some b => (actions b).*2 | None => [] end).

(** [block::Block], with the height in its coinbase transaction and its
    serialized size. *)
Record Block := mkBlock {
  previous_block_hash : Hash;
  commitment_bytes : list byte;
  difficulty_threshold : Z;
  coinbase_height : option Z;
  transactions : list Transaction;
  serialized_size : Z;
}.

(** [Block::sprout_note_commitments] and the other three. *)
Definition note_commitments (self : Block) : BlockNotes Note :=
  mkNotes (transactions self ≫= fun tx => sprout_notes (tx_notes tx))
    (transactions self ≫= fun tx => sapling_notes (tx_notes tx))
    (transactions self ≫= fun tx => orchard_notes (tx_notes tx))
    (transactions self ≫= fun tx => ironwood_notes (tx_notes tx)).

(** [ContextuallyVerifiedBlock]. *)
Record ContextuallyVerifiedBlock := mkContextual {
  block : Block;
  hash : Hash;
  height : Z;
  new_outputs : gmap OutPoint (OrderedUtxo (Script:=Script));
  spent_outputs : gmap OutPoint (OrderedUtxo (Script:=Script));
  transaction_hashes : list TxHash;
  chain_value_pool_change : Balance NegativeAllowed;
}.

(** [ValidateContextError], the variants that the state returns on a chain. *)
Inductive ValidateContextError :=
| BlockPreviouslyInvalidated (block_hash : Hash)
| NotReadyToBeCommitted
| DuplicateTransparentSpend (outpoint : OutPoint) (location : string)
| MissingTransparentOutput (outpoint : OutPoint) (location : string)
| EarlyTransparentSpend (outpoint : OutPoint)
| UnshieldedTransparentCoinbaseSpend (outpoint : OutPoint)
| ImmatureTransparentCoinbaseSpend (outpoint : OutPoint)
    (spend_height min_spend_height created_height : Z)
| DuplicateSproutNullifier (nullifier : Nullifier) (in_finalized_state : bool)
| DuplicateSaplingNullifier (nullifier : Nullifier) (in_finalized_state : bool)
| DuplicateOrchardNullifier (nullifier : Nullifier) (in_finalized_state : bool)
| DuplicateIronwoodNullifier (nullifier : Nullifier) (in_finalized_state : bool)
| NegativeRemainingTransactionValue (amount_error : Amount.Error) (height tx_index_in_block : Z) (tx : TxHash)
| CalculateRemainingTransactionValue (amount_error : Amount.Error) (height tx_index_in_block : Z) (tx : TxHash)
| CalculateTransactionValueBalances (value_balance_error : ValueBalance.ValueBalanceError)
    (height tx_index_in_block : Z) (tx : TxHash)
| CalculateBlockChainValueChange (value_balance_error : ValueBalance.ValueBalanceError) (height : Z)
    (block_hash : Hash) (transaction_count spent_utxo_count : Z)
| AddValuePool (value_balance_error : ValueBalance.ValueBalanceError)
    (chain_value_pools : Balance NonNegative) (block_value_pool_change : Balance NegativeAllowed) (height : Z)
| InvalidBlockCommitment (e : CommitmentError)
| TreeUpdateError (e : NoteCommitmentTreeError)
| HistoryUpdateError (e : HistoryTreeError)
| UnknownSproutAnchor (anchor : Root) (height tx_index_in_block : option Z) (tx : TxHash)
| UnknownSaplingAnchor (anchor : Root) (height tx_index_in_block : option Z) (tx : TxHash)
| UnknownOrchardAnchor (anchor : Root) (height tx_index_in_block : option Z) (tx : TxHash)
| UnknownIronwoodAnchor (anchor : Root) (height tx_index_in_block : option Z) (tx : TxHash).

(** The index of the Sprout trees, which are also found by their anchor. *)
Record SproutIndex := mkSproutIndex {
  sprout_index : TreeIndex (T:=STree) (Root:=Root);
  trees_by_anchor : gmap Root STree;
}.

(** The fields of [ChainInner] that the transactions of a block update. *)
Record TxIndexes := mkTxIndexes {
  tx_loc_by_hash : gmap TxHash (Z * Z);
  chain_created_utxos : gmap OutPoint (OrderedUtxo (Script:=Script));
  chain_spent_utxos : gmap OutPoint TxHash;
  sprout_nullifiers : gmap Nullifier TxHash;
  sapling_nullifiers : gmap Nullifier TxHash;
  orchard_nullifiers : gmap Nullifier TxHash;
  ironwood_nullifiers : gmap Nullifier TxHash;
  partial_transparent_transfers : gmap Address (TransparentTransfers (TxHash:=TxHash) (Script:=Script));
}.

(** The trees, anchors and subtrees of a pool, and those of the chain. *)
Record Trees := mkChainTrees {
  sprout_trees : SproutIndex;
  sapling_trees : TreeIndex (T:=PTree) (Root:=Root);
  sapling_subtrees : gmap Z (NoteCommitmentSubtreeData Node);
  orchard_trees : TreeIndex (T:=PTree) (Root:=Root);
  orchard_subtrees : gmap Z (NoteCommitmentSubtreeData Node);
  ironwood_trees : TreeIndex (T:=PTree) (Root:=Root);
  ironwood_subtrees : gmap Z (NoteCommitmentSubtreeData Node);
  history_trees_by_height : gmap Z HistoryTree;
}.

(** [BlockInfo]. *)
Record BlockInfo := mkBlockInfo { info_value_pools : Balance NonNegative; info_size : Z }.

(** [ChainInner]. *)
Record ChainInner := mkInner {
  blocks : gmap Z ContextuallyVerifiedBlock;
  height_by_hash : gmap Hash Z;
  txs : TxIndexes;
  trees : Trees;
  partial_cumulative_work : Z;
  chain_value_pools : Balance NonNegative;
  block_info_by_height : gmap Z BlockInfo;
}.

(** [struct Chain]; its network is the one of the operations below. *)
Record Chain := mkChain { inner : ChainInner; last_fork_height : option Z }.
End Data.

(** [transparent::Output::address] on the network of the chain,
    [HistoryTree::push] with the Sapling, Orchard and Ironwood roots, and
    [HistoryTree::hash]. *)
Class ChainOps `{CT : ChainTypes} := {
  output_address : Output (Script:=Script) -> option Address;
  history_push : HistoryTree -> Block -> Root -> Root -> Root -> outcome HistoryTreeError HistoryTree;
  history_hash : HistoryTree -> option (list byte);
}.

Section Operations.
Context `{CB : ConsensusBuild} `{CO : ChainOps}.
Notation Result := (outcome ValidateContextError).

(** ** Blocks *)

Definition is_empty (self : ChainInner) : bool :=
  match last_key_value (blocks self) with None => true | Some _ => false end.

(** [Chain::max_block_height], [non_finalized_tip_height],
    [non_finalized_tip_hash], [non_finalized_root_height] and
    [non_finalized_root_hash]. *)
Definition max_block_height (self : ChainInner) : option Z := fst <$> last_key_value (blocks self).
Definition non_finalized_tip_height {E} (self : ChainInner) : outcome E Z := expect (max_block_height self).
Definition tip_block (self : ChainInner) : option ContextuallyVerifiedBlock := snd <$> last_key_value (blocks self).
Definition non_finalized_tip_hash {E} (self : ChainInner) : outcome E Hash :=
  let? b := expect (tip_block self) in Ok (hash b).
Definition non_finalized_root_height {E} (self : ChainInner) : outcome E Z :=
  expect (fst <$> first_key_value (blocks self)).
Definition non_finalized_root_hash {E} (self : ChainInner) : outcome E Hash :=
  let? b := expect (snd <$> first_key_value (blocks self)) in Ok (hash b).

(** [Chain::unspent_utxos]. *)
Definition unspent_utxos (self : ChainInner) : gmap OutPoint (OrderedUtxo (Script:=Script)) :=
  filter (fun e => chain_spent_utxos (txs self) !! e.1 = None) (chain_created_utxos (txs self)).

(** ** The transactions of a block *)

Notation CreatedMap := (gmap OutPoint (OrderedUtxo (Script:=Script))).
Notation SpentMap := (gmap OutPoint TxHash).
Notation AddressIndex := (gmap Address (TransparentTransfers (TxHash:=TxHash) (Script:=Script))).

(** [update_chain_tip_with] of the outputs of a transaction: the loop over the
    output indexes. *)
Fixpoint update_outputs (indexes : list Z) (creating_tx_hash : TxHash) (block_created_outputs : CreatedMap)
    (created : CreatedMap) (transfers : AddressIndex) : Result (CreatedMap * AddressIndex) :=
  match indexes with
  | [] => Ok (created, transfers)
  | output_index :: indexes =>
      let? index := expect (u32_checked output_index) in
      let outpoint := (creating_tx_hash, index) in
      let? created_utxo := expect (block_created_outputs !! outpoint) in
      let? created := insert_new outpoint created_utxo created in
      let? transfers :=
        match output_address (output (utxo created_utxo)) with
        | Some receiving_address => index_update receiving_address (Received outpoint created_utxo) transfers
        | None => Ok transfers
        end in
      update_outputs indexes creating_tx_hash block_created_outputs created transfers
  end.

(** [revert_chain_with] of the outputs of a transaction. *)
Fixpoint revert_outputs (indexes : list Z) (creating_tx_hash : TxHash) (block_created_outputs : CreatedMap)
    (created : CreatedMap) (transfers : AddressIndex) : Result (CreatedMap * AddressIndex) :=
  match indexes with
  | [] => Ok (created, transfers)
  | output_index :: indexes =>
      let? index := expect (u32_checked output_index) in
      let outpoint := (creating_tx_hash, index) in
      let? created_utxo := expect (block_created_outputs !! outpoint) in
      let? ' (_, created) := remove_present outpoint created in
      let? transfers :=
        match output_address (output (utxo created_utxo)) with
        | Some receiving_address => index_revert receiving_address (Received outpoint created_utxo) transfers
        | None => Ok transfers
        end in
      revert_outputs indexes creating_tx_hash block_created_outputs created transfers
  end.

(** [update_chain_tip_with] and [revert_chain_with] of the inputs of a
    transaction. *)
Fixpoint update_inputs (spending_inputs : list Input) (spending_tx_hash : TxHash) (spent_outputs : CreatedMap)
    (spent : SpentMap) (transfers : AddressIndex) : Result (SpentMap * AddressIndex) :=
  match spending_inputs with
  | [] => Ok (spent, transfers)
  | spending_input :: rest =>
      match outpoint spending_input with
      | None => update_inputs rest spending_tx_hash spent_outputs spent transfers
      | Some spent_outpoint =>
          let? spent := insert_new spent_outpoint spending_tx_hash spent in
          let? spent_output := expect (spent_outputs !! spent_outpoint) in
          let? transfers :=
            match output_address (output (utxo spent_output)) with
            | Some spending_address =>
                index_update spending_address (Sent spent_outpoint spending_tx_hash spent_output) transfers
            | None => Ok transfers
            end in
          update_inputs rest spending_tx_hash spent_outputs spent transfers
      end
  end.
Fixpoint revert_inputs (spending_inputs : list Input) (spending_tx_hash : TxHash) (spent_outputs : CreatedMap)
    (spent : SpentMap) (transfers : AddressIndex) : Result (SpentMap * AddressIndex) :=
  match spending_inputs with
  | [] => Ok (spent, transfers)
  | spending_input :: rest =>
      match outpoint spending_input with
      | None => revert_inputs rest spending_tx_hash spent_outputs spent transfers
      | Some spent_outpoint =>
          let? ' (_, spent) := remove_present spent_outpoint spent in
          let? spent_output := expect (spent_outputs !! spent_outpoint) in
          let? transfers :=
            match output_address (output (utxo spent_output)) with
            | Some receiving_address =>
                index_revert receiving_address (Sent spent_outpoint spending_tx_hash spent_output) transfers
            | None => Ok transfers
            end in
          revert_inputs rest spending_tx_hash spent_outputs spent transfers
      end
  end.

Definition output_indexes (tx : Transaction) : list Z := seqZ 0 (Z.of_nat (length (outputs tx))).

(** The body of the loop over the transactions in
    [Chain::update_chain_tip_with_block_except_trees]. *)
Definition update_transaction (b : ContextuallyVerifiedBlock) (transaction_index : Z) (transaction : Transaction)
    (transaction_hash : TxHash) (self : TxIndexes) : Result TxIndexes :=
  let? sprout := add_to_non_finalized_chain_unique (fun nf => DuplicateSproutNullifier nf false)
    (sprout_nullifiers self) (tx_sprout_nullifiers transaction) transaction_hash in
  let? sapling := add_to_non_finalized_chain_unique (fun nf => DuplicateSaplingNullifier nf false)
    (sapling_nullifiers self) (tx_sapling_nullifiers transaction) transaction_hash in
  let? orchard := add_to_non_finalized_chain_unique (fun nf => DuplicateOrchardNullifier nf false)
    (orchard_nullifiers self) (tx_orchard_nullifiers transaction) transaction_hash in
  let? ironwood := add_to_non_finalized_chain_unique (fun nf => DuplicateIronwoodNullifier nf false)
    (ironwood_nullifiers self) (tx_ironwood_nullifiers transaction) transaction_hash in
  let? transaction_location := transaction_location_from_usize (height b) transaction_index in
  let? locations := insert_new transaction_hash transaction_location (tx_loc_by_hash self) in
  let? ' (created, transfers) := update_outputs (output_indexes transaction) transaction_hash (new_outputs b)
    (chain_created_utxos self) (partial_transparent_transfers self) in
  let? ' (spent, transfers) := update_inputs (inputs transaction) transaction_hash (spent_outputs b)
    (chain_spent_utxos self) transfers in
  Ok (mkTxIndexes locations created spent sprout sapling orchard ironwood transfers).

(** The body of the loop over the transactions in [revert_chain_with]. *)
Definition revert_transaction (b : ContextuallyVerifiedBlock) (transaction : Transaction)
    (transaction_hash : TxHash) (self : TxIndexes) : Result TxIndexes :=
  let? ' (created, transfers) := revert_outputs (output_indexes transaction) transaction_hash (new_outputs b)
    (chain_created_utxos self) (partial_transparent_transfers self) in
  let? ' (spent, transfers) := revert_inputs (inputs transaction) transaction_hash (spent_outputs b)
    (chain_spent_utxos self) transfers in
  let? ' (_, locations) := remove_present transaction_hash (tx_loc_by_hash self) in
  let? sprout := remove_from_non_finalized_chain (sprout_nullifiers self) (tx_sprout_nullifiers transaction) in
  let? sapling := remove_from_non_finalized_chain (sapling_nullifiers self) (tx_sapling_nullifiers transaction) in
  let? orchard := remove_from_non_finalized_chain (orchard_nullifiers self) (tx_orchard_nullifiers transaction) in
  let? ironwood := remove_from_non_finalized_chain (ironwood_nullifiers self) (tx_ironwood_nullifiers transaction) in
  Ok (mkTxIndexes locations created spent sprout sapling orchard ironwood transfers).

Fixpoint update_transactions (b : ContextuallyVerifiedBlock) (index : Z) (l : list (Transaction * TxHash))
    (self : TxIndexes) : Result TxIndexes :=
  match l with
  | [] => Ok self
  | (tx, tx_hash) :: l =>
      let? self := update_transaction b index tx tx_hash self in
      update_transactions b (index + 1) l self
  end.
Fixpoint revert_transactions (b : ContextuallyVerifiedBlock) (l : list (Transaction * TxHash))
    (self : TxIndexes) : Result TxIndexes :=
  match l with
  | [] => Ok self
  | (tx, tx_hash) :: l =>
      let? self := revert_transaction b tx tx_hash self in
      revert_transactions b l self
  end.

(** The transactions of a block with their hashes. *)
Definition zipped (b : ContextuallyVerifiedBlock) : list (Transaction * TxHash) :=
  zip (transactions (block b)) (transaction_hashes b).

(** [difficulty_threshold.to_work().expect(..)]. *)
Definition block_work {E} (b : ContextuallyVerifiedBlock) : outcome E Z :=
  let? work := CompactDifficulty.to_work (difficulty_threshold (block b)) in expect work.

(** [update_chain_tip_with] and [revert_chain_with] of the chain value pools. *)
Definition update_pools (change : Balance NegativeAllowed) (h size : Z) (pools : Balance NonNegative)
    (info : gmap Z BlockInfo) : Result (Balance NonNegative * gmap Z BlockInfo) :=
  let? new_pools := map_err (fun e => AddValuePool e pools change h)
    (ValueBalance.add_chain_value_pool_change pools change) in
  Ok (new_pools, <[h := mkBlockInfo new_pools (wrap_u 32 size)]> info).
Definition revert_pools (position : RevertPosition) (change : Balance NegativeAllowed) (h : Z)
    (pools : Balance NonNegative) (info : gmap Z BlockInfo) : Result (Balance NonNegative * gmap Z BlockInfo) :=
  let? pools :=
    match position with
    | RevertTip =>
        let? change := ValueBalance.neg change in
        expect_ok (ValueBalance.add_chain_value_pool_change pools change)
    | RevertRoot => Ok pools
    end in
  Ok (pools, delete h info).

(** [Chain::update_chain_tip_with_block_except_trees]. *)
Definition update_except_trees (b : ContextuallyVerifiedBlock) (self : ChainInner) : Result ChainInner :=
  let? by_hash := insert_new (hash b) (height b) (height_by_hash self) in
  let? work := block_work b in
  let? work := PartialCumulativeWork.add (partial_cumulative_work self) work in
  let? txs := update_transactions b 0 (zipped b) (txs self) in
  let? ' (pools, info) := update_pools (chain_value_pool_change b) (height b) (serialized_size (block b))
    (chain_value_pools self) (block_info_by_height self) in
  Ok (mkInner (blocks self) by_hash txs (trees self) work pools info).

(** ** The trees of a block *)

(** [Chain::sapling_subtree] and the other two, by height. *)
Definition subtree_at (h : Z) (subtrees : gmap Z (NoteCommitmentSubtreeData Node)) : option (NoteCommitmentSubtree Node) :=
  (fun '(i, subtree) => with_index subtree i) <$>
    first_key_value (filter (fun e => data_end_height e.2 = h) subtrees).

(** [Chain::sapling_subtree_for_tip] and the other two. *)
Definition subtree_for_tip (tip : option Z) (subtrees : gmap Z (NoteCommitmentSubtreeData Node)) :
    option (NoteCommitmentSubtree Node) :=
  match tip with None => None | Some tip => subtree_at tip subtrees end.

Definition insert_subtree (subtree : option (NoteCommitmentSubtree Node))
    (subtrees : gmap Z (NoteCommitmentSubtreeData Node)) : gmap Z (NoteCommitmentSubtreeData Node) :=
  match subtree with None => subtrees | Some s => <[index s := into_data s]> subtrees end.

Definition add_pool {E} (h : Z) (tree : PTree) (self : TreeIndex (T:=PTree) (Root:=Root)) :
    outcome E (TreeIndex (T:=PTree) (Root:=Root)) :=
  add_tree_and_anchor tree_root tree_same h tree self.

(** [Chain::add_sprout_tree_and_anchor]. *)
Definition add_sprout {E} (h : Z) (tree : STree) (self : SproutIndex) : outcome E SproutIndex :=
  let? index := add_tree_and_anchor sprout_root sprout_same h tree (sprout_index self) in
  Ok (mkSproutIndex index (<[sprout_root tree := tree]> (trees_by_anchor self))).

(** The loop of [Chain::remove_sprout_tree_and_anchor]. *)
Fixpoint remove_sprout_heights {E} (heights : list Z) (self : SproutIndex) : outcome E SproutIndex :=
  match heights with
  | [] => Ok self
  | h :: heights =>
      let? ' (anchor, index) := remove_height h (sprout_index self) in
      let by_anchor :=
        if bool_decide (anchor ∈ anchors index) then trees_by_anchor self
        else delete anchor (trees_by_anchor self) in
      remove_sprout_heights heights (mkSproutIndex index by_anchor)
  end.

(** [Chain::remove_sprout_tree_and_anchor]. *)
Definition remove_sprout {E} (position : RevertPosition) (h : Z) (tip : option Z) (self : SproutIndex) :
    outcome E SproutIndex :=
  let highest_removed_tree :=
    match position with RevertRoot => tree_at h (sprout_index self) | RevertTip => None end in
  let? self := remove_sprout_heights (removed_heights position h (sprout_index self)) self in
  let index := sprout_index self in
  let? trees := restore_next h tip highest_removed_tree (trees_by_height index) in
  Ok (mkSproutIndex (mkIndex trees (anchors_by_height index) (anchors index)) (trees_by_anchor self)).

(** [Chain::add_history_tree] and [Chain::remove_history_tree]. *)
Definition add_history_tree {E} (h : Z) (tree : HistoryTree) (history : gmap Z HistoryTree) :
    outcome E (gmap Z HistoryTree) := insert_new h tree history.
Definition remove_history_tree {E} (position : RevertPosition) (h : Z) (history : gmap Z HistoryTree) :
    outcome E (gmap Z HistoryTree) :=
  match position with
  | RevertRoot => Ok (filter (fun e => h < e.1) history)
  | RevertTip => let? ' (_, history) := remove_present h history in Ok history
  end.

(** The trees at the tip, which a block updates. *)
Definition tip_trees {E} (tip : option Z) (self : Trees) : outcome E (NoteCommitmentTrees STree PTree Node) :=
  let? sprout := tree_for_tip (sprout_index (sprout_trees self)) in
  let? sapling := tree_for_tip (sapling_trees self) in
  let? orchard := tree_for_tip (orchard_trees self) in
  let? ironwood := tree_for_tip (ironwood_trees self) in
  Ok (mkTrees sprout sapling (subtree_for_tip tip (sapling_subtrees self))
        orchard (subtree_for_tip tip (orchard_subtrees self))
        ironwood (subtree_for_tip tip (ironwood_subtrees self))).

(** The end of [Chain::update_chain_tip_with_block_parallel]: the updated trees,
    subtrees and history tree are added to the chain. *)
Definition add_trees (b : ContextuallyVerifiedBlock) (nct : NoteCommitmentTrees STree PTree Node) (self : Trees) :
    Result Trees :=
  let h := height b in
  let? sprout := add_sprout h (NoteTrees.sprout nct) (sprout_trees self) in
  let? sapling := add_pool h (NoteTrees.sapling nct) (sapling_trees self) in
  let? orchard := add_pool h (NoteTrees.orchard nct) (orchard_trees self) in
  let? ironwood := add_pool h (NoteTrees.ironwood nct) (ironwood_trees self) in
  let sapling_subtrees := insert_subtree (NoteTrees.sapling_subtree nct) (sapling_subtrees self) in
  let orchard_subtrees := insert_subtree (NoteTrees.orchard_subtree nct) (orchard_subtrees self) in
  let ironwood_subtrees := insert_subtree (NoteTrees.ironwood_subtree nct) (ironwood_subtrees self) in
  let? sapling_tip := tree_for_tip sapling in
  let? orchard_tip := tree_for_tip orchard in
  let? ironwood_tip := tree_for_tip ironwood in
  let? ' (_, history_tree) := expect (last_key_value (history_trees_by_height self)) in
  let? history_tree := map_err HistoryUpdateError
    (history_push history_tree (block b) (tree_root sapling_tip) (tree_root orchard_tip) (tree_root ironwood_tip)) in
  let? history := add_history_tree h history_tree (history_trees_by_height self) in
  Ok (mkChainTrees sprout sapling sapling_subtrees orchard orchard_subtrees ironwood ironwood_subtrees history).

(** Two parallel tasks: a panic of either one is a panic; otherwise the first
    result is examined first. *)
Definition both {A B} (x : Result A) (y : Result B) : Result (A * B) :=
  match x, y with
  | Panic, _ | _, Panic => Panic
  | Err e, _ => Err e
  | _, Err e => Err e
  | Ok a, Ok b => Ok (a, b)
  end.

(** [Chain::update_chain_tip_with_block_parallel]. *)
Definition update_block (b : ContextuallyVerifiedBlock) (self : ChainInner) : Result ChainInner :=
  let? nct := tip_trees (max_block_height self) (trees self) in
  let tree_result :=
    let? coinbase := expect (coinbase_height (block b)) in
    map_err TreeUpdateError (update_trees_parallel nct coinbase (note_commitments (block b))) in
  let partial_result := update_except_trees b self in
  let? ' (nct, self) := both tree_result partial_result in
  let? trees := add_trees b nct (trees self) in
  Ok (mkInner (blocks self) (height_by_hash self) (txs self) trees (partial_cumulative_work self)
        (chain_value_pools self) (block_info_by_height self)).

(** [Chain::push]. *)
Definition push (b : ContextuallyVerifiedBlock) (self : Chain) : Result Chain :=
  let? inner := update_block b (inner self) in
  Ok (mkChain (mkInner (<[height b := b]> (blocks inner)) (height_by_hash inner) (txs inner) (trees inner)
        (partial_cumulative_work inner) (chain_value_pools inner) (block_info_by_height inner))
      (last_fork_height self)).

(** ** Reverting blocks *)

(** The trees of a block are reverted; [tip] is the tip height of the chain
    without the block. *)
Definition remove_trees (position : RevertPosition) (h : Z) (tip : option Z) (self : Trees) : Result Trees :=
  let? sprout := remove_sprout position h tip (sprout_trees self) in
  let? sapling := remove_tree_and_anchor position h tip (sapling_trees self) in
  let? orchard := remove_tree_and_anchor position h tip (orchard_trees self) in
  let? ironwood := remove_tree_and_anchor position h tip (ironwood_trees self) in
  let? history := remove_history_tree position h (history_trees_by_height self) in
  Ok (mkChainTrees sprout sapling (sapling_subtrees self) orchard (orchard_subtrees self)
        ironwood (ironwood_subtrees self) history).

(** [revert_chain_with] of a block. *)
Definition revert_block (b : ContextuallyVerifiedBlock) (position : RevertPosition) (self : ChainInner) :
    Result ChainInner :=
  let? ' (_, by_hash) := remove_present (hash b) (height_by_hash self) in
  let? work := block_work b in
  let? work := PartialCumulativeWork.sub (partial_cumulative_work self) work in
  let? txs := revert_transactions b (zipped b) (txs self) in
  let? trees := remove_trees position (height b) (max_block_height self) (trees self) in
  let? ' (pools, info) := revert_pools position (chain_value_pool_change b) (height b)
    (chain_value_pools self) (block_info_by_height self) in
  Ok (mkInner (blocks self) by_hash txs trees work pools info).

(** The last subtree is removed when the block at [h] completed it. *)
Definition pop_last_subtree (h : Z) (subtrees : gmap Z (NoteCommitmentSubtreeData Node)) :
    gmap Z (NoteCommitmentSubtreeData Node) :=
  match last_key_value subtrees with
  | Some (i, subtree) => if data_end_height subtree =? h then delete i subtrees else subtrees
  | None => subtrees
  end.

(** [BTreeMap::pop_first], when the treestate has a subtree. *)
Definition pop_first_subtree (subtree : option (NoteCommitmentSubtree Node))
    (subtrees : gmap Z (NoteCommitmentSubtreeData Node)) : gmap Z (NoteCommitmentSubtreeData Node) :=
  match subtree, first_key_value subtrees with
  | Some _, Some (i, _) => delete i subtrees
  | _, _ => subtrees
  end.

Definition with_subtrees (f : gmap Z (NoteCommitmentSubtreeData Node) -> gmap Z (NoteCommitmentSubtreeData Node))
    (g : gmap Z (NoteCommitmentSubtreeData Node) -> gmap Z (NoteCommitmentSubtreeData Node))
    (k : gmap Z (NoteCommitmentSubtreeData Node) -> gmap Z (NoteCommitmentSubtreeData Node)) (self : Trees) : Trees :=
  mkChainTrees (sprout_trees self) (sapling_trees self) (f (sapling_subtrees self))
    (orchard_trees self) (g (orchard_subtrees self)) (ironwood_trees self) (k (ironwood_subtrees self))
    (history_trees_by_height self).

Definition without_block (h : Z) (t : Trees) (self : ChainInner) : ChainInner :=
  mkInner (delete h (blocks self)) (height_by_hash self) (txs self) t (partial_cumulative_work self)
    (chain_value_pools self) (block_info_by_height self).

(** [Chain::pop_tip]. *)
Definition pop_tip (self : Chain) : Result Chain :=
  let? block_height := non_finalized_tip_height (inner self) in
  let? b := expect (blocks (inner self) !! block_height) in
  let pop := pop_last_subtree block_height in
  let popped := without_block block_height (with_subtrees pop pop pop (trees (inner self))) (inner self) in
  do? assert_that (negb (is_empty popped)) in
  let? reverted := revert_block b RevertTip popped in
  Ok (mkChain reverted (last_fork_height self)).

(** [Chain::treestate], by height. *)
Definition treestate (h : Z) (self : Trees) : option (NoteCommitmentTrees STree PTree Node * HistoryTree) :=
  sprout ← tree_at h (sprout_index (sprout_trees self));
  sapling ← tree_at h (sapling_trees self);
  orchard ← tree_at h (orchard_trees self);
  ironwood ← tree_at h (ironwood_trees self);
  history_tree ← history_trees_by_height self !! h;
  Some (mkTrees sprout sapling (subtree_at h (sapling_subtrees self)) orchard (subtree_at h (orchard_subtrees self))
          ironwood (subtree_at h (ironwood_subtrees self)), history_tree).

(** [Chain::pop_root]. *)
Definition pop_root (self : Chain) :
    Result (ContextuallyVerifiedBlock * (NoteCommitmentTrees STree PTree Node * HistoryTree) * Chain) :=
  let? block_height := non_finalized_root_height (inner self) in
  let? treestate := expect (treestate block_height (trees (inner self))) in
  let t := with_subtrees (pop_first_subtree (NoteTrees.sapling_subtree treestate.1))
    (pop_first_subtree (NoteTrees.orchard_subtree treestate.1))
    (pop_first_subtree (NoteTrees.ironwood_subtree treestate.1)) (trees (inner self)) in
  let? b := expect (blocks (inner self) !! block_height) in
  let? reverted := revert_block b RevertRoot (without_block block_height t (inner self)) in
  Ok (b, treestate, mkChain reverted (last_fork_height self)).

(** The loop of [Chain::fork]; each iteration removes a block. *)
Fixpoint fork_loop (fuel : nat) (fork_tip : Hash) (forked : Chain) : Result Chain :=
  match fuel with
  | O => Panic
  | S fuel =>
      let? tip_hash := non_finalized_tip_hash (inner forked) in
      if decide (tip_hash = fork_tip) then Ok forked
      else
        let? forked := pop_tip forked in
        let? tip := non_finalized_tip_height (inner forked) in
        fork_loop fuel fork_tip (mkChain (inner forked) (Some tip))
  end.

(** [Chain::fork]. *)
Definition fork (fork_tip : Hash) (self : Chain) : Result (option Chain) :=
  match height_by_hash (inner self) !! fork_tip with
  | None => Ok None
  | Some _ =>
      let? forked := fork_loop (size (blocks (inner self))) fork_tip self in
      Ok (Some forked)
  end.

(** [Chain::child_blocks]: the block at a height and its descendants, in order. *)
Definition child_blocks (block_height : Z) (self : ChainInner) : list ContextuallyVerifiedBlock :=
  match max_block_height self with
  | None => []
  | Some tip => omap (fun h => blocks self !! h) (seqZ block_height (tip - block_height + 1))
  end.

(** [Option<Height>::min], where [None] is the least. *)
Definition option_min (x y : option Z) : option Z :=
  match x, y with Some x, Some y => Some (Z.min x y) | _, _ => None end.

(** [Chain::invalidate_block]. *)
Definition chain_invalidate_block (block_hash : Hash) (self : Chain) :
    Result (option (Chain * list ContextuallyVerifiedBlock)) :=
  match height_by_hash (inner self) !! block_hash with
  | None => Ok None
  | Some block_height =>
      let? new_chain := fork block_hash self in
      match new_chain with
      | None => Ok None
      | Some new_chain =>
          let? new_chain := pop_tip new_chain in
          Ok (Some (mkChain (inner new_chain) (option_min (last_fork_height self) (Some block_height)),
                child_blocks block_height (inner self)))
      end
  end.

(** [Chain::new]. *)
Definition new_chain (finalized_tip_height : Z) (nct : NoteCommitmentTrees STree PTree Node)
    (history_tree : HistoryTree) (finalized_tip_chain_value_pools : Balance NonNegative) : Result Chain :=
  let h := finalized_tip_height in
  let? sprout := add_sprout h (NoteTrees.sprout nct) (mkSproutIndex empty_index ∅) in
  let? sapling := add_pool h (NoteTrees.sapling nct) empty_index in
  let? orchard := add_pool h (NoteTrees.orchard nct) empty_index in
  let? ironwood := add_pool h (NoteTrees.ironwood nct) empty_index in
  let? history := add_history_tree h history_tree ∅ in
  Ok (mkChain (mkInner ∅ ∅ (mkTxIndexes ∅ ∅ ∅ ∅ ∅ ∅ ∅ ∅)
        (mkChainTrees sprout sapling ∅ orchard ∅ ironwood ∅ history) PartialCumulativeWork.zero
        finalized_tip_chain_value_pools ∅) None).
End Operations.
