(* ===== verification/ChainInvariant.v ===== *)
(** * The invariant of a non-finalized chain

    The indexes of [NonFinalizedChain] are a function of the blocks of the
    chain.  [TxIndexesOf] says so of the maps that the transactions update, and
    [ChainWf] of the whole chain: it holds of a new chain, [push] and both
    [pop]s preserve it, none of their assertions can fail, and [pop_tip] after
    [push] gives back the chain, field by field. *)

From stdpp Require Import gmultiset.
From S2P Require Import Prelude Amounts ValueBalances Difficulty Networks NoteTrees ChainIndexes NonFinalizedChain.

(** [run_inv U] inverts a successful computation, with the pairs it binds. *)
Ltac run_inv :=
  repeat (progress (outcome_inv;
    try match goal with U : (let '(_, _) := ?p in _) = Ok _ |- _ => destruct p end)).

Section Transactions.
Context `{CB : ConsensusBuild} `{CO : ChainOps}.
Notation CreatedMap := (gmap OutPoint (OrderedUtxo (Script:=Script))).
Notation Transfer := (Transfer (TxHash:=TxHash) (Script:=Script)).

(** ** What a transaction adds to the indexes *)

(** A transaction in its block. *)
Record LocatedTx := mkLocated {
  l_block : ContextuallyVerifiedBlock;
  l_index : Z;
  l_tx : Transaction;
  l_hash : TxHash;
}.

Definition created_of (nos : CreatedMap) (h : TxHash) (idxs : list Z) : list (OutPoint * OrderedUtxo) :=
  omap (fun i => u ← nos !! (h, i); Some ((h, i), u)) idxs.
Definition received_of (nos : CreatedMap) (h : TxHash) (idxs : list Z) : list (Address * Transfer) :=
  omap (fun i => u ← nos !! (h, i); a ← output_address (output (utxo u)); Some (a, Received (h, i) u)) idxs.
Definition spent_of (h : TxHash) (ins : list Input) : list (OutPoint * TxHash) :=
  omap (fun i => o ← outpoint i; Some (o, h)) ins.
Definition sent_of (spent : CreatedMap) (h : TxHash) (ins : list Input) : list (Address * Transfer) :=
  omap (fun i => o ← outpoint i; u ← spent !! o; a ← output_address (output (utxo u)); Some (a, Sent o h u)) ins.

Definition l_locations (l : LocatedTx) : list (TxHash * (Z * Z)) := [(l_hash l, (height (l_block l), l_index l))].
Definition l_created (l : LocatedTx) : list (OutPoint * OrderedUtxo) :=
  created_of (new_outputs (l_block l)) (l_hash l) (output_indexes (l_tx l)).
Definition l_spent (l : LocatedTx) : list (OutPoint * TxHash) := spent_of (l_hash l) (inputs (l_tx l)).
Definition l_transfers (l : LocatedTx) : list (Address * Transfer) :=
  received_of (new_outputs (l_block l)) (l_hash l) (output_indexes (l_tx l)) ++
  sent_of (spent_outputs (l_block l)) (l_hash l) (inputs (l_tx l)).
Definition l_sprout (l : LocatedTx) : list (Nullifier * TxHash) := revealed (tx_sprout_nullifiers (l_tx l)) (l_hash l).
Definition l_sapling (l : LocatedTx) : list (Nullifier * TxHash) := revealed (tx_sapling_nullifiers (l_tx l)) (l_hash l).
Definition l_orchard (l : LocatedTx) : list (Nullifier * TxHash) := revealed (tx_orchard_nullifiers (l_tx l)) (l_hash l).
Definition l_ironwood (l : LocatedTx) : list (Nullifier * TxHash) := revealed (tx_ironwood_nullifiers (l_tx l)) (l_hash l).

(** The outputs of a transaction and the outputs it spends are known, as the
    reverts expect. *)
Definition outputs_known (nos : CreatedMap) (h : TxHash) (idxs : list Z) : Prop :=
  Forall (fun i => u32_checked i = Some i /\ is_Some (nos !! (h, i))) idxs.
Definition inputs_known (spent : CreatedMap) (ins : list Input) : Prop :=
  Forall (fun i => forall o, outpoint i = Some o -> is_Some (spent !! o)) ins.

Definition utxo_ok (u : OrderedUtxo (Script:=Script)) : Prop :=
  Amount.valid (value (output (utxo u))) /\ 0 <= tx_index_in_block u <= U16_MAX.

(** The UTXOs of a block are valid values of their types. *)
Definition utxos_ok (b : ContextuallyVerifiedBlock) : Prop :=
  map_Forall (fun _ u => utxo_ok u) (new_outputs b) /\ map_Forall (fun _ u => utxo_ok u) (spent_outputs b).

Definition located_ok (l : LocatedTx) : Prop :=
  outputs_known (new_outputs (l_block l)) (l_hash l) (output_indexes (l_tx l)) /\
  inputs_known (spent_outputs (l_block l)) (inputs (l_tx l)).

(** The indexes are those of the transactions [ls]. *)
Record TxIndexesOf (ls : list LocatedTx) (x : TxIndexes) : Prop := {
  of_ok : Forall located_ok ls;
  of_locations : Ext ∅ (ls ≫= l_locations) (tx_loc_by_hash x);
  of_created : Ext ∅ (ls ≫= l_created) (chain_created_utxos x);
  of_spent : Ext ∅ (ls ≫= l_spent) (chain_spent_utxos x);
  of_sprout : Ext ∅ (ls ≫= l_sprout) (sprout_nullifiers x);
  of_sapling : Ext ∅ (ls ≫= l_sapling) (sapling_nullifiers x);
  of_orchard : Ext ∅ (ls ≫= l_orchard) (orchard_nullifiers x);
  of_ironwood : Ext ∅ (ls ≫= l_ironwood) (ironwood_nullifiers x);
  of_transfers : IndexOf (partial_transparent_transfers x) (ls ≫= l_transfers);
}.

(** No address moves more than [MAX_MONEY] in these transactions. *)
Definition volumes_ok (es : list (Address * Transfer)) : Prop :=
  forall a, volume (transfers_of a es) <= MAX_MONEY.

Lemma TxIndexesOf_unique ls x y : TxIndexesOf ls x -> TxIndexesOf ls y -> x = y.
Proof.
  intros [? (_&_&?) (_&_&?) (_&_&?) (_&_&?) (_&_&?) (_&_&?) (_&_&?) A]
         [? (_&_&?) (_&_&?) (_&_&?) (_&_&?) (_&_&?) (_&_&?) (_&_&?) A'].
  destruct x, y; cbn in *. pose proof (IndexOf_unique _ _ _ A A'). congruence.
Qed.

Lemma TxIndexesOf_empty : TxIndexesOf [] (mkTxIndexes ∅ ∅ ∅ ∅ ∅ ∅ ∅ ∅).
Proof. split; cbn; try (by apply Ext_nil); [constructor|apply IndexOf_empty]. Qed.

(** ** Updating the indexes *)

Lemma received_ok (o : OutPoint) u : utxo_ok u -> transfer_ok (Received o u).
Proof. intros [V I]. split; [|done]. unfold Amount.valid in V. cbn in *. done. Qed.
Lemma sent_ok (o : OutPoint) tx u : utxo_ok u -> transfer_ok (Sent o tx u).
Proof. intros [V I]. split; [|done]. unfold Amount.valid in V. cbn in *. done. Qed.

Lemma update_outputs_of idxs h nos m0 lc created lt transfers created' transfers' :
  map_Forall (fun _ u => utxo_ok u) nos -> Ext m0 lc created -> IndexOf transfers lt ->
  update_outputs idxs h nos created transfers = Ok (created', transfers') ->
  outputs_known nos h idxs /\ Ext m0 (lc ++ created_of nos h idxs) created' /\
  IndexOf transfers' (lt ++ received_of nos h idxs).
Proof.
  intros V. revert lc created lt transfers.
  induction idxs as [|i idxs IH]; intros lc created lt transfers X Y U; cbn [update_outputs] in U.
  - injection U as <- <-. rewrite !app_nil_r. split; [by constructor|done].
  - outcome_inv. apply checked_Some in H as [-> Hi].
    pose proof (insert_new_Ext _ _ _ _ _ _ X H1) as X'.
    assert (Y' : IndexOf a2 (lt ++ received_of nos h [i])).
    { unfold received_of. cbn. rewrite H0. cbn. destruct (output_address _) as [a|].
      - eapply index_update_of; [done|apply received_ok; by eapply (V _ _ H0)|done].
      - injection H2 as <-. by rewrite app_nil_r. }
    destruct (IH _ _ _ _ X' Y' U) as (K & X'' & Y''). split; [|split].
    + constructor; [|done]. rewrite checked_ok by done. split; [done|]. by rewrite H0.
    + unfold created_of in *. cbn. rewrite H0. cbn. by rewrite <- app_assoc in X''.
    + unfold received_of in *. rewrite <- app_assoc in Y''. by rewrite <- omap_app in Y''.
Qed.

Lemma update_inputs_of ins h spent_outs m0 ls spent lt transfers spent' transfers' :
  map_Forall (fun _ u => utxo_ok u) spent_outs -> Ext m0 ls spent -> IndexOf transfers lt ->
  update_inputs ins h spent_outs spent transfers = Ok (spent', transfers') ->
  inputs_known spent_outs ins /\ Ext m0 (ls ++ spent_of h ins) spent' /\
  IndexOf transfers' (lt ++ sent_of spent_outs h ins).
Proof.
  intros V. revert ls spent lt transfers.
  induction ins as [|i ins IH]; intros ls spent lt transfers X Y U; cbn [update_inputs] in U.
  - injection U as <- <-. rewrite !app_nil_r. split; [by constructor|done].
  - destruct (outpoint i) as [o|] eqn:O.
    + outcome_inv. pose proof (insert_new_Ext _ _ _ _ _ _ X H) as X'.
      assert (Y' : IndexOf a1 (lt ++ sent_of spent_outs h [i])).
      { unfold sent_of. cbn. rewrite O. cbn. rewrite H0. cbn. destruct (output_address _) as [a'|].
        - eapply index_update_of; [done|apply sent_ok; by eapply (V _ _ H0)|done].
        - injection H1 as <-. by rewrite app_nil_r. }
      destruct (IH _ _ _ _ X' Y' U) as (K & X'' & Y''). split; [|split].
      * constructor; [|done]. intros o' Ho. rewrite O in Ho. injection Ho as <-. by rewrite H0.
      * unfold spent_of in *. cbn. rewrite O. cbn. by rewrite <- app_assoc in X''.
      * unfold sent_of in *. rewrite <- app_assoc in Y''. by rewrite <- omap_app in Y''.
    + destruct (IH _ _ _ _ X Y U) as (K & X'' & Y''). unfold inputs_known, spent_of, sent_of in *.
      cbn. rewrite O. cbn. split; [|done]. constructor; [|done]. intros o Ho. congruence.
Qed.

Lemma bind_snoc {A B} (f : A -> list B) l x : (l ++ [x]) ≫= f = (l ≫= f) ++ f x.
Proof. rewrite bind_app. cbn. by rewrite app_nil_r. Qed.

Lemma bind_middle {A B} (f : A -> list B) l1 x l2 :
  (l1 ++ x :: l2) ≫= f = (l1 ≫= f) ++ f x ++ (l2 ≫= f).
Proof. by rewrite bind_app, bind_cons. Qed.

Lemma update_transaction_of ls x b i tx h x' :
  TxIndexesOf ls x -> utxos_ok b -> update_transaction b i tx h x = Ok x' ->
  TxIndexesOf (ls ++ [mkLocated b i tx h]) x'.
Proof.
  intros X [V V'] U. unfold update_transaction in U. run_inv.
  unfold transaction_location_from_usize in H3. outcome_inv. apply checked_Some in H7 as [-> _].
  destruct (update_outputs_of _ _ _ _ _ _ _ _ _ _ V (of_created _ _ X) (of_transfers _ _ X) H5) as (K & Xc & Xt).
  destruct (update_inputs_of _ _ _ _ _ _ _ _ _ _ V' (of_spent _ _ X) Xt H6) as (K' & Xs & Xt').
  split; rewrite ?bind_snoc; cbn.
  - apply Forall_app. split; [apply X|]. by apply Forall_singleton.
  - eapply insert_new_Ext; [apply X|done].
  - done.
  - done.
  - eapply add_unique_Ext; [apply X|done].
  - eapply add_unique_Ext; [apply X|done].
  - eapply add_unique_Ext; [apply X|done].
  - eapply add_unique_Ext; [apply X|done].
  - unfold l_transfers. cbn. by rewrite app_assoc.
Qed.

(** ** Reverting the indexes *)

Lemma volume_app (xs ys : list Transfer) : volume (xs ++ ys) = volume xs + volume ys.
Proof. unfold volume. induction xs as [|e xs IH]; cbn; [done|]. rewrite IH. lia. Qed.

Lemma volumes_remove (transfers : gmap Address TransparentTransfers) es1 a e es2 :
  IndexOf transfers (es1 ++ (a, e) :: es2) -> volumes_ok (es1 ++ (a, e) :: es2) ->
  volumes_ok (es1 ++ es2) /\ - MAX_MONEY <= total_delta (transfers_of a (es1 ++ es2)) <= MAX_MONEY.
Proof.
  intros X V.
  assert (P : forall b, exists l, transfers_of b (es1 ++ (a, e) :: es2) ≡ₚ l ++ transfers_of b (es1 ++ es2)).
  { intros b. rewrite !transfers_of_app, transfers_of_cons. destruct (decide (a = b)) as [->|].
    - exists [e]. by rewrite <- Permutation_middle.
    - by exists []. }
  assert (V' : volumes_ok (es1 ++ es2) /\ forall b, Forall transfer_ok (transfers_of b (es1 ++ es2))).
  { assert (Q : forall b, Forall transfer_ok (transfers_of b (es1 ++ es2)) /\
        volume (transfers_of b (es1 ++ es2)) <= volume (transfers_of b (es1 ++ (a, e) :: es2))).
    { intros b. destruct (P b) as [l Pl]. destruct (X b) as [W _]. pose proof (tw_ok _ W) as O.
      rewrite Pl in O. apply Forall_app in O as [Ol O]. split; [done|].
      assert (Vp : forall xs ys : list Transfer, xs ≡ₚ ys -> volume xs = volume ys)
        by (induction 1; unfold volume in *; cbn; lia).
      rewrite (Vp _ _ Pl), volume_app. pose proof (volume_bounds _ Ol). lia. }
    split; [|intros; apply Q]. intros b. specialize (V b). destruct (Q b). lia. }
  destruct V' as [V' O]. split; [done|]. pose proof (volume_bounds _ (O a)). specialize (V' a). lia.
Qed.

Lemma revert_outputs_of idxs h nos m0 lc1 lc2 created lt1 lt2 transfers :
  outputs_known nos h idxs -> Ext m0 (lc1 ++ created_of nos h idxs ++ lc2) created ->
  IndexOf transfers (lt1 ++ received_of nos h idxs ++ lt2) -> volumes_ok (lt1 ++ received_of nos h idxs ++ lt2) ->
  exists created' transfers', revert_outputs idxs h nos created transfers = Ok (created', transfers') /\
    Ext m0 (lc1 ++ lc2) created' /\ IndexOf transfers' (lt1 ++ lt2) /\ volumes_ok (lt1 ++ lt2).
Proof.
  revert created transfers. induction idxs as [|i idxs IH]; intros created transfers K X Y V; cbn [revert_outputs].
  - cbn in *. do 2 eexists. split; [reflexivity|done].
  - apply Forall_cons in K as [[-> [u L]] K]. cbn [expect obind]. rewrite L. cbn [expect obind].
    unfold created_of, received_of in X, Y, V. cbn in X, Y, V. rewrite L in X, Y, V. cbn in X, Y, V.
    destruct (remove_present_Ext (E:=ValidateContextError) _ _ _ _ _ _ X) as [-> X']. cbn [obind].
    destruct (output_address (output (utxo u))) as [a|]; cbn in Y, V.
    + destruct (volumes_remove _ _ _ _ _ Y V) as [V' R].
      destruct (index_revert_of (E:=ValidateContextError) _ _ _ _ _ Y R) as (t' & -> & Y'). cbn [obind]. by apply IH.
    + cbn [obind]. by apply IH.
Qed.

Lemma revert_inputs_of ins h spent_outs m0 ls1 ls2 spent lt1 lt2 transfers :
  inputs_known spent_outs ins -> Ext m0 (ls1 ++ spent_of h ins ++ ls2) spent ->
  IndexOf transfers (lt1 ++ sent_of spent_outs h ins ++ lt2) -> volumes_ok (lt1 ++ sent_of spent_outs h ins ++ lt2) ->
  exists spent' transfers', revert_inputs ins h spent_outs spent transfers = Ok (spent', transfers') /\
    Ext m0 (ls1 ++ ls2) spent' /\ IndexOf transfers' (lt1 ++ lt2) /\ volumes_ok (lt1 ++ lt2).
Proof.
  revert spent transfers. induction ins as [|i ins IH]; intros spent transfers K X Y V; cbn [revert_inputs].
  - cbn in *. do 2 eexists. split; [reflexivity|done].
  - apply Forall_cons in K as [Ki K]. unfold spent_of, sent_of in X, Y, V. cbn in X, Y, V.
    destruct (outpoint i) as [o|] eqn:O; cbn in X, Y, V; [|by apply IH].
    destruct (Ki o eq_refl) as [u L]. rewrite L in Y, V. cbn in Y, V.
    destruct (remove_present_Ext (E:=ValidateContextError) _ _ _ _ _ _ X) as [-> X']. cbn [obind].
    rewrite L. cbn [expect obind]. destruct (output_address (output (utxo u))) as [a|]; cbn in Y, V.
    + destruct (volumes_remove _ _ _ _ _ Y V) as [V' R].
      destruct (index_revert_of (E:=ValidateContextError) _ _ _ _ _ Y R) as (t' & -> & Y'). cbn [obind]. by apply IH.
    + cbn [obind]. by apply IH.
Qed.

(** Reverting a transaction anywhere in the chain removes exactly its part. *)
Lemma revert_transaction_of ls1 l ls2 x :
  TxIndexesOf (ls1 ++ l :: ls2) x -> volumes_ok ((ls1 ++ l :: ls2) ≫= l_transfers) ->
  exists x', revert_transaction (l_block l) (l_tx l) (l_hash l) x = Ok x' /\
    TxIndexesOf (ls1 ++ ls2) x' /\ volumes_ok ((ls1 ++ ls2) ≫= l_transfers).
Proof.
  intros [O Lo C S Sp Sa Or Ir T] V.
  repeat match goal with X : context [(_ ++ _ :: _) ≫= _] |- _ => rewrite bind_middle in X end.
  apply Forall_app in O as [O1 O2]. apply Forall_cons in O2 as [[K K'] O2].
  unfold revert_transaction, l_transfers in *. rewrite <- app_assoc in T, V.
  destruct (revert_outputs_of _ _ _ _ _ _ _ _ _ _ K C T V) as (c & t & -> & C' & T' & V'). cbn [obind].
  destruct (revert_inputs_of _ _ _ _ _ _ _ _ _ _ K' S T' V') as (s & t' & -> & S' & T'' & V''). cbn [obind].
  destruct (remove_present_Ext (E:=ValidateContextError) _ _ _ _ _ _ Lo) as [-> Lo']. cbn [obind].
  destruct (remove_Ext (E:=ValidateContextError) _ _ _ _ _ _ Sp) as (sp & -> & Sp'). cbn [obind].
  destruct (remove_Ext (E:=ValidateContextError) _ _ _ _ _ _ Sa) as (sa & -> & Sa'). cbn [obind].
  destruct (remove_Ext (E:=ValidateContextError) _ _ _ _ _ _ Or) as (or & -> & Or'). cbn [obind].
  destruct (remove_Ext (E:=ValidateContextError) _ _ _ _ _ _ Ir) as (ir & -> & Ir'). cbn [obind].
  eexists; split; [done|]. split; [|by rewrite bind_app].
  split; rewrite ?bind_app; cbn; try done. by apply Forall_app.
Qed.

(** The transactions of a block, in order. *)
Fixpoint located_from (b : ContextuallyVerifiedBlock) (i : Z) (l : list (Transaction * TxHash)) : list LocatedTx :=
  match l with
  | [] => []
  | (tx, h) :: l => mkLocated b i tx h :: located_from b (i + 1) l
  end.
Definition located (b : ContextuallyVerifiedBlock) : list LocatedTx := located_from b 0 (zipped b).

Lemma update_transactions_of ls x b i l x' :
  TxIndexesOf ls x -> utxos_ok b -> update_transactions b i l x = Ok x' ->
  TxIndexesOf (ls ++ located_from b i l) x'.
Proof.
  revert ls x i. induction l as [|[tx h] l IH]; intros ls x i X V U; cbn in *.
  - injection U as <-. by rewrite app_nil_r.
  - outcome_inv. rewrite cons_middle, app_assoc. eapply IH; [|done..]. by eapply update_transaction_of.
Qed.

Lemma revert_transactions_of ls1 b i l ls2 x :
  TxIndexesOf (ls1 ++ located_from b i l ++ ls2) x ->
  volumes_ok ((ls1 ++ located_from b i l ++ ls2) ≫= l_transfers) ->
  exists x', revert_transactions b l x = Ok x' /\ TxIndexesOf (ls1 ++ ls2) x'.
Proof.
  revert x i. induction l as [|[tx h] l IH]; intros x i X V; cbn in *; [eauto|].
  destruct (revert_transaction_of _ _ _ _ X V) as (x1 & R & X1 & V1). cbn in R. rewrite R. cbn [obind].
  by eapply IH.
Qed.
End Transactions.

(** ** Trees *)

Section ChainTrees.
Context `{CO : ChainOps}.

(** The trees that are found by their anchor are those of the anchors. *)
Record SproutWf (lo hi : Z) (s : SproutIndex) : Prop := {
  sw_index : TreeWf sprout_root lo hi (sprout_index s);
  sw_anchors a : is_Some (trees_by_anchor s !! a) <-> a ∈ anchors (sprout_index s);
  sw_root a t : trees_by_anchor s !! a = Some t -> sprout_root t = a;
}.

Lemma remove_height_anchors {E} h (idx idx' : TreeIndex (T:=STree) (Root:=Root)) a :
  remove_height (E:=E) h idx = Ok (a, idx') -> a ∈ anchors idx /\ anchors idx' = anchors idx ∖ {[+ a +]}.
Proof.
  unfold remove_height, remove_present. intros R. run_inv.
  match goal with X : bool_decide _ = true |- _ => by apply bool_decide_eq_true in X end.
Qed.

(** The loop over the Sprout heights is the loop of the other pools, and keeps
    the trees of the remaining anchors. *)
Lemma remove_sprout_heights_ok {E} hs s idx :
  (forall a, is_Some (trees_by_anchor s !! a) <-> a ∈ anchors (sprout_index s)) ->
  remove_heights (E:=E) hs (sprout_index s) = Ok idx ->
  remove_sprout_heights (E:=E) hs s =
    Ok (mkSproutIndex idx (filter (fun e => e.1 ∈ anchors idx) (trees_by_anchor s))) /\
  anchors idx ⊆ anchors (sprout_index s).
Proof.
  revert s. induction hs as [|h hs IH]; intros s D R; cbn in *.
  - injection R as <-. split; [|done]. destruct s as [i m]; cbn in *. do 2 f_equal. symmetry. apply map_filter_id.
    intros a t L. cbn. apply D. eauto.
  - outcome_inv. destruct a as [a idx1]. rewrite H. cbn [obind].
    apply remove_height_anchors in H as [A A'].
    set (m := if bool_decide (a ∈ anchors idx1) then trees_by_anchor s else delete a (trees_by_anchor s)).
    assert (M : forall b, m !! b = if bool_decide (b ∈ anchors idx1) then trees_by_anchor s !! b else None).
    { intros b. unfold m. destruct (decide (b = a)) as [->|N].
      - case_bool_decide; [done|]. by rewrite lookup_delete_eq.
      - assert (Hb : b ∈ anchors idx1 <-> b ∈ anchors (sprout_index s)) by (rewrite A'; multiset_solver).
        rewrite (bool_decide_ext _ _ Hb). specialize (D b).
        transitivity (trees_by_anchor s !! b); [case_bool_decide; [done|by rewrite lookup_delete_ne]|].
        case_bool_decide; [done|]. apply eq_None_not_Some. tauto. }
    destruct (IH (mkSproutIndex idx1 m)) as [-> Sub]; cbn in *.
    + intros b. rewrite M. specialize (D b). case_bool_decide as B; [|split; [by intros []|done]].
      rewrite D. split; [done|]. intros _. rewrite A' in B. multiset_solver.
    + done.
    + split; [|rewrite A' in Sub; multiset_solver]. do 2 f_equal. apply map_eq. intros b. apply option_eq. intros t.
      rewrite !map_lookup_filter_Some, M. cbn. case_bool_decide as B; [done|].
      split; [by intros []|]. intros [_ In]. exfalso. apply B. clear -Sub In. multiset_solver.
Qed.

Lemma remove_sprout_ok {E} position h tip s idx :
  (forall a, is_Some (trees_by_anchor s !! a) <-> a ∈ anchors (sprout_index s)) ->
  remove_tree_and_anchor (E:=E) position h tip (sprout_index s) = Ok idx ->
  remove_sprout (E:=E) position h tip s =
    Ok (mkSproutIndex idx (filter (fun e => e.1 ∈ anchors idx) (trees_by_anchor s))) /\
  anchors idx ⊆ anchors (sprout_index s).
Proof.
  intros D R. unfold remove_tree_and_anchor in R. outcome_inv.
  destruct (remove_sprout_heights_ok _ _ _ D H) as [R Sub]. unfold remove_sprout. rewrite R. cbn [obind sprout_index].
  rewrite H0. done.
Qed.

Lemma filtered_sprout_wf lo hi s (idx : TreeIndex (T:=STree) (Root:=Root)) :
  SproutWf lo hi s -> anchors idx ⊆ anchors (sprout_index s) ->
  (forall a, is_Some (filter (fun e => e.1 ∈ anchors idx) (trees_by_anchor s) !! a) <-> a ∈ anchors idx) /\
  (forall a t, filter (fun e => e.1 ∈ anchors idx) (trees_by_anchor s) !! a = Some t -> sprout_root t = a).
Proof.
  intros W Sub. split.
  - intros a. split; [by intros [t [_ ?]%map_lookup_filter_Some]|]. intros In.
    assert (a ∈ anchors (sprout_index s)) as [t L]%(sw_anchors _ _ _ W) by (clear -Sub In; multiset_solver).
    exists t. by apply map_lookup_filter_Some.
  - intros a t [L _]%map_lookup_filter_Some. by apply (sw_root _ _ _ W).
Qed.

Lemma add_sprout_ok {E} lo hi t s : SproutWf lo hi s -> hi < Height.MAX ->
  exists s', add_sprout (E:=E) (hi + 1) t s = Ok s' /\ SproutWf lo (hi + 1) s'.
Proof.
  intros W M. unfold add_sprout.
  destruct (add_next (E:=E) sprout_root sprout_same sprout_same_spec lo hi t _ (sw_index _ _ _ W) M)
    as (idx & -> & W' & _ & _ & _ & An). cbn [obind]. eexists; split; [done|].
  assert (A : anchors idx = {[+ sprout_root t +]} ⊎ anchors (sprout_index s)).
  { rewrite (wf_all _ _ _ _ W'), (wf_all _ _ _ _ (sw_index _ _ _ W)), An. apply all_anchors_insert.
    apply (wf_none_above _ _ _ _ (hi + 1) (sw_index _ _ _ W)). lia. }
  split; cbn; [done| |].
  - intros a. rewrite lookup_insert_is_Some', (sw_anchors _ _ _ W), A. multiset_solver.
  - intros a u [[<- <-]|[_ L]]%lookup_insert_Some; [done|]. by apply (sw_root _ _ _ W).
Qed.

Lemma remove_sprout_add {E} lo hi tip t s s' : Inj (=) (=) sprout_root ->
  SproutWf lo hi s -> hi < Height.MAX -> tip <= hi + 1 ->
  add_sprout (E:=E) (hi + 1) t s = Ok s' -> remove_sprout (E:=E) RevertTip (hi + 1) (Some tip) s' = Ok s.
Proof.
  intros I W M T0 A. destruct (add_sprout_ok (E:=E) lo hi t s W M) as (s1 & A1 & W1).
  rewrite A in A1. injection A1 as <-. unfold add_sprout in A. outcome_inv.
  pose proof (remove_tip_add _ _ sprout_same_spec _ _ tip _ _ _ (sw_index _ _ _ W) M T0 H) as R.
  destruct (remove_sprout_ok _ _ _ _ _ (sw_anchors _ _ _ W1) R) as [-> _]. cbn. f_equal.
  destruct s as [idx m]. cbn in *. f_equal. apply map_eq. intros b. apply option_eq. intros u.
  rewrite map_lookup_filter_Some. cbn. pose proof (sw_anchors _ _ _ W b) as D. cbn in D.
  pose proof (sw_root _ _ _ W b) as Rt. cbn in Rt. rewrite lookup_insert_Some. split.
  - intros [[[<- <-]|[_ L]] In]; [|done]. apply D in In as [v L]. rewrite L. f_equal. apply I. by apply Rt.
  - intros L. split; [|apply D; eauto]. destruct (decide (sprout_root t = b)) as [<-|]; [left|by right].
    split; [done|]. apply I. symmetry. by apply Rt.
Qed.

Notation Subtrees := (gmap Z (NoteCommitmentSubtreeData Node)).

(** A pool of a chain whose blocks have the heights [root..=hi]: the subtrees
    were completed by blocks of the chain, in the order of their indexes, and
    every subtree completed up to a height is in the tree of that height. *)
Record PoolWf (lo root hi : Z) (idx : TreeIndex (T:=PTree) (Root:=Root)) (subs : Subtrees) : Prop := {
  pw_trees : TreeWf tree_root lo hi idx;
  pw_end i d : subs !! i = Some d -> root <= data_end_height d <= hi;
  pw_order i j d e : i < j -> subs !! i = Some d -> subs !! j = Some e -> data_end_height d < data_end_height e;
  pw_count i d h t : subs !! i = Some d -> data_end_height d <= h <= hi -> tree_at h idx = Some t ->
    (i + 1) * 2 ^ 16 <= tree_count t;
}.

Lemma subtree_at_Some h (subs : Subtrees) s :
  subtree_at h subs = Some s -> subs !! index s = Some (into_data s) /\ end_height s = h.
Proof.
  unfold subtree_at. intros ([i d] & [L _]%first_key_value_Some & ->)%fmap_Some.
  apply map_lookup_filter_Some in L as [L E]. cbn in *. by destruct d.
Qed.

Lemma subtree_at_None h (subs : Subtrees) :
  subtree_at h subs = None -> forall i d, subs !! i = Some d -> data_end_height d <> h.
Proof.
  unfold subtree_at. intros N%fmap_None i d L E.
  pose proof (first_key_value_cases (filter (fun e => data_end_height e.2 = h) subs)) as C. rewrite N in C.
  assert (X : filter (fun e => data_end_height e.2 = h) subs !! i = Some d) by by apply map_lookup_filter_Some.
  rewrite C in X. by rewrite lookup_empty in X.
Qed.

Lemma pop_last_subtree_none h (subs : Subtrees) :
  (forall i d, subs !! i = Some d -> data_end_height d <> h) -> pop_last_subtree h subs = subs.
Proof.
  intros N. unfold pop_last_subtree. destruct (last_key_value subs) as [[i d]|] eqn:L; [|done].
  apply last_key_value_Some in L as [L _]. by rewrite (proj2 (Z.eqb_neq _ _)) by eauto.
Qed.

Lemma pop_last_subtree_insert h i d (subs : Subtrees) :
  (forall j e, subs !! j = Some e -> j < i) -> data_end_height d = h ->
  pop_last_subtree h (<[i := d]> subs) = subs.
Proof.
  intros N E. unfold pop_last_subtree.
  assert (last_key_value (<[i := d]> subs) = Some (i, d)) as ->.
  { apply last_key_value_Some. split; [apply lookup_insert_eq|].
    intros j [e [[? _]|[_ L]]%lookup_insert_Some]; [lia|]. specialize (N j e L). lia. }
  rewrite (proj2 (Z.eqb_eq _ _)) by done. apply delete_insert_id. apply eq_None_not_Some. intros [e L].
  specialize (N i e L). lia.
Qed.

(** The subtrees that remain when the block at [hi + 1] is removed. *)
Lemma pop_last_subtree_wf lo root hi idx (subs : Subtrees) i d :
  PoolWf lo root (hi + 1) idx subs ->
  pop_last_subtree (hi + 1) subs !! i = Some d <-> subs !! i = Some d /\ data_end_height d <= hi.
Proof.
  intros W. unfold pop_last_subtree. destruct (last_key_value subs) as [[k e]|] eqn:L.
  - apply last_key_value_Some in L as [L M]. destruct (Z.eqb_spec (data_end_height e) (hi + 1)) as [E|E].
    + rewrite lookup_delete_Some. split; intros [? ?]; split; try done.
      * assert (i < k) by (pose proof (M i ltac:(eauto)); lia).
        pose proof (pw_order _ _ _ _ _ W _ _ _ _ H1 H0 L). lia.
      * intros <-. rewrite L in H. injection H as ->. lia.
    + split; [|by intros []]. intros Li. split; [done|]. pose proof (pw_end _ _ _ _ _ W _ _ Li).
      pose proof (pw_end _ _ _ _ _ W _ _ L).
      destruct (decide (i = k)) as [->|N]; [rewrite L in Li; injection Li as ->; lia|].
      assert (i < k) by (pose proof (M i ltac:(eauto)); lia).
      pose proof (pw_order _ _ _ _ _ W _ _ _ _ H1 Li L). lia.
  - apply last_key_value_None in L as ->. split; [|by intros []]. by rewrite lookup_empty.
Qed.

Lemma pool_pop_tip {E} lo root hi tip idx (subs : Subtrees) :
  PoolWf lo root (hi + 1) idx subs -> lo <= hi -> tip <= hi + 1 ->
  exists idx', remove_tree_and_anchor (E:=E) RevertTip (hi + 1) (Some tip) idx = Ok idx' /\
    PoolWf lo root hi idx' (pop_last_subtree (hi + 1) subs).
Proof.
  intros W L T0. destruct (remove_tip (E:=E) tree_root _ _ tip _ (pw_trees _ _ _ _ _ W) L T0) as (idx' & R & W' & _ & _ & At).
  exists idx'. split; [done|]. split; [done|..].
  - intros i d [Li ?]%(pop_last_subtree_wf _ _ _ _ _ _ _ W). pose proof (pw_end _ _ _ _ _ W _ _ Li). lia.
  - intros i j d e ? [Li _]%(pop_last_subtree_wf _ _ _ _ _ _ _ W) [Lj _]%(pop_last_subtree_wf _ _ _ _ _ _ _ W).
    by eapply (pw_order _ _ _ _ _ W).
  - intros i d h t [Li ?]%(pop_last_subtree_wf _ _ _ _ _ _ _ W) Hh Ht. rewrite At in Ht by lia.
    eapply (pw_count _ _ _ _ _ W); [done| |done]. lia.
Qed.

(** A block at the next height updates the pool; removing the last subtree of
    that height gives back the subtrees. *)
Lemma pool_push {E} lo root hi idx (subs : Subtrees) t0 tip wrap notes t sub :
  Inj (=) (=) (tree_root (T:=PTree)) ->
  PoolWf lo root hi idx subs -> hi < Height.MAX -> root <= hi + 1 -> tree_at hi idx = Some t0 ->
  (forall h, tip = Some h -> h = hi) ->
  update_pool wrap (hi + 1) t0 (subtree_for_tip tip subs) notes = Ok (t, sub) ->
  exists idx', add_pool (E:=E) (hi + 1) t idx = Ok idx' /\
    PoolWf lo root (hi + 1) idx' (insert_subtree sub subs) /\
    pop_last_subtree (hi + 1) (insert_subtree sub subs) = subs.
Proof.
  intros I W M R T0 Tp U.
  destruct (add_next (E:=E) tree_root tree_same tree_same_spec lo hi t _ (pw_trees _ _ _ _ _ W) M)
    as (idx' & A & W' & Rt & Below & _ & _).
  exists idx'. split; [done|].
  apply fmap_Some in Rt as (t' & At & <-%I).
  assert (C : tree_count t0 <= tree_count t /\
    ((insert_subtree sub subs = subs) \/
     exists i d, insert_subtree sub subs = <[i := d]> subs /\ data_end_height d = hi + 1 /\
       tree_count t0 < (i + 1) * 2 ^ 16 <= tree_count t)).
  { unfold update_pool in U. destruct notes as [|n ns].
    - injection U as <- <-. split; [lia|]. left. unfold subtree_for_tip. destruct tip as [h|]; [|done].
      rewrite (Tp _ eq_refl) in *. destruct (subtree_at hi subs) as [s|] eqn:S; [|done].
      apply subtree_at_Some in S as [S _]. cbn. by apply insert_id.
    - run_inv. destruct (update_tree_subtree _ _ _ _ H) as [C S]. split; [done|].
      destruct o as [[i node]|]; [right|by left]. cbn. exists i, (mkSubtreeData node (hi + 1)).
      split; [done|]. split; [done|]. by eapply S. }
  assert (Old : forall i d, subs !! i = Some d -> root <= data_end_height d <= hi /\ (i + 1) * 2 ^ 16 <= tree_count t0).
  { intros i d L. pose proof (pw_end _ _ _ _ _ W _ _ L). split; [done|]. eapply (pw_count _ _ _ _ _ W); [done| |done]. lia. }
  destruct C as [C [->|(i & d & -> & Ed & Ci)]].
  - split; [|apply pop_last_subtree_none; intros i d L; specialize (Old i d L); lia].
    split; [done|..].
    + intros i d L. specialize (Old i d L). lia.
    + apply (pw_order _ _ _ _ _ W).
    + intros i d h u L Hh Hu. destruct (decide (h = hi + 1)) as [->|].
      * rewrite At in Hu. injection Hu as <-. specialize (Old i d L). lia.
      * rewrite Below in Hu by lia. eapply (pw_count _ _ _ _ _ W); [done| |done]. lia.
  - assert (New : forall j e, subs !! j = Some e -> j < i) by (intros j e L; specialize (Old j e L); lia).
    split; [|by apply pop_last_subtree_insert]. split; [done|..].
    + intros j e [[<- <-]|[_ L]]%lookup_insert_Some; [lia|]. specialize (Old j e L). lia.
    + intros j k e f Lt [[<- <-]|[_ Lj]]%lookup_insert_Some [[<- <-]|[_ Lk]]%lookup_insert_Some; try lia.
      * specialize (New k f Lk). lia.
      * specialize (Old j e Lj). lia.
      * by eapply (pw_order _ _ _ _ _ W).
    + intros j e h u [[<- <-]|[_ L]]%lookup_insert_Some Hh Hu.
      * assert (h = hi + 1) as -> by lia. rewrite At in Hu. injection Hu as <-. lia.
      * destruct (decide (h = hi + 1)) as [->|].
        -- rewrite At in Hu. injection Hu as <-. specialize (Old j e L). lia.
        -- rewrite Below in Hu by lia. eapply (pw_count _ _ _ _ _ W); [done| |done]. lia.
Qed.

(** The subtrees that remain when the root block is finalized. *)
Lemma pop_first_subtree_wf lo root hi idx (subs : Subtrees) i d :
  PoolWf lo root hi idx subs ->
  pop_first_subtree (subtree_at root subs) subs !! i = Some d <-> subs !! i = Some d /\ root < data_end_height d.
Proof.
  intros W. destruct (subtree_at root subs) as [s|] eqn:S.
  - apply subtree_at_Some in S as [S Es]. cbn. destruct (first_key_value subs) as [[k e]|] eqn:K.
    + apply first_key_value_Some in K as [K M]. pose proof (pw_end _ _ _ _ _ W _ _ K) as Ek.
      assert (k = index s) as ->.
      { destruct (decide (k = index s)); [done|]. assert (k < index s) as Lt by (pose proof (M (index s) ltac:(eauto)); lia).
        pose proof (pw_order _ _ _ _ _ W _ _ _ _ Lt K S). cbn in *. lia. }
      rewrite lookup_delete_Some. split; intros [? ?]; split; try done.
      * assert (index s < i) by (pose proof (M i ltac:(eauto)); lia).
        pose proof (pw_order _ _ _ _ _ W _ _ _ _ H1 S H0). cbn in *. lia.
      * intros <-. rewrite S in H. injection H as <-. cbn in *. lia.
    + pose proof (first_key_value_cases subs) as C. rewrite K in C. rewrite C in S. by rewrite lookup_empty in S.
  - cbn. split; [|by intros []]. intros L. split; [done|]. pose proof (pw_end _ _ _ _ _ W _ _ L).
    pose proof (subtree_at_None _ _ S _ _ L). lia.
Qed.

Lemma pool_pop_root {E} lo root hi idx (subs : Subtrees) :
  PoolWf lo root hi idx subs -> lo <= root < hi -> hi <= Height.MAX ->
  exists idx', remove_tree_and_anchor (E:=E) RevertRoot root (Some hi) idx = Ok idx' /\
    PoolWf (root + 1) (root + 1) hi idx' (pop_first_subtree (subtree_at root subs) subs) /\
    (forall h, root < h -> tree_at h idx' = tree_at h idx) /\
    (forall h, root < h -> anchors_by_height idx' !! h = anchors_by_height idx !! h).
Proof.
  intros W L M. destruct (remove_root (E:=E) tree_root tree_same tree_same_spec _ _ root _ (pw_trees _ _ _ _ _ W) L M) as (idx' & R & W' & At & An).
  exists idx'. split; [done|]. split; [|done]. split; [done|..].
  - intros i d [Li ?]%(pop_first_subtree_wf _ _ _ _ _ _ _ W). pose proof (pw_end _ _ _ _ _ W _ _ Li). lia.
  - intros i j d e ? [Li _]%(pop_first_subtree_wf _ _ _ _ _ _ _ W) [Lj _]%(pop_first_subtree_wf _ _ _ _ _ _ _ W).
    by eapply (pw_order _ _ _ _ _ W).
  - intros i d h t [Li ?]%(pop_first_subtree_wf _ _ _ _ _ _ _ W) Hh Ht.
    rewrite At in Ht by lia. by eapply (pw_count _ _ _ _ _ W).
Qed.

(** The trees of a chain whose blocks have the heights [root..=hi]. *)
Record TreesWf (lo root hi : Z) (t : Trees) : Prop := {
  ts_sprout : SproutWf lo hi (sprout_trees t);
  ts_sapling : PoolWf lo root hi (sapling_trees t) (sapling_subtrees t);
  ts_orchard : PoolWf lo root hi (orchard_trees t) (orchard_subtrees t);
  ts_ironwood : PoolWf lo root hi (ironwood_trees t) (ironwood_subtrees t);
  ts_history h : is_Some (history_trees_by_height t !! h) <-> lo <= h <= hi;
}.

Definition pop_subtrees (h : Z) (t : Trees) : Trees :=
  with_subtrees (pop_last_subtree h) (pop_last_subtree h) (pop_last_subtree h) t.

Lemma tip_trees_ok {E} lo root hi tip t : TreesWf lo root hi t ->
  exists nct, tip_trees (E:=E) tip t = Ok nct /\
    tree_at hi (sprout_index (sprout_trees t)) = Some (NoteTrees.sprout nct) /\
    tree_at hi (sapling_trees t) = Some (NoteTrees.sapling nct) /\
    tree_at hi (orchard_trees t) = Some (NoteTrees.orchard nct) /\
    tree_at hi (ironwood_trees t) = Some (NoteTrees.ironwood nct) /\
    NoteTrees.sapling_subtree nct = subtree_for_tip tip (sapling_subtrees t) /\
    NoteTrees.orchard_subtree nct = subtree_for_tip tip (orchard_subtrees t) /\
    NoteTrees.ironwood_subtree nct = subtree_for_tip tip (ironwood_subtrees t).
Proof.
  intros W. unfold tip_trees.
  destruct (tree_for_tip_at (E:=E) _ _ _ _ (sw_index _ _ _ (ts_sprout _ _ _ _ W))) as (sp & -> & ?). cbn [obind].
  destruct (tree_for_tip_at (E:=E) _ _ _ _ (pw_trees _ _ _ _ _ (ts_sapling _ _ _ _ W))) as (sa & -> & ?). cbn [obind].
  destruct (tree_for_tip_at (E:=E) _ _ _ _ (pw_trees _ _ _ _ _ (ts_orchard _ _ _ _ W))) as (o & -> & ?). cbn [obind].
  destruct (tree_for_tip_at (E:=E) _ _ _ _ (pw_trees _ _ _ _ _ (ts_ironwood _ _ _ _ W))) as (i & -> & ?). cbn [obind].
  eexists; split; [done|]. done.
Qed.

(** Adding the updated trees of a block at the next height succeeds or returns
    the error of the history tree, and [remove_trees] undoes it. *)
Lemma add_trees_ok lo root hi tip (t : Trees) nct nct' b :
  Inj (=) (=) (sprout_root (T:=STree)) -> Inj (=) (=) (tree_root (T:=PTree)) ->
  TreesWf lo root hi t -> hi < Height.MAX -> root <= hi + 1 -> (forall h, tip = Some h -> h = hi) ->
  height b = hi + 1 -> coinbase_height (block b) = Some (hi + 1) ->
  tip_trees (E:=ValidateContextError) tip t = Ok nct ->
  update_trees_parallel nct (hi + 1) (note_commitments (block b)) = Ok nct' ->
  (forall ht sa o i, returns (history_push ht (block b) sa o i)) ->
  match add_trees b nct' t with
  | Ok t' => TreesWf lo root (hi + 1) t' /\
      (lo <= hi -> remove_trees RevertTip (hi + 1) (Some hi) (pop_subtrees (hi + 1) t') = Ok t)
  | Err _ => True
  | Panic => False
  end.
Proof.
  intros Is Ip W M R Tp Hb Hc T0 U HR.
  destruct (tip_trees_ok (E:=ValidateContextError) _ _ _ tip _ W) as (n & T0' & Sp & Sa & Or & Ir & Ss & Os & Irs).
  rewrite T0 in T0'. injection T0' as <-.
  unfold update_trees_parallel in U. run_inv. rewrite Ss, Os, Irs in *. unfold add_trees. rewrite Hb. cbn [NoteTrees.sprout NoteTrees.sapling
    NoteTrees.orchard NoteTrees.ironwood NoteTrees.sapling_subtree NoteTrees.orchard_subtree NoteTrees.ironwood_subtree].
  destruct (add_sprout_ok (E:=ValidateContextError) lo hi a _ (ts_sprout _ _ _ _ W) M) as (spr & Asp & Wsp).
  rewrite Asp. cbn [obind].
  destruct (pool_push (E:=ValidateContextError) lo root hi _ _ _ tip _ _ _ _ Ip (ts_sapling _ _ _ _ W) M R Sa Tp H0) as (sap & Asa & Wsa & Psa).
  rewrite Asa. cbn [obind].
  destruct (pool_push (E:=ValidateContextError) lo root hi _ _ _ tip _ _ _ _ Ip (ts_orchard _ _ _ _ W) M R Or Tp H1) as (orc & Ao & Wo & Po).
  rewrite Ao. cbn [obind].
  destruct (pool_push (E:=ValidateContextError) lo root hi _ _ _ tip _ _ _ _ Ip (ts_ironwood _ _ _ _ W) M R Ir Tp H2) as (irn & Ai & Wi & Pi).
  rewrite Ai. cbn [obind].
  destruct (tree_for_tip_at (E:=ValidateContextError) _ _ _ _ (pw_trees _ _ _ _ _ Wsa)) as (? & -> & _). cbn [obind].
  destruct (tree_for_tip_at (E:=ValidateContextError) _ _ _ _ (pw_trees _ _ _ _ _ Wo)) as (? & -> & _). cbn [obind].
  destruct (tree_for_tip_at (E:=ValidateContextError) _ _ _ _ (pw_trees _ _ _ _ _ Wi)) as (? & -> & _). cbn [obind].
  pose proof (last_key_value_cases (history_trees_by_height t)) as K.
  pose proof (wf_range _ _ _ _ (pw_trees _ _ _ _ _ (ts_sapling _ _ _ _ W))) as Rg.
  destruct (last_key_value (history_trees_by_height t)) as [[k ht]|];
    [|destruct (proj2 (ts_history _ _ _ _ W hi) ltac:(lia)) as [? X]; rewrite K in X; by rewrite lookup_empty in X].
  cbn [expect obind]. specialize (HR ht). destruct (history_push _ _ _ _ _) as [ht'| |] eqn:Hp; cbn [map_err obind]; [|done|by eapply HR].
  assert (Nh : history_trees_by_height t !! (hi + 1) = None)
    by (apply eq_None_not_Some; intros X%(ts_history _ _ _ _ W); lia).
  unfold add_history_tree. rewrite insert_new_fresh by done. cbn [obind]. split.
  - split; cbn; try done. intros h. rewrite lookup_insert_is_Some', (ts_history _ _ _ _ W). lia.
  - intros Ll. unfold remove_trees, pop_subtrees, with_subtrees. cbn. rewrite Psa, Po, Pi.
    rewrite (remove_sprout_add _ _ hi _ _ _ Is (ts_sprout _ _ _ _ W) M ltac:(lia) Asp). cbn [obind].
    rewrite (remove_tip_add _ _ tree_same_spec _ _ hi _ _ _ (pw_trees _ _ _ _ _ (ts_sapling _ _ _ _ W)) M ltac:(lia) Asa). cbn [obind].
    rewrite (remove_tip_add _ _ tree_same_spec _ _ hi _ _ _ (pw_trees _ _ _ _ _ (ts_orchard _ _ _ _ W)) M ltac:(lia) Ao). cbn [obind].
    rewrite (remove_tip_add _ _ tree_same_spec _ _ hi _ _ _ (pw_trees _ _ _ _ _ (ts_ironwood _ _ _ _ W)) M ltac:(lia) Ai). cbn [obind].
    unfold remove_present. rewrite lookup_insert_eq. cbn [expect obind]. rewrite delete_insert_id by done. by destruct t.
Qed.

Lemma sprout_pop_tip {E} lo hi tip s : SproutWf lo (hi + 1) s -> lo <= hi -> tip <= hi + 1 ->
  exists s', remove_sprout (E:=E) RevertTip (hi + 1) (Some tip) s = Ok s' /\ SproutWf lo hi s'.
Proof.
  intros W L T0. destruct (remove_tip (E:=E) sprout_root _ _ tip _ (sw_index _ _ _ W) L T0) as (idx & R & W' & _).
  destruct (remove_sprout_ok _ _ _ _ _ (sw_anchors _ _ _ W) R) as [-> Sub].
  eexists; split; [done|]. destruct (filtered_sprout_wf _ _ _ _ W Sub). by split.
Qed.

Lemma sprout_pop_root {E} lo hi root s : SproutWf lo hi s -> lo <= root < hi -> hi <= Height.MAX ->
  exists s', remove_sprout (E:=E) RevertRoot root (Some hi) s = Ok s' /\ SproutWf (root + 1) hi s' /\
    (forall h, root < h -> tree_at h (sprout_index s') = tree_at h (sprout_index s)) /\
    (forall h, root < h -> anchors_by_height (sprout_index s') !! h = anchors_by_height (sprout_index s) !! h).
Proof.
  intros W L M. destruct (remove_root (E:=E) sprout_root sprout_same sprout_same_spec _ _ root _ (sw_index _ _ _ W) L M)
    as (idx & R & W' & At & An).
  destruct (remove_sprout_ok _ _ _ _ _ (sw_anchors _ _ _ W) R) as [-> Sub].
  eexists; split; [done|]. destruct (filtered_sprout_wf _ _ _ _ W Sub). by split.
Qed.

(** The trees in force at the heights above [root] are the same. *)
Definition same_trees_above (root : Z) (t t' : Trees) : Prop :=
  forall h, root < h ->
    tree_at h (sprout_index (sprout_trees t')) = tree_at h (sprout_index (sprout_trees t)) /\
    tree_at h (sapling_trees t') = tree_at h (sapling_trees t) /\
    tree_at h (orchard_trees t') = tree_at h (orchard_trees t) /\
    tree_at h (ironwood_trees t') = tree_at h (ironwood_trees t) /\
    history_trees_by_height t' !! h = history_trees_by_height t !! h.

Lemma trees_pop_tip lo root hi t : TreesWf lo root (hi + 1) t -> lo <= hi ->
  exists t', remove_trees RevertTip (hi + 1) (Some hi) (pop_subtrees (hi + 1) t) = Ok t' /\ TreesWf lo root hi t'.
Proof.
  intros W L. unfold remove_trees, pop_subtrees, with_subtrees. cbn.
  destruct (sprout_pop_tip (E:=ValidateContextError) lo hi hi _ (ts_sprout _ _ _ _ W) L ltac:(lia)) as (sp & -> & Wsp). cbn [obind].
  destruct (pool_pop_tip (E:=ValidateContextError) _ _ _ hi _ _ (ts_sapling _ _ _ _ W) L ltac:(lia)) as (sa & -> & Wsa). cbn [obind].
  destruct (pool_pop_tip (E:=ValidateContextError) _ _ _ hi _ _ (ts_orchard _ _ _ _ W) L ltac:(lia)) as (o & -> & Wo). cbn [obind].
  destruct (pool_pop_tip (E:=ValidateContextError) _ _ _ hi _ _ (ts_ironwood _ _ _ _ W) L ltac:(lia)) as (i & -> & Wi). cbn [obind].
  destruct (proj2 (ts_history _ _ _ _ W (hi + 1)) ltac:(lia)) as [ht Hh].
  unfold remove_present. rewrite Hh. cbn [expect obind]. eexists; split; [done|]. split; cbn; try done.
  intros h. rewrite lookup_delete_is_Some, (ts_history _ _ _ _ W). lia.
Qed.

Lemma treestate_ok lo root hi h t : TreesWf lo root hi t -> lo <= h <= hi ->
  exists nct ht, treestate h t = Some (nct, ht) /\
    NoteTrees.sapling_subtree nct = subtree_at h (sapling_subtrees t) /\
    NoteTrees.orchard_subtree nct = subtree_at h (orchard_subtrees t) /\
    NoteTrees.ironwood_subtree nct = subtree_at h (ironwood_subtrees t) /\
    tree_at h (sprout_index (sprout_trees t)) = Some (NoteTrees.sprout nct) /\
    tree_at h (sapling_trees t) = Some (NoteTrees.sapling nct) /\
    tree_at h (orchard_trees t) = Some (NoteTrees.orchard nct) /\
    tree_at h (ironwood_trees t) = Some (NoteTrees.ironwood nct) /\
    history_trees_by_height t !! h = Some ht.
Proof.
  intros W L. unfold treestate.
  destruct (wf_tree_at _ _ _ _ h (sw_index _ _ _ (ts_sprout _ _ _ _ W)) L) as [sp Sp]. rewrite Sp. cbn.
  destruct (wf_tree_at _ _ _ _ h (pw_trees _ _ _ _ _ (ts_sapling _ _ _ _ W)) L) as [sa Sa]. rewrite Sa. cbn.
  destruct (wf_tree_at _ _ _ _ h (pw_trees _ _ _ _ _ (ts_orchard _ _ _ _ W)) L) as [o Oo]. rewrite Oo. cbn.
  destruct (wf_tree_at _ _ _ _ h (pw_trees _ _ _ _ _ (ts_ironwood _ _ _ _ W)) L) as [i Oi]. rewrite Oi. cbn.
  destruct (proj2 (ts_history _ _ _ _ W h) L) as [ht Hh]. rewrite Hh. cbn. do 2 eexists. split; [done|]. done.
Qed.

(** The trees after the root block is finalized. *)
Definition pop_first_subtrees (nct : NoteCommitmentTrees STree PTree Node) (t : Trees) : Trees :=
  with_subtrees (pop_first_subtree (NoteTrees.sapling_subtree nct))
    (pop_first_subtree (NoteTrees.orchard_subtree nct))
    (pop_first_subtree (NoteTrees.ironwood_subtree nct)) t.

Lemma trees_pop_root lo root hi t : TreesWf lo root hi t -> lo <= root < hi -> hi <= Height.MAX ->
  exists nct ht t', treestate root t = Some (nct, ht) /\
    remove_trees RevertRoot root (Some hi) (pop_first_subtrees nct t) = Ok t' /\
    TreesWf (root + 1) (root + 1) hi t' /\ same_trees_above root t t'.
Proof.
  intros W L M. destruct (treestate_ok _ _ _ root _ W ltac:(lia)) as (nct & ht & Ts & E1 & E2 & E3 & _).
  exists nct, ht. unfold remove_trees, pop_first_subtrees, with_subtrees. cbn. rewrite E1, E2, E3.
  destruct (sprout_pop_root (E:=ValidateContextError) lo hi root _ (ts_sprout _ _ _ _ W) L M) as (sp & -> & Wsp & At1 & _). cbn [obind].
  destruct (pool_pop_root (E:=ValidateContextError) _ _ _ _ _ (ts_sapling _ _ _ _ W) L M) as (sa & -> & Wsa & At2 & _). cbn [obind].
  destruct (pool_pop_root (E:=ValidateContextError) _ _ _ _ _ (ts_orchard _ _ _ _ W) L M) as (o & -> & Wo & At3 & _). cbn [obind].
  destruct (pool_pop_root (E:=ValidateContextError) _ _ _ _ _ (ts_ironwood _ _ _ _ W) L M) as (i & -> & Wi & At4 & _). cbn [obind].
  eexists; split; [done|]. split; [done|].
  assert (Hf : forall h, root < h -> filter (fun e => root < e.1) (history_trees_by_height t) !! h = history_trees_by_height t !! h).
  { intros h Hh. apply option_eq. intros x. rewrite map_lookup_filter_Some. cbn. naive_solver. }
  split.
  - split; cbn; try done. intros h. destruct (decide (root < h)).
    + rewrite Hf, (ts_history _ _ _ _ W) by done. lia.
    + split; [intros [x [_ ?]%map_lookup_filter_Some]; done|lia].
  - intros h Hh. cbn. rewrite At1, At2, At3, At4, Hf by done. done.
Qed.

Lemma trees_pop_last_root lo root t : TreesWf lo root root t -> lo <= root ->
  exists nct ht t', treestate root t = Some (nct, ht) /\
    remove_trees RevertRoot root None (pop_first_subtrees nct t) = Ok t'.
Proof.
  intros W L. destruct (treestate_ok _ _ _ root _ W ltac:(lia)) as (nct & ht & Ts & _).
  exists nct, ht. unfold remove_trees, pop_first_subtrees, with_subtrees. cbn.
  pose proof (remove_last_root (E:=ValidateContextError) sprout_root sprout_same sprout_same_spec _ _ _ (sw_index _ _ _ (ts_sprout _ _ _ _ W))) as R.
  destruct (remove_sprout_ok _ _ _ _ _ (sw_anchors _ _ _ (ts_sprout _ _ _ _ W)) R) as [-> _]. cbn [obind].
  rewrite (remove_last_root tree_root tree_same tree_same_spec _ _ _ (pw_trees _ _ _ _ _ (ts_sapling _ _ _ _ W))). cbn [obind].
  rewrite (remove_last_root tree_root tree_same tree_same_spec _ _ _ (pw_trees _ _ _ _ _ (ts_orchard _ _ _ _ W))). cbn [obind].
  rewrite (remove_last_root tree_root tree_same tree_same_spec _ _ _ (pw_trees _ _ _ _ _ (ts_ironwood _ _ _ _ W))). cbn [obind]. eauto.
Qed.
End ChainTrees.
