(* ===== verification/ChainTheorems.v ===== *)
(** * Push, pop, fork and finalize

    The operations of a non-finalized chain on the invariant of
    [ChainInvariant]: what [push], [pop_tip], [pop_root] and [fork] do to the
    list of blocks of a chain, that none of their assertions fails, and that a
    fork has exactly the state that the chain had when the fork block was its
    tip. *)

From stdpp Require Import gmultiset.
From S2P Require Import Prelude Amounts ValueBalances Difficulty Networks NoteTrees ChainIndexes NonFinalizedChain ChainInvariant.

Section Chains.
Context `{CB : ConsensusBuild} `{CO : ChainOps}.
Implicit Types (bs : list ContextuallyVerifiedBlock) (b : ContextuallyVerifiedBlock).

(** ** The blocks of a chain *)

(** The heights of the blocks are consecutive. *)
Fixpoint heights_from (root : Z) bs : Prop :=
  match bs with
  | [] => True
  | b :: bs => height b = root /\ heights_from (root + 1) bs
  end.

Definition by_height bs : gmap Z ContextuallyVerifiedBlock := list_to_map ((fun b => (height b, b)) <$> bs).
Notation len bs := (Z.of_nat (length bs)).

Lemma heights_from_app root bs bs' :
  heights_from root (bs ++ bs') <-> heights_from root bs /\ heights_from (root + len bs) bs'.
Proof.
  revert root. induction bs as [|b bs IH]; intros root; cbn.
  - rewrite Z.add_0_r. tauto.
  - rewrite IH. replace (root + 1 + len bs) with (root + Z.of_nat (S (length bs))) by lia. tauto.
Qed.

Lemma by_height_lookup root bs h b : heights_from root bs ->
  by_height bs !! h = Some b <-> root <= h /\ bs !! Z.to_nat (h - root) = Some b.
Proof.
  revert root. induction bs as [|b0 bs IH]; intros root; cbn.
  - intros _. rewrite lookup_empty. split; [done|]. intros [_ L]. by rewrite lookup_nil in L.
  - intros [H0 H]. change (list_to_map _) with (by_height bs). rewrite H0.
    destruct (decide (h = root)) as [->|N].
    + rewrite lookup_insert_eq, Z.sub_diag. cbn. split; [by intros [= ->]|by intros [_ ?]].
    + rewrite lookup_insert_ne, (IH _ H) by done. split; intros [? L]; (split; [lia|]).
      * replace (Z.to_nat (h - root)) with (S (Z.to_nat (h - (root + 1)))) by lia. done.
      * replace (Z.to_nat (h - root)) with (S (Z.to_nat (h - (root + 1)))) in L by lia. done.
Qed.

Lemma by_height_bounds root bs h : heights_from root bs ->
  is_Some (by_height bs !! h) <-> root <= h < root + len bs.
Proof.
  intros H. split.
  - intros [b Lb]. apply (by_height_lookup _ _ _ _ H) in Lb as [? L]. apply lookup_lt_Some in L. lia.
  - intros ?. destruct (lookup_lt_is_Some_2 bs (Z.to_nat (h - root)) ltac:(lia)) as [b L].
    exists b. apply (by_height_lookup _ _ _ _ H). split; [lia|done].
Qed.

Lemma last_of_snoc root bs b : heights_from root (bs ++ [b]) ->
  last_key_value (by_height (bs ++ [b])) = Some (root + len bs, b).
Proof.
  intros H. apply last_key_value_Some. split.
  - apply (by_height_lookup _ _ _ _ H). split; [lia|].
    replace (Z.to_nat _) with (length bs) by lia. by apply list_lookup_middle.
  - intros h X. apply (by_height_bounds _ _ _ H) in X. rewrite length_app in X. cbn in X. lia.
Qed.

Lemma first_of_cons root bs b : heights_from root (b :: bs) ->
  first_key_value (by_height (b :: bs)) = Some (root, b).
Proof.
  intros H. apply first_key_value_Some. split.
  - apply (by_height_lookup _ _ _ _ H). split; [lia|]. by rewrite Z.sub_diag.
  - intros h X. apply (by_height_bounds _ _ _ H) in X. lia.
Qed.

Lemma by_height_snoc root bs b : heights_from root (bs ++ [b]) ->
  by_height (bs ++ [b]) = <[root + len bs := b]> (by_height bs) /\ by_height bs !! (root + len bs) = None.
Proof.
  intros H. pose proof H as [H1 [Hb _]]%heights_from_app.
  assert (N : by_height bs !! (root + len bs) = None).
  { apply eq_None_not_Some. intros X. apply (by_height_bounds _ _ _ H1) in X. lia. }
  split; [|done]. unfold by_height in *. rewrite fmap_app. cbn. rewrite Hb.
  apply list_to_map_snoc. by apply not_elem_of_list_to_map_2.
Qed.

(** ** The invariant *)

Definition block_ok b : Prop :=
  utxos_ok b /\ coinbase_height (block b) = Some (height b) /\ ValueBalance.valid (chain_value_pool_change b).

Definition pools_ok (p : Balance NonNegative) : Prop :=
  ValueBalance.valid p /\ ValueBalance.pool_sum p <= MAX_MONEY.

Fixpoint pools_after (p : Balance NonNegative) (changes : list (Balance NegativeAllowed)) :
    outcome ValueBalance.ValueBalanceError (Balance NonNegative) :=
  match changes with
  | [] => Ok p
  | c :: changes => let? p := ValueBalance.add_chain_value_pool_change p c in pools_after p changes
  end.

Definition total_work (ws : list Z) : Z := foldr Z.add 0 ws.

(** A chain with the blocks [bs] from the height [root], whose trees are known
    from the height [lo]: the finalized tip for a chain that has not been
    finalized since it was created, and the root otherwise. *)
Record ChainWf (lo root : Z) bs (c : ChainInner) : Prop := {
  cw_lo : lo = root \/ lo = root - 1;
  cw_max : root + len bs - 1 <= Height.MAX;
  cw_blocks : blocks c = by_height bs;
  cw_heights : heights_from root bs;
  cw_hashes : Ext ∅ ((fun b => (hash b, height b)) <$> bs) (height_by_hash c);
  cw_txs : TxIndexesOf (bs ≫= located) (txs c);
  cw_trees : TreesWf lo root (root + len bs - 1) (trees c);
  cw_work : exists ws, Forall2 (fun b w => block_work (E:=ValidateContextError) b = Ok w) bs ws /\
    Forall (Z.le 0) ws /\ partial_cumulative_work c = total_work ws /\ total_work ws <= U128_MAX;
  cw_pools : exists p0, pools_ok p0 /\ pools_after p0 (chain_value_pool_change <$> bs) = Ok (chain_value_pools c);
  cw_info h : is_Some (block_info_by_height c !! h) <-> root <= h < root + len bs;
  cw_ok : Forall block_ok bs;
}.

Lemma total_work_app ws ws' : total_work (ws ++ ws') = total_work ws + total_work ws'.
Proof. unfold total_work. induction ws as [|w ws IH]; cbn; [done|]. rewrite IH. lia. Qed.

Lemma total_work_nonneg ws : Forall (Z.le 0) ws -> 0 <= total_work ws.
Proof. unfold total_work. induction 1; cbn; lia. Qed.

Lemma block_work_nonneg {E} b w : block_work (E:=E) b = Ok w -> 0 <= w.
Proof.
  unfold block_work, CompactDifficulty.to_work. intros W. outcome_inv. destruct a0 as [x|]; [|done].
  destruct (CompactDifficulty.work_try_from x) as [w'| |] eqn:T; try done. injection H as ->.
  unfold CompactDifficulty.work_try_from, U256.add in T. outcome_inv.
  destruct (Z.leb_spec a1 U128_MAX); [|done]. injection T as ->.
  match goal with X : u256_checked _ = Some w |- _ => apply checked_Some in X end. lia.
Qed.

Lemma pools_after_app p cs cs' :
  pools_after p (cs ++ cs') = let? p := pools_after p cs in pools_after p cs'.
Proof.
  revert p. induction cs as [|c cs IH]; intros p; cbn; [done|]. rewrite obind_assoc.
  destruct (ValueBalance.add_chain_value_pool_change p c); cbn; [apply IH|done..].
Qed.

Lemma pools_after_ok p cs q : pools_ok p -> Forall ValueBalance.valid cs -> pools_after p cs = Ok q -> pools_ok q.
Proof.
  intros P V. revert p P. induction V as [|c cs Vc V IH]; intros p P; cbn; [by intros [= <-]|].
  intros A. outcome_inv. eapply IH; [|done].
  destruct P as [P M]. destruct (ValueBalance.revert_change _ _ _ P M Vc H unit) as (_ & _ & _ & ?). done.
Qed.

Lemma changes_valid bs : Forall block_ok bs -> Forall ValueBalance.valid (chain_value_pool_change <$> bs).
Proof. induction 1 as [|b bs (_&_&?)]; cbn; constructor; done. Qed.

Lemma bind_singleton_list {A B} (f : A -> list B) x : [x] ≫= f = f x.
Proof. cbn. apply app_nil_r. Qed.

Lemma tip_of_blocks root bs c : blocks c = by_height bs -> heights_from root bs ->
  max_block_height c = match bs with [] => None | _ => Some (root + len bs - 1) end /\
  is_empty c = match bs with [] => true | _ => false end.
Proof.
  intros B H. unfold max_block_height, is_empty. rewrite B. destruct bs as [|b0 bs0] using rev_ind; [done|].
  rewrite (last_of_snoc _ _ _ H), length_app. cbn. destruct (bs0 ++ [b0]) eqn:X; [by destruct bs0|].
  split; [|done]. f_equal. lia.
Qed.

Lemma both_Ok {A B} (x : outcome ValidateContextError A) (y : outcome ValidateContextError B) p :
  both x y = Ok p -> x = Ok p.1 /\ y = Ok p.2.
Proof. destruct x, y; cbn; try done. by intros [= <-]. Qed.

Lemma work_range lo root bs c : ChainWf lo root bs c -> 0 <= partial_cumulative_work c <= U128_MAX.
Proof. intros W. destruct (cw_work _ _ _ _ W) as (ws & _ & N & -> & M). pose proof (total_work_nonneg _ N). lia. Qed.

(** What a successful [push] did to the chain. *)
Lemma push_inv lo root bs c b c' :
  Inj (=) (=) (sprout_root (T:=STree)) -> Inj (=) (=) (tree_root (T:=PTree)) ->
  (forall ht sa o i, returns (history_push ht (block b) sa o i)) ->
  ChainWf lo root bs (inner c) -> block_ok b -> height b = root + len bs -> height b <= Height.MAX ->
  push b c = Ok c' ->
  exists w x p t, inner c' = mkInner (<[height b := b]> (blocks (inner c)))
      (<[hash b := height b]> (height_by_hash (inner c))) x t (partial_cumulative_work (inner c) + w) p
      (<[height b := mkBlockInfo p (wrap_u 32 (serialized_size (block b)))]> (block_info_by_height (inner c))) /\
    last_fork_height c' = last_fork_height c /\
    height_by_hash (inner c) !! hash b = None /\
    block_work (E:=ValidateContextError) b = Ok w /\ partial_cumulative_work (inner c) + w <= U128_MAX /\
    TxIndexesOf ((bs ≫= located) ++ located b) x /\
    ValueBalance.add_chain_value_pool_change (chain_value_pools (inner c)) (chain_value_pool_change b) = Ok p /\
    TreesWf lo root (height b) t /\
    (lo <= height b - 1 -> remove_trees RevertTip (height b) (Some (height b - 1)) (pop_subtrees (height b) t) = Ok (trees (inner c))).
Proof.
  intros Is Ip HR W (V & Cb & Vc) Hb Hm P. unfold push, update_block in P. run_inv.
  match goal with X : both _ _ = Ok _ |- _ => apply both_Ok in X as [Ht Hp] end.
  cbn in Ht, Hp. unfold update_except_trees, update_pools in Hp. run_inv.
  match goal with X : insert_new _ _ _ = Ok _ |- _ => apply insert_new_Ok in X as [Nh ->] end.
  match goal with X : coinbase_height _ = Some _ |- _ => rewrite Cb in X; injection X as <- end.
  match goal with X : PartialCumulativeWork.add _ _ = Ok _ |- _ =>
    unfold PartialCumulativeWork.add in X; outcome_inv end.
  match goal with X : u128_checked _ = Some _ |- _ => apply checked_Some in X as [-> ?] end.
  pose proof (cw_trees _ _ _ _ W) as Wt. pose proof (tip_of_blocks _ _ _ (cw_blocks _ _ _ _ W) (cw_heights _ _ _ _ W)) as [Tp _].
  set (hi := root + len bs - 1) in *. assert (Hh : height b = hi + 1) by (unfold hi; lia).
  assert (Tip : forall h, max_block_height (inner c) = Some h -> h = hi).
  { intros h. rewrite Tp. destruct bs; [done|]. by intros [= <-]. }
  match goal with X : tip_trees _ _ = Ok _ |- _ => rename X into Htt end.
  match goal with X : update_trees_parallel _ _ _ = Ok _ |- _ => rename X into Hup end.
  match goal with X : add_trees _ _ _ = Ok _ |- _ => rename X into Hat end.
  rewrite Hh in Hup. cbn in Hat.
  pose proof (add_trees_ok lo root hi _ _ _ _ b Is Ip Wt ltac:(lia) ltac:(lia) Tip Hh ltac:(rewrite Cb; by f_equal) Htt Hup HR) as A.
  rewrite Hat in A. destruct A as [A1 A2].
  match goal with X : update_transactions _ _ _ _ = Ok ?x |- _ =>
    pose proof (update_transactions_of _ _ _ _ _ _ (cw_txs _ _ _ _ W) V X) as Tx end.
  do 4 eexists. split; [reflexivity|]. split; [done|]. cbn. repeat (split; [eassumption || lia|]).
  rewrite Hh. split; [done|]. replace (hi + 1 - 1) with hi by lia. done.
Qed.

(** No address moves more than [MAX_MONEY] in the blocks. *)
Definition chain_volumes_ok bs : Prop := volumes_ok ((bs ≫= located) ≫= l_transfers).

(** Removing a block anywhere in the chain: the hashes, the work and the
    indexes of the transactions. *)
Lemma revert_middle lo root bs1 b bs2 c : ChainWf lo root (bs1 ++ b :: bs2) c -> chain_volumes_ok (bs1 ++ b :: bs2) ->
  exists w x,
    remove_present (E:=ValidateContextError) (hash b) (height_by_hash c) = Ok (height b, delete (hash b) (height_by_hash c)) /\
    Ext ∅ ((fun b => (hash b, height b)) <$> bs1 ++ bs2) (delete (hash b) (height_by_hash c)) /\
    block_work (E:=ValidateContextError) b = Ok w /\
    PartialCumulativeWork.sub (E:=ValidateContextError) (partial_cumulative_work c) w = Ok (partial_cumulative_work c - w) /\
    (exists ws, Forall2 (fun b w => block_work (E:=ValidateContextError) b = Ok w) (bs1 ++ bs2) ws /\
       Forall (Z.le 0) ws /\ partial_cumulative_work c - w = total_work ws /\ total_work ws <= U128_MAX) /\
    revert_transactions b (zipped b) (txs c) = Ok x /\ TxIndexesOf ((bs1 ++ bs2) ≫= located) x.
Proof.
  intros W V. pose proof (cw_hashes _ _ _ _ W) as Xh. rewrite fmap_app in Xh. cbn in Xh.
  destruct (remove_present_Ext (E:=ValidateContextError) _ _ _ _ _ _ Xh) as [R Xh'].
  destruct (cw_work _ _ _ _ W) as (ws & F & N & Ew & M).
  apply Forall2_app_inv_l in F as (ws1 & ws2' & F1 & F2 & ->).
  apply Forall2_cons_inv_l in F2 as (w & ws2 & Bw & F2 & ->).
  apply Forall_app in N as [N1 [N0 N2]%Forall_cons].
  rewrite total_work_app in *. change (total_work (w :: ws2)) with (w + total_work ws2) in *.
  pose proof (total_work_nonneg _ N1). pose proof (total_work_nonneg _ N2).
  pose proof (cw_txs _ _ _ _ W) as X. unfold chain_volumes_ok in V. rewrite bind_middle in X, V.
  destruct (revert_transactions_of _ b 0 _ _ _ X V) as (x & Rx & Xx).
  exists w, x. split; [done|]. split; [by rewrite fmap_app|]. split; [done|].
  split; [|split; [|split; [done|by rewrite bind_app]]].
  - unfold PartialCumulativeWork.sub. rewrite checked_ok by lia. done.
  - exists (ws1 ++ ws2). rewrite total_work_app. split; [by apply Forall2_app|].
    split; [by apply Forall_app|]. lia.
Qed.

(** The fields of a chain from which the tip [b] is removed. *)
Definition popped b (c c' : ChainInner) : Prop :=
  height_by_hash c' = delete (hash b) (height_by_hash c) /\
  remove_trees RevertTip (height b) (Some (height b - 1)) (pop_subtrees (height b) (trees c)) = Ok (trees c') /\
  (exists w, block_work (E:=ValidateContextError) b = Ok w /\ partial_cumulative_work c' = partial_cumulative_work c - w) /\
  (exists change, ValueBalance.neg (E:=ValidateContextError) (chain_value_pool_change b) = Ok change /\
     ValueBalance.add_chain_value_pool_change (chain_value_pools c) change = Ok (chain_value_pools c')) /\
  block_info_by_height c' = delete (height b) (block_info_by_height c).

Lemma chain_pop_tip lo root bs b c : bs <> [] -> ChainWf lo root (bs ++ [b]) (inner c) -> chain_volumes_ok (bs ++ [b]) ->
  exists c', pop_tip c = Ok c' /\ ChainWf lo root bs (inner c') /\ popped b (inner c) (inner c') /\
    last_fork_height c' = last_fork_height c.
Proof.
  intros Ne W V. pose proof (cw_heights _ _ _ _ W) as Hs.
  destruct (by_height_snoc _ _ _ Hs) as [Bs Nb]. pose proof Hs as [Hs1 [Hb _]]%heights_from_app.
  destruct (revert_middle _ _ bs b [] _ W V) as (w & x & Rh & Xh & Bw & Rw & Ww & Rx & Xx). rewrite app_nil_r in *.
  pose proof (cw_trees _ _ _ _ W) as Wt. rewrite length_app in Wt. cbn [length] in Wt.
  set (hi := root + len bs - 1) in *. replace (root + Z.of_nat (length bs + 1) - 1) with (hi + 1) in Wt by (unfold hi; lia).
  assert (Hbi : height b = hi + 1) by (unfold hi; lia).
  assert (L : lo <= hi) by (unfold hi; destruct bs; [done|]; cbn; destruct (cw_lo _ _ _ _ W); lia).
  destruct (trees_pop_tip _ _ _ _ Wt L) as (t' & Rt & Wt').
  unfold pop_tip, non_finalized_tip_height, max_block_height. rewrite (cw_blocks _ _ _ _ W), (last_of_snoc _ _ _ Hs).
  cbn [fmap option_fmap option_map fst expect obind]. rewrite Bs, lookup_insert_eq. cbn [expect obind].
  replace (root + len bs) with (hi + 1) in * by (unfold hi; lia).
  assert (Bd : blocks (without_block (hi + 1) (pop_subtrees (hi + 1) (trees (inner c))) (inner c)) = by_height bs).
  { cbn. rewrite (cw_blocks _ _ _ _ W), Bs. by apply delete_insert_id. }
  destruct (tip_of_blocks _ _ _ Bd Hs1) as [Tp Em]. fold hi in Tp. change (with_subtrees _ _ _ _) with (pop_subtrees (hi + 1) (trees (inner c))).
  replace (is_empty _) with false by (rewrite Em; by destruct bs). cbn [negb assert_that obind]. unfold revert_block.
  replace (max_block_height _) with (Some hi) by (rewrite Tp; by destruct bs).
  cbn [without_block height_by_hash txs trees partial_cumulative_work chain_value_pools block_info_by_height].
  rewrite Rh. cbn [obind]. rewrite Bw. cbn [obind]. rewrite Rw. cbn [obind]. rewrite Rx. cbn [obind].
  rewrite Hbi, Rt. cbn [obind].
  destruct (cw_pools _ _ _ _ W) as (p0 & P0 & Pa). rewrite fmap_app, pools_after_app in Pa. cbn [fmap list_fmap] in Pa.
  pose proof (cw_ok _ _ _ _ W) as [Ok1 [(_&_&Vc) _]%Forall_cons]%Forall_app.
  outcome_inv. destruct (pools_after_ok _ _ _ P0 (changes_valid _ Ok1) H) as [Vp Mp].
  cbn in Pa. run_inv. destruct (ValueBalance.revert_change _ _ _ Vp Mp Vc H0 ValidateContextError) as (nc & Rn & Ra & _).
  unfold revert_pools. rewrite Rn. cbn [obind]. rewrite Ra. cbn [expect_ok obind]. eexists; split; [done|]. split;
    [|split; [unfold popped; rewrite Hbi; replace (hi + 1 - 1) with hi by lia; split_and!;
      [done|exact Rt|by exists w|by exists nc|done]|done]].
  split; cbn [inner blocks height_by_hash txs trees partial_cumulative_work chain_value_pools block_info_by_height]; try done.
  - apply W.
  - pose proof (cw_max _ _ _ _ W) as Mx. rewrite length_app in Mx. cbn in Mx. lia.
  - by exists p0.
  - intros h. rewrite lookup_delete_is_Some, (cw_info _ _ _ _ W), length_app. cbn. unfold hi in *. cbn in *. lia.
Qed.

Lemma chain_push lo root bs c b c' :
  Inj (=) (=) (sprout_root (T:=STree)) -> Inj (=) (=) (tree_root (T:=PTree)) ->
  (forall ht sa o i, returns (history_push ht (block b) sa o i)) ->
  ChainWf lo root bs (inner c) -> block_ok b -> height b = root + len bs -> height b <= Height.MAX ->
  push b c = Ok c' -> ChainWf lo root (bs ++ [b]) (inner c').
Proof.
  intros Is Ip HR W Bo Hb Hm P.
  destruct (push_inv _ _ _ _ _ _ Is Ip HR W Bo Hb Hm P) as (w & x & p & t & -> & _ & Nh & Bw & Mw & Tx & Pa & Wt & _).
  assert (Hs : heights_from root (bs ++ [b])) by (apply heights_from_app; split; [apply W|]; done).
  destruct (by_height_snoc _ _ _ Hs) as [Bs _]. rewrite Hb in *.
  split; cbn [blocks height_by_hash txs trees partial_cumulative_work chain_value_pools block_info_by_height].
  - apply W.
  - rewrite length_app. cbn. lia.
  - by rewrite Bs, (cw_blocks _ _ _ _ W).
  - done.
  - rewrite fmap_app. cbn. rewrite Hb. apply Ext_snoc; [apply W|done].
  - by rewrite bind_snoc.
  - rewrite length_app. cbn. by replace (root + Z.of_nat (length bs + 1) - 1) with (root + len bs) by lia.
  - destruct (cw_work _ _ _ _ W) as (ws & F & N & Ew & M). exists (ws ++ [w]). rewrite total_work_app.
    pose proof (block_work_nonneg _ _ Bw). cbn. rewrite Ew in *. repeat split; [| |lia..].
    + apply Forall2_app; [done|]. by constructor.
    + apply Forall_app. split; [done|]. by constructor.
  - destruct (cw_pools _ _ _ _ W) as (p0 & P0 & Pp). exists p0. split; [done|].
    rewrite fmap_app, pools_after_app, Pp. cbn. by rewrite Pa.
  - intros h. rewrite lookup_insert_is_Some', (cw_info _ _ _ _ W), length_app. cbn. lia.
  - apply Forall_app. split; [apply W|]. by constructor.
Qed.

(** [pop_tip] undoes [push]. *)
Lemma pop_tip_push lo root bs c b c' :
  Inj (=) (=) (sprout_root (T:=STree)) -> Inj (=) (=) (tree_root (T:=PTree)) ->
  (forall ht sa o i, returns (history_push ht (block b) sa o i)) -> bs <> [] ->
  ChainWf lo root bs (inner c) -> block_ok b -> height b = root + len bs -> height b <= Height.MAX ->
  chain_volumes_ok (bs ++ [b]) -> push b c = Ok c' -> pop_tip c' = Ok c.
Proof.
  intros Is Ip HR Ne W Bo Hb Hm V P.
  pose proof (chain_push _ _ _ _ _ _ Is Ip HR W Bo Hb Hm P) as W'.
  destruct (chain_pop_tip _ _ _ _ _ Ne W' V) as (c'' & -> & W'' & (Ph & Pt & (w' & Bw' & Pw) & (nc & Nc & Pc) & Pi) & Lf).
  destruct (push_inv _ _ _ _ _ _ Is Ip HR W Bo Hb Hm P) as (w & x & p & t & E & Lf' & Nh & Bw & _ & _ & Pa & _ & Rt).
  rewrite E in Ph, Pt, Pw, Pc, Pi. cbn in Ph, Pt, Pw, Pc, Pi. f_equal.
  assert (L : lo <= height b - 1) by (destruct bs; [done|]; cbn in Hb; destruct (cw_lo _ _ _ _ W); lia).
  rewrite (Rt L) in Pt. injection Pt as Pt. rewrite Bw in Bw'. injection Bw' as <-.
  destruct (cw_pools _ _ _ _ W) as (p0 & P0 & Pp). destruct Bo as (_ & _ & Vc).
  destruct (pools_after_ok _ _ _ P0 (changes_valid _ (cw_ok _ _ _ _ W)) Pp) as [Vp Mp].
  destruct (ValueBalance.revert_change _ _ _ Vp Mp Vc Pa ValidateContextError) as (nc' & Nc' & Ra & _).
  rewrite Nc in Nc'. injection Nc' as <-. rewrite Ra in Pc. injection Pc as Pc.
  assert (Ni : block_info_by_height (inner c) !! height b = None).
  { apply eq_None_not_Some. rewrite (cw_info _ _ _ _ W). lia. }
  rewrite delete_insert_id in Ph by done. rewrite delete_insert_id in Pi by done.
  pose proof (TxIndexesOf_unique _ _ _ (cw_txs _ _ _ _ W'') (cw_txs _ _ _ _ W)) as Et.
  pose proof (cw_blocks _ _ _ _ W'') as Eb. rewrite <- (cw_blocks _ _ _ _ W) in Eb.
  destruct c as [[] ?], c'' as [[] ?]. cbn in *. f_equal; [|congruence]. f_equal; congruence || lia || done.
Qed.

(** [pop_root] returns the lowest block and its treestate; the other blocks
    keep their trees. *)
Lemma chain_pop_root lo root b bs c : ChainWf lo root (b :: bs) (inner c) -> chain_volumes_ok (b :: bs) ->
  exists ts c', pop_root c = Ok (b, ts, c') /\ treestate root (trees (inner c)) = Some ts /\
    last_fork_height c' = last_fork_height c /\
    match bs with
    | [] => is_empty (inner c') = true
    | _ => ChainWf (root + 1) (root + 1) bs (inner c') /\ same_trees_above root (trees (inner c)) (trees (inner c'))
    end.
Proof.
  intros W V. pose proof (cw_heights _ _ _ _ W) as Hs. pose proof Hs as [Hb Hs1].
  destruct (revert_middle _ _ [] b bs _ W V) as (w & x & Rh & Xh & Bw & Rw & Ww & Rx & Xx). cbn [app] in *.
  pose proof (cw_trees _ _ _ _ W) as Wt. pose proof (cw_max _ _ _ _ W) as Mx. cbn [length] in Wt, Mx.
  set (hi := root + Z.of_nat (S (length bs)) - 1) in *.
  assert (Bd : forall t, blocks (without_block root t (inner c)) = by_height bs).
  { intros t. cbn. rewrite (cw_blocks _ _ _ _ W). cbn. rewrite Hb. apply delete_insert_id.
    apply eq_None_not_Some. intros X. apply (by_height_bounds _ _ _ Hs1) in X. lia. }
  unfold pop_root, non_finalized_root_height. rewrite (cw_blocks _ _ _ _ W), (first_of_cons _ _ _ Hs).
  cbn [fmap option_fmap option_map fst expect obind].
  assert (T : exists nct ht t', treestate root (trees (inner c)) = Some (nct, ht) /\
    remove_trees RevertRoot root (max_block_height (without_block root (pop_first_subtrees nct (trees (inner c))) (inner c)))
      (pop_first_subtrees nct (trees (inner c))) = Ok t' /\
    (bs <> [] -> TreesWf (root + 1) (root + 1) hi t' /\ same_trees_above root (trees (inner c)) t')).
  { destruct bs as [|b1 bs1].
    - replace hi with root in Wt by (unfold hi; cbn; lia).
      destruct (trees_pop_last_root _ _ _ Wt) as (nct & ht & t' & E & R); [destruct (cw_lo _ _ _ _ W); lia|].
      exists nct, ht, t'. split; [done|]. split; [|done].
      destruct (tip_of_blocks (root + 1) _ _ (Bd (pop_first_subtrees nct (trees (inner c)))) I) as [-> _]. done.
    - destruct (trees_pop_root _ _ _ _ Wt) as (nct & ht & t' & E & R & W' & S);
        [destruct (cw_lo _ _ _ _ W); unfold hi; cbn; lia|done|].
      exists nct, ht, t'. split; [done|]. split; [|done].
      destruct (tip_of_blocks _ _ _ (Bd (pop_first_subtrees nct (trees (inner c)))) Hs1) as [-> _].
      replace (root + 1 + len (b1 :: bs1) - 1) with hi by (unfold hi; cbn; lia). done. }
  destruct T as (nct & ht & t' & Ets & Rt & Wt'). rewrite Ets. cbn [expect obind].
  assert (by_height (b :: bs) !! root = Some b) as -> by (apply (by_height_lookup _ _ _ _ Hs); split; [lia|]; by rewrite Z.sub_diag).
  cbn [expect obind fst]. change (with_subtrees _ _ _ _) with (pop_first_subtrees nct (trees (inner c))).
  unfold revert_block. rewrite Hb. set (tip := max_block_height _) in *.
  cbn [without_block height_by_hash txs partial_cumulative_work chain_value_pools block_info_by_height].
  rewrite Rh. cbn [obind]. rewrite Bw. cbn [obind]. rewrite Rw. cbn [obind]. rewrite Rx. cbn [obind].
  cbn [trees without_block]. rewrite Rt. cbn [obind revert_pools].
  do 2 eexists. split; [done|]. split; [done|]. split; [done|].
  assert (Bd' := Bd (pop_first_subtrees nct (trees (inner c)))). cbn in Bd'.
  enough (G : bs <> [] -> ChainWf (root + 1) (root + 1) bs _ /\ same_trees_above root (trees (inner c)) t')
    by (destruct bs; [unfold is_empty; cbn; by rewrite Bd'|by apply G]).
  intros Ne. destruct (Wt' Ne) as [Wt1 S]. split; [|done].
  destruct (cw_pools _ _ _ _ W) as (p0 & [P0 M0] & Pa). cbn [fmap list_fmap pools_after] in Pa.
  apply obind_Ok in Pa as (a & H & Pa).
  pose proof (cw_ok _ _ _ _ W) as [(_&_&Vc) Oks]%Forall_cons.
  destruct (ValueBalance.revert_change _ _ _ P0 M0 Vc H ValidateContextError) as (_ & _ & _ & P1).
  split; cbn [blocks height_by_hash txs trees partial_cumulative_work chain_value_pools block_info_by_height inner]; try done.
  - by left.
  - unfold hi in Mx. lia.
  - by replace (root + 1 + len bs - 1) with hi by (unfold hi; lia).
  - by exists a.
  - intros h. rewrite lookup_delete_is_Some, (cw_info _ _ _ _ W). cbn. lia.
Qed.

Lemma sprout_first h t idx : TreeWf sprout_root h h idx -> tree_at h idx = Some t ->
  SproutWf h h (mkSproutIndex idx (<[sprout_root t := t]> ∅)).
Proof.
  intros W At. assert (A : anchors idx = {[+ sprout_root t +]}).
  { pose proof (wf_root _ _ _ _ W h) as Rt. rewrite At in Rt. rewrite (wf_all _ _ _ _ W).
    assert (anchors_by_height idx = <[h := sprout_root t]> ∅) as ->.
    { apply map_eq. intros k. destruct (decide (k = h)) as [->|N].
      - destruct (proj2 (wf_anchors _ _ _ _ W h) ltac:(lia)) as [a E]. rewrite E, lookup_insert_eq.
        symmetry. by apply Rt.
      - rewrite lookup_insert_ne, lookup_empty by done. apply eq_None_not_Some. rewrite (wf_anchors _ _ _ _ W). lia. }
    rewrite all_anchors_insert by apply lookup_empty. apply gmultiset_disj_union_right_id. }
  split; cbn [sprout_index trees_by_anchor]; [done| |].
  - intros a. rewrite A, lookup_insert_is_Some', lookup_empty, gmultiset_elem_of_singleton.
    split; [intros [->|[]%is_Some_None]; done|by left].
  - intros a u [[<- <-]|[_ X]]%lookup_insert_Some; [done|]. by rewrite lookup_empty in X.
Qed.

(** A new chain has no blocks. *)
Lemma chain_new h nct ht pools : 0 <= h <= Height.MAX -> pools_ok pools ->
  exists c, new_chain h nct ht pools = Ok c /\ ChainWf h (h + 1) [] (inner c) /\
    treestate h (trees (inner c)) =
      Some (mkTrees (NoteTrees.sprout nct) (NoteTrees.sapling nct) None (NoteTrees.orchard nct) None (NoteTrees.ironwood nct) None, ht).
Proof.
  intros Hh P. unfold new_chain, add_sprout, add_pool. cbn [sprout_index].
  destruct (add_first (E:=ValidateContextError) sprout_root sprout_same sprout_same_spec h (NoteTrees.sprout nct) Hh) as (sp & -> & Wsp & Asp).
  destruct (add_first (E:=ValidateContextError) tree_root tree_same tree_same_spec h (NoteTrees.sapling nct) Hh) as (sa & -> & Wsa & Asa).
  destruct (add_first (E:=ValidateContextError) tree_root tree_same tree_same_spec h (NoteTrees.orchard nct) Hh) as (o & -> & Wo & Ao).
  destruct (add_first (E:=ValidateContextError) tree_root tree_same tree_same_spec h (NoteTrees.ironwood nct) Hh) as (i & -> & Wi & Ai).
  cbn [obind trees_by_anchor]. unfold add_history_tree. rewrite insert_new_fresh by apply lookup_empty. cbn [obind].
  eexists; split; [done|]. cbn [inner trees]. split.
  - split; cbn; try done.
    + right. lia.
    + lia.
    + by apply Ext_nil.
    + apply TxIndexesOf_empty.
    + replace (h + 1 + Z.of_nat 0 - 1) with h by lia.
      assert (Pool : forall idx, TreeWf tree_root h h idx -> PoolWf h (h + 1) h idx ∅)
        by (intros idx Wx; split; [done|..]; intros; by rewrite lookup_empty in *).
      split; cbn; [|by apply Pool..|].
      * by apply sprout_first.
      * intros k. rewrite lookup_insert_is_Some', lookup_empty. split; [intros [->|[]%is_Some_None]; lia|]. left. lia.
    + by exists [].
    + by exists pools.
    + intros k. rewrite lookup_empty. split; [by intros []%is_Some_None|lia].
  - unfold treestate. cbn. rewrite Asp, Asa, Ao, Ai. cbn. rewrite lookup_insert_eq. done.
Qed.

(** ** Forks *)

Lemma volumes_prefix lo root bs rest c : ChainWf lo root (bs ++ rest) c -> chain_volumes_ok (bs ++ rest) -> chain_volumes_ok bs.
Proof.
  intros W V a. specialize (V a). pose proof (of_transfers _ _ (cw_txs _ _ _ _ W) a) as [Wa _].
  rewrite !bind_app, transfers_of_app in Wa, V. rewrite volume_app in V.
  pose proof (tw_ok _ Wa) as [_ O]%Forall_app. pose proof (volume_bounds _ O). lia.
Qed.

Lemma tip_hash_wf {E} lo root bs b c : ChainWf lo root (bs ++ [b]) c ->
  non_finalized_tip_hash (E:=E) c = Ok (hash b) /\ non_finalized_tip_height (E:=E) c = Ok (height b).
Proof.
  intros W. pose proof (cw_heights _ _ _ _ W) as Hs.
  unfold non_finalized_tip_hash, non_finalized_tip_height, max_block_height, tip_block.
  rewrite (cw_blocks _ _ _ _ W), (last_of_snoc _ _ _ Hs). cbn. split; [done|].
  apply heights_from_app in Hs as [_ [-> _]]. done.
Qed.

Lemma hashes_distinct lo root bs c b1 b2 i j : ChainWf lo root bs c ->
  bs !! i = Some b1 -> bs !! j = Some b2 -> hash b1 = hash b2 -> i = j.
Proof.
  intros W L1 L2 E. destruct (cw_hashes _ _ _ _ W) as (N & _ & _). rewrite <- list_fmap_compose in N.
  eapply NoDup_lookup; [exact N| |]; rewrite list_lookup_fmap; [rewrite L1|rewrite L2]; cbn; [done|by rewrite E].
Qed.

Lemma pop_tip_inner i f : pop_tip (mkChain i f) = let? c := pop_tip (mkChain i None) in Ok (mkChain (inner c) f).
Proof.
  unfold pop_tip. cbn [inner last_fork_height]. rewrite obind_assoc.
  destruct (non_finalized_tip_height i) as [h| |]; cbn [obind]; [|done..]. rewrite obind_assoc.
  destruct (blocks i !! h) as [b|]; cbn [expect obind]; [|done]. rewrite obind_assoc.
  destruct (assert_that _) as [?|?|]; cbn [obind]; [|done..]. rewrite obind_assoc.
  by destruct (revert_block _ _ _).
Qed.

(** The loop of [fork] ends at the fork block. *)
Lemma fork_loop_wf lo root bs b rest fuel c :
  ChainWf lo root ((bs ++ [b]) ++ rest) (inner c) -> chain_volumes_ok ((bs ++ [b]) ++ rest) -> (length rest < fuel)%nat ->
  exists c', fork_loop fuel (hash b) c = Ok c' /\ ChainWf lo root (bs ++ [b]) (inner c') /\
    last_fork_height c' = match rest with [] => last_fork_height c | _ => Some (height b) end.
Proof.
  revert fuel c. induction rest as [|r rest IH] using rev_ind; intros fuel c W V F.
  - rewrite app_nil_r in *. destruct fuel as [|fuel]; [lia|]. cbn [fork_loop].
    destruct (tip_hash_wf (E:=ValidateContextError) _ _ _ _ _ W) as [-> _]. cbn [obind].
    rewrite decide_True by done. eauto.
  - rewrite app_assoc in W, V. rewrite length_app in F. cbn [length] in F. destruct fuel as [|fuel]; [lia|].
    cbn [fork_loop]. destruct (tip_hash_wf (E:=ValidateContextError) _ _ _ _ _ W) as [-> _]. cbn [obind].
    rewrite decide_False.
    2:{ intros E. assert (length ((bs ++ [b]) ++ rest) = length bs); [|rewrite !length_app in *; cbn in *; lia].
        eapply hashes_distinct; [exact W|by apply list_lookup_middle| |exact E].
        rewrite <- !app_assoc. by apply list_lookup_middle. }
    assert (Ne : (bs ++ [b]) ++ rest <> []) by (intros X%(f_equal length); rewrite !length_app in X; cbn in X; lia).
    destruct (chain_pop_tip _ _ _ _ _ Ne W V) as (c1 & -> & W1 & _ & _). cbn [obind].
    pose proof (volumes_prefix _ _ _ _ _ W V) as V1.
    assert (Tip : exists t, non_finalized_tip_height (E:=ValidateContextError) (inner c1) = Ok t /\
      (rest = [] -> t = height b)).
    { destruct rest as [|r' rest'] using rev_ind.
      - rewrite app_nil_r in W1. destruct (tip_hash_wf (E:=ValidateContextError) _ _ _ _ _ W1) as [_ ->]. eauto.
      - rewrite app_assoc in W1. destruct (tip_hash_wf (E:=ValidateContextError) _ _ _ _ _ W1) as [_ ->].
        eexists; split; [done|]. by destruct rest'. }
    destruct Tip as (t & -> & Tt). cbn [obind].
    destruct (IH fuel (mkChain (inner c1) (Some t)) W1 V1 ltac:(lia)) as (c' & -> & W' & Lf).
    exists c'. split; [done|]. split; [done|]. rewrite Lf. destruct rest; cbn; [by rewrite Tt|done].
Qed.

Lemma blocks_size lo root bs c : ChainWf lo root bs c -> size (blocks c) = length bs.
Proof.
  intros W. rewrite (cw_blocks _ _ _ _ W). pose proof (cw_heights _ _ _ _ W) as Hs. clear W. revert root Hs.
  induction bs as [|b bs IH]; intros root Hs; [apply map_size_empty|].
  destruct Hs as [Hb Hs]. cbn. change (list_to_map _) with (by_height bs).
  rewrite map_size_insert_None; [by rewrite (IH _ Hs)|].
  apply eq_None_not_Some. intros X. apply (by_height_bounds _ _ _ Hs) in X. lia.
Qed.

(** Pushing a list of blocks. *)
Fixpoint push_all bs (c : Chain) : outcome ValidateContextError Chain :=
  match bs with
  | [] => Ok c
  | b :: bs => let? c := push b c in push_all bs c
  end.

Lemma push_all_app bs bs' c : push_all (bs ++ bs') c = let? c := push_all bs c in push_all bs' c.
Proof.
  revert c. induction bs as [|b bs IH]; intros c; cbn; [done|]. rewrite obind_assoc.
  destruct (push b c); cbn; [apply IH|done..].
Qed.

Section Pushes.
Context (Is : Inj (=) (=) (sprout_root (T:=STree))) (Ip : Inj (=) (=) (tree_root (T:=PTree))).
Context (HR : forall ht blk sa o i, returns (history_push ht blk sa o i)).

Lemma push_all_wf lo root bs rest c c' : ChainWf lo root bs (inner c) ->
  heights_from (root + len bs) rest -> Forall block_ok rest -> root + len (bs ++ rest) - 1 <= Height.MAX ->
  push_all rest c = Ok c' -> ChainWf lo root (bs ++ rest) (inner c').
Proof.
  revert bs c. induction rest as [|b rest IH]; intros bs c W H O M P; cbn in *.
  - injection P as <-. by rewrite app_nil_r.
  - outcome_inv. destruct H as [Hb H]. apply Forall_cons in O as [Ob O]. rewrite length_app in M. cbn in M.
    rewrite cons_middle, app_assoc. eapply (IH (bs ++ [b])); [|rewrite length_app; cbn|done| |done].
    + eapply chain_push; [..|done]; try done; lia.
    + by replace (root + Z.of_nat (length bs + 1)) with (root + len bs + 1) by lia.
    + rewrite !length_app. cbn. lia.
Qed.

Lemma fork_loop_exact lo root bs b rest fuel c0 c1 c :
  ChainWf lo root (bs ++ [b]) (inner c0) -> heights_from (root + len (bs ++ [b])) rest -> Forall block_ok rest ->
  root + len ((bs ++ [b]) ++ rest) - 1 <= Height.MAX -> chain_volumes_ok ((bs ++ [b]) ++ rest) ->
  push_all rest c0 = Ok c1 -> inner c = inner c1 -> (length rest < fuel)%nat ->
  inner <$> ok (fork_loop fuel (hash b) c) = Some (inner c0).
Proof.
  revert fuel c c1. induction rest as [|r rest IH] using rev_ind; intros fuel c c1 W H O M V P E F.
  - injection P as <-. destruct fuel as [|fuel]; [cbn in F; lia|]. cbn [fork_loop]. rewrite E.
    destruct (tip_hash_wf (E:=ValidateContextError) _ _ _ _ _ W) as [-> _]. cbn [obind].
    rewrite decide_True by done. cbn. by rewrite E.
  - rewrite push_all_app in P. outcome_inv. rename a into c2.
    apply heights_from_app in H as [H [Hr _]]. apply Forall_app in O as [O [Or _]%Forall_cons].
    rewrite app_assoc in M, V. rewrite length_app in M, F. cbn [length] in M, F.
    pose proof (push_all_wf _ _ _ _ _ _ W H O ltac:(lia) H0) as W2. cbn [push_all] in P. outcome_inv.
    assert (Hr' : height r = root + len ((bs ++ [b]) ++ rest)) by (rewrite length_app; lia).
    assert (Ne : (bs ++ [b]) ++ rest <> []) by (intros X%(f_equal length); rewrite !length_app in X; cbn in X; lia).
    pose proof (pop_tip_push _ _ _ _ _ _ Is Ip (fun ht => HR ht _) Ne W2 Or Hr' ltac:(lia) V H1) as Pop.
    pose proof (chain_push _ _ _ _ _ _ Is Ip (fun ht => HR ht _) W2 Or Hr' ltac:(lia) H1) as W1.
    destruct fuel as [|fuel]; [lia|]. cbn [fork_loop]. rewrite E.
    destruct (tip_hash_wf (E:=ValidateContextError) _ _ _ _ _ W1) as [-> _]. cbn [obind].
    rewrite decide_False.
    2:{ intros X. assert (length ((bs ++ [b]) ++ rest) = length bs); [|rewrite !length_app in *; cbn in *; lia].
        eapply hashes_distinct; [exact W1|by apply list_lookup_middle| |exact X].
        rewrite <- !app_assoc. by apply list_lookup_middle. }
    assert (Pc : exists f, pop_tip c = Ok (mkChain (inner c2) f)).
    { destruct c as [i f], c1 as [i1 f1]. cbn in E. subst i1. exists f. rewrite pop_tip_inner in Pop |- *.
      destruct (pop_tip (mkChain i None)) as [d| |]; cbn in *; [|done..]. by injection Pop as <-. }
    destruct Pc as [f ->]. cbn [obind].
    destruct (exists_last Ne) as (xs & x & Ex). rewrite Ex in W2. cbn [inner].
    destruct (tip_hash_wf (E:=ValidateContextError) _ _ _ _ _ W2) as [_ ->]. cbn [obind]. rewrite <- Ex in W2.
    apply (IH fuel _ c2); [done|done|done|lia| |done|done|lia].
    exact (volumes_prefix _ _ _ _ _ W1 V).
Qed.
End Pushes.

(** ** The theorems *)

(** What the chain relies on: roots identify trees, as the collision resistance
    of the Merkle hashes gives, and the history tree returns. *)
Class ChainAssumptions : Prop := {
  sprout_root_inj :: Inj (=) (=) (sprout_root (T:=STree));
  tree_root_inj :: Inj (=) (=) (tree_root (T:=PTree));
  history_push_returns ht blk sa o i : returns (history_push ht blk sa o i);
}.


(** [pop_tip] is the inverse of [push]: after a block is pushed on a chain
    with at least one block, removing the tip gives back the same chain, with
    every index, tree, anchor, subtree, balance and work as before. *)
Theorem pop_tip_undoes_push `{CA : ChainAssumptions} lo root bs b c c' :
  ChainWf lo root bs (inner c) -> bs <> [] -> block_ok b -> height b = root + len bs -> height b <= Height.MAX ->
  chain_volumes_ok (bs ++ [b]) -> push b c = Ok c' -> pop_tip c' = Ok c.
Proof.
  intros. eapply pop_tip_push; [apply sprout_root_inj|apply tree_root_inj|..]; [|done..].
  intros. apply history_push_returns.
Qed.


(** The chains that the operations reach, with the height of their root and
    their blocks. *)
Inductive Reachable : Z -> list ContextuallyVerifiedBlock -> Chain -> Prop :=
| ReachNew h nct ht pools c : 0 <= h <= Height.MAX -> pools_ok pools ->
    new_chain h nct ht pools = Ok c -> Reachable (h + 1) [] c
| ReachPush root bs b c c' : Reachable root bs c -> block_ok b -> height b = root + len bs ->
    height b <= Height.MAX -> chain_volumes_ok (bs ++ [b]) -> push b c = Ok c' -> Reachable root (bs ++ [b]) c'
| ReachPopTip root bs b c c' : Reachable root (bs ++ [b]) c -> bs <> [] -> pop_tip c = Ok c' -> Reachable root bs c'
| ReachPopRoot root b bs c ts c' : Reachable root (b :: bs) c -> bs <> [] ->
    pop_root c = Ok (b, ts, c') -> Reachable (root + 1) bs c'
| ReachFork root bs b rest c c' : Reachable root ((bs ++ [b]) ++ rest) c ->
    fork (hash b) c = Ok (Some c') -> Reachable root (bs ++ [b]) c'.

Lemma volumes_suffix lo root b bs c : ChainWf lo root (b :: bs) c -> chain_volumes_ok (b :: bs) -> chain_volumes_ok bs.
Proof.
  intros W V a. specialize (V a). pose proof (of_transfers _ _ (cw_txs _ _ _ _ W) a) as [Wa _].
  rewrite bind_cons, bind_app, transfers_of_app in Wa, V. rewrite volume_app in V.
  pose proof (tw_ok _ Wa) as [O _]%Forall_app. pose proof (volume_bounds _ O). lia.
Qed.

Lemma reachable_wf `{CA : ChainAssumptions} root bs c :
  Reachable root bs c -> (exists lo, ChainWf lo root bs (inner c)) /\ chain_volumes_ok bs.
Proof.
  induction 1 as [h nct ht pools c Hh P N|root bs b c c' R [[lo W] _] Bo Hb Hm V P|
    root bs b c c' R [[lo W] V] Ne P|root b bs c ts c' R [[lo W] V] Ne P|root bs b rest c c' R [[lo W] V] F].
  - destruct (chain_new h nct ht pools Hh P) as (c1 & N' & W & _). rewrite N in N'. injection N' as <-.
    split; [by exists h|]. intros a. cbn. pose proof MAX_MONEY_pos. lia.
  - split; [|done]. exists lo. eapply chain_push; [apply sprout_root_inj|apply tree_root_inj|..]; [|done..].
    intros. apply history_push_returns.
  - destruct (chain_pop_tip _ _ _ _ _ Ne W V) as (c1 & P' & W' & _). rewrite P in P'. injection P' as <-.
    split; [by exists lo|]. by eapply volumes_prefix.
  - destruct (chain_pop_root _ _ _ _ _ W V) as (ts' & c1 & P' & _ & _ & M). rewrite P in P'. injection P' as <- <-.
    split; [|by eapply volumes_suffix]. exists (root + 1). destruct bs; [done|]. apply M.
  - assert (Lt : (length rest < size (blocks (inner c)))%nat)
      by (rewrite (blocks_size _ _ _ _ W), !length_app; cbn; lia).
    destruct (fork_loop_wf _ _ _ _ _ _ _ W V Lt) as (c1 & E & W' & _).
    unfold fork in F. destruct (height_by_hash (inner c) !! hash b); [|done]. rewrite E in F. injection F as <-.
    split; [by exists lo|]. by eapply volumes_prefix.
Qed.

(** The transactions of the blocks, in order. *)
Definition chain_transactions bs : list LocatedTx := bs ≫= located.

(** C9: in every chain that the operations reach, no outpoint is spent twice,
    no nullifier of a pool is revealed twice and no transaction repeats; and the
    indexes that later checks read are exactly those of the blocks: an outpoint
    is spent in the index when a transaction of the chain spends it, an output is
    unspent when a transaction created it and none spends it. *)
Theorem reachable_chain_no_double_spends `{CA : ChainAssumptions} root bs c :
  Reachable root bs c ->
  let ls := chain_transactions bs in
  NoDup (ls ≫= l_spent).*1 /\ NoDup (l_hash <$> ls) /\
  NoDup (ls ≫= fun l => tx_sprout_nullifiers (l_tx l)) /\ NoDup (ls ≫= fun l => tx_sapling_nullifiers (l_tx l)) /\
  NoDup (ls ≫= fun l => tx_orchard_nullifiers (l_tx l)) /\ NoDup (ls ≫= fun l => tx_ironwood_nullifiers (l_tx l)) /\
  (forall o h, chain_spent_utxos (txs (inner c)) !! o = Some h <-> (o, h) ∈ ls ≫= l_spent) /\
  (forall o u, unspent_utxos (inner c) !! o = Some u <-> (o, u) ∈ ls ≫= l_created /\ o ∉ (ls ≫= l_spent).*1).
Proof.
  intros [[lo W] _]%reachable_wf. cbv zeta. unfold chain_transactions.
  pose proof (cw_txs _ _ _ _ W) as [_ Lo Cr Sp Xs Xa Xo Xi _]. set (ls := bs ≫= located) in *. clearbody ls.
  assert (Lk : forall (K V : Type) `{Countable K} (l : list (K * V)) (m : gmap K V) k v,
    Ext ∅ l m -> m !! k = Some v <-> (k, v) ∈ l).
  { intros K V ?? l m k v (N & _ & ->). rewrite map_union_empty. symmetry. by apply elem_of_list_to_map. }
  assert (Rv : forall (f : Transaction -> list Nullifier) xs,
    (xs ≫= fun l => revealed (f (l_tx l)) (l_hash l)).*1 = xs ≫= fun l => f (l_tx l)).
  { intros f xs. induction xs as [|l xs IH]; [done|]. rewrite !bind_cons, fmap_app, IH. by rewrite revealed_keys. }
  assert (Hv : forall xs, l_hash <$> xs = (xs ≫= l_locations).*1).
  { intros xs. induction xs as [|l xs IH]; [done|]. rewrite bind_cons. cbn. by rewrite IH. }
  split_and!.
  - apply Sp.
  - rewrite Hv. apply Lo.
  - rewrite <- Rv. apply Xs.
  - rewrite <- Rv. apply Xa.
  - rewrite <- Rv. apply Xo.
  - rewrite <- Rv. apply Xi.
  - intros o h. by apply Lk.
  - intros o u. unfold unspent_utxos. rewrite map_lookup_filter_Some, (Lk _ _ _ _ _ _ _ _ Cr). cbn.
    rewrite (Ext_None _ _ _ o Sp), lookup_empty. tauto.
Qed.
End Chains.

(** ** A concrete chain *)

(** Trees over the frontier of [NoteTrees], integers for the other types. *)
#[local] Instance example_build : ConsensusBuild := wcash_build.
#[local] Instance example_types : ChainTypes := {|
  Hash := Z; TxHash := Z; Address := Z; Script := Z; Nullifier := Z; Note := Z; Root := Z * list Z; Node := Z;
  STree := CachedTree (Z * list Z) (Z * list Z); PTree := CachedTree (Z * list Z) (Z * list Z);
  HistoryTree := Z; HistoryTreeError := unit;
|}.
#[local] Instance example_ops : ChainOps := {|
  output_address o := if lock_script o =? 0 then None else Some (lock_script o);
  history_push ht _ _ _ _ := Ok (ht + 1);
  history_hash _ := Some (replicate 32 Byte.x00);
|}.

#[local] Instance example_assumptions : ChainAssumptions.
Proof.
  assert (I : forall t u : CachedTree (Z * list Z) (Z * list Z),
    recalculate_root (`t) = recalculate_root (`u) -> t = u).
  { intros t u E. destruct (cached_coherent t) as [_ Ct], (cached_coherent u) as [_ Cu]. apply (sig_eq_pi _).
    destruct t as [[f r] Ht], u as [[g q] Hu]. cbn in *. unfold recalculate_root in *. cbn in *. by subst. }
  split; [exact I|exact I|]. done.
Qed.

Definition no_change : Balance NegativeAllowed :=
  ValueBalance.mkBalance (Amount.mk 0) (Amount.mk 0) (Amount.mk 0) (Amount.mk 0) (Amount.mk 0) (Amount.mk 0).
Definition no_pools : Balance NonNegative :=
  ValueBalance.mkBalance (Amount.mk 0) (Amount.mk 0) (Amount.mk 0) (Amount.mk 0) (Amount.mk 0) (Amount.mk 0).
Definition example_output (v script : Z) : Output (Script:=Z) := mkOutput (Amount.mk v) script.
Definition example_utxo (v script h i : Z) : OrderedUtxo (Script:=Z) :=
  mkOrdered (mkUtxo (example_output v script) h (i =? 0)) i.

(** A coinbase transaction, and one that spends its output, reveals a Sapling
    nullifier and adds a Sapling note. *)
Definition example_coinbase : Transaction :=
  mkTransaction [Coinbase] [example_output 50 7] [] None None None None.
Definition example_spend (outpoint : Z * Z) (nf note : Z) : Transaction :=
  mkTransaction [PrevOut outpoint] [example_output 20 8] [] (Some (mkSapling [(nf, (0, []))] [note] 0)) None None None.

Definition example_block (h prev : Z) (l : list (Transaction * Z)) (new spent : gmap (Z * Z) OrderedUtxo) :
    ContextuallyVerifiedBlock :=
  mkContextual (mkBlock prev [] 0x1f07ffff (Some h) l.*1 1000) (100 + h) h new spent l.*2 no_change.

Definition example_b1 := example_block 1 100 [(example_coinbase, 11)] {[(11, 0) := example_utxo 50 7 1 0]} ∅.
Definition example_b2 := example_block 2 101 [(example_coinbase, 21); (example_spend (11, 0) 5 6, 22)]
  {[(21, 0) := example_utxo 50 7 2 0; (22, 0) := example_utxo 20 8 2 1]} {[(11, 0) := example_utxo 50 7 1 0]}.
Definition example_b3 := example_block 3 102 [(example_coinbase, 31); (example_spend (22, 0) 9 6, 32)]
  {[(31, 0) := example_utxo 50 7 3 0; (32, 0) := example_utxo 20 8 3 1]} {[(22, 0) := example_utxo 20 8 2 1]}.

Definition example_trees : NoteCommitmentTrees STree PTree Node :=
  mkTrees (sealed default_tree) (sealed default_tree) None (sealed default_tree) None (sealed default_tree) None.

Definition example_start : Chain :=
  match new_chain 0 example_trees 0 no_pools with
  | Ok c => c
  | _ => mkChain (mkInner ∅ ∅ (mkTxIndexes ∅ ∅ ∅ ∅ ∅ ∅ ∅ ∅)
      (mkChainTrees (mkSproutIndex empty_index ∅) empty_index ∅ empty_index ∅ empty_index ∅ ∅) 0 no_pools ∅) None
  end.

Definition is_ok {E A} (m : outcome E A) : bool := match m with Ok _ => true | _ => false end.

Lemma is_ok_true {E A} (m : outcome E A) : is_ok m = true -> exists a, m = Ok a.
Proof. destruct m; eauto; done. Qed.

Lemma example_blocks_ok : Forall block_ok [example_b1; example_b2; example_b3].
Proof.
  assert (V : forall b, forallb (fun u => (0 <=? Amount.zatoshis (value (output (utxo u)))) &&
      (Amount.zatoshis (value (output (utxo u))) <=? 100) && (0 <=? tx_index_in_block u) && (tx_index_in_block u <=? 100))
      ((map_to_list (new_outputs b)).*2 ++ (map_to_list (spent_outputs b)).*2) = true -> utxos_ok b).
  { intros b F. rewrite forallb_app in F. apply andb_prop in F as [F1 F2].
    assert (Q : forall m : gmap (Z * Z) (OrderedUtxo (Script:=Z)), forallb (fun u => (0 <=? Amount.zatoshis (value (output (utxo u)))) &&
      (Amount.zatoshis (value (output (utxo u))) <=? 100) && (0 <=? tx_index_in_block u) && (tx_index_in_block u <=? 100))
      (map_to_list m).*2 = true -> map_Forall (fun _ u => utxo_ok u) m).
    { intros m F k u L. rewrite forallb_forall in F. specialize (F u).
      assert (In : List.In u (map_to_list m).*2).
      { apply list_elem_of_In, list_elem_of_fmap. exists (k, u). split; [done|]. by apply elem_of_map_to_list. }
      specialize (F In). assert (M : MAX_MONEY = 4611686018427387903) by by vm_compute.
      rewrite !andb_true_iff, !Z.leb_le in F. destruct F as [[[F1' F2'] F3'] F4'].
      split; [unfold Amount.valid; cbn [Amount.valid_range fst snd]; rewrite M|unfold U16_MAX];
        split; (done || (etransitivity; [eassumption|done])). }
    split; by apply Q. }
  assert (Z0 : ValueBalance.valid no_change) by (by vm_compute; repeat split).
  do 3 (apply Forall_cons; split; [split_and!; [apply V; by vm_compute|done|done]|]). by apply Forall_nil.
Qed.

Lemma volumes_of_total (es : list (Z * Transfer (TxHash:=Z) (Script:=Z))) a :
  forallb (fun e => 0 <=? transfer_amount e.2) es = true -> volume (transfers_of a es) <= volume es.*2.
Proof.
  induction es as [|[b e] es IH]; [done|]. cbn [forallb fmap list_fmap]. rewrite andb_true_iff, Z.leb_le. intros [E F].
  rewrite transfers_of_cons. specialize (IH F). cbn in *. fold (volume es.*2).
  destruct (decide (b = a)); cbn; fold (volume (transfers_of a es)); lia.
Qed.

Lemma example_volumes : chain_volumes_ok [example_b1; example_b2; example_b3].
Proof.
  intros a. etransitivity; [apply volumes_of_total; by vm_compute|]. by vm_compute.
Qed.

Lemma example_start_wf : ChainWf 0 1 [] (inner example_start).
Proof.
  destruct (chain_new 0 example_trees 0 no_pools) as (c & E & W & _);
    [by vm_compute|split; [by vm_compute; repeat split|by vm_compute]|].
  unfold example_start. rewrite E. exact W.
Qed.

Lemma example_prefix : exists c2, push_all [example_b1; example_b2] example_start = Ok c2 /\
  ChainWf 0 1 [example_b1; example_b2] (inner c2).
Proof.
  destruct (is_ok_true (push_all [example_b1; example_b2] example_start)) as [c2 E]; [by vm_compute|].
  exists c2. split; [done|]. pose proof example_blocks_ok as [O1 [O2 _]%Forall_cons]%Forall_cons.
  assert (H : heights_from 1 [example_b1; example_b2]) by (vm_compute; repeat split).
  assert (O : Forall block_ok [example_b1; example_b2]) by (apply Forall_cons; split; [exact O1|apply Forall_singleton; exact O2]).
  assert (M : 1 + Z.of_nat (length ([] ++ [example_b1; example_b2])) - 1 <= Height.MAX) by (vm_compute; congruence).
  exact (push_all_wf sprout_root_inj tree_root_inj history_push_returns 0 1 [] _ _ _ example_start_wf H O M E).
Qed.


Lemma example_next c2 : push_all [example_b1; example_b2] example_start = Ok c2 -> exists c3, push example_b3 c2 = Ok c3.
Proof.
  intros E. destruct (is_ok_true (let? c := push_all [example_b1; example_b2] example_start in push example_b3 c))
    as [c3 P]; [by vm_compute|]. rewrite E in P. by exists c3.
Qed.

Lemma example_b3_ok : block_ok example_b3.
Proof. pose proof example_blocks_ok as [_ [_ [O _]%Forall_cons]%Forall_cons]%Forall_cons. exact O. Qed.

Lemma pop_tip_undoes_push_witness :
  exists c2 c3, push_all [example_b1; example_b2] example_start = Ok c2 /\
    push example_b3 c2 = Ok c3 /\ pop_tip c3 = Ok c2.
Proof.
  destruct example_prefix as (c2 & E2 & W2). destruct (example_next c2 E2) as [c3 E3].
  exists c2, c3. split; [exact E2|]. split; [exact E3|].
  refine (pop_tip_undoes_push 0 1 [example_b1; example_b2] example_b3 c2 c3 W2 _ example_b3_ok _ _ example_volumes E3);
    [congruence|vm_compute; reflexivity|vm_compute; congruence].
Defined.


Lemma example_volumes_short : chain_volumes_ok ([] ++ [example_b1]) /\ chain_volumes_ok ([example_b1] ++ [example_b2]).
Proof. split; intros a; (etransitivity; [apply volumes_of_total; by vm_compute|by vm_compute]). Qed.

Lemma reachable_chain_no_double_spends_witness :
  exists c2, Reachable 1 [example_b1; example_b2] c2 /\ NoDup (chain_transactions [example_b1; example_b2] ≫= l_spent).*1.
Proof.
  assert (Pools : pools_ok no_pools) by (split; [by vm_compute; repeat split|by vm_compute]).
  assert (H0 : 0 <= 0 <= Height.MAX) by (by vm_compute).
  assert (H1 : height example_b1 <= Height.MAX) by (by vm_compute).
  assert (H2 : height example_b2 <= Height.MAX) by (by vm_compute).
  pose proof example_blocks_ok as [O1 [O2 _]%Forall_cons]%Forall_cons.
  destruct example_volumes_short as [V1 V2].
  destruct (is_ok_true (new_chain 0 example_trees 0 no_pools)) as [c En]; [vm_compute; reflexivity|].
  assert (Es : example_start = c) by (unfold example_start; rewrite En; reflexivity).
  destruct (is_ok_true (push example_b1 example_start)) as [c1 E1]; [vm_compute; reflexivity|].
  destruct (is_ok_true (let? c := push example_b1 example_start in push example_b2 c)) as [c2 E2]; [vm_compute; reflexivity|].
  rewrite E1 in E2. cbn [obind] in E2. rewrite Es in E1.
  pose proof (ReachNew 0 example_trees 0 no_pools c H0 Pools En) as R0. cbn [Z.add] in R0.
  pose proof (ReachPush 1 [] example_b1 c c1 R0 O1 eq_refl H1 V1 E1) as R1.
  pose proof (ReachPush 1 [example_b1] example_b2 c1 c2 R1 O2 eq_refl H2 V2 E2) as R2.
  exists c2. split; [exact R2|]. destruct (reachable_chain_no_double_spends _ _ _ R2) as [X _]. exact X.
Defined.
