(* ===== verification/TransactionValues.v ===== *)
(** * The value that transactions and blocks move

    The value balance of a transaction ([zebra-chain/src/transaction.rs]), the
    outputs that a block creates ([transparent/utxo.rs]), the change that a block
    makes to the chain value pools ([block.rs]), and the check that no
    transaction but a coinbase creates value
    ([zebra-state/src/service/check/utxo.rs]). *)

From S2P Require Import Prelude Amounts ValueBalances Networks NoteTrees ChainIndexes NonFinalizedChain.

(** A balance made of valid amounts is valid. *)
Ltac balance_valid :=
  unfold ValueBalance.valid; cbn [ValueBalance.transparent ValueBalance.sprout ValueBalance.sapling
    ValueBalance.orchard ValueBalance.deferred ValueBalance.ironwood]; tauto.

Section Values.
Context `{CB : ConsensusBuild} `{CT : ChainTypes}.
Notation ValueBalanceError := ValueBalance.ValueBalanceError.
Notation OrderedUtxos := (gmap OutPoint (OrderedUtxo (Script:=Script))).
Notation Utxos := (gmap OutPoint (Utxo (Script:=Script))).
Notation Outputs := (gmap OutPoint (Output (Script:=Script))).

(** ** Definitions *)

(** [Transaction::spent_outpoints] and [Transaction::is_coinbase]. *)
Definition spent_outpoints (self : Transaction) : list OutPoint := omap outpoint (inputs self).
Definition is_coinbase (self : Transaction) : bool :=
  match inputs self with [Coinbase] => true | _ => false end.

(** [Input::value_from_outputs]. *)
Definition value_from_outputs {E : Type} (outputs : Outputs) (self : Input) : outcome E (Amount.Amount NonNegative) :=
  match self with
  | PrevOut outpoint => let? output := expect (outputs !! outpoint) in Ok (value output)
  | Coinbase => Amount.zero NonNegative
  end.

(** [Transaction::transparent_value_balance_from_outputs]. *)
Definition transparent_value_balance_from_outputs (outs : Outputs) (self : Transaction) :
    outcome ValueBalanceError (Balance NegativeAllowed) :=
  let? input_values := traverse (value_from_outputs outs) (inputs self) in
  let? input_value := map_err ValueBalance.Transparent (Amount.sum input_values) in
  let? input_value := expect_ok (Amount.constrain NegativeAllowed input_value) in
  let? output_value := map_err ValueBalance.Transparent (Amount.sum (value <$> outputs self)) in
  let? output_value := expect_ok (Amount.constrain NegativeAllowed output_value) in
  let? amount := map_err ValueBalance.Transparent (Amount.sub input_value output_value) in
  ValueBalance.from_transparent_amount amount.

(** The fold of [Transaction::sprout_value_balance]; the subtraction of two
    monetary values fits in an [i64]. *)
Fixpoint sprout_fold (total : Amount.Amount NegativeAllowed) (l : list JoinSplit) :
    outcome Amount.Error (Amount.Amount NegativeAllowed) :=
  match l with
  | [] => Ok total
  | js :: l =>
      let? net := expect (i64_checked (vpub_new js - vpub_old js)) in
      let? net := Amount.try_from_i64 NegativeAllowed net in
      let? total := Amount.add total net in
      sprout_fold total l
  end.

(** [Transaction::sprout_value_balance], [sapling_value_balance],
    [orchard_value_balance] and [ironwood_value_balance]. *)
Definition sprout_value_balance (self : Transaction) : outcome ValueBalanceError (Balance NegativeAllowed) :=
  let? zero := Amount.zero NegativeAllowed in
  let? total := map_err ValueBalance.Sprout (sprout_fold zero (sprout_joinsplit_descriptions self)) in
  ValueBalance.from_sprout_amount total.
Definition sapling_value_balance {E : Type} (self : Transaction) : outcome E (Balance NegativeAllowed) :=
  let balance := match sapling_bundle self with Some b => sapling_bundle_balance b | None => 0 end in
  let? amount := expect_ok (Amount.try_from_i64 NegativeAllowed balance) in
  ValueBalance.from_sapling_amount amount.
Definition orchard_value_balance {E : Type} (self : Transaction) : outcome E (Balance NegativeAllowed) :=
  let balance := match orchard_bundle self with Some b => action_bundle_balance b | None => 0 end in
  let? amount := expect_ok (Amount.try_from_i64 NegativeAllowed balance) in
  ValueBalance.from_orchard_amount amount.
Definition ironwood_value_balance {E : Type} (self : Transaction) : outcome E (Balance NegativeAllowed) :=
  let balance := match ironwood_bundle self with Some b => action_bundle_balance b | None => 0 end in
  let? amount := expect_ok (Amount.try_from_i64 NegativeAllowed balance) in
  ValueBalance.from_ironwood_amount amount.

(** The outputs that a transaction spends, collected from the known UTXOs. *)
Definition spent_outputs_of (utxos : Utxos) (self : Transaction) : Outputs :=
  list_to_map (omap (fun o => u ← utxos !! o; Some (o, output u)) (spent_outpoints self)).

(** [Transaction::value_balance]. *)
Definition value_balance (utxos : Utxos) (self : Transaction) : outcome ValueBalanceError (Balance NegativeAllowed) :=
  let outputs := spent_outputs_of utxos self in
  let? transparent := transparent_value_balance_from_outputs outputs self in
  let? sprout := sprout_value_balance self in
  let? sapling := sapling_value_balance self in
  let? orchard := orchard_value_balance self in
  let? ironwood := ironwood_value_balance self in
  ValueBalance.add_result (ValueBalance.add_result (ValueBalance.add_result
    (ValueBalance.add transparent sprout) sapling) orchard) ironwood.

(** The fold of [Block::chain_value_pool_change]. *)
Fixpoint block_value_balance (utxos : Utxos) (acc : Balance NegativeAllowed) (txs : list Transaction) :
    outcome ValueBalanceError (Balance NegativeAllowed) :=
  match txs with
  | [] => Ok acc
  | tx :: txs =>
      let? balance := value_balance utxos tx in
      let? acc := ValueBalance.add acc balance in
      block_value_balance utxos acc txs
  end.

(** [Block::chain_value_pool_change]; the last argument is the change of the
    deferred pool. *)
Definition block_chain_value_pool_change (utxos : Utxos) (deferred_pool_balance_change : Amount.DeferredPoolBalanceChange)
    (self : Block) : outcome ValueBalanceError (Balance NegativeAllowed) :=
  let? zero := ValueBalance.zero NegativeAllowed in
  let? tx_pool_sum := block_value_balance utxos zero (transactions self) in
  let? change := ValueBalance.neg tx_pool_sum in
  Ok (ValueBalance.set_deferred_amount change (Amount.deferred_value deferred_pool_balance_change)).

(** [utxos_from_ordered_utxos]. *)
Definition utxos_from_ordered_utxos (ordered_utxos : OrderedUtxos) : Utxos := utxo <$> ordered_utxos.

(** [new_transaction_ordered_outputs]: the index of an output is a [u32]. *)
Fixpoint new_transaction_ordered_outputs {E : Type} (hash : TxHash) (tx_index_in_block height : Z) (index : Z)
    (outs : list (Output (Script:=Script))) (acc : OrderedUtxos) : outcome E OrderedUtxos :=
  match outs with
  | [] => Ok acc
  | output :: outs =>
      let? i := expect (u32_checked index) in
      new_transaction_ordered_outputs hash tx_index_in_block height (index + 1) outs
        (<[(hash, i) := mkOrdered (mkUtxo output height (tx_index_in_block =? 0)) tx_index_in_block]> acc)
  end.

(** [new_ordered_outputs_with_height] and [new_ordered_outputs]. *)
Fixpoint new_ordered_outputs_with_height {E : Type} (height tx_index_in_block : Z) (l : list (Transaction * TxHash))
    (acc : OrderedUtxos) : outcome E OrderedUtxos :=
  match l with
  | [] => Ok acc
  | (transaction, hash) :: l =>
      let? outs := new_transaction_ordered_outputs hash tx_index_in_block height 0 (outputs transaction) ∅ in
      new_ordered_outputs_with_height height (tx_index_in_block + 1) l (outs ∪ acc)
  end.
Definition new_ordered_outputs {E : Type} (block : Block) (transaction_hashes : list TxHash) : outcome E OrderedUtxos :=
  let? height := expect (coinbase_height block) in
  new_ordered_outputs_with_height height 0 (zip (transactions block) transaction_hashes) ∅.

(** [SemanticallyVerifiedBlock]. *)
Record SemanticallyVerifiedBlock := mkSemantic {
  sv_block : Block;
  sv_hash : Hash;
  sv_height : Z;
  sv_new_outputs : OrderedUtxos;
  sv_transaction_hashes : list TxHash;
}.

(** [SemanticallyVerifiedBlock::with_hash]; [tx_hashes] are the hashes of the
    transactions of the block. *)
Definition semantic_with_hash {E : Type} (block : Block) (hash : Hash) (tx_hashes : list TxHash) :
    outcome E SemanticallyVerifiedBlock :=
  let? height := expect (coinbase_height block) in
  let? new_outputs := new_ordered_outputs block tx_hashes in
  Ok (mkSemantic block hash height new_outputs tx_hashes).

(** [ContextuallyVerifiedBlock::with_block_and_spent_utxos]: [extend] replaces
    the entries that are already in the map. *)
Definition with_block_and_spent_utxos (semantically_verified : SemanticallyVerifiedBlock) (spent_utxos : OrderedUtxos)
    (deferred_pool_balance_change : Amount.DeferredPoolBalanceChange) :
    outcome ValueBalanceError ContextuallyVerifiedBlock :=
  let sv := semantically_verified in
  let spent_outputs := sv_new_outputs sv ∪ spent_utxos in
  let? change := block_chain_value_pool_change (utxos_from_ordered_utxos spent_outputs)
    deferred_pool_balance_change (sv_block sv) in
  Ok (mkContextual (sv_block sv) (sv_hash sv) (sv_height sv) (sv_new_outputs sv) spent_outputs
        (sv_transaction_hashes sv) change).

(** The body of the loop of [remaining_transaction_value]. *)
Definition tx_remaining_value (sv : SemanticallyVerifiedBlock) (utxos : Utxos) (tx_index_in_block : Z)
    (transaction : Transaction) : outcome ValidateContextError unit :=
  if is_coinbase transaction then Ok tt
  else
    match value_balance utxos transaction with
    | Ok vb =>
        match ValueBalance.remaining_transaction_value vb with
        | Ok _ => Ok tt
        | Err amount_error =>
            let? transaction_hash := expect (sv_transaction_hashes sv !! Z.to_nat tx_index_in_block) in
            match amount_error with
            | Amount.ConstraintError _ _ =>
                if Amount.invalid_value amount_error <? 0
                then Err (NegativeRemainingTransactionValue amount_error (sv_height sv) tx_index_in_block transaction_hash)
                else Err (CalculateRemainingTransactionValue amount_error (sv_height sv) tx_index_in_block transaction_hash)
            | _ => Err (CalculateRemainingTransactionValue amount_error (sv_height sv) tx_index_in_block transaction_hash)
            end
        | Panic => Panic
        end
    | Err value_balance_error =>
        let? transaction_hash := expect (sv_transaction_hashes sv !! Z.to_nat tx_index_in_block) in
        Err (CalculateTransactionValueBalances value_balance_error (sv_height sv) tx_index_in_block transaction_hash)
    | Panic => Panic
    end.

(** [check::utxo::remaining_transaction_value]. *)
Definition remaining_transaction_value (sv : SemanticallyVerifiedBlock) (utxos : OrderedUtxos) :
    outcome ValidateContextError unit :=
  try_for_each (tx_remaining_value sv (utxos_from_ordered_utxos utxos)) 0 (transactions (sv_block sv)).

(** ** The exact values *)

(** The value that the inputs of a transaction bring, from the known UTXOs. *)
Definition input_value (utxos : Utxos) (tx : Transaction) : Z :=
  foldr (fun o t => match utxos !! o with Some u => Amount.zatoshis (value (output u)) | None => 0 end + t) 0
    (spent_outpoints tx).
Definition output_value (tx : Transaction) : Z := Amount.total (value <$> outputs tx).
Definition sprout_net (l : list JoinSplit) : Z := foldr (fun js t => vpub_new js - vpub_old js + t) 0 l.
Definition sapling_net (tx : Transaction) : Z :=
  match sapling_bundle tx with Some b => sapling_bundle_balance b | None => 0 end.
Definition action_net (bundle : option ActionBundle) : Z :=
  match bundle with Some b => action_bundle_balance b | None => 0 end.

(** The pools of a transaction, and the value that it leaves to the miner. *)
Definition tx_pools (utxos : Utxos) (tx : Transaction) : list Z :=
  [input_value utxos tx - output_value tx; sprout_net (sprout_joinsplit_descriptions tx); sapling_net tx;
   action_net (orchard_bundle tx); 0; action_net (ironwood_bundle tx)].
Definition tx_total (utxos : Utxos) (tx : Transaction) : Z := foldr Z.add 0 (tx_pools utxos tx).

(** The values of the outputs and of the known UTXOs are monetary amounts. *)
Definition outputs_valid (tx : Transaction) : Prop := Forall (fun o => Amount.valid (value o)) (outputs tx).
Definition utxos_valid (utxos : Utxos) : Prop := map_Forall (fun _ u => Amount.valid (value (output u))) utxos.
Definition inputs_in (utxos : Utxos) (tx : Transaction) : Prop :=
  Forall (fun o => is_Some (utxos !! o)) (spent_outpoints tx).

Lemma spent_outputs_lookup utxos tx o :
  o ∈ spent_outpoints tx -> spent_outputs_of utxos tx !! o = output <$> utxos !! o.
Proof.
  unfold spent_outputs_of. generalize (spent_outpoints tx) as l.
  induction l as [|p l IH]; [by inversion 1|]. intros In. cbn. destruct (decide (p = o)) as [->|N].
  - destruct (utxos !! o) as [u|] eqn:L; cbn; [by rewrite lookup_insert_eq|].
    apply not_elem_of_list_to_map. intros ([q x] & -> & M)%list_elem_of_fmap.
    apply list_elem_of_omap in M as (p & _ & X). cbn in X. destruct (utxos !! p) eqn:Lp; by simplify_eq/=.
  - assert (In' : o ∈ l) by (inversion In; congruence).
    destruct (utxos !! p); cbn; [rewrite lookup_insert_ne by done|]; by apply IH.
Qed.

Lemma inputs_sum {E : Type} utxos outs (ins : list Input) vs :
  (forall o, o ∈ omap outpoint ins -> outs !! o = output <$> utxos !! o) -> utxos_valid utxos ->
  traverse (value_from_outputs (E:=E) outs) ins = Ok vs ->
  Forall (fun o => is_Some (utxos !! o)) (omap outpoint ins) /\ Forall Amount.valid vs /\
  Amount.total vs = foldr (fun (o : OutPoint) (t : Z) => match utxos !! o with
    Some u => Amount.zatoshis (value (output u)) | None => 0 end + t) 0 (omap outpoint ins).
Proof.
  intros L V. rewrite traverse_Ok. intros F.
  induction F as [|i v ins vs Hi F IH]; [by repeat constructor|].
  destruct i as [o|]; cbn in *.
  - rewrite (L o) in Hi by constructor. outcome_inv. destruct (utxos !! o) as [u|] eqn:Lu; [|done].
    cbn in H. injection H as <-. destruct IH as (I & Vs & T); [intros; apply L; by constructor|].
    split_and!; [|constructor; [by apply (V _ _ Lu)|done]|unfold Amount.total in *; cbn; lia].
    by constructor; [eexists|].
  - rewrite Amount.zero_Ok in Hi. injection Hi as <-. destruct IH as (I & Vs & T); [done|].
    split_and!; [done|constructor; [apply Amount.valid_zero|done]|]. unfold Amount.total in *. cbn. lia.
Qed.

Lemma transparent_balance_Ok utxos tx v : outputs_valid tx -> utxos_valid utxos ->
  transparent_value_balance_from_outputs (spent_outputs_of utxos tx) tx = Ok v ->
  inputs_in utxos tx /\ ValueBalance.valid v /\
  ValueBalance.pools v = [input_value utxos tx - output_value tx; 0; 0; 0; 0; 0].
Proof.
  intros O V T. unfold transparent_value_balance_from_outputs in T. outcome_inv.
  destruct (inputs_sum utxos _ _ _ (spent_outputs_lookup utxos tx) V H) as (I & Vs & Ti).
  apply Amount.sum_Ok in H0 as [Z0 V0]; [|done].
  apply Amount.sum_Ok in H2 as [Z2 V2]; [|by apply Forall_fmap].
  destruct (Amount.constrain NegativeAllowed a0) as [a0'| |] eqn:C0; try done. injection H1 as ->.
  destruct (Amount.constrain NegativeAllowed a2) as [a2'| |] eqn:C2; try done. injection H3 as ->.
  apply Amount.try_from_i64_Ok in C0 as [Z1 V1], C2 as [Z3 V3].
  rewrite Amount.sub_in_range in H4 by done. apply Amount.in_range_Ok in H4 as [Z4 V4].
  unfold ValueBalance.from_transparent_amount, ValueBalance.zero in T. rewrite Amount.zero_Ok in T. injection T as <-.
  split; [done|]. split; [pose proof (Amount.valid_zero NegativeAllowed); balance_valid|].
  unfold ValueBalance.pools. cbn. rewrite Z4, Z1, Z3, Z0, Z2, Ti. done.
Qed.

Lemma sprout_fold_Ok l acc t : Amount.valid acc -> sprout_fold acc l = Ok t ->
  Amount.valid t /\ Amount.zatoshis t = Amount.zatoshis acc + sprout_net l.
Proof.
  revert acc. induction l as [|js l IH]; intros acc V F; cbn in F.
  - injection F as <-. split; [done|]. cbn. lia.
  - outcome_inv. apply checked_Some in H as [-> _]. apply Amount.try_from_i64_Ok in H0 as [Z0 V0].
    rewrite Amount.add_in_range in H1 by done. apply Amount.in_range_Ok in H1 as [Z1 V1].
    destruct (IH _ V1 F) as [Vt ->]. split; [done|]. unfold sprout_net. cbn. lia.
Qed.

Lemma zip_pools_zero l : length l = 6%nat -> zip_with Z.add [0; 0; 0; 0; 0; 0] l = l.
Proof. intros. destruct l as [|? [|? [|? [|? [|? [|? []]]]]]]; done. Qed.

Lemma value_balance_Ok utxos tx v : outputs_valid tx -> utxos_valid utxos -> value_balance utxos tx = Ok v ->
  inputs_in utxos tx /\ ValueBalance.valid v /\ ValueBalance.pools v = tx_pools utxos tx.
Proof.
  intros O V B. unfold value_balance in B. outcome_inv.
  apply transparent_balance_Ok in H as (I & Vt & Pt); [|done..].
  unfold sprout_value_balance in H0. rewrite Amount.zero_Ok in H0. cbn [obind] in H0. outcome_inv.
  apply sprout_fold_Ok in H as [Vs Zs]; [|apply Amount.valid_zero].
  unfold sapling_value_balance in H1. unfold orchard_value_balance in H2. unfold ironwood_value_balance in H3.
  outcome_inv.
  repeat match goal with X : expect_ok (Amount.try_from_i64 ?C ?z) = Ok _ |- _ =>
    let a := fresh in let Q := fresh "Q" in
    destruct (Amount.try_from_i64 C z) as [a| |] eqn:Q; try done; injection X as ->;
    apply Amount.try_from_i64_Ok in Q as [? ?] end.
  unfold ValueBalance.from_sprout_amount, ValueBalance.from_sapling_amount, ValueBalance.from_orchard_amount,
    ValueBalance.from_ironwood_amount, ValueBalance.zero in *. rewrite !Amount.zero_Ok in *.
  cbn [obind] in *. outcome_inv. unfold ValueBalance.add_result in B. outcome_inv.
  pose proof (Amount.valid_zero NegativeAllowed) as V0.
  repeat match goal with X : ValueBalance.add ?a ?b = Ok _ |- _ =>
    apply ValueBalance.add_Ok in X as [? ?]; [|first [done|balance_valid]..] end.
  split_and!; [done|done|]. unfold tx_pools, sapling_net, action_net, ValueBalance.pools in *. cbn in *.
  simplify_eq/=. repeat f_equal; lia.
Qed.

(** A transaction whose amounts are in the ranges that parsing gives them. *)
Definition money (z : Z) : Prop := 0 <= z <= MAX_MONEY.
Definition tx_amounts_ok (tx : Transaction) : Prop :=
  outputs_valid tx /\
  Forall (fun js => money (vpub_old js) /\ money (vpub_new js)) (sprout_joinsplit_descriptions tx) /\
  Forall (fun z => - MAX_MONEY <= z <= MAX_MONEY)
    [sapling_net tx; action_net (orchard_bundle tx); action_net (ironwood_bundle tx)].

Lemma negative_in_range z : - MAX_MONEY <= z <= MAX_MONEY ->
  Amount.try_from_i64 NegativeAllowed z = Ok (Amount.mk z) /\ Amount.valid (C:=NegativeAllowed) (Amount.mk z).
Proof. intros Z. split; [|done]. by apply Amount.try_from_i64_Ok. Qed.

Lemma sum_returns (l : list (Amount.Amount NonNegative)) : Forall Amount.valid l -> returns (Amount.sum l).
Proof.
  intros V. unfold Amount.sum. rewrite Amount.zero_Ok. cbn [obind].
  by destruct (Amount.try_fold_cases l (Amount.mk 0) (Amount.valid_zero _) V) as [[-> _]|(k & _ & ->)].
Qed.

Lemma inputs_found {E : Type} utxos tx : utxos_valid utxos -> inputs_in utxos tx ->
  exists vs, traverse (value_from_outputs (E:=E) (spent_outputs_of utxos tx)) (inputs tx) = Ok vs.
Proof.
  intros V I. pose proof (spent_outputs_lookup utxos tx) as L. revert L I. unfold inputs_in, spent_outpoints.
  generalize (spent_outputs_of utxos tx) as outs. generalize (inputs tx) as ins.
  induction ins as [|i ins IH]; intros outs L I; [by eexists|]. destruct i as [o|]; cbn in *.
  - apply Forall_cons in I as [[u Lu] I]. rewrite (L o), Lu by constructor. cbn.
    destruct (IH outs) as [vs ->]; [intros; apply L; by constructor|done|]. by eexists.
  - rewrite Amount.zero_Ok. cbn. destruct (IH outs L I) as [vs ->]. by eexists.
Qed.

Lemma weaken_amount (a : Amount.Amount NonNegative) : Amount.valid a ->
  Amount.constrain NegativeAllowed a = Ok (Amount.mk (Amount.zatoshis a)) /\
  Amount.valid (C:=NegativeAllowed) (Amount.mk (Amount.zatoshis a)).
Proof. intros V. apply negative_in_range. unfold Amount.valid in V. cbn in V. lia. Qed.

Lemma transparent_balance_returns utxos tx : tx_amounts_ok tx -> utxos_valid utxos -> inputs_in utxos tx ->
  returns (transparent_value_balance_from_outputs (spent_outputs_of utxos tx) tx).
Proof.
  intros (O & _) V I. unfold transparent_value_balance_from_outputs.
  destruct (inputs_found (E:=ValueBalanceError) utxos tx V I) as [vs Hv]. rewrite Hv. cbn [obind].
  destruct (inputs_sum utxos _ _ _ (spent_outputs_lookup utxos tx) V Hv) as (_ & Vs & _).
  apply returns_bind; [by apply returns_map_err, sum_returns|]. intros a [_ Va]%map_err_Ok%Amount.sum_Ok; [|done].
  destruct (weaken_amount a Va) as [-> Vw]. cbn [expect_ok obind].
  assert (Vo : Forall Amount.valid (value <$> outputs tx)) by by apply Forall_fmap.
  apply returns_bind; [by apply returns_map_err, sum_returns|]. intros b [_ Vb]%map_err_Ok%Amount.sum_Ok; [|done].
  destruct (weaken_amount b Vb) as [-> Vw']. cbn [expect_ok obind]. rewrite Amount.sub_in_range by done.
  apply returns_bind; [apply returns_map_err, ValueBalance.returns_in_range|]. intros.
  unfold ValueBalance.from_transparent_amount, ValueBalance.zero. by rewrite Amount.zero_Ok.
Qed.

Lemma sprout_fold_returns l acc : Amount.valid acc ->
  Forall (fun js => money (vpub_old js) /\ money (vpub_new js)) l -> returns (sprout_fold acc l).
Proof.
  intros V F. revert acc V. pose proof MAX_MONEY_headroom. induction F as [|js l [Mo Mn] F IH]; intros acc V; cbn; [done|].
  unfold money in *. rewrite checked_ok by bool_lia. cbn [expect obind].
  destruct (negative_in_range (vpub_new js - vpub_old js) ltac:(lia)) as [-> Vn]. cbn [obind].
  rewrite Amount.add_in_range by done. apply returns_bind; [apply ValueBalance.returns_in_range|].
  intros a [_ Va]%Amount.in_range_Ok. by apply IH.
Qed.

Lemma value_balance_returns utxos tx : tx_amounts_ok tx -> utxos_valid utxos -> inputs_in utxos tx ->
  returns (value_balance utxos tx).
Proof.
  intros A V I. pose proof A as (O & J & [Zs [Zo [Zi _]%Forall_cons]%Forall_cons]%Forall_cons).
  pose proof (Amount.valid_zero NegativeAllowed) as V0. unfold value_balance.
  apply returns_bind; [by apply transparent_balance_returns|].
  intros t (_ & Vt & _)%transparent_balance_Ok; [|done..]. apply returns_bind.
  - unfold sprout_value_balance. rewrite Amount.zero_Ok. cbn [obind].
    apply returns_bind; [by apply returns_map_err, sprout_fold_returns|]. intros.
    unfold ValueBalance.from_sprout_amount, ValueBalance.zero. by rewrite Amount.zero_Ok.
  - intros sp Hsp. assert (Vsp : ValueBalance.valid sp).
    { unfold sprout_value_balance in Hsp. rewrite Amount.zero_Ok in Hsp. cbn [obind] in Hsp. outcome_inv.
      apply sprout_fold_Ok in H as [Va _]; [|done].
      unfold ValueBalance.from_sprout_amount, ValueBalance.zero in Hsp. rewrite Amount.zero_Ok in Hsp. cbn [obind] in Hsp.
      injection Hsp as <-. balance_valid. }
    unfold sapling_value_balance, orchard_value_balance, ironwood_value_balance.
    fold (sapling_net tx) (action_net (orchard_bundle tx)) (action_net (ironwood_bundle tx)).
    rewrite (proj1 (negative_in_range _ Zs)), (proj1 (negative_in_range _ Zo)), (proj1 (negative_in_range _ Zi)).
    unfold ValueBalance.from_sapling_amount, ValueBalance.from_orchard_amount, ValueBalance.from_ironwood_amount,
      ValueBalance.zero. rewrite !Amount.zero_Ok. cbn [expect_ok obind]. unfold ValueBalance.add_result. rewrite !obind_assoc.
    repeat (apply returns_bind; [apply ValueBalance.add_returns; first [done|balance_valid]|
      intros ? [_ ?]%ValueBalance.add_Ok; [|first [done|balance_valid]..]]).
    apply ValueBalance.add_returns; first [done|balance_valid].
Qed.

(** ** Blocks *)

(** The pools of all the transactions of a block. *)
Definition block_pools (utxos : Utxos) (txs : list Transaction) : list Z :=
  foldr (fun tx acc => zip_with Z.add (tx_pools utxos tx) acc) [0; 0; 0; 0; 0; 0] txs.

Lemma block_pools_cons utxos tx txs :
  block_pools utxos (tx :: txs) = zip_with Z.add (tx_pools utxos tx) (block_pools utxos txs).
Proof. done. Qed.

Lemma block_pools_length utxos txs : length (block_pools utxos txs) = 6%nat.
Proof. induction txs as [|tx txs IH]; [done|]. cbn [block_pools foldr]. rewrite length_zip_with. fold (block_pools utxos txs). by rewrite IH. Qed.

Lemma block_value_balance_Ok utxos txs acc v : Forall outputs_valid txs -> utxos_valid utxos -> ValueBalance.valid acc ->
  block_value_balance utxos acc txs = Ok v ->
  Forall (inputs_in utxos) txs /\ ValueBalance.valid v /\
  ValueBalance.pools v = zip_with Z.add (ValueBalance.pools acc) (block_pools utxos txs).
Proof.
  intros O V. revert acc. induction O as [|tx txs Ot O IH]; intros acc Va B; cbn in B.
  - injection B as <-. split_and!; [constructor|done|]. unfold ValueBalance.pools. cbn. by rewrite !Z.add_0_r.
  - outcome_inv. apply value_balance_Ok in H as (I & Vt & Pt); [|done..].
    apply ValueBalance.add_Ok in H0 as [P0 V0]; [|done..].
    destruct (IH _ V0 B) as (Is & Vv & Pv). split_and!; [by constructor|done|]. rewrite Pv, P0, Pt.
    pose proof (block_pools_length utxos txs). rewrite block_pools_cons. unfold ValueBalance.pools, tx_pools.
    destruct (block_pools utxos txs) as [|? [|? [|? [|? [|? [|? []]]]]]]; try done.
    cbn. by rewrite !Z.add_assoc.
Qed.

Lemma block_value_balance_returns utxos txs acc : Forall tx_amounts_ok txs -> utxos_valid utxos ->
  Forall (inputs_in utxos) txs -> ValueBalance.valid acc -> returns (block_value_balance utxos acc txs).
Proof.
  intros A V I. revert acc. induction A as [|tx txs At A IH]; intros acc Va; cbn; [done|].
  apply Forall_cons in I as [It I]. apply returns_bind; [by apply value_balance_returns|].
  intros b (_ & Vb & _)%value_balance_Ok; [|apply At|done].
  apply returns_bind; [by apply ValueBalance.add_returns|]. intros c [_ Vc]%ValueBalance.add_Ok; [|done..]. by apply IH.
Qed.

(** The change of a block, from the pools of its transactions. *)
Lemma pool_change_Ok utxos d b c : Forall outputs_valid (transactions b) -> utxos_valid utxos ->
  Amount.valid (Amount.deferred_value d) -> block_chain_value_pool_change utxos d b = Ok c ->
  Forall (inputs_in utxos) (transactions b) /\ ValueBalance.valid c /\
  ValueBalance.pools c =
    <[4%nat := Amount.zatoshis (Amount.deferred_value d)]> (Z.opp <$> block_pools utxos (transactions b)).
Proof.
  intros O V D B. unfold block_chain_value_pool_change, ValueBalance.zero in B. rewrite Amount.zero_Ok in B.
  cbn [obind] in B. outcome_inv. pose proof (Amount.valid_zero NegativeAllowed) as V0.
  apply block_value_balance_Ok in H as (I & (?&?&?&?&?&?) & Pa); [|done|done|balance_valid].
  unfold ValueBalance.neg in H0. rewrite !Amount.neg_exact in H0 by done. cbn [obind] in H0. injection H0 as <-.
  rewrite zip_pools_zero in Pa by apply block_pools_length. split; [done|]. split.
  - unfold ValueBalance.valid, Amount.valid in *. cbn in *. lia.
  - rewrite <- Pa. by unfold ValueBalance.pools.
Qed.

(** The value that a block adds to the pools other than the deferred one. *)
Definition issued {C} (c : Balance C) : Z := ValueBalance.pool_sum c - Amount.zatoshis (ValueBalance.deferred c).

Lemma issued_change utxos d b (c : Balance NegativeAllowed) :
  ValueBalance.pools c =
    <[4%nat := Amount.zatoshis (Amount.deferred_value d)]> (Z.opp <$> block_pools utxos (transactions b)) ->
  issued c = - foldr (fun tx t => tx_total utxos tx + t) 0 (transactions b).
Proof.
  intros P. assert (Q : foldr Z.add 0 (block_pools utxos (transactions b)) =
    foldr (fun tx t => tx_total utxos tx + t) 0 (transactions b) /\ block_pools utxos (transactions b) !! 4%nat = Some 0).
  { clear P. induction (transactions b) as [|tx txs [IH I4]]; [done|]. rewrite block_pools_cons. cbn [foldr]. rewrite <- IH.
    pose proof (block_pools_length utxos txs) as L. unfold tx_total, tx_pools.
    destruct (block_pools utxos txs) as [|? [|? [|? [|? [|? [|? []]]]]]]; try done. cbn in *.
    injection I4 as ->. split; [lia|done]. }
  destruct Q as [Q Q4]. pose proof (block_pools_length utxos (transactions b)) as L.
  unfold issued, ValueBalance.pool_sum. rewrite P.
  destruct (block_pools utxos (transactions b)) as [|? [|? [|? [|? [|? [|? []]]]]]]; try done.
  unfold ValueBalance.pools in P. cbn in *. simplify_eq/=. rewrite <- Q. lia.
Qed.

(** What the check of the remaining values gives. *)
Lemma remaining_value_Ok sv utxos u : Forall outputs_valid (transactions (sv_block sv)) ->
  utxos_valid (utxos_from_ordered_utxos utxos) -> remaining_transaction_value sv utxos = Ok u ->
  Forall (fun tx => is_coinbase tx = false -> inputs_in (utxos_from_ordered_utxos utxos) tx /\
    0 <= tx_total (utxos_from_ordered_utxos utxos) tx <= MAX_MONEY) (transactions (sv_block sv)).
Proof.
  intros O V R. unfold remaining_transaction_value in R. rewrite try_for_each_Ok in R.
  apply Forall_lookup. intros k tx Lk Nc. specialize (R k tx Lk). rewrite Forall_lookup in O. specialize (O k tx Lk).
  unfold tx_remaining_value in R. rewrite Nc in R.
  destruct (value_balance _ tx) as [vb|e|] eqn:B; [|by destruct (expect _)|done].
  apply value_balance_Ok in B as (I & Vb & Pb); [|done..]. split; [done|].
  destruct (ValueBalance.remaining_transaction_value vb) as [r|e|] eqn:Rm; [|by destruct (expect _), e; cbn in R; try done; destruct (_ <? 0)|done].
  apply ValueBalance.remaining_value_exact in Rm as (Zr & Vr & _); [|done].
  unfold Amount.valid in Vr. cbn in Vr. unfold tx_total. rewrite <- Pb.
  assert (D : Amount.zatoshis (ValueBalance.deferred vb) = 0) by (unfold ValueBalance.pools, tx_pools in Pb; congruence).
  unfold ValueBalance.pools. cbn. lia.
Qed.

(** ** The outputs of a block *)

Lemma new_tx_outputs_lookup {E : Type} hash ti h index outs acc m : 0 <= index ->
  new_transaction_ordered_outputs (E:=E) hash ti h index outs acc = Ok m ->
  forall o, m !! o = match (if decide (o.1 = hash /\ index <= o.2) then outs !! Z.to_nat (o.2 - index) else None) with
                     | Some out => Some (mkOrdered (mkUtxo out h (ti =? 0)) ti)
                     | None => acc !! o
                     end.
Proof.
  revert index acc. induction outs as [|out outs IH]; intros index acc Hi N [oh oi]; cbn in N |- *.
  - injection N as <-. destruct (decide _); [by rewrite lookup_nil|done].
  - outcome_inv. apply checked_Some in H as [-> _]. rewrite (IH (index + 1) _ ltac:(lia) N (oh, oi)). cbn.
    destruct (decide (oh = hash /\ index <= oi)) as [[-> Ho]|No].
    + destruct (decide (index = oi)) as [->|Ne].
      * rewrite decide_False by (intros [_ ?]; lia). by rewrite lookup_insert_eq, Z.sub_diag.
      * rewrite decide_True by (split; [done|lia]). replace (Z.to_nat (oi - index)) with (S (Z.to_nat (oi - (index + 1)))) by lia. cbn.
        destruct (outs !! _); [done|]. rewrite lookup_insert_ne; [done|congruence].
    + rewrite decide_False by (intros [-> ?]; apply No; split; [done|lia]).
      rewrite lookup_insert_ne; [done|]. intros [= -> ->]. apply No. split; [done|lia].
Qed.

(** The outputs of a block are those of its transactions, each at the index of
    its transaction. *)
Lemma new_outputs_lookup {E : Type} h ti l acc m :
  new_ordered_outputs_with_height (E:=E) h ti l acc = Ok m -> NoDup l.*2 ->
  (forall o, is_Some (acc !! o) -> o.1 ∉ l.*2) ->
  forall o u, m !! o = Some u <-> acc !! o = Some u \/ exists k tx out, l !! k = Some (tx, o.1) /\ 0 <= o.2 /\
    outputs tx !! Z.to_nat o.2 = Some out /\
    u = mkOrdered (mkUtxo out h (ti + Z.of_nat k =? 0)) (ti + Z.of_nat k).
Proof.
  revert ti acc. induction l as [|[tx hash] l IH]; intros ti acc N D F o u; cbn in N.
  - injection N as <-. split; [by left|]. intros [?|(k & tx & out & L & _)]; [done|]. by rewrite lookup_nil in L.
  - outcome_inv. rename a into new. apply NoDup_cons in D as [Nh D].
    pose proof (new_tx_outputs_lookup hash ti h 0 _ _ _ ltac:(lia) H) as Ln.
    assert (Ln' : forall p v, new !! p = Some v <-> p.1 = hash /\ 0 <= p.2 /\ exists out,
      outputs tx !! Z.to_nat p.2 = Some out /\ v = mkOrdered (mkUtxo out h (ti =? 0)) ti).
    { intros p v. rewrite Ln, lookup_empty, Z.sub_0_r. destruct (decide _) as [[-> P2]|No].
      - destruct (outputs tx !! _); naive_solver.
      - naive_solver. }
    rewrite (IH (ti + 1) (new ∪ acc) N D).
    + rewrite lookup_union_Some_raw, Ln'. split.
      * intros [[(<- & P2 & out & Lo & ->)|[_ A]]|(k & tx' & out & L & R)]; [|by left|].
        -- right. exists 0%nat, tx, out. rewrite Z.add_0_r. done.
        -- right. exists (S k), tx', out. replace (ti + Z.of_nat (S k)) with (ti + 1 + Z.of_nat k) by lia. done.
      * intros [A|([|k] & tx' & out & L & P2 & Lo & ->)].
        -- left. right. split; [|done]. apply eq_None_not_Some. intros [v V]. apply Ln' in V as [Q _].
           apply (F o); [by eexists|]. rewrite Q. constructor.
        -- left. left. injection L as <- <-. rewrite Z.add_0_r. naive_solver.
        -- right. exists k, tx', out. replace (ti + Z.of_nat (S k)) with (ti + 1 + Z.of_nat k) by lia. done.
    + intros p [v V] Q. apply lookup_union_Some_raw in V as [V|[_ V]].
      * apply Ln' in V as [Ph _]. by rewrite Ph in Q.
      * apply (F p); [by eexists|]. by constructor.
Qed.
End Values.
