(* ===== verification/SpendChecks.v ===== *)
(** * Contextual checks of spends, nullifiers and anchors

    [zebra-state/src/service/check/utxo.rs], [nullifier.rs] and [anchors.rs]:
    before a block is added to a non-finalized chain, its transparent inputs are
    looked up in the block, the chain and the finalized state, and its shielded
    inputs are checked against the nullifiers and the tree roots of both.  The
    finalized state is known by the reads of its database. *)

From S2P Require Import Prelude Amounts ValueBalances Networks NoteTrees ChainIndexes NonFinalizedChain TransactionValues.
Import Network(Network, Mainnet, Testnet, should_allow_unshielded_coinbase_spends).

(** The reads of [ZebraDb] that the non-finalized state makes. *)
Record FinalizedState `{CT : ChainTypes} := mkFinalized {
  db_utxo : OutPoint -> option (OrderedUtxo (Script:=Script));
  contains_sprout_nullifier : Nullifier -> bool;
  contains_sapling_nullifier : Nullifier -> bool;
  contains_orchard_nullifier : Nullifier -> bool;
  contains_ironwood_nullifier : Nullifier -> bool;
  contains_sapling_anchor : Root -> bool;
  contains_orchard_anchor : Root -> bool;
  contains_ironwood_anchor : Root -> bool;
  sprout_tree_by_anchor : Root -> option STree;
  finalized_tip_hash : Hash;
  finalized_tip_height : option Z;
  note_commitment_trees_for_tip : NoteCommitmentTrees STree PTree Node;
  db_history_tree : HistoryTree;
  finalized_value_pool : Balance NonNegative;
}.

Section Checks.
Context `{CB : ConsensusBuild} `{CT : ChainTypes}.
Notation Result := (outcome ValidateContextError).
Notation OrderedUtxos := (gmap OutPoint (OrderedUtxo (Script:=Script))).

(** ** Transparent spends *)

Definition MIN_TRANSPARENT_COINBASE_MATURITY : Z := 100.

(** [Network::should_allow_unshielded_coinbase_spends]. *)
Definition net_should_allow_unshielded_coinbase_spends (self : Network) : bool :=
  match self with Testnet params => should_allow_unshielded_coinbase_spends params | Mainnet => false end.

(** [CoinbaseSpendRestriction] and [Transaction::coinbase_spend_restriction]. *)
Inductive CoinbaseSpendRestriction :=
| DisallowCoinbaseSpend
| CheckCoinbaseMaturity (spend_height : Z).
Definition coinbase_spend_restriction (network : Network) (spend_height : Z) (self : Transaction) :
    CoinbaseSpendRestriction :=
  if match outputs self with [] => true | _ => false end || net_should_allow_unshielded_coinbase_spends network
  then CheckCoinbaseMaturity spend_height else DisallowCoinbaseSpend.

(** [transparent_coinbase_spend]. *)
Definition transparent_coinbase_spend (outpoint : OutPoint) (spend_restriction : CoinbaseSpendRestriction)
    (utxo : Utxo (Script:=Script)) : Result unit :=
  if negb (from_coinbase utxo) then Ok tt
  else
    match spend_restriction with
    | CheckCoinbaseMaturity spend_height =>
        let? min_spend_height := expect (Height.add_diff (utxo_height utxo) MIN_TRANSPARENT_COINBASE_MATURITY) in
        if min_spend_height <=? spend_height then Ok tt
        else Err (ImmatureTransparentCoinbaseSpend outpoint spend_height min_spend_height (utxo_height utxo))
    | DisallowCoinbaseSpend => Err (UnshieldedTransparentCoinbaseSpend outpoint)
    end.

(** [transparent_spend_chain_order]. *)
Definition transparent_spend_chain_order (spend : OutPoint) (spend_tx_index_in_block : Z)
    (block_new_outputs non_finalized_chain_unspent_utxos : OrderedUtxos)
    (non_finalized_chain_spent_utxos : gmap OutPoint TxHash) (finalized_state : FinalizedState) :
    Result (OrderedUtxo (Script:=Script)) :=
  match block_new_outputs !! spend with
  | Some output =>
      if spend_tx_index_in_block <=? tx_index_in_block output then Err (EarlyTransparentSpend spend) else Ok output
  | None =>
      match non_finalized_chain_spent_utxos !! spend with
      | Some _ => Err (DuplicateTransparentSpend spend "the non-finalized chain")
      | None =>
          ok_or (match non_finalized_chain_unspent_utxos !! spend with
                 | Some u => Some u
                 | None => db_utxo finalized_state spend
                 end) (MissingTransparentOutput spend "the non-finalized and finalized chain")
      end
  end.

(** The lookup and the checks of one spend, in the loop of [transparent_spend]. *)
Definition check_spend (network : Network) (sv : SemanticallyVerifiedBlock) (unspent : OrderedUtxos)
    (spent : gmap OutPoint TxHash) (fs : FinalizedState) (i : Z) (tx : Transaction) (spend : OutPoint) :
    Result (OrderedUtxo (Script:=Script)) :=
  let? u := transparent_spend_chain_order spend i (sv_new_outputs sv) unspent spent fs in
  do? transparent_coinbase_spend spend (coinbase_spend_restriction network (sv_height sv) tx) (utxo u) in
  Ok u.

(** The inner and the outer loop of [transparent_spend]. *)
Fixpoint spend_inputs (check : OutPoint -> Result (OrderedUtxo (Script:=Script))) (spends : list OutPoint)
    (block_spends : OrderedUtxos) : Result OrderedUtxos :=
  match spends with
  | [] => Ok block_spends
  | spend :: spends =>
      let? u := check spend in
      match block_spends !! spend with
      | Some _ => Err (DuplicateTransparentSpend spend "the same block")
      | None => spend_inputs check spends (<[spend := u]> block_spends)
      end
  end.
Fixpoint spend_transactions (check : Z -> Transaction -> OutPoint -> Result (OrderedUtxo (Script:=Script))) (i : Z)
    (txs : list Transaction) (block_spends : OrderedUtxos) : Result OrderedUtxos :=
  match txs with
  | [] => Ok block_spends
  | tx :: txs =>
      let? block_spends := spend_inputs (check i tx) (spent_outpoints tx) block_spends in
      spend_transactions check (i + 1) txs block_spends
  end.

(** [check::utxo::transparent_spend]. *)
Definition transparent_spend (network : Network) (sv : SemanticallyVerifiedBlock) (unspent : OrderedUtxos)
    (spent : gmap OutPoint TxHash) (fs : FinalizedState) : Result OrderedUtxos :=
  let? block_spends := spend_transactions (check_spend network sv unspent spent fs) 0 (transactions (sv_block sv)) ∅ in
  do? remaining_transaction_value sv block_spends in
  Ok block_spends.

(** ** Nullifiers *)

(** The loops of [no_duplicates_in_finalized_chain]. *)
Fixpoint none_in_finalized (contains : Nullifier -> bool) (duplicate : Nullifier -> ValidateContextError)
    (nullifiers : list Nullifier) : Result unit :=
  match nullifiers with
  | [] => Ok tt
  | nullifier :: rest =>
      if contains nullifier then Err (duplicate nullifier) else none_in_finalized contains duplicate rest
  end.

(** [Block::sprout_nullifiers] and the other three. *)
Definition block_nullifiers (of_tx : Transaction -> list Nullifier) (self : Block) : list Nullifier :=
  transactions self ≫= of_tx.

(** [no_duplicates_in_finalized_chain]. *)
Definition no_duplicates_in_finalized_chain (sv : SemanticallyVerifiedBlock) (fs : FinalizedState) : Result unit :=
  let b := sv_block sv in
  do? none_in_finalized (contains_sprout_nullifier fs) (fun nf => DuplicateSproutNullifier nf true)
    (block_nullifiers tx_sprout_nullifiers b) in
  do? none_in_finalized (contains_sapling_nullifier fs) (fun nf => DuplicateSaplingNullifier nf true)
    (block_nullifiers tx_sapling_nullifiers b) in
  do? none_in_finalized (contains_orchard_nullifier fs) (fun nf => DuplicateOrchardNullifier nf true)
    (block_nullifiers tx_orchard_nullifiers b) in
  none_in_finalized (contains_ironwood_nullifier fs) (fun nf => DuplicateIronwoodNullifier nf true)
    (block_nullifiers tx_ironwood_nullifiers b).

(** [find_duplicate_nullifier]. *)
Fixpoint find_duplicate_nullifier (duplicate : Nullifier -> bool -> ValidateContextError)
    (revealed_nullifiers : list Nullifier) (finalized_chain_contains : Nullifier -> bool)
    (non_finalized_chain_contains : option (Nullifier -> bool)) : Result unit :=
  match revealed_nullifiers with
  | [] => Ok tt
  | nullifier :: rest =>
      if match non_finalized_chain_contains with Some f => f nullifier | None => false end
      then Err (duplicate nullifier false)
      else if finalized_chain_contains nullifier then Err (duplicate nullifier true)
      else find_duplicate_nullifier duplicate rest finalized_chain_contains non_finalized_chain_contains
  end.

Definition contains_key (m : gmap Nullifier TxHash) (nf : Nullifier) : bool :=
  match m !! nf with Some _ => true | None => false end.

(** [tx_no_duplicates_in_chain]. *)
Definition tx_no_duplicates_in_chain (fs : FinalizedState) (non_finalized_chain : option Chain) (tx : Transaction) :
    Result unit :=
  let in_chain (f : TxIndexes -> gmap Nullifier TxHash) :=
    (fun chain => contains_key (f (txs (inner chain)))) <$> non_finalized_chain in
  do? find_duplicate_nullifier DuplicateSproutNullifier (tx_sprout_nullifiers tx)
    (contains_sprout_nullifier fs) (in_chain sprout_nullifiers) in
  do? find_duplicate_nullifier DuplicateSaplingNullifier (tx_sapling_nullifiers tx)
    (contains_sapling_nullifier fs) (in_chain sapling_nullifiers) in
  do? find_duplicate_nullifier DuplicateOrchardNullifier (tx_orchard_nullifiers tx)
    (contains_orchard_nullifier fs) (in_chain orchard_nullifiers) in
  find_duplicate_nullifier DuplicateIronwoodNullifier (tx_ironwood_nullifiers tx)
    (contains_ironwood_nullifier fs) (in_chain ironwood_nullifiers).

(** ** Anchors *)

(** [Transaction::sapling_anchors]: without repetitions, in order. *)
Fixpoint dedup (seen l : list Root) : list Root :=
  match l with
  | [] => seen
  | root :: l => if bool_decide (root ∈ seen) then dedup seen l else dedup (seen ++ [root]) l
  end.
Definition sapling_anchors (self : Transaction) : list Root :=
  match sapling_bundle self with Some b => dedup [] (sapling_spends b).*2 | None => [] end.

(** [Transaction::orchard_anchor] and [ironwood_anchor]. *)
Definition orchard_anchor (self : Transaction) : option Root := b ← orchard_bundle self; bundle_anchor b.
Definition ironwood_anchor (self : Transaction) : option Root := b ← ironwood_bundle self; bundle_anchor b.

(** An anchor is among those of the chain, when there is one, or finalized. *)
Definition anchor_known (pool : Trees -> TreeIndex (T:=PTree) (Root:=Root)) (finalized : Root -> bool)
    (parent_chain : option Chain) (anchor : Root) : bool :=
  match parent_chain with Some chain => bool_decide (anchor ∈ anchors (pool (trees (inner chain)))) | None => false end
  || finalized anchor.

(** [sapling_orchard_anchors_refer_to_final_treestates]. *)
Definition sapling_orchard_anchors_refer_to_final_treestates (fs : FinalizedState) (parent_chain : option Chain)
    (tx : Transaction) (tx_hash : TxHash) (tx_index_in_block height : option Z) : Result unit :=
  do? try_for_each (fun _ anchor =>
        require (anchor_known sapling_trees (contains_sapling_anchor fs) parent_chain anchor)
          (UnknownSaplingAnchor anchor height tx_index_in_block tx_hash)) 0 (sapling_anchors tx) in
  do? match orchard_anchor tx with
      | Some anchor =>
          require (anchor_known orchard_trees (contains_orchard_anchor fs) parent_chain anchor)
            (UnknownOrchardAnchor anchor height tx_index_in_block tx_hash)
      | None => Ok tt
      end in
  match ironwood_anchor tx with
  | Some anchor =>
      require (anchor_known ironwood_trees (contains_ironwood_anchor fs) parent_chain anchor)
        (UnknownIronwoodAnchor anchor height tx_index_in_block tx_hash)
  | None => Ok tt
  end.

(** [block_sapling_orchard_anchors_refer_to_final_treestates]. *)
Definition block_sapling_orchard_anchors_refer_to_final_treestates (fs : FinalizedState) (parent_chain : Chain)
    (sv : SemanticallyVerifiedBlock) : Result unit :=
  try_for_each (fun i tx =>
      let? tx_hash := expect (sv_transaction_hashes sv !! Z.to_nat i) in
      sapling_orchard_anchors_refer_to_final_treestates fs (Some parent_chain) tx tx_hash (Some i) (Some (sv_height sv)))
    0 (transactions (sv_block sv)).

Notation SproutTrees := (gmap Root STree).

(** The loop of [fetch_sprout_final_treestates]. *)
Fixpoint fetch_sprout_final_treestates (fs : FinalizedState) (parent_chain : option Chain) (l : list JoinSplit)
    (sprout_final_treestates : SproutTrees) : SproutTrees :=
  match l with
  | [] => sprout_final_treestates
  | js :: l =>
      let anchor := js_anchor js in
      let fetched :=
        match sprout_final_treestates !! anchor with
        | Some _ => sprout_final_treestates
        | None =>
            let input_tree :=
              match (chain ← parent_chain; trees_by_anchor (sprout_trees (trees (inner chain))) !! anchor) with
              | Some tree => Some tree
              | None => sprout_tree_by_anchor fs anchor
              end in
            match input_tree with
            | Some input_tree => <[anchor := input_tree]> sprout_final_treestates
            | None => sprout_final_treestates
            end
        end in
      fetch_sprout_final_treestates fs parent_chain l fetched
  end.

(** [block_fetch_sprout_final_treestates]. *)
Definition block_fetch_sprout_final_treestates (fs : FinalizedState) (parent_chain : Chain)
    (sv : SemanticallyVerifiedBlock) : SproutTrees :=
  foldl (fun m tx => fetch_sprout_final_treestates fs (Some parent_chain) (sprout_joinsplit_descriptions tx) m) ∅
    (transactions (sv_block sv)).

(** The loop of [sprout_anchors_refer_to_treestates]; the tree of the last
    JoinSplit is not updated. *)
Fixpoint sprout_anchors_loop (final : SproutTrees) (unknown : Root -> ValidateContextError)
    (l : list JoinSplit) (interstitial_trees : SproutTrees) : Result unit :=
  match l with
  | [] => Ok tt
  | js :: l =>
      let anchor := js_anchor js in
      let input_tree := match interstitial_trees !! anchor with Some tree => Some tree | None => final !! anchor end in
      let? input_tree := ok_or input_tree (unknown anchor) in
      match l with
      | [] => Ok tt
      | _ =>
          let? input_tree := map_err (fun e => TreeUpdateError (SproutError e)) (update_sprout input_tree (js_commitments js)) in
          sprout_anchors_loop final unknown l (<[sprout_root input_tree := input_tree]> interstitial_trees)
      end
  end.

(** [sprout_anchors_refer_to_treestates]. *)
Definition sprout_anchors_refer_to_treestates (final : SproutTrees) (tx : Transaction) (tx_hash : TxHash)
    (tx_index_in_block height : option Z) : Result unit :=
  sprout_anchors_loop final (fun anchor => UnknownSproutAnchor anchor height tx_index_in_block tx_hash)
    (sprout_joinsplit_descriptions tx) ∅.

(** [block_sprout_anchors_refer_to_treestates]; the parallel iterator returns
    the error of some transaction, the sequential one of the first. *)
Definition block_sprout_anchors_refer_to_treestates (final : SproutTrees) (block : Block)
    (transaction_hashes : list TxHash) (height : Z) : Result unit :=
  try_for_each (fun i tx =>
      let? tx_hash := expect (transaction_hashes !! Z.to_nat i) in
      sprout_anchors_refer_to_treestates final tx tx_hash (Some i) (Some height)) 0 (transactions block).

(** [tx_anchors_refer_to_final_treestates], of a mempool transaction. *)
Definition tx_anchors_refer_to_final_treestates (fs : FinalizedState) (parent_chain : option Chain) (tx : Transaction)
    (mined_id : TxHash) : Result unit :=
  do? sapling_orchard_anchors_refer_to_final_treestates fs parent_chain tx mined_id None None in
  match sprout_joinsplit_descriptions tx with
  | [] => Ok tt
  | l => sprout_anchors_refer_to_treestates (fetch_sprout_final_treestates fs parent_chain l ∅) tx mined_id None None
  end.

(** ** What the checks accept *)

(** The spends of a list of transactions, with the index of each one. *)
Fixpoint spends_from (i : Z) (txs : list Transaction) : list (Z * Transaction * OutPoint) :=
  match txs with
  | [] => []
  | tx :: txs => ((fun o => (i, tx, o)) <$> spent_outpoints tx) ++ spends_from (i + 1) txs
  end.

(** A spend that the rules allow: its output was created by an earlier
    transaction of the block, or it is unspent in the chain or the finalized
    state; and an output of a coinbase is only spent by a transaction without
    transparent outputs, unless the network allows it, 100 blocks later. *)
Definition spendable (network : Network) (sv : SemanticallyVerifiedBlock) (unspent : OrderedUtxos)
    (spent : gmap OutPoint TxHash) (fs : FinalizedState) (s : Z * Transaction * OutPoint)
    (u : OrderedUtxo (Script:=Script)) : Prop :=
  let '(i, tx, o) := s in
  match sv_new_outputs sv !! o with
  | Some v => u = v /\ tx_index_in_block v < i
  | None => spent !! o = None /\ (unspent !! o = Some u \/ unspent !! o = None /\ db_utxo fs o = Some u)
  end /\
  (from_coinbase (utxo u) = true ->
     (outputs tx = [] \/ net_should_allow_unshielded_coinbase_spends network = true) /\
     0 <= utxo_height (utxo u) + MIN_TRANSPARENT_COINBASE_MATURITY <= Z.min (sv_height sv) Height.MAX).

Lemma add_maturity h : 0 <= h <= U32_MAX ->
  Height.add_diff h MIN_TRANSPARENT_COINBASE_MATURITY =
    if h + MIN_TRANSPARENT_COINBASE_MATURITY <=? Height.MAX then Some (h + MIN_TRANSPARENT_COINBASE_MATURITY) else None.
Proof.
  intros Hh. unfold Height.add_diff, Height.try_from_u32, MIN_TRANSPARENT_COINBASE_MATURITY, Height.MAX.
  change (U32_MAX / 2) with 2147483647. rewrite wrap_i_small by bool_lia.
  destruct (Z.leb_spec (h + 100) 2147483647) as [L|L].
  - rewrite checked_ok by (unfold_widths; lia). cbn. by rewrite (proj2 (Z.leb_le _ _) L).
  - destruct (u32_checked (h + 100)) as [x|] eqn:C; [|done]. apply checked_Some in C as [-> _].
    cbn. by rewrite (proj2 (Z.leb_gt _ _) L).
Qed.

(** The heights of the UTXOs that a check can return are [u32]s. *)
Definition heights_u32 (sv : SemanticallyVerifiedBlock) (unspent : OrderedUtxos) (fs : FinalizedState) : Prop :=
  (forall o u, sv_new_outputs sv !! o = Some u \/ unspent !! o = Some u \/ db_utxo fs o = Some u ->
     0 <= utxo_height (utxo u) <= U32_MAX) /\ sv_height sv <= Height.MAX.

Lemma coinbase_spend_Ok network h tx o (u : Utxo (Script:=Script)) : 0 <= utxo_height u <= U32_MAX ->
  transparent_coinbase_spend o (coinbase_spend_restriction network h tx) u = Ok tt <->
  (from_coinbase u = true ->
     (outputs tx = [] \/ net_should_allow_unshielded_coinbase_spends network = true) /\
     0 <= utxo_height u + MIN_TRANSPARENT_COINBASE_MATURITY <= Z.min h Height.MAX).
Proof.
  intros Hi. unfold transparent_coinbase_spend, coinbase_spend_restriction.
  destruct (from_coinbase u); cbn [negb]; [|naive_solver].
  destruct (match outputs tx with [] => true | _ => false end || _) eqn:R.
  - rewrite add_maturity by done. set (m := utxo_height u + _).
    assert (0 <= m) by (unfold m, MIN_TRANSPARENT_COINBASE_MATURITY; lia).
    assert (A : outputs tx = [] \/ net_should_allow_unshielded_coinbase_spends network = true)
      by (destruct (outputs tx); [by left|right; done]).
    destruct (Z.leb_spec m Height.MAX); cbn [expect obind];
      [|split; [done|intros X; specialize (X eq_refl) as [_ X]; lia]].
    destruct (Z.leb_spec m h); [split; [|done]; intros _ _; split; [done|lia]|
       split; [done|intros X; specialize (X eq_refl) as [_ X]; lia]].
  - split; [done|]. intros X. specialize (X eq_refl) as [X _]. apply orb_false_iff in R as [R1 R2].
    destruct (outputs tx); [done|]. destruct X; congruence.
Qed.

Lemma check_spend_Ok network sv unspent spent fs i tx o u : heights_u32 sv unspent fs ->
  check_spend network sv unspent spent fs i tx o = Ok u <-> spendable network sv unspent spent fs (i, tx, o) u.
Proof.
  intros [Hu Hh]. unfold check_spend, spendable.
  assert (Hc : forall v, transparent_spend_chain_order o i (sv_new_outputs sv) unspent spent fs = Ok v <->
    match sv_new_outputs sv !! o with
    | Some w => v = w /\ tx_index_in_block w < i
    | None => spent !! o = None /\ (unspent !! o = Some v \/ unspent !! o = None /\ db_utxo fs o = Some v)
    end).
  { intros v. unfold transparent_spend_chain_order. destruct (sv_new_outputs sv !! o) as [w|].
    - destruct (Z.leb_spec i (tx_index_in_block w)); naive_solver lia.
    - destruct (spent !! o); [naive_solver|]. rewrite ok_or_Ok. destruct (unspent !! o); naive_solver. }
  assert (Hi : transparent_spend_chain_order o i (sv_new_outputs sv) unspent spent fs = Ok u ->
    0 <= utxo_height (utxo u) <= U32_MAX).
  { rewrite Hc. intros X. apply (Hu o). destruct (sv_new_outputs sv !! o); naive_solver. }
  rewrite <- Hc, obind_Ok. split.
  - intros (v & Hv & X). outcome_inv. destruct a. split; [done|]. by rewrite coinbase_spend_Ok in H by (by apply Hi).
  - intros [Hv X]. exists u. split; [done|]. by rewrite (proj2 (coinbase_spend_Ok _ _ _ o _ (Hi Hv)) X).
Qed.

(** The two loops are one loop over the spends of the block. *)
Fixpoint spend_list (check : Z -> Transaction -> OutPoint -> Result (OrderedUtxo (Script:=Script)))
    (l : list (Z * Transaction * OutPoint)) (m : OrderedUtxos) : Result OrderedUtxos :=
  match l with
  | [] => Ok m
  | (i, tx, o) :: l =>
      let? u := check i tx o in
      match m !! o with
      | Some _ => Err (DuplicateTransparentSpend o "the same block")
      | None => spend_list check l (<[o := u]> m)
      end
  end.

Lemma spend_list_app check l l' m :
  spend_list check (l ++ l') m = let? m := spend_list check l m in spend_list check l' m.
Proof.
  revert m. induction l as [|[[i tx] o] l IH]; intros m; cbn; [done|]. rewrite obind_assoc.
  destruct (check i tx o); cbn; [|done..]. destruct (m !! o); [done|apply IH].
Qed.

Lemma spend_transactions_list check i txs m :
  spend_transactions check i txs m = spend_list check (spends_from i txs) m.
Proof.
  revert i m. induction txs as [|tx txs IH]; intros i m; cbn; [done|]. rewrite spend_list_app.
  assert (S : forall l m, spend_inputs (check i tx) l m = spend_list check ((fun o => (i, tx, o)) <$> l) m).
  { induction l as [|o l IHl]; intros m'; cbn; [done|]. destruct (check i tx o); cbn; [|done..].
    destruct (m' !! o); [done|apply IHl]. }
  rewrite S. destruct (spend_list _ _ m); cbn; [apply IH|done..].
Qed.

Lemma spend_list_Ok check l m0 m : spend_list check l m0 = Ok m <->
  NoDup l.*2 /\ (forall s, s ∈ l -> m0 !! s.2 = None) /\
  (forall s, s ∈ l -> exists u, check s.1.1 s.1.2 s.2 = Ok u /\ m !! s.2 = Some u) /\
  (forall o, o ∉ l.*2 -> m !! o = m0 !! o).
Proof.
  revert m0. induction l as [|[[i tx] o] l IH]; intros m0; cbn [spend_list].
  - split.
    + intros [= <-]. split_and!; [constructor|by intros s ?%elem_of_nil..|done].
    + intros (_ & _ & _ & E). f_equal. apply map_eq. intros o. symmetry. apply E, not_elem_of_nil.
  - rewrite obind_Ok. split.
    + intros (u & C & S). destruct (m0 !! o) eqn:L; [done|]. apply IH in S as (N & D & F & E).
      assert (No : o ∉ l.*2).
      { intros ([[i' tx'] o'] & -> & Hs)%list_elem_of_fmap. specialize (D _ Hs). cbn in D. by rewrite lookup_insert_eq in D. }
      split_and!.
      * cbn. by apply NoDup_cons.
      * intros s [->|Hs]%elem_of_cons; [done|]. specialize (D _ Hs).
        destruct (decide (s.2 = o)) as [<-|Ne]; [done|]. by rewrite lookup_insert_ne in D.
      * intros s [->|Hs]%elem_of_cons; [|by apply F]. exists u. split; [done|]. cbn. by rewrite E, lookup_insert_eq.
      * intros p [Np Np']%not_elem_of_cons. rewrite E by done. by rewrite lookup_insert_ne.
    + intros ([No N]%NoDup_cons & D & F & E). destruct (F (i, tx, o)) as (u & C & L); [constructor|].
      exists u. split; [done|]. pose proof (D (i, tx, o) (list_elem_of_here _ _)) as Do. cbn [snd] in *. rewrite Do. apply IH. split_and!; [done| | |].
      * intros s Hs. assert (s.2 <> o) by (intros <-; apply No; by apply list_elem_of_fmap; eauto).
        rewrite lookup_insert_ne by done. apply D. by constructor.
      * intros s Hs. apply F. by constructor.
      * intros p Np. destruct (decide (p = o)) as [->|Ne]; [by rewrite L, lookup_insert_eq|].
        rewrite lookup_insert_ne by done. apply E. by apply not_elem_of_cons.
Qed.

Lemma transparent_spend_Ok network sv unspent spent fs m : heights_u32 sv unspent fs ->
  let spends := spends_from 0 (transactions (sv_block sv)) in
  transparent_spend network sv unspent spent fs = Ok m <->
  NoDup spends.*2 /\ dom m = list_to_set spends.*2 /\
  (forall s, s ∈ spends -> exists u, spendable network sv unspent spent fs s u /\ m !! s.2 = Some u) /\
  remaining_transaction_value sv m = Ok tt.
Proof.
  intros Hu spends. unfold transparent_spend. rewrite spend_transactions_list. fold spends.
  assert (L : spend_list (check_spend network sv unspent spent fs) spends ∅ = Ok m <->
    NoDup spends.*2 /\ dom m = list_to_set spends.*2 /\
    forall s, s ∈ spends -> exists u, spendable network sv unspent spent fs s u /\ m !! s.2 = Some u).
  { rewrite spend_list_Ok. split.
    - intros (N & _ & F & E). split_and!; [done| |].
      + apply set_eq. intros o. rewrite elem_of_dom, elem_of_list_to_set. split.
        * intros [u Lu]. destruct (decide (o ∈ spends.*2)); [done|]. by rewrite E, lookup_empty in Lu.
        * intros (s & -> & Hs)%list_elem_of_fmap. destruct (F s Hs) as (u & _ & ->). by eexists.
      + intros s Hs. destruct (F s Hs) as (u & C & Lu). exists u. split; [|done].
        destruct s as [[i tx] o]. by apply check_spend_Ok.
    - intros (N & D & F). split_and!; [done|by intros; apply lookup_empty| |].
      + intros s Hs. destruct (F s Hs) as (u & C & Lu). exists u. split; [|done].
        destruct s as [[i tx] o]. by apply check_spend_Ok.
      + intros o No. rewrite lookup_empty. apply not_elem_of_dom. by rewrite D, elem_of_list_to_set. }
  rewrite obind_Ok. split.
  - intros (m' & S & R). outcome_inv. destruct a. apply L in S. tauto.
  - intros (N & D & F & R). exists m. rewrite R. split; [|done]. by apply L.
Qed.

(** *** The checks do not panic *)

(** The UTXOs that the checks can read: their values are amounts, and their
    heights far below the maximum. *)
Definition utxo_read (sv : SemanticallyVerifiedBlock) (unspent : OrderedUtxos) (fs : FinalizedState) (o : OutPoint)
    (u : OrderedUtxo (Script:=Script)) : Prop :=
  sv_new_outputs sv !! o = Some u \/ unspent !! o = Some u \/ db_utxo fs o = Some u.
Definition reads_ok (sv : SemanticallyVerifiedBlock) (unspent : OrderedUtxos) (fs : FinalizedState) : Prop :=
  sv_height sv <= Height.MAX /\ forall o u, utxo_read sv unspent fs o u -> Amount.valid (value (output (utxo u))) /\
    0 <= utxo_height (utxo u) <= Height.MAX - MIN_TRANSPARENT_COINBASE_MATURITY.

Lemma reads_u32 sv unspent fs : reads_ok sv unspent fs -> heights_u32 sv unspent fs.
Proof.
  intros [Hh R]. split; [|done]. intros o u U. destruct (R o u U) as [_ B].
  unfold Height.MAX, MIN_TRANSPARENT_COINBASE_MATURITY in B. change (U32_MAX / 2) with 2147483647 in B. unfold_widths. lia.
Qed.

Lemma order_read o i sv unspent spent fs u :
  transparent_spend_chain_order o i (sv_new_outputs sv) unspent spent fs = Ok u -> utxo_read sv unspent fs o u.
Proof.
  unfold transparent_spend_chain_order, utxo_read. destruct (sv_new_outputs sv !! o).
  - destruct (_ <=? _); [done|]. intros [= ->]. by left.
  - destruct (spent !! o); [done|]. rewrite ok_or_Ok. destruct (unspent !! o); naive_solver.
Qed.

Lemma check_spend_returns network sv unspent spent fs i tx o : reads_ok sv unspent fs ->
  returns (check_spend network sv unspent spent fs i tx o).
Proof.
  intros R. pose proof (reads_u32 _ _ _ R) as [H32 _]. unfold check_spend. apply returns_bind.
  - unfold transparent_spend_chain_order. destruct (sv_new_outputs sv !! o); [by destruct (_ <=? _)|].
    destruct (spent !! o); [done|apply returns_ok_or].
  - intros u U%order_read. apply returns_bind; [|done]. unfold transparent_coinbase_spend.
    destruct (negb _); [done|]. destruct (coinbase_spend_restriction _ _ _); [done|].
    rewrite add_maturity by (by apply (H32 o)). destruct R as [_ R]. destruct (R o u U) as [_ B].
    rewrite (proj2 (Z.leb_le _ _)) by lia. cbn. by destruct (_ <=? _).
Qed.

Lemma spend_list_returns check l m : (forall i tx o, returns (check i tx o)) -> returns (spend_list check l m).
Proof.
  intros C. revert m. induction l as [|[[i tx] o] l IH]; intros m; cbn; [done|]. apply returns_bind; [apply C|].
  intros u _. destruct (m !! o); [done|apply IH].
Qed.

Lemma spends_of_tx i txs k tx : txs !! k = Some tx -> forall o, o ∈ spent_outpoints tx ->
  (i + Z.of_nat k, tx, o) ∈ spends_from i txs.
Proof.
  revert i k. induction txs as [|t txs IH]; intros i k L o Ho; [by rewrite lookup_nil in L|]. cbn. apply elem_of_app.
  destruct k as [|k]; cbn in L.
  - injection L as ->. left. rewrite Z.add_0_r. apply list_elem_of_fmap. eauto.
  - right. replace (i + Z.of_nat (S k)) with (i + 1 + Z.of_nat k) by lia. by apply IH.
Qed.

(** Every output of the result was read by a spend of the block. *)
Lemma spends_read network sv unspent spent fs m : reads_ok sv unspent fs ->
  spend_list (check_spend network sv unspent spent fs) (spends_from 0 (transactions (sv_block sv))) ∅ = Ok m ->
  forall o u, m !! o = Some u -> exists i tx, spendable network sv unspent spent fs (i, tx, o) u /\
    utxo_read sv unspent fs o u.
Proof.
  intros R S. pose proof (reads_u32 _ _ _ R) as H32. apply spend_list_Ok in S as (N & _ & F & E). intros o u L.
  destruct (decide (o ∈ (spends_from 0 (transactions (sv_block sv))).*2)) as [X|X];
    [|by rewrite E, lookup_empty in L].
  apply list_elem_of_fmap in X as ([[i tx] o'] & -> & Hs). destruct (F _ Hs) as (v & C & L'). cbn in *.
  rewrite L in L'. injection L' as <-. exists i, tx. split; [by apply check_spend_Ok|].
  unfold check_spend in C. outcome_inv. by eapply order_read.
Qed.

(** The result of the spends has every output that the block spends. *)
Lemma spends_found network sv unspent spent fs m : reads_ok sv unspent fs ->
  spend_list (check_spend network sv unspent spent fs) (spends_from 0 (transactions (sv_block sv))) ∅ = Ok m ->
  utxos_valid (utxos_from_ordered_utxos m) /\
  (forall o u v, m !! o = Some u -> sv_new_outputs sv !! o = Some v -> u = v) /\
  Forall (inputs_in (utxos_from_ordered_utxos m)) (transactions (sv_block sv)).
Proof.
  intros R S. pose proof (spends_read _ _ _ _ _ _ R S) as G. apply spend_list_Ok in S as (_ & _ & F & _).
  split_and!.
  - intros o u L. unfold utxos_from_ordered_utxos in L. apply lookup_fmap_Some in L as (ou & <- & L).
    destruct (G o ou L) as (_ & _ & _ & U). by apply R in U as [? _].
  - intros o u v L Lv. destruct (G o u L) as (i & tx & [Sp _] & _). rewrite Lv in Sp. by destruct Sp.
  - apply Forall_lookup. intros k tx L. apply Forall_forall. intros o Ho.
    destruct (F _ (spends_of_tx 0 _ _ _ L o Ho)) as (u & _ & Lu). cbn in Lu.
    exists (utxo u). unfold utxos_from_ordered_utxos. by rewrite lookup_fmap, Lu.
Qed.

Lemma transparent_spend_returns network sv unspent spent fs : reads_ok sv unspent fs ->
  Forall tx_amounts_ok (transactions (sv_block sv)) ->
  length (sv_transaction_hashes sv) = length (transactions (sv_block sv)) ->
  returns (transparent_spend network sv unspent spent fs).
Proof.
  intros R A Len. unfold transparent_spend. rewrite spend_transactions_list. apply returns_bind.
  - apply spend_list_returns. intros. by apply check_spend_returns.
  - intros m S. destruct (spends_found _ _ _ _ _ _ R S) as (V & _ & I). apply returns_bind; [|done].
    apply try_for_each_returns. intros k tx L. rewrite Forall_lookup in A, I.
    unfold tx_remaining_value. destruct (is_coinbase tx); [done|].
    pose proof (value_balance_returns _ _ (A _ _ L) V (I _ _ L)) as Ret.
    assert (Lh : is_Some (sv_transaction_hashes sv !! Z.to_nat (0 + Z.of_nat k))).
    { apply lookup_lt_is_Some_2. rewrite Len. apply lookup_lt_Some in L. lia. }
    destruct Lh as [th ->]. destruct (value_balance _ tx) as [vb|e|] eqn:B; [|done|done].
    apply value_balance_Ok in B as (_ & Vb & _); [|apply (A _ _ L)|done].
    destruct (ValueBalance.remaining_value_exact vb Vb) as [Rr _].
    destruct (ValueBalance.remaining_transaction_value vb) as [|e|]; [done| |done]. destruct e; try done. cbn. by destruct (_ <? 0).
Qed.

(** ** The theorems *)

(** [transparent_spend] accepts exactly the blocks whose transparent inputs
    all follow the rules: no outpoint is spent twice in the block, every one is
    spendable where it appears, and every remaining value is in range; it then
    returns the spent outputs, all of them and no other.  It never panics when
    the UTXOs it reads are valid. *)
Theorem transparent_spend_exact network sv unspent spent fs :
  reads_ok sv unspent fs ->
  let spends := spends_from 0 (transactions (sv_block sv)) in
  (forall m, transparent_spend network sv unspent spent fs = Ok m <->
     NoDup spends.*2 /\ dom m = list_to_set spends.*2 /\
     (forall s, s ∈ spends -> exists u, spendable network sv unspent spent fs s u /\ m !! s.2 = Some u) /\
     remaining_transaction_value sv m = Ok tt) /\
  (Forall tx_amounts_ok (transactions (sv_block sv)) ->
   length (sv_transaction_hashes sv) = length (transactions (sv_block sv)) ->
   returns (transparent_spend network sv unspent spent fs)).
Proof.
  intros R. split.
  - intros m. apply transparent_spend_Ok. by apply reads_u32.
  - by apply transparent_spend_returns.
Qed.

(** The fees of the transactions other than coinbases, and the value that
    coinbases create. *)
Definition fees (utxos : gmap OutPoint (Utxo (Script:=Script))) (l : list Transaction) : Z :=
  foldr (fun tx t => (if is_coinbase tx then 0 else tx_total utxos tx) + t) 0 l.
Definition minted (utxos : gmap OutPoint (Utxo (Script:=Script))) (l : list Transaction) : Z :=
  foldr (fun tx t => (if is_coinbase tx then - tx_total utxos tx else 0) + t) 0 l.

Lemma tx_total_ext utxos utxos' tx : (forall o, o ∈ spent_outpoints tx -> utxos !! o = utxos' !! o) ->
  tx_total utxos tx = tx_total utxos' tx.
Proof.
  intros X. assert (I : input_value utxos tx = input_value utxos' tx).
  { unfold input_value. induction (spent_outpoints tx) as [|o l IH]; cbn; [done|].
    rewrite X by constructor. rewrite IH; [done|]. intros. apply X. by constructor. }
  unfold tx_total, tx_pools. by rewrite I.
Qed.

Lemma contextual_Ok network sv unspent spent fs m d c : reads_ok sv unspent fs ->
  Forall outputs_valid (transactions (sv_block sv)) -> Amount.valid (Amount.deferred_value d) ->
  transparent_spend network sv unspent spent fs = Ok m -> with_block_and_spent_utxos sv m d = Ok c ->
  let utxos := utxos_from_ordered_utxos (spent_outputs c) in
  spent_outputs c = sv_new_outputs sv ∪ m /\ utxos_valid utxos /\ Forall (inputs_in utxos) (transactions (sv_block sv)) /\
  ValueBalance.valid (chain_value_pool_change c) /\
  issued (chain_value_pool_change c) = - foldr (fun tx t => tx_total utxos tx + t) 0 (transactions (sv_block sv)) /\
  ValueBalance.deferred (chain_value_pool_change c) = Amount.deferred_value d /\
  Forall (fun tx => is_coinbase tx = false -> 0 <= tx_total utxos tx <= MAX_MONEY) (transactions (sv_block sv)).
Proof.
  intros R O D T W. unfold transparent_spend in T. rewrite spend_transactions_list in T. outcome_inv. destruct a0.
  destruct (spends_found _ _ _ _ _ _ R H) as (Vm & Ag & I).
  apply remaining_value_Ok in H0; [|done..]. unfold with_block_and_spent_utxos in W. outcome_inv. cbn [spent_outputs chain_value_pool_change].
  assert (L : forall o u, m !! o = Some u -> (sv_new_outputs sv ∪ m) !! o = Some u).
  { intros o u Lu. apply lookup_union_Some_raw. destruct (sv_new_outputs sv !! o) as [v|] eqn:Lv; [|by right].
    left. by rewrite (Ag _ _ _ Lu Lv). }
  assert (V : utxos_valid (utxos_from_ordered_utxos (sv_new_outputs sv ∪ m))).
  { intros o u Lu. unfold utxos_from_ordered_utxos in Lu. apply lookup_fmap_Some in Lu as (ou & <- & Lu).
    apply lookup_union_Some_raw in Lu as [Lu|[_ Lu]].
    - apply R with (o := o). by left.
    - apply (Vm o). unfold utxos_from_ordered_utxos. by rewrite lookup_fmap, Lu. }
  apply pool_change_Ok in H1 as (Ii & Vc & Pc); [|done..].
  split_and!; [done|done|done|done|by eapply issued_change| |].
  - pose proof (block_pools_length (utxos_from_ordered_utxos (sv_new_outputs sv ∪ m)) (transactions (sv_block sv))) as Len.
    unfold ValueBalance.pools in Pc. destruct (block_pools _ _) as [|? [|? [|? [|? [|? [|? []]]]]]]; try done.
    cbn in Pc. apply Amount.amount_ext. congruence.
  - apply Forall_lookup. intros k tx Lk Nc. rewrite Forall_lookup in H0, I. destruct (H0 _ _ Lk Nc) as [_ B].
    rewrite (tx_total_ext _ (utxos_from_ordered_utxos m)); [done|]. intros o Ho.
    specialize (I _ _ Lk). unfold inputs_in in I. rewrite Forall_forall in I. destruct (I o Ho) as [u Lu]. rewrite Lu.
    unfold utxos_from_ordered_utxos in *. apply lookup_fmap_Some in Lu as (ou & <- & Lu). by rewrite lookup_fmap, (L _ _ Lu).
Qed.

(** C8: a block whose spends are accepted creates no value outside its coinbase.
    The change that it makes to the transparent, Sprout, Sapling, Orchard and
    Ironwood pools together is what its coinbases create less the fees of its
    other transactions, each of which is non-negative; the deferred pool changes
    by the given amount; and every output that the block spends is known. *)
Theorem accepted_block_creates_no_value network sv unspent spent fs m d c :
  reads_ok sv unspent fs -> Forall outputs_valid (transactions (sv_block sv)) -> Amount.valid (Amount.deferred_value d) ->
  transparent_spend network sv unspent spent fs = Ok m -> with_block_and_spent_utxos sv m d = Ok c ->
  let utxos := utxos_from_ordered_utxos (spent_outputs c) in let l := transactions (sv_block sv) in
  issued (chain_value_pool_change c) = minted utxos l - fees utxos l /\ 0 <= fees utxos l /\
  Forall (fun tx => is_coinbase tx = false -> 0 <= tx_total utxos tx <= MAX_MONEY) l /\
  ValueBalance.deferred (chain_value_pool_change c) = Amount.deferred_value d /\
  Forall (inputs_in utxos) l.
Proof.
  intros R O D T W utxos l. destruct (contextual_Ok _ _ _ _ _ _ _ _ R O D T W) as (_ & _ & I & _ & Is & Df & F).
  fold utxos in I, Is, F. fold l in I, Is, F. split_and!; [|clear Is|done..].
  - rewrite Is. unfold minted, fees. clearbody l utxos. clear. induction l as [|tx l IH]; [done|].
    cbn [foldr]. destruct (is_coinbase tx); lia.
  - unfold fees. clearbody l utxos. clear -F. induction F as [|tx l F _ IH]; [done|].
    cbn [foldr]. destruct (is_coinbase tx); [lia|].
    specialize (F eq_refl). lia.
Qed.
End Checks.
