(* ===== verification/ContextualTheorems.v ===== *)
(** * The contextual checks on a non-finalized chain

    The checks of [SpendChecks] against a chain that has the invariant of
    [ChainTheorems]: the anchors they accept are the roots of the final
    treestates of earlier blocks, and the nullifiers they accept were not
    revealed before. *)

From stdpp Require Import gmultiset.
From S2P Require Import Prelude Amounts ValueBalances Networks NoteTrees ChainIndexes NonFinalizedChain ChainInvariant.
From S2P Require Import ChainTheorems TransactionValues SpendChecks.

Lemma elem_of_all_anchors {Root} `{Countable Root} (m : gmap Z Root) a : a ∈ all_anchors m <-> exists h, m !! h = Some a.
Proof.
  induction m as [|h b m N IH] using map_ind.
  - split; [intros X; unfold all_anchors in X; rewrite map_fold_empty in X; multiset_solver|].
    intros [h L]. by rewrite lookup_empty in L.
  - rewrite all_anchors_insert, gmultiset_elem_of_disj_union, gmultiset_elem_of_singleton, IH by done. split.
    + intros [->|[k L]]; [exists h; apply lookup_insert_eq|]. exists k. rewrite lookup_insert_ne; [done|congruence].
    + intros [k [[_ ->]|[_ L]]%lookup_insert_Some]; [by left|right; eauto].
Qed.

(** The root of the tree in force at some height of the index. *)
Definition treestate_root {T Root} (root : T -> Root) (lo hi : Z) `{Countable Root} (idx : TreeIndex (T:=T) (Root:=Root))
    (a : Root) : Prop :=
  exists h t, lo <= h <= hi /\ tree_at h idx = Some t /\ root t = a.

Lemma anchor_iff {T Root} `{Countable Root} (root : T -> Root) lo hi (idx : TreeIndex (T:=T) (Root:=Root)) a :
  TreeWf root lo hi idx -> a ∈ anchors idx <-> treestate_root root lo hi idx a.
Proof.
  intros W. rewrite (wf_all _ _ _ _ W), elem_of_all_anchors. split.
  - intros [h L]. pose proof (wf_root _ _ _ _ W _ _ L) as (t & Lt & R)%fmap_Some.
    exists h, t. split; [|by rewrite R]. apply (wf_anchors _ _ _ _ W). eauto.
  - intros (h & t & B & Lt & <-). apply (wf_anchors _ _ _ _ W) in B as [a L]. exists h.
    pose proof (wf_root _ _ _ _ W _ _ L) as R. rewrite Lt in R. cbn in R. congruence.
Qed.

Section Anchors.
Context `{CB : ConsensusBuild} `{CO : ChainOps}.
Notation len bs := (Z.of_nat (length bs)).

Lemma dedup_elem seen l a : a ∈ dedup seen l <-> a ∈ seen \/ a ∈ l.
Proof.
  revert seen. induction l as [|b l IH]; intros seen; cbn.
  - split; [by left|]. intros [?|?%elem_of_nil]; done.
  - case_bool_decide; rewrite IH, ?elem_of_app, ?elem_of_cons, ?elem_of_nil; naive_solver.
Qed.

(** The input tree of each JoinSplit of a transaction: a final treestate that is
    found by its anchor, or the interstitial output treestate of an earlier
    JoinSplit of the same transaction. *)
Inductive InputTree (final : Root -> STree -> Prop) (l : list JoinSplit) : nat -> STree -> Prop :=
| FinalTree k js t : l !! k = Some js -> final (js_anchor js) t -> InputTree final l k t
| InterstitialTree k js j js' t0 t : l !! k = Some js -> (j < k)%nat -> l !! j = Some js' -> InputTree final l j t0 ->
    update_sprout t0 (js_commitments js') = Ok t -> sprout_root t = js_anchor js -> InputTree final l k t.

Lemma sprout_loop_sound final (P : Root -> STree -> Prop) unknown pre l inter :
  (forall a t, final !! a = Some t -> P a t) ->
  (forall a t, inter !! a = Some t -> exists j js t0, pre !! j = Some js /\ InputTree P (pre ++ l) j t0 /\
     update_sprout t0 (js_commitments js) = Ok t /\ sprout_root t = a) ->
  sprout_anchors_loop final unknown l inter = Ok tt ->
  forall k js, l !! k = Some js -> exists t, InputTree P (pre ++ l) (length pre + k) t.
Proof.
  intros F. revert pre inter. induction l as [|js0 l IH]; intros pre inter I Acc; [done|].
  cbn [sprout_anchors_loop] in Acc. outcome_inv. rename a into t.
  assert (L0 : (pre ++ js0 :: l) !! length pre = Some js0) by by apply list_lookup_middle.
  assert (T : InputTree P (pre ++ js0 :: l) (length pre) t).
  { destruct (inter !! js_anchor js0) as [t'|] eqn:Li.
    - injection H as ->. destruct (I _ _ Li) as (j & js & t0 & Lj & T0 & U & R).
      apply (InterstitialTree _ _ _ js0 j js t0); try done.
      + by apply lookup_lt_Some in Lj.
      + by apply lookup_app_l_Some.
    - by apply (FinalTree _ _ _ js0); [|apply F]. }
  intros [|k] js L; [by exists t; rewrite Nat.add_0_r|]. cbn in L.
  destruct l as [|js1 l]; [done|]. outcome_inv. rename a into t'.
  rewrite (cons_middle js0), app_assoc in T |- *.
  replace (length pre + S k)%nat with (length (pre ++ [js0]) + k)%nat by (rewrite length_app; cbn; lia).
  apply (IH (pre ++ [js0]) (<[sprout_root t' := t']> inter)) with js; [|done..].
  intros a u [[<- <-]|[_ Lu]]%lookup_insert_Some.
  - exists (length pre), js0, t. split_and!; [by apply list_lookup_middle|done..].
  - destruct (I _ _ Lu) as (j & js' & t0 & Lj & T0 & U & R). exists j, js', t0.
    rewrite (cons_middle js0), app_assoc in T0. split_and!; try done. by apply lookup_app_l_Some.
Qed.

(** The trees that a JoinSplit may refer to. *)
Definition sprout_known (fs : FinalizedState) (chain : Chain) (a : Root) (t : STree) : Prop :=
  trees_by_anchor (sprout_trees (trees (inner chain))) !! a = Some t \/ sprout_tree_by_anchor fs a = Some t.

Lemma fetch_sound fs chain l m a t :
  fetch_sprout_final_treestates fs (Some chain) l m !! a = Some t -> m !! a = Some t \/ sprout_known fs chain a t.
Proof.
  revert m. induction l as [|js l IH]; intros m; cbn [fetch_sprout_final_treestates]; [by left|].
  intros [L|?]%IH; [|by right]. destruct (m !! js_anchor js); [by left|]. unfold sprout_known. cbn in L.
  destruct (trees_by_anchor _ !! js_anchor js) eqn:Lc;
    [|destruct (sprout_tree_by_anchor fs (js_anchor js)) eqn:Lf; [|by left]];
    (apply lookup_insert_Some in L as [[<- <-]|[_ L]]; [right|by left]); [by left|by right].
Qed.

Lemma block_fetch_sound fs chain sv a t :
  block_fetch_sprout_final_treestates fs chain sv !! a = Some t -> sprout_known fs chain a t.
Proof.
  unfold block_fetch_sprout_final_treestates. generalize (transactions (sv_block sv)) as txs.
  intros txs L. assert (G : forall m, foldl (fun m tx => fetch_sprout_final_treestates fs (Some chain)
    (sprout_joinsplit_descriptions tx) m) m txs !! a = Some t -> m !! a = Some t \/ sprout_known fs chain a t).
  { clear L. induction txs as [|tx txs IH]; intros m L; cbn in L; [by left|].
    apply IH in L as [L|?]; [|by right]. by apply fetch_sound in L. }
  apply G in L as [L|?]; [by rewrite lookup_empty in L|done].
Qed.

(** The anchor is the root of the final treestate of a block of the chain, of
    the finalized tip below it, or of another finalized block. *)
Definition earlier_root (pool : Trees -> TreeIndex (T:=PTree) (Root:=Root)) (finalized : Root -> bool) (lo tip : Z)
    (chain : Chain) (a : Root) : Prop :=
  treestate_root tree_root lo tip (pool (trees (inner chain))) a \/ finalized a = true.

Lemma anchor_known_iff pool finalized lo tip chain a : TreeWf tree_root lo tip (pool (trees (inner chain))) ->
  anchor_known pool finalized (Some chain) a = true <-> earlier_root pool finalized lo tip chain a.
Proof.
  intros W. unfold anchor_known, earlier_root. rewrite orb_true_iff, bool_decide_eq_true, (anchor_iff _ _ _ _ _ W). done.
Qed.

Definition tx_anchors_ok (fs : FinalizedState) (lo tip : Z) (chain : Chain) (tx : Transaction) : Prop :=
  (forall a, a ∈ sapling_anchors tx -> earlier_root sapling_trees (contains_sapling_anchor fs) lo tip chain a) /\
  (forall a, orchard_anchor tx = Some a -> earlier_root orchard_trees (contains_orchard_anchor fs) lo tip chain a) /\
  (forall a, ironwood_anchor tx = Some a -> earlier_root ironwood_trees (contains_ironwood_anchor fs) lo tip chain a).

Lemma tx_anchors_iff fs lo root bs chain tx h i k : ChainWf lo root bs (inner chain) ->
  sapling_orchard_anchors_refer_to_final_treestates fs (Some chain) tx h i k = Ok tt <->
  tx_anchors_ok fs lo (root + len bs - 1) chain tx.
Proof.
  intros W. destruct (cw_trees _ _ _ _ W) as [_ [Wsa _ _ _] [Wo _ _ _] [Wi _ _ _] _].
  unfold sapling_orchard_anchors_refer_to_final_treestates, tx_anchors_ok.
  assert (S : forall e : Root -> ValidateContextError, try_for_each (fun _ a => require (anchor_known sapling_trees (contains_sapling_anchor fs) (Some chain) a) (e a)) 0
    (sapling_anchors tx) = Ok tt <-> forall a, a ∈ sapling_anchors tx ->
    earlier_root sapling_trees (contains_sapling_anchor fs) lo (root + len bs - 1) chain a).
  { intros e. rewrite try_for_each_Ok. split.
    - intros F a (j & Lj)%list_elem_of_lookup. specialize (F _ _ Lj). apply require_Ok in F. by rewrite (anchor_known_iff _ _ _ _ _ _ Wsa) in F.
    - intros F j a Lj. apply require_Ok, (anchor_known_iff _ _ _ _ _ _ Wsa), F. by eapply list_elem_of_lookup_2. }
  assert (O : forall pool fin (e : Root -> ValidateContextError) x, TreeWf tree_root lo (root + len bs - 1) (pool (trees (inner chain))) ->
    match x with Some a => require (anchor_known pool fin (Some chain) a) (e a) | None => Ok tt end = Ok tt <->
    forall a, x = Some a -> earlier_root pool fin lo (root + len bs - 1) chain a).
  { intros pool fin e [x|] Wp; [|naive_solver]. rewrite require_Ok, (anchor_known_iff _ _ _ _ _ _ Wp). naive_solver. }
  rewrite obind_Ok. setoid_rewrite obind_Ok. split.
  - intros ([] & A & [] & B & C). by rewrite S in A; rewrite O in B by done; rewrite O in C by done.
  - intros (A & B & C). exists tt. split; [by apply S|]. exists tt. split; by apply O.
Qed.

(** Anchors refer to treestates.  On a chain with its invariant, the Sapling,
    Orchard and Ironwood anchors of a block are accepted exactly when each is the
    root of the final treestate of an earlier block, of the chain or finalized;
    and when the Sprout anchors are accepted, the input tree of every JoinSplit is
    a final treestate of the chain or the finalized state, or the interstitial
    treestate of an earlier JoinSplit of the same transaction. *)
Theorem anchors_refer_to_treestates fs lo root bs chain sv :
  ChainWf lo root bs (inner chain) -> length (sv_transaction_hashes sv) = length (transactions (sv_block sv)) ->
  (block_sapling_orchard_anchors_refer_to_final_treestates fs chain sv = Ok tt <->
   Forall (tx_anchors_ok fs lo (root + len bs - 1) chain) (transactions (sv_block sv))) /\
  (block_sprout_anchors_refer_to_treestates (block_fetch_sprout_final_treestates fs chain sv) (sv_block sv)
     (sv_transaction_hashes sv) (sv_height sv) = Ok tt ->
   Forall (fun tx => forall k js, sprout_joinsplit_descriptions tx !! k = Some js ->
     exists t, InputTree (sprout_known fs chain) (sprout_joinsplit_descriptions tx) k t) (transactions (sv_block sv))).
Proof.
  intros W Len.
  assert (Lh : forall k tx, transactions (sv_block sv) !! k = Some tx ->
    exists h, sv_transaction_hashes sv !! Z.to_nat (0 + Z.of_nat k) = Some h).
  { intros k tx L. apply lookup_lt_is_Some_2. rewrite Len. apply lookup_lt_Some in L. lia. }
  split.
  - unfold block_sapling_orchard_anchors_refer_to_final_treestates. rewrite try_for_each_Ok, Forall_lookup. split.
    + intros F k tx L. specialize (F _ _ L). destruct (Lh _ _ L) as [h Eh]. rewrite Eh in F.
      cbn [expect obind] in F. by apply (tx_anchors_iff _ _ _ _ _ _ _ _ _ W) in F.
    + intros F k tx L. destruct (Lh _ _ L) as [h ->]. cbn [expect obind].
      apply (tx_anchors_iff _ _ _ _ _ _ _ _ _ W). by apply (F k).
  - unfold block_sprout_anchors_refer_to_treestates. rewrite try_for_each_Ok, Forall_lookup. intros F k tx L j js Lj.
    specialize (F _ _ L). destruct (Lh _ _ L) as [h Eh]. rewrite Eh in F. cbn [expect obind] in F.
    refine (sprout_loop_sound _ _ _ [] _ ∅ _ _ F j js Lj).
    + intros a t. apply block_fetch_sound.
    + intros a t La. by rewrite lookup_empty in La.
Qed.
End Anchors.

(** ** A concrete block *)

#[local] Existing Instance example_build.
#[local] Existing Instance example_types.
#[local] Existing Instance example_ops.
#[local] Existing Instance example_assumptions.

(** The finalized state below: nothing is spent yet. *)
Definition example_finalized : FinalizedState :=
  {| db_utxo := fun _ => None;
     contains_sprout_nullifier := fun _ => false; contains_sapling_nullifier := fun _ => false;
     contains_orchard_nullifier := fun _ => false; contains_ironwood_nullifier := fun _ => false;
     contains_sapling_anchor := fun _ => false; contains_orchard_anchor := fun _ => false; contains_ironwood_anchor := fun _ => false;
     sprout_tree_by_anchor := fun _ => None; finalized_tip_hash := 100 : @Hash example_types; finalized_tip_height := Some 0;
     note_commitment_trees_for_tip := example_trees; db_history_tree := 0 : @HistoryTree example_types; finalized_value_pool := no_pools |}.

(** The third block of the example chain, before its contextual checks: it spends
    an output of the second one. *)
Definition example_prepared : SemanticallyVerifiedBlock :=
  mkSemantic (block example_b3) (hash example_b3) 3 (new_outputs example_b3) [31; 32].
Definition example_unspent : gmap (Z * Z) (OrderedUtxo (Script:=Z)) :=
  {[(21, 0) := example_utxo 50 7 2 0; (22, 0) := example_utxo 20 8 2 1]}.

Lemma example_reads_ok : reads_ok example_prepared example_unspent example_finalized.
Proof.
  assert (M : MAX_MONEY = 4611686018427387903) by by vm_compute.
  assert (H : Height.MAX - MIN_TRANSPARENT_COINBASE_MATURITY = 2147483547) by by vm_compute.
  split; [by vm_compute|]. intros o u U. assert (G : (Amount.zatoshis (value (output (utxo u))) = 50 \/ Amount.zatoshis (value (output (utxo u))) = 20) /\
    (utxo_height (utxo u) = 2 \/ utxo_height (utxo u) = 3)).
  { destruct U as [U|[U|U]]; [| |discriminate U]; cbn in U; unfold example_unspent in U;
      apply lookup_insert_Some in U as [[_ <-]|[_ U]]; cbn; auto;
      apply lookup_singleton_Some in U as [_ <-]; cbn; auto. }
  destruct G as [G1 G2]. unfold Amount.valid. cbn [Amount.valid_range fst snd]. rewrite M, H.
  destruct G1 as [-> | ->], G2 as [-> | ->]; split; done.
Qed.

Lemma transparent_spend_exact_witness : exists m,
  transparent_spend Network.Mainnet example_prepared example_unspent ∅ example_finalized = Ok m /\
  exists u, m !! ((22, 0) : @TxHash example_types * Z) = Some u.
Proof.
  destruct (is_ok_true (transparent_spend Network.Mainnet example_prepared example_unspent ∅ example_finalized)) as [m E]; [vm_compute; reflexivity|].
  exists m. split; [exact E|]. destruct (transparent_spend_exact Network.Mainnet example_prepared example_unspent ∅ example_finalized example_reads_ok) as [X _].
  apply X in E as (_ & _ & S & _). destruct (S (1, example_spend (22, 0) 9 6, (22, 0))) as (u & _ & L); [constructor|]. exists u. exact L.
Defined.

Lemma example_outputs_valid : Forall outputs_valid (transactions (sv_block example_prepared)) /\ Amount.valid (C:=NegativeAllowed) (Amount.mk 0).
Proof.
  split; [|by vm_compute]. apply Forall_cons. split; [|apply Forall_singleton]; apply Forall_singleton; by vm_compute.
Qed.

Lemma accepted_block_creates_no_value_witness : exists m c,
  transparent_spend Network.Mainnet example_prepared example_unspent ∅ example_finalized = Ok m /\
  with_block_and_spent_utxos example_prepared m (Amount.deferred_new (Amount.mk 0)) = Ok c /\
  0 <= fees (utxos_from_ordered_utxos (spent_outputs c)) (transactions (sv_block example_prepared)).
Proof.
  destruct (is_ok_true (transparent_spend Network.Mainnet example_prepared example_unspent ∅ example_finalized)) as [m E]; [vm_compute; reflexivity|].
  destruct (is_ok_true match transparent_spend Network.Mainnet example_prepared example_unspent ∅ example_finalized with
    | Ok m => with_block_and_spent_utxos example_prepared m (Amount.deferred_new (Amount.mk 0)) | _ => Panic end) as [c W]; [vm_compute; reflexivity|].
  rewrite E in W. exists m, c. split; [exact E|]. split; [exact W|].
  destruct (accepted_block_creates_no_value Network.Mainnet example_prepared example_unspent ∅ example_finalized m (Amount.deferred_new (Amount.mk 0)) c
    example_reads_ok (proj1 example_outputs_valid) (proj2 example_outputs_valid) E W) as (_ & F & _). exact F.
Defined.

Lemma anchors_refer_to_treestates_witness : exists c2,
  push_all [example_b1; example_b2] example_start = Ok c2 /\
  Forall (fun tx => forall k js, sprout_joinsplit_descriptions tx !! k = Some js ->
    exists t, InputTree (sprout_known example_finalized c2) (sprout_joinsplit_descriptions tx) k t) (transactions (sv_block example_prepared)).
Proof.
  destruct example_prefix as (c2 & E2 & W2). exists c2. split; [exact E2|].
  destruct (anchors_refer_to_treestates example_finalized 0 1 [example_b1; example_b2] c2 example_prepared W2 eq_refl) as [_ S].
  apply S. reflexivity.
Defined.
