(* ===== verification/NonFinalizedState.v ===== *)
(** * The set of non-finalized chains

    [zebra-state/src/service/non_finalized_state.rs]: the chains from the
    finalized tip, in the order of their work, and the operations on the set:
    [commit_block] and [commit_new_chain] validate a block and add it to a chain,
    [finalize] takes the lowest block of the best chain, [invalidate_block] and
    [reconsider_block] remove a block with its descendants and bring it back;
    and [validate_and_commit_non_finalized]'s choice between the two commits
    ([zebra-state/src/service/write.rs]).  Metrics, progress bars and the backup
    directory are left out. *)

From S2P Require Import Prelude Amounts ValueBalances Difficulty Networks Subsidies AuxMerkle BlockMerkle NoteTrees ChainIndexes.
From S2P Require Import NonFinalizedChain TransactionValues SpendChecks.
Import Network(Network).

(** The order of block hashes as byte strings, which is that of the numbers with
    these big-endian bytes. *)
Class HashOrder `{CT : ChainTypes} := {
  hash_key : Hash -> Z;
  hash_key_inj :: Inj (=) (=) hash_key;
}.

Section State.
Context `{CB : ConsensusBuild} `{CC : Subsidy.ChainConstants} `{HS : Hashes} `{CO : ChainOps} `{HO : !HashOrder}.
Context (is_sapling_root : list byte -> bool).
Notation Result := (outcome ValidateContextError).

Definition MAX_NON_FINALIZED_CHAIN_FORKS : nat := 10.
Definition MAX_INVALIDATED_BLOCKS : nat := 100.

(** [struct NonFinalizedState]: the chains in ascending order, and the
    invalidated blocks by height, in the order of their insertion. *)
Record NonFinalizedState := mkState {
  chain_set : list Chain;
  invalidated_blocks : list (Z * list ContextuallyVerifiedBlock);
  state_network : Network;
}.

(** [InvalidateError] and [ReconsiderError], the variants returned here. *)
Inductive InvalidateError := BlockNotFound (hash : Hash).
Inductive ReconsiderError :=
| MissingInvalidatedBlock (hash : Hash)
| ParentChainNotFound (hash : Hash)
| InvalidatedBlocksEmpty
| ReplayFailed (e : ValidateContextError).

(** ** The ordered set *)

(** [Ord for Chain]. *)
Definition chain_cmp {E} (self other : Chain) : outcome E comparison :=
  let work := partial_cumulative_work (inner self) in
  let other_work := partial_cumulative_work (inner other) in
  if negb (work =? other_work) then Ok (work ?= other_work)
  else
    let? self_hash := non_finalized_tip_hash (inner self) in
    let? other_hash := non_finalized_tip_hash (inner other) in
    Ok (hash_key self_hash ?= hash_key other_hash).

(** [BTreeSet::insert]: an equal chain stays; and [BTreeSet::remove]. *)
Fixpoint set_insert {E} (chain : Chain) (l : list Chain) : outcome E (list Chain) :=
  match l with
  | [] => Ok [chain]
  | c :: l =>
      let? o := chain_cmp chain c in
      match o with
      | Lt => Ok (chain :: c :: l)
      | Eq => Ok (c :: l)
      | Gt => let? l := set_insert chain l in Ok (c :: l)
      end
  end.
Fixpoint set_remove {E} (chain : Chain) (l : list Chain) : outcome E (list Chain) :=
  match l with
  | [] => Ok []
  | c :: l =>
      let? o := chain_cmp chain c in
      match o with
      | Eq => Ok l
      | _ => let? l := set_remove chain l in Ok (c :: l)
      end
  end.

(** [BTreeSet::retain] and [Iterator::find], with predicates that may panic. *)
Fixpoint retain {E} (keep : Chain -> outcome E bool) (l : list Chain) : outcome E (list Chain) :=
  match l with
  | [] => Ok []
  | c :: l =>
      let? k := keep c in
      let? l := retain keep l in
      Ok (if k : bool then c :: l else l)
  end.
Fixpoint find_first {E} (predicate : Chain -> outcome E bool) (l : list Chain) : outcome E (option Chain) :=
  match l with
  | [] => Ok None
  | c :: l => let? p := predicate c in if p : bool then Ok (Some c) else find_first predicate l
  end.

(** [NonFinalizedState::new]. *)
Definition new_state {E} (wcash_consensus : bool) (network : Network) : outcome E NonFinalizedState :=
  do? Network.assert_compatible_with_compiled_consensus wcash_consensus network in
  Ok (mkState [] [] network).

(** [NonFinalizedState::insert_with] and [insert]. *)
Definition insert_with {E} (chain : Chain) (chain_filter : list Chain -> outcome E (list Chain)) (l : list Chain) :
    outcome E (list Chain) :=
  let? l := set_insert chain l in
  let? l := chain_filter l in
  Ok (drop (length l - MAX_NON_FINALIZED_CHAIN_FORKS) l).
Definition insert_chain {E} (chain : Chain) (l : list Chain) : outcome E (list Chain) := insert_with chain Ok l.

(** [NonFinalizedState::chain_iter], [best_chain] and [find_chain]. *)
Definition chain_iter (self : NonFinalizedState) : list Chain := reverse (chain_set self).
Definition best_chain (self : NonFinalizedState) : option Chain := head (chain_iter self).
Definition find_chain {E} (predicate : Chain -> outcome E bool) (self : NonFinalizedState) : outcome E (option Chain) :=
  find_first predicate (chain_iter self).

Definition tip_hash_is {E} (h : Hash) (chain : Chain) : outcome E bool :=
  let? tip := non_finalized_tip_hash (inner chain) in Ok (bool_decide (tip = h)).
Definition contains_block_hash (h : Hash) (chain : Chain) : bool :=
  match height_by_hash (inner chain) !! h with Some _ => true | None => false end.

(** [find_map(|chain| chain.fork(parent_hash))]. *)
Fixpoint fork_first (parent_hash : Hash) (l : list Chain) : Result (option Chain) :=
  match l with
  | [] => Ok None
  | c :: l =>
      let? f := fork parent_hash c in
      match f with Some f => Ok (Some f) | None => fork_first parent_hash l end
  end.

(** [NonFinalizedState::parent_chain]. *)
Definition parent_chain (parent_hash : Hash) (self : NonFinalizedState) : Result Chain :=
  let? found := find_chain (tip_hash_is parent_hash) self in
  match found with
  | Some chain => Ok chain
  | None =>
      let? fork_chain := fork_first parent_hash (chain_iter self) in
      ok_or fork_chain NotReadyToBeCommitted
  end.

(** ** Validation *)

(** [calculate_deferred_pool_balance_change]; [lockbox] is the total of the
    lockbox disbursements of the network at the height. *)
Definition calculate_deferred_pool_balance_change {E} (lockbox : Amount.Amount NonNegative) (height : Z)
    (network : Network) : outcome E Amount.DeferredPoolBalanceChange :=
  if Subsidy.net_slow_start_interval network <? height then
    let? subsidy := match Subsidy.block_subsidy height network with
                    | Ok s => Ok s | Err _ => Amount.zero NonNegative | Panic => Panic end in
    let? streams := match Subsidy.funding_stream_values height network subsidy with
                    | Ok l => Ok l | Err _ => Ok [] | Panic => Panic end in
    let? zero := Amount.zero NonNegative in
    let deferred := match List.find (fun e => match e.1 with Network.Deferred => true | _ => false end) streams with
                    | Some (_, amount) => amount | None => zero end in
    match Amount.checked_sub deferred lockbox with
    | Some change => Ok (Amount.deferred_new change)
    | None => Amount.deferred_zero
    end
  else Amount.deferred_zero.

(** [NonFinalizedState::validate_and_update_parallel]: the commitment, the Sprout
    anchors and the update of the chain run in parallel; the errors are examined
    in this order. *)
Definition validate_and_update_parallel (network : Network) (new_chain : Chain) (contextual : ContextuallyVerifiedBlock)
    (sprout_final_treestates : gmap Root STree) : Result Chain :=
  let? ' (_, history_tree) := expect (last_key_value (history_trees_by_height (trees (inner new_chain)))) in
  let b := block contextual in
  let block_commitment_result := map_err InvalidBlockCommitment
    (block_commitment_is_valid_for_chain_history is_sapling_root (commitment_bytes b) (coinbase_height b)
      (auth_digest <$> transactions b) network (history_hash history_tree)) in
  let sprout_anchor_result := block_sprout_anchors_refer_to_treestates sprout_final_treestates b
    (transaction_hashes contextual) (height contextual) in
  let chain_push_result := push contextual new_chain in
  let? ' (_, chain) := both (both block_commitment_result sprout_anchor_result) chain_push_result in
  Ok chain.

(** [NonFinalizedState::validate_and_commit]. *)
Definition validate_and_commit (lockbox : Amount.Amount NonNegative) (new_chain : Chain)
    (prepared : SemanticallyVerifiedBlock) (fs : FinalizedState) (self : NonFinalizedState) : Result Chain :=
  let network := state_network self in
  do? require (negb (existsb (fun '(_, blocks) => existsb (fun b => bool_decide (hash b = sv_hash prepared)) blocks)
        (invalidated_blocks self))) (BlockPreviouslyInvalidated (sv_hash prepared)) in
  let? spent_utxos := transparent_spend network prepared (unspent_utxos (inner new_chain))
    (chain_spent_utxos (txs (inner new_chain))) fs in
  do? block_sapling_orchard_anchors_refer_to_final_treestates fs new_chain prepared in
  let sprout_final_treestates := block_fetch_sprout_final_treestates fs new_chain prepared in
  let? deferred := calculate_deferred_pool_balance_change lockbox (sv_height prepared) network in
  let? contextual :=
    map_err (fun e => CalculateBlockChainValueChange e (sv_height prepared) (sv_hash prepared)
               (Z.of_nat (length (transactions (sv_block prepared)))) (Z.of_nat (size spent_utxos)))
      (with_block_and_spent_utxos prepared spent_utxos deferred) in
  validate_and_update_parallel network new_chain contextual sprout_final_treestates.

(** ** Commits *)

(** [NonFinalizedState::commit_block]. *)
Definition commit_block (lockbox : Amount.Amount NonNegative) (prepared : SemanticallyVerifiedBlock)
    (fs : FinalizedState) (self : NonFinalizedState) : Result NonFinalizedState :=
  let parent_hash := previous_block_hash (sv_block prepared) in
  let? parent := parent_chain parent_hash self in
  let? modified_chain := validate_and_commit lockbox parent prepared fs self in
  let? chains := insert_with modified_chain
    (retain (fun c => let? p := tip_hash_is parent_hash c in Ok (negb p))) (chain_set self) in
  Ok (mkState chains (invalidated_blocks self) (state_network self)).

(** [NonFinalizedState::commit_new_chain]. *)
Definition commit_new_chain (lockbox : Amount.Amount NonNegative) (prepared : SemanticallyVerifiedBlock)
    (fs : FinalizedState) (self : NonFinalizedState) : Result NonFinalizedState :=
  let? finalized_tip_height := expect (finalized_tip_height fs) in
  let? chain := new_chain finalized_tip_height (note_commitment_trees_for_tip fs) (db_history_tree fs)
    (finalized_value_pool fs) in
  let? chain := validate_and_commit lockbox chain prepared fs self in
  let? chains := insert_chain chain (chain_set self) in
  Ok (mkState chains (invalidated_blocks self) (state_network self)).

(** The commit of [validate_and_commit_non_finalized], after the initial checks. *)
Definition commit_prepared (lockbox : Amount.Amount NonNegative) (prepared : SemanticallyVerifiedBlock)
    (fs : FinalizedState) (self : NonFinalizedState) : Result NonFinalizedState :=
  if bool_decide (finalized_tip_hash fs = previous_block_hash (sv_block prepared))
  then commit_new_chain lockbox prepared fs self
  else commit_block lockbox prepared fs self.

(** ** Finalizing *)

(** The loop of [NonFinalizedState::finalize] over the side chains. *)
Fixpoint finalize_side_chains (best_chain_root : ContextuallyVerifiedBlock) (side_chains set : list Chain) :
    Result (list Chain) :=
  match side_chains with
  | [] => Ok set
  | side_chain :: rest =>
      let? root_hash := non_finalized_root_hash (inner side_chain) in
      if negb (bool_decide (root_hash = hash best_chain_root)) then finalize_side_chains best_chain_root rest set
      else
        let? ' (side_chain_root, _, popped) := pop_root side_chain in
        do? assert_that (bool_decide (hash side_chain_root = hash best_chain_root)) in
        let? set := if is_empty (inner popped) then Ok set else insert_chain popped set in
        finalize_side_chains best_chain_root rest set
  end.

(** [NonFinalizedState::finalize]: the finalized block, its treestate, and the
    remaining state. *)
Definition finalize (self : NonFinalizedState) :
    Result (ContextuallyVerifiedBlock * (NoteCommitmentTrees STree PTree Node * HistoryTree) * NonFinalizedState) :=
  match chain_iter self with
  | [] => Panic
  | best :: side_chains =>
      let? ' (best_chain_root, root_treestate, popped) := pop_root best in
      let? set := if is_empty (inner popped) then Ok [] else insert_chain popped [] in
      let? set := finalize_side_chains best_chain_root side_chains set in
      let invalidated := filter (fun e => height best_chain_root <= e.1) (invalidated_blocks self) in
      Ok (best_chain_root, root_treestate, mkState set invalidated (state_network self))
  end.

(** ** Invalidating and reconsidering *)

(** [IndexMap::insert]: a present key keeps its position. *)
Fixpoint index_insert {V} (k : Z) (v : V) (l : list (Z * V)) : list (Z * V) :=
  match l with
  | [] => [(k, v)]
  | (k', v') :: l => if k' =? k then (k, v) :: l else (k', v') :: index_insert k v l
  end.

(** [chain.blocks.values()]. *)
Definition all_blocks (self : ChainInner) : list ContextuallyVerifiedBlock :=
  match first_key_value (blocks self) with
  | None => []
  | Some (root, _) => child_blocks root self
  end.

(** [NonFinalizedState::invalidate_block]. *)
Definition invalidate_block (block_hash : Hash) (self : NonFinalizedState) :
    outcome InvalidateError NonFinalizedState :=
  let? found := find_chain (fun c => Ok (contains_block_hash block_hash c)) self in
  let? chain := ok_or found (BlockNotFound block_hash) in
  let? root_hash := non_finalized_root_hash (inner chain) in
  let? ' (chains, invalidated) :=
    if bool_decide (root_hash = block_hash) then
      let? chains := set_remove chain (chain_set self) in
      Ok (chains, all_blocks (inner chain))
    else
      let? result := expect_ok (chain_invalidate_block block_hash chain) in
      let? ' (new_chain, invalidated) := expect result in
      let? chains := insert_with new_chain (fun l => Ok (filter (fun c => contains_block_hash block_hash c = false) l))
        (chain_set self) in
      Ok (chains, invalidated) in
  let? first := expect (head invalidated) in
  let records := index_insert (height first) invalidated (invalidated_blocks self) in
  Ok (mkState chains (drop (length records - MAX_INVALIDATED_BLOCKS) records) (state_network self)).

(** The loop of [reconsider_block] over the invalidated blocks. *)
Fixpoint replay (l : list ContextuallyVerifiedBlock) (chain : Chain) : outcome ReconsiderError Chain :=
  match l with
  | [] => Ok chain
  | b :: l => let? chain := map_err ReplayFailed (push b chain) in replay l chain
  end.

Definition first_hash_is (block_hash : Hash) (e : Z * list ContextuallyVerifiedBlock) : bool :=
  match e.2 with [] => false | b :: _ => bool_decide (hash b = block_hash) end.

(** [NonFinalizedState::reconsider_block]. *)
Definition reconsider_block (block_hash : Hash) (fs : FinalizedState) (self : NonFinalizedState) :
    outcome ReconsiderError (list Hash * NonFinalizedState) :=
  let? ' (height, invalidated) := ok_or (List.find (first_hash_is block_hash) (invalidated_blocks self))
    (MissingInvalidatedBlock block_hash) in
  let? invalidated_root := ok_or (head invalidated) InvalidatedBlocksEmpty in
  let root_parent_hash := previous_block_hash (block invalidated_root) in
  let? chain_result :=
    if bool_decide (root_parent_hash = finalized_tip_hash fs) then
      let? tip_height := ok_or (finalized_tip_height fs) (ParentChainNotFound block_hash) in
      expect_ok (new_chain tip_height (note_commitment_trees_for_tip fs) (db_history_tree fs) (finalized_value_pool fs))
    else map_err (fun _ => ParentChainNotFound block_hash) (parent_chain root_parent_hash self) in
  let? modified_chain := replay invalidated chain_result in
  let? _tip := non_finalized_tip_hash (inner modified_chain) in
  let records := filter (fun e => e.1 <> height) (invalidated_blocks self) in
  let records := match finalized_tip_height fs with
                 | Some best_chain_root_height => filter (fun e => best_chain_root_height <= e.1) records
                 | None => records
                 end in
  let? chains := insert_with modified_chain
    (retain (fun c => let? p := tip_hash_is root_parent_hash c in Ok (negb p))) (chain_set self) in
  Ok (hash <$> invalidated, mkState chains records (state_network self)).

(** [NonFinalizedState::any_utxo]. *)
Definition any_utxo (outpoint : OutPoint) (self : NonFinalizedState) : option (Utxo (Script:=Script)) :=
  head (omap (fun c => utxo <$> chain_created_utxos (txs (inner c)) !! outpoint) (chain_iter self)).

(** [NonFinalizedState::best_tip]. *)
Definition best_tip {E} (self : NonFinalizedState) : outcome E (option (Z * Hash)) :=
  match best_chain self with
  | None => Ok None
  | Some c =>
      let? h := non_finalized_tip_height (inner c) in
      let? hash := non_finalized_tip_hash (inner c) in
      Ok (Some (h, hash))
  end.
End State.
