(* ===== verification/ChainSetTheorems.v ===== *)
(** * The best chain, finalizing, invalidating and reconsidering

    The operations of [NonFinalizedState] on an invariant of the whole set: the
    chains are strictly sorted by work and tip hash, each has the invariant of
    [ChainTheorems], they all start at the block above the finalized tip and
    their blocks are linked by their previous hashes. *)

From stdpp Require Import sorting.
From S2P Require Import Prelude Amounts ValueBalances Difficulty Networks Subsidies AuxMerkle BlockMerkle NoteTrees ChainIndexes.
From S2P Require Import NonFinalizedChain ChainInvariant ChainTheorems TransactionValues SpendChecks NonFinalizedState.

(** ** Sorted lists *)

Lemma StronglySorted_sub {A} (R : relation A) l k : sublist l k -> StronglySorted R k -> StronglySorted R l.
Proof.
  induction 1 as [|x l k S IH|x l k S IH]; [done|..]; rewrite ?StronglySorted_cons; intros [F St]; [split|]; eauto.
  rewrite Forall_forall in *. intros y Y. apply F. by eapply elem_of_sublist.
Qed.

Lemma StronglySorted_lookup_lt {A} (R : relation A) l i j x y :
  StronglySorted R l -> l !! i = Some x -> l !! j = Some y -> (i < j)%nat -> R x y.
Proof.
  revert i j. induction l as [|z l IH]; intros [|i] [|j] S X Y L; try done; try lia; cbn in *; apply StronglySorted_cons in S as [F S].
  - injection X as <-. rewrite Forall_forall in F. apply F. by eapply list_elem_of_lookup_2.
  - exact (IH i j S X Y ltac:(lia)).
Qed.

Lemma Forall_sub {A} (P : A -> Prop) l k : sublist l k -> Forall P k -> Forall P l.
Proof. intros S F. rewrite Forall_forall in *. intros x X. apply F. by eapply elem_of_sublist. Qed.

Lemma filter_keeps_all {A} (P : A -> Prop) `{forall x, Decision (P x)} l : Forall P l -> filter P l = l.
Proof. induction 1 as [|x l Px _ IH]; [done|]. by rewrite filter_cons_True, IH. Qed.

Lemma Forall_omap {A B} (P : A -> Prop) (Q : B -> Prop) (f : A -> option B) (xs : list A) :
  (forall x y, P x -> f x = Some y -> Q y) -> Forall P xs -> Forall Q (omap f xs).
Proof. intros I. induction 1 as [|x xs Px _ IH]; cbn; [done|]. destruct (f x) eqn:Y; [constructor; eauto|done]. Qed.

Lemma length_omap_le {A B} (f : A -> option B) (xs : list A) : (length (omap f xs) <= length xs)%nat.
Proof. induction xs as [|x xs IH]; cbn; [done|]. destruct (f x); cbn; lia. Qed.

Lemma StronglySorted_omap {A} (R : relation A) (P : A -> Prop) (f : A -> option A) (xs : list A) :
  (forall x y x' y', P x -> P y -> R x y -> f x = Some x' -> f y = Some y' -> R x' y') ->
  Forall P xs -> StronglySorted R xs -> StronglySorted R (omap f xs).
Proof.
  intros M. induction 1 as [|x xs Px F IH]; cbn; [done|]. intros [Fx S]%StronglySorted_cons.
  destruct (f x) as [x'|] eqn:X; [|by apply IH]. apply StronglySorted_cons. split; [|by apply IH].
  apply (Forall_omap (fun y => P y /\ R x y)); [|by apply Forall_and]. intros y y' [Py Ry] Y. exact (M x y x' y' Px Py Ry X Y).
Qed.

Lemma find_split {A} (p : A -> bool) (xs : list A) :
  match List.find p xs with
  | Some x => p x = true /\ exists l1 l2, xs = l1 ++ x :: l2 /\ Forall (fun y => p y = false) l1
  | None => Forall (fun y => p y = false) xs
  end.
Proof.
  induction xs as [|x xs IH]; cbn; [done|]. destruct (p x) eqn:P; [split; [done|]; by exists [], xs|].
  destruct (List.find p xs); [|by constructor]. destruct IH as (Py & l1 & l2 & -> & F). split; [done|].
  exists (x :: l1), l2. split; [done|by constructor].
Qed.

(** [IndexMap::insert] of a record. *)
Lemma index_insert_elem {V} k (v : V) m e : e ∈ index_insert k v m -> e = (k, v) \/ e ∈ m.
Proof.
  induction m as [|[k0 v0] m IH]; cbn; [rewrite elem_of_cons; naive_solver|].
  destruct (Z.eqb_spec k0 k); rewrite !elem_of_cons; naive_solver.
Qed.
Lemma index_insert_keys {V} k (v : V) m : NoDup m.*1 -> NoDup (index_insert k v m).*1.
Proof.
  induction m as [|[k0 v0] m IH]; cbn; [intros _; by apply NoDup_singleton|].
  intros [N0 N]%NoDup_cons. destruct (Z.eqb_spec k0 k) as [->|Ne]; cbn; apply NoDup_cons; (split; [|by auto]); [done|].
  intros ([k1 v1] & -> & [E|E]%index_insert_elem)%list_elem_of_fmap; [by injection E|].
  apply N0. by apply (list_elem_of_fmap_2 fst) in E.
Qed.
Lemma index_insert_kept {V} k (v : V) m n : (length m <= n)%nat -> (0 < n)%nat ->
  (k, v) ∈ drop (length (index_insert k v m) - n) (index_insert k v m).
Proof.
  intros L P. assert (S : (length (index_insert k v m) <= length m)%nat /\ (k, v) ∈ index_insert k v m \/
    index_insert k v m = m ++ [(k, v)]).
  { clear. induction m as [|[k0 v0] m IH]; cbn; [by right|]. destruct (Z.eqb_spec k0 k); cbn; [left; split; [lia|constructor]|].
    destruct IH as [[? ?]| ->]; [left; split; [lia|by constructor]|by right]. }
  destruct S as [[S E]| ->]; [by replace (_ - _)%nat with 0%nat by lia|].
  rewrite length_app. cbn. rewrite drop_app_le by lia. apply elem_of_app. right. constructor.
Qed.

Section Sets.
Context `{CB : ConsensusBuild} `{CC : Subsidy.ChainConstants} `{HS : Hashes} `{CO : ChainOps} `{HO : !HashOrder}.
Implicit Types (bs : list ContextuallyVerifiedBlock) (b : ContextuallyVerifiedBlock) (c d : Chain) (l : list Chain).

(** ** The order of the chains *)

Definition nonempty c : Prop := is_Some (tip_block (inner c)).
Definition tip_key c : Z := match tip_block (inner c) with Some b => hash_key (hash b) | None => 0 end.
Definition work c : Z := partial_cumulative_work (inner c).

Definition chain_lt c d : Prop := work c < work d \/ work c = work d /\ tip_key c < tip_key d.
Definition same_rank c d : Prop := work c = work d /\ tip_key c = tip_key d.

#[export] Instance chain_lt_trans : Transitive chain_lt.
Proof. intros x y z. unfold chain_lt. lia. Qed.
#[export] Instance chain_lt_irrefl : Irreflexive chain_lt.
Proof. intros x. unfold complement, chain_lt. lia. Qed.

Lemma chain_cmp_Ok {E} c d : nonempty c -> nonempty d ->
  exists o, chain_cmp (E:=E) c d = Ok o /\
    match o with Lt => chain_lt c d | Eq => same_rank c d | Gt => chain_lt d c end.
Proof.
  intros [b B] [b' B']. unfold chain_cmp, chain_lt, same_rank, tip_key, work, non_finalized_tip_hash. rewrite B, B'. cbn [expect obind].
  destruct (Z.eqb_spec (partial_cumulative_work (inner c)) (partial_cumulative_work (inner d))) as [->|N];
    cbn [negb]; (eexists; split; [done|]).
  - destruct (Z.compare_spec (hash_key (hash b)) (hash_key (hash b'))); lia.
  - destruct (Z.compare_spec (partial_cumulative_work (inner c)) (partial_cumulative_work (inner d))); lia.
Qed.

(** [BTreeSet::insert] adds a chain unless one of the same rank is there. *)
Lemma set_insert_Ok {E} c l : nonempty c -> Forall nonempty l -> StronglySorted chain_lt l ->
  exists l', set_insert (E:=E) c l = Ok l' /\ StronglySorted chain_lt l' /\
    (l' = l /\ Exists (same_rank c) l \/
     Forall (fun d => ~ same_rank c d) l /\ exists l1 l2, l = l1 ++ l2 /\ l' = l1 ++ c :: l2).
Proof.
  intros Nc. induction l as [|d l IH]; intros Nl St; cbn [set_insert].
  { eexists; split; [done|]. split; [by repeat constructor|]. right. split; [done|]. by exists [], []. }
  apply Forall_cons in Nl as [Nd Nl]. apply StronglySorted_cons in St as [Fd St].
  destruct (chain_cmp_Ok (E:=E) c d Nc Nd) as (o & -> & O). cbn [obind]. destruct o.
  - eexists; split; [done|]. split; [by apply StronglySorted_cons|]. left. split; [done|]. by left.
  - eexists; split; [done|]. assert (Fc : Forall (chain_lt c) l).
    { eapply Forall_impl; [exact Fd|]. intros e. by apply chain_lt_trans. }
    split; [repeat (apply StronglySorted_cons; split); try done; by constructor|].
    right. split; [|by exists [], (d :: l)]. constructor; [|eapply Forall_impl; [exact Fc|]];
      unfold chain_lt, same_rank in *; intros; lia.
  - destruct (IH Nl St) as (l' & -> & St' & C). cbn [obind]. eexists; split; [done|].
    assert (Fd' : Forall (chain_lt d) l').
    { destruct C as [[-> _]|(_ & l1 & l2 & -> & ->)]; [done|]. rewrite Forall_app in Fd |- *.
      rewrite Forall_cons. tauto. }
    split; [by apply StronglySorted_cons|].
    destruct C as [[-> X]|(X & l1 & l2 & -> & ->)]; [left; split; [done|by right]|right].
    split; [|by exists (d :: l1), l2]. constructor; [unfold chain_lt, same_rank in *; lia|done].
Qed.

(** [BTreeSet::remove] of a chain of the set. *)
Lemma set_remove_Ok {E} c l1 l2 : Forall nonempty (l1 ++ c :: l2) -> StronglySorted chain_lt (l1 ++ c :: l2) ->
  set_remove (E:=E) c (l1 ++ c :: l2) = Ok (l1 ++ l2).
Proof.
  induction l1 as [|d l1 IH]; intros N S; cbn [app set_remove].
  - apply Forall_cons in N as [N _]. destruct (chain_cmp_Ok (E:=E) c c N N) as (o & -> & O).
    cbn [obind]. destruct o; [done|unfold chain_lt in O; lia..].
  - cbn [app] in *. apply Forall_cons in N as [Nd N]. apply StronglySorted_cons in S as [F S].
    pose proof N as [_ [Nc _]%Forall_cons]%Forall_app. pose proof F as [_ [Fc _]%Forall_cons]%Forall_app.
    destruct (chain_cmp_Ok (E:=E) c d Nc Nd) as (o & -> & O). cbn [obind]. rewrite (IH N S).
    destruct o; [unfold chain_lt, same_rank in *; lia|done..].
Qed.

(** [retain] with a predicate that returns. *)
Lemma retain_Ok {E} (keep : Chain -> outcome E bool) (p : Chain -> bool) l :
  (forall c, c ∈ l -> keep c = Ok (p c)) -> retain keep l = Ok (filter (fun c => p c = true) l).
Proof.
  induction l as [|c l IH]; intros K; cbn [retain]; [done|]. rewrite K by constructor. cbn [obind].
  rewrite IH by (intros; apply K; by constructor). cbn [obind]. rewrite filter_cons.
  destruct (p c); [by rewrite decide_True|by rewrite decide_False].
Qed.

Lemma find_first_Ok {E} (predicate : Chain -> outcome E bool) (p : Chain -> bool) l :
  (forall c, c ∈ l -> predicate c = Ok (p c)) -> find_first predicate l = Ok (List.find p l).
Proof.
  induction l as [|c l IH]; intros K; cbn [find_first List.find]; [done|]. rewrite K by constructor. cbn [obind].
  destruct (p c); [done|]. apply IH. intros. apply K. by constructor.
Qed.

Lemma sorted_rank_unique l i j c d : StronglySorted chain_lt l -> l !! i = Some c -> l !! j = Some d -> same_rank c d -> i = j.
Proof.
  intros S Li Lj [Rw Rk]. destruct (Nat.lt_total i j) as [L|[->|L]]; [|done|]; exfalso.
  - assert (chain_lt c d) by (eapply StronglySorted_lookup_lt; eauto). unfold chain_lt in *. lia.
  - assert (chain_lt d c) by (eapply StronglySorted_lookup_lt; eauto). unfold chain_lt in *. lia.
Qed.

(** [insert_with]: the result is sorted, it has at most ten chains, which are the
    best ones of those that the filter keeps. *)
Lemma insert_with_Ok {E} c (p : Chain -> bool) f l : nonempty c -> Forall nonempty l -> StronglySorted chain_lt l ->
  (forall l', l' ⊆ c :: l -> f l' = Ok (filter (fun d => p d = true) l')) ->
  exists l' k, set_insert (E:=E) c l = Ok l' /\ insert_with (E:=E) c f l = Ok k /\
    k = drop (length (filter (fun d => p d = true) l') - MAX_NON_FINALIZED_CHAIN_FORKS) (filter (fun d => p d = true) l') /\
    StronglySorted chain_lt k /\ (length k <= MAX_NON_FINALIZED_CHAIN_FORKS)%nat /\
    (forall d, d ∈ k -> (d = c \/ d ∈ l) /\ p d = true).
Proof.
  intros Nc Nl St F. destruct (set_insert_Ok (E:=E) c l Nc Nl St) as (l' & I & St' & C).
  assert (In : forall d, d ∈ l' -> d = c \/ d ∈ l).
  { intros d. destruct C as [[-> _]|(_ & l1 & l2 & -> & ->)]; [by right|]. rewrite !elem_of_app, elem_of_cons. tauto. }
  exists l'. eexists. split; [done|]. unfold insert_with. rewrite I. cbn [obind]. rewrite F.
  2:{ intros d D. apply elem_of_cons. by apply In. }
  cbn [obind]. split; [done|]. split; [done|]. split; [|split].
  - eapply StronglySorted_sub; [|exact St']. etrans; [apply sublist_drop|apply sublist_filter].
  - rewrite length_drop. lia.
  - intros d D. assert (D' : d ∈ filter (fun d => p d = true) l') by (eapply elem_of_sublist; [exact D|apply sublist_drop]).
    apply list_elem_of_filter in D' as [P D']. split; [by apply In|done].
Qed.

(** ** The invariant of a chain in the set *)

Notation len bs := (Z.of_nat (length bs)).

(** What a block hash commits to: the fields of the header, and the height in the
    coinbase transaction. *)
Record HeaderInfo := mkHeader { hi_height : Z; hi_previous : Hash; hi_threshold : Z }.

Section Headers.
Context (header_of : Hash -> HeaderInfo).

(** The fields of a block are those of its hash, and its height is one more than
    the height of its parent, as the contextual checks require. *)
Definition bound b : Prop :=
  header_of (hash b) = mkHeader (height b) (previous_block_hash (block b)) (difficulty_threshold (block b)) /\
  height b = hi_height (header_of (previous_block_hash (block b))) + 1.

Fixpoint linked (p : Hash) bs : Prop :=
  match bs with
  | [] => True
  | b :: bs => previous_block_hash (block b) = p /\ linked (hash b) bs
  end.

Definition read_ok (u : OrderedUtxo (Script:=Script)) : Prop :=
  utxo_ok u /\ 0 <= utxo_height (utxo u) <= Height.MAX - MIN_TRANSPARENT_COINBASE_MATURITY.
Definition ok_block b : Prop := block_ok b /\ bound b /\ map_Forall (fun _ u => read_ok u) (new_outputs b).

(** A chain on the finalized tip [p], with the blocks [bs] from the height [root]. *)
Record ChainOf (p : Hash) (root : Z) bs c : Prop := {
  co_wf : exists lo, ChainWf lo root bs (inner c);
  co_volumes : chain_volumes_ok bs;
  co_ok : Forall ok_block bs;
  co_linked : linked p bs;
}.

Lemma linked_app p bs b bs' : linked p (bs ++ b :: bs') <->
  linked p bs /\ previous_block_hash (block b) = default p (hash <$> last bs) /\ linked (hash b) bs'.
Proof.
  revert p. induction bs as [|b0 bs IH]; intros p; cbn [app linked].
  - cbn. tauto.
  - rewrite IH. destruct bs; cbn [linked last default fmap option_fmap option_map]; [tauto|].
    change (last (c :: bs)) with (last (c :: bs)). destruct (last (c :: bs)) eqn:E; [cbn; tauto|].
    by apply last_None in E.
Qed.

(** The first, the last, and all blocks of a chain. *)
Lemma chain_first {E} p root b bs c : ChainOf p root (b :: bs) c -> non_finalized_root_hash (E:=E) (inner c) = Ok (hash b).
Proof.
  intros [[lo W] _ _ _]. unfold non_finalized_root_hash.
  rewrite (cw_blocks _ _ _ _ W), (first_of_cons _ _ _ (cw_heights _ _ _ _ W)). done.
Qed.

Lemma chain_tip p root bs b c : ChainOf p root (bs ++ [b]) c ->
  tip_block (inner c) = Some b /\ tip_key c = hash_key (hash b) /\ nonempty c /\
  (forall E, non_finalized_tip_hash (E:=E) (inner c) = Ok (hash b)).
Proof.
  intros [[lo W] _ _ _]. assert (T : tip_block (inner c) = Some b).
  { unfold tip_block. rewrite (cw_blocks _ _ _ _ W), (last_of_snoc _ _ _ (cw_heights _ _ _ _ W)). done. }
  unfold tip_key, nonempty, non_finalized_tip_hash. rewrite T. by repeat split.
Qed.

Lemma chain_nonempty p root bs c : ChainOf p root bs c -> bs <> [] -> nonempty c.
Proof. destruct bs as [|b bs _] using rev_ind; [done|]. intros C _. by apply (chain_tip _ _ _ _ _ C). Qed.

Lemma chain_contains p root bs c h : ChainOf p root bs c -> contains_block_hash h c = true <-> h ∈ hash <$> bs.
Proof.
  intros [[lo W] _ _ _]. pose proof (cw_hashes _ _ _ _ W) as X. unfold contains_block_hash.
  pose proof (Ext_None _ _ _ h X) as N. rewrite <- list_fmap_compose, lookup_empty in N.
  change (fst ∘ (fun b => (hash b, height b))) with (fun b => hash b) in N.
  destruct (height_by_hash (inner c) !! h) eqn:L.
  - split; [|done]. intros _. destruct (decide (h ∈ hash <$> bs)) as [|D]; [done|]. exfalso. by apply proj2 in N; discriminate N.
  - split; [done|]. intros D. apply proj1 in N. by destruct (N eq_refl) as [N' _].
Qed.

Lemma omap_by_height root bs k : heights_from root bs ->
  omap (fun h => by_height bs !! h) (seqZ (root + Z.of_nat k) (len bs - Z.of_nat k)) = drop k bs.
Proof.
  intros H. remember (length bs - k)%nat as n eqn:N. revert k N. induction n as [|n IH]; intros k N.
  - rewrite drop_ge by lia. by replace (len bs - Z.of_nat k) with (Z.of_nat (length bs) - Z.of_nat k) by lia; rewrite seqZ_nil by lia.
  - destruct (lookup_lt_is_Some_2 bs k ltac:(lia)) as [b B]. rewrite (drop_S _ _ _ B), seqZ_cons by lia. cbn.
    rewrite (proj2 (by_height_lookup root bs (root + Z.of_nat k) b H)).
    + f_equal. replace (Z.succ (root + Z.of_nat k)) with (root + Z.of_nat (S k)) by lia.
      replace (Z.pred (len bs - Z.of_nat k)) with (len bs - Z.of_nat (S k)) by lia. apply IH. lia.
    + split; [lia|]. by replace (Z.to_nat (root + Z.of_nat k - root)) with k by lia.
Qed.

Lemma child_blocks_drop lo root bs i k : ChainWf lo root bs i -> bs <> [] ->
  child_blocks (root + Z.of_nat k) i = drop k bs.
Proof.
  intros W Ne. pose proof (cw_heights _ _ _ _ W) as H. unfold child_blocks.
  destruct (tip_of_blocks _ _ _ (cw_blocks _ _ _ _ W) H) as [-> _]. rewrite (cw_blocks _ _ _ _ W).
  destruct bs as [|b bs]; [done|]. rewrite <- (omap_by_height _ _ k H). f_equal. f_equal. lia.
Qed.

Lemma all_blocks_wf lo root bs i : ChainWf lo root bs i -> all_blocks i = bs.
Proof.
  intros W. unfold all_blocks. rewrite (cw_blocks _ _ _ _ W).
  destruct bs as [|b bs]; [done|]. rewrite (first_of_cons _ _ _ (cw_heights _ _ _ _ W)).
  pose proof (child_blocks_drop _ _ _ _ 0 W ltac:(done)) as D. by rewrite Z.add_0_r in D.
Qed.

Lemma all_blocks_of p root bs c : ChainOf p root bs c -> all_blocks (inner c) = bs.
Proof. intros [[lo W] _ _ _]. by eapply all_blocks_wf. Qed.

Lemma chain_unique p p' root root' bs bs' c : ChainOf p root bs c -> ChainOf p' root' bs' c -> bs = bs'.
Proof. intros H%all_blocks_of H'%all_blocks_of. congruence. Qed.

(** Two chains on the same finalized block with the same tip have the same
    block hashes, and the same work. *)
Lemma same_tip_hashes p root bs bs' : Forall ok_block bs -> Forall ok_block bs' ->
  heights_from root bs -> heights_from root bs' -> bs <> [] -> bs' <> [] -> hash <$> last bs = hash <$> last bs' ->
  linked p bs -> linked p bs' -> hash <$> bs = hash <$> bs'.
Proof.
  revert bs'. induction bs as [|b bs IH] using rev_ind; intros bs' F F' H H' Ne Ne' L K K'; [done|].
  destruct bs' as [|b' bs' _] using rev_ind; [done|]. rewrite !last_snoc in L. cbn in L. injection L as L.
  apply Forall_app in F as [F [(_ & [B _] & _) _]%Forall_cons]. apply Forall_app in F' as [F' [(_ & [B' _] & _) _]%Forall_cons].
  rewrite L, B' in B. injection B as Eh Ep _. apply linked_app in K as (K & Kp & _). apply linked_app in K' as (K' & Kp' & _).
  apply heights_from_app in H as [H [Hb _]]. apply heights_from_app in H' as [H' [Hb' _]].
  rewrite !fmap_app. cbn. rewrite L. f_equal.
  destruct bs as [|b0 bs0 _] using rev_ind; destruct bs' as [|b0' bs0' _] using rev_ind; [done|..].
  - rewrite length_app in *. cbn in *. lia.
  - rewrite length_app in *. cbn in *. lia.
  - rewrite !last_snoc in *. cbn in Kp, Kp'. apply IH; try done; try (by destruct bs0); try (by destruct bs0'). rewrite !last_snoc. cbn. congruence.
Qed.

Lemma work_of_hashes ws ws' bs bs' : Forall ok_block bs -> Forall ok_block bs' -> hash <$> bs = hash <$> bs' ->
  Forall2 (fun b w => block_work (E:=ValidateContextError) b = Ok w) bs ws ->
  Forall2 (fun b w => block_work (E:=ValidateContextError) b = Ok w) bs' ws' -> ws = ws'.
Proof.
  revert bs' ws ws'. induction bs as [|b bs IH]; intros [|b' bs'] ws ws' F F' E W W'; try done.
  - by inversion W; inversion W'.
  - apply Forall2_cons_inv_l in W as (w & ws1 & Hw & W & ->). apply Forall2_cons_inv_l in W' as (w' & ws1' & Hw' & W' & ->).
    cbn in E. injection E as E0 E. apply Forall_cons in F as [(_ & [B _] & _) F]. apply Forall_cons in F' as [(_ & [B' _] & _) F'].
    rewrite E0, B' in B. injection B as _ _ T. unfold block_work in *. rewrite T, Hw in Hw'. injection Hw' as ->.
    f_equal. by eapply IH.
Qed.

Lemma same_tip_rank p root bs bs' c d : ChainOf p root bs c -> ChainOf p root bs' d -> bs <> [] -> bs' <> [] ->
  hash <$> last bs = hash <$> last bs' -> same_rank c d.
Proof.
  intros C D Ne Ne' L. pose proof C as [[lo W] _ O K]. pose proof D as [[lo' W'] _ O' K'].
  pose proof (same_tip_hashes _ _ _ _ O O' (cw_heights _ _ _ _ W) (cw_heights _ _ _ _ W') Ne Ne' L K K') as E. split.
  - destruct (cw_work _ _ _ _ W) as (ws & Fw & _ & Ew & _). destruct (cw_work _ _ _ _ W') as (ws' & Fw' & _ & Ew' & _).
    unfold work. rewrite Ew, Ew'. f_equal. exact (work_of_hashes _ _ _ _ O O' E Fw Fw').
  - destruct bs as [|b bs _] using rev_ind; [done|]. destruct bs' as [|b' bs' _] using rev_ind; [done|].
    destruct (chain_tip _ _ _ _ _ C) as (_ & -> & _). destruct (chain_tip _ _ _ _ _ D) as (_ & -> & _).
    rewrite !last_snoc in L. cbn in L. congruence.
Qed.

(** ** The operations of one chain *)

Lemma chain_prefix p root bs bs' lo c : ChainWf lo root bs (inner c) ->
  chain_volumes_ok bs -> Forall ok_block (bs ++ bs') -> linked p (bs ++ bs') -> ChainOf p root bs c.
Proof.
  intros W V [F _]%Forall_app K. split; [by exists lo|done..|].
  destruct bs' as [|b bs']; [by rewrite app_nil_r in K|]. by apply linked_app in K as (K & _).
Qed.

Lemma chain_fork p root bs1 b bs2 c : ChainOf p root (bs1 ++ b :: bs2) c ->
  exists c', fork (hash b) c = Ok (Some c') /\ ChainOf p root (bs1 ++ [b]) c'.
Proof.
  intros C. pose proof C as [[lo W] V O K]. rewrite cons_middle, app_assoc in W, V, O, K.
  assert (Lt : (length bs2 < size (blocks (inner c)))%nat)
    by (rewrite (blocks_size _ _ _ _ W), !length_app; cbn; lia).
  destruct (fork_loop_wf _ _ _ _ _ _ _ W V Lt) as (c' & Ef & W' & _). exists c'.
  assert (Cn : contains_block_hash (hash b) c = true).
  { apply (chain_contains _ _ _ _ _ C). rewrite fmap_app. apply elem_of_app. right. constructor. }
  unfold contains_block_hash in Cn. unfold fork. destruct (height_by_hash (inner c) !! hash b); [|done].
  rewrite Ef. split; [done|]. eapply (chain_prefix _ _ _ bs2); [exact W'| |exact O|exact K].
  by eapply volumes_prefix.
Qed.

Lemma chain_no_fork p root bs c h : ChainOf p root bs c -> h ∉ hash <$> bs -> fork h c = Ok None.
Proof.
  intros C N. unfold fork. pose proof (chain_contains _ _ _ _ h C) as X. unfold contains_block_hash in X.
  destruct (height_by_hash (inner c) !! h); [|done]. exfalso. apply N. by apply X.
Qed.

(** [Chain::invalidate_block] above the root. *)
Lemma chain_invalidate p root bs1 b bs2 c : ChainOf p root (bs1 ++ b :: bs2) c -> bs1 <> [] ->
  exists c', chain_invalidate_block (hash b) c = Ok (Some (c', b :: bs2)) /\ ChainOf p root bs1 c'.
Proof.
  intros C Ne. destruct (chain_fork _ _ _ _ _ _ C) as (f & Ef & Cf). pose proof Cf as [[lo W] V O K].
  destruct (chain_pop_tip _ _ _ _ _ Ne W V) as (c' & Ep & W' & _).
  pose proof C as [[lo' W0] _ _ _]. assert (Hh : height_by_hash (inner c) !! hash b = Some (root + len bs1)).
  { rewrite (Ext_lookup _ _ _ (hash b) (height b) (cw_hashes _ _ _ _ W0)).
    - pose proof (cw_heights _ _ _ _ W0) as [_ [-> _]]%heights_from_app. done.
    - apply list_elem_of_fmap. exists b. split; [done|]. apply elem_of_app. right. constructor. }
  unfold chain_invalidate_block. rewrite Hh, Ef. cbn [obind]. rewrite Ep. cbn [obind].
  rewrite (child_blocks_drop _ _ _ _ _ W0) by (by destruct bs1). rewrite drop_app_length.
  eexists; split; [done|]. cbn [inner]. eapply (chain_prefix _ _ _ [b] lo); [exact W'| |exact O|exact K].
  exact (volumes_prefix _ _ _ _ _ W V).
Qed.

Lemma chain_root p root b bs c : ChainOf p root (b :: bs) c ->
  exists ts c', pop_root c = Ok (b, ts, c') /\ treestate root (trees (inner c)) = Some ts /\
    match bs with [] => is_empty (inner c') = true | _ => ChainOf (hash b) (root + 1) bs c' end.
Proof.
  intros [[lo W] V O K]. destruct (chain_pop_root _ _ _ _ _ W V) as (ts & c' & -> & T & _ & M).
  exists ts, c'. split; [done|]. split; [done|]. destruct bs as [|b' bs]; [done|]. split; [exists (root + 1); apply M|..].
  - by eapply volumes_suffix.
  - by apply Forall_cons in O as [_ O].
  - apply K.
Qed.

Lemma chain_root_work p root b bs c ts c' : ChainOf p root (b :: bs) c -> bs <> [] -> pop_root c = Ok (b, ts, c') ->
  tip_key c' = tip_key c /\ exists w, block_work (E:=ValidateContextError) b = Ok w /\ work c' = work c - w.
Proof.
  intros C Ne P. destruct (chain_root _ _ _ _ _ C) as (ts' & c1 & P' & _ & M). rewrite P in P'. injection P' as <- <-.
  destruct bs as [|b' bs]; [done|]. clear Ne. pose proof C as [[lo W] _ O _]. pose proof M as [[lo' W'] _ O' _]. split.
  - destruct (exists_last (l:=b' :: bs) ltac:(done)) as (l0 & t & E). rewrite E in *.
    destruct (chain_tip _ _ _ _ _ M) as (_ & -> & _). rewrite app_comm_cons in C.
    by destruct (chain_tip _ _ _ _ _ C) as (_ & -> & _).
  - destruct (cw_work _ _ _ _ W) as (ws & Fw & _ & Ew & _). destruct (cw_work _ _ _ _ W') as (ws' & Fw' & _ & Ew' & _).
    apply Forall2_cons_inv_l in Fw as (w & ws0 & Hw & Fw & ->). exists w. split; [done|].
    rewrite (work_of_hashes _ _ _ _ O' O' eq_refl Fw' Fw) in Ew'. unfold work. rewrite Ew, Ew'.
    change (total_work (w :: ws0)) with (w + total_work ws0). lia.
Qed.

(** ** Validation *)

(** What the earlier checks and the database give: the height of the block is the
    one of its coinbase and one more than that of its parent, amounts are in
    range, and outputs are not created at the last heights. *)
Record PreparedOk (fs : FinalizedState) (sv : SemanticallyVerifiedBlock) : Prop := {
  po_height : coinbase_height (sv_block sv) = Some (sv_height sv);
  po_max : sv_height sv <= Height.MAX;
  po_header : header_of (sv_hash sv) =
    mkHeader (sv_height sv) (previous_block_hash (sv_block sv)) (difficulty_threshold (sv_block sv));
  po_parent : sv_height sv = hi_height (header_of (previous_block_hash (sv_block sv))) + 1;
  po_outputs : Forall outputs_valid (transactions (sv_block sv));
  po_new : map_Forall (fun _ u => read_ok u) (sv_new_outputs sv);
  po_db o u : db_utxo fs o = Some u -> read_ok u;
}.

(** The chain of the state that is extended, or the new chain. *)
Definition at_tip (p : Hash) (root : Z) bs c : Prop :=
  ChainOf p root bs c /\ hi_height (header_of p) = root - 1.

Lemma located_block b (t : LocatedTx) : t ∈ located b -> l_block t = b.
Proof.
  unfold located. generalize 0. induction (zipped b) as [|[tx h] ts IH]; intros i; cbn [located_from]; [by intros ?%elem_of_nil|].
  intros [->|X]%elem_of_cons; [done|by eapply IH].
Qed.

Lemma unspent_read_ok p root bs c o u : ChainOf p root bs c -> unspent_utxos (inner c) !! o = Some u -> read_ok u.
Proof.
  intros [[lo W] _ O _] U. unfold unspent_utxos in U. apply map_lookup_filter_Some in U as [U _].
  pose proof (of_created _ _ (cw_txs _ _ _ _ W)) as (N & _ & E). rewrite E, map_union_empty in U.
  apply elem_of_list_to_map in U; [|done]. apply list_elem_of_bind in U as (l & Hl & Hb).
  apply list_elem_of_bind in Hb as (b & Hlb & Hb). rewrite Forall_forall in O. destruct (O b Hb) as (_ & _ & R).
  unfold l_created, created_of in Hl. apply list_elem_of_omap in Hl as (i & _ & X).
  rewrite (located_block _ _ Hlb) in X. destruct (new_outputs b !! _) as [v|] eqn:L; [|done]. injection X as <- <-.
  by apply (R _ _ L).
Qed.

Lemma reads_of_chain p root bs c fs sv : ChainOf p root bs c -> PreparedOk fs sv -> reads_ok sv (unspent_utxos (inner c)) fs.
Proof.
  intros C P. split; [apply P|]. intros o u U. assert (R : read_ok u).
  { destruct U as [U|[U|U]]; [by apply (po_new _ _ P _ _ U)|by eapply unspent_read_ok|by apply (po_db _ _ P o)]. }
  destruct R as [[? _] ?]. done.
Qed.

Lemma deferred_zero_valid {E} z : Amount.deferred_zero (E:=E) = Ok z -> Amount.valid (Amount.deferred_value z).
Proof. unfold Amount.deferred_zero. rewrite Amount.zero_Ok. intros [= <-]. apply Amount.valid_zero. Qed.

Lemma calculate_deferred_valid {E} lockbox h network z :
  calculate_deferred_pool_balance_change (E:=E) lockbox h network = Ok z -> Amount.valid (Amount.deferred_value z).
Proof.
  unfold calculate_deferred_pool_balance_change. destruct (_ <? _); [|apply deferred_zero_valid].
  intros X. outcome_inv. destruct (Amount.checked_sub _ _) eqn:S; [|by eapply deferred_zero_valid].
  injection X as <-. unfold Amount.checked_sub in S. destruct (i64_checked _); [|done].
  destruct (Amount.try_from_i64 _ _) eqn:T; [|done..]. injection S as <-. by apply Amount.try_from_i64_Ok in T as [_ ?].
Qed.

(** The block that the checks construct is one that a chain can hold. *)
Lemma contextual_ok_block p root bs c network sv fs m z b : ChainOf p root bs c -> PreparedOk fs sv ->
  transparent_spend network sv (unspent_utxos (inner c)) (chain_spent_utxos (txs (inner c))) fs = Ok m ->
  Amount.valid (Amount.deferred_value z) -> with_block_and_spent_utxos sv m z = Ok b ->
  ok_block b /\ hash b = sv_hash sv /\ block b = sv_block sv /\ height b = sv_height sv.
Proof.
  intros C P T Vz W. pose proof (reads_of_chain _ _ _ _ _ _ C P) as R.
  destruct (contextual_Ok _ _ _ _ _ _ _ _ R (po_outputs _ _ P) Vz T W) as (Es & _ & _ & Vc & _).
  assert (F : block b = sv_block sv /\ hash b = sv_hash sv /\ height b = sv_height sv /\ new_outputs b = sv_new_outputs sv).
  { unfold with_block_and_spent_utxos in W. by outcome_inv. }
  destruct F as (Eb & Eh & Et & En). split; [|done]. unfold ok_block, block_ok, bound, utxos_ok. rewrite Eb, Eh, Et, En, Es.
  split_and!; [| |apply P|done|apply P|apply P|apply P].
  - intros o u L. by apply (po_new _ _ P) in L as [? _].
  - intros o u [L|[_ L]]%lookup_union_Some_raw; [by apply (po_new _ _ P) in L as [? _]|].
    unfold transparent_spend in T. rewrite spend_transactions_list in T. outcome_inv.
    destruct (spends_read _ _ _ _ _ _ R H o u L) as (_ & _ & _ & U).
    destruct U as [U|[U|U]]; [by apply (po_new _ _ P) in U as [? _]|by eapply unspent_read_ok in U as [? _]|].
    by apply (po_db _ _ P) in U as [? _].
Qed.

(** The height of a block on the tip of a chain. *)
Lemma next_height p root bs c b : at_tip p root bs c -> bound b ->
  previous_block_hash (block b) = default p (hash <$> last bs) -> height b = root + len bs.
Proof.
  intros [C Hp] [_ ->] ->. pose proof C as [[lo W] _ O _]. destruct bs as [|b0 bs _] using rev_ind; cbn; [lia|].
  rewrite last_snoc, length_app. cbn. apply Forall_app in O as [_ [(_ & [-> _] & _) _]%Forall_cons]. cbn.
  pose proof (cw_heights _ _ _ _ W) as [_ [-> _]]%heights_from_app. lia.
Qed.

Lemma push_ChainWf `{CA : !ChainAssumptions} p root bs c b c' : at_tip p root bs c -> ok_block b -> height b <= Height.MAX ->
  previous_block_hash (block b) = default p (hash <$> last bs) -> push b c = Ok c' ->
  linked p (bs ++ [b]) /\ exists lo, ChainWf lo root (bs ++ [b]) (inner c').
Proof.
  intros A Ob M L Pu. pose proof A as [[[lo W] _ O K] _]. split; [by apply linked_app|]. exists lo.
  eapply chain_push; [apply sprout_root_inj|apply tree_root_inj| |exact W|apply Ob| |done|exact Pu].
  - intros. apply history_push_returns.
  - destruct Ob as (_ & B & _). exact (next_height _ _ _ _ _ A B L).
Qed.

Lemma validate_and_commit_Ok `{CA : !ChainAssumptions} isr lockbox p root bs c sv fs s c' :
  at_tip p root bs c -> PreparedOk fs sv -> previous_block_hash (sv_block sv) = default p (hash <$> last bs) ->
  validate_and_commit isr lockbox c sv fs s = Ok c' ->
  exists b, push b c = Ok c' /\ hash b = sv_hash sv /\ block b = sv_block sv /\ ok_block b /\ linked p (bs ++ [b]) /\
    (exists lo, ChainWf lo root (bs ++ [b]) (inner c')) /\
    Forall (fun e => sv_hash sv ∉ hash <$> e.2) (invalidated_blocks s).
Proof.
  intros A P L V. pose proof A as [C _]. unfold validate_and_commit in V. outcome_inv.
  destruct (contextual_ok_block _ _ _ _ _ _ _ _ _ _ C P H0 (calculate_deferred_valid _ _ _ _ H2) H3) as (Ob & Eh & Eb & Et).
  unfold validate_and_update_parallel in V. outcome_inv. destruct a4 as [hh ht]. apply obind_Ok in V as ([u ch] & V & E). injection E as ->. apply both_Ok in V as [_ Pu]. cbn in Pu.
  exists a3. rewrite <- Eb in L.
  destruct (push_ChainWf _ _ _ _ _ _ A Ob ltac:(rewrite Et; apply P) L Pu) as [K W].
  split_and!; try done. apply negb_true_iff in H. apply Forall_forall. intros [h bl] In Hin.
  apply list_elem_of_fmap in Hin as (x & Ex & Hx). cbn in Hx.
  assert (T : existsb (fun '(_, blocks) => existsb (fun b => bool_decide (hash b = sv_hash sv)) blocks) (invalidated_blocks s) = true).
  { apply existsb_exists. exists (h, bl). split; [by apply list_elem_of_In|]. apply existsb_exists. exists x.
    split; [by apply list_elem_of_In|]. by apply bool_decide_true. }
  by rewrite H in T.
Qed.

(** ** The invariant of the state *)

Definition record_ok (e : Z * list ContextuallyVerifiedBlock) : Prop :=
  e.2 <> [] /\ heights_from e.1 e.2 /\ Forall ok_block e.2 /\ (exists q, linked q e.2) /\ e.1 + len e.2 - 1 <= Height.MAX.

(** The state above the finalized block [p], whose child has the height [root]. *)
Record StateWf (p : Hash) (root : Z) (s : NonFinalizedState) : Prop := {
  sw_tip : hi_height (header_of p) = root - 1;
  sw_sorted : StronglySorted chain_lt (chain_set s);
  sw_chains : Forall (fun c => exists bs, bs <> [] /\ ChainOf p root bs c) (chain_set s);
  sw_forks : (length (chain_set s) <= MAX_NON_FINALIZED_CHAIN_FORKS)%nat;
  sw_records : Forall record_ok (invalidated_blocks s);
  sw_keys : NoDup (invalidated_blocks s).*1;
  sw_limit : (length (invalidated_blocks s) <= MAX_INVALIDATED_BLOCKS)%nat;
}.

(** The transfers of every chain stay in the range of an amount. *)
Definition fits (l : list Chain) : Prop := Forall (fun c => chain_volumes_ok (all_blocks (inner c))) l.

Lemma state_nonempty p root s : StateWf p root s -> Forall nonempty (chain_set s).
Proof.
  intros W. eapply Forall_impl; [apply (sw_chains _ _ _ W)|]. intros c (bs & Ne & C). by eapply chain_nonempty.
Qed.

Definition tip_is (h : Hash) c : bool :=
  match tip_block (inner c) with Some b => bool_decide (hash b = h) | None => false end.

Lemma tip_hash_is_Ok {E} h c : nonempty c -> tip_hash_is (E:=E) h c = Ok (tip_is h c).
Proof. intros [b B]. unfold tip_hash_is, tip_is, non_finalized_tip_hash. by rewrite B. Qed.

Lemma tip_is_last p root bs c h : ChainOf p root bs c -> bs <> [] -> tip_is h c = true <-> hash <$> last bs = Some h.
Proof.
  intros C Ne. destruct bs as [|b bs _] using rev_ind; [done|]. destruct (chain_tip _ _ _ _ _ C) as (T & _).
  unfold tip_is. rewrite T, bool_decide_eq_true, last_snoc. cbn. naive_solver.
Qed.

(** The result of a fork, or of a search by the tip. *)
Definition ends_at (p : Hash) (root : Z) (h : Hash) c : Prop :=
  exists bs b, ChainOf p root (bs ++ [b]) c /\ hash b = h.

Lemma fork_first_Ok p root h l : Forall (fun c => exists bs, bs <> [] /\ ChainOf p root bs c) l ->
  (exists c, fork_first h l = Ok (Some c) /\ ends_at p root h c) \/
  fork_first h l = Ok None /\ Forall (fun c => contains_block_hash h c = false) l.
Proof.
  induction l as [|c l IH]; intros F; [by right|]. apply Forall_cons in F as [(bs & Ne & C) F]. cbn [fork_first].
  destruct (decide (h ∈ hash <$> bs)) as [In|Nin].
  - left. apply list_elem_of_fmap in In as (b & -> & (bs1 & bs2 & ->)%list_elem_of_split).
    destruct (chain_fork _ _ _ _ _ _ C) as (c' & -> & C'). cbn [obind]. exists c'. split; [done|]. by exists bs1, b.
  - rewrite (chain_no_fork _ _ _ _ _ C Nin). cbn [obind]. destruct (IH F) as [?|[-> Fn]]; [by left|]. right. split; [done|].
    constructor; [|done]. apply not_true_is_false. by rewrite (chain_contains _ _ _ _ h C).
Qed.

(** [parent_chain] finds a chain that ends at the parent, whenever some chain has
    the parent. *)
Lemma parent_chain_Ok p root h s : StateWf p root s ->
  (exists c, parent_chain h s = Ok c /\ ends_at p root h c) \/
  parent_chain h s = Err NotReadyToBeCommitted /\ Forall (fun c => contains_block_hash h c = false) (chain_set s).
Proof.
  intros W. pose proof (state_nonempty _ _ _ W) as Ne. pose proof (sw_chains _ _ _ W) as Ch.
  unfold parent_chain, find_chain, chain_iter. rewrite (find_first_Ok _ (tip_is h)).
  2:{ intros c Hc. apply tip_hash_is_Ok. rewrite Forall_forall in Ne. apply Ne. by apply elem_of_reverse. }
  cbn [obind]. destruct (List.find _ _) as [c|] eqn:Fd.
  - left. exists c. split; [done|]. apply find_some in Fd as [In T]. rewrite Forall_forall in Ch.
    destruct (Ch c) as (bs & Nb & C); [by apply elem_of_reverse, list_elem_of_In|]. apply (tip_is_last _ _ _ _ h C Nb) in T.
    destruct bs as [|b bs _] using rev_ind; [done|]. rewrite last_snoc in T. injection T as T. by exists bs, b.
  - destruct (fork_first_Ok p root h (reverse (chain_set s))) as [(c & -> & E)|[-> Fn]].
    + by apply Forall_reverse.
    + left. by exists c.
    + right. split; [done|]. by apply Forall_reverse.
Qed.

Lemma wf_nonempty lo root bs b c : ChainWf lo root (bs ++ [b]) (inner c) -> nonempty c.
Proof.
  intros W. unfold nonempty, tip_block. rewrite (cw_blocks _ _ _ _ W), (last_of_snoc _ _ _ (cw_heights _ _ _ _ W)). by eexists.
Qed.

Lemma insert_wf {E} p root s c lo bs b l k : StateWf p root s ->
  ChainWf lo root (bs ++ [b]) (inner c) -> Forall ok_block (bs ++ [b]) -> linked p (bs ++ [b]) ->
  set_insert (E:=E) c (chain_set s) = Ok l -> sublist k l -> (length k <= MAX_NON_FINALIZED_CHAIN_FORKS)%nat -> fits k ->
  StateWf p root (mkState k (invalidated_blocks s) (state_network s)).
Proof.
  intros W Wc O K I Sb Len V.
  destruct (set_insert_Ok (E:=E) c (chain_set s)) as (l' & I' & S & D); [by eapply wf_nonempty|by eapply state_nonempty|apply W|].
  rewrite I in I'. injection I' as <-. split; cbn; try apply W; [by eapply StronglySorted_sub| |done].
  apply Forall_forall. intros d Hd. assert (In : d = c \/ d ∈ chain_set s).
  { assert (Hl : d ∈ l) by (by eapply elem_of_sublist). destruct D as [[-> _]|(_ & l1 & l2 & Es & ->)]; [by right|].
    rewrite Es. rewrite elem_of_app, elem_of_cons in *. tauto. }
  destruct In as [->|Hs].
  - exists (bs ++ [b]). split; [by destruct bs|]. split; [by exists lo| |done..].
    unfold fits in V. rewrite Forall_forall in V. specialize (V c Hd). by rewrite (all_blocks_wf _ _ _ _ Wc) in V.
  - pose proof (sw_chains _ _ _ W) as Ch. rewrite Forall_forall in Ch. by apply Ch.
Qed.

(** The filter that removes the parent chain. *)
Lemma retain_tips {E} h l : Forall nonempty l ->
  retain (E:=E) (fun c => let? t := tip_hash_is h c in Ok (negb t)) l = Ok (filter (fun c => negb (tip_is h c) = true) l).
Proof.
  intros N. apply (retain_Ok _ (fun c => negb (tip_is h c))). intros c Hc. rewrite Forall_forall in N.
  by rewrite (tip_hash_is_Ok h c (N c Hc)).
Qed.

Lemma retain_tips_sub {E} h c l l' : nonempty c -> Forall nonempty l -> l' ⊆ c :: l ->
  retain (E:=E) (fun c => let? t := tip_hash_is h c in Ok (negb t)) l' = Ok (filter (fun c => negb (tip_is h c) = true) l').
Proof.
  intros Nc Nl S. apply retain_tips. apply Forall_forall. intros d D. rewrite Forall_forall in Nl.
  by apply S, elem_of_cons in D as [->|?]; [|apply Nl].
Qed.

(** The finalized state below the non-finalized one. *)
Record Below (p : Hash) (root : Z) (fs : FinalizedState) : Prop := {
  be_hash : finalized_tip_hash fs = p;
  be_height : finalized_tip_height fs = Some (root - 1);
  be_range : 0 <= root - 1 <= Height.MAX;
  be_pools : pools_ok (finalized_value_pool fs);
}.

Section Steps.
Context `{CA : !ChainAssumptions} (isr : list byte -> bool) (lockbox : Amount.Amount NonNegative).

(** The chains that a commit keeps: those whose tip is not the parent. *)
Definition not_parent (sv : SemanticallyVerifiedBlock) c : bool := negb (tip_is (previous_block_hash (sv_block sv)) c).

(** No chain of the state ends at the finalized tip. *)
Lemma tip_above p root c : hi_height (header_of p) = root - 1 -> (exists bs, bs <> [] /\ ChainOf p root bs c) -> tip_is p c = false.
Proof.
  intros Hp (bs & Ne & C). apply not_true_is_false. rewrite (tip_is_last _ _ _ _ p C Ne).
  destruct bs as [|b bs _] using rev_ind; [done|]. rewrite last_snoc. intros [= <-]. pose proof C as [[lo W] _ O _].
  apply Forall_app in O as [_ [(_ & [B _] & _) _]%Forall_cons]. rewrite B in Hp. cbn in Hp.
  pose proof (cw_heights _ _ _ _ W) as [_ [? _]]%heights_from_app. lia.
Qed.

(** A commit extends a chain of the state, a fork of one, or the empty chain, and
    keeps the best of the chains that do not end at the parent. *)
Lemma commit_Ok p root fs sv s s' : StateWf p root s -> Below p root fs -> PreparedOk fs sv ->
  commit_prepared isr lockbox sv fs s = Ok s' ->
  exists bs c b c' l, at_tip p root bs c /\ push b c = Ok c' /\ hash b = sv_hash sv /\ block b = sv_block sv /\
    ok_block b /\ previous_block_hash (sv_block sv) = default p (hash <$> last bs) /\ linked p (bs ++ [b]) /\
    (exists lo, ChainWf lo root (bs ++ [b]) (inner c')) /\
    Forall (fun e => sv_hash sv ∉ hash <$> e.2) (invalidated_blocks s) /\
    set_insert (E:=ValidateContextError) c' (chain_set s) = Ok l /\
    s' = mkState (drop (length (filter (fun d => not_parent sv d = true) l) - MAX_NON_FINALIZED_CHAIN_FORKS)
        (filter (fun d => not_parent sv d = true) l)) (invalidated_blocks s) (state_network s).
Proof.
  intros W B P Cm. unfold commit_prepared in Cm. rewrite (be_hash _ _ _ B) in Cm. pose proof (state_nonempty _ _ _ W) as Nl.
  case_bool_decide as D.
  - unfold commit_new_chain in Cm. rewrite (be_height _ _ _ B) in Cm. cbn [expect obind] in Cm.
    destruct (chain_new (root - 1) (note_commitment_trees_for_tip fs) (db_history_tree fs) (finalized_value_pool fs)
      (be_range _ _ _ B) (be_pools _ _ _ B)) as (c & Nc & Wc & _). rewrite Nc in Cm. cbn [obind] in Cm.
    apply obind_Ok in Cm as (c' & V & Cm). apply obind_Ok in Cm as (k & I & Cm). injection Cm as <-. replace (root - 1 + 1) with root in Wc by lia.
    assert (A : at_tip p root [] c).
    { split; [|apply W]. split; [by exists (root - 1)| |done..]. intros x. cbn. pose proof MAX_MONEY_pos. lia. }
    destruct (validate_and_commit_Ok isr lockbox _ _ _ _ _ _ _ _ A P (eq_sym D) V) as (b & Pu & Eh & Eb & Ob & K & [lo Wb] & F).
    assert (Tc : tip_block (inner c') = Some b).
    { unfold tip_block. by rewrite (cw_blocks _ _ _ _ Wb), (last_of_snoc _ [] _ (cw_heights _ _ _ _ Wb)). }
    destruct (insert_with_Ok (E:=ValidateContextError) c' (not_parent sv) Ok (chain_set s)) as (l & k' & Il & Ik & Ek & _);
      [by exists b|done|apply W| |].
    { intros l' Sl. f_equal. symmetry. apply filter_keeps_all, Forall_forall. intros d Hd. unfold not_parent. apply negb_true_iff. rewrite <- D.
      apply Sl, elem_of_cons in Hd as [->|Hd].
      - unfold tip_is. rewrite Tc. apply bool_decide_eq_false. rewrite Eh. intros Ep.
        pose proof (po_header _ _ P) as Hd. pose proof (po_parent _ _ P) as Hn. rewrite Ep in Hd. rewrite <- D, Hd in Hn. cbn in Hn. lia.
      - eapply tip_above; [apply W|]. pose proof (sw_chains _ _ _ W) as Ch. rewrite Forall_forall in Ch. by apply Ch. }
    unfold insert_chain in I. rewrite I in Ik. injection Ik as <-. exists [], c, b, c', l. subst k. split_and!; try done. by exists lo.
  - unfold commit_block in Cm. apply obind_Ok in Cm as (a & H & Cm). apply obind_Ok in Cm as (c' & V & Cm).
    apply obind_Ok in Cm as (k & I & Cm). injection Cm as <-.
    destruct (parent_chain_Ok _ _ (previous_block_hash (sv_block sv)) _ W) as [(c & E & bs & b0 & C & Eh0)|[E _]];
      rewrite E in H; [|done]. injection H as ->.
    assert (A : at_tip p root (bs ++ [b0]) a) by (split; [done|apply W]).
    assert (L : previous_block_hash (sv_block sv) = default p (hash <$> last (bs ++ [b0]))) by (rewrite last_snoc; done).
    destruct (validate_and_commit_Ok isr lockbox _ _ _ _ _ _ _ _ A P L V) as (b & Pu & Eh & Eb & Ob & K & [lo Wb] & F).
    pose proof (wf_nonempty _ _ _ _ _ Wb) as Nc.
    destruct (insert_with_Ok (E:=ValidateContextError) c' (not_parent sv) (retain (fun d => let? t := tip_hash_is (previous_block_hash (sv_block sv)) d in Ok (negb t)))
      (chain_set s)) as (l & k' & Il & Ik & Ek & _); [done|done|apply W| |].
    { intros l Sl. by eapply retain_tips_sub. }
    rewrite I in Ik. injection Ik as <-. subst k. exists (bs ++ [b0]), a, b, c', l. split_and!; try done. by exists lo.
Qed.

Lemma commit_wf p root fs sv s s' : StateWf p root s -> Below p root fs -> PreparedOk fs sv ->
  commit_prepared isr lockbox sv fs s = Ok s' -> fits (chain_set s') -> StateWf p root s'.
Proof.
  intros W B P Cm V. destruct (commit_Ok _ _ _ _ _ _ W B P Cm) as (bs & c & b & c' & l & A & _ & _ & _ & Ob & _ & K & [lo Wc] & _ & I & ->).
  pose proof A as [C _]. eapply (insert_wf (E:=ValidateContextError)); [exact W|exact Wc| |exact K|exact I| | |exact V].
  - apply Forall_app. split; [apply C|by constructor].
  - etrans; [apply sublist_drop|apply sublist_filter].
  - rewrite length_drop. lia.
Qed.

Lemma drop_best n l c : StronglySorted chain_lt l -> c ∈ l -> (n < length l)%nat -> exists d, d ∈ drop n l /\ work c <= work d.
Proof.
  intros S Hc Len. rewrite <- (take_drop n l) in S, Hc. destruct (drop n l) as [|d r] eqn:Dr.
  { apply (f_equal length) in Dr. rewrite length_drop in Dr. cbn in Dr. lia. }
  apply elem_of_app in Hc as [Hc|Hc]; [|by exists c]. exists d. split; [constructor|].
  assert (chain_lt c d) by (eapply StronglySorted_app_1_elem_of; [exact S|done|constructor]). unfold chain_lt in *. lia.
Qed.

Lemma push_work lo root bs b c lo' c' : ChainWf lo root bs (inner c) -> ChainWf lo' root (bs ++ [b]) (inner c') ->
  Forall ok_block bs -> work c <= work c'.
Proof.
  intros W W' O. destruct (cw_work _ _ _ _ W) as (ws & F & _ & E & _). destruct (cw_work _ _ _ _ W') as (ws' & F' & N & E' & _).
  apply Forall2_app_inv_l in F' as (ws1 & ws2 & F1 & F2 & ->). rewrite (work_of_hashes _ _ _ _ O O eq_refl F1 F) in E'.
  unfold work. rewrite E, E', total_work_app. apply Forall_app in N as [_ N]. pose proof (total_work_nonneg _ N). lia.
Qed.

(** A committed block ranks its chain at least as high as its parent's, and the
    chain, or one of the same rank, is not removed as a parent. *)
Lemma committed_kept lo root bs b c sv l fs : ChainWf lo root (bs ++ [b]) (inner c) -> hash b = sv_hash sv -> PreparedOk fs sv ->
  Forall nonempty l -> Exists (same_rank c) l -> exists d, d ∈ l /\ not_parent sv d = true /\ work d = work c.
Proof.
  intros Wc Eh P Nl (d & Hd & R)%Exists_exists. exists d. split; [done|]. destruct R as [Rw Rk]. split; [|done].
  rewrite Forall_forall in Nl. destruct (Nl d Hd) as [t T]. unfold not_parent, tip_is. rewrite T. apply negb_true_iff, bool_decide_eq_false.
  intros Et. assert (Tc : tip_block (inner c) = Some b).
  { unfold tip_block. by rewrite (cw_blocks _ _ _ _ Wc), (last_of_snoc _ _ _ (cw_heights _ _ _ _ Wc)). }
  unfold tip_key in Rk. rewrite T, Tc in Rk. apply hash_key_inj in Rk. rewrite Eh, Et in Rk.
  pose proof (po_header _ _ P) as Hd'. pose proof (po_parent _ _ P) as Hn. rewrite Rk in Hd'. rewrite Hd' in Hn. cbn in Hn. lia.
Qed.

(** Every chain is replaced by one with at least its work. *)
Lemma commit_work p root fs sv s s' d : StateWf p root s -> Below p root fs -> PreparedOk fs sv ->
  commit_prepared isr lockbox sv fs s = Ok s' -> d ∈ chain_set s ->
  exists d', d' ∈ chain_set s' /\ work d <= work d'.
Proof.
  intros W B P Cm Hd. destruct (commit_Ok _ _ _ _ _ _ W B P Cm) as (bs & c & b & c' & l & A & Pu & Eh & _ & Ob & L & K & [lo Wc] & _ & I & ->).
  cbn [chain_set]. set (m := filter (fun d => not_parent sv d = true) l).
  pose proof (wf_nonempty _ _ _ _ _ Wc) as Nc. pose proof (state_nonempty _ _ _ W) as Ns.
  destruct (set_insert_Ok (E:=ValidateContextError) c' (chain_set s) Nc Ns (sw_sorted _ _ _ W)) as (l' & I' & S & D).
  rewrite I in I'. injection I' as <-.
  assert (Hl : d ∈ l /\ Forall nonempty l /\ Exists (same_rank c') l).
  { destruct D as [[-> X]|(_ & l1 & l2 & Es & ->)]; [done|]. rewrite Es, elem_of_app in Hd. rewrite Es, Forall_app in Ns.
    rewrite elem_of_app, elem_of_cons, Forall_app, Forall_cons, Exists_app. split; [tauto|]. split; [tauto|]. right. by left. }
  destruct Hl as (Hl & Nl & Xl). assert (M : exists x, x ∈ m /\ work d <= work x).
  { destruct (not_parent sv d) eqn:Np; [exists d; split; [by apply list_elem_of_filter|done]|].
    destruct (committed_kept _ _ _ _ _ _ _ _ Wc Eh P Nl Xl) as (x & Hx & Nx & Wx). exists x. split; [by apply list_elem_of_filter|].
    pose proof (sw_chains _ _ _ W) as Ch. rewrite Forall_forall in Ch. destruct (Ch d Hd) as (bd & Nd & Cd).
    apply negb_false_iff in Np. pose proof Np as Tp. rewrite (tip_is_last _ _ _ _ _ Cd Nd) in Tp.
    destruct A as [C Hp]. destruct bs as [|b0 bs0 _] using rev_ind.
    { cbn in L. rewrite L in Np. by rewrite (tip_above p root d Hp (Ch d Hd)) in Np. }
    rewrite last_snoc in L. cbn in L. destruct (same_tip_rank _ _ _ _ _ _ Cd C Nd) as [R _];
      [by destruct bs0|rewrite Tp, last_snoc; cbn; by rewrite L|].
    pose proof C as [[lo' Wc'] _ O _]. pose proof (push_work _ _ _ _ _ _ _ Wc' Wc O). lia. }
  destruct M as (x & Hx & Wx). assert (Sm : StronglySorted chain_lt m) by (eapply StronglySorted_sub; [apply sublist_filter|exact S]).
  destruct (drop_best (length m - MAX_NON_FINALIZED_CHAIN_FORKS) m x Sm Hx) as (y & Hy & Wy).
  - destruct m; [by apply elem_of_nil in Hx|]. cbn [length]. unfold MAX_NON_FINALIZED_CHAIN_FORKS. lia.
  - exists y. split; [done|lia].
Qed.
End Steps.

(** ** Finalizing *)

(** A chain of the set after the block [b] is finalized: without its root when the
    root is [b], unless nothing is left. *)
Definition after_root b c : option Chain :=
  match non_finalized_root_hash (E:=ValidateContextError) (inner c), pop_root c with
  | Ok h, Ok (_, _, c') => if bool_decide (h = hash b) && negb (is_empty (inner c')) then Some c' else None
  | _, _ => None
  end.

Definition in_set (p : Hash) (root : Z) c : Prop := exists bs, bs <> [] /\ ChainOf p root bs c.

Lemma is_empty_of p root bs c : ChainOf p root bs c -> bs <> [] -> is_empty (inner c) = false.
Proof.
  intros [[lo W] _ _ _] Ne. destruct (tip_of_blocks _ _ _ (cw_blocks _ _ _ _ W) (cw_heights _ _ _ _ W)) as [_ ->]. by destruct bs.
Qed.

(** The chain without its root, and its work. *)
Lemma after_root_Some p root b c c' : in_set p root c -> after_root b c = Some c' ->
  exists r bs, ChainOf p root (r :: bs) c /\ hash r = hash b /\ bs <> [] /\ ChainOf (hash b) (root + 1) bs c' /\
    tip_key c' = tip_key c /\ (exists w, block_work (E:=ValidateContextError) r = Ok w /\ work c' = work c - w).
Proof.
  intros (bs & Ne & C). destruct bs as [|r bs]; [done|]. unfold after_root. rewrite (chain_first _ _ _ _ _ C).
  destruct (chain_root _ _ _ _ _ C) as (ts & c1 & P & _ & M). rewrite P.
  case_bool_decide as E; [|done]. destruct (is_empty (inner c1)) eqn:Em; [done|]. intros [= <-]. exists r, bs.
  destruct bs as [|b1 bs]; [by rewrite M in Em|].
  destruct (chain_root_work _ _ _ _ _ _ _ C ltac:(done) P) as [Tk Wk]. rewrite <- E. done.
Qed.

Lemma after_root_lt p root b c d c' d' : in_set p root c -> in_set p root d -> chain_lt c d ->
  after_root b c = Some c' -> after_root b d = Some d' -> chain_lt c' d'.
Proof.
  intros Ic Id Lt Ac Ad.
  destruct (after_root_Some _ _ _ _ _ Ic Ac) as (r & bs & C & Er & _ & _ & Kc & w & Bw & Wc).
  destruct (after_root_Some _ _ _ _ _ Id Ad) as (r' & bs' & D & Er' & _ & _ & Kd & w' & Bw' & Wd).
  assert (w = w') as ->.
  { pose proof (co_ok _ _ _ _ C) as [Or _]%Forall_cons. pose proof (co_ok _ _ _ _ D) as [Or' _]%Forall_cons.
    enough ([w] = [w']) by congruence. apply (work_of_hashes _ _ [r] [r']); [by constructor..| | |]; cbn; [congruence|by repeat constructor..]. }
  unfold chain_lt in *. lia.
Qed.

Lemma insert_front {E} c l : nonempty c -> Forall nonempty l -> Forall (chain_lt c) l ->
  (length l < MAX_NON_FINALIZED_CHAIN_FORKS)%nat -> insert_chain (E:=E) c l = Ok (c :: l).
Proof.
  intros Nc Nl F Len. assert (I : set_insert (E:=E) c l = Ok (c :: l)).
  { destruct l as [|d l]; [done|]. cbn [set_insert]. apply Forall_cons in Nl as [Nd _]. apply Forall_cons in F as [Lt _].
    destruct (chain_cmp_Ok (E:=E) c d Nc Nd) as (o & -> & O). cbn [obind].
    destruct o; [unfold chain_lt, same_rank in *; lia|done|unfold chain_lt in *; lia]. }
  unfold insert_chain, insert_with. rewrite I. cbn [obind]. f_equal. cbn [length].
  by replace (S (length l) - MAX_NON_FINALIZED_CHAIN_FORKS)%nat with 0%nat by lia.
Qed.

Lemma after_root_nonempty p root b c c' : in_set p root c -> after_root b c = Some c' -> nonempty c'.
Proof. intros I A. destruct (after_root_Some _ _ _ _ _ I A) as (r & bs & _ & _ & Ne & C & _). by eapply chain_nonempty. Qed.

(** The chains of the set are popped in order, the best first, and each is
    inserted below those before it. *)
Lemma finalize_side_chains_Ok p root b l k : StronglySorted chain_lt (l ++ k) -> Forall (in_set p root) (l ++ k) ->
  (length (l ++ k) <= MAX_NON_FINALIZED_CHAIN_FORKS)%nat ->
  finalize_side_chains b (reverse l) (omap (after_root b) k) = Ok (omap (after_root b) (l ++ k)).
Proof.
  revert k. induction l as [|d l IH] using rev_ind; intros k S F Len; [done|].
  rewrite reverse_snoc. cbn [finalize_side_chains]. rewrite <- app_assoc in *. cbn [app] in *.
  specialize (IH (d :: k) S F Len). cbn [omap list_omap] in IH.
  pose proof F as [_ [Id Fk]%Forall_cons]%Forall_app. pose proof Id as (bs & Ne & C). destruct bs as [|r bs]; [done|].
  destruct (chain_root _ _ _ _ _ C) as (ts & c1 & P & _ & M).
  assert (A : after_root b d = if bool_decide (hash r = hash b) && negb (is_empty (inner c1)) then Some c1 else None)
    by (unfold after_root; by rewrite (chain_first _ _ _ _ _ C), P).
  rewrite (chain_first _ _ _ _ _ C). cbn [obind]. case_bool_decide as E; cbn [negb andb] in *; [|by rewrite A in IH].
  rewrite P. cbn [obind]. rewrite bool_decide_true by done. cbn [assert_that obind].
  destruct (is_empty (inner c1)) eqn:Em; cbn [negb obind] in *; [by rewrite A in IH|]. rewrite A in IH.
  apply StronglySorted_app in S as (_ & _ & [Sd _]%StronglySorted_cons). rewrite insert_front; [done|..].
  - by eapply after_root_nonempty.
  - eapply (Forall_omap (in_set p root)); [|done]. intros x y. apply after_root_nonempty.
  - eapply (Forall_omap (fun x => in_set p root x /\ chain_lt d x)); [|by apply Forall_and].
    intros x y [Ix Lx] Ax. by eapply (after_root_lt p root b d x).
  - rewrite length_app in Len. cbn in Len. pose proof (length_omap_le (after_root b) k). lia.
Qed.

(** [finalize] of a state with a chain: the block is the root of the best chain,
    with its treestate, and the chains on it keep their order. *)
Lemma finalize_Ok p root s l best b bs : StateWf p root s -> chain_set s = l ++ [best] -> ChainOf p root (b :: bs) best ->
  exists ts s', finalize s = Ok (b, ts, s') /\ treestate root (trees (inner best)) = Some ts /\
    chain_set s' = omap (after_root b) (chain_set s) /\
    invalidated_blocks s' = filter (fun e => height b <= e.1) (invalidated_blocks s) /\
    StateWf (hash b) (root + 1) s'.
Proof.
  intros W Es C. pose proof (sw_sorted _ _ _ W) as S. pose proof (sw_chains _ _ _ W) as F. pose proof (sw_forks _ _ _ W) as Len.
  destruct (chain_root _ _ _ _ _ C) as (ts & c1 & P & T & M). unfold finalize, chain_iter.
  rewrite Es in *. rewrite reverse_snoc. rewrite P. cbn [obind].
  assert (A : after_root b best = if negb (is_empty (inner c1)) then Some c1 else None)
    by (unfold after_root; by rewrite (chain_first _ _ _ _ _ C), P, bool_decide_true).
  assert (I : (if is_empty (inner c1) then Ok [] else insert_chain (E:=ValidateContextError) c1 []) = Ok (omap (after_root b) [best])).
  { cbn. rewrite A. by destruct (is_empty (inner c1)). }
  rewrite I. cbn [obind]. rewrite (finalize_side_chains_Ok p root) by done. cbn [obind].
  do 2 eexists. split; [done|]. cbn [chain_set invalidated_blocks]. split; [done|]. split; [done|]. split; [done|].
  pose proof (co_ok _ _ _ _ C) as [(_ & [B _] & _) _]%Forall_cons. pose proof C as [[lo Wc] _ _ _].
  pose proof (cw_heights _ _ _ _ Wc) as [Hb _]. split; cbn [chain_set invalidated_blocks].
  - rewrite B. cbn. lia.
  - eapply (StronglySorted_omap _ (in_set p root)); [|done..]. intros x y x' y' Ix Iy Lt Ax Ay.
    exact (after_root_lt _ _ _ _ _ _ _ Ix Iy Lt Ax Ay).
  - eapply (Forall_omap (in_set p root)); [|done]. intros x y Ix Ax.
    destruct (after_root_Some _ _ _ _ _ Ix Ax) as (r & bs' & _ & _ & Ne & Cy & _). by exists bs'.
  - pose proof (length_omap_le (after_root b) (l ++ [best])). lia.
  - by eapply Forall_sub; [apply sublist_filter|apply W].
  - eapply sublist_NoDup; [apply W|]. apply fmap_sublist, sublist_filter.
  - pose proof (sw_limit _ _ _ W). pose proof (length_filter (fun e : Z * list ContextuallyVerifiedBlock => height b <= e.1) (invalidated_blocks s)). lia.
Qed.

(** ** Invalidating *)

(** The chain that [find_chain] returns is the best one with the block. *)
Lemma find_chain_Ok {E} (q : Chain -> bool) s :
  exists o, find_chain (E:=E) (fun c => Ok (q c)) s = Ok o /\
    match o with
    | Some c => q c = true /\ exists l1 l2, chain_set s = l1 ++ c :: l2 /\ Forall (fun d => q d = false) l2
    | None => Forall (fun d => q d = false) (chain_set s)
    end.
Proof.
  unfold find_chain, chain_iter. rewrite (find_first_Ok _ q) by done. eexists; split; [done|].
  pose proof (find_split q (reverse (chain_set s))) as F. destruct (List.find _ _) as [c|].
  - destruct F as (Q & l1 & l2 & Er & F). split; [done|]. exists (reverse l2), (reverse l1). split; [|by apply Forall_reverse].
    rewrite <- (reverse_involutive (chain_set s)), Er, reverse_app, reverse_cons, <- app_assoc. done.
  - by apply Forall_reverse.
Qed.

(** The last chain of the set that satisfies a predicate. *)
Lemma last_match_unique (q : Chain -> bool) (m l1 l2 : list Chain) c d : m = l1 ++ c :: l2 -> q c = true ->
  Forall (fun x => q x = false) l2 -> q d = true /\ (exists k1 k2, m = k1 ++ d :: k2 /\ Forall (fun x => q x = false) k2) -> d = c.
Proof.
  intros -> Qc F [Qd (k1 & k2 & E & F')]. revert k1 E. induction l1 as [|x l1 IH]; intros [|y k1] E; cbn in E; injection E as E1 E2.
  - done.
  - exfalso. rewrite E2, Forall_app, Forall_cons in F. rewrite Qd in F. by destruct F as (_ & ? & _).
  - exfalso. rewrite <- E2, Forall_app, Forall_cons in F'. rewrite Qc in F'. by destruct F' as (_ & ? & _).
  - by eapply IH.
Qed.

(** The root of a chain with a block above it. *)
Lemma chain_first_ne {E} q root bs1 b bs2 c : ChainOf q root (bs1 ++ b :: bs2) c -> bs1 <> [] ->
  exists h, non_finalized_root_hash (E:=E) (inner c) = Ok h /\ h <> hash b.
Proof.
  destruct bs1 as [|r bs1]; [done|]. intros C _. exists (hash r). split; [by apply (chain_first _ _ _ _ _ C)|]. intros Eh.
  pose proof C as [[lo W] _ _ _]. assert (0 = S (length bs1))%nat; [|lia].
  eapply (hashes_distinct _ _ _ _ r b); [exact W|done| |exact Eh]. by apply (list_lookup_middle (r :: bs1)).
Qed.

Lemma sub_record q root bs1 b bs2 c : ChainOf q root (bs1 ++ b :: bs2) c -> record_ok (height b, b :: bs2).
Proof.
  intros [[lo W] _ O K]. pose proof (cw_heights _ _ _ _ W) as [_ H]%heights_from_app. pose proof H as [Hb _].
  apply Forall_app in O as [_ O]. unfold record_ok. cbn [fst snd]. rewrite Hb. split; [done|]. split; [done|]. split; [done|]. split.
  - apply linked_app in K as (_ & _ & K). by exists (previous_block_hash (block b)).
  - pose proof (cw_max _ _ _ _ W) as M. rewrite length_app in M. cbn in *. lia.
Qed.

(** The records of the invalidated blocks. *)
Definition add_record (h : Z) bs (m : list (Z * list ContextuallyVerifiedBlock)) :=
  let records := index_insert h bs m in drop (length records - MAX_INVALIDATED_BLOCKS) records.

Lemma add_record_wf p root s k h bs : StateWf p root s -> record_ok (h, bs) ->
  StronglySorted chain_lt k -> Forall (in_set p root) k -> (length k <= MAX_NON_FINALIZED_CHAIN_FORKS)%nat ->
  StateWf p root (mkState k (add_record h bs (invalidated_blocks s)) (state_network s)).
Proof.
  intros W R S F Len. pose proof (index_insert_keys h bs _ (sw_keys _ _ _ W)) as N. unfold add_record.
  split; cbn [chain_set invalidated_blocks]; try done; [apply W|..].
  - eapply Forall_sub; [apply sublist_drop|]. apply Forall_forall. intros e [->|E]%index_insert_elem; [done|].
    pose proof (sw_records _ _ _ W) as Rs. rewrite Forall_forall in Rs. by apply Rs.
  - eapply sublist_NoDup; [exact N|]. apply fmap_sublist, sublist_drop.
  - rewrite length_drop. lia.
Qed.

(** [invalidate_block] of a block above the root: no chain with the block is left,
    the best one is replaced by its part below the block, and the others stay. *)
Lemma invalidate_above p root s l1 c l2 bs1 b bs2 : StateWf p root s -> chain_set s = l1 ++ c :: l2 ->
  Forall (fun d => contains_block_hash (hash b) d = false) l2 -> ChainOf p root (bs1 ++ b :: bs2) c -> bs1 <> [] ->
  exists nc l' k, chain_invalidate_block (hash b) c = Ok (Some (nc, b :: bs2)) /\ ChainOf p root bs1 nc /\
    set_insert (E:=InvalidateError) nc (chain_set s) = Ok l' /\
    k = filter (fun d => contains_block_hash (hash b) d = false) l' /\
    invalidate_block (hash b) s = Ok (mkState k (add_record (height b) (b :: bs2) (invalidated_blocks s)) (state_network s)) /\
    StateWf p root (mkState k (add_record (height b) (b :: bs2) (invalidated_blocks s)) (state_network s)).
Proof.
  intros W Es Fn C Ne. pose proof (state_nonempty _ _ _ W) as Nl. set (cb := contains_block_hash (hash b)) in *.
  assert (Cc : cb c = true).
  { apply (chain_contains _ _ _ _ _ C). rewrite fmap_app. apply elem_of_app. right. constructor. }
  destruct (chain_invalidate _ _ _ _ _ _ C Ne) as (nc & Ei & Cn).
  destruct (insert_with_Ok (E:=InvalidateError) nc (fun d => negb (cb d)) (fun l => Ok (filter (fun d => cb d = false) l)) (chain_set s))
    as (l' & k & Si & Iw & Ek & Sk & Lk & In); [by eapply chain_nonempty|done|apply W| |].
  { intros l' _. f_equal. apply list_filter_iff. intros d. by destruct (cb d). }
  assert (Ef : k = filter (fun d => cb d = false) l').
  { rewrite Ek, (list_filter_iff (fun d => negb (cb d) = true) (fun d => cb d = false)) by (intros d; by destruct (cb d)).
    assert (Sl : c ∈ l' /\ (length l' <= S (length (chain_set s)))%nat).
    { destruct (set_insert_Ok (E:=InvalidateError) nc (chain_set s)) as (l'' & Si' & _ & D);
        [by eapply chain_nonempty|done|apply W|]. rewrite Si in Si'. injection Si' as <-.
      assert (Hc : c ∈ chain_set s) by (rewrite Es; apply elem_of_app; right; constructor).
      destruct D as [[-> _]|(_ & k1 & k2 & Es' & ->)]; [split; [done|lia]|].
      rewrite Es', elem_of_app in Hc. split; [rewrite elem_of_app, elem_of_cons; tauto|rewrite Es', !length_app; cbn; lia]. }
    destruct Sl as [Sc Ll]. pose proof (length_filter_lt (fun d => cb d = false) l' c Sc ltac:(intros X; cbv beta in X; congruence)) as Lf.
    pose proof (sw_forks _ _ _ W). by replace (_ - _)%nat with 0%nat by lia. }
  exists nc, l', k. split; [done|]. split; [done|]. split; [done|]. split; [done|]. split.
  - destruct (find_chain_Ok (E:=InvalidateError) cb s) as (o & Fo & Q). unfold invalidate_block. fold cb. rewrite Fo.
    cbn [obind]. destruct o as [c0|]; cycle 1.
    { rewrite Es, Forall_app, Forall_cons in Q. rewrite Cc in Q. by destruct Q as (_ & ? & _). }
    assert (c0 = c) as ->. { exact (last_match_unique cb _ _ _ _ _ Es Cc Fn Q). }
    cbn [ok_or obind]. destruct (chain_first_ne (E:=InvalidateError) _ _ _ _ _ _ C Ne) as (h & -> & Nh).
    cbn [obind]. rewrite bool_decide_false by done. rewrite Ei. cbn [expect_ok expect obind].
    change (fun c => contains_block_hash (hash b) c = false) with (fun c => cb c = false). rewrite Iw. done.
  - apply add_record_wf; [done|by eapply sub_record|done| |done]. apply Forall_forall. intros d D.
    destruct (In d D) as [[->|Hd] _]; [by exists bs1|]. pose proof (sw_chains _ _ _ W) as Ch. rewrite Forall_forall in Ch. by apply Ch.
Qed.


(** [invalidate_block] of the root of the best chain with it removes this chain. *)
Lemma invalidate_root p root s l1 c l2 b bs : StateWf p root s -> chain_set s = l1 ++ c :: l2 ->
  Forall (fun d => contains_block_hash (hash b) d = false) l2 -> ChainOf p root (b :: bs) c ->
  invalidate_block (hash b) s =
    Ok (mkState (l1 ++ l2) (add_record (height b) (b :: bs) (invalidated_blocks s)) (state_network s)) /\
  StateWf p root (mkState (l1 ++ l2) (add_record (height b) (b :: bs) (invalidated_blocks s)) (state_network s)).
Proof.
  intros W Es Fn C. pose proof (state_nonempty _ _ _ W) as Nl. set (cb := contains_block_hash (hash b)) in *.
  assert (Cc : cb c = true) by (apply (chain_contains _ _ _ _ _ C); constructor). split.
  - destruct (find_chain_Ok (E:=InvalidateError) cb s) as (o & Fo & Q). unfold invalidate_block. fold cb. rewrite Fo.
    cbn [obind]. destruct o as [c0|]; cycle 1.
    { rewrite Es, Forall_app, Forall_cons in Q. rewrite Cc in Q. by destruct Q as (_ & ? & _). }
    assert (c0 = c) as -> by exact (last_match_unique cb _ _ _ _ _ Es Cc Fn Q).
    cbn [ok_or obind]. rewrite (chain_first _ _ _ _ _ C). cbn [obind]. rewrite bool_decide_true by done.
    pose proof (sw_sorted _ _ _ W) as So. rewrite Es in *. rewrite set_remove_Ok by done. cbn [obind].
    rewrite (all_blocks_of _ _ _ _ C). done.
  - pose proof (sw_forks _ _ _ W) as Lf. pose proof (sw_chains _ _ _ W) as Ch. pose proof (sw_sorted _ _ _ W) as So.
    rewrite Es in *. assert (Sb : sublist (l1 ++ l2) (l1 ++ c :: l2)) by (apply sublist_app; [done|by constructor]).
    apply add_record_wf; [done|exact (sub_record _ _ [] _ _ _ C)|by eapply StronglySorted_sub|by eapply Forall_sub|].
    rewrite length_app in *. cbn in Lf. lia.
Qed.

Lemma invalidate_missing s h : Forall (fun d => contains_block_hash h d = false) (chain_set s) ->
  invalidate_block h s = Err (BlockNotFound h).
Proof.
  intros F. unfold invalidate_block. destruct (find_chain_Ok (E:=InvalidateError) (contains_block_hash h) s) as (o & -> & Q).
  destruct o as [c|]; [|done]. destruct Q as (Q & l1 & l2 & E & _). rewrite E, Forall_app, Forall_cons in F.
  rewrite Q in F. by destruct F as (_ & ? & _).
Qed.

(** The three cases of [invalidate_block]. *)
Lemma invalidate_cases p root s h : StateWf p root s ->
  Forall (fun d => contains_block_hash h d = false) (chain_set s) \/
  exists l1 c l2 bs1 b bs2, chain_set s = l1 ++ c :: l2 /\ Forall (fun d => contains_block_hash h d = false) l2 /\
    ChainOf p root (bs1 ++ b :: bs2) c /\ hash b = h.
Proof.
  intros W. destruct (find_chain_Ok (E:=InvalidateError) (contains_block_hash h) s) as ([c|] & _ & Q); [|by left].
  destruct Q as (Q & l1 & l2 & E & F). right. pose proof (sw_chains _ _ _ W) as Ch. rewrite Forall_forall in Ch.
  destruct (Ch c) as (bs & _ & C); [rewrite E; apply elem_of_app; right; constructor|].
  apply (chain_contains _ _ _ _ _ C) in Q. apply list_elem_of_fmap in Q as (b & -> & (bs1 & bs2 & ->)%list_elem_of_split).
  by exists l1, c, l2, bs1, b, bs2.
Qed.

(** ** Reconsidering *)

Lemma replay_push_all bs c c' : replay bs c = Ok c' <-> push_all bs c = Ok c'.
Proof.
  revert c. induction bs as [|b bs IH]; intros c; cbn [replay push_all]; [split; by intros [= ->]|].
  destruct (push b c); cbn; [apply IH|done..].
Qed.

Lemma fewer_records p root s inv : StateWf p root s -> sublist inv (invalidated_blocks s) ->
  StateWf p root (mkState (chain_set s) inv (state_network s)).
Proof.
  intros W Sb. split; cbn; try apply W.
  - eapply Forall_sub; [exact Sb|apply W].
  - eapply sublist_NoDup; [apply W|]. by apply fmap_sublist.
  - pose proof (sw_limit _ _ _ W). apply sublist_length in Sb. lia.
Qed.

Section Replay.
Context `{CA : !ChainAssumptions}.

(** The chain on which the blocks of a record are replayed. *)
Definition replay_base (fs : FinalizedState) (h parent : Hash) (s : NonFinalizedState) : outcome ReconsiderError Chain :=
  if bool_decide (parent = finalized_tip_hash fs) then
    let? tip_height := ok_or (finalized_tip_height fs) (ParentChainNotFound h) in
    expect_ok (new_chain tip_height (note_commitment_trees_for_tip fs) (db_history_tree fs) (finalized_value_pool fs))
  else map_err (fun _ => ParentChainNotFound h) (parent_chain parent s).

Lemma replay_base_Ok p root fs h parent s c : StateWf p root s -> Below p root fs -> replay_base fs h parent s = Ok c ->
  exists bs, at_tip p root bs c /\ parent = default p (hash <$> last bs).
Proof.
  intros W B. unfold replay_base. rewrite (be_hash _ _ _ B). case_bool_decide as D.
  - rewrite (be_height _ _ _ B). cbn [ok_or obind].
    destruct (chain_new (root - 1) (note_commitment_trees_for_tip fs) (db_history_tree fs) (finalized_value_pool fs)
      (be_range _ _ _ B) (be_pools _ _ _ B)) as (c0 & -> & Wc & _). cbn [expect_ok]. intros [= <-]. exists []. split; [|done].
    replace (root - 1 + 1) with root in Wc by lia. split; [|apply W]. split; [by exists (root - 1)| |done..].
    intros x. cbn. pose proof MAX_MONEY_pos. lia.
  - destruct (parent_chain_Ok _ _ parent _ W) as [(c0 & -> & bs & b & C & <-)|[-> _]]; [|done]. intros [= <-].
    exists (bs ++ [b]). rewrite last_snoc. split; [split; [done|apply W]|done].
Qed.

(** Replaying a record gives a chain with its blocks. *)
Lemma replay_wf p root bs c h rs c' : at_tip p root bs c -> record_ok (h, rs) ->
  (forall r rs', rs = r :: rs' -> previous_block_hash (block r) = default p (hash <$> last bs)) -> push_all rs c = Ok c' ->
  (exists lo, ChainWf lo root (bs ++ rs) (inner c')) /\ Forall ok_block (bs ++ rs) /\ linked p (bs ++ rs) /\ rs <> [] /\ h = root + len bs.
Proof.
  intros A (Ne & Hr & Or & [q Kr] & Mx) L P. cbn [fst snd] in *. pose proof A as [[[lo W] _ O K] _].
  destruct rs as [|r rs]; [done|]. specialize (L r rs eq_refl). pose proof Or as [(_ & Br & _) _]%Forall_cons.
  pose proof (next_height _ _ _ _ _ A Br L) as Hn. pose proof Hr as [Hh _]. rewrite Hn in Hh.
  split_and!; [|by apply Forall_app| |done|done].
  - exists lo. eapply (push_all_wf sprout_root_inj tree_root_inj history_push_returns); [exact W|by rewrite Hh| | |exact P].
    + eapply Forall_impl; [exact Or|]. by intros x (? & _).
    + rewrite length_app. cbn in *. lia.
  - apply linked_app. split; [done|]. split; [done|]. apply Kr.
Qed.

Lemma reconsider_Ok p root fs s h hs s' : StateWf p root s -> Below p root fs -> reconsider_block h fs s = Ok (hs, s') ->
  exists bs rs c c' k, (root + len bs, rs) ∈ invalidated_blocks s /\ hs = hash <$> rs /\ head hs = Some h /\
    at_tip p root bs c /\ push_all rs c = Ok c' /\
    insert_with (E:=ReconsiderError) c' (retain (fun d => let? t := tip_hash_is (default p (hash <$> last bs)) d in Ok (negb t)))
      (chain_set s) = Ok k /\
    s' = mkState k (filter (fun e => root - 1 <= e.1) (filter (fun e => e.1 <> root + len bs) (invalidated_blocks s))) (state_network s) /\
    (fits k -> StateWf p root s').
Proof.
  intros W B R. unfold reconsider_block in R. apply obind_Ok in R as ([rh rs] & Fd & R). apply ok_or_Ok in Fd.
  apply find_some in Fd as [In Hh]. apply list_elem_of_In in In. unfold first_hash_is in Hh. cbn [snd] in Hh.
  destruct rs as [|r rs]; [done|]. apply bool_decide_eq_true in Hh. cbn [head ok_or obind] in R.
  change (if bool_decide _ then _ else _) with (replay_base fs h (previous_block_hash (block r)) s) in R.
  apply obind_Ok in R as (c & Bc & R). destruct (replay_base_Ok _ _ _ _ _ _ _ W B Bc) as (bs & A & L).
  apply obind_Ok in R as (c' & Rp & R). apply replay_push_all in Rp. apply obind_Ok in R as (tip & Tp & R).
  pose proof (sw_records _ _ _ W) as Rs. rewrite Forall_forall in Rs.
  destruct (replay_wf _ _ _ _ _ _ _ A (Rs _ In) ltac:(by intros ? ? [= <- _]) Rp) as ([lo Wc] & O & K & Ne & ->).
  apply obind_Ok in R as (k & Ik & R). rewrite (be_height _ _ _ B) in R. injection R as <- <-. rewrite L in Ik.
  exists bs, (r :: rs), c, c', k. split_and!; try done; [by rewrite <- Hh|]. intros Fk.
  assert (Nc : nonempty c').
  { destruct (exists_last (l:=bs ++ r :: rs)) as (l0 & x & El); [by destruct bs|]. rewrite El in Wc. by eapply wf_nonempty. }
  assert (Wk : StateWf p root (mkState k (invalidated_blocks s) (state_network s))).
  { destruct (exists_last (l:=bs ++ r :: rs)) as (l0 & x & El); [by destruct bs|]. rewrite El in *.
    destruct (insert_with_Ok (E:=ReconsiderError) c' (fun d => negb (tip_is (default p (hash <$> last bs)) d))
      (retain (fun d => let? t := tip_hash_is (default p (hash <$> last bs)) d in Ok (negb t))) (chain_set s)) as (l & k' & Il & Ik' & Ek & _ & Lk & _);
      [done|by eapply state_nonempty|apply W|intros l Sl; eapply retain_tips_sub; [done|by eapply state_nonempty|done]|].
    rewrite Ik in Ik'. injection Ik' as <-.
    eapply (insert_wf (E:=ReconsiderError)); [exact W|exact Wc|exact O|exact K|exact Il| |done|exact Fk].
    rewrite Ek. etrans; [apply sublist_drop|apply sublist_filter]. }
  apply (fewer_records _ _ _ _ Wk). cbn. etrans; apply sublist_filter.
Qed.

(** [push] reads only the inner chain. *)
Lemma push_all_inner rs c d c' : inner c = inner d -> push_all rs c = Ok c' ->
  exists d', push_all rs d = Ok d' /\ inner d' = inner c'.
Proof.
  revert c d. induction rs as [|r rs IH]; intros c d E P; cbn [push_all] in *; [injection P as <-; by exists d|].
  apply obind_Ok in P as (c1 & P1 & P). unfold push in *. rewrite <- E. destruct (update_block r (inner c)); [|done..].
  cbn [obind] in *. injection P1 as <-. by eapply IH; [|exact P].
Qed.

(** [Chain::invalidate_block] gives back the state before the block. *)
Lemma invalidate_inner p root bs1 b bs2 lo c0 c nc : ChainOf p root (bs1 ++ b :: bs2) c -> bs1 <> [] ->
  ChainWf lo root bs1 (inner c0) -> push_all (b :: bs2) c0 = Ok c ->
  chain_invalidate_block (hash b) c = Ok (Some (nc, b :: bs2)) -> inner nc = inner c0.
Proof.
  intros C Ne W0 P I. pose proof C as [[lo' W] V O _]. rewrite cons_middle, app_assoc in W, V, O.
  apply Forall_app in O as [[_ [(Ob & _) _]%Forall_cons]%Forall_app O2]. pose proof (cw_heights _ _ _ _ W) as [[_ [Hb _]]%heights_from_app H2]%heights_from_app.
  cbn [push_all] in P. apply obind_Ok in P as (c1 & P1 & P). pose proof (cw_max _ _ _ _ W) as M.
  assert (Hm : height b <= Height.MAX) by (rewrite !length_app in M; cbn in M; lia).
  pose proof (chain_push _ _ _ _ _ _ sprout_root_inj tree_root_inj (fun ht => history_push_returns ht _) W0 Ob Hb Hm P1) as W1.
  pose proof (pop_tip_push _ _ _ _ _ _ sprout_root_inj tree_root_inj (fun ht => history_push_returns ht _) Ne W0 Ob Hb Hm
    (volumes_prefix _ _ _ _ _ W V) P1) as Pop.
  assert (Lt : (length bs2 < size (blocks (inner c)))%nat) by (rewrite (blocks_size _ _ _ _ W), !length_app; cbn; lia).
  assert (O2' : Forall block_ok bs2) by (eapply Forall_impl; [exact O2|]; by intros ? (? & _)).
  pose proof (fork_loop_exact sprout_root_inj tree_root_inj history_push_returns _ _ _ _ _ _ _ _ _ W1 H2 O2' M V P eq_refl Lt) as Fx.
  unfold chain_invalidate_block, fork in I. destruct (height_by_hash (inner c) !! hash b); [|done].
  destruct (fork_loop _ _ _) as [f| |]; [|done..]. cbn in Fx. injection Fx as Fx. cbn [obind] in I.
  destruct f as [i ff], c1 as [i1 f1]. cbn in Fx. subst i1. rewrite pop_tip_inner in Pop, I.
  destruct (pop_tip (mkChain i None)) as [d| |]; [|done..]. cbn [obind] in *. injection Pop as <-. injection I as <- _. done.
Qed.
End Replay.
End Headers.
End Sets.
