(* ===== verification/StateTheorems.v ===== *)
(** * What the non-finalized state promises

    The properties of [NonFinalizedState]: its invariant, the choice of the best
    chain, what finalizing, invalidating and reconsidering do, and a concrete
    state on which they are applied. *)

From stdpp Require Import sorting.
From S2P Require Import Prelude Amounts ValueBalances Difficulty Networks Subsidies AuxMerkle BlockMerkle NoteTrees ChainIndexes.
From S2P Require Import NonFinalizedChain ChainInvariant ChainTheorems TransactionValues SpendChecks ContextualTheorems NonFinalizedState ChainSetTheorems.

Section Promises.
Context `{CB : ConsensusBuild} `{CC : Subsidy.ChainConstants} `{HS : Hashes} `{CO : ChainOps} `{HO : !HashOrder} `{CA : !ChainAssumptions}.
Context (header_of : Hash -> HeaderInfo) (isr : list byte -> bool) (lockbox : Amount.Amount NonNegative).
Implicit Types (bs : list ContextuallyVerifiedBlock) (b : ContextuallyVerifiedBlock) (c d : Chain) (l : list Chain) (s : NonFinalizedState).
Notation StateWf := (StateWf header_of).
Notation ChainOf := (ChainOf header_of).
Notation PreparedOk := (PreparedOk header_of).
Notation len bs := (Z.of_nat (length bs)).

Lemma new_state_wf {E} wc network p root s : new_state (E:=E) wc network = Ok s -> hi_height (header_of p) = root - 1 -> StateWf p root s.
Proof.
  intros N Hp. unfold new_state in N. outcome_inv. split; cbn; first [done | lia | constructor].
Qed.

(** A non-empty state has a best chain, with a root. *)
Lemma best_split p root s : StateWf p root s -> chain_set s <> [] ->
  exists l c b bs, chain_set s = l ++ [c] /\ best_chain s = Some c /\ ChainOf p root (b :: bs) c.
Proof.
  intros W Ne. destruct (exists_last Ne) as (l & c & E). pose proof (sw_chains _ _ _ _ W) as Ch. rewrite E in Ch.
  apply Forall_app in Ch as [_ [(bs & Nb & C) _]%Forall_cons]. destruct bs as [|b bs]; [done|].
  exists l, c, b, bs. split; [done|]. split; [|done]. unfold best_chain, chain_iter. by rewrite E, reverse_snoc.
Qed.

Lemma best_last s : best_chain s = last (chain_set s).
Proof. unfold best_chain, chain_iter. by rewrite head_reverse. Qed.


(** C7: the best chain is the one with the most work.  Every other chain has less
    work, or the same work and a lower tip hash; no two chains of the set have the
    same tip; and a commit never lowers the work of the best chain. *)
Theorem best_chain_most_work p root s : StateWf p root s ->
  (forall c d, best_chain s = Some c -> d ∈ chain_set s -> d = c \/ chain_lt d c) /\
  (forall i j c d, chain_set s !! i = Some c -> chain_set s !! j = Some d -> tip_key c = tip_key d -> i = j) /\
  (forall fs sv s' c, Below p root fs -> PreparedOk fs sv -> commit_prepared isr lockbox sv fs s = Ok s' ->
     fits (chain_set s') -> best_chain s = Some c -> exists c', best_chain s' = Some c' /\ work c <= work c').
Proof.
  intros W. assert (Mx : forall s c d, StronglySorted chain_lt (chain_set s) -> best_chain s = Some c -> d ∈ chain_set s -> d = c \/ chain_lt d c).
  { intros s0 c d S B Hd. rewrite best_last in B. apply last_Some in B as [l E]. rewrite E in S, Hd.
    apply elem_of_app in Hd as [Hd|Hd%list_elem_of_singleton]; [right|by left].
    eapply StronglySorted_app_1_elem_of; [exact S|done|constructor]. }
  split; [intros c d; by apply Mx, W|]. split.
  - intros i j c d Li Lj K. pose proof (sw_chains _ _ _ _ W) as Ch. rewrite Forall_lookup in Ch.
    destruct (Ch _ _ Li) as (bs & Ne & C). destruct (Ch _ _ Lj) as (bs' & Ne' & D).
    assert (R : same_rank c d).
    { apply (same_tip_rank _ _ _ _ _ _ _ C D Ne Ne'). destruct bs as [|b bs0 _] using rev_ind; [done|].
      destruct bs' as [|b' bs0' _] using rev_ind; [done|]. rewrite !last_snoc. cbn.
      destruct (chain_tip _ _ _ _ _ _ C) as (_ & Kc & _), (chain_tip _ _ _ _ _ _ D) as (_ & Kd & _).
      rewrite Kc, Kd in K. by apply hash_key_inj in K as ->. }
    exact (sorted_rank_unique _ _ _ _ _ (sw_sorted _ _ _ _ W) Li Lj R).
  - intros fs sv s' c B P Cm F Bc. pose proof Bc as Bc'. rewrite best_last in Bc'. apply last_Some_elem_of in Bc'.
    destruct (commit_work _ _ _ _ _ _ _ _ _ _ W B P Cm Bc') as (d & Hd & Wd).
    destruct (chain_set s') as [|x l'] eqn:Es; [by apply elem_of_nil in Hd|]. rewrite <- Es in *.
    pose proof (commit_wf _ _ _ _ _ _ _ _ _ W B P Cm F) as W'. destruct (best_split _ _ _ W') as (l & c' & _ & _ & _ & Bs & _); [by rewrite Es|].
    exists c'. split; [done|]. destruct (Mx _ _ _ (sw_sorted _ _ _ _ W') Bs Hd) as [->|Lt]; [done|]. unfold chain_lt in Lt. lia.
Qed.

(** C33: finalizing takes the lowest block of the best chain.  On a state with a
    chain it returns the root of the best chain with its treestate; every chain on
    this block stays without it, unless it had no other block, in the same order,
    and the other chains are dropped; so the best chain stays the best one while it
    has a block left. *)
Theorem finalize_takes_best_root p root s c b bs : StateWf p root s -> best_chain s = Some c -> ChainOf p root (b :: bs) c ->
  exists ts s', finalize s = Ok (b, ts, s') /\ treestate root (trees (inner c)) = Some ts /\
    chain_set s' = omap (after_root b) (chain_set s) /\
    (forall d d', d ∈ chain_set s -> after_root b d = Some d' ->
       exists r rs, ChainOf p root (r :: rs) d /\ hash r = hash b /\ ChainOf (hash b) (root + 1) rs d') /\
    (bs <> [] -> exists c', best_chain s' = Some c' /\ after_root b c = Some c' /\ ChainOf (hash b) (root + 1) bs c').
Proof.
  intros W Bc C. rewrite best_last in Bc. apply last_Some in Bc as [l E].
  destruct (finalize_Ok _ _ _ _ _ _ _ _ W E C) as (ts & s' & Ef & T & Es & _ & W'). exists ts, s'. split; [done|]. split; [done|].
  split; [done|]. pose proof (sw_chains _ _ _ _ W) as Ch. split.
  - intros d d' Hd A. rewrite Forall_forall in Ch. destruct (after_root_Some _ _ _ _ _ _ (Ch d Hd) A) as (r & rs & D & Er & _ & D' & _).
    by exists r, rs.
  - intros Ne. destruct (chain_root _ _ _ _ _ _ C) as (ts' & c' & P & _ & M). destruct bs as [|b1 bs]; [done|].
    exists c'. assert (A : after_root b c = Some c').
    { unfold after_root. rewrite (chain_first _ _ _ _ _ _ C), P, bool_decide_true by done. by rewrite (is_empty_of _ _ _ _ _ M). }
    split_and!; [|done|done]. rewrite best_last, Es, E, omap_app. cbn. by rewrite A, last_snoc.
Qed.

Lemma validate_rejects c sv fs s e : e ∈ invalidated_blocks s -> sv_hash sv ∈ hash <$> e.2 ->
  validate_and_commit isr lockbox c sv fs s = Err (BlockPreviouslyInvalidated (sv_hash sv)).
Proof.
  intros He Hh. unfold validate_and_commit. destruct (existsb _ _) eqn:X; [done|]. exfalso. apply not_true_iff_false in X. apply X.
  apply existsb_exists. exists e. split; [by apply list_elem_of_In|]. destruct e as [h l]. cbn in Hh.
  apply list_elem_of_fmap in Hh as (b & Eb & Hb). apply existsb_exists. exists b. split; [by apply list_elem_of_In|]. by apply bool_decide_true.
Qed.

(** Invalidating a block above the root of its best chain removes it.  No
    chain contains the block afterwards and every chain without it stays; the
    block and its descendants in the best chain are recorded, in order; and until
    they are reconsidered or finalized, committing any of them fails: validating it
    on any chain reports that it was invalidated. *)
Theorem invalidated_block_rejected p root s l1 c l2 bs1 b bs2 : StateWf p root s -> chain_set s = l1 ++ c :: l2 ->
  Forall (fun d => contains_block_hash (hash b) d = false) l2 -> ChainOf p root (bs1 ++ b :: bs2) c -> bs1 <> [] ->
  exists s', invalidate_block (hash b) s = Ok s' /\
    Forall (fun d => contains_block_hash (hash b) d = false) (chain_set s') /\
    (forall d, d ∈ chain_set s -> contains_block_hash (hash b) d = false -> d ∈ chain_set s') /\
    (height b, b :: bs2) ∈ invalidated_blocks s' /\
    (forall sv fs, sv_hash sv ∈ hash <$> (b :: bs2) ->
       (forall d, validate_and_commit isr lockbox d sv fs s' = Err (BlockPreviouslyInvalidated (sv_hash sv))) /\
       (forall s'', commit_prepared isr lockbox sv fs s' <> Ok s'')).
Proof.
  intros W E F C Ne. destruct (invalidate_above _ _ _ _ _ _ _ _ _ _ W E F C Ne) as (nc & l' & k & _ & Cn & I & Ek & Ei & W').
  eexists. split; [exact Ei|]. cbn [chain_set invalidated_blocks]. subst k.
  assert (R : (height b, b :: bs2) ∈ add_record (height b) (b :: bs2) (invalidated_blocks s)).
  { apply index_insert_kept; [apply W|]. unfold MAX_INVALIDATED_BLOCKS. lia. }
  split_and!; [|intros d Hd Nd|done|intros sv fs Hh; split].
  - apply Forall_forall. intros d Hd. by apply list_elem_of_filter in Hd as [? _].
  - apply list_elem_of_filter. split; [done|].
    destruct (set_insert_Ok (E:=InvalidateError) nc (chain_set s)) as (l'' & I' & _ & D);
      [exact (chain_nonempty _ _ _ _ _ Cn Ne)|exact (state_nonempty _ _ _ _ W)|apply W|].
    rewrite I in I'. injection I' as <-. destruct D as [[-> _]|(_ & k1 & k2 & Es & ->)]; [done|].
    rewrite Es in Hd. rewrite elem_of_app, elem_of_cons in *. tauto.
  - intros d. by eapply validate_rejects.
  - intros s'' Cm. unfold commit_prepared, commit_new_chain, commit_block in Cm. case_bool_decide.
    + apply obind_Ok in Cm as (h & _ & Cm). apply obind_Ok in Cm as (d & _ & Cm). by erewrite validate_rejects in Cm.
    + apply obind_Ok in Cm as (d & _ & Cm). by erewrite validate_rejects in Cm.
Qed.


(** *** Reconsidering *)

(** Inserting a chain of a new rank. *)
Lemma set_insert_new {E} c l : nonempty c -> Forall nonempty l -> StronglySorted chain_lt l -> Forall (fun d => ~ same_rank c d) l ->
  exists l', set_insert (E:=E) c l = Ok l' /\ StronglySorted chain_lt l' /\ l' ≡ₚ c :: l.
Proof.
  intros Nc Nl S F. destruct (set_insert_Ok (E:=E) c l Nc Nl S) as (l' & I & S' & D). exists l'. split; [done|]. split; [done|].
  destruct D as [[_ X]|(_ & l1 & l2 & -> & ->)]; [|symmetry; apply Permutation_middle].
  apply Exists_exists in X as (d & Hd & R). rewrite Forall_forall in F. by destruct (F d Hd).
Qed.

Lemma sorted_perm_eq l k : StronglySorted chain_lt l -> StronglySorted chain_lt k -> l ≡ₚ k -> l = k.
Proof. apply StronglySorted_unique. intros x y Lx Ly. unfold chain_lt in *. lia. Qed.

(** The set without the best chain that contains a block, when it is the only one. *)
Lemma filter_others (q : Chain -> bool) l1 c l2 nc l' : q c = true -> q nc = false -> Forall (fun d => q d = false) (l1 ++ l2) ->
  l' ≡ₚ nc :: l1 ++ c :: l2 -> filter (fun d => q d = false) l' ≡ₚ nc :: l1 ++ l2.
Proof.
  intros Qc Qn F P. rewrite P, <- Permutation_middle, filter_cons_True, filter_cons_False by congruence.
  by rewrite filter_keeps_all.
Qed.

Lemma tips_differ h c d : nonempty d -> tip_is h c = true -> tip_is h d = false -> ~ same_rank c d.
Proof.
  intros [t T] Tc Td [_ K]. unfold tip_is, tip_key in *. rewrite T in *. destruct (tip_block (inner c)) as [u|]; [|done].
  apply hash_key_inj in K. rewrite K, Td in Tc. done.
Qed.

Lemma find_unique {A} (q : A -> bool) (x : A) (xs : list A) : x ∈ xs -> q x = true -> (forall y, y ∈ xs -> q y = true -> y = x) -> List.find q xs = Some x.
Proof.
  intros Hx Qx U. pose proof (find_split q xs) as F. destruct (List.find q xs) as [y|].
  - destruct F as (Qy & l1 & l2 & -> & _). rewrite (U y); [done| |done]. apply elem_of_app. right. constructor.
  - rewrite Forall_forall in F. by rewrite (F x Hx) in Qx.
Qed.

Lemma index_insert_fresh {V} k (v : V) m : k ∉ m.*1 -> index_insert k v m = m ++ [(k, v)].
Proof.
  induction m as [|[k' v'] m IH]; [done|]. cbn. intros [N N']%not_elem_of_cons. destruct (Z.eqb_spec k' k); [congruence|]. by rewrite IH.
Qed.

(** The parent of a block above the root of a chain. *)
Lemma parent_of p root bs1 b bs2 c : ChainOf p root (bs1 ++ b :: bs2) c -> bs1 <> [] -> hi_height (header_of p) = root - 1 ->
  Some (previous_block_hash (block b)) = hash <$> last bs1 /\ previous_block_hash (block b) <> p /\
  tip_is (previous_block_hash (block b)) c = false.
Proof.
  intros C Ne Hp. pose proof C as [[lo W] _ O K]. apply (linked_app header_of) in K as (_ & L & _).
  destruct bs1 as [|t bs0 _] using rev_ind; [done|]. rewrite last_snoc in *. cbn in L. split; [by rewrite L|]. split.
  - rewrite L. intros <-. apply Forall_app in O as [[_ [(_ & [Bt _] & _) _]%Forall_cons]%Forall_app _]. rewrite Bt in Hp. cbn in Hp.
    pose proof (cw_heights _ _ _ _ W) as [[_ [Ht _]]%heights_from_app _]%heights_from_app. lia.
  - apply not_true_is_false. rewrite (tip_is_last _ _ _ _ _ _ C) by (by destruct bs0). intros X.
    destruct (exists_last (l:=b :: bs2) ltac:(done)) as (l0 & x & El). rewrite El, app_assoc, last_snoc in X. injection X as X.
    rewrite L in X. rewrite El, <- app_assoc in W. cbn in W.
    assert (length bs0 = length (bs0 ++ t :: l0)); [|rewrite length_app in *; cbn in *; lia].
    eapply (hashes_distinct _ _ _ _ t x); [exact W|by apply list_lookup_middle| |by rewrite X].
    rewrite app_comm_cons, app_assoc. by apply list_lookup_middle.
Qed.

(** Invalidating a block that only one chain contains: the set has the chain below
    the block instead. *)
Lemma invalidate_only p root s l1 c l2 bs1 b bs2 lo c0 : StateWf p root s -> chain_set s = l1 ++ c :: l2 ->
  ChainOf p root (bs1 ++ b :: bs2) c -> bs1 <> [] -> ChainWf lo root bs1 (inner c0) -> push_all (b :: bs2) c0 = Ok c ->
  Forall (fun d => contains_block_hash (hash b) d = false /\ tip_is (previous_block_hash (block b)) d = false) (l1 ++ l2) ->
  exists nc k, inner nc = inner c0 /\ ChainOf p root bs1 nc /\ k ≡ₚ nc :: l1 ++ l2 /\
    invalidate_block (hash b) s = Ok (mkState k (add_record (height b) (b :: bs2) (invalidated_blocks s)) (state_network s)) /\
    StateWf p root (mkState k (add_record (height b) (b :: bs2) (invalidated_blocks s)) (state_network s)).
Proof.
  intros W E C Ne W0 P F. apply Forall_and in F as [Fb Ft]. pose proof Fb as [_ F2]%Forall_app.
  destruct (invalidate_above _ _ _ _ _ _ _ _ _ _ W E F2 C Ne) as (nc & l' & k & Ec & Cn & I & Ek & Ei & W').
  exists nc, k. destruct (parent_of _ _ _ _ _ _ C Ne (sw_tip _ _ _ _ W)) as (L & _ & Tc).
  assert (Tn : tip_is (previous_block_hash (block b)) nc = true) by by apply (tip_is_last _ _ _ _ _ _ Cn Ne).
  split; [exact (invalidate_inner _ _ _ _ _ _ _ _ _ _ C Ne W0 P Ec)|]. split; [done|]. split; [|done].
  destruct (set_insert_new (E:=InvalidateError) nc (chain_set s)) as (l'' & I' & _ & Pm).
  - exact (chain_nonempty _ _ _ _ _ Cn Ne).
  - exact (state_nonempty _ _ _ _ W).
  - apply W.
  - pose proof (state_nonempty _ _ _ _ W) as Ns. rewrite E in Ns |- *. rewrite Forall_forall in Ns. apply Forall_forall. intros d Hd.
    apply (tips_differ (previous_block_hash (block b))); [by apply Ns|done|]. rewrite Forall_forall in Ft.
    apply elem_of_app in Hd as [Hd|[->|Hd]%elem_of_cons]; [apply Ft; set_solver|done|apply Ft; set_solver].
  - rewrite I in I'. injection I' as <-. rewrite Ek. rewrite E in Pm. eapply filter_others; [| |exact Fb|exact Pm].
    + apply (chain_contains _ _ _ _ _ _ C). rewrite fmap_app. apply elem_of_app. right. constructor.
    + apply not_true_is_false. rewrite (chain_contains _ _ _ _ _ _ Cn). intros (x & Ex & Hx)%list_elem_of_fmap.
      pose proof C as [[lo' W1] _ _ _]. apply list_elem_of_lookup in Hx as [i Hi]. pose proof (lookup_lt_Some _ _ _ Hi).
      assert (i = length bs1); [|lia]. eapply (hashes_distinct _ _ _ _ x b); [exact W1| |by apply list_lookup_middle|done].
      by rewrite lookup_app_l.
Qed.

(** The record of the block is the one that is found. *)
Lemma find_record p root s b bs : StateWf p root s -> ok_block header_of b -> Forall (fun e => e.1 <> height b) (invalidated_blocks s) ->
  List.find (first_hash_is (hash b)) (invalidated_blocks s ++ [(height b, b :: bs)]) = Some (height b, b :: bs).
Proof.
  intros W Ob F. apply find_unique.
  - apply elem_of_app. right. constructor.
  - by apply bool_decide_true.
  - intros e [He|He%list_elem_of_singleton]%elem_of_app Q; [|done]. exfalso. pose proof (sw_records _ _ _ _ W) as R.
    rewrite Forall_forall in F, R. destruct e as [h rs]. specialize (F _ He). destruct (R _ He) as (_ & Hr & Or & _). cbn in *.
    unfold first_hash_is in Q. cbn in Q. destruct rs as [|r rs]; [done|]. apply bool_decide_eq_true in Q. destruct Hr as [Hh _].
    apply Forall_cons in Or as [(_ & [Br _] & _) _]. destruct Ob as (_ & [Bb _] & _). rewrite Q, Bb in Br. injection Br as Eh _ _. congruence.
Qed.

(** The parent chain is the one whose tip is the parent, when it is the only one. *)
Lemma parent_chain_tip p root s h nc : StateWf p root s -> nc ∈ chain_set s -> tip_is h nc = true ->
  (forall d, d ∈ chain_set s -> tip_is h d = true -> d = nc) -> parent_chain h s = Ok nc.
Proof.
  intros W Hn Tn U. pose proof (state_nonempty _ _ _ _ W) as Ns. rewrite Forall_forall in Ns.
  unfold parent_chain, find_chain, chain_iter. rewrite (find_first_Ok _ (tip_is h)).
  - cbn [obind]. rewrite (find_unique _ nc); [done|by apply elem_of_reverse|done|]. intros d Hd. apply U. by apply elem_of_reverse.
  - intros d Hd. apply tip_hash_is_Ok, Ns. by apply elem_of_reverse.
Qed.

(** The restored chain takes the place of the invalidated one. *)
Lemma reinsert {E} l1 c l2 nc c2 k h : StronglySorted chain_lt (l1 ++ c :: l2) -> Forall nonempty (l1 ++ c :: l2) ->
  (length (l1 ++ c :: l2) <= MAX_NON_FINALIZED_CHAIN_FORKS)%nat -> StronglySorted chain_lt k -> k ≡ₚ nc :: l1 ++ l2 ->
  inner c2 = inner c -> nonempty nc -> tip_is h nc = true -> tip_is h c = false -> Forall (fun d => tip_is h d = false) (l1 ++ l2) ->
  insert_with (E:=E) c2 (retain (fun d => let? t := tip_hash_is h d in Ok (negb t))) k = Ok (l1 ++ c2 :: l2).
Proof.
  intros S N Len Sk Pk Ei Nn Tn Tc Fo. pose proof N as [N1 [Nc N2]%Forall_cons]%Forall_app.
  assert (R2 : same_rank c2 c /\ nonempty c2 /\ tip_is h c2 = false)
    by (unfold same_rank, work, tip_key, nonempty, tip_is in *; by rewrite Ei).
  destruct R2 as ([Rw Rk] & Nc2 & T2).
  assert (Nk : Forall nonempty k) by (rewrite Pk; constructor; [done|by apply Forall_app]).
  destruct (set_insert_new (E:=E) c2 k) as (l' & I & Sl & Pl); [done..| |].
  { rewrite Pk. constructor; [intros [? ?]; apply (tips_differ h nc c2); [done..|by split]|].
    apply StronglySorted_app in S as (Lx & S1 & [S2 _]%StronglySorted_cons). apply Forall_app. split; apply Forall_forall; intros d Hd [? ?].
    - assert (chain_lt d c) by (apply Lx; [done|constructor]). unfold chain_lt in *. lia.
    - rewrite Forall_forall in S2. specialize (S2 d Hd). unfold chain_lt in *. lia. }
  unfold insert_with. rewrite I. cbn [obind]. rewrite retain_tips by (rewrite Pl; by constructor). cbn [obind].
  assert (Ef : filter (fun d => negb (tip_is h d) = true) l' = l1 ++ c2 :: l2).
  { apply sorted_perm_eq; [eapply StronglySorted_sub; [apply sublist_filter|done]| |].
    - apply StronglySorted_app in S as (Lx & S1 & [S2 S3]%StronglySorted_cons). apply StronglySorted_app. split; [|split; [done|apply StronglySorted_cons; split; [|done]]].
      + intros x y Hx [->|Hy]%elem_of_cons; [|apply Lx; [done|by constructor]].
        assert (chain_lt x c) by (apply Lx; [done|constructor]). unfold chain_lt in *. lia.
      + eapply Forall_impl; [exact S2|]. intros x ?. unfold chain_lt in *. lia.
    - rewrite Pl, Pk, filter_cons_True, filter_cons_False by (rewrite ?T2, ?Tn; done).
      rewrite filter_keeps_all; [apply Permutation_middle|]. eapply Forall_impl; [exact Fo|]. by intros x ->. }
  rewrite Ef. rewrite length_app in *. cbn [length] in *. by replace (_ - _)%nat with 0%nat by lia.
Qed.

End Promises.

(** ** A concrete state *)

#[local] Existing Instance example_build.
#[local] Existing Instance example_types.
#[local] Existing Instance example_ops.
#[local] Existing Instance example_assumptions.
#[local] Existing Instance example_hashes.
#[local] Instance example_constants : Subsidy.ChainConstants :=
  {| Subsidy.MAINNET_FUNDING_STREAMS := []; Subsidy.REGTEST_GENESIS_HASH := []; Subsidy.is_default_testnet _ := false |}.
#[local] Instance example_order : HashOrder (CT := example_types).
Proof. refine {| hash_key := (fun h : Z => h) : @Hash example_types -> Z |}. Defined.

(** A second block of height two, and the headers of the hashes. *)
Definition example_x2 : ContextuallyVerifiedBlock :=
  mkContextual (mkBlock 101 [] 0x1f07ffff (Some 2) [example_coinbase] 1000) 202 2
    {[(41, 0) := example_utxo 50 7 2 0]} ∅ [41] no_change.
Definition example_header (h : @Hash example_types) : HeaderInfo :=
  if h =? 202 then mkHeader 2 101 0x1f07ffff else mkHeader (h - 100) (h - 1) 0x1f07ffff.

Definition example_chain (bs : list ContextuallyVerifiedBlock) : Chain :=
  match push_all bs example_start with Ok c => c | _ => example_start end.
Definition example_state : NonFinalizedState :=
  mkState [example_chain [example_b1; example_x2]; example_chain [example_b1; example_b2; example_b3]] [] Network.Mainnet.

Lemma example_chain_ok bs : is_ok (push_all bs example_start) = true -> push_all bs example_start = Ok (example_chain bs).
Proof. unfold example_chain. by destruct (push_all bs example_start). Qed.

(** A block whose outputs are small amounts at low heights. *)
Definition small_utxo (u : OrderedUtxo (Script:=Z)) : bool :=
  (0 <=? Amount.zatoshis (value (output (utxo u)))) && (Amount.zatoshis (value (output (utxo u))) <=? 100) &&
  (0 <=? tx_index_in_block u) && (tx_index_in_block u <=? 100) && (0 <=? utxo_height (utxo u)) && (utxo_height (utxo u) <=? 100).
Definition small_utxos (m : gmap (Z * Z) (OrderedUtxo (Script:=Z))) : bool := forallb small_utxo (map_to_list m).*2.

Lemma small_utxos_ok m : small_utxos m = true -> map_Forall (fun _ u => read_ok u) m.
Proof.
  intros F k u L. unfold small_utxos in F. rewrite forallb_forall in F. specialize (F u). assert (In : List.In u (map_to_list m).*2).
  { apply list_elem_of_In, list_elem_of_fmap. exists (k, u). split; [done|]. by apply elem_of_map_to_list. }
  specialize (F In). unfold small_utxo in F. rewrite !andb_true_iff, !Z.leb_le in F.
  assert (M : MAX_MONEY = 4611686018427387903) by by vm_compute.
  assert (H : Height.MAX - MIN_TRANSPARENT_COINBASE_MATURITY = 2147483547) by by vm_compute.
  unfold read_ok, utxo_ok, Amount.valid. cbn [Amount.valid_range fst snd]. rewrite M, H. unfold U16_MAX. destruct_and!. split_and!; (done || (etransitivity; [eassumption|done])).
Qed.

Lemma example_block_ok b : small_utxos (new_outputs b) = true -> small_utxos (spent_outputs b) = true ->
  coinbase_height (block b) = Some (height b) -> chain_value_pool_change b = no_change -> bound example_header b -> ok_block example_header b.
Proof.
  intros Sn Ss Hc Hv Hb. apply small_utxos_ok in Sn, Ss. split; [|by split]. split; [|split; [exact Hc|]].
  - split; [eapply map_Forall_impl; [exact Sn|]|eapply map_Forall_impl; [exact Ss|]]; by intros ? ? [? _].
  - rewrite Hv. by vm_compute; repeat split.
Qed.

Lemma example_all_ok : Forall (ok_block example_header) [example_b1; example_b2; example_b3; example_x2].
Proof.
  do 4 (apply Forall_cons; split; [apply example_block_ok; [vm_compute; reflexivity|vm_compute; reflexivity|reflexivity|reflexivity|split; reflexivity]|]). by apply Forall_nil.
Qed.

Lemma example_ChainOf bs : bs = [example_b1; example_x2] \/ bs = [example_b1; example_b2; example_b3] ->
  ChainOf example_header 100 1 bs (example_chain bs).
Proof.
  intros D. pose proof example_all_ok as A. rewrite !Forall_cons in A. destruct A as (O1 & O2 & O3 & Ox & _).
  assert (O : Forall (ok_block example_header) bs) by (destruct D as [-> | ->]; rewrite !Forall_cons; repeat (split; [assumption|]); by apply Forall_nil).
  assert (P : push_all bs example_start = Ok (example_chain bs)) by (apply example_chain_ok; destruct D as [-> | ->]; vm_compute; reflexivity).
  assert (H : heights_from 1 bs) by (destruct D as [-> | ->]; vm_compute; repeat split).
  assert (M : 1 + Z.of_nat (length ([] ++ bs)) - 1 <= Height.MAX) by (destruct D as [-> | ->]; vm_compute; congruence).
  assert (Ob : Forall block_ok bs) by (eapply Forall_impl; [exact O|]; by intros ? (? & _)).
  split; [|destruct D as [-> | ->]; intros a; (etransitivity; [apply volumes_of_total; by vm_compute|by vm_compute])|exact O|destruct D as [-> | ->]; vm_compute; repeat split].
  exists 0. exact (push_all_wf sprout_root_inj tree_root_inj history_push_returns 0 1 [] _ _ _ example_start_wf H Ob M P).
Qed.

Lemma example_below : Below 100 1 example_finalized.
Proof. split; [reflexivity|reflexivity|by vm_compute|split; [by vm_compute; repeat split|by vm_compute]]. Qed.

Lemma example_work : work (example_chain [example_b1; example_x2]) < work (example_chain [example_b1; example_b2; example_b3]).
Proof. vm_compute. reflexivity. Qed.

Lemma example_state_wf : StateWf example_header 100 1 example_state.
Proof.
  pose proof example_work as Lt. split; cbn [chain_set invalidated_blocks example_state].
  - reflexivity.
  - apply StronglySorted_cons. split; [apply Forall_singleton; by left|]. apply StronglySorted_cons. split; [by apply Forall_nil|constructor].
  - apply Forall_cons. split; [exists [example_b1; example_x2]; split; [congruence|apply example_ChainOf; by left]|]. apply Forall_singleton.
    exists [example_b1; example_b2; example_b3]. split; [congruence|apply example_ChainOf; by right].
  - cbn. unfold MAX_NON_FINALIZED_CHAIN_FORKS. lia.
  - by apply Forall_nil.
  - constructor.
  - cbn. lia.
Qed.

(** The next block of the best chain. *)
Definition example_sv : SemanticallyVerifiedBlock :=
  mkSemantic (mkBlock (103 : @Hash example_types) (replicate 32 Byte.x00) 0x1f07ffff (Some 4) [example_coinbase] 1000) (104 : @Hash example_types) 4
    {[(51, 0) := example_utxo 50 7 4 0]} [51].

Lemma example_sv_ok : PreparedOk example_header example_finalized example_sv.
Proof.
  split; [reflexivity|by vm_compute|reflexivity|reflexivity| | |by intros].
  - apply Forall_singleton, Forall_singleton. by vm_compute.
  - apply small_utxos_ok. vm_compute. reflexivity.
Qed.

Definition example_commit : outcome ValidateContextError NonFinalizedState :=
  commit_prepared (fun _ => true) (Amount.mk 0) example_sv example_finalized example_state.

(** The tips of the chains, from the lowest. *)
Definition state_tips (s : NonFinalizedState) : list (option (@Hash example_types)) := (fun c => hash <$> tip_block (inner c)) <$> chain_set s.

Lemma example_commit_ok : exists s', commit_prepared (fun _ => true) (Amount.mk 0) example_sv example_finalized example_state = Ok s' /\
  fits (chain_set s') /\ state_tips s' = [Some 202; Some 104].
Proof.
  destruct (is_ok_true example_commit) as [s' E]; [vm_compute; reflexivity|]. exists s'. split; [exact E|].
  assert (T : match example_commit with
              | Ok s => forallb (fun es => forallb (fun e => 0 <=? transfer_amount e.2) es && (volume es.*2 <=? 1000))
                          ((fun c => ((all_blocks (inner c)) ≫= located) ≫= l_transfers) <$> chain_set s) &&
                        bool_decide (state_tips s = [Some 202; Some 104])
              | _ => false
              end = true) by (vm_compute; reflexivity).
  rewrite E in T. apply andb_true_iff in T as [T1 T2]. apply bool_decide_eq_true in T2. split; [|exact T2].
  rewrite forallb_forall in T1. apply Forall_forall. intros c Hc a.
  specialize (T1 (((all_blocks (inner c)) ≫= located) ≫= l_transfers)). 
  assert (In : List.In (((all_blocks (inner c)) ≫= located) ≫= l_transfers) ((fun c => ((all_blocks (inner c)) ≫= located) ≫= l_transfers) <$> chain_set s'))
    by (apply list_elem_of_In, list_elem_of_fmap; exists c; split; [reflexivity|exact Hc]).
  specialize (T1 In). apply andb_true_iff in T1 as [T1 T3]. apply Z.leb_le in T3.
  etransitivity; [apply volumes_of_total; exact T1|]. etransitivity; [exact T3|by vm_compute].
Qed.


Lemma best_chain_most_work_witness : exists s' c', commit_prepared (fun _ => true) (Amount.mk 0) example_sv example_finalized example_state = Ok s' /\
  best_chain s' = Some c' /\ work (example_chain [example_b1; example_b2; example_b3]) <= work c'.
Proof.
  destruct example_commit_ok as (s' & E & F & _).
  destruct (best_chain_most_work example_header (fun _ => true) (Amount.mk 0) 100 1 example_state example_state_wf) as (_ & _ & Bw).
  destruct (Bw _ _ _ (example_chain [example_b1; example_b2; example_b3]) example_below example_sv_ok E F) as (c' & B & W); [reflexivity|].
  exists s', c'. split; [exact E|]. split; [exact B|exact W].
Defined.

Lemma finalize_takes_best_root_witness : exists ts s' c', finalize example_state = Ok (example_b1, ts, s') /\
  best_chain s' = Some c' /\ ChainOf example_header 101 2 [example_b2; example_b3] c'.
Proof.
  destruct (finalize_takes_best_root example_header 100 1 example_state (example_chain [example_b1; example_b2; example_b3]) example_b1
    [example_b2; example_b3] example_state_wf eq_refl) as (ts & s' & Ef & _ & _ & _ & Bc); [apply example_ChainOf; right; reflexivity|].
  destruct Bc as (c' & B & _ & C); [congruence|]. exists ts, s', c'. split; [exact Ef|]. split; [exact B|exact C].
Defined.

Lemma invalidated_block_rejected_witness : exists s', invalidate_block 102 example_state = Ok s' /\
  Forall (fun d => contains_block_hash 102 d = false) (chain_set s') /\ (2, [example_b2; example_b3]) ∈ invalidated_blocks s'.
Proof.
  destruct (invalidated_block_rejected example_header (fun _ => true) (Amount.mk 0) 100 1 example_state [example_chain [example_b1; example_x2]]
    (example_chain [example_b1; example_b2; example_b3]) [] [example_b1] example_b2 [example_b3] example_state_wf eq_refl)
    as (s' & Ei & Fn & _ & R & _); [by apply Forall_nil|apply example_ChainOf; right; reflexivity|congruence|].
  exists s'. split; [exact Ei|]. split; [exact Fn|exact R].
Defined.


