(* ===== verification/Checkpoints.v ===== *)
(** * Checkpoint lists and the checkpoint verifier

    [zebra-chain/src/parameters/checkpoint/list.rs],
    [zebra-consensus/src/checkpoint/types.rs] and
    [zebra-consensus/src/checkpoint.rs].  The verifier queues blocks by height
    and, when its queue reaches from the last verified checkpoint to another one,
    checks the chain of hashes backwards from that checkpoint.  A [BTreeMap] from
    heights is a [gmap Z] whose keys are iterated in order.  A oneshot channel is
    a number, and [outbox] is what was sent on the channels, oldest first.
    Metrics, traces and progress bars are left out, except where they can
    panic. *)

From stdpp Require Import sorting.
From S2P Require Import Prelude Networks Difficulty AuxMerkle AuxProof AuxCoinbase BlockChecks BlockMerkle.

Import NetworkUpgrade Network BlockCheck.

(** ** Ranges of a [BTreeMap] *)

Definition keys {V} (m : gmap Z V) : list Z := merge_sort Z.le (map_to_list m).*1.

(** [std::ops::Bound]. *)
Inductive Bound := Included (h : Z) | Excluded (h : Z) | Unbounded.
Definition above (b : Bound) (k : Z) : bool :=
  match b with Included h => h <=? k | Excluded h => h <? k | Unbounded => true end.
Definition below (b : Bound) (k : Z) : bool :=
  match b with Included h => k <=? h | Excluded h => k <? h | Unbounded => true end.

(** The ranges on which [BTreeMap::range] panics. *)
Definition bad_range (range : Bound * Bound) : bool :=
  match range with
  | (Excluded a, Excluded b) => b <=? a
  | (Included a, Included b) | (Included a, Excluded b) | (Excluded a, Included b) => b <? a
  | (Unbounded, _) | (_, Unbounded) => false
  end.
Definition range {E V} (r : Bound * Bound) (m : gmap Z V) : outcome E (list Z) :=
  do? assert_that (negb (bad_range r)) in
  Ok (List.filter (fun k => above r.1 k && below r.2 k) (keys m)).

(** ** [CheckpointList] *)

Notation BlockHash := (list byte) (only parsing).
Notation CheckpointList := (gmap Z BlockHash) (only parsing).

Inductive ListError :=
| NotFromGenesis
| NoCheckpoints
| DuplicateHeights
| DuplicateHashes
| NullHash
| HeightAboveMax.

Definition NULL_HASH : BlockHash := replicate 32 Byte.x00.

Definition contains (self : CheckpointList) (height : Z) : bool := bool_decide (is_Some (self !! height)).
Definition hash_at (self : CheckpointList) (height : Z) : option BlockHash := self !! height.
Definition max_height_in_range {E} (self : CheckpointList) (r : Bound * Bound) : outcome E (option Z) :=
  let? heights := range r self in Ok (last heights).
Definition min_height_in_range {E} (self : CheckpointList) (r : Bound * Bound) : outcome E (option Z) :=
  let? heights := range r self in Ok (head heights).
Definition max_height {E} (self : CheckpointList) : outcome E Z :=
  let? height := max_height_in_range self (Unbounded, Unbounded) in expect height.

(** [keys().rposition(|key| key <= height)]. *)
Definition prev_checkpoint_index {E} (self : CheckpointList) (height : Z) : outcome E Z :=
  let n := length (List.filter (fun k => k <=? height) (keys self)) in
  if (n =? 0)%nat then Panic else Ok (Z.of_nat n - 1).

(** Collecting into a [BTreeMap], which keeps the last hash of a height. *)
Definition collect (list : list (Z * BlockHash)) (m : CheckpointList) : CheckpointList :=
  foldl (fun m '(h, x) => <[h := x]> m) m list.

(** [CheckpointList::from_list]. *)
Definition from_list (list : list (Z * BlockHash)) : outcome ListError CheckpointList :=
  let original_len := length list in
  let checkpoints := collect list ∅ in
  do? match head (keys checkpoints) with
      | Some h => require (h =? 0) NotFromGenesis
      | None => Err NoCheckpoints
      end in
  do? require (size checkpoints =? original_len)%nat DuplicateHeights in
  let block_hashes := remove_dups (map_to_list checkpoints).*2 in
  do? require (length block_hashes =? original_len)%nat DuplicateHashes in
  do? require (negb (bool_decide (NULL_HASH ∈ block_hashes))) NullHash in
  let? max := max_height checkpoints in
  do? require (negb (max >? Height.MAX)) HeightAboveMax in
  Ok checkpoints.

(** ** [Progress] and [TargetHeight] *)

Inductive Progress (HeightOrHash : Type) :=
| BeforeGenesis
| InitialTip (h : HeightOrHash)
| PreviousCheckpoint (h : HeightOrHash)
| FinalCheckpoint.
Arguments BeforeGenesis {_}.
Arguments InitialTip {_} h.
Arguments PreviousCheckpoint {_} h.
Arguments FinalCheckpoint {_}.

#[global] Instance Progress_eq_dec `{EqDecision A} : EqDecision (Progress A).
Proof. solve_decision. Defined.

(** [Ord for Progress<block::Height>]. *)
Definition progress_cmp (self other : Progress Z) : comparison :=
  if decide (self = other) then Eq
  else
    match self, other with
    | BeforeGenesis, _ => Lt
    | _, BeforeGenesis => Gt
    | FinalCheckpoint, _ => Gt
    | _, FinalCheckpoint => Lt
    | (InitialTip a | PreviousCheckpoint a), (InitialTip b | PreviousCheckpoint b) => a ?= b
    end.
Definition progress_height (self : Progress Z) : option Z :=
  match self with
  | BeforeGenesis | FinalCheckpoint => None
  | InitialTip height | PreviousCheckpoint height => Some height
  end.

Inductive TargetHeight :=
| WaitingForBlocks
| Checkpoint (height : Z)
| FinishedVerifying.

#[global] Instance TargetHeight_eq_dec : EqDecision TargetHeight.
Proof. solve_decision. Defined.

(** [PartialOrd for TargetHeight]. *)
Definition target_partial_cmp (self other : TargetHeight) : option comparison :=
  match self, other with
  | FinishedVerifying, FinishedVerifying => Some Eq
  | FinishedVerifying, _ => Some Gt
  | _, FinishedVerifying => Some Lt
  | Checkpoint a, Checkpoint b => Some (a ?= b)
  | WaitingForBlocks, Checkpoint _ | Checkpoint _, WaitingForBlocks => None
  | WaitingForBlocks, WaitingForBlocks => Some Eq
  end.

(** ** Blocks, errors and the verifier *)

(** The parts of a block that the verifier reads: a transaction is the upgrade
    and the branch id that it embeds, with its hash. *)
Record Block := mkBlock {
  header : Header;
  previous_block_hash : BlockHash;
  merkle_root : BlockHash;
  coinbase_height : option Z;
  tx_branches : list (option NetworkUpgrade * option Z);
  tx_hashes : list BlockHash;
}.

(** The hash of the header of a block and the check of its Equihash solution. *)
Class CheckpointEnv := {
  block_hash : Block -> BlockHash;
  solution_check : Block -> bool;
}.

Inductive VerifyBlockError :=
| BlockFailed (e : BlockError)
| EquihashFailed.
Inductive VerifyCheckpointError :=
| Finished
| TooHigh (height max_height : Z)
| AlreadyVerified (height verified_height : Z)
| NewerRequest (height : Z) (hash : BlockHash)
| NoCoinbaseHeight (hash : BlockHash)
| Dropped
| CommitCheckpointVerified
| TipFailed
| InvalidList (e : ListError)
| VerifyBlock (e : VerifyBlockError)
| QueuedLimit
| UnexpectedSideChain (expected found : BlockHash)
| ShuttingDown.

Notation Result := (outcome VerifyCheckpointError).

(** [CheckpointVerifiedBlock]. *)
Record CheckpointVerifiedBlock := mkVerified {
  block : Block;
  hash : BlockHash;
  height : Z;
  transaction_hashes : list BlockHash;
}.
Record QueuedBlock := mkQueued { queued_block : CheckpointVerifiedBlock; tx : nat }.
Notation qhash q := (hash (queued_block q)).
Definition MAX_QUEUED_BLOCKS_PER_HEIGHT : nat := 4.
Definition GENESIS_PREVIOUS_BLOCK_HASH : BlockHash := replicate 32 Byte.x00.

(** What a channel receives. *)
Inductive Answer := Verified (h : BlockHash) | Rejected (e : VerifyCheckpointError).

Record CheckpointVerifier := mkVerifier {
  checkpoint_list : CheckpointList;
  network : Network;
  initial_tip_hash : option BlockHash;
  queued : gmap Z (list QueuedBlock);
  verifier_progress : Progress Z;
  outbox : list (nat * Answer);
}.
Definition with_queue (q : gmap Z (list QueuedBlock)) (self : CheckpointVerifier) : CheckpointVerifier :=
  mkVerifier (checkpoint_list self) (network self) (initial_tip_hash self) q (verifier_progress self) (outbox self).
Definition with_progress (t : option BlockHash) (p : Progress Z) (self : CheckpointVerifier) : CheckpointVerifier :=
  mkVerifier (checkpoint_list self) (network self) t (queued self) p (outbox self).
Definition send (l : list (nat * Answer)) (self : CheckpointVerifier) : CheckpointVerifier :=
  mkVerifier (checkpoint_list self) (network self) (initial_tip_hash self) (queued self) (verifier_progress self)
    (outbox self ++ l).

(** ** Progress *)

(** [progress_from_tip]. *)
Definition progress_from_tip {E} (checkpoint_list : CheckpointList) (tip : option (Z * BlockHash)) :
    outcome E (option BlockHash * Progress Z) :=
  match tip with
  | Some (height, hash) =>
      let? max := max_height checkpoint_list in
      if height >=? max then Ok (None, FinalCheckpoint) else Ok (Some hash, InitialTip height)
  | None => Ok (None, BeforeGenesis)
  end.

(** [verified_checkpoint_diagnostics] and [queued_block_diagnostics], which read
    the list and the queue. *)
Definition verified_checkpoint_diagnostics {E} (verified_height : option Z) (self : CheckpointVerifier) :
    outcome E unit :=
  match verified_height with
  | None => Ok tt
  | Some verified_height => do? prev_checkpoint_index (checkpoint_list self) verified_height in Ok tt
  end.
Definition queued_block_diagnostics {E} (self : CheckpointVerifier) : outcome E unit :=
  do? expect (last (keys (queued self))) in
  do? max_height (checkpoint_list self) in Ok tt.

(** [from_checkpoint_list] and [reset_progress]. *)
Definition from_checkpoint_list {E} (checkpoint_list : CheckpointList) (network : Network)
    (initial_tip : option (Z * BlockHash)) : outcome E CheckpointVerifier :=
  let? ' (initial_tip_hash, verifier_progress) := progress_from_tip checkpoint_list initial_tip in
  let verifier := mkVerifier checkpoint_list network initial_tip_hash ∅ verifier_progress [] in
  do? if decide (verifier_progress = FinalCheckpoint) then Ok tt
      else verified_checkpoint_diagnostics (progress_height verifier_progress) verifier in
  Ok verifier.
Definition reset_progress {E} (tip : option (Z * BlockHash)) (self : CheckpointVerifier) :
    outcome E CheckpointVerifier :=
  let? ' (initial_tip_hash, verifier_progress) := progress_from_tip (checkpoint_list self) tip in
  let self := with_progress initial_tip_hash verifier_progress self in
  do? verified_checkpoint_diagnostics (progress_height verifier_progress) self in
  Ok self.

(** [current_start_bound]. *)
Definition current_start_bound (self : CheckpointVerifier) : option Bound :=
  match verifier_progress self with
  | BeforeGenesis => Some Unbounded
  | InitialTip height | PreviousCheckpoint height => Some (Excluded height)
  | FinalCheckpoint => None
  end.

(** The loop of [target_checkpoint_height]: the end of the run of heights that
    continues [pending_height]. *)
Fixpoint continuous_end (pending_height : Z) (heights : list Z) : Z :=
  match heights with
  | [] => pending_height
  | height :: rest => if height =? pending_height + 1 then continuous_end height rest else pending_height
  end.

(** [target_checkpoint_height]. *)
Definition search_target {E} (start_height : Z) (self : CheckpointVerifier) : outcome E TargetHeight :=
  let? heights := range (Excluded start_height, Unbounded) (queued self) in
  let pending_height := continuous_end start_height heights in
  let? start := expect (current_start_bound self) in
  let? target_checkpoint := max_height_in_range (checkpoint_list self) (start, Included pending_height) in
  Ok (match target_checkpoint with Some height => Checkpoint height | None => WaitingForBlocks end).
Definition target_checkpoint_height {E} (self : CheckpointVerifier) : outcome E TargetHeight :=
  match verifier_progress self with
  | BeforeGenesis =>
      if bool_decide (queued self !! 0 = None) then Ok WaitingForBlocks else search_target 0 self
  | InitialTip height | PreviousCheckpoint height => search_target height self
  | FinalCheckpoint => Ok FinishedVerifying
  end.

(** [previous_checkpoint_hash]. *)
Definition previous_checkpoint_hash {E} (self : CheckpointVerifier) : outcome E (Progress BlockHash) :=
  match verifier_progress self with
  | BeforeGenesis => Ok BeforeGenesis
  | InitialTip _ => let? hash := expect (initial_tip_hash self) in Ok (InitialTip hash)
  | PreviousCheckpoint height =>
      let? hash := expect (hash_at (checkpoint_list self) height) in Ok (PreviousCheckpoint hash)
  | FinalCheckpoint => Ok FinalCheckpoint
  end.

(** [check_height]. *)
Definition check_height (height : Z) (self : CheckpointVerifier) : Result unit :=
  let? max := max_height (checkpoint_list self) in
  if height >? max then Err (TooHigh height max)
  else
    match verifier_progress self with
    | BeforeGenesis => Ok tt
    | InitialTip previous_height | PreviousCheckpoint previous_height =>
        if height <=? previous_height then Err (AlreadyVerified height previous_height) else Ok tt
    | FinalCheckpoint => Err Finished
    end.

(** [update_progress]. *)
Definition update_progress {E} (verified_height : Z) (self : CheckpointVerifier) : outcome E CheckpointVerifier :=
  match check_height verified_height self with
  | Panic => Panic
  | Err _ => Ok self
  | Ok _ =>
      let? max := max_height (checkpoint_list self) in
      if verified_height =? max then
        let self := with_progress (initial_tip_hash self) FinalCheckpoint self in
        do? verified_checkpoint_diagnostics (Some verified_height) self in Ok self
      else if contains (checkpoint_list self) verified_height then
        let self := with_progress None (PreviousCheckpoint verified_height) self in
        do? verified_checkpoint_diagnostics (Some verified_height) self in Ok self
      else Ok self
  end.

(** ** The queue *)

(** The loop over the queued blocks of a height in [queue_block]: a block with the
    same hash is replaced, and its channel returned. *)
Fixpoint replace_queued (new_qblock : QueuedBlock) (qblocks : list QueuedBlock) : option (nat * list QueuedBlock) :=
  match qblocks with
  | [] => None
  | qb :: rest =>
      if decide (qhash qb = qhash new_qblock) then Some (tx qb, new_qblock :: rest)
      else '(old, rest) ← replace_queued new_qblock rest; Some (old, qb :: rest)
  end.

(** The part of [queue_block] after the checks. *)
Definition enqueue (verified : CheckpointVerifiedBlock) (tx : nat) (self : CheckpointVerifier) :
    Result CheckpointVerifier :=
  let new_qblock := mkQueued verified tx in
  let qblocks := default [] (queued self !! height verified) in
  match replace_queued new_qblock qblocks with
  | Some (old, qblocks) =>
      Ok (send [(old, Rejected (NewerRequest (height verified) (hash verified)))]
            (with_queue (<[height verified := qblocks]> (queued self)) self))
  | None =>
      if (MAX_QUEUED_BLOCKS_PER_HEIGHT <=? length qblocks)%nat then Err QueuedLimit
      else
        let self := with_queue (<[height verified := qblocks ++ [new_qblock]]> (queued self)) self in
        do? queued_block_diagnostics self in Ok self
  end.

(** The loop of [process_height] over the blocks of a height. *)
Fixpoint drain_height {E} (expected_hash : BlockHash) (qblocks : list QueuedBlock)
    (valid_qblock : option QueuedBlock) (sent : list (nat * Answer)) :
    outcome E (option QueuedBlock * list (nat * Answer)) :=
  match qblocks with
  | [] => Ok (valid_qblock, sent)
  | qblock :: rest =>
      if decide (qhash qblock = expected_hash) then
        match valid_qblock with
        | None => drain_height expected_hash rest (Some qblock) sent
        | Some _ => Panic
        end
      else drain_height expected_hash rest valid_qblock
             (sent ++ [(tx qblock, Rejected (UnexpectedSideChain expected_hash (qhash qblock)))])
  end.

(** [process_height]. *)
Definition process_height {E} (height : Z) (expected_hash : BlockHash) (self : CheckpointVerifier) :
    outcome E (option QueuedBlock * CheckpointVerifier) :=
  let? qblocks := expect (queued self !! height) in
  let self := with_queue (delete height (queued self)) self in
  do? assert_that (negb (bool_decide (qblocks = []))) in
  do? match hash_at (checkpoint_list self) height with
      | Some checkpoint_hash => assert_that (bool_decide (expected_hash = checkpoint_hash))
      | None => Ok tt
      end in
  let? ' (valid_qblock, sent) := drain_height expected_hash qblocks None [] in
  Ok (valid_qblock, send sent self).

(** The loop of [process_checkpoint_range], with the valid blocks in chain order:
    it ends with the parent hash that is expected below the range, or without a
    valid block at some height. *)
Inductive RangeResult :=
| RangeValid (expected_hash : BlockHash) (valid_blocks : list QueuedBlock)
| RangeFailed (valid_blocks : list QueuedBlock).
Fixpoint process_heights {E} (range_heights : list Z) (expected_hash : BlockHash) (valid_blocks : list QueuedBlock)
    (self : CheckpointVerifier) : outcome E (RangeResult * CheckpointVerifier) :=
  match range_heights with
  | [] => Ok (RangeValid expected_hash valid_blocks, self)
  | current_height :: rest =>
      let? ' (valid_qblock, self) := process_height current_height expected_hash self in
      match valid_qblock with
      | Some qblock =>
          process_heights rest (previous_block_hash (block (queued_block qblock))) (qblock :: valid_blocks) self
      | None => Ok (RangeFailed valid_blocks, self)
      end
  end.

(** The loop that puts the valid blocks back. *)
Definition put_back (valid_blocks : list QueuedBlock) (queue : gmap Z (list QueuedBlock)) : gmap Z (list QueuedBlock) :=
  foldl (fun queue vblock =>
    let h := height (queued_block vblock) in <[h := default [] (queue !! h) ++ [vblock]]> queue) queue valid_blocks.

(** The end of [process_checkpoint_range] when the range failed, and when it is
    valid. *)
Definition range_failed {E} (target_height : Z) (old_progress : Progress Z) (valid_blocks : list QueuedBlock)
    (self : CheckpointVerifier) : outcome E CheckpointVerifier :=
  let self := with_queue (put_back valid_blocks (queued self)) self in
  do? assert_that (bool_decide (verifier_progress self = old_progress)) in
  let? current_target := target_checkpoint_height self in
  do? assert_that (bool_decide (current_target = WaitingForBlocks) ||
        bool_decide (target_partial_cmp current_target (Checkpoint target_height) = Some Lt)) in
  Ok self.
Definition range_verified {E} (target_height : Z) (old_progress : Progress Z) (previous_hash expected_hash : BlockHash)
    (valid_blocks : list QueuedBlock) (self : CheckpointVerifier) : outcome E CheckpointVerifier :=
  do? assert_that (bool_decide (expected_hash = previous_hash)) in
  let self := send ((fun q => (tx q, Verified (qhash q))) <$> valid_blocks) self in
  let? self := update_progress target_height self in
  let new_progress := verifier_progress self in
  do? assert_that (bool_decide (progress_cmp new_progress old_progress = Gt)) in
  do? if decide (new_progress = FinalCheckpoint)
      then let? max := max_height (checkpoint_list self) in assert_that (target_height =? max)
      else assert_that (bool_decide (new_progress = PreviousCheckpoint target_height)) in
  let? new_target := target_checkpoint_height self in
  do? assert_that (bool_decide (new_target = WaitingForBlocks) || bool_decide (new_target = FinishedVerifying)) in
  Ok self.

(** [process_checkpoint_range]. *)
Definition process_target {E} (previous_hash : BlockHash) (self : CheckpointVerifier) : outcome E CheckpointVerifier :=
  let? target := target_checkpoint_height self in
  match target with
  | WaitingForBlocks => Ok self
  | FinishedVerifying => Panic
  | Checkpoint target_height =>
      let? expected_hash := expect (hash_at (checkpoint_list self) target_height) in
      let? start := expect (current_start_bound self) in
      let? heights := range (start, Included target_height) (queued self) in
      let old_progress := verifier_progress self in
      let? ' (result, self) := process_heights (rev heights) expected_hash [] self in
      match result with
      | RangeValid expected_hash valid_blocks =>
          range_verified target_height old_progress previous_hash expected_hash valid_blocks self
      | RangeFailed valid_blocks => range_failed target_height old_progress valid_blocks self
      end
  end.
Definition process_checkpoint_range {E} (self : CheckpointVerifier) : outcome E CheckpointVerifier :=
  let? previous := previous_checkpoint_hash self in
  match previous with
  | BeforeGenesis => process_target GENESIS_PREVIOUS_BLOCK_HASH self
  | InitialTip hash | PreviousCheckpoint hash => process_target hash self
  | FinalCheckpoint => Ok self
  end.

(** ** Requests *)

Section Requests.
Context `{Hashes} (legacy modern : TransactionCodec) {W : EquihashVerifier} {C : CheckpointEnv}.

(** [Network::disable_pow]. *)
Definition disables_pow (self : Network) : bool :=
  match self with Mainnet => false | Testnet params => disable_pow params end.

Definition block_failed (e : BlockError) : VerifyCheckpointError := VerifyBlock (BlockFailed e).

(** [CheckpointVerifiedBlock::new]. *)
Definition verified_new {E} (b : Block) (hash : BlockHash) : outcome E CheckpointVerifiedBlock :=
  let? height := expect (coinbase_height b) in
  Ok (mkVerified b hash height (tx_hashes b)).

(** [check_block], with its checks of the proof of work. *)
Definition check_work (b : Block) (network : Network) (height : Z) (hash : BlockHash) : Result unit :=
  if uses_wcash_consensus network then
    map_err block_failed (wcash_auxpow_is_valid legacy modern (header b) network height hash)
  else if disables_pow network then
    do? map_err block_failed (difficulty_threshold_is_valid (header b) network height hash) in Ok tt
  else
    do? map_err block_failed (difficulty_is_valid (header b) network height hash) in
    require (solution_check b) (VerifyBlock EquihashFailed).
Definition check_block (b : Block) (self : CheckpointVerifier) : Result CheckpointVerifiedBlock :=
  let hash := block_hash b in
  let? height := ok_or (coinbase_height b) (NoCoinbaseHeight hash) in
  do? check_height height self in
  do? check_work b (network self) height hash in
  let? verified := verified_new b hash in
  do? map_err block_failed
        (merkle_root_validity (network self) (coinbase_height b) (merkle_root b) (tx_branches b)
           (transaction_hashes verified)) in
  Ok verified.

(** [queue_block]. *)
Definition queue_block (b : Block) (tx : nat) (self : CheckpointVerifier) : Result CheckpointVerifier :=
  let? verified := check_block b self in
  enqueue verified tx self.

(** [Service::call]: [reset] is the message of the reset channel.  The answer is
    an error, or [None] when the result comes through the channel [tx]. *)
Definition call {E} (reset : option (option (Z * BlockHash))) (b : Block) (tx : nat) (self : CheckpointVerifier) :
    outcome E (option VerifyCheckpointError * CheckpointVerifier) :=
  let? self := match reset with Some tip => reset_progress tip self | None => Ok self end in
  if decide (verifier_progress self = FinalCheckpoint) then Ok (Some Finished, self)
  else
    match queue_block b tx self with
    | Panic => Panic
    | Err e => Ok (Some e, self)
    | Ok self => let? self := process_checkpoint_range self in Ok (None, self)
    end.
End Requests.

(** [Drop for CheckpointVerifier]: every queued block is answered. *)
Definition drop_verifier (self : CheckpointVerifier) : CheckpointVerifier :=
  send ((fun q => (tx q, Rejected Dropped)) <$> (keys (queued self) ≫= fun h => default [] (queued self !! h)))
    (with_queue ∅ self).

(** The tasks that [call] spawns: the answer of the channel, the result of the
    commit and the tip of the state give the response and a reset message. *)
Definition commit_if_verified {E} (answer : Answer) (commit : option BlockHash) :
    outcome E (BlockHash + VerifyCheckpointError) :=
  match answer with
  | Rejected e => Ok (inr e)
  | Verified hash =>
      match commit with
      | None => Ok (inr CommitCheckpointVerified)
      | Some committed_hash => do? assert_that (bool_decide (committed_hash = hash)) in Ok (inl hash)
      end
  end.
Definition respond (shutting_down : bool) (result : BlockHash + VerifyCheckpointError)
    (tip : option (option (Z * BlockHash))) :
    (BlockHash + VerifyCheckpointError) * option (option (Z * BlockHash)) :=
  match (if shutting_down then inr ShuttingDown else result) with
  | inr CommitCheckpointVerified =>
      match tip with
      | Some tip => (inr CommitCheckpointVerified, Some tip)
      | None => (inr TipFailed, None)
      end
  | result => (result, None)
  end.
