(* ===== verification/CheckpointTheorems.v ===== *)
(** * The checkpoint verifier is correct

    The lemmas and theorems on [Checkpoints]: the target of the verifier is the
    highest checkpoint that its queue reaches, no assertion of the verifier can
    fail, exactly the blocks of the checkpointed chain are verified, in order,
    every request is answered once, and a queue with the whole chain is
    verified. *)

From stdpp Require Import sorting.
From S2P Require Import Prelude Networks Difficulty AuxMerkle AuxProof AuxCoinbase BlockChecks BlockMerkle Checkpoints.

Import NetworkUpgrade Network BlockCheck.

(** ** Sorted keys *)

Section Keys.
Context {V : Type}.
Implicit Types m : gmap Z V.

Lemma elem_of_keys m k : k ∈ keys m <-> is_Some (m !! k).
Proof.
  unfold keys. rewrite merge_sort_Permutation, list_elem_of_fmap. split.
  - intros ([k' v] & -> & L%elem_of_map_to_list). by exists v.
  - intros [v L]. exists (k, v). by rewrite elem_of_map_to_list.
Qed.

Lemma keys_NoDup m : NoDup (keys m).
Proof. unfold keys. rewrite merge_sort_Permutation. apply NoDup_fst_map_to_list. Qed.

Lemma strictly_sorted (l : list Z) : StronglySorted Z.le l -> NoDup l -> StronglySorted Z.lt l.
Proof.
  induction 1 as [|a l S IH F]; intros N; inversion N; subst; constructor; [auto|].
  rewrite Forall_forall in *. intros x Hx. specialize (F x Hx). assert (a <> x) by naive_solver. lia.
Qed.
Lemma keys_sorted m : StronglySorted Z.lt (keys m).
Proof. apply strictly_sorted; [|apply keys_NoDup]. apply (StronglySorted_merge_sort Z.le _). Qed.
End Keys.

Lemma filter_strictly_sorted (f : Z -> bool) l : StronglySorted Z.lt l -> StronglySorted Z.lt (List.filter f l).
Proof.
  induction 1 as [|a l S IH F]; cbn; [constructor|]. destruct (f a); [|done]. constructor; [done|].
  rewrite Forall_forall in *. intros x [Hx _]%list_elem_of_In%filter_In. by apply F, list_elem_of_In.
Qed.

Lemma elem_of_range {E V} r (m : gmap Z V) l k :
  range (E:=E) r m = Ok l -> k ∈ l <-> is_Some (m !! k) /\ above r.1 k = true /\ below r.2 k = true.
Proof.
  unfold range. intros. outcome_inv. rewrite list_elem_of_In, filter_In, <- list_elem_of_In, elem_of_keys, andb_true_iff.
  naive_solver.
Qed.
Lemma range_sorted {E V} r (m : gmap Z V) l : range (E:=E) r m = Ok l -> StronglySorted Z.lt l.
Proof. unfold range. intros. outcome_inv. apply filter_strictly_sorted, keys_sorted. Qed.
Lemma range_Ok {E V} r (m : gmap Z V) : bad_range r = false -> exists l, range (E:=E) r m = Ok l.
Proof. intros B. unfold range. rewrite B. cbn. eauto. Qed.

Lemma last_sorted (l : list Z) x : StronglySorted Z.lt l -> last l = Some x <-> x ∈ l /\ forall y, y ∈ l -> y <= x.
Proof.
  intros S. induction S as [|a l S IH F].
  - split; [done|]. by intros [[]%elem_of_nil _].
  - rewrite Forall_forall in F. rewrite last_cons. destruct (last l) as [z|] eqn:L.
    + assert (Z1 : z ∈ l) by (by apply last_Some_elem_of). assert (a < z) by auto. split.
      * intros [= ->]. destruct (proj1 IH eq_refl) as [Hx M]. split; [by right|]. intros y [->|Hy]%elem_of_cons; [lia|auto].
      * intros [[->|Hx]%elem_of_cons M]; [specialize (M z (list_elem_of_further _ _ _ Z1)); lia|].
        apply IH. split; [done|]. intros y Hy. apply M. by right.
    + apply last_None in L as ->. rewrite list_elem_of_singleton. split.
      * intros [= ->]. split; [done|]. intros y ->%list_elem_of_singleton. lia.
      * naive_solver.
Qed.

Lemma head_sorted (l : list Z) x : StronglySorted Z.lt l -> head l = Some x <-> x ∈ l /\ forall y, y ∈ l -> x <= y.
Proof.
  intros S. destruct S as [|a l S F]; cbn.
  - split; [done|]. by intros [[]%elem_of_nil _].
  - rewrite Forall_forall in F. split.
    + intros [= ->]. split; [by left|]. intros y [->|Hy]%elem_of_cons; [lia|]. specialize (F y Hy). lia.
    + intros [[->|Hx]%elem_of_cons M]; [done|]. specialize (F x Hx). specialize (M a ltac:(by left)). lia.
Qed.

(** The run of heights above [p]. *)
Lemma continuous_end_spec p l : StronglySorted Z.lt l -> (forall k, k ∈ l -> p < k) ->
  p <= continuous_end p l /\ (forall k, p < k <= continuous_end p l -> k ∈ l) /\ continuous_end p l + 1 ∉ l.
Proof.
  intros S. revert p. induction S as [|a l S IH F]; intros p A; cbn.
  - split_and!; [lia|intros; lia|apply not_elem_of_nil].
  - rewrite Forall_forall in F. destruct (Z.eqb_spec a (p + 1)) as [->|N].
    + destruct (IH (p + 1)) as (H1 & H2 & H3); [exact F|]. split_and!; [lia| |].
      * intros k Hk. destruct (decide (k = p + 1)) as [->|]; [by left|]. right. apply H2. lia.
      * rewrite not_elem_of_cons. split; [lia|done].
    + split_and!; [lia|intros; lia|]. rewrite not_elem_of_cons. split; [lia|]. intros K%F.
      specialize (A a ltac:(by left)). lia.
Qed.

(** ** Checkpoint lists *)

(** [max] is the highest checkpoint of a list. *)
Definition is_max (l : CheckpointList) (max : Z) : Prop := is_Some (l !! max) /\ forall h, is_Some (l !! h) -> h <= max.

Lemma max_height_iff {E} (l : CheckpointList) max : max_height (E:=E) l = Ok max <-> is_max l max.
Proof.
  unfold max_height, max_height_in_range. destruct (range_Ok (E:=E) (Unbounded, Unbounded) l eq_refl) as [ks R].
  rewrite R. cbn. rewrite expect_Ok, (last_sorted _ _ (range_sorted _ _ _ R)).
  assert (K : forall k, k ∈ ks <-> is_Some (l !! k)) by (intros k; rewrite (elem_of_range _ _ _ _ R); naive_solver).
  unfold is_max. setoid_rewrite K. done.
Qed.
Lemma max_height_unique l m m' : is_max l m -> is_max l m' -> m = m'.
Proof. intros [A B] [C D]. specialize (B _ C). specialize (D _ A). lia. Qed.

Lemma max_in_range {E} (l : CheckpointList) r : bad_range r = false ->
  exists o, max_height_in_range (E:=E) l r = Ok o /\
    match o with
    | Some h => is_Some (l !! h) /\ above r.1 h = true /\ below r.2 h = true /\
        forall h', is_Some (l !! h') -> above r.1 h' = true -> below r.2 h' = true -> h' <= h
    | None => forall h, is_Some (l !! h) -> above r.1 h = true -> below r.2 h = true -> False
    end.
Proof.
  intros B. unfold max_height_in_range. destruct (range_Ok (E:=E) r l B) as [ks R]. rewrite R. cbn.
  exists (last ks). split; [done|]. pose proof (fun k => elem_of_range r l ks k R) as K. destruct (last ks) as [h|] eqn:L.
  - apply (last_sorted _ _ (range_sorted _ _ _ R)) in L as [L M]. apply K in L as (? & ? & ?). split_and!; [done..|].
    intros h' ???. apply M, K. done.
  - apply last_None in L as ->. intros h ???. apply (not_elem_of_nil h), K. done.
Qed.

Lemma collect_lookup (l : list (Z * BlockHash)) m h x :
  collect l m !! h = Some x -> (h, x) ∈ l \/ m !! h = Some x.
Proof.
  revert m. induction l as [|[k y] l IH]; intros m L; [by right|].
  destruct (IH (<[k := y]> m) L) as [I|I]; [left; by right|]. destruct (decide (k = h)) as [->|N].
  - rewrite lookup_insert in I. destruct (decide _) in I; [|done]. injection I as ->. left. by left.
  - rewrite lookup_insert_ne in I by done. by right.
Qed.
Lemma collect_NoDup (l : list (Z * BlockHash)) m : NoDup l.*1 -> (forall h, h ∈ l.*1 -> m !! h = None) ->
  collect l m = list_to_map l ∪ m.
Proof.
  revert m. induction l as [|[k y] l IH]; intros m N D; [symmetry; apply (map_empty_union m)|].
  apply NoDup_cons in N as [N1 N2]. change (collect l (<[k := y]> m) = <[k := y]> (list_to_map l) ∪ m).
  rewrite IH; [|done|].
  - rewrite <- insert_union_l, insert_union_r; [done|]. by apply not_elem_of_list_to_map.
  - intros h Hh. rewrite lookup_insert_ne by (by intros ->). apply D. by right.
Qed.

Lemma collect_map l : NoDup l.*1 -> collect l ∅ = list_to_map l.
Proof. intros N. rewrite collect_NoDup; [apply map_union_empty|done|]. intros. apply lookup_empty. Qed.

(** The list of the checkpoints is the map when the sizes agree. *)
Lemma collect_size (l : list (Z * BlockHash)) :
  size (collect l ∅) = length l <-> NoDup l.*1.
Proof.
  split.
  - intros S. assert (P : map_to_list (collect l ∅) ≡ₚ l).
    { apply NoDup_same_length; [apply NoDup_map_to_list| |by rewrite length_map_to_list, S].
      intros [h x] [|?%lookup_empty_Some]%elem_of_map_to_list%collect_lookup; done. }
    rewrite <- P. apply NoDup_fst_map_to_list.
  - intros N. rewrite collect_map by done.
    rewrite <- length_map_to_list. by rewrite map_to_list_to_map.
Qed.

(** What [from_list] accepts. *)
Record list_ok (l : list (Z * BlockHash)) : Prop := {
  lo_heights : NoDup l.*1;
  lo_hashes : NoDup l.*2;
  lo_genesis : 0 ∈ l.*1;
  lo_null : NULL_HASH ∉ l.*2;
  lo_max : Forall (fun h => h <= Height.MAX) l.*1;
}.

Lemma head_keys_genesis (m : CheckpointList) : (forall h, is_Some (m !! h) -> 0 <= h) ->
  head (keys m) = Some 0 <-> is_Some (m !! 0).
Proof.
  intros P. rewrite (head_sorted _ _ (keys_sorted m)). setoid_rewrite elem_of_keys. naive_solver.
Qed.

Lemma list_to_map_is_Some (l : list (Z * BlockHash)) h :
  is_Some ((list_to_map l : CheckpointList) !! h) <-> h ∈ l.*1.
Proof.
  split.
  - intros [x L%elem_of_list_to_map_2]. apply list_elem_of_fmap. by exists (h, x).
  - intros I. destruct (list_to_map l !! h) eqn:L; [done|]. by apply not_elem_of_list_to_map_2 in L.
Qed.

Lemma nonempty_max {E} (m : CheckpointList) : is_Some (m !! 0) -> exists max, max_height (E:=E) m = Ok max.
Proof.
  intros H0. unfold max_height. destruct (max_in_range (E:=E) m (Unbounded, Unbounded) eq_refl) as ([h|] & -> & H).
  - by exists h.
  - by destruct (H 0).
Qed.

Lemma from_list_returns l : returns (from_list l).
Proof.
  unfold from_list. set (c := collect _ _). destruct (head (keys c)) as [h|] eqn:K; [|done].
  apply returns_bind; [apply returns_require|]. intros _ ->%require_Ok%Z.eqb_eq.
  assert (G : is_Some (c !! 0)) by (apply elem_of_keys, head_Some_elem_of, K). clearbody c.
  destruct (nonempty_max (E:=ListError) c G) as [max ->]. cbn [obind]. no_panic.
Qed.

Lemma max_height_le {E} (l : list (Z * BlockHash)) max : max_height (E:=E) (list_to_map l) = Ok max ->
  max <= Height.MAX <-> Forall (fun h => h <= Height.MAX) l.*1.
Proof.
  intros [M1 M2]%max_height_iff. rewrite Forall_forall. setoid_rewrite <- list_to_map_is_Some. split; [|by auto].
  intros L h H%M2. lia.
Qed.

Lemma from_list_Ok l m : from_list l = Ok m -> list_ok l /\ m = list_to_map l.
Proof.
  unfold from_list. set (c := collect _ _). intros (u & K & X)%obind_Ok. destruct (head (keys c)) as [h|] eqn:Hk; [|done].
  apply require_Ok, Z.eqb_eq in K as ->. assert (G : is_Some (c !! 0)) by (apply elem_of_keys, head_Some_elem_of, Hk).
  clear Hk u. apply obind_Ok in X as (_ & N%require_Ok%Nat.eqb_eq%collect_size & X). unfold c in *.
  rewrite (collect_map l N) in *. clear c. outcome_inv. split; [|done].
  assert (Q : (map_to_list (list_to_map l : CheckpointList)).*2 ≡ₚ l.*2) by (by rewrite map_to_list_to_map).
  rewrite Nat.eqb_eq in *. rewrite negb_true_iff in *. rewrite bool_decide_eq_false, elem_of_remove_dups in *.
  split; [done| |by apply list_to_map_is_Some|by rewrite <- Q|].
  - rewrite <- Q. apply remove_dups_length. apply Permutation_length in Q. rewrite Q, length_fmap. done.
  - eapply max_height_le; [done|bool_lia].
Qed.

Lemma from_list_accepts l : Forall (fun h => 0 <= h) l.*1 -> list_ok l -> from_list l = Ok (list_to_map l).
Proof.
  intros P [N1 N2 G N M]. unfold from_list.
  rewrite (proj2 (Nat.eqb_eq _ _) (proj2 (collect_size l) N1)).
  rewrite (collect_map l N1).
  assert (Q : (map_to_list (list_to_map l : CheckpointList)).*2 ≡ₚ l.*2) by (by rewrite map_to_list_to_map).
  rewrite (proj2 (head_keys_genesis (list_to_map l) ltac:(setoid_rewrite list_to_map_is_Some; by apply Forall_forall)))
    by (by apply list_to_map_is_Some).
  cbn [obind require Z.eqb].
  rewrite (proj2 (Nat.eqb_eq _ _)) by (rewrite (proj2 (remove_dups_length _)); [by rewrite Q, length_fmap|by rewrite Q]).
  cbn [obind require]. rewrite bool_decide_false by (by rewrite elem_of_remove_dups, Q). cbn [obind require negb].
  destruct (nonempty_max (E:=ListError) (list_to_map l)) as [max Hm]; [by apply list_to_map_is_Some|].
  rewrite Hm. cbn [obind]. pose proof (proj2 (max_height_le _ _ Hm) M). by rewrite Z.gtb_ltb, (proj2 (Z.ltb_ge Height.MAX max)) by lia.
Qed.

(** [CheckpointList::from_list] accepts a list exactly when its heights and
    its hashes are unique, the genesis block is among them, no hash is null and
    no height is above the maximum; it gives the map of the list, and never
    panics. *)
Theorem checkpoint_list_exact (l : list (Z * BlockHash)) : Forall (fun h => 0 <= h) l.*1 ->
  returns (from_list l) /\ (forall m, from_list l = Ok m <-> list_ok l /\ m = list_to_map l).
Proof.
  intros P. split; [apply from_list_returns|]. intros m. split; [apply from_list_Ok|].
  intros [L ->]. by apply from_list_accepts.
Qed.

(** ** The verifier and a chain

    [chain] is the chain that the checkpoints come from: the hash of its block at
    each height, and at [-1] the parent hash of the genesis block. *)

Section Chain.
Context (chain : Z -> BlockHash).

(** The hash of a block of the chain determines the hash of its parent. *)
Definition on_chain (hash previous : BlockHash) : Prop :=
  forall h, 0 <= h -> hash = chain h -> previous = chain (h - 1).
Definition queued_ok (h : Z) (q : QueuedBlock) : Prop :=
  height (queued_block q) = h /\ on_chain (qhash q) (previous_block_hash (block (queued_block q))).

Record ListWf (l : CheckpointList) (max : Z) : Prop := {
  lw_max : is_max l max;
  lw_genesis : is_Some (l !! 0);
  lw_heights h : is_Some (l !! h) -> 0 <= h;
  lw_chain h x : l !! h = Some x -> x = chain h;
}.

Record QueueWf (q : gmap Z (list QueuedBlock)) (max : Z) : Prop := {
  qw_height h : is_Some (q !! h) -> 0 <= h <= max;
  qw_nonempty h l : q !! h = Some l -> l <> [];
  qw_length h l : q !! h = Some l -> (length l <= MAX_QUEUED_BLOCKS_PER_HEIGHT)%nat;
  qw_NoDup h l : q !! h = Some l -> NoDup ((fun q => qhash q) <$> l);
  qw_blocks h l : q !! h = Some l -> Forall (queued_ok h) l;
}.

Definition ProgressWf (s : CheckpointVerifier) (max : Z) : Prop :=
  match verifier_progress s with
  | BeforeGenesis | FinalCheckpoint => True
  | InitialTip h => 0 <= h < max /\ initial_tip_hash s = Some (chain h)
  | PreviousCheckpoint h => h < max /\ is_Some (checkpoint_list s !! h)
  end.

(** The invariant of the verifier. *)
Record VerifierWf (max : Z) (s : CheckpointVerifier) : Prop := {
  vw_list : ListWf (checkpoint_list s) max;
  vw_queue : QueueWf (queued s) max;
  vw_progress : ProgressWf s max;
}.

(** The height that is verified, [-1] before the genesis block. *)
Definition verified_height (max : Z) (s : CheckpointVerifier) : Z :=
  match verifier_progress s with
  | BeforeGenesis => -1
  | InitialTip h | PreviousCheckpoint h => h
  | FinalCheckpoint => max
  end.

Lemma list_max_height {E} l max : ListWf l max -> max_height (E:=E) l = Ok max.
Proof. intros W. by apply max_height_iff, lw_max. Qed.
Lemma list_max_nonneg l max : ListWf l max -> 0 <= max.
Proof. intros W. apply (lw_max _ _ W), (lw_genesis _ _ W). Qed.

Lemma verified_height_bounds max s : VerifierWf max s ->
  -1 <= verified_height max s <= max /\ (verifier_progress s <> FinalCheckpoint -> verified_height max s < max).
Proof.
  intros [L _ P]. pose proof (list_max_nonneg _ _ L). unfold ProgressWf, verified_height in *.
  destruct (verifier_progress s); [lia|lia| |naive_solver lia].
  destruct P as [? P%(lw_heights _ _ L)]. lia.
Qed.

Lemma diagnostics_Ok {E} h s max : ListWf (checkpoint_list s) max -> match h with Some h => 0 <= h | None => True end ->
  verified_checkpoint_diagnostics (E:=E) h s = Ok tt.
Proof.
  intros L Hh. destruct h as [h|]; [|done]. cbn. unfold prev_checkpoint_index.
  assert (K : 0 ∈ List.filter (fun k => k <=? h) (keys (checkpoint_list s))).
  { apply list_elem_of_In, filter_In. split; [|bool_lia]. apply list_elem_of_In, elem_of_keys, (lw_genesis _ _ L). }
  destruct (List.filter _ _); [by apply not_elem_of_nil in K|done].
Qed.

(** *** The target *)

(** A checkpoint is available when the queue reaches it from the verified
    height. *)
Definition available (max : Z) (s : CheckpointVerifier) (t : Z) : Prop :=
  verified_height max s < t /\ is_Some (checkpoint_list s !! t) /\
  forall k, verified_height max s < k <= t -> is_Some (queued s !! k).

Lemma search_target_spec {E} max s start bound : VerifierWf max s ->
  current_start_bound s = Some bound -> -1 <= verified_height max s <= start ->
  (forall k, verified_height max s < k <= start -> is_Some (queued s !! k)) ->
  (forall k, 0 <= k -> above bound k = true <-> verified_height max s < k) ->
  (forall k, start <= k -> bad_range (bound, Included k) = false) ->
  exists o, search_target (E:=E) start s = Ok o /\
    ((exists t, o = Checkpoint t /\ available max s t /\ forall t', available max s t' -> t' <= t) \/
     (o = WaitingForBlocks /\ forall t, ~ available max s t)).
Proof.
  intros W B S Q A R. unfold search_target.
  destruct (range_Ok (E:=E) (Excluded start, Unbounded) (queued s) eq_refl) as [ks K]. rewrite K. cbn [obind].
  destruct (continuous_end_spec start ks) as (P1 & P2 & P3).
  { by apply range_sorted in K. }
  { intros k (_ & ?%Z.ltb_lt & _)%(elem_of_range _ _ _ _ K). lia. }
  set (pending := continuous_end start ks) in *. rewrite B. cbn [expect obind].
  assert (Qp : forall k, verified_height max s < k <= pending -> is_Some (queued s !! k)).
  { intros k Hk. destruct (decide (k <= start)); [apply Q; lia|]. apply (elem_of_range _ _ _ _ K), P2. lia. }
  assert (Qn : ~ is_Some (queued s !! (pending + 1))).
  { intros I. apply P3, (elem_of_range _ _ _ _ K). split_and!; [done|apply Z.ltb_lt; lia|done]. }
  assert (Av : forall t, available max s t <->
    is_Some (checkpoint_list s !! t) /\ above bound t = true /\ below (Included pending) t = true).
  { intros t. cbn. rewrite Z.leb_le. unfold available. split.
    - intros (T1 & T2 & T3). rewrite A by lia. split_and!; [done..|]. destruct (decide (t <= pending)); [done|].
      destruct Qn. apply T3. lia.
    - intros (T1 & T2 & T3). rewrite A in T2 by (by apply (lw_heights _ _ (vw_list _ _ W))).
      split_and!; [done..|]. intros k Hk. apply Qp. lia. }
  destruct (max_in_range (E:=E) (checkpoint_list s) (bound, Included pending)) as (o & -> & M); [by apply R|].
  cbn [obind]. eexists. split; [done|]. destruct o as [t|]; cbn [fst snd] in M.
  - left. exists t. split; [done|]. destruct M as (M1 & M2 & M3 & M4). split; [by apply Av|].
    intros t' (?&?&?)%Av. auto.
  - right. split; [done|]. intros t (?&?&?)%Av. eauto.
Qed.

Lemma target_cases {E} max s : VerifierWf max s -> verifier_progress s <> FinalCheckpoint ->
  exists o, target_checkpoint_height (E:=E) s = Ok o /\
    ((exists t, o = Checkpoint t /\ available max s t /\ forall t', available max s t' -> t' <= t) \/
     (o = WaitingForBlocks /\ forall t, ~ available max s t)).
Proof.
  intros W F. pose proof (verified_height_bounds _ _ W) as [B _]. unfold target_checkpoint_height.
  assert (C : forall h b, verified_height max s = h -> current_start_bound s = Some b -> b = Excluded h ->
    exists o, search_target (E:=E) h s = Ok o /\
    ((exists t, o = Checkpoint t /\ available max s t /\ forall t', available max s t' -> t' <= t) \/
     (o = WaitingForBlocks /\ forall t, ~ available max s t))).
  { intros h b Hh Hb ->. apply (search_target_spec _ _ _ _ W Hb); [lia|intros; lia| |].
    - intros k _. cbn. rewrite Z.ltb_lt. lia.
    - intros k Hk. cbn. bool_lia. }
  destruct (verifier_progress s) as [|h|h|] eqn:P; [|by eapply C; unfold verified_height, current_start_bound; rewrite ?P..|done].
  assert (V : verified_height max s = -1) by (unfold verified_height; by rewrite P).
  destruct (queued s !! 0) eqn:Q0; cbn [bool_decide].
  - rewrite bool_decide_false by done. eapply search_target_spec; [done|by unfold current_start_bound; rewrite P|lia| |..].
    + intros k Hk. assert (k = 0) as -> by lia. by rewrite Q0.
    + intros k Hk. cbn. split; [lia|done].
    + done.
  - rewrite bool_decide_true by done. eexists. split; [done|]. right. split; [done|].
    intros t (T1 & T2 & T3). destruct (T3 0) as [? X]; [pose proof (lw_heights _ _ (vw_list _ _ W) _ T2); lia|congruence].
Qed.

(** *** Processing a range *)

Definition select (expected : BlockHash) (l : list QueuedBlock) : option QueuedBlock :=
  head (filter (fun q => qhash q = expected) l).
Definition side (expected : BlockHash) (l : list QueuedBlock) : list (nat * Answer) :=
  (fun q => (tx q, Rejected (UnexpectedSideChain expected (qhash q)))) <$> filter (fun q => qhash q <> expected) l.

(** The queued block of the chain at a height. *)
Definition chosen (queue : gmap Z (list QueuedBlock)) (h : Z) : option QueuedBlock :=
  l ← queue !! h; select (chain h) l.

Lemma filter_other (expected : BlockHash) (l : list QueuedBlock) : expected ∉ ((fun q => qhash q) <$> l) ->
  filter (fun q => qhash q = expected) l = [].
Proof.
  induction l as [|q l IH]; [done|]. intros [N1 N2]%not_elem_of_cons. rewrite filter_cons_False by congruence. auto.
Qed.

Lemma drain_height_Ok {E} expected l valid sent : NoDup ((fun q => qhash q) <$> l) ->
  (is_Some valid -> expected ∉ ((fun q => qhash q) <$> l)) ->
  drain_height (E:=E) expected l valid sent =
    Ok (match valid with Some _ => valid | None => select expected l end, sent ++ side expected l).
Proof.
  revert valid sent. induction l as [|q l IH]; intros valid sent N V; cbn [drain_height].
  - rewrite app_nil_r. by destruct valid.
  - apply NoDup_cons in N as [N1 N2]. unfold select, side. destruct (decide (qhash q = expected)) as [<-|D].
    + destruct valid as [v|]; [destruct (V ltac:(done)); by left|].
      rewrite IH by done. by rewrite filter_cons_True, filter_cons_False by (done || naive_solver).
    + rewrite IH; [|done|intros X ?; apply (V X); by right].
      rewrite filter_cons_False, filter_cons_True by done. cbn. by rewrite <- app_assoc.
Qed.

Lemma select_Some expected l q : select expected l = Some q -> q ∈ l /\ qhash q = expected.
Proof. intros ?%head_Some_elem_of. rewrite list_elem_of_filter in *. naive_solver. Qed.
Lemma select_None expected l : select expected l = None <-> expected ∉ ((fun q => qhash q) <$> l).
Proof.
  split; [|intros ?; unfold select; by rewrite filter_other].
  intros F%head_None (q & -> & Hq)%list_elem_of_fmap. apply (not_elem_of_nil q). rewrite <- F. by apply list_elem_of_filter.
Qed.

(** The channels of the queue. *)
Definition txs (queue : gmap Z (list QueuedBlock)) : list nat := map_to_list queue ≫= fun e => tx <$> e.2.

Lemma txs_delete queue h l : queue !! h = Some l -> txs queue ≡ₚ (tx <$> l) ++ txs (delete h queue).
Proof. intros L. unfold txs. by rewrite <- (map_to_list_delete queue h l L). Qed.
Lemma txs_insert queue h l : queue !! h = None -> txs (<[h := l]> queue) ≡ₚ (tx <$> l) ++ txs queue.
Proof. intros L. unfold txs. by rewrite map_to_list_insert. Qed.
Lemma txs_update queue h l : txs (<[h := l]> queue) ≡ₚ (tx <$> l) ++ txs (delete h queue).
Proof. rewrite <- insert_delete_eq. apply txs_insert, lookup_delete_eq. Qed.

Lemma drop_txs queue : (fst ∘ fun q => (tx q, Rejected Dropped)) <$> (keys queue ≫= fun h => default [] (queue !! h)) ≡ₚ txs queue.
Proof.
  unfold txs, keys. change (fst ∘ _) with tx. rewrite merge_sort_Permutation.
  assert (X : forall l, (forall e, e ∈ l -> queue !! e.1 = Some e.2) ->
    tx <$> (l.*1 ≫= fun h => default [] (queue !! h)) = l ≫= fun e => tx <$> e.2).
  { induction l as [|[h b] l IH]; intros L; [done|]. pose proof (L (h, b) ltac:(by left)) as Lh. cbn in *.
    rewrite fmap_app, Lh. cbn. f_equal.
    apply IH. intros e He. apply L. by right. }
  rewrite X; [done|]. by intros [h b] ?%elem_of_map_to_list.
Qed.

Lemma select_side_txs expected l : NoDup ((fun q => qhash q) <$> l) ->
  tx <$> l ≡ₚ (tx <$> option_list (select expected l)) ++ (side expected l).*1.
Proof.
  unfold side. rewrite <- list_fmap_compose. intros N. unfold select. induction l as [|q l IH]; [done|].
  apply NoDup_cons in N as [N1 N2]. destruct (decide (qhash q = expected)) as [<-|D].
  - rewrite filter_cons_True, filter_cons_False by (done || naive_solver). cbn. f_equiv. rewrite (IH N2).
    by rewrite filter_other.
  - rewrite filter_cons_False, filter_cons_True by done. rewrite fmap_cons, (IH N2), fmap_cons. by rewrite <- Permutation_middle.
Qed.

(** The state after messages and a new queue. *)
Definition moved (s s' : CheckpointVerifier) (msgs : list (nat * Answer)) : Prop :=
  checkpoint_list s' = checkpoint_list s /\ network s' = network s /\ initial_tip_hash s' = initial_tip_hash s /\
  verifier_progress s' = verifier_progress s /\ outbox s' = outbox s ++ msgs.
Definition rejected (a : Answer) : Prop := match a with Rejected _ => True | Verified _ => False end.

Lemma process_height_Ok {E} s max h l : ListWf (checkpoint_list s) max -> queued s !! h = Some l -> l <> [] ->
  NoDup ((fun q => qhash q) <$> l) ->
  exists s', process_height (E:=E) h (chain h) s = Ok (select (chain h) l, s') /\
    moved s s' (side (chain h) l) /\ queued s' = delete h (queued s).
Proof.
  intros W Q Ne N. unfold process_height. rewrite Q. cbn [expect obind]. rewrite bool_decide_false by done.
  cbn [assert_that negb obind]. replace (match hash_at _ _ with Some _ => _ | None => _ end) with (Ok (E:=E) tt).
  - cbn [obind]. rewrite drain_height_Ok; [|done|by intros []]. cbn [obind]. eexists. split; [done|]. by repeat split.
  - unfold hash_at. cbn. destruct (checkpoint_list s !! h) eqn:C; [|done].
    apply (lw_chain _ _ W) in C as ->. by rewrite bool_decide_true.
Qed.

(** The chosen blocks from a height upwards. *)
Fixpoint picked (queue : gmap Z (list QueuedBlock)) (lo : Z) (blocks : list QueuedBlock) : Prop :=
  match blocks with
  | [] => True
  | q :: blocks => chosen queue lo = Some q /\ picked queue (lo + 1) blocks
  end.

Lemma chosen_ok queue max h q : QueueWf queue max -> chosen queue h = Some q ->
  0 <= h <= max /\ qhash q = chain h /\ height (queued_block q) = h /\
  previous_block_hash (block (queued_block q)) = chain (h - 1).
Proof.
  intros W (l & L & [I Hq]%select_Some)%bind_Some. assert (B : 0 <= h <= max) by (apply (qw_height _ _ W); by rewrite L).
  pose proof (qw_blocks _ _ W _ _ L) as F. rewrite Forall_forall in F. destruct (F q I) as [F1 F2]. split_and!; [lia..|done|done|].
  apply F2; [lia|done].
Qed.

(** The end of the loop over the heights from [lo] below [hi], whose original
    queue is [queue]: the valid blocks start at [low], and the entries from [cut]
    are removed. *)
Record loop_end (queue : gmap Z (list QueuedBlock)) (lo hi : Z) (s : CheckpointVerifier) (vs : list QueuedBlock)
    (r : RangeResult) (s' : CheckpointVerifier) (msgs : list (nat * Answer)) (blocks : list QueuedBlock) (cut : Z) : Prop := {
  le_moved : moved s s' msgs;
  le_rejected : Forall (fun m => rejected m.2) msgs;
  le_queue k : queued s' !! k = if decide (cut <= k < hi) then None else queued s !! k;
  le_txs : (tx <$> vs) ++ txs (queued s) ≡ₚ (tx <$> blocks) ++ msgs.*1 ++ txs (queued s');
  le_result :
    (r = RangeValid (chain (lo - 1)) blocks /\ cut = lo /\ picked queue lo blocks /\
       lo + Z.of_nat (length blocks) = hi + Z.of_nat (length vs)) \/
    (r = RangeFailed blocks /\ lo <= cut < hi /\ chosen queue cut = None /\ picked queue (cut + 1) blocks /\
       cut + 1 + Z.of_nat (length blocks) = hi + Z.of_nat (length vs));
}.

Lemma side_rejected expected l : Forall (fun m => rejected m.2) (side expected l).
Proof. unfold side. apply Forall_fmap, Forall_forall. done. Qed.

Lemma moved_trans s s' s'' l k : moved s s' l -> moved s' s'' k -> moved s s'' (l ++ k).
Proof. intros (?&?&?&?&?) (?&?&?&?&?). unfold moved. rewrite app_assoc. split_and!; congruence. Qed.

Lemma loop_end_step queue lo hi s s1 vs r s' msgs blocks cut l q : lo <= hi ->
  queued s !! hi = Some l -> NoDup ((fun q => qhash q) <$> l) -> select (chain hi) l = Some q ->
  moved s s1 (side (chain hi) l) -> queued s1 = delete hi (queued s) ->
  loop_end queue lo hi s1 (q :: vs) r s' msgs blocks cut ->
  loop_end queue lo (hi + 1) s vs r s' (side (chain hi) l ++ msgs) blocks cut.
Proof.
  intros Lo Q N S M1 Q1 [M R K T X]. split.
  - by eapply moved_trans.
  - apply Forall_app. split; [apply side_rejected|done].
  - intros k. rewrite K, Q1. destruct (decide (k = hi)) as [->|Ne].
    + rewrite lookup_delete_eq. destruct (decide (cut <= hi < hi + 1)); [by destruct (decide _)|]. exfalso. naive_solver lia.
    + rewrite lookup_delete_ne by done. destruct (decide _), (decide _); (done || lia).
  - rewrite (txs_delete _ _ _ Q), (select_side_txs (chain hi) l N), S. rewrite Q1 in T. cbn in T |- *.
    rewrite fmap_app, <- app_assoc. rewrite (Permutation_app_swap_app (tx <$> blocks)), <- T. solve_Permutation.
  - cbn [length] in X. destruct X as [(-> & -> & P & Le)|(-> & C1 & C2 & P & Le)]; [left|right]; split_and!; (done || lia).
Qed.

Lemma process_heights_spec {E} queue max n : forall s lo vs,
  ListWf (checkpoint_list s) max -> QueueWf queue max -> 0 <= lo ->
  (forall k, k < lo + Z.of_nat n -> queued s !! k = queue !! k) ->
  (forall k, lo <= k < lo + Z.of_nat n -> is_Some (queue !! k)) -> picked queue (lo + Z.of_nat n) vs ->
  exists r s' msgs blocks cut,
    process_heights (E:=E) (rev (seqZ lo (Z.of_nat n))) (chain (lo + Z.of_nat n - 1)) vs s = Ok (r, s') /\
    loop_end queue lo (lo + Z.of_nat n) s vs r s' msgs blocks cut.
Proof.
  induction n as [|n IH]; intros s lo vs LW QW L0 Q K P.
  - cbn. rewrite Z.add_0_r in *. exists (RangeValid (chain (lo - 1)) vs), s, [], vs, lo. split; [done|].
    split; [by repeat split; rewrite ?app_nil_r|done| |done|left; split_and!; done].
    intros k. destruct (decide _); [lia|done].
  - replace (Z.of_nat (S n)) with (Z.of_nat n + 1) in * by lia. set (hi := lo + Z.of_nat n) in *.
    replace (lo + (Z.of_nat n + 1)) with (hi + 1) in * by lia. replace (hi + 1 - 1) with hi by lia.
    replace (Z.of_nat n + 1) with (Z.of_nat (S n)) by lia. rewrite seqZ_S, rev_app_distr. cbn [rev app process_heights]. fold hi.
    destruct (K hi ltac:(lia)) as [l Ql]. pose proof (Q hi ltac:(lia)) as Qs. rewrite Ql in Qs.
    pose proof (qw_NoDup _ _ QW _ _ Ql) as N.
    destruct (process_height_Ok (E:=E) s max hi l LW Qs (qw_nonempty _ _ QW _ _ Ql) N) as (s1 & -> & M1 & Q1).
    cbn [obind]. assert (C : chosen queue hi = select (chain hi) l) by (unfold chosen; by rewrite Ql).
    destruct (select (chain hi) l) as [q|] eqn:S.
    + destruct (chosen_ok _ _ _ _ QW C) as (_ & _ & _ & ->).
      destruct (IH s1 lo (q :: vs)) as (r & s' & msgs & blocks & cut & R & X); [by destruct M1 as (-> & _)|done..| | |by split|].
      * intros k Hk. rewrite Q1, lookup_delete_ne by lia. apply Q. lia.
      * intros k Hk. apply K. lia.
      * fold hi in R, X. exists r, s', (side (chain hi) l ++ msgs), blocks, cut. split; [done|].
        eapply loop_end_step; [lia|done..].
    + exists (RangeFailed vs), s1, (side (chain hi) l), vs, hi. split; [done|]. split.
      * done.
      * apply side_rejected.
      * intros k. rewrite Q1. destruct (decide _) as [D|D].
        -- assert (k = hi) as -> by lia. apply lookup_delete_eq.
        -- by rewrite lookup_delete_ne by lia.
      * rewrite (txs_delete _ _ _ Qs), (select_side_txs (chain hi) l N), S, Q1. done.
      * right. split_and!; (done || lia).
Qed.

Lemma seqZ_strictly_sorted m n : StronglySorted Z.lt (seqZ m (Z.of_nat n)).
Proof.
  revert m. induction n as [|n IH]; intros m; [constructor|]. rewrite seqZ_cons by lia.
  replace (Z.pred (Z.of_nat (S n))) with (Z.of_nat n) by lia. constructor; [done|].
  apply Forall_forall. intros x ?%elem_of_seqZ. lia.
Qed.

Lemma sorted_ext (l k : list Z) : StronglySorted Z.lt l -> StronglySorted Z.lt k -> (forall x, x ∈ l <-> x ∈ k) -> l = k.
Proof.
  assert (ND : forall l, StronglySorted Z.lt l -> NoDup l).
  { induction 1 as [|a j S IH F]; constructor; [|done]. rewrite Forall_forall in F. intros I%F. lia. }
  intros S1 S2 X. apply (StronglySorted_unique_strong Z.lt); [|done|done|].
  - intros x y _ _ ??. lia.
  - apply NoDup_Permutation; auto.
Qed.

Lemma range_heights {E} max s t b : VerifierWf max s -> available max s t -> current_start_bound s = Some b ->
  range (E:=E) (b, Included t) (queued s) = Ok (seqZ (verified_height max s + 1) (Z.of_nat (Z.to_nat (t - verified_height max s)))).
Proof.
  intros W (A1 & A2 & A3) B. pose proof (verified_height_bounds _ _ W) as [V _].
  assert (D : bad_range (b, Included t) = false /\ forall k, 0 <= k -> above b k = true <-> verified_height max s < k).
  { unfold current_start_bound, verified_height in *. destruct (verifier_progress s); simplify_eq; cbn.
    - split; [done|]. intros. split; [lia|done].
    - split; [bool_lia|]. intros. by rewrite Z.ltb_lt.
    - split; [bool_lia|]. intros. by rewrite Z.ltb_lt. }
  destruct D as [D1 D2]. destruct (range_Ok (E:=E) (b, Included t) (queued s) D1) as [l R]. rewrite R. f_equal.
  apply sorted_ext; [by eapply range_sorted|apply seqZ_strictly_sorted|]. intros k.
  rewrite (elem_of_range _ _ _ _ R), elem_of_seqZ. cbn [fst snd below]. rewrite Z.leb_le. split.
  - intros (K1 & K2 & K3). apply D2 in K2; [lia|]. by apply (qw_height _ _ (vw_queue _ _ W)).
  - intros K. split_and!; [apply A3; lia|apply D2; lia|lia].
Qed.

Lemma put_back_spec queue0 max blocks : QueueWf queue0 max -> forall lo queue, picked queue0 lo blocks ->
  (forall k, lo <= k < lo + Z.of_nat (length blocks) -> queue !! k = None) ->
  (forall k, put_back blocks queue !! k =
     if decide (lo <= k < lo + Z.of_nat (length blocks)) then (fun q => [q]) <$> chosen queue0 k else queue !! k) /\
  txs (put_back blocks queue) ≡ₚ (tx <$> blocks) ++ txs queue.
Proof.
  intros QW. induction blocks as [|q blocks IH]; intros lo queue P A.
  - split; [|done]. intros k. cbn. destruct (decide _); [lia|done].
  - destruct P as [C P]. destruct (chosen_ok _ _ _ _ QW C) as (_ & _ & H & _). cbn [length] in *.
    assert (A0 : queue !! lo = None) by (apply A; lia). cbn [put_back foldl]. rewrite H, A0. cbn [default app].
    destruct (IH (lo + 1) (<[lo := [q]]> queue) P) as [B1 B2].
    { intros k Hk. rewrite lookup_insert_ne by lia. apply A. lia. }
    split.
    + intros k. etrans; [apply B1|]. destruct (decide (k = lo)) as [->|N].
      * rewrite decide_False, decide_True by lia. by rewrite lookup_insert_eq, C.
      * rewrite lookup_insert_ne by done. destruct (decide _), (decide _); (done || lia).
    + etrans; [apply B2|]. rewrite (txs_insert _ _ _ A0). cbn. by rewrite Permutation_middle.
Qed.

Lemma update_progress_Ok {E} max s t : VerifierWf max s -> verified_height max s < t <= max ->
  is_Some (checkpoint_list s !! t) -> verifier_progress s <> FinalCheckpoint ->
  exists s', update_progress (E:=E) t s = Ok s' /\ checkpoint_list s' = checkpoint_list s /\ network s' = network s /\
    queued s' = queued s /\ outbox s' = outbox s /\ verified_height max s' = t /\ ProgressWf s' max /\
    verifier_progress s' = (if decide (t = max) then FinalCheckpoint else PreviousCheckpoint t) /\
    progress_cmp (verifier_progress s') (verifier_progress s) = Gt.
Proof.
  intros [LW _ _] T S F. unfold update_progress.
  assert (t0 : 0 <= t) by (by apply (lw_heights _ _ LW)).
  replace (check_height t s) with (Ok (E:=VerifyCheckpointError) tt).
  2: { unfold check_height. rewrite (list_max_height _ _ LW). cbn [obind]. rewrite Z.gtb_ltb, (proj2 (Z.ltb_ge _ _)) by lia.
       unfold verified_height in T. destruct (verifier_progress s); [done|rewrite (proj2 (Z.leb_gt _ _)) by lia; done..|done]. }
  rewrite (list_max_height _ _ LW). cbn [obind].
  assert (Cmp : forall p, (p = FinalCheckpoint \/ p = PreviousCheckpoint t) -> progress_cmp p (verifier_progress s) = Gt).
  { unfold progress_cmp, verified_height in *. intros p [->| ->]; destruct (decide _) as [e|_]; [congruence| | |];
      destruct (verifier_progress s); simplify_eq; (lia || done || (apply Z.compare_gt_iff; lia)). }
  destruct (Z.eqb_spec t max) as [->|N].
  - rewrite diagnostics_Ok with (max := max) by (exact LW || lia). cbn [obind]. eexists. split; [done|]. rewrite decide_True by done.
    split_and!; try done. apply Cmp. by left.
  - unfold contains. rewrite bool_decide_true by done.
    rewrite diagnostics_Ok with (max := max) by (exact LW || lia). cbn [obind]. eexists. split; [done|]. rewrite decide_False by done.
    split_and!; try done; [split; [lia|done]|]. apply Cmp. by right.
Qed.

Lemma previous_hash {E} max s : chain (-1) = GENESIS_PREVIOUS_BLOCK_HASH -> VerifierWf max s ->
  verifier_progress s <> FinalCheckpoint ->
  process_checkpoint_range (E:=E) s = process_target (chain (verified_height max s)) s.
Proof.
  intros G [LW _ PW] F. unfold process_checkpoint_range, previous_checkpoint_hash, verified_height, ProgressWf in *.
  destruct (verifier_progress s) as [|h|h|]; cbn [obind]; [by rewrite G| |destruct PW as [_ [x X]]|done].
  - by destruct PW as [_ ->].
  - unfold hash_at. rewrite X. cbn [expect obind]. by rewrite (lw_chain _ _ LW _ _ X).
Qed.

Lemma QueueWf_sub queue queue' max : QueueWf queue max ->
  (forall h l, queue' !! h = Some l -> queue !! h = Some l \/ exists q, l = [q] /\ chosen queue h = Some q) ->
  QueueWf queue' max.
Proof.
  intros QW S. split.
  - intros h [l [L|(q & _ & C)]%S]; [apply (qw_height _ _ QW); by rewrite L|by destruct (chosen_ok _ _ _ _ QW C)].
  - intros h l [L|(q & -> & C)]%S; [by eapply qw_nonempty|done].
  - intros h l [L|(q & -> & C)]%S; [by eapply qw_length|cbn; unfold MAX_QUEUED_BLOCKS_PER_HEIGHT; lia].
  - intros h l [L|(q & -> & C)]%S; [by eapply qw_NoDup|]. apply NoDup_singleton.
  - intros h l [L|(q & -> & (l0 & L & [I _]%select_Some)%bind_Some)]%S; [by eapply qw_blocks|].
    apply Forall_singleton. pose proof (qw_blocks _ _ QW _ _ L) as B. rewrite Forall_forall in B. auto.
Qed.

Lemma available_gap max s : VerifierWf max s -> verifier_progress s <> FinalCheckpoint -> (forall t, ~ available max s t) ->
  exists h, verified_height max s < h <= max /\ queued s !! h = None.
Proof.
  intros W F N. pose proof (proj2 (verified_height_bounds _ _ W) F) as V.
  destruct (decide (Forall (fun k => is_Some (queued s !! k)) (seqZ (verified_height max s + 1) (max - verified_height max s))))
    as [A|A].
  - destruct (N max). split_and!; [done|apply (lw_max _ _ (vw_list _ _ W))|]. intros k Hk.
    rewrite Forall_forall in A. apply A, elem_of_seqZ. lia.
  - apply not_Forall_Exists, Exists_exists in A as (h & I%elem_of_seqZ & X); [|intros x; apply _].
    exists h. split; [lia|]. by apply eq_None_not_Some.
Qed.

(** The hashes that were verified, in order. *)
Definition verified_of (a : Answer) : option BlockHash := match a with Verified h => Some h | Rejected _ => None end.
Definition oks (l : list (nat * Answer)) : list BlockHash := omap (fun m => verified_of m.2) l.

Lemma oks_rejected l : Forall (fun m => rejected m.2) l -> oks l = [].
Proof. induction 1 as [|[t []] l R F IH]; cbn in *; done. Qed.
Lemma oks_app l k : oks (l ++ k) = oks l ++ oks k.
Proof. apply omap_app. Qed.
Lemma oks_blocks queue max blocks : QueueWf queue max -> forall lo, picked queue lo blocks ->
  oks ((fun q => (tx q, Verified (qhash q))) <$> blocks) = chain <$> seqZ lo (Z.of_nat (length blocks)).
Proof.
  intros QW. induction blocks as [|q blocks IH]; intros lo P; [done|]. destruct P as [C P].
  destruct (chosen_ok _ _ _ _ QW C) as (_ & Hq & _). cbn [length]. rewrite seqZ_cons by lia.
  replace (Z.pred (Z.of_nat (S (length blocks)))) with (Z.of_nat (length blocks)) by lia.
  cbn. rewrite Hq. f_equal. apply (IH (lo + 1) P).
Qed.

(** What processing the queue does. *)
Record processed (max : Z) (s s' : CheckpointVerifier) : Prop := {
  pr_wf : VerifierWf max s';
  pr_list : checkpoint_list s' = checkpoint_list s;
  pr_network : network s' = network s;
  pr_height : verified_height max s <= verified_height max s';
  pr_checkpoint : verified_height max s' = verified_height max s \/ is_Some (checkpoint_list s !! verified_height max s');
  pr_oks : oks (outbox s') = oks (outbox s) ++
    (chain <$> seqZ (verified_height max s + 1) (verified_height max s' - verified_height max s));
  pr_txs : (outbox s').*1 ++ txs (queued s') ≡ₚ (outbox s).*1 ++ txs (queued s);
  pr_chosen h : verified_height max s' < h -> chosen (queued s') h = chosen (queued s) h;
  pr_gap : verifier_progress s' <> FinalCheckpoint ->
    exists h, verified_height max s' < h <= max /\ chosen (queued s') h = None;
}.

Lemma range_failed_Ok {E} max s t s1 msgs blocks cut : VerifierWf max s -> verifier_progress s <> FinalCheckpoint ->
  available max s t -> (forall t', available max s t' -> t' <= t) ->
  loop_end (queued s) (verified_height max s + 1) (t + 1) s [] (RangeFailed blocks) s1 msgs blocks cut ->
  exists s', range_failed (E:=E) t (verifier_progress s) blocks s1 = Ok s' /\ processed max s s' /\
    verifier_progress s' = verifier_progress s.
Proof.
  intros W F Av Mx [(M1 & M2 & M3 & M4 & M5) R K T X]. destruct X as [[? _]|(_ & C1 & C2 & P & Le)]; [done|].
  cbn [length] in Le. destruct (put_back_spec _ _ _ (vw_queue _ _ W) _ (queued s1) P) as [B1 B2].
  { intros k Hk. rewrite K, decide_True by lia. done. }
  unfold range_failed. set (s2 := with_queue (put_back blocks (queued s1)) s1).
  assert (Q2 : forall k, queued s2 !! k = if decide (cut + 1 <= k < t + 1) then (fun q => [q]) <$> chosen (queued s) k
     else if decide (k = cut) then None else queued s !! k).
  { intros k. cbn. rewrite B1, K. replace (cut + 1 + Z.of_nat (length blocks)) with (t + 1) by lia.
    destruct (decide _); [done|]. destruct (decide _), (decide _); (done || lia). }
  assert (V2 : verified_height max s2 = verified_height max s) by (unfold verified_height; cbn; by rewrite M4).
  assert (W2 : VerifierWf max s2).
  { split.
    - cbn. rewrite M1. apply W.
    - eapply QueueWf_sub; [apply W|]. intros h l L. rewrite Q2 in L. destruct (decide _).
      + apply fmap_Some in L as (q & ? & ->). eauto.
      + destruct (decide _); [done|auto].
    - pose proof (vw_progress _ _ W). unfold ProgressWf in *. cbn. by rewrite M4, M1, M3. }
  cbn [verifier_progress]. rewrite (bool_decide_true (verifier_progress s2 = _)) by (cbn; done). cbn [assert_that obind].
  destruct (target_cases (E:=E) max s2 W2) as (o & -> & O); [cbn; congruence|]. cbn [obind].
  assert (Cut : queued s2 !! cut = None) by (rewrite Q2, decide_False, decide_True by lia; done).
  assert (Al : assert_that (E:=E) (bool_decide (o = WaitingForBlocks) || bool_decide (target_partial_cmp o (Checkpoint t) = Some Lt)) = Ok tt).
  { destruct O as [(t' & -> & (A1 & A2 & A3) & _)|[-> _]]; [|done]. rewrite V2 in A1, A3.
    rewrite (bool_decide_true (target_partial_cmp _ _ = _)); [by rewrite orb_true_r|]. cbn. f_equal. apply Z.compare_lt_iff.
    destruct (decide (t' < cut)); [lia|]. destruct (A3 cut) as [? A]; [lia|]. congruence. }
  rewrite Al. cbn [obind]. exists s2. split; [done|]. split; [|done]. split; [done|done|done|lia|by left|..].
  - cbn. rewrite M5, oks_app, (oks_rejected _ R), V2, Z.sub_diag. done.
  - cbn. rewrite M5, B2, fmap_app. rewrite <- app_assoc. cbn [app fmap list_fmap] in T. rewrite T. solve_Permutation.
  - intros h Hh. unfold chosen at 1. rewrite Q2. destruct (decide _) as [D|D].
    + destruct (chosen (queued s) h) as [q|] eqn:C; [|done]. cbn.
      destruct (chosen_ok _ _ _ _ (vw_queue _ _ W) C) as (_ & Hq & _). unfold select. by rewrite filter_cons_True.
    + destruct (decide _) as [->|]; [by rewrite C2|done].
  - intros _. exists cut. rewrite V2. pose proof (qw_height _ _ (vw_queue _ _ W) cut) as B.
    destruct Av as (A1 & A2 & A3). split; [destruct (B (A3 cut ltac:(lia))); lia|]. unfold chosen. by rewrite Cut.
Qed.

Lemma progress_assertion {E} max s t : VerifierWf max s ->
  verifier_progress s = (if decide (t = max) then FinalCheckpoint else PreviousCheckpoint t) ->
  (if decide (verifier_progress s = FinalCheckpoint)
   then let? max := max_height (checkpoint_list s) in assert_that (t =? max)
   else assert_that (E:=E) (bool_decide (verifier_progress s = PreviousCheckpoint t))) = Ok tt.
Proof.
  intros W ->. destruct (decide (t = max)) as [->|N].
  - rewrite decide_True, (list_max_height _ _ (vw_list _ _ W)) by done. cbn [obind]. by rewrite Z.eqb_refl.
  - by rewrite decide_False, bool_decide_true by done.
Qed.

Lemma no_target_left {E} max s : VerifierWf max s -> (forall t, verifier_progress s <> FinalCheckpoint -> ~ available max s t) ->
  exists o, target_checkpoint_height (E:=E) s = Ok o /\ (o = WaitingForBlocks \/ o = FinishedVerifying).
Proof.
  intros W N. destruct (decide (verifier_progress s = FinalCheckpoint)) as [e|F].
  - exists FinishedVerifying. split; [unfold target_checkpoint_height; by rewrite e|by right].
  - destruct (target_cases (E:=E) max s W F) as (o & -> & [(t & _ & A & _)|[-> _]]); [by destruct (N t F)|eauto].
Qed.

Lemma range_verified_Ok {E} max s t s1 msgs blocks cut : VerifierWf max s -> verifier_progress s <> FinalCheckpoint ->
  available max s t -> (forall t', available max s t' -> t' <= t) ->
  loop_end (queued s) (verified_height max s + 1) (t + 1) s []
    (RangeValid (chain (verified_height max s)) blocks) s1 msgs blocks cut ->
  exists s', range_verified (E:=E) t (verifier_progress s) (chain (verified_height max s))
    (chain (verified_height max s)) blocks s1 = Ok s' /\ processed max s s' /\ verified_height max s' = t.
Proof.
  intros W F Av Mx [(M1 & M2 & M3 & M4 & M5) R K T X]. destruct X as [(_ & -> & P & Le)|[? _]]; [|done].
  cbn [length] in Le. unfold range_verified. rewrite bool_decide_true by done. cbn [assert_that obind].
  set (s2 := send _ s1). destruct Av as (A1 & A2 & A3).
  assert (Tm : t <= max) by (apply (lw_max _ _ (vw_list _ _ W)), A2).
  assert (W2 : VerifierWf max s2).
  { split; [cbn; rewrite M1; apply W| |].
    - eapply QueueWf_sub; [apply W|]. intros h l L. cbn in L. rewrite K in L. destruct (decide _); [done|auto].
    - pose proof (vw_progress _ _ W). unfold ProgressWf in *. cbn. by rewrite M4, M1, M3. }
  assert (V2 : verified_height max s2 = verified_height max s) by (unfold verified_height; cbn; by rewrite M4).
  destruct (update_progress_Ok (E:=E) max s2 t W2) as (s3 & -> & U1 & U2 & U3 & U4 & U5 & U6 & U7 & U8);
    [lia|cbn; by rewrite M1|cbn; congruence|]. cbn [obind].
  cbn [s2 send verifier_progress] in U8. rewrite M4 in U8. rewrite U8, bool_decide_true by done. cbn [assert_that obind].
  assert (W3 : VerifierWf max s3) by (split; [rewrite U1|rewrite U3|done]; apply W2).
  rewrite (progress_assertion _ _ _ W3 U7). cbn [obind]. assert (Q3 : forall k, t < k -> queued s3 !! k = queued s !! k).
  { intros k Hk. rewrite U3. cbn. rewrite K, decide_False by lia. done. }
  assert (NoAv : forall t', verifier_progress s3 <> FinalCheckpoint -> ~ available max s3 t').
  { intros t' _ (B1 & B2 & B3). rewrite U5 in B1, B3. rewrite U1 in B2. cbn in B2. rewrite M1 in B2.
    enough (t' <= t) by lia. apply Mx. split_and!; [lia|done|]. intros k Hk. destruct (decide (k <= t)); [apply A3; lia|].
    rewrite <- Q3 by lia. apply B3. lia. }
  destruct (no_target_left (E:=E) max s3 W3 NoAv) as (o & -> & Ho). cbn [obind]. replace (assert_that _) with (Ok (E:=E) tt) by (by destruct Ho as [->| ->]).
  cbn [obind]. exists s3. split; [done|]. split; [|done]. split; [done|rewrite U1; done|rewrite U2; done|lia|right; by rewrite U5|..].
  - rewrite U4, U5. cbn. rewrite M5, !oks_app, (oks_rejected _ R), app_nil_r. f_equal.
    rewrite (oks_blocks _ _ _ (vw_queue _ _ W) _ P). by replace (Z.of_nat (length blocks)) with (t - verified_height max s) by lia.
  - rewrite U3, U4. cbn. rewrite M5, !fmap_app, <- list_fmap_compose. cbn [app fmap list_fmap] in T. rewrite T.
    change (list_fmap _ _ tx blocks) with (tx <$> blocks). unfold compose. cbn [fst]. solve_Permutation.
  - intros h Hh. rewrite U5 in Hh. unfold chosen. by rewrite Q3.
  - intros N. destruct (available_gap max s3 W3 N) as (h & Hh & G); [auto|]. exists h. split; [done|].
    unfold chosen. by rewrite G.
Qed.

Lemma process_loop {E} max s t : chain (-1) = GENESIS_PREVIOUS_BLOCK_HASH -> VerifierWf max s ->
  verifier_progress s <> FinalCheckpoint -> available max s t -> (forall t', available max s t' -> t' <= t) ->
  exists r s1 msgs blocks cut,
    loop_end (queued s) (verified_height max s + 1) (t + 1) s [] r s1 msgs blocks cut /\
    process_checkpoint_range (E:=E) s =
      match r with
      | RangeValid expected blocks =>
          range_verified t (verifier_progress s) (chain (verified_height max s)) expected blocks s1
      | RangeFailed blocks => range_failed t (verifier_progress s) blocks s1
      end.
Proof.
  intros G W F Av Mx. rewrite (previous_hash max s G W F). unfold process_target.
  destruct (target_cases (E:=E) max s W F) as (o & -> & [(t0 & -> & Av0 & Mx0)|[-> N]]); cbn [obind]; [|by destruct (N t)].
  assert (t0 = t) as -> by (apply Z.le_antisymm; auto). clear Av0 Mx0.
  pose proof Av as (A1 & [x X] & A3). pose proof (verified_height_bounds _ _ W) as [B _].
  unfold hash_at. rewrite X. cbn [expect obind]. rewrite (lw_chain _ _ (vw_list _ _ W) _ _ X).
  destruct (current_start_bound s) as [b|] eqn:Bd; [|unfold current_start_bound in Bd; by destruct (verifier_progress s)].
  cbn [expect obind]. rewrite (range_heights max s t b W Av Bd). cbn [obind].
  set (n := Z.to_nat (t - verified_height max s)).
  destruct (process_heights_spec (E:=E) (queued s) max n s (verified_height max s + 1) [])
    as (r & s1 & msgs & blocks & cut & Pr & Le); [apply W|apply W|lia|done|intros; apply A3; lia|done|].
  replace (verified_height max s + 1 + Z.of_nat n) with (t + 1) in * by lia. replace (t + 1 - 1) with t in Pr by lia.
  exists r, s1, msgs, blocks, cut. split; [done|]. rewrite Pr. done.
Qed.

Lemma picked_chosen queue blocks : forall lo k, picked queue lo blocks -> lo <= k < lo + Z.of_nat (length blocks) ->
  is_Some (chosen queue k).
Proof.
  induction blocks as [|q blocks IH]; intros lo k P K; [cbn in K; lia|]. destruct P as [C P]. cbn [length] in K.
  destruct (decide (k = lo)) as [->|]; [by rewrite C|]. apply (IH (lo + 1) k P). lia.
Qed.

(** The range up to the target is verified when the chain is queued, and put
    back otherwise. *)
Lemma process_range_cases {E} max s t : chain (-1) = GENESIS_PREVIOUS_BLOCK_HASH -> VerifierWf max s ->
  verifier_progress s <> FinalCheckpoint -> available max s t -> (forall t', available max s t' -> t' <= t) ->
  exists s', process_checkpoint_range (E:=E) s = Ok s' /\ processed max s s' /\
    (((forall k, verified_height max s < k <= t -> is_Some (chosen (queued s) k)) /\ verified_height max s' = t) \/
     ((exists k, verified_height max s < k <= t /\ chosen (queued s) k = None) /\ verifier_progress s' = verifier_progress s)).
Proof.
  intros G W F Av Mx. destruct (process_loop (E:=E) max s t G W F Av Mx) as (r & s1 & msgs & blocks & cut & Le & ->).
  pose proof (le_result _ _ _ _ _ _ _ _ _ _ Le) as [(-> & _ & P & L)|(-> & Cut & Cn & P & L)]; cbn [length] in L.
  - replace (verified_height max s + 1 - 1) with (verified_height max s) in * by lia.
    destruct (range_verified_Ok (E:=E) max s t s1 msgs blocks cut W F Av Mx Le) as (s' & -> & Pr & V).
    exists s'. split_and!; [done..|]. left. split; [|done]. intros k Hk. eapply picked_chosen; [done|lia].
  - destruct (range_failed_Ok (E:=E) max s t s1 msgs blocks cut W F Av Mx Le) as (s' & -> & Pr & V).
    exists s'. split_and!; [done..|]. right. split; [|done]. exists cut. split; [lia|done].
Qed.

Lemma process_checkpoint_range_Ok {E} max s : chain (-1) = GENESIS_PREVIOUS_BLOCK_HASH -> VerifierWf max s ->
  exists s', process_checkpoint_range (E:=E) s = Ok s' /\ (verifier_progress s <> FinalCheckpoint -> processed max s s').
Proof.
  intros G W. destruct (decide (verifier_progress s = FinalCheckpoint)) as [e|F].
  - exists s. split; [|done]. unfold process_checkpoint_range, previous_checkpoint_hash. by rewrite e.
  - destruct (target_cases (E:=E) max s W F) as (o & T & [(t & -> & Av & Mx)|[-> N]]).
    + destruct (process_range_cases (E:=E) max s t G W F Av Mx) as (s' & ? & ? & _). eauto.
    + rewrite (previous_hash max s G W F). unfold process_target. rewrite T. cbn [obind].
      exists s. split; [done|]. intros _. split; [done|done|done|lia|by left|by rewrite Z.sub_diag, app_nil_r|done|done|].
      intros _. destruct (available_gap max s W F N) as (h & Hh & Gp). exists h. split; [done|]. unfold chosen. by rewrite Gp.
Qed.

(** A range is verified as a whole or not at all.  When the target of the
    verifier is the checkpoint [t], processing the queue verifies the range up to
    [t] exactly when the block of the chain is queued at each of its heights;
    otherwise the progress stays and no block is answered as verified, even those
    below a lower checkpoint whose range is complete. *)
Theorem range_verified_as_a_whole {E} max s t : chain (-1) = GENESIS_PREVIOUS_BLOCK_HASH -> VerifierWf max s ->
  verifier_progress s <> FinalCheckpoint -> target_checkpoint_height (E:=E) s = Ok (Checkpoint t) ->
  exists s', process_checkpoint_range (E:=E) s = Ok s' /\
    ((forall k, verified_height max s < k <= t -> is_Some (chosen (queued s) k)) ->
       verified_height max s' = t /\
       oks (outbox s') = oks (outbox s) ++ (chain <$> seqZ (verified_height max s + 1) (t - verified_height max s))) /\
    (forall k, verified_height max s < k <= t -> chosen (queued s) k = None ->
       verifier_progress s' = verifier_progress s /\ oks (outbox s') = oks (outbox s)).
Proof.
  intros G W F T. destruct (target_cases (E:=E) max s W F) as (o & To & [(t0 & -> & Av & Mx)|[-> N]]); [|congruence].
  assert (t0 = t) as -> by congruence.
  destruct (process_range_cases (E:=E) max s t G W F Av Mx) as (s' & Pr & P & X). exists s'. split; [done|].
  pose proof (pr_oks _ _ _ P) as K. destruct X as [[A V]|[(k & Hk & Cn) V]].
  - split; [by rewrite <- V|]. intros k Hk Cn. destruct (A k Hk) as [? Ck]. congruence.
  - split; [intros A; destruct (A k Hk) as [? Ck]; congruence|]. intros _ _ _. split; [done|]. rewrite K.
    replace (verified_height max s') with (verified_height max s) by (unfold verified_height; by rewrite V).
    by rewrite Z.sub_diag, app_nil_r.
Qed.

(** *** Queueing *)

Lemma replace_queued_spec new l :
  match replace_queued new l with
  | Some (old, l') => exists l1 q l2, l = l1 ++ q :: l2 /\ l' = l1 ++ new :: l2 /\ qhash q = qhash new /\ old = tx q
  | None => qhash new ∉ ((fun q => qhash q) <$> l)
  end.
Proof.
  induction l as [|q l IH]; cbn; [apply not_elem_of_nil|]. destruct (decide _) as [e|N].
  - by exists [], q, l.
  - destruct (replace_queued new l) as [[old l']|]; cbn.
    + destruct IH as (l1 & q' & l2 & -> & -> & ? & ?). by exists (q :: l1), q', l2.
    + by apply not_elem_of_cons.
Qed.

(** What queueing a block does. *)
Record queued_up (max : Z) (v : CheckpointVerifiedBlock) (t : nat) (s s' : CheckpointVerifier) : Prop := {
  qu_wf : VerifierWf max s';
  qu_list : checkpoint_list s' = checkpoint_list s;
  qu_network : network s' = network s;
  qu_progress : verifier_progress s' = verifier_progress s;
  qu_oks : oks (outbox s') = oks (outbox s);
  qu_txs : (outbox s').*1 ++ txs (queued s') ≡ₚ t :: (outbox s).*1 ++ txs (queued s);
  qu_chosen h : is_Some (chosen (queued s) h) -> is_Some (chosen (queued s') h);
  qu_new : hash v = chain (height v) -> is_Some (chosen (queued s') (height v));
}.

Lemma chosen_is_Some queue h : is_Some (chosen queue h) <-> exists l, queue !! h = Some l /\ chain h ∈ ((fun q => qhash q) <$> l).
Proof.
  unfold chosen. destruct (queue !! h) as [l|]; cbn.
  - rewrite <- not_eq_None_Some, select_None. split; [|naive_solver]. intros N. exists l. split; [done|].
    by destruct (decide (chain h ∈ ((fun q => qhash q) <$> l))).
  - split; [by intros []|naive_solver].
Qed.

Lemma QueueWf_insert queue max h l : QueueWf queue max -> 0 <= h <= max -> l <> [] ->
  (length l <= MAX_QUEUED_BLOCKS_PER_HEIGHT)%nat -> NoDup ((fun q => qhash q) <$> l) -> Forall (queued_ok h) l ->
  QueueWf (<[h := l]> queue) max.
Proof.
  intros [Q1 Q2 Q3 Q4 Q5] ?????.
  split; intros k; destruct (decide (k = h)) as [->|N];
    rewrite ?lookup_insert_eq, ?(lookup_insert_ne queue h k) by done; naive_solver.
Qed.

(** The invariant after an entry of the queue is written, which keeps the hashes
    of the entry. *)
Lemma insert_queued_up max v t s l l' msgs : VerifierWf max s -> 0 <= height v <= max ->
  default [] (queued s !! height v) = l -> l' <> [] ->
  (length l' <= MAX_QUEUED_BLOCKS_PER_HEIGHT)%nat -> NoDup ((fun q => qhash q) <$> l') -> Forall (queued_ok (height v)) l' ->
  (forall x, x ∈ ((fun q => qhash q) <$> l) -> x ∈ ((fun q => qhash q) <$> l')) ->
  hash v ∈ ((fun q => qhash q) <$> l') -> Forall (fun m => rejected m.2) msgs -> msgs.*1 ++ (tx <$> l') ≡ₚ t :: (tx <$> l) ->
  queued_up max v t s (send msgs (with_queue (<[height v := l']> (queued s)) s)).
Proof.
  intros W B D N L ND F I V R T. split; [split; [apply W|by apply QueueWf_insert; [apply W|..]|apply W]|done..| | | |].
  - cbn. by rewrite oks_app, (oks_rejected _ R), app_nil_r.
  - cbn. rewrite fmap_app, txs_update. assert (X : txs (queued s) ≡ₚ (tx <$> l) ++ txs (delete (height v) (queued s))).
    { destruct (queued s !! height v) as [k|] eqn:Q; cbn in D; subst; [by apply txs_delete|]. by rewrite delete_id. }
    rewrite X. rewrite <- app_assoc, (app_assoc msgs.*1), T. cbn. by rewrite <- Permutation_middle.
  - intros h. cbn. rewrite !chosen_is_Some. intros (k & K & C). destruct (decide (h = height v)) as [->|Ne].
    + rewrite K in D. cbn in D. subst. exists l'. rewrite lookup_insert_eq. auto.
    + exists k. by rewrite lookup_insert_ne.
  - intros C. cbn. rewrite chosen_is_Some. exists l'. rewrite lookup_insert_eq, <- C. auto.
Qed.

Lemma enqueue_cases max v t s : VerifierWf max s -> 0 <= height v <= max ->
  on_chain (hash v) (previous_block_hash (block v)) ->
  enqueue v t s = Err QueuedLimit \/ exists s', enqueue v t s = Ok s' /\ queued_up max v t s s'.
Proof.
  intros W B O. unfold enqueue. set (new := mkQueued v t). set (l := default [] (queued s !! height v)).
  assert (L : (length l <= MAX_QUEUED_BLOCKS_PER_HEIGHT)%nat /\ NoDup ((fun q => qhash q) <$> l) /\ Forall (queued_ok (height v)) l).
  { unfold l. destruct (queued s !! height v) as [k|] eqn:Q; cbn.
    - split_and!; [by eapply qw_length; [apply W|]|by eapply qw_NoDup; [apply W|]|by eapply qw_blocks; [apply W|]].
    - split_and!; [lia|constructor|constructor]. }
  destruct L as (L1 & L2 & L3). assert (O1 : queued_ok (height v) new) by done.
  pose proof (replace_queued_spec new l) as R. destruct (replace_queued new l) as [[old l']|].
  - right. destruct R as (l1 & q & l2 & El & -> & Hq & ->). rewrite El in *. cbn in Hq. eexists. split; [done|].
    rewrite fmap_app, fmap_cons in L2. rewrite length_app in L1. apply Forall_app in L3 as [L3 [_ L4]%Forall_cons].
    eapply insert_queued_up; [done|done|exact El|by destruct l1|by rewrite length_app| | | | |by repeat constructor|].
    + rewrite fmap_app, fmap_cons. cbn. by rewrite <- Hq.
    + by rewrite Forall_app, Forall_cons.
    + rewrite !fmap_app, !fmap_cons. cbn. by rewrite <- Hq.
    + rewrite fmap_app, fmap_cons, elem_of_app, elem_of_cons. cbn. auto.
    + rewrite !fmap_app, !fmap_cons. cbn. solve_Permutation.
  - destruct (Nat.leb_spec MAX_QUEUED_BLOCKS_PER_HEIGHT (length l)) as [Lm|Lm]; [by left|right].
    set (s' := with_queue _ s). assert (Dg : queued_block_diagnostics (E:=VerifyCheckpointError) s' = Ok tt).
    { unfold queued_block_diagnostics. destruct (last (keys (queued s'))) eqn:K.
      - cbn [expect obind s' with_queue checkpoint_list]. by rewrite (list_max_height _ _ (vw_list _ _ W)).
      - apply last_None in K. exfalso. apply (not_elem_of_nil (height v)). rewrite <- K, elem_of_keys. cbn. by rewrite lookup_insert_eq. }
    rewrite Dg. cbn [obind]. exists s'. split; [done|].
    replace s' with (send [] s') by (unfold send; rewrite app_nil_r; done). unfold s'.
    eapply insert_queued_up; [done|done|done|by destruct l|rewrite length_app; cbn; lia| | | | |done|].
    + rewrite fmap_app. apply NoDup_app. split_and!; [done| |apply NoDup_singleton]. cbn. intros x X ->%list_elem_of_singleton. done.
    + by rewrite Forall_app, Forall_singleton.
    + intros x. rewrite fmap_app, elem_of_app. auto.
    + rewrite fmap_app, elem_of_app. right. by left.
    + rewrite fmap_app. cbn. solve_Permutation.
Qed.

(** *** Requests *)

(** A tip of the state is on the chain. *)
Definition tip_ok (tip : option (Z * BlockHash)) : Prop :=
  match tip with Some (h, x) => 0 <= h /\ x = chain h | None => True end.

Lemma progress_from_tip_Ok {E} l max tip : ListWf l max -> tip_ok tip ->
  exists x p, progress_from_tip (E:=E) l tip = Ok (x, p) /\
    match progress_height p with Some h => 0 <= h | None => True end /\
    forall s, checkpoint_list s = l -> ProgressWf (with_progress x p s) max /\
      verified_height max (with_progress x p s) = match tip with Some (h, _) => Z.min h max | None => -1 end.
Proof.
  intros W T. unfold progress_from_tip, ProgressWf, verified_height. destruct tip as [[h x]|].
  - destruct T as [T ->]. rewrite (list_max_height _ _ W). cbn [obind]. rewrite Z.geb_leb.
    destruct (Z.leb_spec max h); eexists _, _; (split; [done|]); cbn; split; try done; intros s <-; split; (done || lia).
  - eexists _, _. by split.
Qed.

Lemma reset_progress_Ok {E} max tip s : VerifierWf max s -> tip_ok tip ->
  exists s', reset_progress (E:=E) tip s = Ok s' /\ VerifierWf max s' /\ checkpoint_list s' = checkpoint_list s /\
    network s' = network s /\ queued s' = queued s /\ outbox s' = outbox s.
Proof.
  intros W T. unfold reset_progress. destruct (progress_from_tip_Ok (E:=E) _ max tip (vw_list _ _ W) T) as (x & p & -> & D & P).
  cbn [obind]. rewrite diagnostics_Ok with (max := max) by (apply W || done). cbn [obind].
  eexists. split; [done|]. split_and!; try done. split; [apply W..|]. by apply P.
Qed.

Lemma from_checkpoint_list_Ok {E} l max net tip : ListWf l max -> tip_ok tip ->
  exists s, from_checkpoint_list (E:=E) l net tip = Ok s /\ VerifierWf max s /\ checkpoint_list s = l /\ network s = net /\ queued s = ∅ /\
    outbox s = [] /\ verified_height max s = match tip with Some (h, _) => Z.min h max | None => -1 end.
Proof.
  intros W T. unfold from_checkpoint_list. destruct (progress_from_tip_Ok (E:=E) l max tip W T) as (x & p & -> & D & P).
  cbn [obind]. set (s := mkVerifier _ _ _ _ _ _). destruct (P s eq_refl) as [P1 P2].
  replace (if decide _ then _ else _) with (Ok (E:=E) tt).
  - exists s. split; [done|]. split_and!; [|done..]. split; [done| |done]. split; intros h; cbn; rewrite lookup_empty; (done || by intros []).
  - destruct (decide _); [done|]. by rewrite diagnostics_Ok with (max := max).
Qed.

Section Calls.
Context `{Hashes} (legacy modern : TransactionCodec) {W : EquihashVerifier} {C : CheckpointEnv}.

(** What is assumed of a submitted block: its hash determines its parent, and the
    checks of its work and its Merkle root return. *)
Record block_ok (net : Network) (b : Block) : Prop := {
  bo_height h : coinbase_height b = Some h -> 0 <= h;
  bo_chain : on_chain (block_hash b) (previous_block_hash b);
  bo_work h : coinbase_height b = Some h -> returns (check_work legacy modern b net h (block_hash b));
  bo_root h : coinbase_height b = Some h ->
    returns (merkle_root_validity net (coinbase_height b) (merkle_root b) (tx_branches b) (tx_hashes b));
}.

Lemma check_height_cases max s h : VerifierWf max s -> 0 <= h ->
  (check_height h s = Ok tt /\ verified_height max s < h <= max) \/ (exists e, check_height h s = Err e).
Proof.
  intros V Hh. unfold check_height, verified_height. rewrite (list_max_height _ _ (vw_list _ _ V)). cbn [obind].
  rewrite Z.gtb_ltb. destruct (Z.ltb_spec max h); [eauto|].
  destruct (verifier_progress s) as [|p|p|]; [left; split; [done|lia]|destruct (Z.leb_spec h p); [eauto|left; split; [done|lia]]..|eauto].
Qed.

Lemma check_block_cases max b s : VerifierWf max s -> block_ok (network s) b ->
  (exists e, check_block legacy modern b s = Err e) \/
  (exists v, check_block legacy modern b s = Ok v /\ block v = b /\ hash v = block_hash b /\
     coinbase_height b = Some (height v) /\ verified_height max s < height v <= max).
Proof.
  intros V [B1 _ B3 B4]. unfold check_block. destruct (coinbase_height b) as [h|] eqn:Ch; [|left; eauto]. cbn [ok_or obind].
  destruct (check_height_cases max s h V (B1 h eq_refl)) as [[-> Hh]|[e ->]]; [|left; eauto]. cbn [obind].
  specialize (B3 h eq_refl). destruct (check_work _ _ _ _ _ _) as [[]|e|]; [|left; eauto|done]. cbn [obind].
  unfold verified_new. rewrite Ch. cbn [expect obind transaction_hashes]. specialize (B4 h eq_refl).
  destruct (merkle_root_validity _ _ _ _ _) as [[]|e|]; [|left; eauto|done]. cbn [map_err obind]. right. eexists. split; [done|].
  split_and!; try done; cbn; lia.
Qed.

(** What a request does when the progress is not reset. *)
Record called (max : Z) (b : Block) (s : CheckpointVerifier) (r : option VerifyCheckpointError) (s' : CheckpointVerifier) : Prop := {
  ca_height : verified_height max s <= verified_height max s';
  ca_checkpoint : verified_height max s' = verified_height max s \/ is_Some (checkpoint_list s !! verified_height max s');
  ca_oks : oks (outbox s') = oks (outbox s) ++
    (chain <$> seqZ (verified_height max s + 1) (verified_height max s' - verified_height max s));
  ca_chosen h : verified_height max s' < h -> is_Some (chosen (queued s) h) -> is_Some (chosen (queued s') h);
  ca_new h : r = None -> coinbase_height b = Some h -> block_hash b = chain h ->
    verified_height max s' < h -> is_Some (chosen (queued s') h);
  ca_gap : r = None -> verifier_progress s' <> FinalCheckpoint ->
    exists h, verified_height max s' < h <= max /\ chosen (queued s') h = None;
  ca_rejected : r <> None -> s' = s;
}.

Lemma call_Ok {E} max reset b t s : chain (-1) = GENESIS_PREVIOUS_BLOCK_HASH -> VerifierWf max s ->
  block_ok (network s) b -> (forall tip, reset = Some tip -> tip_ok tip) ->
  exists r s', call (E:=E) legacy modern reset b t s = Ok (r, s') /\ VerifierWf max s' /\
    checkpoint_list s' = checkpoint_list s /\ network s' = network s /\
    (outbox s').*1 ++ txs (queued s') ≡ₚ
      (match r with None => [t] | Some _ => [] end) ++ (outbox s).*1 ++ txs (queued s) /\
    (reset = None -> called max b s r s').
Proof.
  intros G V B R. unfold call.
  assert (X : exists s0, (match reset with Some tip => reset_progress tip s | None => Ok (E:=E) s end) = Ok s0 /\ VerifierWf max s0 /\
    checkpoint_list s0 = checkpoint_list s /\ network s0 = network s /\ queued s0 = queued s /\ outbox s0 = outbox s /\
    (reset = None -> s0 = s)).
  { destruct reset as [tip|]; [|by exists s]. destruct (reset_progress_Ok (E:=E) max tip s V (R tip eq_refl)) as (s0 & ? & ? & ?&?&?&?).
    by exists s0. }
  destruct X as (s0 & -> & V0 & L0 & N0 & Q0 & O0 & S0). cbn [obind].
  assert (Rej : forall e, exists r s', Ok (E:=E) (Some e, s0) = Ok (r, s') /\ VerifierWf max s' /\
    checkpoint_list s' = checkpoint_list s /\ network s' = network s /\
    (outbox s').*1 ++ txs (queued s') ≡ₚ
      (match r with None => [t] | Some _ => [] end) ++ (outbox s).*1 ++ txs (queued s) /\
    (reset = None -> called max b s r s')).
  { intros e. exists (Some e), s0. split_and!; try done; [by rewrite Q0, O0|]. intros ->%S0.
    split; [lia|by left|by rewrite Z.sub_diag, app_nil_r|done..]. }
  destruct (decide _) as [F|F]; [apply Rej|]. rewrite <- N0 in B. unfold queue_block.
  destruct (check_block_cases max b s0 V0 B) as [[e ->]|(v & -> & Bv & Hv & Cv & Hh)]; [apply Rej|]. cbn [obind].
  pose proof (bo_height _ _ B _ Cv) as H0. pose proof (bo_chain _ _ B) as Oc. rewrite <- Hv, <- Bv in Oc.
  destruct (enqueue_cases max v t s0 V0) as [->|(s1 & -> & [W1 L1 N1 P1 K1 T1 C1 M1])]; [lia|done|apply Rej|].
  destruct (process_checkpoint_range_Ok (E:=E) max s1 G W1) as (s2 & -> & Pr). cbn [obind].
  destruct (Pr ltac:(congruence)) as [W2 L2 N2 H2 J2 K2 T2 C2 G2].
  assert (Vh : verified_height max s1 = verified_height max s0) by (unfold verified_height; by rewrite P1).
  rewrite Vh in *. exists None, s2. split_and!; [done..|congruence|congruence| |].
  - rewrite T2, T1, Q0, O0. done.
  - intros ->%S0. split; [done|by rewrite <- L1| | | |done|done].
    + by rewrite K2, K1.
    + intros h Hs Hc. rewrite C2 by done. auto.
    + intros h _ Ch Bh Hs. rewrite C2 by done. assert (height v = h) as <- by congruence. apply M1. congruence.
Qed.

(** *** Sequences of requests *)

(** A request: the message of the reset channel, the block and its channel. *)
Definition request : Type := option (option (Z * BlockHash)) * Block * nat.

Fixpoint run {E} (rs : list request) (s : CheckpointVerifier) :
    outcome E (list (option VerifyCheckpointError) * CheckpointVerifier) :=
  match rs with
  | [] => Ok ([], s)
  | (reset, b, t) :: rs =>
      let? ' (r, s) := call legacy modern reset b t s in
      let? ' (l, s) := run rs s in
      Ok (r :: l, s)
  end.

Definition request_ok (net : Network) (r : request) : Prop :=
  block_ok net r.1.2 /\ forall tip, r.1.1 = Some tip -> tip_ok tip.

(** The channels of the requests that were queued. *)
Fixpoint accepted (rs : list request) (l : list (option VerifyCheckpointError)) : list nat :=
  match rs, l with
  | r :: rs, None :: l => r.2 :: accepted rs l
  | _ :: rs, Some _ :: l => accepted rs l
  | _, _ => []
  end.

Definition no_reset (r : request) : Prop := r.1.1 = None.
Definition has_gap (max : Z) (s : CheckpointVerifier) : Prop :=
  verifier_progress s <> FinalCheckpoint -> exists h, verified_height max s < h <= max /\ chosen (queued s) h = None.

(** What a sequence without resets does. *)
Record ran (max : Z) (rs : list request) (s : CheckpointVerifier) (l : list (option VerifyCheckpointError))
    (s' : CheckpointVerifier) : Prop := {
  rn_height : verified_height max s <= verified_height max s';
  rn_checkpoint : verified_height max s' = verified_height max s \/ is_Some (checkpoint_list s !! verified_height max s');
  rn_oks : oks (outbox s') = oks (outbox s) ++
    (chain <$> seqZ (verified_height max s + 1) (verified_height max s' - verified_height max s));
  rn_chosen h : verified_height max s' < h -> is_Some (chosen (queued s) h) -> is_Some (chosen (queued s') h);
  rn_new i b t h : rs !! i = Some (None, b, t) -> l !! i = Some None -> coinbase_height b = Some h ->
    block_hash b = chain h -> verified_height max s' < h -> is_Some (chosen (queued s') h);
  rn_gap : has_gap max s -> has_gap max s';
}.

Lemma ran_cons max b t rs s r s1 l s' : checkpoint_list s1 = checkpoint_list s -> called max b s r s1 -> ran max rs s1 l s' ->
  ran max ((None, b, t) :: rs) s (r :: l) s'.
Proof.
  intros L1 [H1 J1 K1 C1 N1 G1 R1] [H2 J2 K2 C2 N2 G2]. split.
  - lia.
  - rewrite L1 in J2. destruct J2 as [->|]; auto.
  - rewrite K2, K1, <- app_assoc, <- fmap_app. do 2 f_equal.
    replace (verified_height max s' - verified_height max s)
      with ((verified_height max s1 - verified_height max s) + (verified_height max s' - verified_height max s1)) by lia.
    rewrite seqZ_app by lia. do 2 f_equal. lia.
  - intros h Hh ?. apply C2; [done|]. apply C1; [lia|done].
  - intros [|i] b' t' h; cbn.
    + intros [= <- <-] [= ->] Ch Bh Hh. apply C2; [done|]. apply N1; [done..|lia].
    + apply N2.
  - intros Gs. apply G2. destruct r; [by rewrite R1|]. by intros ?; apply G1.
Qed.

Lemma run_Ok {E} max rs : forall s, chain (-1) = GENESIS_PREVIOUS_BLOCK_HASH -> VerifierWf max s ->
  Forall (request_ok (network s)) rs ->
  exists l s', run (E:=E) rs s = Ok (l, s') /\ VerifierWf max s' /\ checkpoint_list s' = checkpoint_list s /\
    length l = length rs /\
    (outbox s').*1 ++ txs (queued s') ≡ₚ accepted rs l ++ (outbox s).*1 ++ txs (queued s) /\
    (Forall no_reset rs -> ran max rs s l s').
Proof.
  induction rs as [|[[reset b] t] rs IH]; intros s G V F.
  - exists [], s. split_and!; try done. intros _. split; [lia|by left|by rewrite Z.sub_diag, app_nil_r|done|done|done].
  - apply Forall_cons in F as [[F1 F2] F3]. cbn [run].
    destruct (call_Ok (E:=E) max reset b t s G V F1 F2) as (r & s1 & -> & V1 & L1 & N1 & T1 & C1). cbn [obind].
    destruct (IH s1 G V1) as (l & s' & -> & V' & L' & Le & T' & R'); [by rewrite N1|]. cbn [obind].
    exists (r :: l), s'. split_and!; [done|done|congruence|cbn; lia| |].
    + rewrite T', T1. destruct r; cbn; [done|]. solve_Permutation.
    + intros [Nr Fr]%Forall_cons. unfold no_reset in Nr. cbn in Nr. subst. eapply ran_cons; eauto.
Qed.

(** *** The theorems *)

(** A verifier on a checkpoint list of the chain, a tip on the chain and requests
    that are assumed good. *)
Record setup (l : list (Z * BlockHash)) (m : CheckpointList) (tip : option (Z * BlockHash)) (net : Network)
    (rs : list request) : Prop := {
  su_list : from_list l = Ok m;
  su_heights : Forall (fun h => 0 <= h) l.*1;
  su_chain : Forall (fun '(h, x) => x = chain h) l;
  su_genesis : chain (-1) = GENESIS_PREVIOUS_BLOCK_HASH;
  su_tip : tip_ok tip;
  su_requests : Forall (request_ok net) rs;
}.

Lemma from_list_wf l m : from_list l = Ok m -> Forall (fun h => 0 <= h) l.*1 -> Forall (fun '(h, x) => x = chain h) l ->
  exists max, is_max m max /\ ListWf m max.
Proof.
  intros [[_ _ G _ _] ->]%from_list_Ok P Ch. apply list_to_map_is_Some in G as G'.
  destruct (nonempty_max (E:=ListError) _ G') as [max M%max_height_iff]. exists max. split; [done|]. split; [done|done| |].
  - intros h I%list_to_map_is_Some. rewrite Forall_forall in P. auto.
  - intros h x I%elem_of_list_to_map_2. rewrite Forall_forall in Ch. by apply Ch in I.
Qed.

Lemma setup_run l m tip net rs : setup l m tip net rs ->
  exists max s0 as' s, is_max m max /\ from_checkpoint_list (E:=Empty_set) m net tip = Ok s0 /\ run (E:=Empty_set) rs s0 = Ok (as', s) /\
    VerifierWf max s /\ checkpoint_list s = m /\ length as' = length rs /\ queued s0 = ∅ /\ outbox s0 = [] /\
    verified_height max s0 = match tip with Some (h, _) => Z.min h max | None => -1 end /\ VerifierWf max s0 /\
    (outbox s).*1 ++ txs (queued s) ≡ₚ accepted rs as' /\ (Forall no_reset rs -> ran max rs s0 as' s).
Proof.
  intros [L P Ch G T R]. destruct (from_list_wf _ _ L P Ch) as (max & M & LW). exists max.
  destruct (from_checkpoint_list_Ok (E:=Empty_set) m max net tip LW T) as (s0 & F0 & V0 & L0 & N0 & Q0 & O0 & H0).
  destruct (run_Ok (E:=Empty_set) max rs s0 G V0) as (as' & s & Rn & V & Ls & Le & Tx & Ra); [by rewrite N0|].
  exists s0, as', s. split_and!; [done..|congruence|done|done|done|done|done| |done].
  rewrite Tx, Q0, O0. cbn. by rewrite app_nil_r.
Qed.

Definition start_height (tip : option (Z * BlockHash)) (max : Z) : Z :=
  match tip with Some (h, _) => Z.min h max | None => -1 end.

(** The checkpoint verifier is safe.  On a checkpoint list that [from_list]
    accepts and that lies on a chain, whatever blocks are submitted in whatever
    order, and whenever the progress is reset to a tip on the chain, no assertion,
    expectation or unreachable branch of the verifier fails; every queue entry
    keeps between one and four blocks with distinct hashes at its height, no
    higher than the last checkpoint, and the progress is on the list. *)
Theorem checkpoint_verifier_safe l m tip net rs : setup l m tip net rs ->
  exists max s0 as' s, is_max m max /\ from_checkpoint_list (E:=Empty_set) m net tip = Ok s0 /\
    run (E:=Empty_set) rs s0 = Ok (as', s) /\ VerifierWf max s.
Proof. intros (max & s0 & as' & s & ?&?&?&?&_)%setup_run. by exists max, s0, as', s. Qed.



(** Every request is answered exactly once.  After any sequence of requests
    and resets, and when the verifier is then dropped, the channels that received
    an answer are exactly those of the queued requests, each as often as it was
    queued: no receiver is left dangling. *)
Theorem requests_answered_once l m tip net rs : setup l m tip net rs ->
  exists s0 as' s, from_checkpoint_list (E:=Empty_set) m net tip = Ok s0 /\ run (E:=Empty_set) rs s0 = Ok (as', s) /\
    length as' = length rs /\ queued (drop_verifier s) = ∅ /\ (outbox (drop_verifier s)).*1 ≡ₚ accepted rs as'.
Proof.
  intros (max & s0 & as' & s & _ & ? & ? & _ & _ & ? & _ & _ & _ & _ & T & _)%setup_run.
  exists s0, as', s. split_and!; try done. rewrite <- T. cbn. rewrite fmap_app, <- list_fmap_compose. f_equiv.
  apply drop_txs.
Qed.
End Calls.
End Chain.

(** ** An example: checkpoints at 0, 2 and 4, on a network without work *)

Definition example_chain (h : Z) : BlockHash :=
  if h <? 0 then GENESIS_PREVIOUS_BLOCK_HASH else replicate (Z.to_nat h + 33) Byte.x01.
Definition example_list : list (Z * BlockHash) := (fun h => (h, example_chain h)) <$> [0; 4; 2].

Lemma example_chain_injective h k : 0 <= h -> 0 <= k -> example_chain h = example_chain k -> h = k.
Proof.
  unfold example_chain. intros Hh Hk. rewrite (proj2 (Z.ltb_ge h 0)), (proj2 (Z.ltb_ge k 0)) by lia.
  intros E%(f_equal length). rewrite !length_replicate in E. lia.
Qed.

Definition workless (net : Network) : Network :=
  match net with
  | Mainnet => Mainnet
  | Testnet r =>
      Testnet (mkParameters Zcash (network_name r) (network_magic r) (genesis_hash r)
        (activation_heights r) (slow_start_interval r) (slow_start_shift r) (funding_streams r)
        (target_difficulty_limit r) true (minimum_difficulty_start_height r)
        (should_allow_unshielded_coinbase_spends r) (pre_blossom_halving_interval r)
        (post_blossom_halving_interval r) (temporary_orchard_disabling_soft_fork_height r))
  end.
Definition example_net : Network := workless example_regtest.

(** The block of the chain at a height, a block of a side chain, and a block hash
    that is the Merkle root, which is the hash of the single transaction. *)
Definition example_block_at (h : Z) (x : BlockHash) : Block :=
  mkBlock (mkHeader 4 0x200f0f0f (RegtestSolution [])) (example_chain (h - 1)) x (Some h) [(None, None)] [x].
Definition good (h : Z) : Block := example_block_at h (example_chain h).
Definition bad (h : Z) : Block := example_block_at h [Byte.x02].
Definition example_env : CheckpointEnv := {| block_hash b := merkle_root b; solution_check _ := true |}.

Abbreviation on_example f := (f example_hashes example_codec example_codec (Equihash200_9 (fun _ _ _ _ _ => true)) example_env)
  (only parsing).

Definition example_requests : list request :=
  imap (fun i b => (None, b, i)) [good 4; bad 3; good 2; good 1; good 0; good 3].

Lemma example_checkpoint_block_ok h x : 0 <= h <= 4 -> (x = example_chain h \/ x = [Byte.x02]) ->
  on_example (@block_ok example_chain) example_net (example_block_at h x).
Proof.
  intros Hh Hx. assert (In : h = 0 \/ h = 1 \/ h = 2 \/ h = 3 \/ h = 4) by lia. split.
  - intros k [= <-]. lia.
  - intros k Hk E. cbn in E |- *. destruct Hx as [->| ->].
    + by rewrite (example_chain_injective h k) by (lia || done).
    + apply (f_equal length) in E. unfold example_chain in E. rewrite (proj2 (Z.ltb_ge k 0)) in E by lia.
      rewrite length_replicate in E. cbn in E. lia.
  - intros k _. vm_compute. congruence.
  - intros k [= <-]. clear Hh. destruct Hx as [->| ->]; destruct_or! In; subst; vm_compute; congruence.
Qed.

(** Decides a closed proposition. *)
Ltac by_decide := match goal with |- ?P => apply (bool_decide_eq_true_1 P); vm_compute; reflexivity end.

Lemma example_setup :
  on_example (@setup example_chain) example_list (list_to_map example_list) None example_net example_requests.
Proof.
  split.
  - apply from_list_accepts; [by_decide|]. split; by_decide.
  - by_decide.
  - by repeat constructor.
  - done.
  - done.
  - unfold example_requests. cbn [imap].
    repeat (apply Forall_cons; split; [split; [apply example_checkpoint_block_ok; [lia|auto]|done]|]). by apply Forall_nil.
Qed.

Lemma checkpoint_list_exact_witness : returns (from_list example_list).
Proof. apply (checkpoint_list_exact example_list). by_decide. Defined.

Lemma checkpoint_verifier_safe_witness : exists max s0, is_max (list_to_map example_list) max /\
  from_checkpoint_list (E:=Empty_set) (list_to_map example_list) example_net None = Ok s0.
Proof.
  destruct (on_example (@checkpoint_verifier_safe example_chain) _ _ _ _ _ example_setup) as (max & s0 & _ & _ & M & F & _).
  exists max, s0. split; [exact M|exact F].
Defined.

Lemma example_no_reset : Forall no_reset example_requests.
Proof. unfold example_requests. cbn [imap]. do 6 (apply Forall_cons; split; [done|]). by apply Forall_nil. Qed.


Lemma requests_answered_once_witness : exists s0,
  from_checkpoint_list (E:=Empty_set) (list_to_map example_list) example_net None = Ok s0.
Proof.
  destruct (on_example (@requests_answered_once example_chain) _ _ _ _ _ example_setup) as (s0 & _ & _ & F & _).
  exists s0. exact F.
Defined.

(** The run of the example: after the block of the genesis, the second last
    request, the target is the checkpoint 4 and a side-chain block at height 3 makes
    its range fail; the last request completes the range. *)
Definition example_start : CheckpointVerifier := mkVerifier (list_to_map example_list) example_net None ∅ BeforeGenesis [].
Definition example_run (n : nat) : list (option VerifyCheckpointError) * CheckpointVerifier :=
  match (on_example (@run) (take n example_requests) example_start : outcome Empty_set _) with Ok r => r | _ => ([], example_start) end.

Lemma example_run_spec :
  on_example (@run) example_requests example_start = Ok (E:=Empty_set) (example_run 6) /\
  (example_run 6).1 = [None; None; None; None; None; None] /\
  verifier_progress (example_run 5).2 = BeforeGenesis /\ oks (outbox (example_run 5).2) = [] /\
  verifier_progress (example_run 6).2 = FinalCheckpoint /\
  oks (outbox (example_run 6).2) = example_chain <$> [0; 1; 2; 3; 4].
Proof. split_and!; vm_compute; reflexivity. Qed.

Lemma example_max max : is_max (list_to_map example_list) max -> max = 4.
Proof.
  intros M. apply (max_height_unique (list_to_map example_list)); [exact M|]. split; [by eexists|].
  intros h Hh%list_to_map_is_Some. unfold example_list in Hh. cbn in Hh. rewrite !elem_of_cons in Hh.
  destruct_or! Hh; try lia. by apply not_elem_of_nil in Hh.
Qed.

Lemma example_accepts h : -1 < h <= 4 -> exists i b t, example_requests !! i = Some (None, b, t) /\
  [None; None; None; None; None; None] !! i = Some (@None VerifyCheckpointError) /\ coinbase_height b = Some h /\
  @block_hash example_env b = example_chain h.
Proof.
  intros Hh. assert (h = 0 \/ h = 1 \/ h = 2 \/ h = 3 \/ h = 4) as Hc by lia. destruct_or! Hc; subst;
    [exists 4%nat, (good 0)|exists 3%nat, (good 1)|exists 2%nat, (good 2)|exists 5%nat, (good 3)|exists 0%nat, (good 4)];
    eexists; split_and!; reflexivity.
Qed.


(** A verifier whose queue has the chain up to the checkpoint 2, and a side-chain
    block at height 3 below the checkpoint 4: its target is 4, and nothing is
    verified. *)
Definition example_queued (b : Block) (h : Z) : QueuedBlock := mkQueued (mkVerified b (merkle_root b) h (tx_hashes b)) 0.
Definition example_waiting : CheckpointVerifier :=
  with_queue (<[0 := [example_queued (good 0) 0]]> (<[1 := [example_queued (good 1) 1]]>
    (<[2 := [example_queued (good 2) 2]]> (<[3 := [example_queued (bad 3) 3]]>
    (<[4 := [example_queued (good 4) 4]]> ∅))))) example_start.

Lemma example_waiting_wf : VerifierWf example_chain 4 example_waiting.
Proof.
  destruct example_setup as [L P Ch _ _ _]. destruct (from_list_wf example_chain _ _ L P Ch) as (max & M & LW).
  apply example_max in M as ->. split; [exact LW| |exact I]. unfold example_waiting. cbn [queued with_queue].
  assert (Q : forall h x q, 0 <= h <= 4 -> (x = example_chain h \/ x = [Byte.x02]) -> QueueWf example_chain q 4 ->
    QueueWf example_chain (<[h := [example_queued (example_block_at h x) h]]> q) 4).
  { intros h x q Hh Hx Hq. apply QueueWf_insert; [done|done|done|cbn; unfold MAX_QUEUED_BLOCKS_PER_HEIGHT; lia|apply NoDup_singleton|].
    apply Forall_singleton. split; [done|]. apply (bo_chain _ _ _ _ _ (example_checkpoint_block_ok h x Hh Hx)). }
  do 5 (apply Q; [lia|auto|]). split; intros h; cbn; rewrite lookup_empty; (done || by intros []).
Qed.

Lemma range_verified_as_a_whole_witness :
  exists s', process_checkpoint_range (E:=Empty_set) example_waiting = Ok s' /\ verifier_progress s' = BeforeGenesis.
Proof.
  assert (T : target_checkpoint_height (E:=Empty_set) example_waiting = Ok (Checkpoint 4)) by (vm_compute; reflexivity).
  destruct (range_verified_as_a_whole example_chain 4 example_waiting 4 eq_refl example_waiting_wf ltac:(discriminate) T)
    as (s' & P & _ & X).
  exists s'. split; [exact P|]. destruct (X 3) as [Y _]; [vm_compute; split; congruence|vm_compute; reflexivity|exact Y].
Defined.
