(* ===== verification/WinnerBlocks.v ===== *)
(** * The validation of retained winner blocks

    [validate_persisted_winner_block] of [wcash-merge-miner/src/coordinator.rs]
    with the functions it calls: the exact bytes of a winner that a journal
    retains are decoded, compared with their metadata and their funding rules,
    and their proof of work is checked again, before they are trusted after a
    restart.

    The codec of blocks is the class [BlockCodec]: a decoded block is the record
    of what these functions read.  Messages keep their fixed text. *)

From S2P Require Import Prelude Amounts Difficulty Networks Subsidies AuxCodec AuxMerkle AuxProof AuxCoinbase BlockChecks WinnerJournal.

Import Amount(Amount, zatoshis, NegativeAllowed, NonNegative) Network NetworkUpgrade Journal(MinerError, InvalidRequest, invalid, WinnerChain).

(** ** Decoded blocks *)

(** The coinbase of a decoded block: its values, its embedded branch id and its
    transaction id. *)
Record Coinbase := mkCoinbaseData {
  coinbase_tx : BlockCheck.CoinbaseTransaction;
  embedded_branch_id : option Z;
  coinbase_txid : list byte;
}.
Record DecodedBlock := mkDecoded {
  block_header : BlockCheck.Header;
  block_hash : list byte;
  previous_block_hash : list byte;
  coinbase_height : option Z;
  first_transaction : option Coinbase;
}.

(** What the validation calls of codecs, of the build and of the [hex] and
    [orchard] crates. *)
Class BlockCodec := {
  wcash_deserialize : list byte -> option DecodedBlock;
  wcash_serialize : DecodedBlock -> list byte;
  zcash_deserialize_block : list byte -> option DecodedBlock;
  zcash_serialize_block : DecodedBlock -> list byte;
  zcash_solution_check : DecodedBlock -> bool;
  decode_hex : string -> option (list byte);
  outputs_are_private : BlockCheck.CoinbaseTransaction -> Network -> Z -> bool;
  mainnet_enabled : bool;
  network_magic_of : WcashNetwork -> list byte;
  genesis_hash_of : WcashNetwork -> list byte;
}.

Section Validation.
Context `{ConsensusBuild, Foundation.FoundationEnv, Hashes} {B : BlockCodec}.
Context (legacy modern : TransactionCodec) {W : EquihashVerifier}.

(** [parse_display_hash]. *)
Definition parse_display_hash (encoded : string) : outcome MinerError (list byte) :=
  if negb (String.length encoded =? 64)%nat then Err (invalid "expected 64 hexadecimal characters")
  else
    let? bytes := ok_or (decode_hex encoded) (invalid "invalid hexadecimal") in
    do? require (length bytes =? 32)%nat (invalid "expected 32 bytes") in
    Ok (rev bytes).

(** The network of a built-in profile. *)
Definition built_in (parameters : outcome ParametersBuilderError Parameters) : outcome MinerError Network :=
  let? p := expect_ok parameters in Ok (Testnet p).

(** [recovered_wcash_network]. *)
Definition recovered_wcash_network (b : DecodedBlock) : outcome MinerError Network :=
  let? coinbase := ok_or (first_transaction b) (invalid "retained Wcash winner has no coinbase") in
  let unknown := Err (invalid "retained Wcash winner has an unknown transaction domain") in
  match embedded_branch_id coinbase with
  | None => unknown
  | Some branch =>
      if branch =? WCASH_MAINNET_V1_BRANCH_ID then
        do? require mainnet_enabled (invalid "cannot inspect retained Mainnet winner") in
        built_in (wcash_mainnet_parameters (network_magic_of WcashMainnet) (genesis_hash_of WcashMainnet))
      else if branch =? WCASH_TESTNET_V3_BRANCH_ID then
        built_in (new_wcash_testnet (network_magic_of WcashTestnet) (genesis_hash_of WcashTestnet))
      else if branch =? WCASH_REGTEST_V1_BRANCH_ID then
        built_in (new_wcash_regtest (network_magic_of WcashRegtest) (genesis_hash_of WcashRegtest))
      else unknown
  end.

(** The checked sum of the transparent outputs. *)
Fixpoint checked_output_sum (sum : Z) (outputs : list Foundation.Output) : option Z :=
  match outputs with
  | [] => Some sum
  | output :: rest => sum ← i64_checked (sum + zatoshis (Foundation.value output)); checked_output_sum sum rest
  end.

(** The value rules of [validate_recovered_wcash_funding]. *)
Definition recovered_value_is_valid (coinbase : BlockCheck.CoinbaseTransaction) (has_ironwood : bool)
    (gross : Amount NonNegative) (network : Network) (height : Z) : outcome MinerError unit :=
  let? transparent_value := ok_or (checked_output_sum 0 (BlockCheck.outputs coinbase))
    (invalid "retained Wcash output value overflows") in
  let ironwood_balance := zatoshis (BlockCheck.ironwood_value_balance coinbase) in
  let? total := ok_or (i64_checked (transparent_value - ironwood_balance))
    (invalid "retained Wcash total coinbase value overflows") in
  if (total <? zatoshis gross) || (total >? MAX_WCASH_COINBASE_VALUE)
  then Err (invalid "retained Wcash winner has an invalid total coinbase value")
  else if has_ironwood && ((ironwood_balance >? 0) || negb (outputs_are_private coinbase network height))
  then Err (invalid "retained Wcash winner violates the private Ironwood payout rules")
  else Ok tt.

(** [validate_recovered_wcash_funding]. *)
Definition validate_recovered_wcash_funding (b : DecodedBlock) : outcome MinerError unit :=
  let? height := ok_or (coinbase_height b) (invalid "retained Wcash winner has no coinbase height") in
  if height =? Height.MIN then Ok tt
  else
    let? first := ok_or (first_transaction b) (invalid "retained Wcash winner has no coinbase") in
    let coinbase := coinbase_tx first in
    let? network := recovered_wcash_network b in
    if Foundation.WCASH_FOUNDATION_TEST_FIXTURE_ENABLED && negb (is_wcash_regtest network)
    then Err (invalid "funding-test-fixture cannot recover public-network Wcash winners")
    else
      let? gross := map_err (fun _ => invalid "retained Wcash subsidy is invalid")
        (Subsidy.block_subsidy height network) in
      let? fund_index := map_err (fun _ => invalid "retained Wcash winner violates the foundation policy")
        (Foundation.wcash_foundation_fund_output_index height network gross (BlockCheck.outputs coinbase)) in
      let has_miner_transparent := len (BlockCheck.outputs coinbase) >? (if fund_index then 1 else 0) in
      let has_ironwood := BlockCheck.has_ironwood_actions coinbase in
      if BlockCheck.has_sapling_shielded_data coinbase || BlockCheck.has_orchard_shielded_data coinbase ||
         Bool.eqb has_miner_transparent has_ironwood
      then Err (invalid "retained Wcash winner violates the miner payout-mode rules")
      else recovered_value_is_valid coinbase has_ironwood gross network height.

(** The canonical target of a header. *)
Definition canonical_target (threshold : Z) : outcome MinerError (list byte) :=
  let? expanded := CompactDifficulty.to_expanded threshold in
  let? expanded := ok_or expanded (invalid "share journal winner has an invalid compact target") in
  let? compact := ExpandedDifficulty.to_compact expanded in
  do? require (compact =? threshold) (invalid "share journal winner has a non-canonical compact target") in
  map_err (fun _ => invalid "share journal winner has an invalid target") (Target.from_le_bytes (to_le 32 expanded)).

(** [validate_persisted_zcash_winner_block]. *)
Definition validate_persisted_zcash_winner_block (block_bytes : list byte) (expected_hash_display : string)
    (expected_height : Z) : outcome MinerError (list byte) :=
  let? b := ok_or (zcash_deserialize_block block_bytes) (invalid "share journal contains an invalid Zcash block") in
  if negb (bool_decide (zcash_serialize_block b = block_bytes))
  then Err (invalid "share journal contains a non-canonical Zcash block")
  else
    let? expected_hash := parse_display_hash expected_hash_display in
    if negb (bool_decide (block_hash b = expected_hash)) || negb (bool_decide (coinbase_height b = Some expected_height))
    then Err (invalid "share journal winner metadata does not match its exact block")
    else
      let? target := canonical_target (BlockCheck.difficulty_threshold (block_header b)) in
      if negb (Target.is_met_by_le_hash target (block_hash b))
      then Err (invalid "share journal Zcash winner does not meet its compact target")
      else
        do? require (zcash_solution_check b) (invalid "share journal Zcash winner contains invalid Equihash") in
        Ok (block_hash b).

(** The Wcash part of [validate_persisted_winner_block], after the checks of the
    metadata. *)
Definition validate_winner_proof (b : DecodedBlock) (expected_height : Z) : outcome MinerError (list byte) :=
  do? validate_recovered_wcash_funding b in
  let? witness := match BlockCheck.as_wcash (BlockCheck.solution (block_header b)) with
                  | None | Some [] => Err (invalid "share journal Wcash winner has no AuxPoW witness")
                  | Some witness => Ok witness
                  end in
  let? target := canonical_target (BlockCheck.difficulty_threshold (block_header b)) in
  let? proof := map_err (fun _ => invalid "share journal Wcash winner contains malformed AuxPoW")
    (AuxPowProof.decode witness) in
  let? network := recovered_wcash_network b in
  let rules := BlockCheck.parent_rules network expected_height in
  do? map_err (fun _ => invalid "share journal Wcash winner contains invalid AuxPoW")
    (validate_with_parent_rules legacy modern proof (block_hash b) target rules) in
  Ok (ParentHeader.block_hash (AuxPowProof.parent_header proof)).

(** [validate_persisted_winner_block]. *)
Definition validate_persisted_winner_block (block_bytes : list byte) (expected_hash_display : string)
    (expected_height : Z) (kind : WinnerChain) : outcome MinerError (list byte) :=
  match kind with
  | Journal.Zcash => validate_persisted_zcash_winner_block block_bytes expected_hash_display expected_height
  | Journal.Wcash =>
      let? b := ok_or (wcash_deserialize block_bytes) (invalid "share journal contains an invalid block") in
      if negb (bool_decide (wcash_serialize b = block_bytes))
      then Err (invalid "share journal contains a non-canonical block")
      else
        let? expected_hash := parse_display_hash expected_hash_display in
        if negb (bool_decide (block_hash b = expected_hash)) ||
           negb (bool_decide (coinbase_height b = Some expected_height)) ||
           negb (BlockCheck.version (block_header b) =? BlockCheck.WCASH_BLOCK_WIRE_VERSION)
        then Err (invalid "share journal winner metadata does not match its exact block")
        else validate_winner_proof b expected_height
  end.
End Validation.

(** ** Recovered winners have work *)

Section Winners.
Context `{ConsensusBuild, Foundation.FoundationEnv, Hashes} {B : BlockCodec}.
Context (legacy modern : TransactionCodec) {W : EquihashVerifier}.

Lemma target_bytes d : 0 < d <= U256_MAX -> Target.from_le_bytes (to_le 32 d) = Ok (to_le 32 d).
Proof. intros Hd. by apply BlockChecks.target_Ok. Qed.

Lemma canonical_target_Ok threshold target : 0 <= threshold <= U32_MAX ->
  canonical_target threshold = Ok target <->
  0 < to_target threshold <= U256_MAX /\ target = to_le 32 (to_target threshold) /\
  ExpandedDifficulty.to_compact (E:=MinerError) (to_target threshold) = Ok threshold.
Proof.
  intros Ht. unfold canonical_target. rewrite to_expanded_target by done. cbn [obind].
  destruct (_ && _) eqn:R; cbn [ok_or obind].
  - assert (D : 0 < to_target threshold <= U256_MAX) by bool_lia. rewrite target_bytes by done. cbn [map_err]. split.
    + intros (c & C & ([] & ->%require_Ok%Z.eqb_eq & [= <-])%obind_Ok)%obind_Ok. done.
    + intros (_ & -> & ->). cbn [obind]. by rewrite Z.eqb_refl.
  - split; [done|]. intros [D _]. bool_lia.
Qed.

(** The proof of a Wcash winner, step by step. *)
Lemma winner_proof_Ok b height parent : 0 <= BlockCheck.difficulty_threshold (block_header b) <= U32_MAX ->
  validate_winner_proof legacy modern b height = Ok parent <->
  let target := to_target (BlockCheck.difficulty_threshold (block_header b)) in
  exists p net v, validate_recovered_wcash_funding b = Ok tt /\
    BlockCheck.solution (block_header b) = BlockCheck.WcashSolution (encoding p) /\ proof_typed p /\ bounded p /\
    0 < target <= U256_MAX /\
    ExpandedDifficulty.to_compact (E:=MinerError) target = Ok (BlockCheck.difficulty_threshold (block_header b)) /\
    recovered_wcash_network b = Ok net /\
    validate_with_parent_rules legacy modern p (block_hash b) (to_le 32 target) (BlockCheck.parent_rules net height) = Ok v /\
    parent = ParentHeader.block_hash (AuxPowProof.parent_header p).
Proof.
  intros Ht. unfold validate_winner_proof. split.
  - intros ([] & Hf & (w & Hw & (t & (Hd & -> & Hc)%canonical_target_Ok & (p & Hp%map_err_Ok & (net & Hn &
      (v & Hv%map_err_Ok & [= <-])%obind_Ok)%obind_Ok)%obind_Ok)%obind_Ok)%obind_Ok)%obind_Ok; [|done].
    apply decode_Ok in Hp as (Hpt & Hb & ->). exists p, net, v. split_and!; try done; try lia.
    clear -Hw. revert Hw. generalize (encoding p). intros e.
    destruct (BlockCheck.solution (block_header b)) as [| |[|x l]]; cbn; congruence.
  - intros (p & net & v & Hf & Hs & Hpt & Hb & Hd & Hc & Hn & Hv & ->). rewrite Hf, Hs. cbn [obind BlockCheck.as_wcash].
    destruct (encoding p) as [|x l] eqn:E.
    { assert (AuxPowProof.decode [] = Ok p) as X by (rewrite <- E; by apply decode_Ok). by vm_compute in X. }
    cbn [obind]. rewrite <- E. rewrite (proj2 (canonical_target_Ok _ _ Ht)) by done. cbn [obind].
    rewrite (proj2 (decode_Ok _ p)) by done. cbn [map_err obind]. rewrite Hn. cbn [obind]. by rewrite Hv.
Qed.

(** The metadata of a retained winner are those of its exact bytes. *)
Definition retained (chain : WinnerChain) (bytes : list byte) (display : string) (height : Z) (b : DecodedBlock) : Prop :=
  match chain with
  | Journal.Wcash => wcash_deserialize bytes = Some b /\ wcash_serialize b = bytes /\
      BlockCheck.version (block_header b) = BlockCheck.WCASH_BLOCK_WIRE_VERSION
  | Journal.Zcash => zcash_deserialize_block bytes = Some b /\ zcash_serialize_block b = bytes
  end /\ parse_display_hash display = Ok (block_hash b) /\ coinbase_height b = Some height.

Lemma wcash_winner_Ok bytes display height parent :
  validate_persisted_winner_block legacy modern bytes display height Journal.Wcash = Ok parent <->
  exists b, retained Journal.Wcash bytes display height b /\ validate_winner_proof legacy modern b height = Ok parent.
Proof.
  unfold validate_persisted_winner_block, retained. split.
  - intros (b & D%ok_or_Ok & X)%obind_Ok. case_bool_decide as S; [|done]. cbn [negb] in X.
    apply obind_Ok in X as (h & P & X). case_bool_decide as E1; [|done]. case_bool_decide as E2; [|done].
    destruct (Z.eqb_spec (BlockCheck.version (block_header b)) BlockCheck.WCASH_BLOCK_WIRE_VERSION); [|done].
    exists b. subst h. split_and!; done.
  - intros (b & ((-> & S & V) & P & C) & X). cbn [ok_or obind]. rewrite (bool_decide_true _ S). cbn [negb]. rewrite P. cbn [obind].
    rewrite bool_decide_true, (bool_decide_true _ C), V, Z.eqb_refl by done. exact X.
Qed.

Lemma zcash_winner_Ok bytes display height parent :
  validate_persisted_winner_block legacy modern bytes display height Journal.Zcash = Ok parent ->
  exists b target, retained Journal.Zcash bytes display height b /\ parent = block_hash b /\
    canonical_target (BlockCheck.difficulty_threshold (block_header b)) = Ok target /\
    Target.is_met_by_le_hash target (block_hash b) = true /\ zcash_solution_check b = true.
Proof.
  cbn. unfold validate_persisted_zcash_winner_block, retained. intros (b & D%ok_or_Ok & X)%obind_Ok.
  case_bool_decide as S; [|done]. cbn [negb] in X. apply obind_Ok in X as (h & P & X).
  case_bool_decide as E1; [|done]. case_bool_decide as E2; [|done]. cbn [negb orb] in X.
  apply obind_Ok in X as (t & T & X). destruct (Target.is_met_by_le_hash t (block_hash b)) eqn:M; [|done]. cbn [negb] in X.
  apply obind_Ok in X as (u & Q%require_Ok & [= <-]). exists b, t. subst h. split_and!; done.
Qed.

(** The work behind an accepted winner of each chain. *)
Lemma wcash_winner_work bytes display height parent :
  (forall b, wcash_deserialize bytes = Some b -> 0 <= BlockCheck.difficulty_threshold (block_header b) <= U32_MAX) ->
  validate_persisted_winner_block legacy modern bytes display height Journal.Wcash = Ok parent ->
  exists b p net s, retained Journal.Wcash bytes display height b /\
    let threshold := BlockCheck.difficulty_threshold (block_header b) in
    let target := to_target threshold in
    0 < target <= U256_MAX /\ ExpandedDifficulty.to_compact (E:=MinerError) target = Ok threshold /\ of_le parent <= target /\
    validate_recovered_wcash_funding b = Ok tt /\
    BlockCheck.solution (block_header b) = BlockCheck.WcashSolution (encoding p) /\
    parent = ParentHeader.block_hash (AuxPowProof.parent_header p) /\
    verify_work (AuxPowProof.parent_header p) = Ok tt /\ recovered_wcash_network b = Ok net /\
    ZebraCoinbaseVerifierWithRules legacy modern (BlockCheck.parent_rules net height) (AuxPowProof.coinbase_bytes p) = Ok s /\
    exists prefix payload nonce, miner_data s = prefix ++ payload /\
      Commitment.commitment_payload (block_hash b) (AuxPowProof.auxiliary_merkle_branch p)
        (AuxPowProof.auxiliary_index p) nonce = Ok payload.
Proof.
  intros Ty (b & Re & V)%wcash_winner_Ok. pose proof (Ty b (proj1 (proj1 Re))) as Ht.
  apply winner_proof_Ok in V as (p & net & v & Hf & Hs & _ & _ & Hd & Hc & Hn & Hv & ->); [|done].
  destruct (validated_parent_work _ _ _ _ _ _ _ Hd Hv) as (Hw & He & s & Hcb & Hpay).
  exists b, p, net, s. cbv zeta. split_and!; (done || lia).
Qed.

Lemma zcash_winner_work bytes display height parent :
  (forall b, zcash_deserialize_block bytes = Some b ->
     0 <= BlockCheck.difficulty_threshold (block_header b) <= U32_MAX /\ length (block_hash b) = 32%nat) ->
  validate_persisted_winner_block legacy modern bytes display height Journal.Zcash = Ok parent ->
  exists b, retained Journal.Zcash bytes display height b /\
    let threshold := BlockCheck.difficulty_threshold (block_header b) in
    let target := to_target threshold in
    0 < target <= U256_MAX /\ ExpandedDifficulty.to_compact (E:=MinerError) target = Ok threshold /\ of_le parent <= target /\
    parent = block_hash b /\ zcash_solution_check b = true.
Proof.
  intros Ty (b & t & Re & -> & T & M & Q)%zcash_winner_Ok. destruct (Ty b (proj1 (proj1 Re))) as [Ht Lh].
  apply canonical_target_Ok in T as (Hd & -> & Hc); [|done]. exists b. cbv zeta. split_and!; try done; try lia.
  unfold Target.is_met_by_le_hash in M. pose proof (length_le_split 32 (to_target (BlockCheck.difficulty_threshold (block_header b)))) as Lt.
  rewrite compare_down_le, !take_ge in M by lia.
  rewrite of_to_le in M by (change (2 ^ (8 * Z.of_nat 32)) with (U256_MAX + 1); lia). lia.
Qed.

(** A retained winner is trusted only with real work.  When the exact bytes of
    a winner pass [validate_persisted_winner_block], they are the one encoding of
    a block with the recorded hash and height; its compact target is canonical;
    and the returned parent hash, as a number, is at most this target.  For a
    Zcash winner it is the hash of the block itself, whose Equihash solution is
    valid; for a Wcash winner it is the hash of a parent with valid Equihash whose
    coinbase commits to this very block, and the block obeys the funding rules of
    its network. *)
Theorem persisted_winner_has_work chain bytes display height parent :
  (forall b, wcash_deserialize bytes = Some b \/ zcash_deserialize_block bytes = Some b ->
     0 <= BlockCheck.difficulty_threshold (block_header b) <= U32_MAX /\ length (block_hash b) = 32%nat) ->
  validate_persisted_winner_block legacy modern bytes display height chain = Ok parent ->
  exists b, retained chain bytes display height b /\
    let threshold := BlockCheck.difficulty_threshold (block_header b) in
    let target := to_target threshold in
    0 < target <= U256_MAX /\ ExpandedDifficulty.to_compact (E:=MinerError) target = Ok threshold /\ of_le parent <= target /\
    match chain with
    | Journal.Zcash => parent = block_hash b /\ zcash_solution_check b = true
    | Journal.Wcash =>
        validate_recovered_wcash_funding b = Ok tt /\
        exists p net s, BlockCheck.solution (block_header b) = BlockCheck.WcashSolution (encoding p) /\
          parent = ParentHeader.block_hash (AuxPowProof.parent_header p) /\
          verify_work (AuxPowProof.parent_header p) = Ok tt /\ recovered_wcash_network b = Ok net /\
          ZebraCoinbaseVerifierWithRules legacy modern (BlockCheck.parent_rules net height)
            (AuxPowProof.coinbase_bytes p) = Ok s /\
          exists prefix payload nonce, miner_data s = prefix ++ payload /\
            Commitment.commitment_payload (block_hash b) (AuxPowProof.auxiliary_merkle_branch p)
              (AuxPowProof.auxiliary_index p) nonce = Ok payload
    end.
Proof.
  intros Ty V. destruct chain.
  - apply wcash_winner_work in V as (b & p & net & s & Re & Hd & Hc & Hw & Hf & X); [|by intros b Hb; apply Ty; left].
    exists b. cbv zeta. split_and!; try done; try lia. exists p, net, s. done.
  - apply zcash_winner_work in V as (b & Re & X); [|by intros b Hb; apply Ty; right]. by exists b.
Qed.

(** ** Recovery accepts what consensus accepts *)

Lemma checked_output_sum_Ok outs : forall sum, Forall (fun o => Amount.valid (Foundation.value o)) outs ->
  0 <= sum -> sum + output_total outs <= I64_MAX -> checked_output_sum sum outs = Some (sum + output_total outs).
Proof.
  unfold output_total. induction outs as [|o outs IH]; intros sum V Hs Ht; [cbn; f_equal; lia|].
  change (Amount.total (map Foundation.value (o :: outs)))
    with (zatoshis (Foundation.value o) + Amount.total (map Foundation.value outs)) in *.
  apply Forall_cons in V as [Vo Vs]. pose proof (Amount.total_nonneg _ (valid_map_value _ Vs)) as Hn.
  assert (Ho : 0 <= zatoshis (Foundation.value o)) by apply Vo. cbn [checked_output_sum].
  pose proof (eq_refl : (I64_MIN <=? 0) = true) as M.
  rewrite (proj2 (checked_Some _ _ _ (sum + zatoshis (Foundation.value o)))) by (split; [done|lia]).
  change (checked_output_sum (sum + zatoshis (Foundation.value o)) outs =
    Some (sum + (zatoshis (Foundation.value o) + Amount.total (map Foundation.value outs)))).
  rewrite IH by (done || lia). f_equal. lia.
Qed.

Lemma funding_accepts b c height network (g fees : Amount NonNegative) deferred :
  coinbase_height b = Some height -> 0 < height -> first_transaction b = Some c ->
  recovered_wcash_network b = Ok network ->
  Foundation.WCASH_FOUNDATION_TEST_FIXTURE_ENABLED && negb (is_wcash_regtest network) = false ->
  Subsidy.block_subsidy height network = Ok g ->
  uses_wcash_consensus network = true -> exact_coinbase network height -> Foundation.fixed_addresses_parse network ->
  coinbase_valid (coinbase_tx c) -> Amount.valid fees -> Amount.valid g -> zatoshis (Amount.deferred_value deferred) = 0 ->
  zatoshis (BlockCheck.sapling_value_balance (coinbase_tx c)) = 0 ->
  zatoshis (BlockCheck.orchard_value_balance (coinbase_tx c)) = 0 ->
  BlockCheck.miner_fees_are_valid outputs_are_private (coinbase_tx c) height fees g deferred network = Ok tt ->
  validate_recovered_wcash_funding b = Ok tt.
Proof.
  intros Hh Hpos Hc Hn Hx Hg Hw He Ha Vt Vf Vg Vd Hs Ho M. set (tx := coinbase_tx c) in *.
  assert (Vd' : Amount.valid (Amount.deferred_value deferred)).
  { unfold Amount.valid. rewrite Vd. cbn. pose proof MAX_MONEY_pos. lia. }
  destruct (miner_fees_Ok _ _ _ _ _ _ _ Hw Hpos He Ha Vt Vf Vg Vd' M) as (Sum & Mx & P).
  destruct (miner_fees_index _ _ _ _ _ _ _ Hw Hpos M) as [i Hi].
  unfold validate_recovered_wcash_funding. rewrite Hh. cbn [ok_or obind]. unfold Height.MIN.
  rewrite (proj2 (Z.eqb_neq height 0)) by lia. rewrite Hc. cbn [ok_or obind]. rewrite Hn. cbn [obind]. rewrite Hx.
  rewrite Hg. cbn [map_err obind]. fold tx. rewrite Hi. cbn [map_err obind].
  destruct (output_index_Ok _ _ _ _ _ Vg Ha Hi) as [Si _]. pose proof P as (P1 & P2 & _ & P4). rewrite P1, P2. cbn [orb].
  assert (Ei : (if i then 1 else 0) = (if Foundation.funded network height then 1 else 0))
    by (destruct i, (Foundation.funded network height); done).
  rewrite Ei. assert (Mode : Bool.eqb (len (BlockCheck.outputs tx) >? (if Foundation.funded network height then 1 else 0))
    (BlockCheck.has_ironwood_actions tx) = false).
  { cbv zeta in P4. destruct (BlockCheck.has_ironwood_actions tx); [destruct P4 as [P4 _]|];
      destruct (Z.gtb_spec (len (BlockCheck.outputs tx)) (if Foundation.funded network height then 1 else 0)); (done || lia). }
  rewrite Mode. unfold recovered_value_is_valid.
  assert (Bd : 2 * MAX_WCASH_COINBASE_VALUE <= I64_MAX /\ I64_MIN <= 0) by (vm_compute; split; congruence).
  pose proof (valid_ironwood _ Vt) as Vi. unfold Amount.valid in Vi, Vf, Vg. cbn in Vi, Vf, Vg. fold tx in Vi.
  pose proof MAX_MONEY_headroom as Hr.
  rewrite checked_output_sum_Ok by (apply (valid_outputs _ Vt) || lia). cbn [ok_or obind].
  rewrite (proj2 (checked_Some _ _ _ _)) by (split; [reflexivity|lia]). cbn [ok_or obind].
  replace (0 + output_total (BlockCheck.outputs tx) - zatoshis (BlockCheck.ironwood_value_balance tx))
    with (zatoshis g + zatoshis fees) by lia.
  rewrite Z.gtb_ltb, (proj2 (Z.ltb_ge _ _)), (proj2 (Z.ltb_ge _ _)) by lia. cbn [orb].
  destruct (BlockCheck.has_ironwood_actions tx) eqn:Iw; [|done]. pose proof (ironwood_payout _ _ _ _ _ _ P Iw) as Ip.
  destruct P4 as (_ & Pr & _). rewrite Pr. unfold share in Ip.
  assert (zatoshis (BlockCheck.ironwood_value_balance tx) <= 0) by (destruct (Foundation.funded network height); Z.to_euclidean_division_equations; lia).
  by rewrite Z.gtb_ltb, (proj2 (Z.ltb_ge _ _)) by lia.
Qed.

(** A block that the consensus checks accept at a height, with the branch id of
    its network in its coinbase. *)
Record accepted_block (b : DecodedBlock) (c : Coinbase) (height : Z) (network : Network) (g fees : Amount NonNegative)
    (deferred : Amount.DeferredPoolBalanceChange) : Prop := {
  ab_height : 0 < height;
  ab_coinbase : first_transaction b = Some c;
  ab_network : recovered_wcash_network b = Ok network;
  ab_fixture : Foundation.WCASH_FOUNDATION_TEST_FIXTURE_ENABLED && negb (is_wcash_regtest network) = false;
  ab_wcash : uses_wcash_consensus network = true;
  ab_exact : exact_coinbase network height;
  ab_addresses : Foundation.fixed_addresses_parse network;
  ab_valid : coinbase_valid (coinbase_tx c) /\ Amount.valid fees /\ Amount.valid g;
  ab_pools : zatoshis (Amount.deferred_value deferred) = 0 /\
    zatoshis (BlockCheck.sapling_value_balance (coinbase_tx c)) = 0 /\
    zatoshis (BlockCheck.orchard_value_balance (coinbase_tx c)) = 0;
  ab_threshold : 0 <= BlockCheck.difficulty_threshold (block_header b) <= U32_MAX;
  ab_compact : ExpandedDifficulty.to_compact (E:=MinerError) (to_target (BlockCheck.difficulty_threshold (block_header b))) =
    Ok (BlockCheck.difficulty_threshold (block_header b));
  ab_subsidy : Subsidy.block_subsidy height network = Ok g;
  ab_fees : BlockCheck.miner_fees_are_valid outputs_are_private (coinbase_tx c) height fees g deferred network = Ok tt;
  ab_auxpow : BlockCheck.wcash_auxpow_is_valid legacy modern (block_header b) network height (block_hash b) = Ok tt;
}.

(** Recovery never loses a block that consensus accepts.  When the AuxPoW
    check and the coinbase check of the consensus code accept a Wcash block after
    genesis, and the journal retained its exact bytes, hash and height, then
    [validate_persisted_winner_block] accepts these bytes after a restart. *)
Theorem consensus_winner_recoverable bytes display height b c network g fees deferred :
  retained Journal.Wcash bytes display height b -> accepted_block b c height network g fees deferred ->
  exists parent, validate_persisted_winner_block legacy modern bytes display height Journal.Wcash = Ok parent.
Proof.
  intros R [Hh Hc Hn Hx Hw He Ha (Vc & Vf & Vg) (Vd & Hs & Ho) Ht Hcp Hg Hf Hp]. pose proof R as (_ & _ & Hch).
  apply auxpow_accepted in Hp as (w & d & p & v & _ & Hsol & (-> & Hd & _)%threshold_Ok & Hdec & Hval); [|done..].
  apply decode_Ok in Hdec as (Hpt & Hb & ->).
  exists (ParentHeader.block_hash (AuxPowProof.parent_header p)). apply wcash_winner_Ok. exists b. split; [done|].
  apply winner_proof_Ok; [done|]. exists p, network, v. split_and!; try done; try lia.
  apply (funding_accepts b c height network g fees deferred); assumption.
Qed.
End Winners.

(** ** An example: a Wcash Regtest winner at height 7 *)

Definition example_winner_tx : BlockCheck.CoinbaseTransaction :=
  BlockCheck.mkCoinbase [Foundation.mkOutput (Amount.mk (Subsidy.WCASH_INITIAL_BLOCK_SUBSIDY + 5)) []]
    (Amount.mk 0) (Amount.mk 0) (Amount.mk 0) false false false true.
Definition example_winner : DecodedBlock :=
  mkDecoded example_block_header AuxMerkle.example_block [] (Some 7)
    (Some (mkCoinbaseData example_winner_tx (Some WCASH_REGTEST_V1_BRANCH_ID) [])).
Definition example_block_codec : BlockCodec := {|
  wcash_deserialize _ := Some example_winner; wcash_serialize _ := [Byte.x01];
  zcash_deserialize_block _ := None; zcash_serialize_block _ := [];
  zcash_solution_check _ := false;
  decode_hex _ := Some (rev AuxMerkle.example_block);
  outputs_are_private _ _ _ := true;
  mainnet_enabled := false;
  network_magic_of _ := []; genesis_hash_of _ := [];
|}.
Definition example_display : string := String.string_of_list_byte (replicate 64 Byte.x30).

Abbreviation example_validated :=
  (validate_persisted_winner_block (H:=wcash_build) (H0:=Subsidies.example_env) (H1:=example_hashes) (B:=example_block_codec)
    (W:=Equihash200_9 (fun _ _ _ _ _ => true)) example_codec example_codec [Byte.x01] example_display 7 Journal.Wcash).

Lemma example_winner_validated :
  example_validated = Ok (ParentHeader.block_hash (H:=example_hashes) example_header).
Proof. vm_compute. reflexivity. Qed.

Lemma persisted_winner_has_work_witness :
  exists b, retained (B:=example_block_codec) Journal.Wcash [Byte.x01] example_display 7 b /\
    of_le (ParentHeader.block_hash (H:=example_hashes) example_header) <=
      to_target (BlockCheck.difficulty_threshold (block_header b)).
Proof.
  destruct (persisted_winner_has_work (H:=wcash_build) (H0:=Subsidies.example_env) (H1:=example_hashes)
    (B:=example_block_codec) (W:=Equihash200_9 (fun _ _ _ _ _ => true)) example_codec example_codec Journal.Wcash
    [Byte.x01] example_display 7 _ ltac:(intros b [[= <-]|[=]]; by_eval) example_winner_validated)
    as (b & R & _ & _ & L & _).
  exists b. split; [exact R|exact L].
Defined.

Lemma example_retained : retained (B:=example_block_codec) Journal.Wcash [Byte.x01] example_display 7 example_winner.
Proof. split_and!; vm_compute; reflexivity. Qed.

Lemma example_accepted_block :
  accepted_block (H:=wcash_build) (H0:=Subsidies.example_env) (H1:=example_hashes) (B:=example_block_codec)
    (W:=Equihash200_9 (fun _ _ _ _ _ => true)) example_codec example_codec example_winner
    (mkCoinbaseData example_winner_tx (Some WCASH_REGTEST_V1_BRANCH_ID) []) 7 example_regtest
    (Amount.mk Subsidy.WCASH_INITIAL_BLOCK_SUBSIDY) (Amount.mk 5) (Amount.deferred_new (Amount.mk 0)).
Proof.
  split.
  all: try (vm_compute; reflexivity).
  all: try by_eval.
  - right. exists Nu6_3. split; [vm_compute; reflexivity|by_eval].
  - vm_compute. by eexists.
  - split_and!; [|by_eval..]. split; [apply Forall_cons; split; [by_eval|by apply Forall_nil]|by_eval..].
Qed.

Lemma consensus_winner_recoverable_witness : exists parent, example_validated = Ok parent.
Proof.
  exact (consensus_winner_recoverable (H:=wcash_build) (H0:=Subsidies.example_env) (H1:=example_hashes)
    (B:=example_block_codec) (W:=Equihash200_9 (fun _ _ _ _ _ => true)) example_codec example_codec
    [Byte.x01] example_display 7 _ _ _ _ _ _ example_retained example_accepted_block).
Defined.
