(* ===== verification/PoolJournal.v ===== *)
(** * The journal of the pool backend

    [wcash-merge-miner/src/pool_backend_journal.rs]: an append-only file whose
    first line is a header and whose other lines are events, each with a digest
    that links it to the line before.  The events drive a semantic state of jobs,
    shares and winners; a winner keeps its exact block and follows an automaton of
    observations.  A restart replays the file and repairs the end that a crash
    left.

    The file is its bytes.  Paths, permissions, locks and allocation failures are
    left out; a failed append leaves any prefix of its record in the file.  The
    events are those of the crate [wcash-pool-protocol], as this file constructs
    and matches them; its other data, its validation functions, JSON and
    hexadecimal are the classes [PoolTypes] and [PoolOps]. *)

From stdpp Require Import sorting.
From S2P Require Import Prelude Amounts Difficulty Networks Subsidies AuxCodec AuxMerkle AuxProof AuxCoinbase BlockChecks WinnerJournal WinnerBlocks.

Import Journal(MinerError, WinnerChain, Wcash, Zcash, WinnerKey, mkKey, key_share_id, key_chain).

(** ** Events *)

Notation Hex32 := (list byte) (only parsing).
Notation Uuid := (list byte) (only parsing).

Class PoolTypes := {
  JobDescriptor : Type;
  WinnerDescriptor : Type;
  ChainTip : Type;
  WorkerIdentity : Type;
  InvalidationReason : Type;
  #[global] WinnerDescriptor_eq :: EqDecision WinnerDescriptor;
  #[global] WorkerIdentity_eq :: EqDecision WorkerIdentity;
}.

Section Data.
Context `{PoolTypes}.

Record ShareReceipt := mkReceipt {
  receipt_event_seq : Z;
  receipt_job_id : Hex32;
  receipt_share_id : Hex32;
  attribution_id : Hex32;
  receipt_parent_hash_le : Hex32;
  receipt_winners : list WinnerDescriptor;
}.
#[export] Instance ShareReceipt_eq_dec : EqDecision ShareReceipt.
Proof. solve_decision. Defined.

(** [BackendEvent]. *)
Inductive BackendEvent :=
| JobActivated (event_seq : Z) (job : JobDescriptor)
| JobInvalidated (event_seq : Z) (job_id : Hex32) (reason : InvalidationReason) (accept_for_ms : Z)
| GenerationClosed (event_seq : Z) (job_id : Hex32)
| ShareCommitted (receipt : ShareReceipt) (job_id : Hex32) (identity : WorkerIdentity) (target_le : list byte)
| WinnerSideChain (event_seq : Z) (share_id job_id : Hex32) (winner : WinnerDescriptor) (tip : ChainTip)
| WinnerObserved (event_seq : Z) (share_id job_id : Hex32) (winner : WinnerDescriptor) (tip : ChainTip) (confirmations : Z)
| WinnerOrphaned (event_seq : Z) (share_id job_id : Hex32) (winner : WinnerDescriptor) (tip : ChainTip)
| WinnerQuarantined (event_seq : Z) (share_id job_id : Hex32) (winner : WinnerDescriptor) (tip : ChainTip)
| WinnerRequeued (event_seq : Z) (share_id job_id : Hex32) (winner : WinnerDescriptor) (tip : ChainTip)
| WinnerMatured (event_seq : Z) (share_id job_id : Hex32) (winner : WinnerDescriptor) (tip : ChainTip) (confirmations : Z).

Definition event_seq (event : BackendEvent) : Z :=
  match event with
  | JobActivated n _ | JobInvalidated n _ _ _ | GenerationClosed n _ | WinnerSideChain n _ _ _ _
  | WinnerObserved n _ _ _ _ _ | WinnerOrphaned n _ _ _ _ | WinnerQuarantined n _ _ _ _
  | WinnerRequeued n _ _ _ _ | WinnerMatured n _ _ _ _ _ => n
  | ShareCommitted receipt _ _ _ => receipt_event_seq receipt
  end.

(** [PersistedWinnerBlocks] and [JournalWinnerBlocks]. *)
Record PersistedWinnerBlocks := mkPersisted { persisted_wcash : option string; persisted_zcash : option string }.
Record JournalWinnerBlocks := mkBlocks { wcash_bytes : option (list byte); zcash_bytes : option (list byte) }.
#[export] Instance JournalWinnerBlocks_eq_dec : EqDecision JournalWinnerBlocks.
Proof. solve_decision. Defined.
Definition no_blocks : PersistedWinnerBlocks := mkPersisted None None.
Definition blocks_are_empty (self : PersistedWinnerBlocks) : bool :=
  match self with mkPersisted None None => true | _ => false end.

(** [JournalHeader] and [PersistedEventRecord]. *)
Record JournalHeader := mkJournalHeader {
  format_version : Z;
  backend_protocol_version : Z;
  backend_instance : Uuid;
  journal_stream : Uuid;
  wcash_genesis : Hex32;
  zcash_genesis : Hex32;
  wcash_payout_commitment : Hex32;
  zcash_payout_commitment : Hex32;
  chain_id : Z;
}.
Record PersistedEventRecord := mkEventRecord {
  record_seq : Z;
  record_event : BackendEvent;
  winner_blocks : PersistedWinnerBlocks;
  previous_digest : Hex32;
  digest : Hex32;
}.

(** [JournalWinnerLifecycle] and [JournalWinnerTransition]. *)
Inductive Lifecycle :=
| Pending
| SideChain (tip : ChainTip)
| Observed (tip : ChainTip) (confirmations : Z)
| Orphaned (tip : ChainTip)
| Quarantined (tip : ChainTip)
| Requeued (tip : ChainTip)
| Matured (tip : ChainTip) (confirmations : Z).
Definition requires_submission (self : Lifecycle) : bool :=
  match self with Pending | Requeued _ => true | _ => false end.
Definition is_pending (self : Lifecycle) : bool := match self with Pending => true | _ => false end.
Definition is_matured (self : Lifecycle) : bool := match self with Matured _ _ => true | _ => false end.
Definition is_quarantined (self : Lifecycle) : bool := match self with Quarantined _ => true | _ => false end.

Inductive Transition :=
| ToSideChain (tip : ChainTip)
| ToObserved (tip : ChainTip) (confirmations : Z)
| ToOrphaned (tip : ChainTip)
| ToQuarantined (tip : ChainTip)
| ToRequeued (tip : ChainTip)
| ToMatured (tip : ChainTip) (confirmations : Z).

(** [JournalWinnerState]. *)
Record WinnerState := mkWinnerState {
  winner_share_id : Hex32;
  winner_job_id : Hex32;
  winner : WinnerDescriptor;
  parent_hash_le : Hex32;
  block_bytes : list byte;
  lifecycle : Lifecycle;
  revision_event_seq : Z;
}.

(** [JournalWinnerTransition::into_event]. *)
Definition into_event (self : Transition) (seq : Z) (state : WinnerState) : BackendEvent :=
  let share_id := winner_share_id state in
  let job_id := winner_job_id state in
  let winner := winner state in
  match self with
  | ToSideChain tip => WinnerSideChain seq share_id job_id winner tip
  | ToObserved tip confirmations => WinnerObserved seq share_id job_id winner tip confirmations
  | ToOrphaned tip => WinnerOrphaned seq share_id job_id winner tip
  | ToQuarantined tip => WinnerQuarantined seq share_id job_id winner tip
  | ToRequeued tip => WinnerRequeued seq share_id job_id winner tip
  | ToMatured tip confirmations => WinnerMatured seq share_id job_id winner tip confirmations
  end.

(** [JobLifecycle], [JournalJobState], [JournalShareState] and
    [JournalSemanticState]. *)
Inductive JobLifecycle := Active | Invalidated | Closed.
Record JobState := mkJobState { job : JobDescriptor; job_lifecycle : JobLifecycle }.
Record ShareState := mkShareState {
  receipt : ShareReceipt;
  identity : WorkerIdentity;
  target_le : list byte;
  blocks : JournalWinnerBlocks;
}.
Record Semantic := mkSemantic {
  jobs : gmap Hex32 JobState;
  shares : gmap Hex32 ShareState;
  winners : gmap WinnerKey WinnerState;
  winner_order : list WinnerKey;
}.
Definition empty_semantic : Semantic := mkSemantic ∅ ∅ ∅ [].

(** [JournalState]: [file] is the content of the file. *)
Record JournalState := mkState {
  file : list byte;
  bytes_written : Z;
  last_digest : Hex32;
  events : list BackendEvent;
  semantic : Semantic;
  poisoned : bool;
}.

Record JournalShareCommit := mkCommit { commit_receipt : ShareReceipt; replayed : bool }.
Record JournalEventPage := mkPage {
  after_event_seq : Z;
  next_page_seq : Z;
  complete : bool;
  page_events : list BackendEvent;
}.
Record WinnerSummary := mkSummary { pending_wcash : Z; quarantined_wcash : Z; pending_zcash : Z }.

(** [PoolBackendJournalError]. *)
Inductive JournalError :=
| Io
| InvalidConfiguration (reason : string)
| EmptyJournal
| UnterminatedHeader
| MalformedHeader
| UnsupportedVersion (field : string)
| HeaderMismatch (field : string)
| MalformedRecord (line : Z)
| RecordTooLarge (line : Z)
| JournalTooLarge
| EventCapacity
| WinnerCapacity
| Overflow
| InvalidEvent (event_seq : Z)
| SemanticViolation (event_seq : Z) (reason : string)
| ShareConflict (share_id : Hex32)
| WinnerNotFound (share_id : Hex32) (chain : WinnerChain)
| WinnerRevisionConflict (share_id : Hex32) (chain : WinnerChain) (expected actual : Z)
| InvalidWinnerBlock (event_seq : Z) (chain : WinnerChain)
| ShareRequiresAtomicAppend
| WinnerRequiresCompareAndSwap
| EventSequenceMismatch (record_seq event_seq : Z)
| NonContiguousSequence (expected actual : Z)
| PreviousDigestMismatch (event_seq : Z)
| DigestMismatch (event_seq : Z)
| EventTooLargeForPage (event_seq : Z)
| InvalidPageLimit (actual : Z)
| CursorBeyondEnd (after current : Z)
| PathChanged
| Poisoned.

(** What [serde_json::from_slice] returns for a record. *)
Inductive ParsedRecord := Parsed (r : PersistedEventRecord) | Truncated | Unparsable.
End Data.

Notation Result := (outcome JournalError).

(** ** Other crates *)

Class PoolOps `{T : PoolTypes} := {
  job_id_of : JobDescriptor -> Hex32;
  job_previous_hash_le : JobDescriptor -> WinnerChain -> Hex32;
  job_target_le : JobDescriptor -> WinnerChain -> list byte;
  winner_chain : WinnerDescriptor -> WinnerChain;
  winner_height : WinnerDescriptor -> Z;
  winner_block_hash_le : WinnerDescriptor -> Hex32;
  winner_coinbase_txid_le : WinnerDescriptor -> Hex32;
  maturity_confirmations : WinnerDescriptor -> Z;
  event_is_valid : BackendEvent -> bool;
  receipt_is_valid_for_job : ShareReceipt -> JobDescriptor -> bool;
  canonical_attribution_id : WorkerIdentity -> list byte -> option Hex32;
  header_json : JournalHeader -> list byte;
  event_json : BackendEvent -> list byte;
  record_json : PersistedEventRecord -> list byte;
  unsigned_json : BackendEvent -> PersistedWinnerBlocks -> Hex32 -> list byte;
  empty_page_json : Z -> list byte;
  parse_header : list byte -> option JournalHeader;
  parse_record : list byte -> ParsedRecord;
  encode_hex : list byte -> string;
  BACKEND_PROTOCOL_VERSION : Z;
  MAX_BACKEND_PAYLOAD_BYTES : Z;
  MAX_EVENT_PAGE_ITEMS : Z;
}.

(** What the replay relies on of JSON: a value is read back, it is on one line, and
    a proper prefix of a record is an unexpected end of the input. *)
Class JsonLaws `{O : PoolOps} : Prop := {
  header_roundtrip h : parse_header (header_json h) = Some h;
  header_one_line h : Byte.x0a ∉ header_json h;
  record_roundtrip r : parse_record (record_json r) = Parsed r;
  record_one_line r : Byte.x0a ∉ record_json r;
  record_nonempty r : record_json r <> [];
  record_prefix r n : (n < length (record_json r))%nat -> parse_record (take n (record_json r)) = Truncated;
}.

Definition JOURNAL_FORMAT_VERSION : Z := 2.
Definition MAX_JOURNAL_EVENTS : Z := 4000000.
Definition MAX_JOURNAL_BYTES : Z := 4 * 1024 * 1024 * 1024.
Definition MAX_JOURNAL_RECORD_BYTES : Z := 10 * 1024 * 1024.
Definition MAX_WINNER_BLOCK_BYTES : Z := 2000000.
Definition MAX_RETAINED_WINNERS : Z := 100000.
Definition HEADER_DIGEST_DOMAIN : list byte := bytes_of "wcash-pool/backend-journal-header/v2" ++ [Byte.x00].
Definition EVENT_DIGEST_DOMAIN : list byte := bytes_of "wcash-pool/backend-journal-event/v2" ++ [Byte.x00].

(** ** Checks *)

Section Operations.
Context `{ConsensusBuild, Foundation.FoundationEnv, Hashes} {B : BlockCodec} {T : PoolTypes} {O : PoolOps}.
Context (legacy modern : TransactionCodec) {W : EquihashVerifier}.

(** [digest_canonical], [digest_header] and [digest_event]. *)
Definition digest_canonical (domain canonical : list byte) : Result Hex32 :=
  let? length := ok_or (u64_checked (len canonical)) Overflow in
  Ok (sha256 (domain ++ rev (to_le 8 length) ++ canonical)).
Definition digest_header (header : JournalHeader) : Result Hex32 :=
  digest_canonical HEADER_DIGEST_DOMAIN (header_json header).
Definition digest_event (event : BackendEvent) (winner_blocks : PersistedWinnerBlocks) (previous_digest : Hex32) : Result Hex32 :=
  digest_canonical EVENT_DIGEST_DOMAIN (unsigned_json event winner_blocks previous_digest).

Definition empty_events_page_payload_size (after_event_seq : Z) : Z := len (empty_page_json after_event_seq).
Definition ensure_event_fits_page (event : BackendEvent) : Result unit :=
  let? after_event_seq := ok_or (u64_checked (event_seq event - 1)) (NonContiguousSequence 1 0) in
  let base := empty_events_page_payload_size after_event_seq in
  let? total := ok_or (usize_checked (base + len (event_json event))) Overflow in
  if total >? MAX_BACKEND_PAYLOAD_BYTES then Err (EventTooLargeForPage (event_seq event)) else Ok tt.

Definition check_record_size (encoded_bytes line_number : Z) : Result unit :=
  if encoded_bytes >? MAX_JOURNAL_RECORD_BYTES then Err (RecordTooLarge line_number) else Ok tt.
Definition checked_append_limits (current_event_count current_bytes record_bytes : Z) : Result Z :=
  if current_event_count >=? MAX_JOURNAL_EVENTS then Err EventCapacity
  else
    let? new_length := ok_or (u64_checked (current_bytes + record_bytes)) Overflow in
    if new_length >? MAX_JOURNAL_BYTES then Err JournalTooLarge else Ok new_length.
Definition checked_winner_capacity (current_winners additional_winners : Z) : Result Z :=
  let? total := ok_or (usize_checked (current_winners + additional_winners)) Overflow in
  if total >? MAX_RETAINED_WINNERS then Err WinnerCapacity else Ok total.

(** [is_nil] of a UUID and [is_zero] of a hash. *)
Definition all_zero (bytes : list byte) : bool := forallb (Byte.eqb Byte.x00) bytes.

Definition validate_identity_and_network (backend_instance : Uuid) (journal_stream : option Uuid)
    (wcash_genesis zcash_genesis wcash_payout_commitment zcash_payout_commitment : Hex32) (chain_id : Z) : Result unit :=
  do? require (negb (all_zero backend_instance)) (InvalidConfiguration "backend_instance must be non-nil") in
  do? match journal_stream with
      | None => Ok tt
      | Some journal_stream =>
          do? require (negb (all_zero journal_stream)) (InvalidConfiguration "journal_stream must be non-nil") in
          require (negb (bool_decide (journal_stream = backend_instance)))
            (InvalidConfiguration "backend_instance and journal_stream must be distinct")
      end in
  do? require (negb (all_zero wcash_genesis)) (InvalidConfiguration "wcash_genesis must be nonzero") in
  do? require (negb (all_zero zcash_genesis)) (InvalidConfiguration "zcash_genesis must be nonzero") in
  do? require (negb (all_zero wcash_payout_commitment)) (InvalidConfiguration "wcash_payout_commitment must be nonzero") in
  do? require (negb (all_zero zcash_payout_commitment)) (InvalidConfiguration "zcash_payout_commitment must be nonzero") in
  require (negb (chain_id =? 0)) (InvalidConfiguration "chain_id must be nonzero").

Definition validate_header (header : JournalHeader) : Result unit :=
  do? require (format_version header =? JOURNAL_FORMAT_VERSION) (UnsupportedVersion "journal format") in
  do? require (backend_protocol_version header =? BACKEND_PROTOCOL_VERSION) (UnsupportedVersion "backend protocol") in
  validate_identity_and_network (backend_instance header) (Some (journal_stream header)) (wcash_genesis header)
    (zcash_genesis header) (wcash_payout_commitment header) (zcash_payout_commitment header) (chain_id header).

Definition validate_expected_header (header : JournalHeader) (instance : Uuid) (wcash zcash wcash_payout zcash_payout : Hex32)
    (id : Z) : Result unit :=
  do? require (bool_decide (backend_instance header = instance)) (HeaderMismatch "backend_instance") in
  do? require (bool_decide (wcash_genesis header = wcash)) (HeaderMismatch "wcash_genesis") in
  do? require (bool_decide (zcash_genesis header = zcash)) (HeaderMismatch "zcash_genesis") in
  do? require (bool_decide (wcash_payout_commitment header = wcash_payout)) (HeaderMismatch "wcash_payout_commitment") in
  do? require (bool_decide (zcash_payout_commitment header = zcash_payout)) (HeaderMismatch "zcash_payout_commitment") in
  require (chain_id header =? id) (HeaderMismatch "chain_id").

Definition validate_replayed_record (r : PersistedEventRecord) (expected_previous_digest : Hex32)
    (prior_event_count : Z) : Result unit :=
  let? expected := ok_or (u64_checked (prior_event_count + 1)) Overflow in
  if negb (record_seq r =? expected) then Err (NonContiguousSequence expected (record_seq r))
  else if negb (event_seq (record_event r) =? record_seq r)
  then Err (EventSequenceMismatch (record_seq r) (event_seq (record_event r)))
  else
    do? require (event_is_valid (record_event r)) (InvalidEvent (record_seq r)) in
    do? require (bool_decide (previous_digest r = expected_previous_digest)) (PreviousDigestMismatch (record_seq r)) in
    let? computed := digest_event (record_event r) (winner_blocks r) (previous_digest r) in
    require (bool_decide (digest r = computed)) (DigestMismatch (record_seq r)).

(** ** Winner blocks *)

Definition require_no_private_blocks (blocks : PersistedWinnerBlocks) (event_seq : Z) : Result unit :=
  require (blocks_are_empty blocks) (SemanticViolation event_seq "private winner blocks are only valid on ShareCommitted").

Definition encode_block (bytes : option (list byte)) (chain : WinnerChain) (event_seq : Z) : Result (option string) :=
  match bytes with
  | None => Ok None
  | Some bytes =>
      if (len bytes =? 0) || (len bytes >? MAX_WINNER_BLOCK_BYTES) then Err (InvalidWinnerBlock event_seq chain)
      else Ok (Some (encode_hex bytes))
  end.
Definition encode_winner_blocks (blocks : JournalWinnerBlocks) (event_seq : Z) : Result PersistedWinnerBlocks :=
  let? wcash := encode_block (wcash_bytes blocks) Wcash event_seq in
  let? zcash := encode_block (zcash_bytes blocks) Zcash event_seq in
  Ok (mkPersisted wcash zcash).

(** [is_ascii_digit] or ['a'..='f']. *)
Definition is_lowercase_hex (b : byte) : bool :=
  within 48 57 (Z.of_N (Byte.to_N b)) || within 97 102 (Z.of_N (Byte.to_N b)).
Definition decode_block (encoded : option string) (chain : WinnerChain) (event_seq : Z) : Result (option (list byte)) :=
  match encoded with
  | None => Ok None
  | Some encoded =>
      let? maximum_encoded := ok_or (usize_checked (MAX_WINNER_BLOCK_BYTES * 2)) Overflow in
      let characters := bytes_of encoded in
      if (len characters =? 0) || (len characters >? maximum_encoded) || negb (len characters mod 2 =? 0)
         || negb (forallb is_lowercase_hex characters)
      then Err (InvalidWinnerBlock event_seq chain)
      else
        let? bytes := ok_or (decode_hex encoded) (InvalidWinnerBlock event_seq chain) in
        Ok (Some bytes)
  end.

Definition validate_exact_winner_metadata (bytes : list byte) (w : WinnerDescriptor) (j : JobDescriptor) (event_seq : Z) : Result unit :=
  let chain := winner_chain w in
  let metadata_error := InvalidWinnerBlock event_seq chain in
  let? b := ok_or (match chain with Wcash => wcash_deserialize bytes | Zcash => zcash_deserialize_block bytes end)
    metadata_error in
  let? expanded := CompactDifficulty.to_expanded (BlockCheck.difficulty_threshold (block_header b)) in
  let? expanded := ok_or expanded metadata_error in
  do? require (bool_decide (previous_block_hash b = job_previous_hash_le j chain)) metadata_error in
  do? require (bool_decide (to_le 32 expanded = job_target_le j chain)) metadata_error in
  require (bool_decide (coinbase_txid <$> first_transaction b = Some (winner_coinbase_txid_le w))) metadata_error.

Definition validate_exact_winner_block (bytes : list byte) (w : WinnerDescriptor) (r : ShareReceipt) (j : JobDescriptor)
    (event_seq : Z) : Result unit :=
  let display_hash := rev (winner_block_hash_le w) in
  let? recovered_parent := map_err (fun _ => InvalidWinnerBlock event_seq (winner_chain w))
    (validate_persisted_winner_block legacy modern bytes (encode_hex display_hash) (winner_height w) (winner_chain w)) in
  do? require (bool_decide (recovered_parent = receipt_parent_hash_le r)) (InvalidWinnerBlock event_seq (winner_chain w)) in
  validate_exact_winner_metadata bytes w j event_seq.

(** The bytes that belong to a chain. *)
Definition bytes_for (blocks : JournalWinnerBlocks) (chain : WinnerChain) : option (list byte) :=
  match chain with Wcash => wcash_bytes blocks | Zcash => zcash_bytes blocks end.
Definition find_winner (r : ShareReceipt) (chain : WinnerChain) : option WinnerDescriptor :=
  List.find (fun w => bool_decide (winner_chain w = chain)) (receipt_winners r).

(** The loop of [decode_and_validate_winner_blocks], for one chain. *)
Definition validate_chain_block (blocks : JournalWinnerBlocks) (r : ShareReceipt) (j : JobDescriptor) (event_seq : Z)
    (chain : WinnerChain) : Result unit :=
  match find_winner r chain, bytes_for blocks chain with
  | None, None => Ok tt
  | None, Some _ => Err (InvalidWinnerBlock event_seq chain)
  | Some _, None => Err (InvalidWinnerBlock event_seq chain)
  | Some w, Some bytes => validate_exact_winner_block bytes w r j event_seq
  end.
Definition decode_and_validate_winner_blocks (encoded : PersistedWinnerBlocks) (r : ShareReceipt) (j : JobDescriptor)
    (event_seq : Z) : Result JournalWinnerBlocks :=
  let? wcash := decode_block (persisted_wcash encoded) Wcash event_seq in
  let? zcash := decode_block (persisted_zcash encoded) Zcash event_seq in
  let blocks := mkBlocks wcash zcash in
  do? validate_chain_block blocks r j event_seq Wcash in
  do? validate_chain_block blocks r j event_seq Zcash in
  Ok blocks.

(** ** The semantic state *)

Definition set_lifecycle (state : WinnerState) (next : Lifecycle) (event_seq : Z) : WinnerState :=
  mkWinnerState (winner_share_id state) (winner_job_id state) (winner state) (parent_hash_le state) (block_bytes state)
    next event_seq.

(** [exact_winner_mut]. *)
Definition exact_winner_mut (self : Semantic) (event_seq : Z) (share_id job_id : Hex32) (w : WinnerDescriptor) : Result WinnerState :=
  let? state := ok_or (winners self !! mkKey share_id (winner_chain w))
    (SemanticViolation event_seq "lifecycle event references an unknown winner") in
  if negb (bool_decide (winner_job_id state = job_id)) || negb (bool_decide (winner state = w))
  then Err (SemanticViolation event_seq "lifecycle event changed immutable winner metadata")
  else Ok state.

(** The guard of each lifecycle branch of [apply_record]. *)
Definition enter_side_chain (event_seq : Z) (w : WinnerDescriptor) (tip : ChainTip) (current : Lifecycle) : Result Lifecycle :=
  if negb (bool_decide (winner_chain w = Zcash)) || negb (is_pending current)
  then Err (SemanticViolation event_seq "only a pending Zcash proof can enter side-chain monitoring")
  else Ok (SideChain tip).
Definition observe (event_seq : Z) (w : WinnerDescriptor) (tip : ChainTip) (confirmations : Z) (current : Lifecycle) : Result Lifecycle :=
  if is_matured current && (maturity_confirmations w <=? confirmations)
  then Err (SemanticViolation event_seq "matured winner can return to observed only below its maturity threshold")
  else Ok (Observed tip confirmations).
Definition orphan (event_seq : Z) (tip : ChainTip) (current : Lifecycle) : Result Lifecycle :=
  match current with
  | Observed _ _ | Matured _ _ => Ok (Orphaned tip)
  | _ => Err (SemanticViolation event_seq "only an observed or matured winner can be orphaned")
  end.
Definition quarantine (event_seq : Z) (tip : ChainTip) (current : Lifecycle) : Result Lifecycle :=
  if is_quarantined current then Err (SemanticViolation event_seq "winner cannot enter quarantine from its current state")
  else Ok (Quarantined tip).
Definition requeue (event_seq : Z) (tip : ChainTip) (current : Lifecycle) : Result Lifecycle :=
  if is_quarantined current then Ok (Requeued tip)
  else Err (SemanticViolation event_seq "only a quarantined winner can be requeued").
Definition mature (event_seq : Z) (tip : ChainTip) (confirmations : Z) (current : Lifecycle) : Result Lifecycle :=
  match current with
  | Observed _ _ => Ok (Matured tip confirmations)
  | _ => Err (SemanticViolation event_seq "only an observed winner can mature")
  end.

(** A lifecycle branch: the exact winner, its guard and the assignments. *)
Definition update_winner (self : Semantic) (r : PersistedEventRecord) (share_id job_id : Hex32) (w : WinnerDescriptor)
    (guard : Lifecycle -> Result Lifecycle) : Result Semantic :=
  do? require_no_private_blocks (winner_blocks r) (record_seq r) in
  let? state := exact_winner_mut self (record_seq r) share_id job_id w in
  let? next := guard (lifecycle state) in
  Ok (mkSemantic (jobs self) (shares self)
    (<[mkKey share_id (winner_chain w) := set_lifecycle state next (record_seq r)]> (winners self)) (winner_order self)).

(** A job branch: the job, its guard and the assignment. *)
Definition update_job (self : Semantic) (r : PersistedEventRecord) (job_id : Hex32) (unknown : string)
    (guard : JobLifecycle -> Result JobLifecycle) : Result Semantic :=
  do? require_no_private_blocks (winner_blocks r) (record_seq r) in
  let? state := ok_or (jobs self !! job_id) (SemanticViolation (record_seq r) unknown) in
  let? next := guard (job_lifecycle state) in
  Ok (mkSemantic (<[job_id := mkJobState (job state) next]> (jobs self)) (shares self) (winners self) (winner_order self)).
Definition invalidate_job (event_seq : Z) (current : JobLifecycle) : Result JobLifecycle :=
  match current with
  | Active => Ok Invalidated
  | Invalidated => Err (SemanticViolation event_seq "job was invalidated more than once")
  | Closed => Err (SemanticViolation event_seq "closed job cannot be invalidated")
  end.
Definition close_job (event_seq : Z) (current : JobLifecycle) : Result JobLifecycle :=
  match current with
  | Invalidated => Ok Closed
  | Active => Err (SemanticViolation event_seq "active job must be invalidated before closure")
  | Closed => Err (SemanticViolation event_seq "job was closed more than once")
  end.

(** The activation branch. *)
Definition activate_job (self : Semantic) (r : PersistedEventRecord) (j : JobDescriptor) : Result Semantic :=
  do? require_no_private_blocks (winner_blocks r) (record_seq r) in
  match jobs self !! job_id_of j with
  | Some _ => Err (SemanticViolation (record_seq r) "job ID was activated more than once")
  | None => Ok (mkSemantic (<[job_id_of j := mkJobState j Active]> (jobs self)) (shares self) (winners self) (winner_order self))
  end.

(** The last loop of the share branch: the winners of a receipt, in order. *)
Fixpoint insert_winners (event_seq : Z) (r : ShareReceipt) (retained : JournalWinnerBlocks) (new : list WinnerDescriptor)
    (self : Semantic) : Result Semantic :=
  match new with
  | [] => Ok self
  | w :: new =>
      let? bytes := expect (bytes_for retained (winner_chain w)) in
      let key := mkKey (receipt_share_id r) (winner_chain w) in
      let state := mkWinnerState (receipt_share_id r) (receipt_job_id r) w (receipt_parent_hash_le r) bytes Pending event_seq in
      insert_winners event_seq r retained new
        (mkSemantic (jobs self) (shares self) (<[key := state]> (winners self)) (winner_order self ++ [key]))
  end.

(** The share branch. *)
Definition commit_share (self : Semantic) (r : PersistedEventRecord) (receipt : ShareReceipt) (job_id : Hex32)
    (identity : WorkerIdentity) (target_le : list byte) : Result Semantic :=
  let event_seq := record_seq r in
  do? checked_winner_capacity (len (winner_order self)) (len (receipt_winners receipt)) in
  let? state := ok_or (jobs self !! job_id) (SemanticViolation event_seq "share references an unknown job") in
  match job_lifecycle state with
  | Closed => Err (SemanticViolation event_seq "new share references a closed job")
  | _ =>
      do? require (receipt_is_valid_for_job receipt (job state)) (InvalidEvent event_seq) in
      match shares self !! receipt_share_id receipt with
      | Some _ => Err (SemanticViolation event_seq "share ID already has a durable commit record")
      | None =>
          let? retained := decode_and_validate_winner_blocks (winner_blocks r) receipt (job state) event_seq in
          do? require (forallb (fun w => bool_decide (winners self !! mkKey (receipt_share_id receipt) (winner_chain w) = None))
            (receipt_winners receipt)) (SemanticViolation event_seq "winner key was committed more than once") in
          insert_winners event_seq receipt retained (receipt_winners receipt)
            (mkSemantic (jobs self) (<[receipt_share_id receipt := mkShareState receipt identity target_le retained]> (shares self))
              (winners self) (winner_order self))
      end
  end.

(** [apply_record]. *)
Definition apply_record (self : Semantic) (r : PersistedEventRecord) : Result Semantic :=
  let event_seq := record_seq r in
  match record_event r with
  | JobActivated _ j => activate_job self r j
  | JobInvalidated _ job_id _ _ => update_job self r job_id "invalidation references an unknown job" (invalidate_job event_seq)
  | GenerationClosed _ job_id => update_job self r job_id "closure references an unknown job" (close_job event_seq)
  | ShareCommitted receipt job_id identity target_le => commit_share self r receipt job_id identity target_le
  | WinnerSideChain _ share_id job_id w tip => update_winner self r share_id job_id w (enter_side_chain event_seq w tip)
  | WinnerObserved _ share_id job_id w tip confirmations =>
      update_winner self r share_id job_id w (observe event_seq w tip confirmations)
  | WinnerOrphaned _ share_id job_id w tip => update_winner self r share_id job_id w (orphan event_seq tip)
  | WinnerQuarantined _ share_id job_id w tip => update_winner self r share_id job_id w (quarantine event_seq tip)
  | WinnerRequeued _ share_id job_id w tip => update_winner self r share_id job_id w (requeue event_seq tip)
  | WinnerMatured _ share_id job_id w tip confirmations =>
      update_winner self r share_id job_id w (mature event_seq tip confirmations)
  end.

(** [reserve_for], without the allocations. *)
Definition reserve_for (self : Semantic) (event : BackendEvent) : Result unit :=
  match event with
  | ShareCommitted receipt _ _ _ =>
      do? checked_winner_capacity (len (winner_order self)) (len (receipt_winners receipt)) in Ok tt
  | _ => Ok tt
  end.

(** ** Appends *)

(** What the path checks, the write and the sync of an append do: they succeed, or
    one fails when [written] bytes of the record are in the file. *)
Inductive AppendIo := Durable | Failed (error : JournalError) (written : nat).

Definition ensure_usable (state : JournalState) : Result unit := require (negb (poisoned state)) Poisoned.
Definition last_seq (l : list BackendEvent) : Z := match last l with Some event => event_seq event | None => 0 end.
Definition current_event_seq (state : JournalState) : Result Z := do? ensure_usable state in Ok (last_seq (events state)).
Definition next_event_seq (state : JournalState) : Result Z := ok_or (u64_checked (last_seq (events state) + 1)) Overflow.

Definition event_with_sequence (event : BackendEvent) (seq : Z) : Result BackendEvent :=
  match event with
  | JobActivated _ j => Ok (JobActivated seq j)
  | JobInvalidated _ job_id reason accept_for_ms => Ok (JobInvalidated seq job_id reason accept_for_ms)
  | GenerationClosed _ job_id => Ok (GenerationClosed seq job_id)
  | ShareCommitted _ _ _ _ => Panic
  | WinnerSideChain _ share_id job_id w tip => Ok (WinnerSideChain seq share_id job_id w tip)
  | WinnerObserved _ share_id job_id w tip confirmations => Ok (WinnerObserved seq share_id job_id w tip confirmations)
  | WinnerOrphaned _ share_id job_id w tip => Ok (WinnerOrphaned seq share_id job_id w tip)
  | WinnerQuarantined _ share_id job_id w tip => Ok (WinnerQuarantined seq share_id job_id w tip)
  | WinnerRequeued _ share_id job_id w tip => Ok (WinnerRequeued seq share_id job_id w tip)
  | WinnerMatured _ share_id job_id w tip confirmations => Ok (WinnerMatured seq share_id job_id w tip confirmations)
  end.

(** [append_locked] before its I/O: the record, its new length and the semantic
    state after it. *)
Definition prepare_append (state : JournalState) (event : BackendEvent) (blocks : PersistedWinnerBlocks) :
    Result (PersistedEventRecord * Z * Semantic) :=
  do? require (event_is_valid event) (InvalidEvent (event_seq event)) in
  do? ensure_event_fits_page event in
  let? expected := next_event_seq state in
  if negb (event_seq event =? expected) then Err (NonContiguousSequence expected (event_seq event))
  else
    do? reserve_for (semantic state) event in
    let previous := last_digest state in
    let? computed := digest_event event blocks previous in
    let r := mkEventRecord (event_seq event) event blocks previous computed in
    let encoded := record_json r ++ [Byte.x0a] in
    do? check_record_size (len encoded) (Z.min (expected + 1) U64_MAX) in
    let? record_bytes := ok_or (u64_checked (len encoded)) Overflow in
    let? new_length := checked_append_limits (len (events state)) (bytes_written state) record_bytes in
    let? next := apply_record (semantic state) r in
    Ok (r, new_length, next).

(** [append_locked]. *)
Definition append_locked (io : AppendIo) (state : JournalState) (event : BackendEvent) (blocks : PersistedWinnerBlocks) :
    JournalState * Result unit :=
  match prepare_append state event blocks with
  | Err e => (state, Err e)
  | Panic => (state, Panic)
  | Ok (r, new_length, next) =>
      let encoded := record_json r ++ [Byte.x0a] in
      match io with
      | Failed error written =>
          (mkState (file state ++ take written encoded) (bytes_written state) (last_digest state) (events state) next true,
           Err error)
      | Durable => (mkState (file state ++ encoded) new_length (digest r) (events state ++ [record_event r]) next false, Ok tt)
      end
  end.

(** The early returns of an operation that has not changed the state. *)
Definition on_ok {A C} (state : JournalState) (m : Result A) (k : A -> JournalState * Result C) : JournalState * Result C :=
  match m with Ok a => k a | Err e => (state, Err e) | Panic => (state, Panic) end.
Definition and_return {C} (p : JournalState * Result unit) (c : C) : JournalState * Result C :=
  (p.1, do? p.2 in Ok c).

Definition append_event (io : AppendIo) (state : JournalState) (event : BackendEvent) : JournalState * Result BackendEvent :=
  match event with
  | ShareCommitted _ _ _ _ => (state, Err ShareRequiresAtomicAppend)
  | WinnerSideChain _ _ _ _ _ | WinnerObserved _ _ _ _ _ _ | WinnerOrphaned _ _ _ _ _ | WinnerQuarantined _ _ _ _ _
  | WinnerRequeued _ _ _ _ _ | WinnerMatured _ _ _ _ _ _ => (state, Err WinnerRequiresCompareAndSwap)
  | _ =>
      on_ok state (ensure_usable state) (fun _ =>
      on_ok state (next_event_seq state) (fun seq =>
      on_ok state (event_with_sequence event seq) (fun event =>
      and_return (append_locked io state event no_blocks) event)))
  end.

Definition append_share_committed (io : AppendIo) (state : JournalState) (job_id share_id parent_hash_le : Hex32)
    (new : list WinnerDescriptor) (id : WorkerIdentity) (target : list byte) (retained : JournalWinnerBlocks) :
    JournalState * Result JournalShareCommit :=
  on_ok state (ok_or (canonical_attribution_id id target) (InvalidEvent 0)) (fun attribution_id =>
  on_ok state (ensure_usable state) (fun _ =>
  match shares (semantic state) !! share_id with
  | Some existing =>
      let candidate := mkReceipt (receipt_event_seq (receipt existing)) job_id share_id attribution_id parent_hash_le new in
      if bool_decide (receipt existing = candidate) && bool_decide (identity existing = id)
         && bool_decide (target_le existing = target) && bool_decide (blocks existing = retained)
      then (state, Ok (mkCommit (receipt existing) true))
      else (state, Err (ShareConflict share_id))
  | None =>
      on_ok state (next_event_seq state) (fun seq =>
      let new_receipt := mkReceipt seq job_id share_id attribution_id parent_hash_le new in
      on_ok state (encode_winner_blocks retained seq) (fun persisted =>
      and_return (append_locked io state (ShareCommitted new_receipt job_id id target) persisted) (mkCommit new_receipt false)))
  end)).

Definition compare_and_transition_winner (io : AppendIo) (state : JournalState) (share_id : Hex32) (chain : WinnerChain)
    (expected_revision : Z) (transition : Transition) : JournalState * Result BackendEvent :=
  on_ok state (ensure_usable state) (fun _ =>
  on_ok state (ok_or (winners (semantic state) !! mkKey share_id chain) (WinnerNotFound share_id chain)) (fun w =>
  if negb (revision_event_seq w =? expected_revision)
  then (state, Err (WinnerRevisionConflict share_id chain expected_revision (revision_event_seq w)))
  else
    on_ok state (next_event_seq state) (fun seq =>
    let event := into_event transition seq w in
    and_return (append_locked io state event no_blocks) event))).

(** ** Queries *)

Definition enumerate {A} (l : list A) : list (Z * A) := zip (seqZ 0 (len l)) l.

(** The loop of [winner_recovery_state]. *)
Fixpoint newest_pending (self : Semantic) (event_seq : Z) (wcash zcash : option (Z * WinnerState)) (l : list (Z * WinnerKey)) :
    Result (option (Z * WinnerState) * option (Z * WinnerState)) :=
  match l with
  | [] => Ok (wcash, zcash)
  | (ordinal, key) :: l =>
      let? w := ok_or (winners self !! key) (SemanticViolation event_seq "winner index references absent private state") in
      if negb (is_pending (lifecycle w)) then newest_pending self event_seq wcash zcash l
      else
        let '(wcash, zcash) :=
          match key_chain key, wcash, zcash with
          | Wcash, None, _ => (Some (ordinal, w), zcash)
          | Zcash, _, None => (wcash, Some (ordinal, w))
          | _, _, _ => (wcash, zcash)
          end in
        match wcash, zcash with
        | Some _, Some _ => Ok (wcash, zcash)
        | _, _ => newest_pending self event_seq wcash zcash l
        end
  end.
Definition ordinal_le (a b : Z * WinnerState) : Prop := a.1 <= b.1.
#[export] Instance ordinal_le_dec a b : Decision (ordinal_le a b) := decide_rel Z.le a.1 b.1.
Definition winner_recovery_state (state : JournalState) : Result (Z * list (Z * WinnerState)) :=
  do? ensure_usable state in
  let? event_seq := next_event_seq state in
  let order := winner_order (semantic state) in
  let? ' (wcash, zcash) := newest_pending (semantic state) event_seq None None (rev (enumerate order)) in
  Ok (len order, merge_sort ordinal_le (option_list wcash ++ option_list zcash)).

(** The loop of the two scans that select one winner. *)
Fixpoint scan_winners (state : JournalState) (chain : option WinnerChain) (selected : Lifecycle -> bool)
    (l : list (Z * WinnerKey)) : Result (option (Z * WinnerState)) :=
  match l with
  | [] => Ok None
  | (index, key) :: l =>
      if match chain with Some required => negb (bool_decide (key_chain key = required)) | None => false end
      then scan_winners state chain selected l
      else
        let? event_seq := next_event_seq state in
        let? w := ok_or (winners (semantic state) !! key)
          (SemanticViolation event_seq "winner index references absent private state") in
        if selected (lifecycle w) then Ok (Some (index, w)) else scan_winners state chain selected l
  end.
Definition scan_start (after_ordinal : option Z) : Result Z :=
  match after_ordinal with Some ordinal => ok_or (usize_checked (ordinal + 1)) Overflow | None => Ok 0 end.
Definition scan_range (order : list WinnerKey) (start before : Z) : list (Z * WinnerKey) :=
  drop (Z.to_nat start) (take (Z.to_nat before) (enumerate order)).

Definition next_submission_required_winner_state_before_for_chain (state : JournalState) (after_ordinal : option Z)
    (before_ordinal : Z) (chain : option WinnerChain) : Result (option (Z * WinnerState)) :=
  do? ensure_usable state in
  let? start := scan_start after_ordinal in
  scan_winners state chain requires_submission (scan_range (winner_order (semantic state)) start before_ordinal).
Definition next_winner_state_by_maturity_before (state : JournalState) (after_ordinal : option Z) (matured : option bool)
    (before_ordinal : Z) (chain : option WinnerChain) : Result (option (Z * WinnerState)) :=
  do? ensure_usable state in
  let? start := scan_start after_ordinal in
  let selected l := match matured with Some required => Bool.eqb required (is_matured l) | None => true end in
  scan_winners state chain selected (scan_range (winner_order (semantic state)) start before_ordinal).
Definition next_winner_state (state : JournalState) (after_ordinal : option Z) :=
  next_winner_state_by_maturity_before state after_ordinal None USIZE_MAX None.
Definition next_unsettled_winner_state (state : JournalState) (after_ordinal : option Z) :=
  next_winner_state_by_maturity_before state after_ordinal (Some false) USIZE_MAX None.
Definition next_matured_winner_state (state : JournalState) (after_ordinal : option Z) :=
  next_winner_state_by_maturity_before state after_ordinal (Some true) USIZE_MAX None.

(** [next_first_attempt_winner_state_for_chain]: the cursor is part of the result,
    because the code advances it in place. *)
Definition MAX_INSPECTED_WINNERS : nat := 256.
Fixpoint first_attempt_loop (self : Semantic) (event_seq : Z) (chain : option WinnerChain) (next_ordinal : Z)
    (l : list (Z * WinnerKey)) : Z * Result (option (Z * WinnerState) * bool) :=
  let more next_ordinal := next_ordinal <? len (winner_order self) in
  match l with
  | [] => (next_ordinal, Ok (None, more next_ordinal))
  | (index, key) :: l =>
      match usize_checked (index + 1) with
      | None => (next_ordinal, Err Overflow)
      | Some next_ordinal =>
          if match chain with Some required => negb (bool_decide (key_chain key = required)) | None => false end
          then first_attempt_loop self event_seq chain next_ordinal l
          else
            match winners self !! key with
            | None => (next_ordinal, Err (SemanticViolation event_seq "winner index references absent private state"))
            | Some w =>
                if is_pending (lifecycle w) then (next_ordinal, Ok (Some (index, w), more next_ordinal))
                else first_attempt_loop self event_seq chain next_ordinal l
            end
      end
  end.
Definition next_first_attempt_winner_state_for_chain (state : JournalState) (next_ordinal : Z) (chain : option WinnerChain) :
    Z * Result (option (Z * WinnerState) * bool) :=
  match ensure_usable state, next_event_seq state with
  | Ok _, Ok event_seq =>
      first_attempt_loop (semantic state) event_seq chain next_ordinal
        (take MAX_INSPECTED_WINNERS (drop (Z.to_nat next_ordinal) (enumerate (winner_order (semantic state)))))
  | Ok _, Err e => (next_ordinal, Err e)
  | Err e, _ => (next_ordinal, Err e)
  | _, _ => (next_ordinal, Panic)
  end.

Definition winner_state (state : JournalState) (share_id : Hex32) (chain : WinnerChain) : Result (option WinnerState) :=
  do? ensure_usable state in Ok (winners (semantic state) !! mkKey share_id chain).

(** The loop of [winner_summary]. *)
Fixpoint summarize (summary : WinnerSummary) (l : list WinnerState) : Result WinnerSummary :=
  match l with
  | [] => Ok summary
  | w :: l =>
      if is_matured (lifecycle w) then summarize summary l
      else
        match winner_chain (winner w) with
        | Wcash =>
            let? quarantined :=
              if is_quarantined (lifecycle w) then ok_or (u32_checked (quarantined_wcash summary + 1)) Overflow
              else Ok (quarantined_wcash summary) in
            let? pending := ok_or (u32_checked (pending_wcash summary + 1)) Overflow in
            summarize (mkSummary pending quarantined (pending_zcash summary)) l
        | Zcash =>
            let? pending := ok_or (u32_checked (pending_zcash summary + 1)) Overflow in
            summarize (mkSummary (pending_wcash summary) (quarantined_wcash summary) pending) l
        end
  end.
Definition winner_summary (state : JournalState) : Result WinnerSummary :=
  do? ensure_usable state in summarize (mkSummary 0 0 0) (map_to_list (winners (semantic state))).*2.
Definition job_descriptors (state : JournalState) : Result (list (JobDescriptor * bool)) :=
  do? ensure_usable state in
  Ok ((fun entry => (job entry, match job_lifecycle entry with Closed => true | _ => false end))
    <$> (map_to_list (jobs (semantic state))).*2).

(** The loop of [read_events]. *)
Fixpoint fill_page (payload_size : Z) (page : list BackendEvent) (available : list BackendEvent) : Result (list BackendEvent) :=
  match available with
  | [] => Ok page
  | event :: available =>
      let separator := match page with [] => 0 | _ => 1 end in
      let? candidate_size := ok_or (size ← usize_checked (payload_size + separator);
                                    usize_checked (size + len (event_json event))) Overflow in
      if candidate_size >? MAX_BACKEND_PAYLOAD_BYTES then Ok page else fill_page candidate_size (page ++ [event]) available
  end.
Definition read_events (state : JournalState) (after limit : Z) : Result JournalEventPage :=
  if negb (within 1 MAX_EVENT_PAGE_ITEMS limit) then Err (InvalidPageLimit limit)
  else
    do? ensure_usable state in
    let current := last_seq (events state) in
    if after >? current then Err (CursorBeyondEnd after current)
    else
      let? start := ok_or (usize_checked after) Overflow in
      do? assert_that (start <=? len (events state)) in
      let available := drop (Z.to_nat start) (events state) in
      let count := Z.min (len available) limit in
      let? page := fill_page (empty_events_page_payload_size after) [] (take (Z.to_nat count) available) in
      match page, available with
      | [], first :: _ => Err (EventTooLargeForPage (event_seq first))
      | _, _ =>
          let next := match last page with Some event => event_seq event | None => after end in
          Ok (mkPage after next (next =? current) page)
      end.

(** ** Creating and reopening *)

(** [fresh_journal_stream], for the sequence of random identities drawn. *)
Definition fresh_journal_stream (backend_instance : Uuid) (random : list Uuid) : Result Uuid :=
  ok_or (List.find (fun candidate => negb (bool_decide (candidate = backend_instance))) (take 8 random))
    (InvalidConfiguration "could not create a unique random journal stream identity").

(** [create_new_with_stream], when its I/O succeeds. *)
Definition create_new_with_stream (instance stream : Uuid) (wcash zcash wcash_payout zcash_payout : Hex32) (id : Z) :
    Result (JournalHeader * JournalState) :=
  do? validate_identity_and_network instance (Some stream) wcash zcash wcash_payout zcash_payout id in
  let header := mkJournalHeader JOURNAL_FORMAT_VERSION BACKEND_PROTOCOL_VERSION instance stream wcash zcash
    wcash_payout zcash_payout id in
  let? last_digest := digest_header header in
  let encoded_header := header_json header ++ [Byte.x0a] in
  do? check_record_size (len encoded_header) 1 in
  let? bytes_written := ok_or (u64_checked (len encoded_header)) Overflow in
  Ok (header, mkState encoded_header bytes_written last_digest [] empty_semantic false).
Definition create_new (random : list Uuid) (instance : Uuid) (wcash zcash wcash_payout zcash_payout : Hex32) (id : Z) :
    Result (JournalHeader * JournalState) :=
  let? stream := fresh_journal_stream instance random in
  create_new_with_stream instance stream wcash zcash wcash_payout zcash_payout id.

(** [BoundedLine]. *)
Record BoundedLine := mkLine { line_bytes : list byte; terminated : bool; consumed : Z }.

Fixpoint position (l : list byte) : option nat :=
  match l with
  | [] => None
  | b :: l => if Byte.eqb b Byte.x0a then Some 0%nat else S <$> position l
  end.

(** [consume]: the reader is the list of buffers that [fill_buf] will return. *)
Definition consume (remaining : list byte) (reader : list (list byte)) : list (list byte) :=
  match remaining with [] => reader | _ => remaining :: reader end.

(** The loop of [read_bounded_line]. *)
Fixpoint read_line_loop (reader : list (list byte)) (line_number : Z) (line : list byte) :
    Result (option BoundedLine * list (list byte)) :=
  let at_end :=
    match line with
    | [] => Ok (None, [])
    | _ => let? consumed := ok_or (u64_checked (len line)) Overflow in Ok (Some (mkLine line false consumed), [])
    end in
  match reader with
  | [] | [] :: _ => at_end
  | available :: rest =>
      let '(chunk_len, terminated) :=
        match position available with Some position => (position, true) | None => (length available, false) end in
      let? resulting_size := ok_or (size ← usize_checked (len line + Z.of_nat chunk_len);
                                    usize_checked (size + (if terminated then 1 else 0))) Overflow in
      if resulting_size >? MAX_JOURNAL_RECORD_BYTES then Err (RecordTooLarge line_number)
      else
        let line := line ++ take chunk_len available in
        if terminated : bool then
          let? consumed := ok_or (u64_checked resulting_size) Overflow in
          Ok (Some (mkLine line true consumed), consume (drop (S chunk_len) available) rest)
        else read_line_loop rest line_number line
  end.
Definition read_bounded_line (reader : list (list byte)) (line_number : Z) : Result (option BoundedLine * list (list byte)) :=
  read_line_loop reader line_number [].

(** The local variables of the replay. *)
Record Replay := mkReplay {
  complete_bytes : Z;
  replay_digest : Hex32;
  replay_events : list BackendEvent;
  replay_semantic : Semantic;
}.

(** A replayed record, terminated or with its repaired delimiter. *)
Definition replay_record (self : Replay) (r : PersistedEventRecord) (consumed : Result Z) : Result Replay :=
  do? validate_replayed_record r (replay_digest self) (len (replay_events self)) in
  let? next := apply_record (replay_semantic self) r in
  do? ensure_event_fits_page (record_event r) in
  let? consumed := consumed in
  do? checked_append_limits (len (replay_events self)) (complete_bytes self) consumed in
  let? complete := ok_or (u64_checked (complete_bytes self + consumed)) Overflow in
  Ok (mkReplay complete (digest r) (replay_events self ++ [record_event r]) next).

(** The last line without its newline: the replay and the repaired file. *)
Definition recover_tail (contents : list byte) (self : Replay) (line : BoundedLine) (line_number : Z) : Result (Replay * list byte) :=
  match parse_record (line_bytes line) with
  | Parsed r =>
      let repaired_consumed := ok_or (u64_checked (consumed line + 1)) Overflow in
      let? self := replay_record self r repaired_consumed in
      Ok (self, contents ++ [Byte.x0a])
  | Truncated => Ok (self, take (Z.to_nat (complete_bytes self)) contents)
  | Unparsable => Err (MalformedRecord line_number)
  end.

(** The loop of [open_existing]; every line consumes a byte. *)
Fixpoint replay_lines (fuel : nat) (contents : list byte) (reader : list (list byte)) (line_number : Z) (self : Replay) :
    Result (Replay * list byte) :=
  match fuel with
  | 0%nat => Panic
  | S fuel =>
      let? ' (line, reader) := read_bounded_line reader line_number in
      match line with
      | None => if complete_bytes self =? len contents then Ok (self, contents) else Err PathChanged
      | Some line =>
          if terminated line then
            let? r := match parse_record (line_bytes line) with Parsed r => Ok r | _ => Err (MalformedRecord line_number) end in
            let? self := replay_record self r (Ok (consumed line)) in
            let? line_number := ok_or (u64_checked (line_number + 1)) Overflow in
            replay_lines fuel contents reader line_number self
          else recover_tail contents self line line_number
      end
  end.

(** [open_existing] of a file that is read in the given buffers, when its I/O
    succeeds. *)
Definition open_existing (instance : Uuid) (wcash zcash wcash_payout zcash_payout : Hex32) (id : Z)
    (buffers : list (list byte)) : Result (JournalHeader * JournalState) :=
  do? validate_identity_and_network instance None wcash zcash wcash_payout zcash_payout id in
  let contents := concat buffers in
  if len contents =? 0 then Err EmptyJournal
  else if len contents >? MAX_JOURNAL_BYTES then Err JournalTooLarge
  else
    let? ' (header_line, reader) := read_bounded_line buffers 1 in
    let? header_line := ok_or header_line EmptyJournal in
    if negb (terminated header_line) then Err UnterminatedHeader
    else
      let? header := ok_or (parse_header (line_bytes header_line)) MalformedHeader in
      do? validate_header header in
      do? validate_expected_header header instance wcash zcash wcash_payout zcash_payout id in
      let? previous_digest := digest_header header in
      let? ' (final, repaired) := replay_lines (S (length contents)) contents reader 2
        (mkReplay (consumed header_line) previous_digest [] empty_semantic) in
      Ok (header, mkState repaired (complete_bytes final) (replay_digest final) (replay_events final)
        (replay_semantic final) false).
End Operations.
