(* ===== verification/PoolExample.v ===== *)
(** * An instance of the crates around the pool journal

    Concrete data, hexadecimal and a self-delimiting text for headers and records,
    which satisfy the laws that the theorems on the journal assume, and one job
    whose Wcash winner is the Regtest block of [WinnerBlocks]. *)

From S2P Require Import Prelude Amounts Difficulty Networks Subsidies AuxCodec AuxMerkle AuxProof AuxCoinbase BlockChecks WinnerJournal GenesisAnchor WinnerBlocks PoolJournal.

Import Journal(WinnerChain, Wcash, Zcash, WinnerKey, mkKey, key_share_id, key_chain).

#[local] Instance example_types : PoolTypes := {|
  JobDescriptor := list byte; WinnerDescriptor := WinnerChain; ChainTip := unit; WorkerIdentity := unit;
  InvalidationReason := unit;
|}.

(** ** A self-delimiting text *)

(** The digits of a number, with an end mark. *)
Fixpoint digits (p : positive) : list byte :=
  match p with xH => [Byte.x2e] | xO p => Byte.x30 :: digits p | xI p => Byte.x31 :: digits p end.
Fixpoint of_digits (l : list byte) : option positive :=
  match l with
  | Byte.x2e :: _ => Some xH
  | Byte.x30 :: l => xO <$> of_digits l
  | Byte.x31 :: l => xI <$> of_digits l
  | _ => None
  end.

Lemma of_to_digits p : of_digits (digits p) = Some p.
Proof. induction p as [p IH|p IH|]; cbn; [by rewrite IH..|done]. Qed.
Lemma of_digits_prefix p n : (n < length (digits p))%nat -> of_digits (take n (digits p)) = None.
Proof.
  revert n. induction p as [p IH|p IH|]; intros [|n] Hn; cbn in *; try done; try lia; by rewrite IH by lia.
Qed.
Lemma digits_one_line p : Byte.x0a ∉ digits p.
Proof. induction p as [p IH|p IH|]; cbn; apply not_elem_of_cons; (split; [done|]); [done..|apply not_elem_of_nil]. Qed.

(** ** Data as lists of numbers *)

Definition receipt_fields (r : ShareReceipt) : list positive :=
  [encode (receipt_event_seq r); encode (receipt_job_id r); encode (receipt_share_id r); encode (attribution_id r);
   encode (receipt_parent_hash_le r); encode (A := list WinnerChain) (receipt_winners r)].
Definition receipt_of (l : list positive) : option ShareReceipt :=
  match l with
  | [n; j; s; a; p; w] =>
      n ← decode n; j ← decode j; s ← decode s; a ← decode a; p ← decode p; w ← decode (A := list WinnerChain) w;
      Some (mkReceipt n j s a p w)
  | _ => None
  end.
Lemma receipt_of_fields r : receipt_of (receipt_fields r) = Some r.
Proof. destruct r. unfold receipt_of, receipt_fields. cbn -[encode decode]. by rewrite !decode_encode. Qed.
#[local] Instance receipt_countable : Countable ShareReceipt := inj_countable receipt_fields receipt_of receipt_of_fields.

(** A lifecycle event: its kind, its numbers and its identifiers. *)
Definition lifecycle_fields (kind n c : Z) (s j : list byte) (w : WinnerChain) : list positive :=
  [encode kind; encode n; encode c; encode s; encode j; encode w].
Definition event_fields (e : BackendEvent) : list positive :=
  match e with
  | JobActivated n j => [encode n; encode (A := list byte) j]
  | GenerationClosed n j => [encode n; encode j; encode 0]
  | JobInvalidated n j _ ms => [encode n; encode j; encode ms; encode 0]
  | ShareCommitted r j _ t => [encode r; encode j; encode t; encode 0; encode 0]
  | WinnerSideChain n s j w _ => lifecycle_fields 0 n 0 s j w
  | WinnerObserved n s j w _ c => lifecycle_fields 1 n c s j w
  | WinnerOrphaned n s j w _ => lifecycle_fields 2 n 0 s j w
  | WinnerQuarantined n s j w _ => lifecycle_fields 3 n 0 s j w
  | WinnerRequeued n s j w _ => lifecycle_fields 4 n 0 s j w
  | WinnerMatured n s j w _ c => lifecycle_fields 5 n c s j w
  end.
Definition lifecycle_of (kind n c : Z) (s j : list byte) (w : WinnerChain) : BackendEvent :=
  if kind =? 0 then WinnerSideChain n s j w tt
  else if kind =? 1 then WinnerObserved n s j w tt c
  else if kind =? 2 then WinnerOrphaned n s j w tt
  else if kind =? 3 then WinnerQuarantined n s j w tt
  else if kind =? 4 then WinnerRequeued n s j w tt
  else WinnerMatured n s j w tt c.
Definition event_of (l : list positive) : option BackendEvent :=
  match l with
  | [n; j] => n ← decode n; j ← decode (A := list byte) j; Some (JobActivated n j)
  | [n; j; _] => n ← decode n; j ← decode j; Some (GenerationClosed n j)
  | [n; j; ms; _] => n ← decode n; j ← decode j; ms ← decode ms; Some (JobInvalidated n j tt ms)
  | [r; j; t; _; _] => r ← decode r; j ← decode j; t ← decode t; Some (ShareCommitted r j tt t)
  | [kind; n; c; s; j; w] =>
      kind ← decode kind; n ← decode n; c ← decode c; s ← decode s; j ← decode j; w ← decode w;
      Some (lifecycle_of kind n c s j w)
  | _ => None
  end.
Lemma event_of_fields e : event_of (event_fields e) = Some e.
Proof.
  destruct e; unfold event_of, event_fields, lifecycle_fields; cbn -[encode decode lifecycle_of]; rewrite !decode_encode;
    cbn; repeat match goal with x : ChainTip |- _ => destruct x | x : InvalidationReason |- _ => destruct x
    | x : WorkerIdentity |- _ => destruct x end; done.
Qed.
#[local] Instance event_eq_dec : EqDecision BackendEvent.
Proof.
  intros a b. destruct (decide (event_fields a = event_fields b)) as [E|N]; [left|right; by intros ->].
  pose proof (event_of_fields a) as X. rewrite E, event_of_fields in X. by injection X.
Defined.
#[local] Instance event_countable : Countable BackendEvent := inj_countable event_fields event_of event_of_fields.

Definition persisted_pair (b : PersistedWinnerBlocks) : option string * option string := (persisted_wcash b, persisted_zcash b).
Definition record_fields (r : PersistedEventRecord) : list positive :=
  [encode (record_seq r); encode (record_event r); encode (persisted_pair (winner_blocks r)); encode (previous_digest r);
   encode (digest r)].
Definition record_of (l : list positive) : option PersistedEventRecord :=
  match l with
  | [n; e; b; p; d] =>
      n ← decode n; e ← decode e; b ← decode (A := option string * option string) b; p ← decode p; d ← decode d;
      Some (mkEventRecord n e (mkPersisted b.1 b.2) p d)
  | _ => None
  end.
Lemma record_of_fields r : record_of (record_fields r) = Some r.
Proof. destruct r as [? ? []]. unfold record_of, record_fields. cbn -[encode decode]. by rewrite !decode_encode. Qed.

Definition header_fields (h : JournalHeader) : list positive :=
  [encode (format_version h); encode (backend_protocol_version h); encode (backend_instance h); encode (journal_stream h);
   encode (wcash_genesis h); encode (zcash_genesis h); encode (wcash_payout_commitment h); encode (zcash_payout_commitment h);
   encode (chain_id h)].
Definition header_of (l : list positive) : option JournalHeader :=
  match l with
  | [a; b; c; d; e; f; g; h; i] =>
      a ← decode a; b ← decode b; c ← decode c; d ← decode d; e ← decode e; f ← decode f; g ← decode g; h ← decode h;
      i ← decode i; Some (mkJournalHeader a b c d e f g h i)
  | _ => None
  end.
Lemma header_of_fields h : header_of (header_fields h) = Some h.
Proof. destruct h. unfold header_of, header_fields. cbn -[encode decode]. by rewrite !decode_encode. Qed.

Definition unsigned_fields (e : BackendEvent) (b : PersistedWinnerBlocks) (d : list byte) : list positive :=
  [encode e; encode (persisted_pair b); encode d].
Definition text (l : list positive) : list byte := digits (encode l).
Definition of_text (l : list byte) : option (list positive) := p ← of_digits l; decode p.
Lemma of_to_text l : of_text (text l) = Some l.
Proof. unfold of_text, text. rewrite of_to_digits. cbn -[decode encode]. by rewrite decode_encode. Qed.
Lemma text_inj l k : text l = text k -> l = k.
Proof. intros E. pose proof (of_to_text l) as X. rewrite E, of_to_text in X. by injection X. Qed.

(** ** The instances *)

Definition hex_text (l : list byte) : string := String.string_of_list_byte (flat_map Genesis.hex_byte l).
Definition example_pool_codec : BlockCodec := {|
  wcash_deserialize bytes := if bool_decide (bytes = [Byte.x01]) then Some example_winner else None;
  wcash_serialize _ := [Byte.x01];
  zcash_deserialize_block _ := None; zcash_serialize_block _ := [];
  zcash_solution_check _ := false;
  decode_hex encoded := ok (Genesis.parse_pairs 0 (bytes_of encoded));
  outputs_are_private _ _ _ := true;
  mainnet_enabled := false;
  network_magic_of _ := []; genesis_hash_of _ := [];
|}.

Definition example_target : list byte := to_le 32 (to_target (BlockCheck.difficulty_threshold example_block_header)).
#[local] Instance example_ops : PoolOps := {|
  job_id_of j := j; job_previous_hash_le _ _ := []; job_target_le _ _ := example_target;
  winner_chain w := w; winner_height _ := 7; winner_block_hash_le _ := AuxMerkle.example_block;
  winner_coinbase_txid_le _ := []; maturity_confirmations _ := 100;
  event_is_valid _ := true;
  receipt_is_valid_for_job r _ := bool_decide (NoDup (A := WinnerChain) (receipt_winners r));
  canonical_attribution_id _ _ := Some [];
  header_json h := text (header_fields h);
  event_json e := text (event_fields e);
  record_json r := text (record_fields r);
  unsigned_json e b d := text (unsigned_fields e b d);
  empty_page_json n := text [encode n];
  parse_header l := of_text l ≫= header_of;
  parse_record l :=
    match of_text l with
    | None => Truncated
    | Some l => match record_of l with Some r => Parsed r | None => Unparsable end
    end;
  encode_hex := hex_text;
  BACKEND_PROTOCOL_VERSION := 1;
  MAX_BACKEND_PAYLOAD_BYTES := 65536;
  MAX_EVENT_PAGE_ITEMS := 256;
|}.

#[local] Instance example_json : JsonLaws (O := example_ops).
Proof.
  split; cbn -[text of_text].
  - intros h. rewrite of_to_text. cbn. apply header_of_fields.
  - intros h. apply digits_one_line.
  - intros r. by rewrite of_to_text, record_of_fields.
  - intros r. apply digits_one_line.
  - intros r. unfold text. by destruct (encode (record_fields r)).
  - intros r n Hn. unfold text, of_text in *. by rewrite of_digits_prefix.
Qed.

(** ** A journal *)

Definition example_job : list byte := [Byte.x07].
Definition example_share : list byte := [Byte.x01].
Definition example_id (n : nat) : list byte := replicate n Byte.x05.
Definition example_pool_header : JournalHeader :=
  mkJournalHeader JOURNAL_FORMAT_VERSION 1 (example_id 2) (example_id 3) (example_id 4) (example_id 4) (example_id 4) (example_id 4) 1.
Abbreviation example_created :=
  (create_new_with_stream (H1 := example_hashes) (O := example_ops) (example_id 2) (example_id 3) (example_id 4) (example_id 4)
    (example_id 4) (example_id 4) 1).
Definition example_state0 : JournalState :=
  match example_created with Ok (_, state) => state | _ => mkState [] 0 [] [] empty_semantic false end.
Lemma example_created_Ok : example_created = Ok (example_pool_header, example_state0).
Proof. vm_compute. reflexivity. Qed.

Abbreviation example_verifier := (Equihash200_9 (fun _ _ _ _ _ => true)).
