(* ===== verification/PoolReplay.v ===== *)
(** * Restarts of the pool journal

    Every state that the journal reaches, through appends, failed appends and
    restarts, is what a restart reads back from its file; a crash in the middle of
    an append leaves the state before it or after it. *)

From S2P Require Import Prelude Amounts Difficulty Networks Subsidies AuxCodec AuxMerkle AuxProof AuxCoinbase BlockChecks WinnerJournal WinnerBlocks PoolJournal PoolExample.

Import Journal(WinnerChain, Wcash, Zcash, WinnerKey, mkKey, key_share_id, key_chain).

(** ** Lines *)

Section Lines.
Abbreviation newline := Byte.x0a.

Lemma newline_position l rest : newline ∉ l -> position (l ++ newline :: rest) = Some (length l).
Proof.
  induction l as [|b l IH]; intros Hn; [done|]. apply not_elem_of_cons in Hn as [Hb Hl]. cbn.
  destruct (Byte.eqb b newline) eqn:E; [apply Byte.byte_dec_bl in E; congruence|]. by rewrite IH.
Qed.
Lemma no_newline_position l : newline ∉ l -> position l = None.
Proof.
  induction l as [|b l IH]; intros Hn; [done|]. apply not_elem_of_cons in Hn as [Hb Hl]. cbn.
  destruct (Byte.eqb b newline) eqn:E; [apply Byte.byte_dec_bl in E; congruence|]. by rewrite IH.
Qed.

(** A reader whose buffers are not empty, and what it will deliver. *)
Definition delivers (reader : list (list byte)) (contents : list byte) : Prop :=
  Forall (fun b => b <> []) reader /\ concat reader = contents.

Lemma delivers_consume remaining reader contents :
  delivers reader contents -> delivers (consume remaining reader) (remaining ++ contents).
Proof. intros [N <-]. destruct remaining; [done|]. split; [by constructor|done]. Qed.

Lemma sizes_checked a b c : 0 <= a -> 0 <= b -> 0 <= c <= 1 -> a + b + c <= MAX_JOURNAL_RECORD_BYTES ->
  (size ← usize_checked (a + b); usize_checked (size + c)) = Some (a + b + c) /\ u64_checked (a + b + c) = Some (a + b + c).
Proof.
  unfold MAX_JOURNAL_RECORD_BYTES. intros. rewrite !checked_ok by (unfold USIZE_MAX, U64_MAX; lia). cbn.
  rewrite checked_ok by (unfold USIZE_MAX, U64_MAX; lia). done.
Qed.

(** One buffer: it is inside the line, or it holds the newline. *)
Lemma split_buffer available others l rest : available ++ others = l ++ newline :: rest ->
  (exists k, l = available ++ k /\ others = k ++ newline :: rest) \/
  (exists k, available = l ++ newline :: k /\ rest = k ++ others).
Proof.
  intros [(k & -> & E)|(k & -> & ->)]%app_eq_inv; [|by left; exists k].
  destruct k as [|x k]; [left; exists []; by rewrite !app_nil_r|].
  right. cbn in E. injection E as <- ->. by exists k.
Qed.

Lemma read_inside b bs reader n line : newline ∉ b :: bs -> len line + len (b :: bs) <= MAX_JOURNAL_RECORD_BYTES ->
  read_line_loop ((b :: bs) :: reader) n line = read_line_loop reader n (line ++ b :: bs).
Proof.
  intros Hn Hs. cbn [read_line_loop]. rewrite (no_newline_position _ Hn).
  destruct (sizes_checked (len line) (len (b :: bs)) 0) as [-> _]; [lia..|]. cbn [ok_or obind].
  rewrite Z.gtb_ltb, (proj2 (Z.ltb_ge _ _)), firstn_all by lia. done.
Qed.

(** A complete line is read whole, wherever the buffers are cut. *)
Lemma read_line n reader : forall line l rest,
  delivers reader (l ++ newline :: rest) -> newline ∉ l -> len line + len l + 1 <= MAX_JOURNAL_RECORD_BYTES ->
  exists reader', read_line_loop reader n line = Ok (Some (mkLine (line ++ l) true (len line + len l + 1)), reader') /\
    delivers reader' rest.
Proof.
  induction reader as [|available reader IH]; intros line l rest [N C] Hl Hs; cbn in C; [by destruct l|].
  apply Forall_cons in N as [Na N]. apply split_buffer in C as [(k & -> & E)|(k & -> & ->)].
  - destruct available as [|b bs]; [done|]. apply not_elem_of_app in Hl as [Hb Hk]. rewrite length_app in Hs.
    rewrite read_inside by (done || lia).
    destruct (IH (line ++ b :: bs) k rest) as (r' & -> & D); [done|done|rewrite length_app; lia|].
    exists r'. split; [|done]. rewrite <- app_assoc, !length_app. do 4 f_equal. lia.
  - destruct (l ++ newline :: k) as [|b bs] eqn:E; [by destruct l|]. cbn [read_line_loop]. rewrite <- E.
    rewrite (newline_position _ _ Hl). destruct (sizes_checked (len line) (len l) 1) as [-> U]; [lia..|]. cbn [ok_or obind].
    rewrite Z.gtb_ltb, (proj2 (Z.ltb_ge _ _)), U by lia. exists (consume k reader). split; [|by apply delivers_consume].
    assert (D : drop (S (length l)) (l ++ newline :: k) = k).
    { replace (S (length l)) with (length (l ++ [newline])) by (rewrite length_app; cbn; lia).
      by rewrite (app_assoc l [newline] k : l ++ newline :: k = _), drop_app_length. }
    by rewrite D, take_app_length.
Qed.

(** What is left without a newline is the last line. *)
Lemma read_end n reader : forall line rest,
  delivers reader rest -> newline ∉ rest -> len line + len rest <= MAX_JOURNAL_RECORD_BYTES ->
  read_line_loop reader n line =
    Ok (match line ++ rest with [] => None | l => Some (mkLine l false (len line + len rest)) end, []).
Proof.
  induction reader as [|[|b bs] reader IH]; intros line rest [N <-] Hr Hs.
  - cbn in *. rewrite app_nil_r. destruct line as [|x line]; [done|].
    rewrite (checked_ok 0 U64_MAX) by (unfold MAX_JOURNAL_RECORD_BYTES in *; unfold U64_MAX; lia). done.
  - by apply Forall_cons in N as [[] _].
  - apply Forall_cons in N as [_ N]. cbn [concat] in *. apply not_elem_of_app in Hr as [Hb Hr]. rewrite length_app in *.
    rewrite read_inside by (done || lia). rewrite (IH _ (concat reader)) by (done || (rewrite length_app; lia)).
    rewrite <- app_assoc.
    by replace (len (line ++ b :: bs) + len (concat reader)) with (len line + Z.of_nat (length (b :: bs) + length (concat reader)))
      by (rewrite length_app; lia).
Qed.
End Lines.

(** ** Replays *)

Section Replays.
Context `{ConsensusBuild, Foundation.FoundationEnv, Hashes} {B : BlockCodec} {T : PoolTypes} {O : PoolOps} {L : JsonLaws}.
Context (legacy modern : TransactionCodec) {W : EquihashVerifier}.
Abbreviation newline := Byte.x0a.
Abbreviation replay_record := (replay_record legacy modern).
Abbreviation replay_lines := (replay_lines legacy modern).
Abbreviation open_existing := (open_existing legacy modern).

Definition record_line (r : PersistedEventRecord) : list byte := record_json r ++ [newline].
Definition records_bytes (rs : list PersistedEventRecord) : list byte := concat (map record_line rs).

(** The replay of a list of records. *)
Fixpoint replay_all (self : Replay) (rs : list PersistedEventRecord) : Result Replay :=
  match rs with
  | [] => Ok self
  | r :: rs => let? self := replay_record self r (Ok (len (record_line r))) in replay_all self rs
  end.

Lemma replay_all_app self rs rs' : replay_all self (rs ++ rs') = (let? self := replay_all self rs in replay_all self rs').
Proof. revert self. induction rs as [|r rs IH]; intros self; [done|]. cbn. destruct (replay_record _ _ _); cbn; [apply IH|done..]. Qed.

Lemma append_limits_Ok count current extra n : 0 <= current + extra ->
  checked_append_limits count current extra = Ok n <->
  count < MAX_JOURNAL_EVENTS /\ n = current + extra /\ n <= MAX_JOURNAL_BYTES.
Proof.
  intros Hp. unfold checked_append_limits. destruct (Z.geb_spec count MAX_JOURNAL_EVENTS); [split; [done|lia]|]. split.
  - intros (m & [-> _]%ok_or_Ok%checked_Some & X)%obind_Ok. destruct (Z.gtb_spec (current + extra) MAX_JOURNAL_BYTES); [done|].
    injection X as <-. lia.
  - intros (Hc & -> & Hn). rewrite checked_ok by (unfold MAX_JOURNAL_BYTES in Hn; unfold U64_MAX; lia). cbn.
    by rewrite Z.gtb_ltb, (proj2 (Z.ltb_ge _ _)).
Qed.

Lemma validate_replayed_Ok r previous count u : 0 <= count < U64_MAX ->
  validate_replayed_record r previous count = Ok u <->
  record_seq r = count + 1 /\ event_seq (record_event r) = count + 1 /\ event_is_valid (record_event r) = true /\
  previous_digest r = previous /\ digest_event (record_event r) (winner_blocks r) previous = Ok (digest r).
Proof.
  intros Hc. destruct u. unfold validate_replayed_record. rewrite checked_ok by lia. cbn [ok_or obind].
  destruct (Z.eqb_spec (record_seq r) (count + 1)) as [E|]; [|split; [done|tauto]]. rewrite E. cbn [negb].
  destruct (Z.eqb_spec (event_seq (record_event r)) (count + 1)) as [E2|]; [|split; [done|tauto]]. cbn [negb]. split.
  - intros ([] & V%require_Ok & ([] & P%require_Ok%bool_decide_eq_true & (d & D & Q%require_Ok%bool_decide_eq_true)%obind_Ok)%obind_Ok)%obind_Ok.
    rewrite P in D. by rewrite Q.
  - intros (_ & _ & -> & P & D). rewrite P, D. cbn. by rewrite !bool_decide_true.
Qed.

(** What a replayed record has passed. *)
Lemma replay_record_Ok self r n self' : 0 <= complete_bytes self + n -> len (replay_events self) < U64_MAX ->
  replay_record self r (Ok n) = Ok self' <->
  exists next, validate_replayed_record r (replay_digest self) (len (replay_events self)) = Ok tt /\
    apply_record legacy modern (replay_semantic self) r = Ok next /\ ensure_event_fits_page (record_event r) = Ok tt /\
    len (replay_events self) < MAX_JOURNAL_EVENTS /\ complete_bytes self + n <= MAX_JOURNAL_BYTES /\
    self' = mkReplay (complete_bytes self + n) (digest r) (replay_events self ++ [record_event r]) next.
Proof.
  intros Hn Hl. unfold PoolJournal.replay_record. split.
  - intros ([] & V & (next & A & ([] & F & (m & [= <-] & (k & (Hk & -> & Hb)%append_limits_Ok & (c & [-> _]%ok_or_Ok%checked_Some &
      [= <-])%obind_Ok)%obind_Ok)%obind_Ok)%obind_Ok)%obind_Ok)%obind_Ok; [|done]. by exists next.
  - intros (next & -> & A & F & Hk & Hb & ->). cbn [obind]. rewrite A. cbn [obind]. rewrite F. cbn [obind].
    rewrite (proj2 (append_limits_Ok _ _ _ (complete_bytes self + n) Hn)) by done. cbn [obind].
    by rewrite checked_ok by (unfold MAX_JOURNAL_BYTES in Hb; unfold U64_MAX; lia).
Qed.

(** The counters of a replay are in range. *)
Definition sized (self : Replay) : Prop := 0 <= complete_bytes self /\ len (replay_events self) <= MAX_JOURNAL_EVENTS.

Lemma replay_record_step self r n self' : sized self -> 0 <= n -> replay_record self r (Ok n) = Ok self' ->
  exists next, validate_replayed_record r (replay_digest self) (len (replay_events self)) = Ok tt /\
    apply_record legacy modern (replay_semantic self) r = Ok next /\ ensure_event_fits_page (record_event r) = Ok tt /\
    len (replay_events self) < MAX_JOURNAL_EVENTS /\ complete_bytes self + n <= MAX_JOURNAL_BYTES /\ sized self' /\
    self' = mkReplay (complete_bytes self + n) (digest r) (replay_events self ++ [record_event r]) next.
Proof.
  intros [Hc Hl] Hn R. assert (Hu : len (replay_events self) < U64_MAX) by (unfold MAX_JOURNAL_EVENTS in Hl; unfold U64_MAX; lia).
  apply replay_record_Ok in R as (next & V & A & F & Hk & Hb & ->); [|lia|done].
  exists next. split_and!; try done. split; cbn; [|rewrite length_app; cbn]; lia.
Qed.

Lemma replay_all_step self rs self' : sized self -> replay_all self rs = Ok self' ->
  sized self' /\ complete_bytes self' = complete_bytes self + len (records_bytes rs) /\
  replay_events self' = replay_events self ++ map record_event rs /\
  (rs <> [] -> complete_bytes self' <= MAX_JOURNAL_BYTES).
Proof.
  revert self. induction rs as [|r rs IH]; intros self S; cbn.
  { intros [= <-]. rewrite app_nil_r. split_and!; [done..|lia|done|done]. }
  intros (s1 & (next & _ & _ & _ & _ & Hb & S1 & E)%replay_record_step & R)%obind_Ok; [|done|lia].
  destruct (IH s1 S1 R) as (S' & C & Ev & Hm). subst s1. cbn in *. rewrite C, Ev, <- app_assoc. unfold records_bytes in *. cbn.
  rewrite length_app. split_and!; [done|lia|done|]. intros _. destruct rs; [cbn in *; lia|]. by rewrite <- C; apply Hm.
Qed.

Lemma record_line_length r : len (record_line r) = len (record_json r) + 1.
Proof. unfold record_line. rewrite length_app. cbn. lia. Qed.

(** The loop replays the complete records at the start of what is left. *)
Lemma replay_lines_records contents rs : forall fuel reader ln self self' rest,
  delivers reader (records_bytes rs ++ rest) -> Forall (fun r => len (record_line r) <= MAX_JOURNAL_RECORD_BYTES) rs ->
  sized self -> ln = len (replay_events self) + 2 -> replay_all self rs = Ok self' -> (length rs <= fuel)%nat ->
  exists reader', delivers reader' rest /\
    replay_lines fuel contents reader ln self = replay_lines (fuel - length rs) contents reader' (ln + len rs) self'.
Proof.
  induction rs as [|r rs IH]; intros fuel reader ln self self' rest D F S Hln R Hf.
  { injection R as <-. exists reader. split; [done|]. by rewrite Nat.sub_0_r, Z.add_0_r. }
  destruct fuel as [|fuel]; [cbn in Hf; lia|]. apply Forall_cons in F as [Fr F]. cbn [replay_all] in R.
  apply obind_Ok in R as (s1 & R1 & R). pose proof (record_line_length r) as Lr.
  destruct (read_line ln reader [] (record_json r) (records_bytes rs ++ rest)) as (reader1 & Rd & D1).
  { replace (record_json r ++ newline :: records_bytes rs ++ rest) with (records_bytes (r :: rs) ++ rest); [done|].
    unfold records_bytes, record_line. cbn. by rewrite <- !app_assoc. }
  { apply record_one_line. }
  { cbn. lia. }
  destruct (replay_record_step _ _ _ _ S (Nat2Z.is_nonneg _) R1) as (next & _ & _ & _ & Hk & _ & S1 & E1).
  destruct (IH fuel reader1 (ln + 1) s1 self' rest) as (reader' & D' & R'); [done|done|done| |done|cbn in Hf; lia|].
  { subst s1. cbn. rewrite length_app. cbn. lia. }
  exists reader'. split; [done|]. cbn [PoolJournal.replay_lines]. unfold read_bounded_line. rewrite Rd. cbn [obind terminated line_bytes app].
  rewrite record_roundtrip. cbn [obind consumed length]. replace (0 + len (record_json r) + 1) with (len (record_line r)) by lia.
  rewrite R1. cbn [obind]. rewrite checked_ok by (unfold MAX_JOURNAL_EVENTS in Hk; unfold U64_MAX; lia). cbn [ok_or obind].
  rewrite R'. cbn [length]. f_equal. lia.
Qed.

(** ** Logged states *)

Definition view (state : JournalState) : Replay :=
  mkReplay (bytes_written state) (last_digest state) (events state) (semantic state).
Definition restored (self : Replay) (contents : list byte) : JournalState :=
  mkState contents (complete_bytes self) (replay_digest self) (replay_events self) (replay_semantic self) false.
Definition header_line (h : JournalHeader) : list byte := header_json h ++ [newline].

(** Opening with the identity that the header records. *)
Definition reopen (h : JournalHeader) (buffers : list (list byte)) : Result (JournalHeader * JournalState) :=
  open_existing (backend_instance h) (wcash_genesis h) (zcash_genesis h) (wcash_payout_commitment h)
    (zcash_payout_commitment h) (chain_id h) buffers.

(** The file of a state holds a valid header and records that replay to it. *)
Record logged (h : JournalHeader) (rs : list PersistedEventRecord) (state : JournalState) : Prop := {
  logged_header : validate_header h = Ok tt;
  logged_size : len (header_line h) <= MAX_JOURNAL_RECORD_BYTES;
  logged_lines : Forall (fun r => len (record_line r) <= MAX_JOURNAL_RECORD_BYTES) rs;
  logged_replay : exists d, digest_header h = Ok d /\
    replay_all (mkReplay (len (header_line h)) d [] empty_semantic) rs = Ok (view state);
  logged_file : file state = header_line h ++ records_bytes rs;
  logged_usable : poisoned state = false;
}.

Lemma logged_restored h rs state : logged h rs state -> restored (view state) (file state) = state.
Proof. intros Lg. destruct state. cbn. unfold restored. cbn. f_equal. symmetry. apply (logged_usable _ _ _ Lg). Qed.

Lemma sized_empty n d sem : 0 <= n -> sized (mkReplay n d [] sem).
Proof. intros Hn. split; cbn; [done|]. unfold MAX_JOURNAL_EVENTS. lia. Qed.

Lemma logged_sizes h rs state : logged h rs state ->
  sized (view state) /\ bytes_written state = len (file state) /\ len (file state) <= MAX_JOURNAL_BYTES /\
  events state = map record_event rs /\ (length rs <= length (file state))%nat.
Proof.
  intros [_ Hs _ (d & _ & R) F _]. destruct (replay_all_step _ _ _ (sized_empty _ d empty_semantic (Nat2Z.is_nonneg _)) R) as (S & C & Ev & M).
  cbn in C, Ev. assert (E : bytes_written state = len (file state)) by (rewrite C, F, length_app; lia).
  split_and!; [done|done| |done|].
  - rewrite <- E. destruct rs as [|r rs]; [|by apply M]. rewrite C. unfold MAX_JOURNAL_RECORD_BYTES in Hs. unfold MAX_JOURNAL_BYTES. cbn. lia.
  - rewrite F, length_app. enough (length rs <= length (records_bytes rs))%nat by lia. clear.
    unfold records_bytes. induction rs as [|r rs IH]; [done|]. cbn. pose proof (record_line_length r). rewrite length_app. lia.
Qed.

Lemma validate_identity_weaken i s a b c d n : validate_identity_and_network i (Some s) a b c d n = Ok tt ->
  validate_identity_and_network i None a b c d n = Ok tt.
Proof.
  unfold validate_identity_and_network. intros ([] & I & ([] & _ & X)%obind_Ok)%obind_Ok. by rewrite I.
Qed.

Lemma expected_header_self h : validate_expected_header h (backend_instance h) (wcash_genesis h) (zcash_genesis h)
  (wcash_payout_commitment h) (zcash_payout_commitment h) (chain_id h) = Ok tt.
Proof. unfold validate_expected_header. rewrite !bool_decide_true by done. by rewrite Z.eqb_refl. Qed.

(** Reopening a logged file with more bytes at its end reaches the loop with the
    logged state and these bytes. *)
Lemma reopen_logged h rs state tail buffers : logged h rs state ->
  delivers buffers (file state ++ tail) -> len (file state ++ tail) <= MAX_JOURNAL_BYTES ->
  exists fuel reader, (length tail <= fuel)%nat /\ delivers reader tail /\
    reopen h buffers = (let? ' (final, repaired) := replay_lines (S fuel) (file state ++ tail) reader (len rs + 2) (view state) in
                        Ok (h, restored final repaired)).
Proof.
  intros Lg D Hm. pose proof (logged_sizes _ _ _ Lg) as (_ & _ & _ & _ & Hrs).
  destruct Lg as [Hv Hs Hl (d & Hd & R) F U]. unfold header_line in Hs, F. rewrite length_app in Hs.
  assert (C : file state ++ tail = header_json h ++ newline :: records_bytes rs ++ tail) by (rewrite F, <- !app_assoc; done).
  destruct (read_line 1 buffers [] (header_json h) (records_bytes rs ++ tail)) as (r1 & Rd & D1).
  { by rewrite <- C. } { apply header_one_line. } { cbn in *. lia. }
  destruct (replay_lines_records (file state ++ tail) rs (S (length (file state ++ tail))) r1 2 _ _ tail D1 Hl
    (sized_empty _ d empty_semantic (Nat2Z.is_nonneg _)) eq_refl R) as (reader & D2 & R2). { rewrite length_app. lia. }
  exists (length (file state ++ tail) - length rs)%nat, reader. split_and!; [rewrite length_app; lia|done|].
  unfold reopen, PoolJournal.open_existing. pose proof Hv as Hi. unfold validate_header in Hi.
  apply obind_Ok in Hi as ([] & _ & ([] & _ & Hi)%obind_Ok). rewrite (validate_identity_weaken _ _ _ _ _ _ _ Hi). cbn [obind].
  destruct D as [_ ->]. rewrite (proj2 (Z.eqb_neq _ _)) by (rewrite C, length_app; cbn; lia).
  rewrite Z.gtb_ltb, (proj2 (Z.ltb_ge _ _)) by done. unfold read_bounded_line. rewrite Rd. cbn [obind ok_or terminated negb line_bytes app].
  rewrite header_roundtrip. cbn [ok_or obind]. rewrite Hv. cbn [obind]. rewrite expected_header_self. cbn [obind]. rewrite Hd.
  cbn [obind consumed]. replace (len [] + len (header_json h) + 1) with (len (header_line h)) by (unfold header_line; rewrite length_app; cbn; lia).
  rewrite R2. rewrite Nat.sub_succ_l by (rewrite length_app; lia). by rewrite Z.add_comm.
Qed.

(** ** Appends are logged *)

(** The events are numbered from one. *)
Definition contiguous (l : list BackendEvent) : Prop := forall i event, l !! i = Some event -> event_seq event = Z.of_nat i + 1.

Lemma contiguous_snoc l event : contiguous l -> event_seq event = len l + 1 -> contiguous (l ++ [event]).
Proof.
  intros Hl He i e. rewrite lookup_app_Some. intros [X|[Hi X]]; [by apply Hl|].
  apply list_lookup_singleton_Some in X as [Hz <-]. lia.
Qed.
Lemma contiguous_last l : contiguous l -> last_seq l = len l.
Proof.
  intros Hl. unfold last_seq. destruct l as [|e l _] using rev_ind; [done|]. rewrite last_snoc.
  rewrite (Hl (length l) e) by (by rewrite lookup_app_r, Nat.sub_diag). rewrite length_app. cbn. lia.
Qed.

Lemma replay_all_contiguous n d rs self : 0 <= n -> replay_all (mkReplay n d [] empty_semantic) rs = Ok self ->
  contiguous (replay_events self).
Proof.
  intros Hn. revert self. induction rs as [|r rs IH] using rev_ind; intros self; [by intros [= <-] ? ?|].
  rewrite replay_all_app. intros (s1 & R1 & (s2 & R2 & [= <-])%obind_Ok)%obind_Ok.
  destruct (replay_all_step _ _ _ (sized_empty _ _ _ Hn) R1) as [S1 _].
  destruct (replay_record_step _ _ _ _ S1 (Nat2Z.is_nonneg _) R2) as (next & V & _ & _ & Hk & _ & _ & ->).
  apply validate_replayed_Ok in V as (_ & Hq & _); [|unfold MAX_JOURNAL_EVENTS in Hk; unfold U64_MAX; lia].
  apply contiguous_snoc; [by apply IH|done].
Qed.

Lemma logged_contiguous h rs state : logged h rs state -> contiguous (events state).
Proof. intros [_ _ _ (d & _ & R) _ _]. apply replay_all_contiguous in R; [done|lia]. Qed.

(** The state after an append that passed its checks. *)
Definition appended (io : AppendIo) (state : JournalState) (r : PersistedEventRecord) (n : Z) (next : Semantic) : JournalState :=
  match io with
  | Failed _ written => mkState (file state ++ take written (record_line r)) (bytes_written state) (last_digest state) (events state) next true
  | Durable => mkState (file state ++ record_line r) n (digest r) (events state ++ [record_event r]) next false
  end.

Lemma prepare_Ok state event blocks r n next : contiguous (events state) -> 0 <= bytes_written state ->
  len (events state) <= MAX_JOURNAL_EVENTS ->
  prepare_append legacy modern state event blocks = Ok (r, n, next) ->
  record_event r = event /\ len (record_line r) <= MAX_JOURNAL_RECORD_BYTES /\
  replay_record (view state) r (Ok (len (record_line r))) = Ok (view (appended Durable state r n next)).
Proof.
  intros Hc Hb Hl. unfold prepare_append, next_event_seq. rewrite (contiguous_last _ Hc).
  rewrite checked_ok by (unfold MAX_JOURNAL_EVENTS in Hl; unfold U64_MAX; lia). cbn [ok_or obind].
  intros ([] & V%require_Ok & ([] & F & X)%obind_Ok)%obind_Ok.
  destruct (Z.eqb_spec (event_seq event) (len (events state) + 1)) as [E|]; [|done]. cbn [negb] in X.
  apply obind_Ok in X as ([] & _ & (d & D & ([] & Sz & (rb & Rb & (m & A & (sem & Ap & X)%obind_Ok)%obind_Ok)%obind_Ok)%obind_Ok)%obind_Ok).
  injection X as <- <- <-. apply ok_or_Ok, checked_Some in Rb as [-> _]. apply append_limits_Ok in A as (Hk & -> & Hm); [|lia].
  unfold check_record_size in Sz. cbn [record_event]. split_and!; [done| |].
  { unfold record_line. destruct (Z.gtb_spec (len (record_json (mkEventRecord (event_seq event) event blocks (last_digest state) d) ++ [newline]))
      MAX_JOURNAL_RECORD_BYTES); [done|lia]. }
  apply replay_record_Ok; cbn; [lia|unfold MAX_JOURNAL_EVENTS in Hl; unfold U64_MAX; lia|].
  exists sem. split_and!; try done. apply validate_replayed_Ok; [unfold MAX_JOURNAL_EVENTS in Hl; unfold U64_MAX; lia|]. done.
Qed.

Lemma logged_append h rs state event blocks r n next : logged h rs state ->
  prepare_append legacy modern state event blocks = Ok (r, n, next) -> logged h (rs ++ [r]) (appended Durable state r n next).
Proof.
  intros Lg P. pose proof (logged_sizes _ _ _ Lg) as ([Sb Sl] & _).
  apply prepare_Ok in P as (_ & Sz & R); [|by eapply logged_contiguous|done|done].
  destruct Lg as [Hv Hs Hl (d & Hd & R0) F U]. split; try done.
  - apply Forall_app. split; [done|]. by constructor.
  - exists d. split; [done|]. rewrite replay_all_app, R0. cbn [obind replay_all]. by rewrite R.
  - cbn. rewrite F. unfold records_bytes. rewrite map_app, concat_app. cbn. by rewrite app_nil_r, app_assoc.
Qed.

Lemma create_logged i s a b c d n h state : create_new_with_stream i s a b c d n = Ok (h, state) -> logged h [] state.
Proof.
  unfold create_new_with_stream. intros ([] & V & (dg & D & ([] & Sz & (w & [-> _]%ok_or_Ok%checked_Some & [= <- <-])%obind_Ok)%obind_Ok)%obind_Ok)%obind_Ok.
  split; try done.
  - unfold validate_header. cbn. rewrite Z.eqb_refl. cbn. done.
  - unfold check_record_size in Sz. unfold header_line. by destruct (Z.gtb_spec (len (header_json (mkJournalHeader JOURNAL_FORMAT_VERSION
      BACKEND_PROTOCOL_VERSION i s a b c d n) ++ [newline])) MAX_JOURNAL_RECORD_BYTES).
  - by exists dg.
  - cbn. by rewrite app_nil_r.
Qed.

(** ** Recovered tails *)

Lemma reopen_clean h rs state buffers : logged h rs state -> delivers buffers (file state) -> reopen h buffers = Ok (h, state).
Proof.
  intros Lg D. pose proof (logged_sizes _ _ _ Lg) as (_ & Hb & Hm & _).
  destruct (reopen_logged h rs state [] buffers Lg) as (fuel & reader & _ & Dr & ->); [by rewrite app_nil_r..|].
  cbn [PoolJournal.replay_lines]. unfold read_bounded_line. rewrite (read_end _ reader [] [] Dr) by (set_solver || by_eval). cbn [obind app].
  rewrite app_nil_r. cbn [complete_bytes view]. rewrite Hb, Z.eqb_refl. cbn [obind]. by rewrite (logged_restored _ _ _ Lg).
Qed.

(** A tail that is not empty and has no newline is the last line. *)
Lemma reopen_tail h rs state tail buffers : logged h rs state -> tail <> [] -> newline ∉ tail ->
  len tail <= MAX_JOURNAL_RECORD_BYTES -> delivers buffers (file state ++ tail) -> len (file state ++ tail) <= MAX_JOURNAL_BYTES ->
  reopen h buffers =
    (let? ' (final, repaired) := recover_tail legacy modern (file state ++ tail) (view state) (mkLine tail false (len tail)) (len rs + 2) in
     Ok (h, restored final repaired)).
Proof.
  intros Lg Ht Hn Hs D Hm. destruct (reopen_logged h rs state tail buffers Lg D Hm) as (fuel & reader & _ & Dr & ->).
  cbn [PoolJournal.replay_lines]. unfold read_bounded_line. rewrite (read_end _ reader [] tail Dr Hn) by (cbn; lia).
  cbn [obind app]. by destruct tail.
Qed.

(** A file that ends in any part of a record that passed its checks. *)
Lemma reopen_torn h rs state event blocks r n next written buffers : logged h rs state ->
  prepare_append legacy modern state event blocks = Ok (r, n, next) -> delivers buffers (file state ++ take written (record_line r)) ->
  reopen h buffers = Ok (h, if decide (length (record_json r) <= written)%nat then appended Durable state r n next else state).
Proof.
  intros Lg P D. pose proof (logged_append _ _ _ _ _ _ _ _ Lg P) as Lg'. pose proof (logged_sizes _ _ _ Lg) as ([Sb Sl] & Hb & _).
  pose proof (logged_sizes _ _ _ Lg') as (_ & Hb' & Hm & _). cbn [file appended bytes_written] in Hb', Hm.
  destruct (prepare_Ok _ _ _ _ _ _ (logged_contiguous _ _ _ Lg) Sb Sl P) as (_ & Sz & R). clear P.
  assert (Lr : length (record_line r) = S (length (record_json r))) by (unfold record_line; rewrite length_app; cbn; lia).
  rewrite length_app in Hm. destruct (decide (S (length (record_json r)) <= written)%nat) as [Hw|Hw].
  { rewrite decide_True by lia. rewrite take_ge in D by lia. by apply (reopen_clean h (rs ++ [r])). }
  assert (E : take written (record_line r) = take written (record_json r)).
  { unfold record_line. rewrite take_app. replace (written - length (record_json r))%nat with 0%nat by lia. by rewrite app_nil_r. }
  rewrite E in D. destruct written as [|w].
  { rewrite decide_False by (pose proof (record_nonempty r); destruct (record_json r); [done|cbn; lia]).
    apply (reopen_clean h rs); [done|]. by rewrite app_nil_r in D. }
  rewrite (reopen_tail _ _ _ (take (S w) (record_json r)) _ Lg); [| | | |exact D|].
  2: { pose proof (record_nonempty r). by destruct (record_json r). }
  2: { intros X%elem_of_take_1. by apply (record_one_line r). }
  2: { rewrite length_take. lia. }
  2: { rewrite length_app, length_take. lia. }
  unfold recover_tail. cbn [line_bytes]. destruct (decide (length (record_json r) <= S w)%nat) as [Hj|Hj].
  - rewrite take_ge, record_roundtrip by lia. cbn [consumed].
    rewrite checked_ok by (unfold MAX_JOURNAL_RECORD_BYTES in Sz; unfold U64_MAX; lia). cbn [ok_or].
    rewrite <- record_line_length, R. cbn [obind]. unfold restored, view, appended, record_line. cbn. by rewrite <- app_assoc.
  - rewrite record_prefix by lia. cbn [obind complete_bytes view]. rewrite Hb, Nat2Z.id, take_app_length.
    by rewrite (logged_restored _ _ _ Lg).
Qed.

(** ** Runs of the journal *)

Inductive Operation :=
| OpEvent (event : BackendEvent)
| OpShare (job_id share_id parent_hash_le : list byte) (new : list WinnerDescriptor) (id : WorkerIdentity) (target : list byte)
    (retained : JournalWinnerBlocks)
| OpTransition (share_id : list byte) (chain : WinnerChain) (expected_revision : Z) (transition : Transition).

Definition perform (io : AppendIo) (state : JournalState) (op : Operation) : JournalState :=
  match op with
  | OpEvent event => (append_event legacy modern io state event).1
  | OpShare j s p new id t retained => (append_share_committed legacy modern io state j s p new id t retained).1
  | OpTransition s c rev t => (compare_and_transition_winner legacy modern io state s c rev t).1
  end.

Lemma append_locked_shape state event blocks :
  (forall io, (append_locked legacy modern io state event blocks).1 = state) \/
  exists r n next, prepare_append legacy modern state event blocks = Ok (r, n, next) /\
    forall io, (append_locked legacy modern io state event blocks).1 = appended io state r n next.
Proof.
  unfold append_locked. destruct (prepare_append legacy modern state event blocks) as [[[r n] next]| |]; [|by left..].
  right. exists r, n, next. split; [done|]. by intros [].
Qed.

(** An operation is rejected, or it appends one checked record. *)
Definition shape (state : JournalState) (op : Operation) : Prop :=
  (forall io, perform io state op = state) \/
  exists event blocks r n next, poisoned state = false /\ prepare_append legacy modern state event blocks = Ok (r, n, next) /\
    forall io, perform io state op = appended io state r n next.

Lemma shape_append state op event blocks : poisoned state = false ->
  (forall io, perform io state op = (append_locked legacy modern io state event blocks).1) -> shape state op.
Proof.
  intros U Hp. destruct (append_locked_shape state event blocks) as [X|(r & n & next & P & X)].
  - left. intros io. by rewrite Hp.
  - right. exists event, blocks, r, n, next. split_and!; [done..|]. intros io. by rewrite Hp.
Qed.

(** Unfold an operation, with what is known of its early returns. *)
Ltac run_op := cbn; unfold append_share_committed, compare_and_transition_winner, ensure_usable.

Lemma perform_poisoned io state op : poisoned state = true -> perform io state op = state.
Proof. intros U. destruct op as [[]| |]; run_op; rewrite ?U; try done. by destruct (canonical_attribution_id id target). Qed.

Lemma event_shape state event : poisoned state = false -> shape state (OpEvent event).
Proof.
  intros U. destruct event; try (by left).
  all: destruct (next_event_seq state) as [seq| |] eqn:N; [|left; intros io; run_op; by rewrite U, N..].
  all: eapply shape_append; [done|]; intros io; run_op; rewrite U, N; cbn; done.
Qed.

Lemma share_shape state j s p new id t retained : poisoned state = false -> shape state (OpShare j s p new id t retained).
Proof.
  intros U. destruct (canonical_attribution_id id t) as [a|] eqn:A; [|left; intros io; run_op; by rewrite A].
  destruct (shares (semantic state) !! s) as [ex|] eqn:Ex.
  { left. intros io. run_op. rewrite A, U, Ex. cbn. by case_match. }
  destruct (next_event_seq state) as [seq| |] eqn:N; [|left; intros io; run_op; by rewrite A, U, Ex, N..].
  destruct (encode_winner_blocks retained seq) as [pb| |] eqn:Eb;
    [|left; intros io; run_op; rewrite A, U, Ex, N; cbn; by rewrite Eb..].
  eapply shape_append; [done|]. intros io. run_op. rewrite A, U, Ex, N. cbn. by rewrite Eb.
Qed.

Lemma transition_shape state s c rev t : poisoned state = false -> shape state (OpTransition s c rev t).
Proof.
  intros U. destruct (winners (semantic state) !! mkKey s c) as [w|] eqn:Hw; [|left; intros io; run_op; by rewrite U, Hw].
  destruct (revision_event_seq w =? rev) eqn:Rv; [|left; intros io; run_op; rewrite U, Hw; cbn; by rewrite Rv].
  destruct (next_event_seq state) as [seq| |] eqn:N; [|left; intros io; run_op; rewrite U, Hw; cbn; rewrite Rv, N; done..].
  eapply shape_append; [done|]. intros io. run_op. rewrite U, Hw. cbn. by rewrite Rv, N.
Qed.

Lemma perform_shape state op : shape state op.
Proof.
  destruct (poisoned state) eqn:U; [left; intros io; by apply perform_poisoned|].
  destruct op; [by apply event_shape|by apply share_shape|by apply transition_shape].
Qed.

(** The states of a journal with this header: created, after durable operations,
    and after restarts, also of a process that failed in an append. *)
Inductive reachable (h : JournalHeader) : JournalState -> Prop :=
| reachable_created instance stream wcash zcash wcash_payout zcash_payout id state :
    create_new_with_stream instance stream wcash zcash wcash_payout zcash_payout id = Ok (h, state) -> reachable h state
| reachable_performed state op : reachable h state -> reachable h (perform Durable state op)
| reachable_restarted state op error written buffers h' state' : reachable h state ->
    delivers buffers (file (perform (Failed error written) state op)) -> reopen h buffers = Ok (h', state') -> reachable h state'.

(** What a restart makes of a failed operation. *)
Lemma reopen_failed h rs state op error written buffers : logged h rs state ->
  delivers buffers (file (perform (Failed error written) state op)) ->
  (reopen h buffers = Ok (h, state) /\ (perform Durable state op = state \/
     (length (file (perform (Failed error written) state op)) + 1 < length (file (perform Durable state op)))%nat)) \/
  (reopen h buffers = Ok (h, perform Durable state op) /\ exists rs', logged h rs' (perform Durable state op)).
Proof.
  intros Lg D. destruct (perform_shape state op) as [X|(event & blocks & r & n & next & _ & P & X)].
  { left. rewrite !X in *. split; [by apply (reopen_clean h rs)|by left]. }
  rewrite !X in *. cbn [file appended] in D. pose proof (reopen_torn _ _ _ _ _ _ _ _ _ _ Lg P D) as R.
  destruct (decide (length (record_json r) <= written)%nat) as [Hw|Hw].
  - right. split; [done|]. exists (rs ++ [r]). by apply (logged_append h rs state event blocks).
  - left. split; [done|]. right. cbn [file appended]. rewrite !length_app, length_take. unfold record_line. rewrite length_app. cbn. lia.
Qed.

Lemma reachable_logged h state : reachable h state -> exists rs, logged h rs state.
Proof.
  induction 1 as [i s a b c d n state C|state op Re [rs Lg]|state op error written buffers h' state' Re [rs Lg] D R].
  - exists []. by eapply create_logged.
  - destruct (perform_shape state op) as [X|(event & blocks & r & n & next & _ & P & X)]; rewrite X; [by exists rs|].
    exists (rs ++ [r]). by apply (logged_append h rs state event blocks).
  - destruct (reopen_failed h rs state op error written buffers Lg D) as [[R' _]|[R' [rs' Lg']]]; rewrite R' in R.
    + injection R as <- <-. by exists rs.
    + injection R as <- <-. by exists rs'.
Qed.

(** C19: a restart loses nothing that was acknowledged.  Whatever appends, rejected
    operations, failed appends and restarts led to a state of the journal, reading
    its file again, in buffers of any size, and replaying it gives exactly this
    state: the same events, jobs, shares, winners with their blocks and
    revisions, digest and length, and the file is not changed. *)
Theorem restart_restores_journal h state buffers : reachable h state -> delivers buffers (file state) ->
  reopen h buffers = Ok (h, state).
Proof. intros [rs Lg]%reachable_logged D. by apply (reopen_clean h rs). Qed.

(** C18: a crash in an append is atomic.  When the write or the sync of an operation
    fails after any number of bytes, no later operation of the process changes
    anything, and a restart gives either the state before the operation or the
    state that the durable operation gives, with a repaired file; it is the
    latter as soon as all bytes of the record but its newline are in the file. *)
Theorem crash_is_atomic h state op error written buffers : reachable h state ->
  let crashed := perform (Failed error written) state op in
  delivers buffers (file crashed) ->
  (forall io op', crashed = state \/ perform io crashed op' = crashed) /\
  exists state', reopen h buffers = Ok (h, state') /\ (state' = state \/ state' = perform Durable state op) /\
    ((length (file (perform Durable state op)) <= length (file crashed) + 1)%nat -> state' = perform Durable state op).
Proof.
  intros [rs Lg]%reachable_logged crashed D. split.
  - intros io op'. destruct (perform_shape state op) as [X|(event & blocks & r & n & next & _ & P & X)]; unfold crashed; rewrite X; [by left|].
    right. by apply perform_poisoned.
  - destruct (reopen_failed h rs state op error written buffers Lg D) as [[R X]|[R _]].
    + exists state. split_and!; [done|by left|]. intros Hl. destruct X as [X|X]; [done|]. unfold crashed in Hl. lia.
    + exists (perform Durable state op). split_and!; [done|by right|done].
Qed.
End Replays.

(** ** An example: a job, a share with a Wcash winner, and a crash *)

#[local] Existing Instance example_types.
#[local] Existing Instance example_ops.
#[local] Existing Instance example_json.

Abbreviation example_perform :=
  (perform (H := wcash_build) (H0 := Subsidies.example_env) (H1 := example_hashes) (B := example_pool_codec) (W := example_verifier)
    example_codec example_codec).
Abbreviation example_reopen :=
  (reopen (H := wcash_build) (H0 := Subsidies.example_env) (H1 := example_hashes) (B := example_pool_codec) (W := example_verifier)
    example_codec example_codec).
Abbreviation example_reachable :=
  (reachable (H := wcash_build) (H0 := Subsidies.example_env) (H1 := example_hashes) (B := example_pool_codec) (W := example_verifier)
    example_codec example_codec).

Definition example_commit : Operation :=
  OpShare example_job example_share (ParentHeader.block_hash (H := example_hashes) example_header) [Wcash] tt []
    (mkBlocks (Some [Byte.x01]) None).
Definition example_state1 : JournalState := example_perform Durable example_state0 (OpEvent (JobActivated 0 example_job)).
Definition example_state2 : JournalState := example_perform Durable example_state1 example_commit.
Definition example_observation : Operation := OpTransition example_share Wcash 2 (ToObserved tt 3).

Lemma example_state2_reachable : example_reachable example_pool_header example_state2.
Proof.
  apply reachable_performed, reachable_performed. eapply reachable_created. exact example_created_Ok.
Qed.

Lemma delivers_split n l : (0 < n < length l)%nat -> delivers [take n l; drop n l] l.
Proof.
  intros Hn. split; [|cbn; by rewrite app_nil_r, take_drop]. repeat constructor.
  - intros E. apply (f_equal length) in E. rewrite length_take in E. cbn in E. lia.
  - intros E. apply (f_equal length) in E. rewrite length_drop in E. cbn in E. lia.
Qed.

Lemma restart_restores_journal_witness :
  length (events example_state2) = 2%nat /\
  example_reopen example_pool_header [take 300 (file example_state2); drop 300 (file example_state2)] =
    Ok (example_pool_header, example_state2).
Proof.
  split; [vm_compute; reflexivity|].
  apply (restart_restores_journal (H := wcash_build) (H0 := Subsidies.example_env) (H1 := example_hashes) (B := example_pool_codec)
    (W := example_verifier) example_codec example_codec _ _ _ example_state2_reachable), delivers_split.
  split; apply Nat.ltb_lt; vm_compute; reflexivity.
Defined.

Lemma crash_is_atomic_witness :
  let crashed := example_perform (Failed Io 50) example_state2 example_observation in
  (length (file example_state2) + 50)%nat = length (file crashed) /\
  exists state', example_reopen example_pool_header [take 300 (file crashed); drop 300 (file crashed)] = Ok (example_pool_header, state') /\
    (state' = example_state2 \/ state' = example_perform Durable example_state2 example_observation).
Proof.
  intros crashed. assert (Hl : (length (file example_state2) + 50)%nat = length (file crashed)) by (apply Nat.eqb_eq; vm_compute; reflexivity).
  split; [exact Hl|].
  assert (D : delivers [take 300 (file crashed); drop 300 (file crashed)] (file crashed)).
  { apply delivers_split. split; apply Nat.ltb_lt; vm_compute; reflexivity. }
  destruct (crash_is_atomic (H := wcash_build) (H0 := Subsidies.example_env) (H1 := example_hashes) (B := example_pool_codec)
    (W := example_verifier) example_codec example_codec example_pool_header example_state2 example_observation Io 50 _ example_state2_reachable D)
    as (_ & state' & R & X & _).
  exists state'. split; [exact R|exact X].
Defined.
