(* ===== verification/PoolWinners.v ===== *)
(** * Winners, shares and pages of the pool journal

    The invariant of the semantic state, the automaton of a winner with its compare
    and swap, the work of the retained winners, idempotent share commits, the
    scans of the outbox and the pages of events. *)

From S2P Require Import Prelude Amounts Difficulty Networks Subsidies AuxCodec AuxMerkle AuxProof AuxCoinbase BlockChecks WinnerJournal GenesisAnchor WinnerBlocks PoolJournal PoolExample PoolReplay.

Import Journal(MinerError, WinnerChain, Wcash, Zcash, WinnerKey, mkKey, key_share_id, key_chain).

(** What the winners rely on of the pool protocol: a receipt that is valid for its
    job names a chain at most once. *)
Class ReceiptLaws `{O : PoolOps} : Prop :=
  distinct_chains r j : receipt_is_valid_for_job r j = true -> NoDup (winner_chain <$> receipt_winners r).

(** What commits rely on of the [hex] crate. *)
Class HexLaws `{B : BlockCodec} `{O : PoolOps} : Prop := {
  hex_roundtrip bytes : decode_hex (encode_hex bytes) = Some bytes;
  hex_lowercase bytes : forallb is_lowercase_hex (bytes_of (encode_hex bytes)) = true;
  hex_length bytes : length (bytes_of (encode_hex bytes)) = (2 * length bytes)%nat;
}.

(** ** The semantic invariant *)

Section Invariant.
Context `{ConsensusBuild, Foundation.FoundationEnv, Hashes} {B : BlockCodec} {T : PoolTypes} {O : PoolOps} {R : ReceiptLaws}.
Context (legacy modern : TransactionCodec) {W : EquihashVerifier}.
Abbreviation apply_record := (apply_record legacy modern).

(** A retained winner: it belongs to a committed share, its block was validated
    for an activated job, and its revision is a past event. *)
Record winner_ok (count : Z) (self : Semantic) (key : WinnerKey) (w : WinnerState) : Prop := {
  winner_key : key = mkKey (winner_share_id w) (winner_chain (winner w));
  winner_revision : 1 <= revision_event_seq w <= count;
  winner_committed : exists share j js seq, shares self !! winner_share_id w = Some share /\
    winner w ∈ receipt_winners (receipt share) /\ bytes_for (blocks share) (winner_chain (winner w)) = Some (block_bytes w) /\
    winner_job_id w = receipt_job_id (receipt share) /\ parent_hash_le w = receipt_parent_hash_le (receipt share) /\
    jobs self !! j = Some js /\
    validate_exact_winner_block legacy modern (block_bytes w) (winner w) (receipt share) (job js) seq = Ok tt;
}.

(** The state after [count] events. *)
Record semantic_ok (count : Z) (self : Semantic) : Prop := {
  order_exact key : key ∈ winner_order self <-> is_Some (winners self !! key);
  order_nodup : NoDup (winner_order self);
  order_bounded : len (winner_order self) <= MAX_RETAINED_WINNERS;
  shares_keyed s share : shares self !! s = Some share -> receipt_share_id (receipt share) = s;
  winners_ok key w : winners self !! key = Some w -> winner_ok count self key w;
}.

Lemma semantic_ok_empty : semantic_ok 0 empty_semantic.
Proof.
  split; cbn; try done; [|constructor].
  intros key. rewrite lookup_empty. split; [by intros X%not_elem_of_nil|by intros []].
Qed.

(** What a later state keeps for [winner_ok]. *)
Lemma winner_ok_mono count count' self self' key w : count <= count' ->
  (forall s share, shares self !! s = Some share -> shares self' !! s = Some share) ->
  (forall j js, jobs self !! j = Some js -> exists js', jobs self' !! j = Some js' /\ job js' = job js) ->
  winner_ok count self key w -> winner_ok count' self' key w.
Proof.
  intros Hc Hs Hj [K Rv (share & j & js & seq & S & In & By & Id & Pa & J & V)]. split; [done|lia|].
  destruct (Hj _ _ J) as (js' & J' & E). exists share, j, js', seq. rewrite E. split_and!; auto.
Qed.

(** Jobs change: their descriptors stay. *)
Lemma semantic_ok_jobs count self jobs' : semantic_ok count self ->
  (forall j js, jobs self !! j = Some js -> exists js', jobs' !! j = Some js' /\ job js' = job js) ->
  semantic_ok (count + 1) (mkSemantic jobs' (shares self) (winners self) (winner_order self)).
Proof.
  intros [Oe On Ob Sk Wk] Hj. split; try done. intros key w Hw. eapply winner_ok_mono; [| | |by apply Wk]; [lia|done|done].
Qed.

Lemma activate_ok count self r j self' : semantic_ok count self -> activate_job self r j = Ok self' -> semantic_ok (count + 1) self'.
Proof.
  intros S. unfold activate_job. intros ([] & _ & X)%obind_Ok. destruct (jobs self !! job_id_of j) eqn:E; [done|].
  injection X as <-. apply semantic_ok_jobs; [done|]. intros k js Hk. exists js. split; [|done].
  rewrite lookup_insert_ne; [done|]. intros X; congruence.
Qed.

Lemma update_job_ok count self r j unknown guard self' : semantic_ok count self ->
  update_job self r j unknown guard = Ok self' -> semantic_ok (count + 1) self'.
Proof.
  intros S. unfold update_job. intros ([] & _ & (js & Hj%ok_or_Ok & (next & _ & [= <-])%obind_Ok)%obind_Ok)%obind_Ok.
  apply semantic_ok_jobs; [done|]. intros k js' Hk. destruct (decide (k = j)) as [->|Ne].
  - rewrite Hk in Hj. injection Hj as ->. exists (mkJobState (job js) next). by rewrite lookup_insert_eq.
  - exists js'. by rewrite lookup_insert_ne.
Qed.

(** What a lifecycle event does. *)
Lemma update_winner_Ok self r s j w guard self' : update_winner self r s j w guard = Ok self' ->
  exists state next, winners self !! mkKey s (winner_chain w) = Some state /\ winner_job_id state = j /\ winner state = w /\
    guard (lifecycle state) = Ok next /\
    self' = mkSemantic (jobs self) (shares self)
      (<[mkKey s (winner_chain w) := set_lifecycle state next (record_seq r)]> (winners self)) (winner_order self).
Proof.
  unfold update_winner, exact_winner_mut. intros ([] & _ & (state & X & (next & G & [= <-])%obind_Ok)%obind_Ok)%obind_Ok.
  apply obind_Ok in X as (st & Hs%ok_or_Ok & X). case_bool_decide as E1; [|done]. case_bool_decide as E2; [|done].
  injection X as ->. exists state, next. done.
Qed.

Lemma update_winner_ok count self r s j w guard self' : semantic_ok count self -> 0 <= count -> record_seq r = count + 1 ->
  update_winner self r s j w guard = Ok self' -> semantic_ok (count + 1) self'.
Proof.
  intros [Oe On Ob Sk Wk] H0' Hr (state & next & Hs & <- & <- & _ & ->)%update_winner_Ok. split; cbn; try done.
  - intros key. rewrite Oe. destruct (decide (key = mkKey s (winner_chain (winner state)))) as [->|Ne].
    + rewrite lookup_insert_eq, Hs. split; eauto.
    + by rewrite lookup_insert_ne.
  - intros key w' Hw'. destruct (decide (key = mkKey s (winner_chain (winner state)))) as [->|Ne].
    + rewrite lookup_insert_eq in Hw'. injection Hw' as <-. destruct (Wk _ _ Hs) as [K _ C]. split; [done|cbn; lia|done].
    + rewrite lookup_insert_ne in Hw' by done. eapply winner_ok_mono; [| | |by apply Wk]; cbn; [lia|done|eauto].
Qed.

(** ** Committed shares *)

Definition key_of (r : ShareReceipt) (w : WinnerDescriptor) : WinnerKey := mkKey (receipt_share_id r) (winner_chain w).
Definition fresh_winner (seq : Z) (r : ShareReceipt) (w : WinnerDescriptor) (bytes : list byte) : WinnerState :=
  mkWinnerState (receipt_share_id r) (receipt_job_id r) w (receipt_parent_hash_le r) bytes Pending seq.

Lemma insert_winners_Ok seq r retained new : forall self self', insert_winners seq r retained new self = Ok self' ->
  jobs self' = jobs self /\ shares self' = shares self /\ winner_order self' = winner_order self ++ (key_of r <$> new) /\
  (forall key, key ∉ key_of r <$> new -> winners self' !! key = winners self !! key) /\
  (forall w, NoDup (winner_chain <$> new) -> w ∈ new -> exists bytes, bytes_for retained (winner_chain w) = Some bytes /\
     winners self' !! key_of r w = Some (fresh_winner seq r w bytes)).
Proof.
  induction new as [|w new IH]; intros self self'; cbn.
  { intros [= <-]. rewrite app_nil_r. split_and!; try done. by intros w _ X%not_elem_of_nil. }
  intros (bytes & Hb%expect_Ok & (Ej & Es & Eo & Eu & Ew)%IH)%obind_Ok. cbn in Ej, Es, Eo, Eu. rewrite <- app_assoc in Eo.
  split_and!; try done.
  - intros key [Hk Hn]%not_elem_of_cons. rewrite Eu by done. by rewrite lookup_insert_ne.
  - intros w' [Hn Nd]%NoDup_cons [->|Hin]%elem_of_cons; [|by apply Ew]. exists bytes. split; [done|].
    rewrite Eu; [apply lookup_insert_eq|]. intros (v & E & Hv)%list_elem_of_fmap. injection E as E. apply Hn. rewrite E.
    by apply list_elem_of_fmap_2.
Qed.

Lemma decode_blocks_Ok encoded r j seq retained : decode_and_validate_winner_blocks legacy modern encoded r j seq = Ok retained ->
  decode_block (persisted_wcash encoded) Wcash seq = Ok (wcash_bytes retained) /\
  decode_block (persisted_zcash encoded) Zcash seq = Ok (zcash_bytes retained) /\
  forall chain, validate_chain_block legacy modern retained r j seq chain = Ok tt.
Proof.
  intros (a & A & (b & Bd & ([] & V1 & ([] & V2 & [= <-])%obind_Ok)%obind_Ok)%obind_Ok)%obind_Ok.
  split_and!; try done. by intros [].
Qed.

(** The winner of a chain is found, and its block was checked. *)
Lemma chain_block_Ok retained r j seq w bytes : NoDup (winner_chain <$> receipt_winners r) -> w ∈ receipt_winners r ->
  validate_chain_block legacy modern retained r j seq (winner_chain w) = Ok tt ->
  bytes_for retained (winner_chain w) = Some bytes -> validate_exact_winner_block legacy modern bytes w r j seq = Ok tt.
Proof.
  intros Nd Hin V Hb. unfold validate_chain_block in V. rewrite Hb in V.
  enough (find_winner r (winner_chain w) = Some w) as E by (by rewrite E in V). clear V Hb.
  unfold find_winner. induction (receipt_winners r) as [|v l IH]; [by apply not_elem_of_nil in Hin|].
  cbn in *. apply NoDup_cons in Nd as [Hn Nd]. case_bool_decide as E.
  - apply elem_of_cons in Hin as [->|Hin]; [done|]. destruct Hn. rewrite E. by apply list_elem_of_fmap_2.
  - apply elem_of_cons in Hin as [->|Hin]; [done|]. by apply IH.
Qed.

(** What the share branch has checked, and what it does. *)
Lemma commit_share_Ok self r receipt j id target self' : commit_share legacy modern self r receipt j id target = Ok self' ->
  exists js retained, len (winner_order self) + len (receipt_winners receipt) <= MAX_RETAINED_WINNERS /\
    jobs self !! j = Some js /\ job_lifecycle js <> Closed /\ receipt_is_valid_for_job receipt (job js) = true /\
    shares self !! receipt_share_id receipt = None /\
    decode_and_validate_winner_blocks legacy modern (winner_blocks r) receipt (job js) (record_seq r) = Ok retained /\
    (forall w, w ∈ receipt_winners receipt -> winners self !! key_of receipt w = None) /\
    insert_winners (record_seq r) receipt retained (receipt_winners receipt)
      (mkSemantic (jobs self) (<[receipt_share_id receipt := mkShareState receipt id target retained]> (shares self))
        (winners self) (winner_order self)) = Ok self'.
Proof.
  unfold commit_share, checked_winner_capacity.
  intros (n & (m & [-> _]%ok_or_Ok%checked_Some & Hc)%obind_Ok & (js & Hj%ok_or_Ok & X)%obind_Ok)%obind_Ok.
  destruct (Z.gtb_spec (len (winner_order self) + len (receipt_winners receipt)) MAX_RETAINED_WINNERS); [done|].
  assert (Hl : job_lifecycle js <> Closed) by (intros E; by rewrite E in X).
  exists js. destruct (job_lifecycle js); [| |done].
  all: apply obind_Ok in X as ([] & V%require_Ok & X); destruct (shares self !! receipt_share_id receipt) eqn:Sh; [done|].
  all: apply obind_Ok in X as (retained & D & ([] & F%require_Ok & I)%obind_Ok); exists retained; split_and!; try done.
  all: intros w Hw; rewrite forallb_forall in F; by eapply bool_decide_eq_true, F, list_elem_of_In.
Qed.

Lemma commit_share_ok count self r receipt j id target self' : semantic_ok count self -> 0 <= count -> record_seq r = count + 1 ->
  commit_share legacy modern self r receipt j id target = Ok self' -> semantic_ok (count + 1) self'.
Proof.
  intros [Oe On Ob Sk Wk] H0' Hr (js & retained & Hc & Hj & _ & V & Sh & D & Fr & I)%commit_share_Ok.
  pose proof (distinct_chains _ _ V) as Nd. apply decode_blocks_Ok in D as (_ & _ & Vc).
  apply insert_winners_Ok in I as (Ej & Es & Eo & Eu & Ew). cbn in Ej, Es, Eo, Eu.
  assert (Inj : forall key, key ∈ key_of receipt <$> receipt_winners receipt -> winners self !! key = None).
  { intros key (w & -> & Hw)%list_elem_of_fmap. by apply Fr. }
  assert (Kn : NoDup (key_of receipt <$> receipt_winners receipt)).
  { assert (E : key_of receipt <$> receipt_winners receipt = mkKey (receipt_share_id receipt) <$> (winner_chain <$> receipt_winners receipt))
      by (by rewrite <- list_fmap_compose). rewrite E. apply NoDup_fmap_2; [|done]. intros a b X. by injection X. }
  split.
  - intros key. rewrite Eo, elem_of_app, Oe. destruct (decide (key ∈ key_of receipt <$> receipt_winners receipt)) as [Hk|Hk].
    + split; [intros _|by right]. apply list_elem_of_fmap in Hk as (w & -> & Hw). destruct (Ew w Nd Hw) as (b & _ & ->). eauto.
    + rewrite (Eu key Hk). tauto.
  - rewrite Eo. apply NoDup_app. split_and!; [done| |done]. intros key Hk%Oe Hk'%Inj. rewrite Hk' in Hk. by destruct Hk.
  - rewrite Eo, length_app, length_fmap. lia.
  - rewrite Es. intros s share. destruct (decide (s = receipt_share_id receipt)) as [->|Ne].
    + rewrite lookup_insert_eq. by intros [= <-].
    + rewrite lookup_insert_ne by done. apply Sk.
  - intros key w Hw. destruct (decide (key ∈ key_of receipt <$> receipt_winners receipt)) as [Hk|Hk].
    + apply list_elem_of_fmap in Hk as (v & -> & Hv). destruct (Ew v Nd Hv) as (b & Hb & Hf). rewrite Hf in Hw. injection Hw as <-.
      split; [done|cbn; lia|]. exists (mkShareState receipt id target retained), j, js, (record_seq r). rewrite Ej, Es. cbn.
      rewrite lookup_insert_eq. split_and!; try done. by eapply chain_block_Ok.
    + rewrite (Eu key Hk) in Hw. eapply winner_ok_mono; [| | |by apply Wk]; [lia| |rewrite Ej; eauto].
      intros s share Hs. rewrite Es. destruct (decide (s = receipt_share_id receipt)) as [->|Ne]; [congruence|by rewrite lookup_insert_ne].
Qed.

Lemma apply_record_ok count self r self' : semantic_ok count self -> 0 <= count -> record_seq r = count + 1 ->
  apply_record self r = Ok self' -> semantic_ok (count + 1) self'.
Proof.
  intros S H0' Hr. unfold PoolJournal.apply_record. destruct (record_event r).
  - by apply activate_ok.
  - by apply update_job_ok.
  - by apply update_job_ok.
  - by apply commit_share_ok.
  - by apply update_winner_ok.
  - by apply update_winner_ok.
  - by apply update_winner_ok.
  - by apply update_winner_ok.
  - by apply update_winner_ok.
  - by apply update_winner_ok.
Qed.
End Invariant.

(** ** Reachable states *)

Section Reachable.
Context `{ConsensusBuild, Foundation.FoundationEnv, Hashes} {B : BlockCodec} {T : PoolTypes} {O : PoolOps} {J : JsonLaws} {R : ReceiptLaws}.
Context (legacy modern : TransactionCodec) {W : EquihashVerifier}.
Abbreviation reachable := (reachable legacy modern).
Abbreviation semantic_ok := (semantic_ok legacy modern).

Lemma replay_all_semantic rs : forall self self', sized self -> semantic_ok (len (replay_events self)) (replay_semantic self) ->
  replay_all legacy modern self rs = Ok self' -> semantic_ok (len (replay_events self')) (replay_semantic self').
Proof.
  induction rs as [|r rs IH]; intros self self' Sz S; cbn; [by intros [= <-]|].
  intros (s1 & (next & V & A & _ & Hk & _ & S1 & ->)%replay_record_step & X)%obind_Ok; [|done|lia].
  apply (IH _ _ S1); [|done]. cbn. rewrite length_app. cbn. replace (Z.of_nat (length (replay_events self) + 1)) with (len (replay_events self) + 1) by lia.
  apply validate_replayed_Ok in V as (Hs & _); [|unfold MAX_JOURNAL_EVENTS in Hk; unfold U64_MAX; lia].
  by apply (apply_record_ok legacy modern _ (replay_semantic self) r); [|lia|..].
Qed.

Lemma logged_semantic h rs state : logged legacy modern h rs state -> semantic_ok (len (events state)) (semantic state).
Proof.
  intros [_ _ _ (d & _ & X) _ _].
  apply (replay_all_semantic _ _ _ (sized_empty _ _ _ (Nat2Z.is_nonneg _)) (semantic_ok_empty legacy modern) X).
Qed.

(** The journal invariant.  In every state that the journal reaches, the events
    are numbered from one without gaps, the recorded length is that of the file and
    within the limits, the outbox order lists every retained winner exactly once
    and at most one hundred thousand of them, and each retained winner belongs to
    a committed share, keeps the exact block of that share, which was validated
    for an activated job, and has a past event as its revision. *)
Theorem journal_invariant h state : reachable h state ->
  contiguous (events state) /\ len (events state) <= MAX_JOURNAL_EVENTS /\
  bytes_written state = len (file state) /\ len (file state) <= MAX_JOURNAL_BYTES /\
  semantic_ok (len (events state)) (semantic state) /\ poisoned state = false.
Proof.
  intros (rs & Lg)%reachable_logged. pose proof (logged_sizes _ _ _ _ _ Lg) as ([_ Sl] & Hb & Hm & _).
  split_and!; try done; [exact (logged_contiguous _ _ _ _ _ Lg)|exact (logged_semantic _ _ _ Lg)|apply (logged_usable _ _ _ _ _ Lg)].
Qed.

(** Blocks decode to headers and hashes of their width. *)
Definition typed_codec : Prop := forall bytes b, wcash_deserialize bytes = Some b \/ zcash_deserialize_block bytes = Some b ->
  0 <= BlockCheck.difficulty_threshold (block_header b) <= U32_MAX /\ length (block_hash b) = 32%nat.

Lemma persisted_work chain bytes display height parent : typed_codec ->
  validate_persisted_winner_block legacy modern bytes display height chain = Ok parent ->
  exists b, retained chain bytes display height b /\ of_le parent <= to_target (BlockCheck.difficulty_threshold (block_header b)) <= U256_MAX /\
    0 < to_target (BlockCheck.difficulty_threshold (block_header b)).
Proof.
  intros Ty V. destruct chain.
  - apply wcash_winner_work in V as (b & p & net & s & Re & Hd & _ & Hw & _); [|intros b Hb; apply (Ty bytes); by left].
    exists b. split_and!; (done || lia).
  - apply zcash_winner_work in V as (b & Re & Hd & _ & Hw & _); [|intros b Hb; apply (Ty bytes); by right].
    exists b. split_and!; (done || lia).
Qed.

Lemma retained_inj chain bytes display height b b' : retained chain bytes display height b ->
  match chain with Wcash => wcash_deserialize bytes | Zcash => zcash_deserialize_block bytes end = Some b' -> b = b'.
Proof. destruct chain; intros [(E & _) _] E'; congruence. Qed.

(** What [validate_exact_winner_block] has established. *)
Lemma exact_winner_Ok bytes w r j seq : typed_codec -> validate_exact_winner_block legacy modern bytes w r j seq = Ok tt ->
  exists b, retained (winner_chain w) bytes (encode_hex (rev (winner_block_hash_le w))) (winner_height w) b /\
    previous_block_hash b = job_previous_hash_le j (winner_chain w) /\
    to_le 32 (to_target (BlockCheck.difficulty_threshold (block_header b))) = job_target_le j (winner_chain w) /\
    coinbase_txid <$> first_transaction b = Some (winner_coinbase_txid_le w) /\
    of_le (receipt_parent_hash_le r) <= of_le (job_target_le j (winner_chain w)).
Proof.
  intros Ty (parent & V%map_err_Ok & ([] & ->%require_Ok%bool_decide_eq_true & M)%obind_Ok)%obind_Ok.
  apply persisted_work in V as (b & Re & Hw & Hp); [|done]. exists b. unfold validate_exact_winner_metadata in M.
  apply obind_Ok in M as (b' & E%ok_or_Ok & M). rewrite <- (retained_inj _ _ _ _ _ _ Re E) in *. clear b' E.
  assert (Ht : 0 <= BlockCheck.difficulty_threshold (block_header b) <= U32_MAX).
  { destruct (winner_chain w); destruct Re as [(E & _) _]; apply (Ty bytes); auto. }
  rewrite to_expanded_target in M by done. cbn [obind] in M.
  replace (0 <? to_target (BlockCheck.difficulty_threshold (block_header b))) with true in M by lia.
  apply obind_Ok in M as (e & E & M). destruct (_ && _); [|done]. injection E as <-.
  apply obind_Ok in M as ([] & P1%require_Ok%bool_decide_eq_true & ([] & P2%require_Ok%bool_decide_eq_true & P3%require_Ok%bool_decide_eq_true)%obind_Ok).
  split_and!; try done. rewrite <- P2, of_to_le; [lia|]. change (2 ^ (8 * Z.of_nat 32)) with (U256_MAX + 1). lia.
Qed.

(** C22: a retained winner has the work of its job.  Every winner in the outbox of a
    reachable journal keeps the one encoding of a block with the hash and height of
    its descriptor, whose predecessor and target are those of an activated job and
    whose coinbase is the described one; and the parent hash of its share, as a
    number, is at most the target of that job for its chain. *)
Theorem retained_winner_has_work h state key w : typed_codec -> reachable h state ->
  winners (semantic state) !! key = Some w ->
  let chain := winner_chain (winner w) in
  key = mkKey (winner_share_id w) chain /\
  exists b j js, retained chain (block_bytes w) (encode_hex (rev (winner_block_hash_le (winner w)))) (winner_height (winner w)) b /\
    jobs (semantic state) !! j = Some js /\ previous_block_hash b = job_previous_hash_le (job js) chain /\
    to_le 32 (to_target (BlockCheck.difficulty_threshold (block_header b))) = job_target_le (job js) chain /\
    coinbase_txid <$> first_transaction b = Some (winner_coinbase_txid_le (winner w)) /\
    of_le (parent_hash_le w) <= of_le (job_target_le (job js) chain).
Proof.
  intros Ty (rs & Lg)%reachable_logged Hw. apply logged_semantic in Lg as S.
  destruct (winners_ok _ _ _ _ S _ _ Hw) as [K _ (share & j & js & seq & _ & _ & _ & _ & Pa & Hj & V)].
  split; [done|]. apply exact_winner_Ok in V as (b & Re & P1 & P2 & P3 & Hl); [|done]. rewrite Pa. exists b, j, js. done.
Qed.

(** ** The automaton of a winner *)

Inductive winner_step (w : WinnerDescriptor) : Lifecycle -> Lifecycle -> Prop :=
| step_side_chain tip : winner_chain w = Zcash -> winner_step w Pending (SideChain tip)
| step_observe current tip n : (is_matured current = true -> n < maturity_confirmations w) ->
    winner_step w current (Observed tip n)
| step_orphan_observed tip n tip' : winner_step w (Observed tip n) (Orphaned tip')
| step_orphan_matured tip n tip' : winner_step w (Matured tip n) (Orphaned tip')
| step_quarantine current tip : is_quarantined current = false -> winner_step w current (Quarantined tip)
| step_requeue tip tip' : winner_step w (Quarantined tip) (Requeued tip')
| step_mature tip n tip' n' : winner_step w (Observed tip n) (Matured tip' n').

(** The guard of the event that a transition becomes. *)
Definition guard_of (t : Transition) (seq : Z) (w : WinnerDescriptor) : Lifecycle -> Result Lifecycle :=
  match t with
  | ToSideChain tip => enter_side_chain seq w tip
  | ToObserved tip n => observe seq w tip n
  | ToOrphaned tip => orphan seq tip
  | ToQuarantined tip => quarantine seq tip
  | ToRequeued tip => requeue seq tip
  | ToMatured tip n => mature seq tip n
  end.

Lemma guard_of_step t seq w current next : guard_of t seq w current = Ok next -> winner_step w current next.
Proof.
  destruct t; cbn.
  - unfold enter_side_chain. case_bool_decide as E; [|done]. destruct current; try done. intros [= <-]. by constructor.
  - unfold observe. destruct (is_matured current) eqn:M; cbn; [|by intros [= <-]; constructor; rewrite M].
    destruct (Z.leb_spec (maturity_confirmations w) confirmations); [done|]. intros [= <-]. by constructor.
  - destruct current; try done; intros [= <-]; constructor.
  - unfold quarantine. destruct (is_quarantined current) eqn:Q; [done|]. intros [= <-]. by constructor.
  - unfold requeue. destruct current; try done. intros [= <-]. constructor.
  - destruct current; try done; intros [= <-]; constructor.
Qed.

Lemma apply_into_event self r t seq w : record_event r = into_event t seq w ->
  apply_record legacy modern self r =
    update_winner self r (winner_share_id w) (winner_job_id w) (winner w) (guard_of t (record_seq r) (winner w)).
Proof. intros E. unfold apply_record. rewrite E. by destruct t. Qed.

Lemma into_event_seq t seq w : event_seq (into_event t seq w) = seq.
Proof. by destruct t. Qed.

(** A record changed one winner by a transition, and nothing else. *)
Definition winner_changed (self : Semantic) (r : PersistedEventRecord) (self' : Semantic) : Prop :=
  exists t key w next, winners self !! key = Some w /\ guard_of t (record_seq r) (winner w) (lifecycle w) = Ok next /\
    self' = mkSemantic (jobs self) (shares self) (<[key := set_lifecycle w next (record_seq r)]> (winners self)) (winner_order self).

Lemma update_winner_changed t self r s j w self' : update_winner self r s j w (guard_of t (record_seq r) w) = Ok self' ->
  winner_changed self r self'.
Proof.
  intros (st & next & Hs & _ & <- & G & ->)%update_winner_Ok. by exists t, (mkKey s (winner_chain (winner st))), st, next.
Qed.

(** A record changes jobs only, commits a share, or changes one winner. *)
Lemma apply_record_cases self r self' : apply_record legacy modern self r = Ok self' ->
  winner_changed self r self' \/
  (exists jobs', self' = mkSemantic jobs' (shares self) (winners self) (winner_order self)) \/
  (exists receipt j id target, record_event r = ShareCommitted receipt j id target /\
     commit_share legacy modern self r receipt j id target = Ok self').
Proof.
  unfold apply_record. destruct (record_event r) as [n j|n j re ms|n j|rc j id t|n s j w tip|n s j w tip c|n s j w tip|n s j w tip|n s j w tip|n s j w tip c].
  1: unfold activate_job; intros ([] & _ & X)%obind_Ok; destruct (jobs self !! job_id_of j); [done|]; injection X as <-; right; left; by eexists.
  1-2: unfold update_job; intros ([] & _ & (js & _ & (next & _ & [= <-])%obind_Ok)%obind_Ok)%obind_Ok; right; left; by eexists.
  1: intros X; right; right; by exists rc, j, id, t.
  all: intros X; left.
  - exact (update_winner_changed (ToSideChain tip) _ _ _ _ _ _ X).
  - exact (update_winner_changed (ToObserved tip c) _ _ _ _ _ _ X).
  - exact (update_winner_changed (ToOrphaned tip) _ _ _ _ _ _ X).
  - exact (update_winner_changed (ToQuarantined tip) _ _ _ _ _ _ X).
  - exact (update_winner_changed (ToRequeued tip) _ _ _ _ _ _ X).
  - exact (update_winner_changed (ToMatured tip c) _ _ _ _ _ _ X).
Qed.

(** ** Winners are kept *)

(** The same winner, moved along the automaton with a later revision. *)
Record later (w w' : WinnerState) : Prop := {
  later_same : (winner_share_id w', winner_job_id w', winner w', parent_hash_le w', block_bytes w') =
    (winner_share_id w, winner_job_id w, winner w, parent_hash_le w, block_bytes w);
  later_lifecycle : rtc (winner_step (winner w)) (lifecycle w) (lifecycle w');
  later_revision : revision_event_seq w <= revision_event_seq w';
  later_changed : revision_event_seq w = revision_event_seq w' -> w = w';
}.
#[export] Instance later_preorder : PreOrder later.
Proof.
  split.
  - intros w. split; done.
  - intros a b c [S1 L1 R1 C1] [S2 L2 R2 C2]. split; [congruence| |lia|].
    + injection S1 as _ _ E _ _. rewrite E in L2. by etrans.
    + intros E. rewrite C1 by lia. apply C2. lia.
Qed.

(** Shares stay as they were committed, and winners only move on. *)
Definition kept (self self' : Semantic) : Prop :=
  (forall s share, shares self !! s = Some share -> shares self' !! s = Some share) /\
  (forall key w, winners self !! key = Some w -> exists w', winners self' !! key = Some w' /\ later w w') /\
  winner_order self `prefix_of` winner_order self'.
#[export] Instance kept_preorder : PreOrder kept.
Proof.
  split.
  - intros self. split_and!; [done| |done]. intros key w Hw. exists w. by split.
  - intros a b c (S1 & W1 & O1) (S2 & W2 & O2). split_and!; [by auto| |by etrans].
    intros key w (w1 & Hw1 & L1)%W1. apply W2 in Hw1 as (w2 & Hw2 & L2). exists w2. split; [done|]. by etrans.
Qed.

Lemma apply_record_kept count self r self' : semantic_ok count self -> 0 <= count -> record_seq r = count + 1 ->
  apply_record legacy modern self r = Ok self' -> kept self self'.
Proof.
  intros S H0' Hr [(t & key & w & next & Hw & G & ->)|[[jobs' ->]|(rc & j & id & tg & _ & X)]]%apply_record_cases.
  - split_and!; [done| |done]. cbn. intros k v Hv. destruct (decide (k = key)) as [->|Ne].
    + rewrite Hw in Hv. injection Hv as <-. rewrite lookup_insert_eq. eexists. split; [done|].
      pose proof (winner_revision _ _ _ _ _ _ (winners_ok _ _ _ _ S _ _ Hw)) as Rv.
      split; cbn; [done|apply rtc_once; by eapply guard_of_step|lia|lia].
    + rewrite lookup_insert_ne by done. by exists v.
  - split_and!; [done| |done]. intros k v Hv. by exists v.
  - apply commit_share_Ok in X as (js & retained & _ & _ & _ & _ & Sh & _ & Fr & (Ej & Es & Eo & Eu & Ew)%insert_winners_Ok).
    cbn in Es, Eo, Eu. split_and!.
    + rewrite Es. intros s share Hs. rewrite lookup_insert_ne; [done|]. intros E. congruence.
    + intros k v Hv. exists v. split; [|done]. rewrite Eu; [done|]. intros (w & -> & Hw)%list_elem_of_fmap.
      rewrite Fr in Hv by done. done.
    + rewrite Eo. by exists (key_of rc <$> receipt_winners rc).
Qed.

(** What a prepared append has applied. *)
Lemma prepare_apply h rs state event blocks r n next : logged legacy modern h rs state ->
  prepare_append legacy modern state event blocks = Ok (r, n, next) ->
  record_event r = event /\ record_seq r = len (events state) + 1 /\ event_seq event = len (events state) + 1 /\
  apply_record legacy modern (semantic state) r = Ok next.
Proof.
  intros Lg P. pose proof (logged_sizes _ _ _ _ _ Lg) as ([Sb Sl] & _).
  apply prepare_Ok in P as (Er & _ & X); [|exact (logged_contiguous _ _ _ _ _ Lg)|done|done].
  apply replay_record_step in X as (sem & V & A & _ & Hk & _ & _ & E); [|done|lia].
  apply validate_replayed_Ok in V as (Hs & He & _); [|unfold MAX_JOURNAL_EVENTS in Hk; unfold U64_MAX; cbn in *; lia].
  apply (f_equal replay_semantic) in E. cbn in E. subst sem. rewrite Er in He. done.
Qed.

Lemma perform_kept h rs state op : logged legacy modern h rs state -> kept (semantic state) (semantic (perform legacy modern Durable state op)).
Proof.
  intros Lg. destruct (perform_shape legacy modern state op) as [X|(event & blocks & r & n & next & _ & P & X)]; rewrite X; [done|].
  apply (prepare_apply h rs) in P as (_ & Hs & _ & A); [|done]. cbn [semantic appended].
  by apply (apply_record_kept (len (events state)) _ r); [exact (logged_semantic _ _ _ Lg)|lia|..].
Qed.

(** One step of a run: a durable operation, or a failed one and a restart. *)
Inductive journal_step (h : JournalHeader) (state : JournalState) : JournalState -> Prop :=
| step_perform op : journal_step h state (perform legacy modern Durable state op)
| step_restart op error written buffers h' state' :
    delivers buffers (file (perform legacy modern (Failed error written) state op)) ->
    reopen legacy modern h buffers = Ok (h', state') -> journal_step h state state'.

Lemma step_reachable h state state' : reachable h state -> journal_step h state state' ->
  reachable h state' /\ kept (semantic state) (semantic state').
Proof.
  intros Re [op|op error written buffers h' state'' D X].
  - split; [by apply reachable_performed|]. apply reachable_logged in Re as (rs & Lg). by eapply perform_kept.
  - split; [by eapply reachable_restarted|]. apply reachable_logged in Re as (rs & Lg).
    destruct (reopen_failed legacy modern h rs state op error written buffers Lg D) as [[X' _]|[X' _]]; rewrite X' in X; injection X as <- <-; [done|].
    by eapply perform_kept.
Qed.

Lemma later_reachable h state state' : reachable h state -> rtc (journal_step h) state state' ->
  reachable h state' /\ kept (semantic state) (semantic state').
Proof.
  intros Re St. induction St as [|a b c Hab _ IH]; [done|]. destruct (step_reachable _ _ _ Re Hab) as [Rb K].
  destruct (IH Rb) as [Rc K']. split; [done|]. by etrans.
Qed.

(** C21: no committed share and no winner is ever lost or altered.  Through any
    operations, failed appends and restarts, a committed share stays exactly as it
    was, a winner keeps its place in the outbox, its descriptor, its share and its
    exact block, it only moves along the automaton of [winner_step], and its
    revision grows whenever it changes. *)
Theorem winner_never_lost h state state' : reachable h state -> rtc (journal_step h) state state' ->
  kept (semantic state) (semantic state').
Proof. intros Re St. by apply later_reachable with h. Qed.

(** ** Compare and swap *)

Lemma append_durable_Ok state event blocks state' u : append_locked legacy modern Durable state event blocks = (state', Ok u) ->
  exists r n next, prepare_append legacy modern state event blocks = Ok (r, n, next) /\ state' = appended Durable state r n next.
Proof.
  unfold append_locked. destruct (prepare_append legacy modern state event blocks) as [[[r n] next]| |]; [|done..].
  intros X. exists r, n, next. split; [done|]. by injection X as <-.
Qed.

Lemma and_return_Ok {C} (m : JournalState * Result unit) (c : C) state' c' : and_return m c = (state', Ok c') -> m = (state', Ok tt) /\ c' = c.
Proof. destruct m as [st [[]| |]]; intros [=]; by subst. Qed.

(** C24: the compare and swap of a winner.  A transition is accepted only at the
    revision at which the winner was read; it moves this winner by one step of the
    automaton, gives it the number of the new event as its revision, appends
    exactly the event of the transition and changes no other winner, share or job;
    and every further transition at the old revision is refused. *)
Theorem winner_transition_exact h state s c rev t state' ev : reachable h state ->
  compare_and_transition_winner legacy modern Durable state s c rev t = (state', Ok ev) ->
  let seq := len (events state) + 1 in
  exists w next, winners (semantic state) !! mkKey s c = Some w /\ revision_event_seq w = rev /\
    winner_step (winner w) (lifecycle w) next /\ ev = into_event t seq w /\ events state' = events state ++ [ev] /\
    semantic state' = mkSemantic (jobs (semantic state)) (shares (semantic state))
      (<[mkKey s c := set_lifecycle w next seq]> (winners (semantic state))) (winner_order (semantic state)) /\
    forall io t', compare_and_transition_winner legacy modern io state' s c rev t' =
      (state', Err (WinnerRevisionConflict s c rev seq)).
Proof.
  intros (rs & Lg)%reachable_logged X seq. pose proof (logged_usable _ _ _ _ _ Lg) as U. pose proof (logged_semantic _ _ _ Lg) as S.
  unfold compare_and_transition_winner, ensure_usable in X. rewrite U in X. cbn [negb require on_ok] in X.
  destruct (winners (semantic state) !! mkKey s c) as [w|] eqn:Hw; [|done]. cbn [ok_or on_ok] in X.
  destruct (Z.eqb_spec (revision_event_seq w) rev) as [Rv|]; [|done]. cbn [negb] in X.
  destruct (next_event_seq state) as [n'| |]; [|done..]. cbn [on_ok] in X. apply and_return_Ok in X as [X ->].
  apply append_durable_Ok in X as (r & n & sem & P & ->). apply (prepare_apply h rs) in P as (Er & Hr & He & A); [|done].
  rewrite into_event_seq in He. subst n'. fold seq in Hr, Er |- *. rewrite (apply_into_event _ _ _ _ _ Er) in A.
  apply update_winner_Ok in A as (w0 & next & Hw0 & _ & _ & G & ->).
  destruct (winners_ok _ _ _ _ S _ _ Hw) as [K Rw _]. rewrite <- K in *. rewrite Hw in Hw0. injection Hw0 as <-.
  exists w, next. split_and!; try done; [by eapply guard_of_step|cbn; by rewrite Er|cbn; by rewrite Hr|].
  intros io t'. unfold compare_and_transition_winner, ensure_usable. cbn. rewrite lookup_insert_eq, Hr. cbn.
  rewrite (proj2 (Z.eqb_neq seq rev)) by (unfold seq; lia). done.
Qed.

(** ** Share commits *)

Context {X : HexLaws}.

Lemma decode_encode_block bytes chain seq encoded : encode_block bytes chain seq = Ok encoded -> decode_block encoded chain seq = Ok bytes.
Proof.
  unfold encode_block. destruct bytes as [bytes|]; [|by intros [= <-]].
  destruct (Z.eqb_spec (len bytes) 0); [done|]. destruct (Z.gtb_spec (len bytes) MAX_WINNER_BLOCK_BYTES); [done|]. cbn [orb].
  intros [= <-]. unfold decode_block. rewrite checked_ok by (vm_compute; split; congruence). cbn [ok_or obind].
  rewrite hex_lowercase, hex_length, hex_roundtrip. rewrite Nat2Z.inj_mul. change (Z.of_nat 2) with 2.
  rewrite (proj2 (Z.eqb_neq _ _)), Z.gtb_ltb, (proj2 (Z.ltb_ge _ _)) by lia. cbn [orb negb].
  by rewrite Z.mul_comm, Z_mod_mult.
Qed.

(** A share as the journal records it. *)
Definition recorded (state : JournalState) (j s p : list byte) (new : list WinnerDescriptor) (id : WorkerIdentity) (target : list byte)
    (retained : JournalWinnerBlocks) (rc : ShareReceipt) : Prop :=
  exists attribution, canonical_attribution_id id target = Some attribution /\
    rc = mkReceipt (receipt_event_seq rc) j s attribution p new /\
    shares (semantic state) !! s = Some (mkShareState rc id target retained).

Lemma share_recorded h state j s p new id target retained state' c : reachable h state ->
  append_share_committed legacy modern Durable state j s p new id target retained = (state', Ok c) ->
  recorded state' j s p new id target retained (commit_receipt c).
Proof.
  intros (rs & Lg)%reachable_logged Y. pose proof (logged_usable _ _ _ _ _ Lg) as U.
  unfold append_share_committed, ensure_usable in Y. destruct (canonical_attribution_id id target) as [a|] eqn:At; [|done].
  cbn [ok_or on_ok] in Y. rewrite U in Y. cbn [negb require on_ok] in Y. exists a.
  destruct (shares (semantic state) !! s) as [ex|] eqn:Ex.
  - case_bool_decide as E1; [|done]. case_bool_decide as E2; [|done]. case_bool_decide as E3; [|done]. case_bool_decide as E4; [|done].
    cbn [andb] in Y. injection Y as <- <-. cbn [commit_receipt]. split_and!; [done..|].
    rewrite Ex. destruct ex. cbn in *. by subst.
  - destruct (next_event_seq state) as [seq| |]; [|done..]. cbn [on_ok] in Y.
    destruct (encode_winner_blocks retained seq) as [pb| |] eqn:Eb; [|done..]. cbn [on_ok] in Y.
    apply and_return_Ok in Y as [Y ->]. apply append_durable_Ok in Y as (r & n & sem & P & ->).
    assert (Wb : winner_blocks r = pb).
    { unfold prepare_append in P. repeat (apply obind_Ok in P as (? & ? & P) || (destruct (negb _); [done|])). by injection P as <- <- <-. }
    apply (prepare_apply h rs) in P as (Er & Hr & He & A); [|done]. cbn in He. subst seq. cbn [commit_receipt receipt_event_seq].
    split_and!; [done..|]. cbn [semantic appended]. unfold apply_record in A. rewrite Er in A.
    apply commit_share_Ok in A as (js & ret & _ & _ & _ & _ & _ & (D1 & D2 & _)%decode_blocks_Ok & _ & (_ & -> & _)%insert_winners_Ok).
    cbn. rewrite lookup_insert_eq. do 2 f_equal. rewrite Wb, Hr in D1, D2.
    apply obind_Ok in Eb as (ew & Ew & (ez & Ez & [= <-])%obind_Ok). cbn in D1, D2.
    rewrite (decode_encode_block _ _ _ _ Ew) in D1. rewrite (decode_encode_block _ _ _ _ Ez) in D2.
    destruct ret, retained. cbn in *. congruence.
Qed.

(** C25: a share is committed at most once.  After a share was committed or found,
    at any later time, also after crashes and restarts, the same request gives the
    original receipt and changes nothing; and a request with the same share id that
    differs in any field or byte is refused as a conflict. *)
Theorem share_commit_idempotent h state j s p new id target retained state' c later_state : reachable h state ->
  append_share_committed legacy modern Durable state j s p new id target retained = (state', Ok c) ->
  rtc (journal_step h) state' later_state ->
  (forall io, append_share_committed legacy modern io later_state j s p new id target retained =
     (later_state, Ok (mkCommit (commit_receipt c) true))) /\
  (forall io j' p' new' id' target' retained', canonical_attribution_id id' target' <> None ->
     (j', p', new', id', target', retained') <> (j, p, new, id, target, retained) ->
     append_share_committed legacy modern io later_state j' s p' new' id' target' retained' = (later_state, Err (ShareConflict s))).
Proof.
  intros Re Y St. assert (Re' : reachable h state').
  { change (reachable h (state', Ok c : Result JournalShareCommit).1). rewrite <- Y.
    exact (reachable_performed _ _ _ _ (OpShare j s p new id target retained) Re). }
  destruct (share_recorded _ _ _ _ _ _ _ _ _ _ _ Re Y) as (a & At & Hrc & Sh).
  destruct (later_reachable _ _ _ Re' St) as [Rl (Ks & _)]. apply Ks in Sh. apply reachable_logged in Rl as (rs & Lg).
  pose proof (logged_usable _ _ _ _ _ Lg) as U. split.
  - intros io. unfold append_share_committed, ensure_usable. rewrite At, U. cbn. rewrite Sh. cbn. rewrite <- Hrc.
    by rewrite !bool_decide_true.
  - intros io j' p' new' id' target' retained' Ha Ne. unfold append_share_committed, ensure_usable.
    destruct (canonical_attribution_id id' target') as [a'|]; [|done]. rewrite U. cbn. rewrite Sh. cbn.
    case_bool_decide as E1; [|done]. case_bool_decide as E2; [|done]. case_bool_decide as E3; [|done]. case_bool_decide as E4; [|done].
    destruct Ne. rewrite Hrc in E1. cbn in E1. congruence.
Qed.
End Reachable.

(** ** An example *)

#[local] Existing Instance example_types.
#[local] Existing Instance example_ops.
#[local] Existing Instance example_json.

#[export] Instance example_receipts : ReceiptLaws (O := example_ops).
Proof. intros r j V. cbn in V |- *. apply bool_decide_eq_true in V. by rewrite list_fmap_id. Qed.

Lemma lowercase_hex_bytes l : forallb is_lowercase_hex (flat_map Genesis.hex_byte l) = true.
Proof.
  induction l as [|b l IH]; [done|]. cbn [flat_map]. rewrite forallb_app, IH, andb_true_r. by destruct b.
Qed.
#[export] Instance example_hex : HexLaws (B := example_pool_codec) (O := example_ops).
Proof.
  assert (E : forall l, bytes_of (encode_hex l) = flat_map Genesis.hex_byte l).
  { intros l. apply String.list_byte_of_string_of_list_byte. }
  split; intros bytes; [|rewrite E..].
  - change (ok (Genesis.parse_pairs 0 (bytes_of (encode_hex bytes))) = Some bytes). by rewrite E, parse_hex_bytes.
  - apply lowercase_hex_bytes.
  - apply length_hex_bytes.
Qed.

Lemma example_codec_typed : typed_codec (B := example_pool_codec).
Proof.
  intros bytes b [E|E]; [|done]. cbn in E. destruct (bool_decide _) in E; [|done]. injection E as <-. by_eval.
Qed.

Lemma journal_invariant_witness : length (winner_order (semantic example_state2)) = 1%nat /\ contiguous (events example_state2).
Proof.
  split; [vm_compute; reflexivity|].
  exact (proj1 (journal_invariant (H := wcash_build) (H0 := Subsidies.example_env) (H1 := example_hashes) (B := example_pool_codec)
    (W := example_verifier) example_codec example_codec _ _ example_state2_reachable)).
Defined.

Definition example_key : WinnerKey := mkKey example_share Wcash.
Definition example_winner_state : WinnerState :=
  mkWinnerState example_share example_job Wcash (ParentHeader.block_hash (H := example_hashes) example_header) [Byte.x01] Pending 2.
Lemma example_winner_found : winners (semantic example_state2) !! example_key = Some example_winner_state.
Proof. vm_compute. reflexivity. Qed.

Lemma retained_winner_has_work_witness :
  of_le (ParentHeader.block_hash (H := example_hashes) example_header) <= of_le example_target.
Proof.
  destruct (retained_winner_has_work (H := wcash_build) (H0 := Subsidies.example_env) (H1 := example_hashes) (B := example_pool_codec)
    (W := example_verifier) example_codec example_codec _ _ example_key example_winner_state example_codec_typed example_state2_reachable example_winner_found)
    as (_ & b & j & js & _ & _ & _ & _ & _ & L). exact L.
Defined.

Abbreviation example_transition :=
  (compare_and_transition_winner (H := wcash_build) (H0 := Subsidies.example_env) (H1 := example_hashes) (B := example_pool_codec)
    (W := example_verifier) example_codec example_codec).
Definition example_state3 : JournalState := example_perform Durable example_state2 example_observation.

Lemma winner_transition_exact_witness :
  example_transition Durable example_state3 example_share Wcash 2 (ToObserved tt 3) =
    (example_state3, Err (WinnerRevisionConflict example_share Wcash 2 (len (events example_state2) + 1))).
Proof.
  assert (E : example_transition Durable example_state2 example_share Wcash 2 (ToObserved tt 3) =
    (example_state3, Ok (WinnerObserved 3 example_share example_job Wcash tt 3))) by (vm_compute; reflexivity).
  destruct (winner_transition_exact (H := wcash_build) (H0 := Subsidies.example_env) (H1 := example_hashes) (B := example_pool_codec)
    (W := example_verifier) example_codec example_codec _ _ _ _ _ _ _ _ example_state2_reachable E) as (w & next & _ & _ & _ & _ & _ & _ & X).
  exact (X Durable (ToObserved tt 3)).
Defined.

Lemma winner_never_lost_witness : kept (semantic example_state2) (semantic example_state3).
Proof.
  apply (winner_never_lost (H := wcash_build) (H0 := Subsidies.example_env) (H1 := example_hashes) (B := example_pool_codec)
    (W := example_verifier) example_codec example_codec _ _ _ example_state2_reachable).
  apply rtc_once. exact (step_perform _ _ _ _ example_observation).
Defined.

Abbreviation example_append_share :=
  (append_share_committed (H := wcash_build) (H0 := Subsidies.example_env) (H1 := example_hashes) (B := example_pool_codec)
    (W := example_verifier) example_codec example_codec).
Definition example_receipt : ShareReceipt :=
  mkReceipt 2 example_job example_share [] (ParentHeader.block_hash (H := example_hashes) example_header) [Wcash].

Lemma example_state1_reachable : example_reachable example_pool_header example_state1.
Proof. apply reachable_performed. eapply reachable_created. exact example_created_Ok. Qed.

Lemma share_commit_idempotent_witness :
  example_append_share Durable example_state3 example_job example_share
    (ParentHeader.block_hash (H := example_hashes) example_header) [Wcash] tt [] (mkBlocks (Some [Byte.x01]) None) =
  (example_state3, Ok (mkCommit example_receipt true)).
Proof.
  assert (E : example_append_share Durable example_state1 example_job example_share
    (ParentHeader.block_hash (H := example_hashes) example_header) [Wcash] tt [] (mkBlocks (Some [Byte.x01]) None) =
    (example_state2, Ok (mkCommit example_receipt false))) by (vm_compute; reflexivity).
  destruct (share_commit_idempotent (H := wcash_build) (H0 := Subsidies.example_env) (H1 := example_hashes) (B := example_pool_codec)
    (W := example_verifier) example_codec example_codec _ _ _ _ _ _ _ _ _ _ _ example_state3 example_state1_reachable E
    (rtc_once _ _ (step_perform _ _ _ _ example_observation))) as [X _].
  exact (X Durable).
Defined.
