(* ===== verification/PoolReads.v ===== *)
(** * Pages, scans and digests of the pool journal

    A client that follows the pages of events receives every event once; the scans
    of the outbox return the first winner that they look for and skip none; and the
    digest of the last record authenticates the whole journal. *)

From S2P Require Import Prelude Amounts Difficulty Networks Subsidies AuxCodec AuxMerkle AuxProof AuxCoinbase BlockChecks WinnerJournal GenesisAnchor WinnerBlocks PoolJournal PoolExample PoolReplay PoolWinners.

Import Journal(WinnerChain, Wcash, Zcash, WinnerKey, mkKey, key_share_id, key_chain).

(** What the pages rely on of the pool protocol: its limits. *)
Class PageLaws `{O : PoolOps} : Prop := {
  payload_limit : 0 <= MAX_BACKEND_PAYLOAD_BYTES <= 65536;
  item_limit : 1 <= MAX_EVENT_PAGE_ITEMS <= U16_MAX;
}.

Section Pages.
Context `{ConsensusBuild, Foundation.FoundationEnv, Hashes} {B : BlockCodec} {T : PoolTypes} {O : PoolOps} {J : JsonLaws} {G : PageLaws}.
Context (legacy modern : TransactionCodec) {W : EquihashVerifier}.
Abbreviation reachable := (reachable legacy modern).

(** ** Every event fits a page *)

Lemma replay_all_fit rs : forall self self', sized self -> Forall (fun e => ensure_event_fits_page e = Ok tt) (replay_events self) ->
  replay_all legacy modern self rs = Ok self' -> Forall (fun e => ensure_event_fits_page e = Ok tt) (replay_events self').
Proof.
  induction rs as [|r rs IH]; intros self self' Sz S; cbn; [by intros [= <-]|].
  intros (s1 & (next & _ & _ & F & _ & _ & S1 & ->)%replay_record_step & X)%obind_Ok; [|done|lia].
  apply (IH _ _ S1); [|done]. cbn. apply Forall_app. split; [done|]. by constructor.
Qed.

Lemma fits_Ok e : ensure_event_fits_page e = Ok tt -> 
  empty_events_page_payload_size (event_seq e - 1) + len (event_json e) <= MAX_BACKEND_PAYLOAD_BYTES.
Proof.
  unfold ensure_event_fits_page. intros (a & [-> _]%ok_or_Ok%checked_Some & (t & [-> _]%ok_or_Ok%checked_Some & X)%obind_Ok)%obind_Ok.
  by destruct (Z.gtb_spec (empty_events_page_payload_size (event_seq e - 1) + len (event_json e)) MAX_BACKEND_PAYLOAD_BYTES).
Qed.

(** The events of a reachable state: numbered, and each alone in a page fits. *)
Lemma reachable_events h state : reachable h state ->
  poisoned state = false /\ len (events state) <= MAX_JOURNAL_EVENTS /\
  forall i e, events state !! i = Some e -> event_seq e = Z.of_nat i + 1 /\
    empty_events_page_payload_size (Z.of_nat i) + len (event_json e) <= MAX_BACKEND_PAYLOAD_BYTES.
Proof.
  intros (rs & Lg)%reachable_logged. pose proof (logged_sizes _ _ _ _ _ Lg) as ([_ Sl] & _).
  pose proof (logged_contiguous _ _ _ _ _ Lg) as C. pose proof (logged_usable _ _ _ _ _ Lg) as U.
  destruct Lg as [_ _ _ (d & _ & R) _ _].
  apply replay_all_fit in R; [|apply sized_empty; lia|by apply Forall_nil]. split_and!; [done|done|].
  intros i e He. pose proof (C _ _ He) as Hs. split; [done|]. pose proof (fits_Ok _ (proj1 (Forall_lookup _ _) R _ _ He)) as F.
  replace (event_seq e - 1) with (Z.of_nat i) in F by lia. done.
Qed.

(** ** Pages *)

(** The size of a payload with these events: one separator between two of them. *)
Definition payload (base : Z) (page : list BackendEvent) : Z :=
  base + Z.of_nat (sum_list_with (fun e => length (event_json e)) page) + Z.of_nat (pred (length page)).

Lemma payload_snoc base page e : payload base (page ++ [e]) =
  payload base page + (match page with [] => 0 | _ => 1 end) + len (event_json e).
Proof.
  unfold payload. rewrite sum_list_with_app, length_app. cbn. destruct page as [|x page]; cbn; [lia|].
  replace (length page + 1)%nat with (S (length page)) by lia. lia.
Qed.

Lemma fill_page_Ok base available : forall page, 0 <= payload base page <= MAX_BACKEND_PAYLOAD_BYTES ->
  Forall (fun e => len (event_json e) <= MAX_BACKEND_PAYLOAD_BYTES) available ->
  exists k, (k <= length available)%nat /\ fill_page (payload base page) page available = Ok (page ++ take k available) /\
    payload base (page ++ take k available) <= MAX_BACKEND_PAYLOAD_BYTES /\
    (forall e, head available = Some e -> payload base (page ++ [e]) <= MAX_BACKEND_PAYLOAD_BYTES -> (0 < k)%nat).
Proof.
  pose proof payload_limit as Lm. induction available as [|e available IH]; intros page Hp Hf; cbn [fill_page].
  { exists 0%nat. rewrite app_nil_r. split_and!; [done..|lia|done]. }
  apply Forall_cons in Hf as [He Hf]. set (sep := match page with [] => 0 | _ => 1 end).
  assert (Hs : 0 <= sep <= 1) by (unfold sep; destruct page; lia).
  rewrite checked_ok by (unfold USIZE_MAX, U64_MAX; lia). cbn [mbind option_bind].
  rewrite checked_ok by (unfold USIZE_MAX, U64_MAX; lia). cbn [ok_or obind]. pose proof (payload_snoc base page e) as Ps. fold sep in Ps.
  rewrite <- Ps. destruct (Z.gtb_spec (payload base (page ++ [e])) MAX_BACKEND_PAYLOAD_BYTES) as [Hg|Hg].
  - exists 0%nat. rewrite app_nil_r. split_and!; [lia|done|lia|]. intros x [= <-]. lia.
  - destruct (IH (page ++ [e])) as (k & Hk & -> & Hl & _); [lia|done|]. exists (S k). rewrite <- app_assoc in *. cbn.
    split_and!; [lia|done|done|lia].
Qed.

(** The events from a cursor on. *)
Definition numbered (after : Z) (available : list BackendEvent) : Prop := forall i e, available !! i = Some e ->
  event_seq e = after + Z.of_nat i + 1 /\
  empty_events_page_payload_size (after + Z.of_nat i) + len (event_json e) <= MAX_BACKEND_PAYLOAD_BYTES.

Lemma last_take {A} (l : list A) k : (k < length l)%nat -> last (take (S k) l) = l !! k.
Proof.
  intros Hk. destruct (lookup_lt_is_Some_2 _ _ Hk) as [x Hx]. by rewrite (take_S_r _ _ x Hx), last_snoc, Hx.
Qed.

(** A page takes at least one event, when there is one. *)
Lemma page_takes after count available : numbered after available -> 0 <= after -> 1 <= count <= len available ->
  exists k, (0 < k <= Z.to_nat count)%nat /\
    fill_page (empty_events_page_payload_size after) [] (take (Z.to_nat count) available) = Ok (take k available) /\
    payload (empty_events_page_payload_size after) (take k available) <= MAX_BACKEND_PAYLOAD_BYTES.
Proof.
  intros Hs Ha Hc. pose proof payload_limit as Lm. set (base := empty_events_page_payload_size after).
  assert (Hb : 0 <= base) by (unfold base, empty_events_page_payload_size; lia).
  destruct available as [|first rest]; [cbn in Hc; lia|]. assert (F0 : base + len (event_json first) <= MAX_BACKEND_PAYLOAD_BYTES).
  { destruct (Hs 0%nat first eq_refl) as [_ X]. by rewrite Z.add_0_r in X. }
  destruct (fill_page_Ok base (take (Z.to_nat count) (first :: rest)) []) as (k & Hk & Ef & Hp & Hf).
  { unfold payload. cbn. lia. }
  { apply Forall_take, Forall_lookup. intros i e [_ Hi]%Hs. unfold empty_events_page_payload_size in Hi. lia. }
  replace (payload base []) with base in Ef by (unfold payload; cbn; lia). rewrite length_take in Hk.
  assert (K : (0 < k)%nat).
  { apply (Hf first); [|rewrite app_nil_l; unfold payload; cbn; lia]. by replace (Z.to_nat count) with (S (Z.to_nat (count - 1))) by lia. }
  exists k. cbn [app] in *. rewrite take_take in *. replace (k `min` Z.to_nat count)%nat with k in * by lia. split_and!; (done || lia).
Qed.

(** One page of a reachable journal. *)
Lemma read_events_Ok h state after limit : reachable h state -> 1 <= limit <= MAX_EVENT_PAGE_ITEMS -> 0 <= after <= len (events state) ->
  exists k, Z.of_nat k <= Z.min limit (len (events state) - after) /\ (after < len (events state) -> (0 < k)%nat) /\
    let page := take k (drop (Z.to_nat after) (events state)) in
    read_events state after limit = Ok (mkPage after (after + Z.of_nat k) (after + Z.of_nat k =? len (events state)) page) /\
    (page <> [] -> payload (empty_events_page_payload_size after) page <= MAX_BACKEND_PAYLOAD_BYTES).
Proof.
  intros Re Hl Ha. apply reachable_events in Re as (U & Hm & He). unfold MAX_JOURNAL_EVENTS in Hm.
  assert (C : contiguous (events state)) by (intros i e Hi; by apply He).
  unfold read_events, ensure_usable. rewrite (proj2 (within_spec _ _ _) Hl), U, (contiguous_last _ C). cbn [negb require obind].
  rewrite Z.gtb_ltb, (proj2 (Z.ltb_ge _ _)) by lia. rewrite checked_ok by (unfold USIZE_MAX, U64_MAX; lia). cbn [ok_or obind].
  rewrite (proj2 (Z.leb_le _ _)) by lia. cbn [assert_that obind].
  assert (La : len (drop (Z.to_nat after) (events state)) = len (events state) - after) by (rewrite length_drop; lia).
  assert (Hs : numbered after (drop (Z.to_nat after) (events state))).
  { intros i e Hi. rewrite lookup_drop in Hi. apply He in Hi as [E1 E2].
    replace (Z.of_nat (Z.to_nat after + i)) with (after + Z.of_nat i) in * by lia. done. }
  revert La Hs. generalize (drop (Z.to_nat after) (events state)). intros available La Hs.
  destruct (decide (available = [])) as [->|Ne].
  { exists 0%nat. rewrite firstn_nil. cbn in La |- *. rewrite Z.add_0_r. split_and!; (done || lia). }
  assert (La0 : 0 < len available) by (destruct available; [done|cbn; lia]).
  destruct (page_takes after (Z.min (len available) limit) available Hs) as (k & Hk & -> & Hp); [lia..|].
  exists k. split_and!; [lia|lia| |done]. destruct k as [|k]; [lia|]. cbn [obind].
  rewrite last_take by lia. destruct (lookup_lt_is_Some_2 available k) as [e Hl']; [lia|]. rewrite Hl'.
  destruct (Hs _ _ Hl') as [-> _]. replace (after + Z.of_nat k + 1) with (after + Z.of_nat (S k)) by lia.
  by destruct available.
Qed.

(** A client that follows the pages to the end. *)
Fixpoint read_all (fuel : nat) (state : JournalState) (after limit : Z) : Result (list BackendEvent) :=
  match fuel with
  | 0%nat => Panic
  | S fuel =>
      let? page := read_events state after limit in
      if complete page then Ok (page_events page)
      else let? rest := read_all fuel state (next_page_seq page) limit in Ok (page_events page ++ rest)
  end.

(** C23: the pages deliver every event.  A client that starts after any known event
    and follows the cursors, with any admitted page size, reaches the end after
    finitely many pages, and has then received every later event exactly once and
    in order; each page has at most the requested number of events, is not empty
    before the end, and fits the payload limit. *)
Theorem pages_deliver_all h state after limit : reachable h state -> 1 <= limit <= MAX_EVENT_PAGE_ITEMS ->
  0 <= after <= len (events state) ->
  read_all (S (length (events state))) state after limit = Ok (drop (Z.to_nat after) (events state)) /\
  exists page, read_events state after limit = Ok page /\ len (page_events page) <= limit /\
    (after < len (events state) -> page_events page <> [] /\
       payload (empty_events_page_payload_size after) (page_events page) <= MAX_BACKEND_PAYLOAD_BYTES).
Proof.
  intros Re Hl Ha. split.
  - assert (Hf : (Z.to_nat (len (events state) - after) < S (length (events state)))%nat) by lia. revert after Ha Hf.
    induction (S (length (events state))) as [|fuel IH]; intros after Ha Hf; [lia|].
    destruct (read_events_Ok h state after limit Re Hl Ha) as (k & Hk & Hp & E & _). cbn [read_all]. rewrite E. cbn [obind complete next_page_seq page_events].
    destruct (Z.eqb_spec (after + Z.of_nat k) (len (events state))) as [Ek|Ek].
    + rewrite take_ge; [done|]. rewrite length_drop. lia.
    + rewrite IH by lia. cbn [obind]. replace (Z.to_nat (after + Z.of_nat k)) with (Z.to_nat after + k)%nat by lia.
      by rewrite <- drop_drop, take_drop.
  - destruct (read_events_Ok h state after limit Re Hl Ha) as (k & Hk & Hp & E & Hs). eexists. split; [exact E|]. cbn [page_events].
    assert (Lt : length (take k (drop (Z.to_nat after) (events state))) = k) by (rewrite length_take, length_drop; lia).
    split; [lia|]. intros Hlt. assert (Ne : take k (drop (Z.to_nat after) (events state)) <> []).
    { intros En. rewrite En in Lt. specialize (Hp Hlt). cbn in Lt. lia. }
    split; [done|by apply Hs].
Qed.
End Pages.

(** ** Scans of the outbox *)

Section Scans.
Context `{ConsensusBuild, Foundation.FoundationEnv, Hashes} {B : BlockCodec} {T : PoolTypes} {O : PoolOps} {J : JsonLaws} {R : ReceiptLaws}.
Context (legacy modern : TransactionCodec) {W : EquihashVerifier}.
Abbreviation reachable := (reachable legacy modern).

Definition chain_matches (chain : option WinnerChain) (key : WinnerKey) : Prop :=
  match chain with Some required => key_chain key = required | None => True end.

(** The winner at a place of the outbox, of a chain and a lifecycle. *)
Definition due (self : Semantic) (chain : option WinnerChain) (selected : Lifecycle -> bool) (i : Z) (w : WinnerState) : Prop :=
  0 <= i /\ exists key, winner_order self !! Z.to_nat i = Some key /\ winners self !! key = Some w /\
    chain_matches chain key /\ selected (lifecycle w) = true.

Lemma due_inj self chain selected i w w' : due self chain selected i w -> due self chain selected i w' -> w = w'.
Proof. intros (_ & k & K & Hw & _) (_ & k' & K' & Hw' & _). congruence. Qed.

Lemma lookup_enumerate {A} (l : list A) i x : enumerate l !! i = Some x <-> x.1 = Z.of_nat i /\ l !! i = Some x.2.
Proof.
  unfold enumerate. rewrite lookup_zip_with_Some. split.
  - intros (a & b & -> & Ha%lookup_seqZ & Hb). cbn. split; [lia|done].
  - intros [E Hx]. exists x.1, x.2. split_and!; [by destruct x| |done]. apply lookup_seqZ. apply lookup_lt_Some in Hx. lia.
Qed.

(** A segment of the numbered outbox that starts at [start]. *)
Definition segment (self : Semantic) (start : Z) (l : list (Z * WinnerKey)) : Prop := forall i x, l !! i = Some x ->
  x.1 = start + Z.of_nat i /\ winner_order self !! Z.to_nat x.1 = Some x.2.

Lemma segment_cons self start x l : segment self start (x :: l) <->
  (x.1 = start /\ winner_order self !! Z.to_nat start = Some x.2) /\ segment self (start + 1) l.
Proof.
  split.
  - intros S. split; [destruct (S 0%nat x eq_refl) as [E X]; rewrite Z.add_0_r in E; by rewrite E in X|].
    intros i y Hy. destruct (S (Datatypes.S i) y Hy) as [-> X]. split; [lia|done].
  - intros [[E X] S] [|i] y Hy; [injection Hy as <-; rewrite Z.add_0_r, E; done|]. destruct (S i y Hy) as [-> Y]. split; [lia|done].
Qed.

Lemma segment_range self (start : nat) before : segment self (Z.of_nat start) (drop start (take before (enumerate (winner_order self)))).
Proof.
  intros i x. rewrite lookup_drop, lookup_take_Some. intros [[E X]%lookup_enumerate _]. rewrite E, Nat2Z.id. split; [lia|done].
Qed.

Lemma chain_skip chain key : (if match chain with Some required => negb (bool_decide (key_chain key = required)) | None => false end
  then ~ chain_matches chain key else chain_matches chain key).
Proof. destruct chain as [c|]; cbn; [|done]. by case_bool_decide. Qed.

(** The first winner that is due between two places. *)
Definition first_due (self : Semantic) (chain : option WinnerChain) (selected : Lifecycle -> bool) (start stop : Z)
    (found : option (Z * WinnerState)) : Prop :=
  match found with
  | Some (i, w) => start <= i < stop /\ due self chain selected i w /\ forall j v, start <= j < i -> ~ due self chain selected j v
  | None => forall j v, start <= j < stop -> ~ due self chain selected j v
  end.

Lemma first_due_skip self chain selected start stop found : (forall v, ~ due self chain selected start v) ->
  first_due self chain selected (start + 1) stop found -> first_due self chain selected start stop found.
Proof.
  intros Hn. destruct found as [[i v]|]; cbn.
  - intros (Hi & D & Hm). split_and!; [lia|lia|done|]. intros j u Hj.
    destruct (decide (j = start)) as [->|Ne]; [apply Hn|apply Hm; lia].
  - intros Hf j u Hj. destruct (decide (j = start)) as [->|Ne]; [apply Hn|apply Hf; lia].
Qed.

Lemma due_here self chain selected i key w v : winner_order self !! Z.to_nat i = Some key -> winners self !! key = Some w ->
  due self chain selected i v -> chain_matches chain key /\ selected (lifecycle w) = true.
Proof. intros X Hw (_ & k & K & Hv & M & Se). rewrite X in K. injection K as <-. rewrite Hw in Hv. by injection Hv as <-. Qed.

(** The scan returns the first winner of the segment that it looks for. *)
Lemma scan_winners_exact state chain selected seq l : next_event_seq state = Ok seq ->
  (forall key, key ∈ winner_order (semantic state) -> is_Some (winners (semantic state) !! key)) ->
  forall start, 0 <= start -> segment (semantic state) start l ->
  exists found, scan_winners state chain selected l = Ok found /\
    first_due (semantic state) chain selected start (start + len l) found.
Proof.
  intros N Hk. induction l as [|[index key] l IH]; intros start Hs S; cbn [scan_winners].
  { exists None. split; [done|]. cbn. intros; lia. }
  apply segment_cons in S as [[E X] S]. cbn in E, X. subst index.
  destruct (IH (start + 1) ltac:(lia) S) as (found & Ef & Hf). clear IH.
  replace (start + 1 + len l) with (start + len ((start, key) :: l)) in Hf by (cbn; lia).
  destruct (Hk key) as [w Hw]; [by eapply list_elem_of_lookup_2|]. pose proof (chain_skip chain key) as Hc.
  destruct (match chain with Some _ => _ | None => _ end) in Hc |- *.
  { exists found. split; [done|]. apply first_due_skip; [|done]. intros v D. by destruct (due_here _ _ _ _ _ _ _ X Hw D). }
  rewrite N. cbn [obind]. rewrite Hw. cbn [ok_or obind]. destruct (selected (lifecycle w)) eqn:Se.
  - exists (Some (start, w)). split; [done|]. split_and!; [cbn; lia..| |intros; lia]. split; [lia|]. exists key. done.
  - exists found. split; [done|]. apply first_due_skip; [|done]. intros v D. destruct (due_here _ _ _ _ _ _ _ X Hw D). congruence.
Qed.

(** What the scans read of a reachable journal. *)
Lemma reachable_outbox h state : reachable h state ->
  poisoned state = false /\ (exists seq, next_event_seq state = Ok seq) /\ len (winner_order (semantic state)) <= MAX_RETAINED_WINNERS /\
  (forall key, key ∈ winner_order (semantic state) -> is_Some (winners (semantic state) !! key)).
Proof.
  intros (rs & Lg)%reachable_logged. pose proof (logged_sizes _ _ _ _ _ Lg) as ([_ Sl] & _).
  pose proof (logged_semantic _ _ _ _ _ Lg) as S. split_and!.
  - exact (logged_usable _ _ _ _ _ Lg).
  - unfold next_event_seq. rewrite (contiguous_last _ (logged_contiguous _ _ _ _ _ Lg)). cbn in Sl.
    rewrite checked_ok by (unfold MAX_JOURNAL_EVENTS in Sl; unfold U64_MAX; lia). by eexists.
  - exact (order_bounded _ _ _ _ S).
  - intros key. apply (order_exact _ _ _ _ S).
Qed.

Lemma scan_exact h state chain selected after before : reachable h state ->
  match after with Some i => 0 <= i < USIZE_MAX | None => True end -> 0 <= before ->
  let start := match after with Some i => i + 1 | None => 0 end in
  exists found, (let? start := scan_start after in
                 scan_winners state chain selected (scan_range (winner_order (semantic state)) start before)) = Ok found /\
    first_due (semantic state) chain selected start (Z.min before (len (winner_order (semantic state)))) found.
Proof.
  intros (U & (seq & N) & _ & Hk)%reachable_outbox Ha Hb start.
  assert (E : scan_start after = Ok start) by (destruct after; cbn; [by rewrite checked_ok by lia|done]).
  rewrite E. cbn [obind]. assert (Hs : 0 <= start) by (unfold start; destruct after; lia).
  pose proof (segment_range (semantic state) (Z.to_nat start) (Z.to_nat before)) as S. rewrite Z2Nat.id in S by lia.
  destruct (scan_winners_exact state chain selected seq _ N Hk start Hs S) as (found & Ef & Hf).
  exists found. split; [exact Ef|]. set (l := drop (Z.to_nat start) (take (Z.to_nat before) (enumerate (winner_order (semantic state))))) in *.
  assert (Ll : len l = Z.max 0 (Z.min before (len (winner_order (semantic state))) - start)).
  { unfold l, enumerate. rewrite length_drop, length_take, length_zip_with, length_seqZ. lia. }
  destruct found as [[i w]|]; cbn in *.
  - destruct Hf as (Hi & D & Hm). split_and!; [lia|lia|done|done].
  - intros j v Hj. apply Hf. lia.
Qed.

(** The reconciliation scans skip nothing.  Among the winners of the wanted
    chain after a place and before a bound, the retry scan returns the first that
    requires a submission, the maturity scan the first of the wanted maturity; they
    return nothing exactly when there is none. *)
Theorem outbox_scans_exact h state after before chain matured : reachable h state ->
  match after with Some i => 0 <= i < USIZE_MAX | None => True end -> 0 <= before ->
  let start := match after with Some i => i + 1 | None => 0 end in
  let stop := Z.min before (len (winner_order (semantic state))) in
  (exists found, next_submission_required_winner_state_before_for_chain state after before chain = Ok found /\
     first_due (semantic state) chain requires_submission start stop found) /\
  (exists found, next_winner_state_by_maturity_before state after matured before chain = Ok found /\
     first_due (semantic state) chain (fun l => match matured with Some m => Bool.eqb m (is_matured l) | None => true end) start stop found).
Proof.
  intros Re Ha Hb start stop. pose proof (reachable_outbox _ _ Re) as (U & _).
  unfold next_submission_required_winner_state_before_for_chain, next_winner_state_by_maturity_before, ensure_usable. rewrite U. cbn [negb require obind].
  split; by apply (scan_exact h).
Qed.

(** ** First attempts *)

Lemma first_attempt_exact self seq chain l : len (winner_order self) <= MAX_RETAINED_WINNERS ->
  (forall key, key ∈ winner_order self -> is_Some (winners self !! key)) ->
  forall start, 0 <= start -> segment self start l ->
  exists next found, first_attempt_loop self seq chain start l = (next, Ok (found, next <? len (winner_order self))) /\
    start <= next <= start + len l /\ (l <> [] -> start < next) /\
    first_due self chain is_pending start next found /\ (forall i w, found = Some (i, w) -> next = i + 1).
Proof.
  intros Hm Hk. induction l as [|[index key] l IH]; intros start Hs S; cbn [first_attempt_loop].
  { exists start, None. split_and!; [done|lia|cbn; lia|done|cbn; intros; lia|done]. }
  apply segment_cons in S as [[E X] S]. cbn in E, X. subst index.
  destruct (IH (start + 1) ltac:(lia) S) as (next & found & Ef & Hn & _ & Hf & Hi). clear IH.
  destruct (Hk key) as [w Hw]; [by eapply list_elem_of_lookup_2|]. pose proof (chain_skip chain key) as Hc.
  pose proof (lookup_lt_Some _ _ _ X) as Lt. unfold MAX_RETAINED_WINNERS in Hm.
  rewrite checked_ok by (unfold USIZE_MAX, U64_MAX; lia).
  destruct (match chain with Some _ => _ | None => _ end) in Hc |- *.
  { exists next, found. split_and!; [done|lia|cbn; lia|lia| |done]. apply first_due_skip; [|done].
    intros v D. by destruct (due_here _ _ _ _ _ _ _ X Hw D). }
  rewrite Hw. destruct (is_pending (lifecycle w)) eqn:Se.
  - exists (start + 1), (Some (start, w)). split_and!; [done|lia|cbn; lia|lia| |by intros ? ? [= <- <-]].
    split_and!; [lia|lia| |intros; lia]. split; [lia|]. exists key. done.
  - exists next, found. split_and!; [done|lia|cbn; lia|lia| |done]. apply first_due_skip; [|done].
    intros v D. destruct (due_here _ _ _ _ _ _ _ X Hw D). congruence.
Qed.

(** The first-attempt cursor passes over no pending winner.  Each call inspects
    at most 256 places from the cursor on, moves the cursor forward while there is
    a place left, returns the first pending winner of the wanted chain among the
    places that the cursor has passed, which is then the last of them, and says
    whether places are left. *)
Theorem first_attempts_skip_nothing h state next chain : reachable h state -> 0 <= next ->
  let size := len (winner_order (semantic state)) in
  exists next' found, next_first_attempt_winner_state_for_chain state next chain = (next', Ok (found, next' <? size)) /\
    next <= next' <= next + 256 /\ (next < size -> next < next' <= size) /\
    first_due (semantic state) chain is_pending next next' found /\ (forall i w, found = Some (i, w) -> next' = i + 1).
Proof.
  intros (U & (seq & N) & Hm & Hk)%reachable_outbox Hn size.
  unfold next_first_attempt_winner_state_for_chain, ensure_usable. rewrite U, N. cbn [negb require].
  set (l := take MAX_INSPECTED_WINNERS (drop (Z.to_nat next) (enumerate (winner_order (semantic state))))).
  assert (S : segment (semantic state) next l).
  { pose proof (segment_range (semantic state) (Z.to_nat next) (Z.to_nat next + MAX_INSPECTED_WINNERS)) as S.
    rewrite <- take_drop_commute, Z2Nat.id in S by lia. done. }
  destruct (first_attempt_exact (semantic state) seq chain l Hm Hk next Hn S) as (next' & found & E & Hb & Hp & Hf & Hi).
  exists next', found. assert (Ll : len l = Z.min 256 (Z.max 0 (size - next))).
  { unfold l, enumerate. rewrite length_take, length_drop, length_zip_with, length_seqZ. unfold MAX_INSPECTED_WINNERS, size. lia. }
  split_and!; [done|lia|lia| |done|done]. intros Hlt. split; [|lia]. apply Hp. intros El. rewrite El in Ll. cbn in Ll. lia.
Qed.
End Scans.

(** ** The digest chain *)

(** What the digests rely on of JSON: an unsigned record determines its fields. *)
Class UnsignedLaws `{O : PoolOps} : Prop :=
  unsigned_injective e b d e' b' d' : unsigned_json e b d = unsigned_json e' b' d' -> (e, b, d) = (e', b', d').

Section Digests.
Context `{ConsensusBuild, Foundation.FoundationEnv, Hashes} {B : BlockCodec} {T : PoolTypes} {O : PoolOps} {X : UnsignedLaws}.
Context (legacy modern : TransactionCodec) {W : EquihashVerifier}.
Abbreviation newline := Byte.x0a.
Abbreviation replay_record := (replay_record legacy modern).

(** The lines of a file, and the records on the lines after the first. *)
Fixpoint split_lines (l : list byte) : list (list byte) :=
  match l with
  | [] => [[]]
  | b :: l =>
      if Byte.eqb b newline then [] :: split_lines l
      else match split_lines l with [] => [[b]] | line :: lines => (b :: line) :: lines end
  end.
Definition parsed (lines : list (list byte)) : list PersistedEventRecord :=
  omap (fun line => match parse_record line with Parsed r => Some r | _ => None end) lines.
Definition file_records (contents : list byte) : list PersistedEventRecord := parsed (tail (split_lines contents)).

(** The strings that are hashed for a file. *)
Definition preimage (domain json : list byte) : list byte := domain ++ rev (to_le 8 (len json)) ++ json.
Definition record_preimage (r : PersistedEventRecord) : list byte :=
  preimage EVENT_DIGEST_DOMAIN (unsigned_json (record_event r) (winner_blocks r) (previous_digest r)).
Definition header_preimage (h : JournalHeader) : list byte := preimage HEADER_DIGEST_DOMAIN (header_json h).
Definition hashed (h : JournalHeader) (contents : list byte) : list (list byte) :=
  header_preimage h :: (record_preimage <$> file_records contents).

Lemma newline_eqb b : Byte.eqb b newline = true <-> b = newline.
Proof. split; [apply Byte.byte_dec_bl|by intros ->]. Qed.
Lemma split_no_newline l : newline ∉ l -> split_lines l = [l].
Proof.
  induction l as [|b l IH]; [done|]. intros [Hb Hl]%not_elem_of_cons. cbn. destruct (Byte.eqb b newline) eqn:E.
  - apply newline_eqb in E. congruence.
  - by rewrite IH.
Qed.
Lemma split_newline l rest : newline ∉ l -> split_lines (l ++ newline :: rest) = l :: split_lines rest.
Proof.
  induction l as [|b l IH]; [done|]. intros [Hb Hl]%not_elem_of_cons. cbn. destruct (Byte.eqb b newline) eqn:E.
  - apply newline_eqb in E. congruence.
  - by rewrite IH.
Qed.

(** What a read has returned, for any file. *)
Lemma position_inv l : match position l with
  | Some k => exists rest, l = take k l ++ newline :: rest /\ newline ∉ take k l /\ drop (S k) l = rest
  | None => newline ∉ l
  end.
Proof.
  induction l as [|b l IH]; cbn; [apply not_elem_of_nil|]. destruct (Byte.eqb b newline) eqn:E.
  - apply newline_eqb in E as ->. exists l. cbn. split_and!; [done|apply not_elem_of_nil|done].
  - assert (Ne : newline <> b) by (intros <-; cbn in E; congruence). destruct (position l) as [k|]; cbn.
    + destruct IH as (rest & El & Hn & Ed). exists rest. split_and!; [by rewrite <- El|by apply not_elem_of_cons|done].
    + by apply not_elem_of_cons.
Qed.

Lemma read_line_inv n reader : forall line c res reader', delivers reader c -> read_line_loop reader n line = Ok (res, reader') ->
  match res with
  | None => line = [] /\ c = []
  | Some l =>
      if terminated l
      then exists k rest, c = k ++ newline :: rest /\ newline ∉ k /\ line_bytes l = line ++ k /\ delivers reader' rest
      else newline ∉ c /\ line_bytes l = line ++ c
  end.
Proof.
  induction reader as [|[|b bs] reader IH]; intros line c res reader' [N <-]; cbn [read_line_loop concat].
  - destruct line as [|x line]; [by intros [= <- <-]|]. intros (m & _ & [= <- <-])%obind_Ok. cbn.
    split; [apply not_elem_of_nil|by rewrite app_nil_r].
  - by apply Forall_cons in N as [[] _].
  - apply Forall_cons in N as [_ N]. pose proof (position_inv (b :: bs)) as P. destruct (position (b :: bs)) as [k|].
    + intros (m & _ & Y)%obind_Ok. destruct (m >? MAX_JOURNAL_RECORD_BYTES); [done|]. apply obind_Ok in Y as (m' & _ & [= <- <-]).
      destruct P as (rest & El & Hn & Ed). cbn [terminated line_bytes]. exists (take k (b :: bs)), (rest ++ concat reader).
      split_and!; [by rewrite El at 1; rewrite <- app_assoc|done|done|].
      rewrite <- Ed. by apply (delivers_consume (drop (S k) (b :: bs))).
    + intros (m & _ & Y)%obind_Ok. destruct (m >? MAX_JOURNAL_RECORD_BYTES); [done|]. rewrite firstn_all in Y.
      specialize (IH _ (concat reader) _ _ (conj N eq_refl) Y). destruct res as [l|]; [|destruct IH as [E _]; by destruct line].
      destruct (terminated l).
      * destruct IH as (k & rest & -> & Hk & El & D). exists ((b :: bs) ++ k), rest. rewrite <- !app_assoc in *.
        split_and!; [done| |done|done]. by apply not_elem_of_app.
      * destruct IH as [Hc El]. rewrite <- app_assoc in El. split; [by apply not_elem_of_app|done].
Qed.

(** A sequence of replayed records, whatever the length of their lines. *)
Inductive replayed (self : Replay) : list PersistedEventRecord -> Replay -> Prop :=
| replayed_nil : replayed self [] self
| replayed_snoc rs mid r n final : replayed self rs mid -> replay_record mid r n = Ok final -> replayed self (rs ++ [r]) final.

Lemma replayed_cons self r n mid rs final : replay_record self r n = Ok mid -> replayed mid rs final -> replayed self (r :: rs) final.
Proof.
  intros X1. induction 1 as [|rs m2 r2 n2 final R IH X2].
  - apply (replayed_snoc self [] self r n); [constructor|done].
  - by apply (replayed_snoc self (r :: rs) m2 r2 n2).
Qed.

Lemma replay_lines_inv fuel contents : forall reader c ln self final repaired, delivers reader c ->
  replay_lines legacy modern fuel contents reader ln self = Ok (final, repaired) ->
  exists rs, replayed self rs final /\ forall r, r ∈ rs -> r ∈ parsed (split_lines c).
Proof.
  induction fuel as [|fuel IH]; intros reader c ln self final repaired D; cbn [replay_lines]; [done|].
  intros ([line reader'] & Rd & Y)%obind_Ok. apply (read_line_inv _ _ _ _ _ _ D) in Rd. destruct line as [l|].
  - destruct (terminated l) eqn:Tm.
    + destruct Rd as (k & rest & -> & Hk & El & D'). cbn in El. subst k. apply obind_Ok in Y as (r & Pr & (mid & X1 & (ln' & _ & Y)%obind_Ok)%obind_Ok).
      destruct (parse_record (line_bytes l)) as [r'| |] eqn:Ep; [|done..]. injection Pr as ->.
      destruct (IH _ _ _ _ _ _ D' Y) as (rs & R & Hin). exists (r :: rs). split; [by eapply replayed_cons|].
      rewrite split_newline by done. unfold parsed in *. cbn. rewrite Ep. intros x [->|Hx]%elem_of_cons; [by left|right; by apply Hin].
    + destruct Rd as [Hc El]. cbn in El. subst c. unfold recover_tail in Y. rewrite split_no_newline by done. unfold parsed. cbn.
      destruct (parse_record (line_bytes l)) as [r| |] eqn:Ep; [|injection Y as <- <-; exists []; split; [constructor|]; by intros r Hr%not_elem_of_nil|done].
      apply obind_Ok in Y as (mid & X1 & [= <- <-]). exists [r]. split; [eapply (replayed_snoc _ []); [constructor|done]|].
      intros x [->|Hx%not_elem_of_nil]%elem_of_cons; [by left|done].
  - destruct (complete_bytes self =? len contents); [|done]. injection Y as <- <-. exists []. split; [constructor|]. by intros r Hr%not_elem_of_nil.
Qed.

(** What one replayed record has fixed. *)
Lemma replay_record_fixed self r n final : replay_record self r n = Ok final ->
  record_seq r = event_seq (record_event r) /\ previous_digest r = replay_digest self /\
  digest r = sha256 (record_preimage r) /\ replay_digest final = digest r /\
  replay_events final = replay_events self ++ [record_event r] /\
  apply_record legacy modern (replay_semantic self) r = Ok (replay_semantic final).
Proof.
  unfold PoolJournal.replay_record. intros ([] & V & (next & A & ([] & _ & (m & _ & (k & _ & (c & _ & [= <-])%obind_Ok)%obind_Ok)%obind_Ok)%obind_Ok)%obind_Ok)%obind_Ok.
  cbn. unfold validate_replayed_record in V. apply obind_Ok in V as (e & _ & V). destruct (negb (record_seq r =? e)); [done|].
  destruct (Z.eqb_spec (event_seq (record_event r)) (record_seq r)) as [Es|]; [|done]. cbn [negb] in V.
  apply obind_Ok in V as ([] & _ & ([] & P%require_Ok%bool_decide_eq_true & (d & D & Q%require_Ok%bool_decide_eq_true)%obind_Ok)%obind_Ok).
  unfold digest_event, digest_canonical in D. apply obind_Ok in D as (l & [-> _]%ok_or_Ok%checked_Some & [= <-]). done.
Qed.

Lemma preimage_inj domain a b : preimage domain a = preimage domain b -> a = b.
Proof.
  unfold preimage. intros E%app_inv_head. apply app_inj_1 in E as [_ E]; [done|]. by rewrite !length_rev, !length_le_split.
Qed.
Lemma domains_differ a b : preimage HEADER_DIGEST_DOMAIN a <> preimage EVENT_DIGEST_DOMAIN b.
Proof. intros E. apply (f_equal (fun l => l !! 27%nat)) in E. cbn in E. done. Qed.

Lemma elem_of_preimage_snoc h rs r : record_preimage r ∈ header_preimage h :: (record_preimage <$> rs ++ [r]).
Proof. right. rewrite fmap_app. apply elem_of_app. right. by left. Qed.

(** Two sequences with one last digest are the same, or hash two strings alike. *)
Lemma replayed_binds h1 h2 self1 self2 rs1 rs2 final1 final2 :
  replay_digest self1 = sha256 (header_preimage h1) -> replay_digest self2 = sha256 (header_preimage h2) ->
  replayed self1 rs1 final1 -> replayed self2 rs2 final2 -> replay_digest final1 = replay_digest final2 ->
  (header_preimage h1 = header_preimage h2 /\ rs1 = rs2) \/
  exists x y, x ∈ header_preimage h1 :: (record_preimage <$> rs1) /\ y ∈ header_preimage h2 :: (record_preimage <$> rs2) /\
    x <> y /\ sha256 x = sha256 y.
Proof.
  intros Hh1 Hh2 R1. revert rs2 final2. induction R1 as [|rs1 mid1 r1 n1 final1 R1 IH X1]; intros rs2 final2 R2 E.
  - destruct R2 as [|rs2 mid2 r2 n2 final2 R2 X2].
    + destruct (decide (header_preimage h1 = header_preimage h2)) as [Q|Q]; [by left|]. right.
      exists (header_preimage h1), (header_preimage h2). split_and!; [by left|by left|done|congruence].
    + right. apply replay_record_fixed in X2 as (_ & _ & D & F & _). exists (header_preimage h1), (record_preimage r2).
      split_and!; [by left|apply elem_of_preimage_snoc|apply domains_differ|congruence].
  - apply replay_record_fixed in X1 as (S1 & P1 & D1 & F1 & _). destruct R2 as [|rs2 mid2 r2 n2 final2 R2 X2].
    + right. exists (record_preimage r1), (header_preimage h2). split_and!; [apply elem_of_preimage_snoc|by left| |congruence].
      intros Q. symmetry in Q. by apply domains_differ in Q.
    + apply replay_record_fixed in X2 as (S2 & P2 & D2 & F2 & _).
      destruct (decide (record_preimage r1 = record_preimage r2)) as [Q|Q].
      2: { right. exists (record_preimage r1), (record_preimage r2). split_and!; [apply elem_of_preimage_snoc..|done|congruence]. }
      apply preimage_inj, unsigned_injective in Q. injection Q as Qe Qb Qp.
      destruct (IH rs2 mid2 R2) as [[Eh ->]|(x & y & Hx & Hy & Ne & Hs)]; [congruence| |].
      * left. split; [done|]. do 2 f_equal. destruct r1, r2. cbn in *. congruence.
      * right. exists x, y. rewrite !fmap_app, !app_comm_cons. split_and!; [apply elem_of_app; by left..|done|done].
Qed.

(** The same records give the same events and the same semantic state. *)
Lemma replayed_fun self1 self2 rs final1 final2 :
  (replay_events self1, replay_semantic self1) = (replay_events self2, replay_semantic self2) ->
  replayed self1 rs final1 -> replayed self2 rs final2 ->
  (replay_events final1, replay_semantic final1) = (replay_events final2, replay_semantic final2).
Proof.
  intros E0 R1. revert final2. induction R1 as [|rs mid1 r n1 final1 R1 IH X1]; intros final2 R2.
  - inversion R2 as [|rs' ? ? ? ? ? ? E]; [congruence|]. by destruct rs'.
  - inversion R2 as [E|rs' mid2 r' n2 ? R2' X2 E]; [by destruct rs|]. apply app_inj_tail in E as [-> ->]. subst.
    specialize (IH _ R2'). injection IH as Ev Se. apply replay_record_fixed in X1 as (_ & _ & _ & _ & -> & A1).
    apply replay_record_fixed in X2 as (_ & _ & _ & _ & -> & A2). rewrite Ev, Se in *. congruence.
Qed.

(** What an opened file has given, for any file. *)
Lemma open_inv i a b c d n buffers contents h state : delivers buffers contents ->
  open_existing legacy modern i a b c d n buffers = Ok (h, state) ->
  exists size rs final, let self := mkReplay size (sha256 (header_preimage h)) [] empty_semantic in
    replayed self rs final /\ (forall r, r ∈ rs -> r ∈ file_records contents) /\
    last_digest state = replay_digest final /\ events state = replay_events final /\ semantic state = replay_semantic final.
Proof.
  intros D. unfold open_existing. intros ([] & _ & Y)%obind_Ok. destruct (_ =? 0) in Y; [done|]. destruct (_ >? _) in Y; [done|].
  apply obind_Ok in Y as ([line reader] & Rd & (l & ->%ok_or_Ok & Y)%obind_Ok). apply (read_line_inv _ _ _ _ _ _ D) in Rd.
  cbn in Rd. destruct (terminated l); [|done]. cbn [negb] in Y. destruct Rd as (k & rest & -> & Hk & El & D').
  apply obind_Ok in Y as (h' & _ & ([] & _ & ([] & _ & (dg & Dg & ([final repaired] & Rl & [= <- <-])%obind_Ok)%obind_Ok)%obind_Ok)%obind_Ok).
  unfold digest_header, digest_canonical in Dg. apply obind_Ok in Dg as (sz & [-> _]%ok_or_Ok%checked_Some & [= <-]).
  destruct (replay_lines_inv _ _ _ _ _ _ _ _ D' Rl) as (rs & R & Hin). exists (consumed l), rs, final. split_and!; try done.
  unfold file_records. rewrite split_newline by done. done.
Qed.

(** C20: the last digest authenticates the journal.  When two files, whoever wrote
    them, both open and end in the same digest, then they have the same header, the
    same events and the same jobs, shares and winners; or the two files exhibit a
    SHA-256 collision among the strings that are hashed for them. *)
Theorem last_digest_authenticates {J : JsonLaws} i a b c d n i' a' b' c' d' n' buffers1 buffers2 contents1 contents2 h1 h2 state1 state2 :
  delivers buffers1 contents1 -> delivers buffers2 contents2 ->
  open_existing legacy modern i a b c d n buffers1 = Ok (h1, state1) ->
  open_existing legacy modern i' a' b' c' d' n' buffers2 = Ok (h2, state2) ->
  last_digest state1 = last_digest state2 ->
  (h1 = h2 /\ events state1 = events state2 /\ semantic state1 = semantic state2) \/
  exists x y, x ∈ hashed h1 contents1 /\ y ∈ hashed h2 contents2 /\ x <> y /\ sha256 x = sha256 y.
Proof.
  intros D1 D2 (s1 & rs1 & f1 & R1 & I1 & L1 & E1 & M1)%(open_inv _ _ _ _ _ _ _ _ _ _ D1)
    (s2 & rs2 & f2 & R2 & I2 & L2 & E2 & M2)%(open_inv _ _ _ _ _ _ _ _ _ _ D2) El. rewrite L1, L2 in El.
  pose proof (fun A1 A2 => replayed_binds h1 h2 _ _ _ _ _ _ A1 A2 R1 R2 El) as Bd.
  destruct (Bd eq_refl eq_refl) as [[Eh ->]|(x & y & Hx & Hy & Ne & Hs)].
  - left. apply preimage_inj in Eh. pose proof (header_roundtrip h1) as Rh. rewrite Eh, header_roundtrip in Rh. injection Rh as ->.
    pose proof (fun A => replayed_fun _ _ _ _ _ A R1 R2) as F. specialize (F eq_refl). injection F as F1 F2. rewrite E1, E2, M1, M2. done.
  - right. exists x, y. unfold hashed. split_and!; [| |done|done].
    + apply elem_of_cons in Hx as [->|(r & -> & Hr)%list_elem_of_fmap]; [by left|]. right. apply list_elem_of_fmap_2. by apply I1.
    + apply elem_of_cons in Hy as [->|(r & -> & Hr)%list_elem_of_fmap]; [by left|]. right. apply list_elem_of_fmap_2. by apply I2.
Qed.
End Digests.

Lemma reopen_open `{ConsensusBuild, Foundation.FoundationEnv, Hashes} {B : BlockCodec} {T : PoolTypes} {O : PoolOps}
    (legacy modern : TransactionCodec) {W : EquihashVerifier} h buffers :
  reopen legacy modern h buffers = open_existing legacy modern (backend_instance h) (wcash_genesis h) (zcash_genesis h)
    (wcash_payout_commitment h) (zcash_payout_commitment h) (chain_id h) buffers.
Proof. reflexivity. Qed.

(** ** An example *)

#[local] Existing Instance example_types.
#[local] Existing Instance example_ops.
#[local] Existing Instance example_json.

#[export] Instance example_pages : PageLaws (O := example_ops).
Proof. split; by_eval. Qed.
#[export] Instance example_unsigned : UnsignedLaws (O := example_ops).
Proof.
  intros e b d e' b' d' E%text_inj. injection E as E1 E2 E3. apply (inj encode) in E1, E2, E3.
  unfold persisted_pair in E2. destruct b, b'. cbn in *. congruence.
Qed.

Lemma pages_deliver_all_witness : read_all 3 example_state2 0 1 = Ok (drop (Z.to_nat 0) (events example_state2)).
Proof.
  assert (E : length (events example_state2) = 2%nat) by (vm_compute; reflexivity).
  destruct (pages_deliver_all (H := wcash_build) (H0 := Subsidies.example_env) (H1 := example_hashes) (B := example_pool_codec)
    (W := example_verifier) example_codec example_codec _ _ 0 1 example_state2_reachable) as [X _]; [by_eval|rewrite E; by_eval|].
  rewrite E in X. exact X.
Defined.

Lemma outbox_scans_exact_witness : exists found,
  next_submission_required_winner_state_before_for_chain example_state2 None 5 (Some Wcash) = Ok found /\
  first_due (semantic example_state2) (Some Wcash) requires_submission 0 (Z.min 5 (len (winner_order (semantic example_state2)))) found.
Proof.
  destruct (outbox_scans_exact (H := wcash_build) (H0 := Subsidies.example_env) (H1 := example_hashes) (B := example_pool_codec)
    (W := example_verifier) example_codec example_codec _ _ None 5 (Some Wcash) None example_state2_reachable I ltac:(lia)) as [X _].
  exact X.
Defined.

Lemma first_attempts_skip_nothing_witness : exists next' found,
  next_first_attempt_winner_state_for_chain example_state2 0 None = (next', Ok (found, next' <? len (winner_order (semantic example_state2)))) /\
  first_due (semantic example_state2) None is_pending 0 next' found.
Proof.
  destruct (first_attempts_skip_nothing (H := wcash_build) (H0 := Subsidies.example_env) (H1 := example_hashes) (B := example_pool_codec)
    (W := example_verifier) example_codec example_codec _ _ 0 None example_state2_reachable ltac:(lia)) as (next' & found & E & _ & _ & F & _).
  exists next', found. split; [exact E|exact F].
Defined.

Lemma example_state1_delivered : delivers [file example_state1] (file example_state1) /\
  delivers [take 300 (file example_state1); drop 300 (file example_state1)] (file example_state1).
Proof.
  assert (L : (300 <? length (file example_state1))%nat = true) by (vm_compute; reflexivity). apply Nat.ltb_lt in L.
  split; [|apply delivers_split; lia]. split; [|apply app_nil_r]. apply Forall_singleton. intros E. rewrite E in L. cbn in L. lia.
Qed.

Lemma last_digest_authenticates_witness :
  (example_pool_header = example_pool_header /\ events example_state1 = events example_state1 /\
     semantic example_state1 = semantic example_state1) \/
  exists x y, x ∈ hashed example_pool_header (file example_state1) /\ y ∈ hashed example_pool_header (file example_state1) /\ x <> y /\
    sha256 (Hashes := example_hashes) x = sha256 (Hashes := example_hashes) y.
Proof.
  destruct example_state1_delivered as [D D']. destruct (reachable_logged _ _ _ _ example_state1_reachable) as (rs & Lg).
  pose proof (reopen_clean _ _ _ rs _ _ Lg D) as R. pose proof (reopen_clean _ _ _ rs _ _ Lg D') as R'. rewrite reopen_open in R, R'.
  exact (last_digest_authenticates (H := wcash_build) (H0 := Subsidies.example_env) (H1 := example_hashes) (B := example_pool_codec)
    (W := example_verifier) example_codec example_codec _ _ _ _ _ _ _ _ _ _ _ _ _ _ _ _ _ _ example_state1 example_state1 D D' R R' eq_refl).
Defined.
