(* ===== verification/HeaderCodec.v ===== *)
(** * The wire format of headers and blocks

    [zebra-chain/src/work/equihash.rs] and [zebra-chain/src/block/serialize.rs]:
    the three kinds of solution of a header, of which the AuxPoW witness of
    Wcash has a variable length and is announced by a header version of its own;
    headers, counted headers and blocks.

    The format of transactions is a parameter. *)

From S2P Require Import Prelude Networks AuxCodec.
Import CompactSize Network.

Definition SOLUTION_SIZE : Z := 1344.
Definition REGTEST_SOLUTION_SIZE : Z := 36.
Definition WCASH_BLOCK_WIRE_VERSION : Z := 0xd7430001.
Definition MAX_WCASH_AUXPOW_BYTES : Z := 256 * 1024.
Definition ZCASH_BLOCK_VERSION : Z := 4.
Definition MAX_BLOCK_BYTES : Z := 2000000.
Definition MAX_U8_ALLOCATION : Z := MAX_PROTOCOL_MESSAGE_LEN - 5.

(** The errors of the parsers. *)
Inductive ParseError :=
| Io (e : SerializationError)
| Parse (message : string).

Definition io {A : Type} (m : outcome SerializationError A) : outcome ParseError A := map_err Io m.

(** [read_exact]. *)
Definition read_exact (n : Z) (bytes : list byte) : outcome ParseError (list byte * list byte) :=
  if n <=? len bytes then Ok (take (Z.to_nat n) bytes, drop (Z.to_nat n) bytes) else Err (Io UnexpectedEof).

(** ** Solutions *)

Module Solution.

(** [enum Solution]. *)
Inductive Solution := Common (bytes : list byte) | Regtest (bytes : list byte) | WcashAux (bytes : list byte).

(** [compact_size_len]. *)
Definition compact_size_len (value : Z) : Z := if value <=? 252 then 1 else if value <=? 65535 then 3 else 5.

Definition INPUT_LENGTH : Z := 4 + 32 * 3 + 4 * 2.
Definition SERIALIZED_SIZE : Z := 3 + SOLUTION_SIZE.
Definition REGTEST_SERIALIZED_SIZE : Z := 1 + REGTEST_SOLUTION_SIZE.
Definition WCASH_MAX_SERIALIZED_SIZE : Z := compact_size_len MAX_WCASH_AUXPOW_BYTES + MAX_WCASH_AUXPOW_BYTES.

(** [Solution::value]. *)
Definition value (self : Solution) : list byte :=
  match self with Common solution => solution | Regtest solution => solution | WcashAux solution => solution end.

(** [Solution::serialized_len] and [Solution::serialized_size]. *)
Definition serialized_len (self : Solution) : Z := compact_size_len (len (value self)) + len (value self).
Definition serialized_size (regtest_genesis : list byte) (network : Network) : Z :=
  if uses_wcash_consensus network then WCASH_MAX_SERIALIZED_SIZE
  else if match network with Mainnet => false | Testnet params => is_regtest_parameters regtest_genesis params end
  then REGTEST_SERIALIZED_SIZE else SERIALIZED_SIZE.

(** [Solution::from_bytes] and [Solution::for_wcash]. *)
Definition from_bytes (solution : list byte) : outcome ParseError Solution :=
  if len solution =? SOLUTION_SIZE then Ok (Common solution)
  else if len solution =? REGTEST_SOLUTION_SIZE then Ok (Regtest solution)
  else Err (Parse "incorrect equihash solution size").
Definition for_wcash (bytes : list byte) : outcome ParseError Solution :=
  if len bytes >? MAX_WCASH_AUXPOW_BYTES then Err (Parse "Wcash AuxPoW witness exceeds the consensus size limit")
  else Ok (WcashAux bytes).

(** [Solution::as_wcash] and [Solution::for_proposal_on]. *)
Definition as_wcash (self : Solution) : option (list byte) :=
  match self with WcashAux solution => Some solution | Common _ | Regtest _ => None end.

(** [zcash_deserialize_bytes_external_count]. *)
Definition bytes_external_count (external_count : Z) (bytes : list byte) : outcome ParseError (list byte * list byte) :=
  do? require (negb (external_count >? MAX_U8_ALLOCATION)) (Parse "Byte vector longer than MAX_U8_ALLOCATION") in
  read_exact external_count bytes.

(** [Solution::zcash_deserialize_for_version]. *)
Definition zcash_deserialize_for_version (header_version : Z) (bytes : list byte) : outcome ParseError (Solution * list byte) :=
  let? ' (n, bytes) := io (deserialize_message bytes) in
  let maximum := if header_version =? WCASH_BLOCK_WIRE_VERSION then MAX_WCASH_AUXPOW_BYTES else SOLUTION_SIZE in
  do? require (negb (n >? maximum)) (Parse "proof solution exceeds its version-specific size limit") in
  let? ' (solution, bytes) := bytes_external_count n bytes in
  let? solution := if header_version =? WCASH_BLOCK_WIRE_VERSION then for_wcash solution else from_bytes solution in
  Ok (solution, bytes).

(** [impl ZcashSerialize for Solution]: [zcash_serialize_bytes]. *)
Definition zcash_serialize (self : Solution) : outcome ParseError (list byte) :=
  let? n := io (message_try_from (len (value self))) in
  let? prefix := serialize_message n in
  Ok (prefix ++ value self).
End Solution.
Import Solution(Solution, Common, Regtest, WcashAux).

(** ** Headers *)

Module Header.

(** [struct Header]; the time is in seconds. *)
Record Header := mkHeader {
  version : Z;
  previous_block_hash : list byte;
  merkle_root : list byte;
  commitment_bytes : list byte;
  time : Z;
  difficulty_threshold : Z;
  nonce : list byte;
  solution : Solution;
}.

(** [check_version]. *)
Definition check_version (version : Z) : outcome ParseError unit :=
  if version =? WCASH_BLOCK_WIRE_VERSION then Ok tt
  else if negb (Z.shiftr version 31 =? 0) then Err (Parse "high bit was set in version field")
  else if version <? ZCASH_BLOCK_VERSION then Err (Parse "version must be at least 4")
  else Ok tt.

(** [impl ZcashSerialize for Header]; [expect] on the conversion of the time. *)
Definition zcash_serialize (self : Header) : outcome ParseError (list byte) :=
  do? check_version (version self) in
  let? time := expect (u32_checked (time self)) in
  let? solution := Solution.zcash_serialize (solution self) in
  Ok (to_le 4 (version self) ++ previous_block_hash self ++ merkle_root self ++ commitment_bytes self ++
      to_le 4 time ++ to_le 4 (difficulty_threshold self) ++ nonce self ++ solution).

(** [impl ZcashDeserialize for Header]. *)
Definition zcash_deserialize (bytes : list byte) : outcome ParseError (Header * list byte) :=
  let? ' (version, bytes) := io (read_le 4 bytes) in
  do? check_version version in
  let? ' (previous_block_hash, bytes) := read_exact 32 bytes in
  let? ' (merkle_root, bytes) := read_exact 32 bytes in
  let? ' (commitment_bytes, bytes) := read_exact 32 bytes in
  let? ' (time, bytes) := io (read_le 4 bytes) in
  let? ' (difficulty_threshold, bytes) := io (read_le 4 bytes) in
  let? ' (nonce, bytes) := read_exact 32 bytes in
  let? ' (solution, bytes) := Solution.zcash_deserialize_for_version version bytes in
  Ok (mkHeader version previous_block_hash merkle_root commitment_bytes time difficulty_threshold nonce solution, bytes).

(** [Header::serialized_len] and [Header::serialized_size]. *)
Definition serialized_len (self : Header) : Z := Solution.INPUT_LENGTH + 32 + Solution.serialized_len (solution self).
Definition serialized_size (regtest_genesis : list byte) (network : Network) : Z :=
  Solution.INPUT_LENGTH + 32 + Solution.serialized_size regtest_genesis network.

(** [impl ZcashSerialize] and [ZcashDeserialize] for [CountedHeader]. *)
Definition counted_serialize (self : Header) : outcome ParseError (list byte) :=
  let? header := zcash_serialize self in
  let? count := serialize_message 0 in
  Ok (header ++ count).
Definition counted_deserialize (bytes : list byte) : outcome ParseError (Header * list byte) :=
  let? ' (header, bytes) := zcash_deserialize bytes in
  let? ' (_, bytes) := io (deserialize_message bytes) in
  Ok (header, bytes).
End Header.
Import Header(Header, version, previous_block_hash, merkle_root, commitment_bytes, time, difficulty_threshold, nonce, solution).

(** ** Blocks *)

Module BlockCodec.
Section Blocks.
Context {Tx : Type}.
(** The codec of [Transaction]. *)
Context (tx_serialize : Tx -> list byte) (tx_deserialize : list byte -> outcome ParseError (Tx * list byte)).

Definition MIN_TRANSPARENT_INPUT_SIZE : Z := 32 + 4 + 4 + 1.
Definition MIN_TRANSPARENT_OUTPUT_SIZE : Z := 8 + 1.
Definition MIN_TRANSPARENT_TX_SIZE : Z := MIN_TRANSPARENT_INPUT_SIZE + 4 + MIN_TRANSPARENT_OUTPUT_SIZE.

(** [impl TrustedPreallocate for Transaction]. *)
Definition tx_max_allocation : Z := MAX_BLOCK_BYTES / MIN_TRANSPARENT_TX_SIZE.

(** [struct Block]. *)
Record Block := mkBlock { header : Header; transactions : list Tx }.

(** The loop of [zcash_deserialize_external_count], and [Vec::zcash_deserialize]. *)
Fixpoint deserialize_txs (count : nat) (bytes : list byte) : outcome ParseError (list Tx * list byte) :=
  match count with
  | O => Ok ([], bytes)
  | S count =>
      let? ' (tx, bytes) := tx_deserialize bytes in
      let? ' (txs, bytes) := deserialize_txs count bytes in
      Ok (tx :: txs, bytes)
  end.
Definition vec_deserialize (bytes : list byte) : outcome ParseError (list Tx * list byte) :=
  let? ' (n, bytes) := io (deserialize_message bytes) in
  do? require (negb (n >? tx_max_allocation)) (Parse "Vector longer than max_allocation") in
  deserialize_txs (Z.to_nat n) bytes.

(** [Vec::zcash_serialize]. *)
Definition vec_serialize (txs : list Tx) : outcome ParseError (list byte) :=
  let? n := io (message_try_from (len txs)) in
  let? prefix := serialize_message n in
  Ok (prefix ++ (txs ≫= tx_serialize)).

(** [impl ZcashSerialize for Block]. *)
Definition block_serialize (self : Block) : outcome ParseError (list byte) :=
  let? header := Header.zcash_serialize (header self) in
  let? transactions := vec_serialize (transactions self) in
  Ok (header ++ transactions).

(** [impl ZcashDeserialize for Block]: only the first [MAX_BLOCK_BYTES] bytes are
    read; the rest of the stream is what they leave. *)
Definition block_deserialize (bytes : list byte) : outcome ParseError (Block * list byte) :=
  let limited := take (Z.to_nat MAX_BLOCK_BYTES) bytes in
  let? ' (header, limited) := Header.zcash_deserialize limited in
  let? ' (transactions, limited) := vec_deserialize limited in
  Ok (mkBlock header transactions, limited ++ drop (Z.to_nat MAX_BLOCK_BYTES) bytes).

(** ** The formats are exact *)

(** What the codec of transactions promises: a stream parses to a transaction and a
    rest exactly when it is the serialization followed by the rest. *)
Definition tx_codec_exact : Prop :=
  forall bs tx t, tx_deserialize bs = Ok (tx, t) <-> bs = tx_serialize tx ++ t.
End Blocks.
End BlockCodec.

Lemma read_exact_Ok n bs s t : 0 <= n -> read_exact n bs = Ok (s, t) <-> len s = n /\ bs = s ++ t.
Proof.
  intros Hn. unfold read_exact. destruct (Z.leb_spec n (len bs)); split.
  - intros [= <- <-]. rewrite length_take, take_drop. split; [lia|done].
  - intros [Hs ->]. by rewrite take_app_length', drop_app_length' by lia.
  - done.
  - intros [Hs ->]. rewrite length_app in *. lia.
Qed.

Lemma io_Ok {A : Type} (m : outcome SerializationError A) a : io m = Ok a <-> m = Ok a.
Proof. apply map_err_Ok. Qed.

(** The solutions that a header version allows. *)
Definition solution_ok (version : Z) (s : Solution) : Prop :=
  match s with
  | WcashAux bytes => version = WCASH_BLOCK_WIRE_VERSION /\ len bytes <= MAX_WCASH_AUXPOW_BYTES
  | Common bytes => version <> WCASH_BLOCK_WIRE_VERSION /\ len bytes = SOLUTION_SIZE
  | Regtest bytes => version <> WCASH_BLOCK_WIRE_VERSION /\ len bytes = REGTEST_SOLUTION_SIZE
  end.

Lemma solution_ok_len version s : solution_ok version s -> 0 <= len (Solution.value s) <= MAX_WCASH_AUXPOW_BYTES.
Proof. unfold MAX_WCASH_AUXPOW_BYTES. destruct s; cbn; unfold SOLUTION_SIZE, REGTEST_SOLUTION_SIZE, MAX_WCASH_AUXPOW_BYTES; lia. Qed.

Lemma serialize_prefix {A : Type} (l : list A) : len l <= MAX_PROTOCOL_MESSAGE_LEN ->
  (let? n := io (message_try_from (len l)) in serialize_message n) = Ok (encode_compact_size (len l)).
Proof.
  unfold message_try_from, serialize_message, MAX_PROTOCOL_MESSAGE_LEN. intros L. rewrite checked_ok by bool_lia. cbn [ok_or obind].
  destruct (Z.gtb_spec (len l) (2 * 1024 * 1024)); [lia|]. cbn. rewrite (proj2 (Z.leb_le _ _)) by lia. cbn.
  by rewrite serialize64_encode by bool_lia.
Qed.

Lemma solution_serialize version s : solution_ok version s ->
  Solution.zcash_serialize s = Ok (encode_compact_size (len (Solution.value s)) ++ Solution.value s).
Proof.
  intros L%solution_ok_len. unfold Solution.zcash_serialize. rewrite <- obind_assoc, serialize_prefix; [done|].
  unfold MAX_WCASH_AUXPOW_BYTES, MAX_PROTOCOL_MESSAGE_LEN in *. lia.
Qed.

(** A solution parses exactly from its serialization. *)
Lemma solution_exact version bs s t : Solution.zcash_deserialize_for_version version bs = Ok (s, t) <->
  solution_ok version s /\ bs = encode_compact_size (len (Solution.value s)) ++ Solution.value s ++ t.
Proof.
  unfold Solution.zcash_deserialize_for_version. split.
  - intros ([n bs1] & [B ->]%io_Ok%deserialize_message_read & H)%obind_Ok. apply obind_Ok in H as (? & Mx%require_Ok & H).
    apply obind_Ok in H as ([v bs2] & Hv & (s' & Hs & [= <- <-])%obind_Ok).
    unfold Solution.bytes_external_count in Hv. apply obind_Ok in Hv as (? & _ & [Lv ->]%read_exact_Ok); [|lia].
    destruct (Z.eqb_spec version WCASH_BLOCK_WIRE_VERSION) as [Q|Q].
    + unfold Solution.for_wcash in Hs. rewrite Lv in Hs. destruct (n >? MAX_WCASH_AUXPOW_BYTES) eqn:G; [done|]. injection Hs as <-. cbn.
      rewrite Lv. split; [|done]. split; [done|]. lia.
    + unfold Solution.from_bytes in Hs. rewrite Lv in Hs. destruct (Z.eqb_spec n SOLUTION_SIZE) as [Qn|_];
        [|destruct (Z.eqb_spec n REGTEST_SOLUTION_SIZE) as [Qn|_]; [|done]]; injection Hs as <-; cbn; rewrite Lv; by split; [split; lia|].
  - intros [SO ->]. pose proof (solution_ok_len _ _ SO) as L. unfold MAX_WCASH_AUXPOW_BYTES in L.
    rewrite (proj2 (deserialize_message_read _ (len (Solution.value s)) (Solution.value s ++ t)))
      by (split; [unfold MAX_PROTOCOL_MESSAGE_LEN; lia|done]). cbn [io map_err obind].
    assert (Rd : Solution.bytes_external_count (len (Solution.value s)) (Solution.value s ++ t) = Ok (Solution.value s, t)).
    { unfold Solution.bytes_external_count, MAX_U8_ALLOCATION, MAX_PROTOCOL_MESSAGE_LEN.
      destruct (Z.gtb_spec (len (Solution.value s)) (2 * 1024 * 1024 - 5)); [lia|]. cbn. by apply read_exact_Ok; [lia|]. }
    destruct s as [b|b|b]; cbn in SO, Rd |- *; destruct SO as [Qv Lb].
    + rewrite (proj2 (Z.eqb_neq _ _) Qv), Lb in *. cbn. rewrite Rd. cbn. unfold Solution.from_bytes. by rewrite Lb.
    + rewrite (proj2 (Z.eqb_neq _ _) Qv), Lb in *. cbn. rewrite Rd. cbn. unfold Solution.from_bytes. by rewrite Lb.
    + rewrite (proj2 (Z.eqb_eq _ _) Qv). unfold MAX_WCASH_AUXPOW_BYTES in *. destruct (Z.gtb_spec (len b) (256 * 1024)); [lia|]. cbn.
      rewrite Rd. cbn. unfold Solution.for_wcash, MAX_WCASH_AUXPOW_BYTES. by destruct (Z.gtb_spec (len b) (256 * 1024)); [lia|].
Qed.

(** A header that can be on the wire. *)
Record header_ok (h : Header) : Prop := mkHeaderOk {
  h_version : Header.check_version (version h) = Ok tt;
  h_range : 0 <= version h <= U32_MAX /\ 0 <= time h <= U32_MAX /\ 0 <= difficulty_threshold h <= U32_MAX;
  h_arrays : len (previous_block_hash h) = 32 /\ len (merkle_root h) = 32 /\ len (commitment_bytes h) = 32 /\ len (nonce h) = 32;
  h_solution : solution_ok (version h) (solution h);
}.

Definition header_bytes (h : Header) : list byte :=
  to_le 4 (version h) ++ previous_block_hash h ++ merkle_root h ++ commitment_bytes h ++ to_le 4 (time h) ++
  to_le 4 (difficulty_threshold h) ++ nonce h ++ encode_compact_size (len (Solution.value (solution h))) ++ Solution.value (solution h).

Lemma header_serialize h : header_ok h -> Header.zcash_serialize h = Ok (header_bytes h).
Proof.
  intros [V R A S]. unfold Header.zcash_serialize. rewrite V. cbn [obind]. rewrite checked_ok by apply R. cbn [expect obind].
  by rewrite (solution_serialize _ _ S).
Qed.

Lemma header_parse h t : header_ok h -> Header.zcash_deserialize (header_bytes h ++ t) = Ok (h, t).
Proof.
  intros [V R A S]. unfold Header.zcash_deserialize, header_bytes. rewrite <- !app_assoc.
  destruct R as (R1 & R2 & R3), A as (A1 & A2 & A3 & A4). unfold U32_MAX in *.
  assert (Rd : forall v t, 0 <= v <= 4294967295 -> io (read_le 4 (to_le 4 v ++ t)) = Ok (v, t))
    by (intros v t' Hv; apply io_Ok, read_le_Ok; split; [lia|done]).
  assert (Re : forall s t, len s = 32 -> read_exact 32 (s ++ t) = Ok (s, t)) by (intros s t' Hs; by apply read_exact_Ok).
  rewrite Rd by done. cbn [obind]. rewrite V. cbn [obind]. do 3 (rewrite Re by done; cbn [obind]). rewrite Rd by done. cbn [obind].
  rewrite Rd by done. cbn [obind]. rewrite Re by done. cbn [obind].
  rewrite (proj2 (solution_exact (version h) _ (solution h) t)) by done. cbn [obind]. by destruct h.
Qed.

Lemma header_parsed bs h t : Header.zcash_deserialize bs = Ok (h, t) -> header_ok h /\ bs = header_bytes h ++ t.
Proof.
  unfold Header.zcash_deserialize. intros ([v b1] & [Rv ->]%io_Ok%read_le_Ok & H)%obind_Ok.
  apply obind_Ok in H as ([] & V & H). apply obind_Ok in H as ([p b2] & [Lp ->]%read_exact_Ok & H); [|lia].
  apply obind_Ok in H as ([m b3] & [Lm ->]%read_exact_Ok & H); [|lia]. apply obind_Ok in H as ([c b4] & [Lc ->]%read_exact_Ok & H); [|lia].
  apply obind_Ok in H as ([ti b5] & [Rt ->]%io_Ok%read_le_Ok & H). apply obind_Ok in H as ([d b6] & [Rd ->]%io_Ok%read_le_Ok & H).
  apply obind_Ok in H as ([n b7] & [Ln ->]%read_exact_Ok & H); [|lia]. apply obind_Ok in H as ([s b8] & [S ->]%solution_exact & [= <- <-]).
  change (2 ^ (8 * Z.of_nat 4)) with 4294967296 in *. split; [split; cbn; unfold U32_MAX; try done; lia|].
  unfold header_bytes. cbn. by rewrite <- !app_assoc.
Qed.

(** The header format of the two chains is canonical: a stream parses to a
    header and a rest exactly when it is the serialization of a well-formed header
    followed by the rest, and the solution is the AuxPoW witness of Wcash exactly
    when the version is the Wcash marker. *)
Theorem header_codec_exact bs h t :
  Header.zcash_deserialize bs = Ok (h, t) <->
  header_ok h /\ exists s, Header.zcash_serialize h = Ok s /\ bs = s ++ t.
Proof.
  split.
  - intros [O ->]%header_parsed. split; [done|]. exists (header_bytes h). by rewrite header_serialize.
  - intros (O & s & Hs & ->). rewrite header_serialize in Hs by done. injection Hs as <-. by apply header_parse.
Qed.

(** The length of a serialized header is the one that is computed. *)
Lemma encode_len v : 0 <= v <= U32_MAX -> len (encode_compact_size v) = Solution.compact_size_len v.
Proof.
  intros Hv. unfold Solution.compact_size_len.
  destruct (encode_cases v ltac:(bool_lia)) as [[Hc ->]|[[Hc ->]|[[Hc ->]|[Hc ->]]]]; repeat case_match; bool_lia || done.
Qed.

Lemma header_bytes_len h : header_ok h -> len (header_bytes h) = Header.serialized_len h.
Proof.
  intros [V R (A1 & A2 & A3 & A4) S]. pose proof (solution_ok_len _ _ S) as L. unfold MAX_WCASH_AUXPOW_BYTES in L.
  unfold header_bytes, Header.serialized_len, Solution.INPUT_LENGTH, Solution.serialized_len.
  rewrite <- encode_len by bool_lia. rewrite !length_app, !length_le_split. lia.
Qed.

(** The size that a template reserves is enough for every solution of its chain. *)
Lemma header_reserved h regtest_genesis network : header_ok h ->
  (uses_wcash_consensus network = true <-> version h = WCASH_BLOCK_WIRE_VERSION) ->
  (Solution.serialized_size regtest_genesis network = Solution.REGTEST_SERIALIZED_SIZE -> exists b, solution h = Regtest b) ->
  Header.serialized_len h <= Header.serialized_size regtest_genesis network.
Proof.
  intros [V R A S] W Rg. unfold Header.serialized_len, Header.serialized_size. enough (Solution.serialized_len (solution h) <= Solution.serialized_size regtest_genesis network) by lia.
  unfold Solution.serialized_size in *. destruct (uses_wcash_consensus network).
  - assert (Qv : version h = WCASH_BLOCK_WIRE_VERSION) by (by apply W). destruct (solution h) as [b|b|b]; cbn in S; [tauto|tauto|].
    destruct S as [_ L]. unfold Solution.serialized_len, Solution.WCASH_MAX_SERIALIZED_SIZE, Solution.compact_size_len, MAX_WCASH_AUXPOW_BYTES in *. cbn [Solution.value].
    repeat case_match; lia.
  - assert (Qv : version h <> WCASH_BLOCK_WIRE_VERSION) by (intros Q; by apply W in Q).
    match goal with |- context [if ?b then _ else _] => destruct b end.
    + destruct (Rg eq_refl) as [b Hb]. rewrite Hb in *. destruct S as [_ L]. unfold Solution.serialized_len. cbn [Solution.value]. rewrite L. by vm_compute.
    + destruct (solution h) as [b|b|b]; cbn in S; [| |tauto]; destruct S as [_ L]; unfold Solution.serialized_len; cbn [Solution.value]; rewrite L; by vm_compute.
Qed.

Section BlockExact.
Import BlockCodec.
Context {Tx : Type} (tx_serialize : Tx -> list byte) (tx_deserialize : list byte -> outcome ParseError (Tx * list byte)).
Context (exact_txs : tx_codec_exact tx_serialize tx_deserialize).

Lemma deserialize_txs_exact n : forall bs txs t, deserialize_txs tx_deserialize n bs = Ok (txs, t) <->
  length txs = n /\ bs = (txs ≫= tx_serialize) ++ t.
Proof.
  induction n as [|n IH]; intros bs txs t; cbn.
  - split; [by intros [= <- <-]|]. intros [Q ->]. by destruct txs.
  - split.
    + intros ([tx b1] & ->%exact_txs & ([txs' b2] & [L ->]%IH & [= <- <-])%obind_Ok)%obind_Ok. cbn. rewrite <- app_assoc. split; [lia|done].
    + intros [Q ->]. destruct txs as [|tx txs]; [done|]. cbn in *. rewrite <- app_assoc. rewrite (proj2 (exact_txs _ tx _) eq_refl). cbn.
      rewrite (proj2 (IH _ txs t)) by (split; [lia|done]). done.
Qed.

Definition vec_bytes (txs : list Tx) : list byte := encode_compact_size (len txs) ++ (txs ≫= tx_serialize).

Lemma max_allocation_small : tx_max_allocation <= MAX_PROTOCOL_MESSAGE_LEN.
Proof. by vm_compute. Qed.

Lemma vec_exact bs txs t : vec_deserialize tx_deserialize bs = Ok (txs, t) <-> len txs <= tx_max_allocation /\ bs = vec_bytes txs ++ t.
Proof.
  unfold vec_deserialize, vec_bytes. pose proof max_allocation_small as Sm. split.
  - intros ([n b1] & [B ->]%io_Ok%deserialize_message_read & H)%obind_Ok. apply obind_Ok in H as (? & Mx%require_Ok & [L ->]%deserialize_txs_exact).
    rewrite <- app_assoc. replace n with (len txs) in * by lia. split; [bool_lia|done].
  - intros [L ->]. rewrite <- app_assoc. rewrite (proj2 (deserialize_message_read _ (len txs) ((txs ≫= tx_serialize) ++ t))) by (split; [lia|done]).
    cbn [io map_err obind]. destruct (Z.gtb_spec (len txs) tx_max_allocation); [lia|]. cbn. apply deserialize_txs_exact. split; [lia|done].
Qed.

Lemma vec_serialized txs : len txs <= tx_max_allocation -> vec_serialize tx_serialize txs = Ok (vec_bytes txs).
Proof.
  intros L. unfold vec_serialize. rewrite <- obind_assoc, serialize_prefix; [done|]. pose proof max_allocation_small. lia.
Qed.

Lemma block_exact bs b t :
  block_deserialize tx_deserialize bs = Ok (b, t) <->
  header_ok (header b) /\ len (transactions b) <= tx_max_allocation /\
  exists s, block_serialize tx_serialize b = Ok s /\ len s <= MAX_BLOCK_BYTES /\ bs = s ++ t.
Proof.
  unfold block_deserialize, block_serialize. set (N := Z.to_nat MAX_BLOCK_BYTES). assert (HN : Z.of_nat N = MAX_BLOCK_BYTES) by (by apply Z2Nat.id). clearbody N. split.
  - intros ([h l1] & [Oh E1]%header_parsed & ([txs l2] & [L E2]%vec_exact & [= <- <-])%obind_Ok)%obind_Ok. cbn [header transactions].
    split_and!; [done..|]. exists (header_bytes h ++ vec_bytes txs). rewrite header_serialize, vec_serialized by done. cbn [obind].
    assert (El : take N bs = (header_bytes h ++ vec_bytes txs) ++ l2) by (rewrite E1, E2; by rewrite <- app_assoc).
    split_and!; [done| |by rewrite app_assoc, <- El, take_drop].
    apply (f_equal length) in El. rewrite length_app, length_take in El. lia.
  - intros (Oh & L & s & Hs & Ls & ->). rewrite header_serialize, vec_serialized in Hs by done. cbn [obind] in Hs.
    assert (Q : s = header_bytes (header b) ++ vec_bytes (transactions b)) by congruence. clear Hs.
    assert (Ns : (length s <= N)%nat) by lia. rewrite take_app_ge, drop_app_ge by lia.
    assert (Hp : Header.zcash_deserialize (s ++ take (N - length s) t) = Ok (header b, vec_bytes (transactions b) ++ take (N - length s) t))
      by (rewrite Q at 1; rewrite <- app_assoc; by apply header_parse).
    rewrite Hp. cbn [obind]. rewrite (proj2 (vec_exact _ (transactions b) (take (N - length s) t))) by done. cbn [obind].
    rewrite take_drop. by destruct b.
Qed.

(** C4: the wire format of blocks is canonical and bounded: a stream parses to a
    block and a rest exactly when it is the serialization of a well-formed block of
    at most 2,000,000 bytes, followed by the rest.  So the parser accepts one
    encoding of a block, never reads past the limit, and reads back every block
    that fits. *)
Theorem block_codec_exact bs b t :
  block_deserialize tx_deserialize bs = Ok (b, t) <->
  header_ok (header b) /\ len (transactions b) <= tx_max_allocation /\
  exists s, block_serialize tx_serialize b = Ok s /\ len s <= MAX_BLOCK_BYTES /\ bs = s ++ t.
Proof. exact (block_exact bs b t). Qed.
End BlockExact.

(** A Wcash block with an empty witness and two transactions of one byte. *)
Definition example_wcash_header : Header :=
  Header.mkHeader WCASH_BLOCK_WIRE_VERSION (replicate 32 Byte.x01) (replicate 32 Byte.x02) (replicate 32 Byte.x03)
    1700000000 0x1f07ffff (replicate 32 Byte.x04) (WcashAux []).
Definition byte_serialize (b : byte) : list byte := [b].
Definition byte_deserialize (bs : list byte) : outcome ParseError (byte * list byte) :=
  match bs with [] => Err (Io UnexpectedEof) | b :: bs => Ok (b, bs) end.

Lemma byte_codec_exact : BlockCodec.tx_codec_exact byte_serialize byte_deserialize.
Proof. intros [|b bs] tx t; cbn; [done|]. split; [by intros [= -> ->]|by intros [= -> ->]]. Qed.

Lemma block_codec_exact_witness :
  BlockCodec.block_deserialize byte_deserialize (header_bytes example_wcash_header ++ [Byte.x02; Byte.xaa; Byte.xbb; Byte.xcc]) =
    Ok (BlockCodec.mkBlock example_wcash_header [Byte.xaa; Byte.xbb], [Byte.xcc]).
Proof.
  apply (block_codec_exact byte_serialize byte_deserialize byte_codec_exact).
  split; [split; by_eval|]. split; [by vm_compute|]. exists (header_bytes example_wcash_header ++ [Byte.x02; Byte.xaa; Byte.xbb]).
  split; [vm_compute; reflexivity|]. split; [by vm_compute|]. by rewrite <- app_assoc.
Defined.
