(* ===== verification/MempoolTx.v ===== *)
(** * Transactions of the mempool

    [zebra-chain/src/transaction/unmined.rs], [unmined/zip317.rs] and the script
    policy of [zebra-consensus/src/transaction/check.rs]: the ids, the costs and
    the conventional fees of transactions that are not in a block yet, the checks
    of ZIP-317 at their admission, and the standardness of their scripts.

    The weight ratio of a transaction, a floating point number that is read by
    metrics and by block templates only, is left out. *)

From S2P Require Import Prelude Amounts ValueBalances Networks NoteTrees ChainIndexes NonFinalizedChain TransactionValues HeaderCodec.

(** [solver::ScriptKind] of [zcash_script]; the keys of a multisignature are
    known by their number. *)
Inductive ScriptKind :=
| PubKey
| PubKeyHash
| ScriptHash
| MultiSig (required : Z) (pubkeys : Z)
| NullData.

Section Unmined.
Context `{CB : ConsensusBuild} `{CT : ChainTypes}.
Notation Amt := (Amount.Amount NonNegative).
Notation TxOutput := (Output (Script:=Script)).

(** [enum UnminedTxId]; a [WtxId] is an id with the digest of the authorizing
    data. *)
Inductive UnminedTxId :=
| Legacy (legacy_id : TxHash)
| Witnessed (wtx_id : TxHash) (auth_digest : list byte).

#[global] Instance UnminedTxId_eq_dec : EqDecision UnminedTxId.
Proof. solve_decision. Defined.

Definition id_fields (self : UnminedTxId) : TxHash + TxHash * list byte :=
  match self with Legacy h => inl h | Witnessed h a => inr (h, a) end.
Definition id_of_fields (f : TxHash + TxHash * list byte) : UnminedTxId :=
  match f with inl h => Legacy h | inr (h, a) => Witnessed h a end.

#[global] Instance UnminedTxId_countable : Countable UnminedTxId.
Proof. apply (inj_countable' id_fields id_of_fields). by intros []. Defined.

(** [UnminedTxId::mined_id] and [UnminedTxId::auth_digest]. *)
Definition mined_id (self : UnminedTxId) : TxHash :=
  match self with Legacy legacy_id => legacy_id | Witnessed wtx_id _ => wtx_id end.
Definition id_auth_digest (self : UnminedTxId) : option (list byte) :=
  match self with Legacy _ => None | Witnessed _ d => Some d end.

(** [transaction::Transaction], as the mempool sees it: the parts that the state
    reads, the unlock script and the serialized size of each transparent input,
    and the expiry height. *)
Record RelayedTransaction := mkRelayed {
  effects : Transaction;
  unlock_scripts : list (list byte);
  input_sizes : list Z;
  expiry_height : option Z;
}.

(** What [zcash_primitives] and [zcash_script] compute: the size and the id of a
    transaction; the bytes of a script, whether it only pushes, the values that
    it pushes, its kind and the number of its signature operations. *)
Class MempoolEnv := {
  zcash_serialized_size : RelayedTransaction -> Z;
  unmined_id : RelayedTransaction -> UnminedTxId;
  as_raw_bytes : Script -> list byte;
  is_push_only : list byte -> bool;
  push_values : list byte -> list (list byte);
  solver_standard : list byte -> option ScriptKind;
  sig_op_count : list byte -> Z;
}.

(** [struct UnminedTx]. *)
Record UnminedTx := mkUnmined {
  transaction : RelayedTransaction;
  id : UnminedTxId;
  size : Z;
  conventional_fee : Amt;
}.

(** [struct VerifiedUnminedTx]; [verified_time] and [verified_height] are its
    [time] and [height]. *)
Record VerifiedUnminedTx := mkVerified {
  unmined : UnminedTx;
  miner_fee : Amt;
  legacy_sigop_count : Z;
  p2sh_sigop_count : Z;
  conventional_actions_count : Z;
  unpaid_actions_count : Z;
  verified_time : option Z;
  verified_height : option Z;
  verified_spent_outputs : list TxOutput;
}.

Definition verified_id (tx : VerifiedUnminedTx) : TxHash := mined_id (id (unmined tx)).
Definition verified_effects (tx : VerifiedUnminedTx) : Transaction := effects (transaction (unmined tx)).

Context `{ME : MempoolEnv}.

(** ** ZIP-317 *)

Definition MARGINAL_FEE : Z := 5000.
Definition GRACE_ACTIONS : Z := 2.
Definition P2PKH_STANDARD_INPUT_SIZE : Z := 150.
Definition P2PKH_STANDARD_OUTPUT_SIZE : Z := 34.
Definition BLOCK_UNPAID_ACTION_LIMIT : Z := 0.
Definition MIN_MEMPOOL_TX_FEE_RATE : Z := 100.
Definition MEMPOOL_TX_FEE_REQUIREMENT_CAP : Z := 1000.
Definition KILOBYTE : Z := 1000.

(** [zip317::Error]. *)
Inductive Zip317Error := UnpaidActions | FeeBelowMinimumRate | InvalidMinFee.

(** The serialized size of a transparent output: its value, the CompactSize of
    the length of its script, and the script. *)
Definition compact_size_len (n : Z) : Z :=
  if n <? 0xfd then 1 else if n <=? U16_MAX then 3 else if n <=? U32_MAX then 5 else 9.
Definition output_serialized_size (o : TxOutput) : Z :=
  let n := Z.of_nat (length (as_raw_bytes (lock_script o))) in 8 + compact_size_len n + n.

(** [num_integer::div_ceil], on [usize]. *)
Definition div_ceil (x y : Z) : Z := x / y + (if x mod y =? 0 then 0 else 1).

Definition count {A} (l : list A) : Z := Z.of_nat (length l).
Definition sum_Z (l : list Z) : Z := foldr Z.add 0 l.

(** [zip317::conventional_actions]. *)
Definition conventional_actions {E} (tx : RelayedTransaction) : outcome E Z :=
  let t := effects tx in
  let tx_in_total_size := sum_Z (input_sizes tx) in
  let tx_out_total_size := sum_Z (output_serialized_size <$> outputs t) in
  let n_join_split := count (sprout_joinsplit_descriptions t) in
  let n_spends_sapling := from_option (fun b => count (sapling_spends b)) 0 (sapling_bundle t) in
  let n_outputs_sapling := from_option (fun b => count (sapling_outputs b)) 0 (sapling_bundle t) in
  let n_actions_orchard := from_option (fun b => count (actions b)) 0 (orchard_bundle t) in
  let n_actions_ironwood := from_option (fun b => count (actions b)) 0 (ironwood_bundle t) in
  let tx_in_logical_actions := div_ceil tx_in_total_size P2PKH_STANDARD_INPUT_SIZE in
  let tx_out_logical_actions := div_ceil tx_out_total_size P2PKH_STANDARD_OUTPUT_SIZE in
  let logical_actions := Z.max tx_in_logical_actions tx_out_logical_actions
    + 2 * n_join_split + Z.max n_spends_sapling n_outputs_sapling
    + n_actions_orchard + n_actions_ironwood in
  let? logical_actions := expect (u32_checked logical_actions) in
  Ok (Z.max GRACE_ACTIONS logical_actions).

(** [zip317::conventional_fee]. *)
Definition conventional_fee_of {E} (tx : RelayedTransaction) : outcome E Amt :=
  let? marginal_fee := expect_ok (Amount.try_from_u64 NonNegative MARGINAL_FEE) in
  let? actions := conventional_actions tx in
  expect_ok (Amount.mul marginal_fee actions).

(** [zip317::unpaid_actions]; [try_into().unwrap_or_default()] is 0 for a
    negative number. *)
Definition unpaid_actions {E} (tx : UnminedTx) (miner_fee : Amt) : outcome E Z :=
  let? conventional_actions := conventional_actions (transaction tx) in
  let? ratio := expect_ok (Amount.div miner_fee MARGINAL_FEE) in
  let? unpaid_actions := expect (i64_checked (conventional_actions - Amount.zatoshis ratio)) in
  Ok (default 0 (u32_checked unpaid_actions)).

(** [zip317::mempool_checks]. *)
Definition mempool_checks (unpaid_actions : Z) (miner_fee : Amt) (transaction_size : Z) : outcome Zip317Error unit :=
  do? require (negb (unpaid_actions >? BLOCK_UNPAID_ACTION_LIMIT)) UnpaidActions in
  do? assert_that (MIN_MEMPOOL_TX_FEE_RATE <? USIZE_MAX / MAX_BLOCK_BYTES) in
  let? product := expect (usize_checked (MIN_MEMPOOL_TX_FEE_RATE * transaction_size)) in
  let min_fee := Z.min (Z.max (product / KILOBYTE) MIN_MEMPOOL_TX_FEE_RATE) MEMPOOL_TX_FEE_REQUIREMENT_CAP in
  let? min_fee := map_err (fun _ => InvalidMinFee) (Amount.try_from_u64 NonNegative min_fee) in
  require (negb (Amount.zatoshis miner_fee <? Amount.zatoshis min_fee)) FeeBelowMinimumRate.

(** ** Unmined and verified transactions *)

Definition MEMPOOL_TRANSACTION_COST_THRESHOLD : Z := 10000.
Definition MEMPOOL_TRANSACTION_LOW_FEE_PENALTY : Z := 40000.

(** [impl From<Arc<Transaction>> for UnminedTx]. *)
Definition unmined_from {E} (tx : RelayedTransaction) : outcome E UnminedTx :=
  let? fee := conventional_fee_of tx in
  Ok (mkUnmined tx (unmined_id tx) (zcash_serialized_size tx) fee).

(** [VerifiedUnminedTx::new]. *)
Definition verified_new (tx : UnminedTx) (miner_fee : Amt) (legacy_sigop_count p2sh_sigop_count : Z)
    (spent_outputs : list TxOutput) : outcome Zip317Error VerifiedUnminedTx :=
  let? conventional := conventional_actions (transaction tx) in
  let? unpaid := unpaid_actions tx miner_fee in
  do? mempool_checks unpaid miner_fee (size tx) in
  Ok (mkVerified tx miner_fee legacy_sigop_count p2sh_sigop_count conventional unpaid None None spent_outputs).

(** [VerifiedUnminedTx::block_sigop_count]: a saturating sum. *)
Definition block_sigop_count (self : VerifiedUnminedTx) : Z :=
  Z.min U32_MAX (legacy_sigop_count self + p2sh_sigop_count self).

(** [VerifiedUnminedTx::pays_conventional_fee], [cost] and [eviction_weight]. *)
Definition pays_conventional_fee (self : VerifiedUnminedTx) : bool :=
  Amount.zatoshis (conventional_fee (unmined self)) <=? Amount.zatoshis (miner_fee self).
Definition cost (self : VerifiedUnminedTx) : Z := Z.max (size (unmined self)) MEMPOOL_TRANSACTION_COST_THRESHOLD.
Definition eviction_weight (self : VerifiedUnminedTx) : Z :=
  if pays_conventional_fee self then cost self else cost self + MEMPOOL_TRANSACTION_LOW_FEE_PENALTY.

(** ** Script policy *)

Definition MAX_P2SH_SIGOPS : Z := 15.
Definition MAX_STANDARD_SCRIPTSIG_SIZE : Z := 1650.
Definition MAX_STANDARD_TX_SIGOPS : Z := 4000.
Definition MAX_STANDARD_MULTISIG_PUBKEYS : Z := 3.
Definition ONE_THIRD_DUST_THRESHOLD_RATE : Z := 100.

(** [transparent::Output::is_dust]. *)
Definition is_dust {E} (self : TxOutput) : outcome E bool :=
  let? output_size := expect (u32_checked (output_serialized_size self)) in
  let? product := expect (u32_checked (ONE_THIRD_DUST_THRESHOLD_RATE * (output_size + 148))) in
  let threshold := 3 * (product / 1000) in
  Ok (Amount.zatoshis (value self) <? threshold).

(** [standard_script_kind] and [script_sig_args_expected]. *)
Definition standard_script_kind (lock_script : Script) : option ScriptKind :=
  solver_standard (as_raw_bytes lock_script).
Definition script_sig_args_expected (kind : ScriptKind) : option Z :=
  match kind with
  | PubKey => Some 1
  | PubKeyHash => Some 2
  | ScriptHash => Some 1
  | MultiSig required _ => Some (required + 1)
  | NullData => None
  end.

(** [extract_p2sh_redeemed_script] and [count_script_push_ops]. *)
Definition extract_p2sh_redeemed_script (unlock_script : list byte) : option (list byte) :=
  last (push_values unlock_script).
Definition count_script_push_ops (script_bytes : list byte) : Z := count (push_values script_bytes).

(** One iteration of the loop of [are_inputs_standard]. *)
Definition input_is_standard (input : Input) (unlock_script : list byte) (spent_output : TxOutput) : bool :=
  match input with
  | Coinbase => true
  | PrevOut _ =>
      match standard_script_kind (lock_script spent_output) with
      | None => false
      | Some script_kind =>
          match script_sig_args_expected script_kind with
          | None => false
          | Some n_args_expected =>
              let stack_size := count_script_push_ops unlock_script in
              match script_kind with
              | ScriptHash =>
                  match extract_p2sh_redeemed_script unlock_script with
                  | None => false
                  | Some redeemed =>
                      match solver_standard redeemed with
                      | Some inner_kind =>
                          match script_sig_args_expected inner_kind with
                          | Some inner => stack_size =? n_args_expected + inner
                          | None => false
                          end
                      | None => sig_op_count redeemed <=? MAX_P2SH_SIGOPS
                      end
                  end
              | _ => stack_size =? n_args_expected
              end
          end
      end
  end.

(** [are_inputs_standard]. *)
Fixpoint all_inputs_standard (ins : list (Input * list byte)) (spent_outputs : list TxOutput) : bool :=
  match ins, spent_outputs with
  | (input, unlock_script) :: ins, spent_output :: spent_outputs =>
      if input_is_standard input unlock_script spent_output then all_inputs_standard ins spent_outputs else false
  | _, _ => true
  end.
Definition inputs_with_scripts (tx : RelayedTransaction) : list (Input * list byte) :=
  zip (inputs (effects tx)) (unlock_scripts tx).
Definition are_inputs_standard (tx : RelayedTransaction) (spent_outputs : list TxOutput) : bool :=
  if negb (count (inputs (effects tx)) =? count spent_outputs) then false
  else all_inputs_standard (inputs_with_scripts tx) spent_outputs.

(** The errors of [mempool_standard_input_scripts]. *)
Inductive InputScriptError :=
| MisalignedOutputs
| NonStandardScriptSigSize (input_index size : Z)
| NonStandardScriptSigNotPushOnly (input_index : Z)
| NonStandardInputScripts.

(** [mempool_standard_input_scripts]. *)
Definition check_input_script (input_index : Z) (input : Input * list byte) : outcome InputScriptError unit :=
  match input with
  | (Coinbase, _) => Ok tt
  | (PrevOut _, unlock_script) =>
      let size := count unlock_script in
      do? require (negb (size >? MAX_STANDARD_SCRIPTSIG_SIZE)) (NonStandardScriptSigSize input_index size) in
      require (is_push_only unlock_script) (NonStandardScriptSigNotPushOnly input_index)
  end.
Definition mempool_standard_input_scripts (tx : RelayedTransaction) (spent_outputs : list TxOutput) :
    outcome InputScriptError unit :=
  do? require (count (inputs (effects tx)) =? count spent_outputs) MisalignedOutputs in
  do? try_for_each check_input_script 0 (inputs_with_scripts tx) in
  require (are_inputs_standard tx spent_outputs) NonStandardInputScripts.

(** ** Theorems *)

Lemma conventional_actions_bounds {E} tx n : conventional_actions (E:=E) tx = Ok n -> 2 <= n <= U32_MAX.
Proof.
  unfold conventional_actions, GRACE_ACTIONS. intros (a & Ha & H)%obind_Ok.
  apply expect_Ok, checked_Some in Ha as [-> B]. injection H as <-. bool_lia.
Qed.

Lemma expect_ok_Ok {E F A} (m : outcome E A) a : expect_ok (F:=F) m = Ok a -> m = Ok a.
Proof. destruct m; cbn; congruence. Qed.

Lemma try_from_u64_Ok C v (a : Amount.Amount C) : Amount.try_from_u64 C v = Ok a -> Amount.zatoshis a = v /\ Amount.valid a.
Proof.
  change (Amount.try_from_u64 C v) with (Amount.try_from_i128 C v). rewrite Amount.try_from_i128_in_range.
  destruct (i64_checked v); [apply Amount.in_range_Ok|done].
Qed.

(** The conventional fee of a transaction is the marginal fee for each of its
    conventional actions. *)
Lemma unmined_from_fee {E} tx u : unmined_from (E:=E) tx = Ok u ->
  exists n, (forall F, conventional_actions (E:=F) tx = Ok n) /\ transaction u = tx /\ size u = zcash_serialized_size tx /\
    Amount.zatoshis (conventional_fee u) = MARGINAL_FEE * n /\ MARGINAL_FEE * n <= MAX_MONEY.
Proof.
  unfold unmined_from, conventional_fee_of. intros (f & (m & Hm & (n & Hn & Hf)%obind_Ok)%obind_Ok & H)%obind_Ok.
  injection H as <-. exists n. split.
  { intros F. revert Hn. unfold conventional_actions. destruct (u32_checked _); cbn; [by intros [= <-]|done]. }
  pose proof (conventional_actions_bounds _ _ Hn) as B.
  assert (Em : Amount.zatoshis m = MARGINAL_FEE) by (apply expect_ok_Ok in Hm; by apply try_from_u64_Ok in Hm as [? _]).
  apply expect_ok_Ok in Hf. revert Hf. unfold Amount.mul.
  rewrite Em, checked_ok by (unfold MARGINAL_FEE; bool_lia). cbn [expect obind].
  rewrite map_err_Ok. intros [Ef V]%try_from_u64_Ok. unfold Amount.valid in V. cbn [Amount.valid_range fst snd] in V.
  cbn [transaction size conventional_fee]. repeat split; lia.
Qed.

(** The number of unpaid actions is what the fee leaves of the conventional
    actions. *)
Lemma unpaid_actions_exact {E} u fee n : (forall F, conventional_actions (E:=F) (transaction u) = Ok n) ->
  0 <= Amount.zatoshis fee <= MAX_MONEY ->
  unpaid_actions (E:=E) u fee = Ok (Z.max 0 (n - Amount.zatoshis fee / MARGINAL_FEE)).
Proof.
  intros Hn F. unfold unpaid_actions. rewrite Hn. cbn.
  pose proof (conventional_actions_bounds _ _ (Hn unit)) as B. pose proof MAX_MONEY_headroom.
  set (q := Amount.zatoshis fee / MARGINAL_FEE).
  assert (Q : 0 <= q <= Amount.zatoshis fee) by (unfold q, MARGINAL_FEE; split; [apply Z.div_pos|apply Z.div_le_upper_bound]; lia).
  unfold Amount.div. replace (Z.quot (Amount.zatoshis fee) MARGINAL_FEE) with q
    by (unfold q, MARGINAL_FEE; rewrite Z.quot_div_nonneg; lia).
  change (MARGINAL_FEE =? 0) with false. cbn iota. rewrite checked_ok by bool_lia. cbn [ok_or obind].
  change q with (Amount.zatoshis (Amount.mk (C:=NonNegative) q)) at 1.
  rewrite Amount.try_from_i128_valid by (unfold Amount.valid; cbn; lia). cbn [expect_ok obind Amount.zatoshis].
  rewrite checked_ok by bool_lia. cbn [expect obind]. f_equal.
  destruct (Z.leb_spec 0 (n - q)); [rewrite checked_ok by bool_lia; cbn; lia|].
  unfold checked. destruct (within 0 U32_MAX (n - q)) eqn:W'; [apply within_spec in W'; lia|cbn; lia].
Qed.

(** A transaction is admitted by the checks of ZIP-317 exactly when it pays
    its conventional fee: otherwise it has unpaid actions.  The minimum fee rate
    of the legacy check never decides, as its comment says, and the low fee
    penalty is never part of the eviction weight of an admitted transaction. *)
Theorem admitted_iff_conventional_fee tx u fee legacy p2sh spent :
  unmined_from (E:=Zip317Error) tx = Ok u ->
  0 <= Amount.zatoshis fee <= MAX_MONEY -> 0 <= size u <= MAX_BLOCK_BYTES ->
  if Amount.zatoshis (conventional_fee u) <=? Amount.zatoshis fee then
    exists v, verified_new u fee legacy p2sh spent = Ok v /\ unmined v = u /\ miner_fee v = fee /\
      unpaid_actions_count v = 0 /\ eviction_weight v = cost v
  else verified_new u fee legacy p2sh spent = Err UnpaidActions.
Proof.
  intros U F Sz. destruct (unmined_from_fee _ _ U) as (n & Hn & Et & _ & Ef & Mx). rewrite <- Et in Hn.
  pose proof (conventional_actions_bounds _ _ (Hn unit)) as B.
  unfold verified_new. rewrite Hn. cbn [obind]. rewrite (unpaid_actions_exact _ _ n Hn F). cbn [obind].
  rewrite Ef. set (q := Amount.zatoshis fee / MARGINAL_FEE).
  assert (Q : MARGINAL_FEE * n <= Amount.zatoshis fee <-> n <= q).
  { unfold q, MARGINAL_FEE. split; intros; [apply Z.div_le_lower_bound; lia|].
    pose proof (Z.mul_div_le (Amount.zatoshis fee) 5000 ltac:(lia)). lia. }
  unfold mempool_checks, BLOCK_UNPAID_ACTION_LIMIT. destruct (Z.leb_spec (MARGINAL_FEE * n) (Amount.zatoshis fee)) as [P|P].
  - apply Q in P as P'. replace (Z.max 0 (n - q)) with 0 by lia. cbn [Z.gtb Z.compare negb require obind].
    replace (assert_that _) with (@Ok Zip317Error unit tt) by done. cbn [obind]. unfold MAX_BLOCK_BYTES in Sz.
    rewrite checked_ok by (unfold MIN_MEMPOOL_TX_FEE_RATE; bool_lia). cbn [expect obind].
    set (m := Z.min _ _). assert (100 <= m <= 1000) by (unfold m, MIN_MEMPOOL_TX_FEE_RATE, MEMPOOL_TX_FEE_REQUIREMENT_CAP; lia).
    unfold MARGINAL_FEE in *. change (Amount.try_from_u64 NonNegative m) with (Amount.try_from_i128 NonNegative m).
    change m with (Amount.zatoshis (Amount.mk (C:=NonNegative) m)) at 1.
    rewrite Amount.try_from_i128_valid by (unfold Amount.valid; cbn; lia). cbn [map_err obind Amount.zatoshis].
    destruct (Z.ltb_spec (Amount.zatoshis fee) m); [lia|]. cbn. eexists. split; [done|]. cbn. repeat split.
    unfold eviction_weight, pays_conventional_fee. cbn. rewrite Ef. by destruct (Z.leb_spec (5000 * n) (Amount.zatoshis fee)); [|lia].
  - assert (~ n <= q) by (intros N; apply Q in N; lia).
    destruct (Z.max 0 (n - q) >? 0) eqn:G; [done|]. lia.
Qed.
End Unmined.
