(* ===== verification/MempoolDeps.v ===== *)
(** * Dependencies between transactions of the mempool

    [zebra-node-services/src/mempool/transaction_dependencies.rs]: which
    transactions of the mempool spend outputs of which others.  The two maps are
    kept as inverses of each other; [remove_all] follows them level by level.

    A loop over a hash set visits its elements in the order of [elements]; the
    theorems describe results that do not depend on this order. *)

From S2P Require Import Prelude.

Module Deps.
Section Dependencies.
Context {K : Type} `{Countable K}.

(** [struct TransactionDependencies]. *)
Record TransactionDependencies := mkDeps {
  dependencies : gmap K (gset K);
  dependents : gmap K (gset K);
}.

Definition default_deps : TransactionDependencies := mkDeps ∅ ∅.

(** The set of a key, empty when there is none: [get(..).unwrap_or_default()]. *)
Definition at_key (m : gmap K (gset K)) (k : K) : gset K := default ∅ (m !! k).

(** [TransactionDependencies::direct_dependents] and [direct_dependencies]. *)
Definition direct_dependents (self : TransactionDependencies) (tx_hash : K) : gset K := at_key (dependents self) tx_hash.
Definition direct_dependencies (self : TransactionDependencies) (tx_hash : K) : gset K :=
  at_key (dependencies self) tx_hash.

(** [TransactionDependencies::add]; an outpoint is a transaction and an index. *)
Definition add_dependent (dependent : K) (m : gmap K (gset K)) (spent : K * Z) : gmap K (gset K) :=
  <[spent.1 := {[dependent]} ∪ at_key m spent.1]> m.
Definition add (dependent : K) (spent_mempool_outpoints : list (K * Z)) (self : TransactionDependencies) :
    TransactionDependencies :=
  mkDeps
    (if decide (spent_mempool_outpoints = []) then dependencies self
     else <[dependent := list_to_set spent_mempool_outpoints.*1]> (dependencies self))
    (foldl (add_dependent dependent) (dependents self) spent_mempool_outpoints).

(** [get_mut(k)], [remove(x)] from its set, and the removal of a set that is
    left empty. *)
Definition remove_at (k x : K) (m : gmap K (gset K)) : gmap K (gset K) :=
  match m !! k with
  | None => m
  | Some s => let s := s ∖ {[x]} in if decide (s = ∅) then delete k m else <[k := s]> m
  end.

(** [TransactionDependencies::clear_mined_dependencies]. *)
Definition clear_mined (self : TransactionDependencies) (mined_tx_id : K) : TransactionDependencies :=
  mkDeps (foldl (fun m dependent_id => remove_at dependent_id mined_tx_id m) (dependencies self)
            (elements (direct_dependents self mined_tx_id)))
    (delete mined_tx_id (dependents self)).
Definition clear_mined_dependencies (mined_ids : gset K) (self : TransactionDependencies) : TransactionDependencies :=
  foldl clear_mined self (elements mined_ids).

(** The closure of [flat_map] in [TransactionDependencies::remove_all]: the new
    maps, and the dependents that it yields. *)
Definition remove_one (self : TransactionDependencies) (dependent : K) : TransactionDependencies * gset K :=
  let m := foldl (fun m dependency => remove_at dependency dependent m) (dependents self)
             (elements (direct_dependencies self dependent)) in
  (mkDeps (delete dependent (dependencies self)) (delete dependent m), at_key m dependent).

(** One iteration of its loop, over a level of dependents. *)
Fixpoint remove_level (self : TransactionDependencies) (level : list K) : TransactionDependencies * gset K :=
  match level with
  | [] => (self, ∅)
  | dependent :: level =>
      let (self, next) := remove_one self dependent in
      let (self, rest) := remove_level self level in
      (self, next ∪ rest)
  end.

(** The loop: the maps, all dependents, and the level it stopped at. *)
Fixpoint remove_levels (fuel : nat) (self : TransactionDependencies) (all_dependents current_level : gset K) :
    TransactionDependencies * gset K * gset K :=
  match fuel with
  | O => (self, all_dependents, current_level)
  | S fuel =>
      if decide (current_level = ∅) then (self, all_dependents, current_level) else
      let (self, next_level) := remove_level self (elements current_level) in
      remove_levels fuel self (all_dependents ∪ next_level) next_level
  end.

(** [TransactionDependencies::remove_all]: every level but the last one removes
    a set of dependents, so the number of these sets bounds the loop. *)
Definition removal_fuel (self : TransactionDependencies) : nat := S (size (dependents self)).
Definition remove_all (tx_hash : K) (self : TransactionDependencies) : TransactionDependencies * gset K :=
  (remove_levels (removal_fuel self) self ∅ {[tx_hash]}).1.

(** ** The invariant *)

(** [dep self a b]: [b] spends an output of [a]. *)
Definition dep (self : TransactionDependencies) (a b : K) : Prop := b ∈ direct_dependents self a.

(** The maps are inverse to each other, without empty sets. *)
Record consistent (self : TransactionDependencies) : Prop := mkConsistent {
  inverse : forall a b, b ∈ direct_dependents self a <-> a ∈ direct_dependencies self b;
  dependents_nonempty : forall a s, dependents self !! a = Some s -> s <> ∅;
  dependencies_nonempty : forall a s, dependencies self !! a = Some s -> s <> ∅;
}.

(** No transaction depends on itself, directly or through others. *)
Definition acyclic (self : TransactionDependencies) : Prop := forall a, ~ tc (dep self) a a.

Lemma at_key_insert m k s j : at_key (<[k := s]> m) j = if decide (k = j) then s else at_key m j.
Proof. unfold at_key. case_decide; [subst; by rewrite lookup_insert_eq|by rewrite lookup_insert_ne]. Qed.

Lemma at_key_delete m k j : at_key (delete k m) j = if decide (k = j) then ∅ else at_key m j.
Proof. unfold at_key. case_decide; [subst; by rewrite lookup_delete_eq|by rewrite lookup_delete_ne]. Qed.

Definition no_empty (m : gmap K (gset K)) : Prop := forall a s, m !! a = Some s -> s <> ∅.

Lemma no_empty_delete m k : no_empty m -> no_empty (delete k m).
Proof. intros N a s [_ L]%lookup_delete_Some. by apply (N a). Qed.

Lemma no_empty_insert m k s : no_empty m -> s <> ∅ -> no_empty (<[k := s]> m).
Proof. intros N E a t [[_ <-]|[_ L]]%lookup_insert_Some; [done|by apply (N a)]. Qed.

(** [remove_at] removes one element of one set. *)
Lemma at_key_remove m k x j : at_key (remove_at k x m) j = if decide (k = j) then at_key m j ∖ {[x]} else at_key m j.
Proof.
  unfold remove_at. destruct (m !! k) as [s|] eqn:L.
  - case_decide as D.
    + rewrite at_key_delete. case_decide; [subst j|done]. unfold at_key. by rewrite L.
    + rewrite at_key_insert. case_decide; [subst j|done]. unfold at_key. by rewrite L.
  - case_decide; [subst j|done]. unfold at_key. rewrite L. cbn. set_solver.
Qed.

Lemma no_empty_remove m k x : no_empty m -> no_empty (remove_at k x m).
Proof.
  intros N. unfold remove_at. destruct (m !! k) as [s|]; [|done].
  case_decide; [by apply no_empty_delete|by apply no_empty_insert].
Qed.

Lemma size_remove_at m k x : (size (remove_at k x m) <= size m)%nat.
Proof.
  unfold remove_at. destruct (m !! k) as [s|] eqn:L; [|done]. case_decide.
  - rewrite map_size_delete, L. lia.
  - rewrite map_size_insert_Some by eauto. done.
Qed.

(** The loops over the sets of one transaction. *)
Definition remove_from (x : K) (m : gmap K (gset K)) (ks : list K) : gmap K (gset K) :=
  foldl (fun m k => remove_at k x m) m ks.

Lemma at_key_remove_from x ks m j :
  at_key (remove_from x m ks) j = if decide (j ∈ ks) then at_key m j ∖ {[x]} else at_key m j.
Proof.
  revert m. induction ks as [|k ks IH]; intros m; cbn; [done|]. change (foldl _ ?n ks) with (remove_from x n ks).
  rewrite IH, at_key_remove. repeat case_decide; subst; set_solver.
Qed.

Lemma no_empty_remove_from x ks m : no_empty m -> no_empty (remove_from x m ks).
Proof. revert m. induction ks as [|k ks IH]; intros m N; cbn; [done|]. by apply IH, no_empty_remove. Qed.

Lemma size_remove_from x ks m : (size (remove_from x m ks) <= size m)%nat.
Proof.
  revert m. induction ks as [|k ks IH]; intros m; cbn; [done|]. etrans; [apply IH|apply size_remove_at].
Qed.

(** ** Removal *)

(** The maps when exactly the transactions of [P] have been visited. *)
Record processed (D0 : TransactionDependencies) (P : gset K) (D : TransactionDependencies) : Prop := mkProcessed {
  p_dependents : forall a, direct_dependents D a = if decide (a ∈ P) then ∅ else direct_dependents D0 a ∖ P;
  p_dependencies : forall b, direct_dependencies D b = if decide (b ∈ P) then ∅ else direct_dependencies D0 b;
  p_nonempty : no_empty (dependents D);
  p_nonempty' : no_empty (dependencies D);
}.

Lemma remove_one_dependents D d a :
  direct_dependents (remove_one D d).1 a = if decide (d = a) then ∅ else
    if decide (a ∈ direct_dependencies D d) then direct_dependents D a ∖ {[d]} else direct_dependents D a.
Proof.
  unfold direct_dependents at 1, remove_one. cbn. rewrite at_key_delete. case_decide; [done|].
  change (foldl _ ?m ?l) with (remove_from d m l). rewrite at_key_remove_from.
  by do 2 case_decide; try done; set_solver.
Qed.

Lemma remove_one_next D d :
  (remove_one D d).2 = if decide (d ∈ direct_dependencies D d) then direct_dependents D d ∖ {[d]} else direct_dependents D d.
Proof.
  unfold remove_one. cbn. change (foldl _ ?m ?l) with (remove_from d m l). rewrite at_key_remove_from.
  by do 2 case_decide; try done; set_solver.
Qed.

Lemma remove_one_processed D0 P D d : consistent D0 -> processed D0 P D ->
  processed D0 (P ∪ {[d]}) (remove_one D d).1 /\
  forall x, x ∈ (remove_one D d).2 <-> d ∉ P /\ dep D0 d x /\ x ∉ P ∪ {[d]}.
Proof.
  intros C Pr. destruct Pr as [Pd Pc N N']. pose proof (inverse _ C) as I. split; [split|].
  - intros a. rewrite remove_one_dependents, !Pd, !Pc. apply set_eq. intros x. specialize (I a d).
    repeat case_decide; set_solver.
  - intros b. unfold direct_dependencies, remove_one. cbn. rewrite at_key_delete. specialize (Pc b).
    unfold direct_dependencies in Pc. rewrite Pc. repeat case_decide; set_solver.
  - apply no_empty_delete. by apply no_empty_remove_from.
  - by apply no_empty_delete.
  - intros x. rewrite remove_one_next, !Pd, !Pc. unfold dep. specialize (I d d). repeat case_decide; set_solver.
Qed.

Lemma remove_level_processed D0 l : consistent D0 -> forall P D, processed D0 P D ->
  let (D', next) := remove_level D l in
  processed D0 (P ∪ list_to_set l) D' /\
  (forall x, x ∈ next -> exists d, d ∈ l /\ dep D0 d x) /\
  (forall d x, d ∈ l -> d ∉ P -> dep D0 d x -> x ∈ P ∪ list_to_set l ∪ next).
Proof.
  intros C. induction l as [|d l IH]; intros P D Pr; cbn [remove_level].
  - rewrite list_to_set_nil, (right_id_L ∅ (∪)). set_solver.
  - destruct (remove_one_processed _ _ _ d C Pr) as [Pr' Nx]. destruct (remove_one D d) as [D1 n1]. cbn [fst snd] in *.
    specialize (IH _ _ Pr'). destruct (remove_level D1 l) as [D2 n2]. destruct IH as (Pr2 & B & F). rewrite list_to_set_cons. split_and!.
    + by rewrite (assoc_L (∪)).
    + intros x [(_ & ? & _)%Nx|(d' & ? & ?)%B]%elem_of_union; set_solver.
    + intros d' x [->|Hd]%elem_of_cons NP Dx.
      * destruct (decide (x ∈ P ∪ {[d]})) as [|Nin]; [set_solver|].
        assert (x ∈ n1) by by apply Nx. set_solver.
      * destruct (decide (d' = d)) as [->|Nd]; [|specialize (F d' x Hd); set_solver].
        destruct (decide (x ∈ P ∪ {[d]})) as [|Nin]; [set_solver|].
        assert (x ∈ n1) by by apply Nx. set_solver.
Qed.

(** A level that yields a transaction removes a set of dependents. *)
Lemma remove_one_size D d :
  (size (dependents (remove_one D d).1) + (if decide ((remove_one D d).2 = ∅) then 0 else 1) <= size (dependents D))%nat.
Proof.
  unfold remove_one. cbn. change (foldl _ ?m ?l) with (remove_from d m l).
  set (m := remove_from d _ _). assert (Sm : (size m <= size (dependents D))%nat) by apply size_remove_from.
  rewrite map_size_delete. unfold at_key. destruct (m !! d) as [s|] eqn:L; cbn.
  - assert (size m <> 0)%nat by (rewrite map_size_ne_0_lookup; eauto). case_decide; lia.
  - rewrite decide_True by done. lia.
Qed.

Lemma remove_level_size l : forall D,
  (size (dependents (remove_level D l).1) + (if decide ((remove_level D l).2 = ∅) then 0 else 1) <= size (dependents D))%nat.
Proof.
  induction l as [|d l IH]; intros D; cbn [remove_level]; [rewrite decide_True by done; cbn; lia|].
  pose proof (remove_one_size D d) as S1. destruct (remove_one D d) as [D1 n1]. cbn [fst snd] in *.
  specialize (IH D1). destruct (remove_level D1 l) as [D2 n2]. cbn [fst snd] in *.
  do 3 case_decide; try lia. exfalso. set_solver.
Qed.

(** Enough fuel: the loop ends with an empty level. *)
Lemma remove_levels_end fuel : forall D acc level, (level = ∅ \/ size (dependents D) < fuel)%nat ->
  (remove_levels fuel D acc level).2 = ∅.
Proof.
  induction fuel as [|fuel IH]; intros D acc level F; cbn; [destruct F; [done|lia]|].
  case_decide as E; [done|]. destruct F as [|F]; [done|]. pose proof (remove_level_size (elements level) D) as Sz.
  destruct (remove_level D (elements level)) as [D' next]. cbn in Sz. apply IH. case_decide; [by left|right; lia].
Qed.

(** The loop visits what is reachable. *)
Lemma remove_levels_reach D0 tx : consistent D0 -> forall fuel P D acc level,
  processed D0 P D -> (forall d x, d ∈ P -> dep D0 d x -> x ∈ P ∪ level) ->
  (forall x, x ∈ P ∪ level -> rtc (dep D0) tx x) -> (forall x, x ∈ acc -> tc (dep D0) tx x) ->
  {[tx]} ∪ acc = P ∪ level ->
  let '(D', all, last) := remove_levels fuel D acc level in
  exists P', processed D0 P' D' /\ (forall d x, d ∈ P' -> dep D0 d x -> x ∈ P' ∪ last) /\
    (forall x, x ∈ P' ∪ last -> rtc (dep D0) tx x) /\ (forall x, x ∈ all -> tc (dep D0) tx x) /\ {[tx]} ∪ all = P' ∪ last.
Proof.
  intros C. induction fuel as [|fuel IH]; intros P D acc level Pr Cl Re Ac Eq; cbn; [by exists P|].
  case_decide as E; [by exists P|]. pose proof (remove_level_processed _ (elements level) C _ _ Pr) as R.
  destruct (remove_level D (elements level)) as [D' next]. destruct R as (Pr' & B & F).
  rewrite list_to_set_elements_L in *.
  assert (Nx : forall x, x ∈ next -> tc (dep D0) tx x).
  { intros x (d & Hd%elem_of_elements & Dx)%B. apply tc_rtc_l with d; [apply Re; set_solver|by apply tc_once]. }
  apply (IH (P ∪ level)); [done| | | |by rewrite (assoc_L (∪)), Eq].
  - intros d x [Hd|Hd]%elem_of_union Dx; [specialize (Cl _ _ Hd Dx); set_solver|].
    destruct (decide (d ∈ P)) as [Hp|Hp]; [specialize (Cl _ _ Hp Dx); set_solver|].
    apply (F d x); [by apply elem_of_elements|done..].
  - intros x [Hx|Hx]%elem_of_union; [by apply Re|by apply tc_rtc, Nx].
  - intros x [Hx|Hx]%elem_of_union; [by apply Ac|by apply Nx].
Qed.

(** [remove_all] ends, its result is what depends on the transaction, directly
    or indirectly, and the maps forget exactly this and the transaction. *)
Lemma remove_all_exact D tx : consistent D ->
  let (D', all) := remove_all tx D in
  consistent D' /\ (forall x, x ∈ {[tx]} ∪ all <-> rtc (dep D) tx x) /\ (forall x, x ∈ all -> tc (dep D) tx x) /\
  (forall a b, dep D' a b <-> dep D a b /\ ~ rtc (dep D) tx a /\ ~ rtc (dep D) tx b).
Proof.
  intros C. unfold remove_all.
  assert (P0 : processed D ∅ D).
  { split; [intros a..|exact (dependents_nonempty _ C)|exact (dependencies_nonempty _ C)];
      rewrite decide_False by set_solver; [|done]. by rewrite difference_empty_L. }
  pose proof (remove_levels_reach D tx C (removal_fuel D) ∅ D ∅ {[tx]} P0) as R.
  pose proof (remove_levels_end (removal_fuel D) D ∅ {[tx]}) as E.
  destruct (remove_levels _ _ _ _) as [[D' all] last]. cbn in *.
  rewrite E in R by (right; unfold removal_fuel; lia).
  destruct R as (P & [Pd Pc N N'] & Cl & Re & Al & Eq); [set_solver..| |set_solver|set_solver|].
  { intros x [Hx|Hx%elem_of_singleton]%elem_of_union; [set_solver|subst x; apply rtc_refl]. }
  rewrite (right_id_L ∅ (∪)) in Eq. setoid_rewrite (right_id_L ∅ (∪)) in Cl. setoid_rewrite (right_id_L ∅ (∪)) in Re.
  assert (HP : forall x, x ∈ P <-> rtc (dep D) tx x).
  { intros x. split; [apply Re|]. intros Rx. assert (Ht : tx ∈ P) by (rewrite <- Eq; set_solver).
    clear -Rx Ht Cl. induction Rx as [|x y z S _ IH]; [done|]. by apply IH, (Cl x). }
  split_and!; [|by intros x; rewrite <- HP, <- Eq|done|].
  - split; [|done..]. intros a b. rewrite Pd, Pc. pose proof (inverse _ C a b) as I.
    pose proof (Cl a b) as Cab. unfold dep in Cab. repeat case_decide; set_solver.
  - intros a b. rewrite <- !HP. unfold dep. rewrite Pd. case_decide; set_solver.
Qed.

(** ** The other operations *)

Lemma clear_mined_spec D m : consistent D ->
  consistent (clear_mined D m) /\ forall a b, dep (clear_mined D m) a b <-> dep D a b /\ a <> m.
Proof.
  intros C. pose proof (inverse _ C) as I.
  assert (Dd : forall a, direct_dependents (clear_mined D m) a = if decide (m = a) then ∅ else direct_dependents D a)
    by (intros a; unfold clear_mined, direct_dependents; cbn; apply at_key_delete).
  assert (Dc : forall b, direct_dependencies (clear_mined D m) b =
    if decide (b ∈ direct_dependents D m) then direct_dependencies D b ∖ {[m]} else direct_dependencies D b).
  { intros b. unfold clear_mined, direct_dependencies. cbn. change (foldl _ ?n ?l) with (remove_from m n l).
    rewrite at_key_remove_from. do 2 case_decide; try done; set_solver. }
  split; [split|].
  - intros a b. rewrite Dd, Dc. specialize (I a b) as I1. specialize (I m b) as I2. repeat case_decide; set_solver.
  - cbn. apply no_empty_delete. exact (dependents_nonempty _ C).
  - cbn. change (foldl _ ?n ?l) with (remove_from m n l). apply no_empty_remove_from. exact (dependencies_nonempty _ C).
  - intros a b. unfold dep. rewrite Dd. case_decide; set_solver.
Qed.

(** Mined transactions are forgotten as dependencies. *)
Lemma clear_mined_dependencies_spec D mined : consistent D ->
  consistent (clear_mined_dependencies mined D) /\
  forall a b, dep (clear_mined_dependencies mined D) a b <-> dep D a b /\ a ∉ mined.
Proof.
  intros C. unfold clear_mined_dependencies.
  enough (L : consistent (foldl clear_mined D (elements mined)) /\
    forall a b, dep (foldl clear_mined D (elements mined)) a b <-> dep D a b /\ a ∉ elements mined).
  { destruct L as [L1 L2]. split; [done|]. intros a b. by rewrite L2, elem_of_elements. }
  revert D C. induction (elements mined) as [|m l IH]; intros D C; cbn [foldl]; [set_solver|].
  destruct (clear_mined_spec D m C) as [C' S]. destruct (IH _ C') as [C2 S2]. split; [done|].
  intros a b. rewrite S2, S, not_elem_of_cons. tauto.
Qed.

Lemma add_dependents x l : forall m j,
  at_key (foldl (add_dependent x) m l) j = if decide (j ∈ l.*1) then {[x]} ∪ at_key m j else at_key m j.
Proof.
  induction l as [|[h i] l IH]; intros m j; cbn; [done|].
  rewrite IH. unfold add_dependent. cbn. rewrite at_key_insert. repeat case_decide; subst; set_solver.
Qed.

Lemma no_empty_add x l : forall m, no_empty m -> no_empty (foldl (add_dependent x) m l).
Proof.
  induction l as [|[h i] l IH]; intros m N; cbn; [done|]. apply IH, no_empty_insert; [done|set_solver].
Qed.

(** A transaction that is not known yet becomes a dependent of those whose
    outputs it spends. *)
Lemma add_spec D x spent : consistent D -> direct_dependencies D x = ∅ ->
  consistent (add x spent D) /\ forall a b, dep (add x spent D) a b <-> dep D a b \/ b = x /\ a ∈ spent.*1.
Proof.
  intros C F. pose proof (inverse _ C) as I.
  assert (Dd : forall a, direct_dependents (add x spent D) a =
    if decide (a ∈ spent.*1) then {[x]} ∪ direct_dependents D a else direct_dependents D a)
    by (intros a; apply add_dependents).
  assert (Dc : forall b, direct_dependencies (add x spent D) b =
    if decide (x = b) then list_to_set spent.*1 else direct_dependencies D b).
  { intros b. unfold add, direct_dependencies. cbn. case_decide as E; [|apply at_key_insert].
    subst spent. cbn. case_decide; [by subst|done]. }
  split; [split|].
  - intros a b. rewrite Dd, Dc. specialize (I a b). repeat case_decide; subst; rewrite ?F in *; set_solver.
  - cbn. apply no_empty_add. exact (dependents_nonempty _ C).
  - cbn. case_decide; [exact (dependencies_nonempty _ C)|]. apply no_empty_insert; [exact (dependencies_nonempty _ C)|]. destruct spent; [done|cbn; set_solver].
  - intros a b. unfold dep. rewrite Dd. case_decide; set_solver.
Qed.

Lemma acyclic_mono D D' : acyclic D -> (forall a b, dep D' a b -> dep D a b) -> acyclic D'.
Proof. 
  intros A M a T. apply (A a). revert T. generalize a at 2 4 as b. intros b T. revert M.
  induction T as [x y|x y z]; intros M; [by apply tc_once, M|eapply tc_l; [by apply M|eauto]]. Qed.

Lemma acyclic_add D x spent : consistent D -> acyclic D -> direct_dependencies D x = ∅ -> direct_dependents D x = ∅ ->
  x ∉ spent.*1 -> acyclic (add x spent D).
Proof.
  intros C A F G N. destruct (add_spec D x spent C F) as [_ S].
  assert (No : forall y, ~ dep (add x spent D) x y) by (intros y [Dx|[_ ?]]%S; [|done]; unfold dep in Dx; set_solver).
  assert (T : forall a b, tc (dep (add x spent D)) a b -> tc (dep D) a b \/ b = x).
  { intros a b T. induction T as [a b [?|[-> _]]%S|a b c [Da|[-> _]]%S T IH]; [by left; apply tc_once|by right| |].
    - destruct IH; [left; by eapply tc_l|by right].
    - exfalso. by inversion T; subst; eapply No. }
  intros a Ta. destruct (T a a Ta) as [?| ->]; [by eapply A|]. inversion Ta; subst; by eapply No.
Qed.
End Dependencies.
End Deps.
