(* ===== verification/MempoolSet.v ===== *)
(** * The verified set of the mempool

    [zebrad/src/components/mempool/storage/verified_set.rs] with the lists it is
    used with: [storage/eviction_list.rs], the transactions that are not taken
    back for some time, and [mempool/pending_outputs.rs], the requests that wait
    for an output.

    The clock is an argument: an operation reads one time, and times do not
    decrease from one operation to the next.  The weighted random choice of
    [rand] is a parameter.  Sums and differences of sizes and costs are checked,
    so the theorems also show that the unchecked arithmetic of a release build
    does not wrap. *)

From S2P Require Import Prelude Amounts ValueBalances Networks NoteTrees ChainIndexes NonFinalizedChain TransactionValues HeaderCodec MempoolTx MempoolDeps.

(** ** Eviction lists *)

Module EvictionList.
Section List.
Context {K : Type} `{Countable K}.

(** [struct EvictionList]. *)
Record EvictionList := mkList {
  unique_entries : gmap K Z;
  ordered_entries : list K;
  max_size : Z;
  eviction_memory_time : Z;
}.

(** [EvictionList::new]. *)
Definition new (max_size eviction_memory_time : Z) : EvictionList := mkList ∅ [] max_size eviction_memory_time.

(** [EvictionList::has_expired]; the difference of two instants is not negative. *)
Definition has_expired (now : Z) (self : EvictionList) (evicted_at : Z) : bool :=
  Z.max 0 (now - evicted_at) >? eviction_memory_time self.

(** [EvictionList::contains_key]. *)
Definition contains_key (now : Z) (self : EvictionList) (txid : K) : bool :=
  match unique_entries self !! txid with
  | Some evicted_at => negb (has_expired now self evicted_at)
  | None => false
  end.

(** [EvictionList::pop_front]. *)
Definition pop_front {E : Type} (self : EvictionList) : outcome E (option K * EvictionList) :=
  match ordered_entries self with
  | [] => Ok (None, self)
  | key :: rest =>
      do? assert_that (bool_decide (is_Some (unique_entries self !! key))) in
      Ok (Some key, mkList (delete key (unique_entries self)) rest (max_size self) (eviction_memory_time self))
  end.

(** [EvictionList::prune_old]: each iteration removes an entry. *)
Fixpoint prune_loop {E : Type} (fuel : nat) (now : Z) (self : EvictionList) : outcome E EvictionList :=
  match fuel with
  | O => Ok self
  | S fuel =>
      match head (ordered_entries self) with
      | None => Ok self
      | Some txid =>
          let? evicted_at := expect (unique_entries self !! txid) in
          if has_expired now self evicted_at then
            let? ' (_, self) := pop_front self in prune_loop fuel now self
          else Ok self
      end
  end.
Definition prune_old {E : Type} (now : Z) (self : EvictionList) : outcome E EvictionList :=
  prune_loop (length (ordered_entries self)) now self.

(** [EvictionList::len]. *)
Definition len {E : Type} (now : Z) (self : EvictionList) : outcome E (Z * EvictionList) :=
  let? self := prune_old now self in
  Ok (Z.of_nat (base.size (unique_entries self)), self).

(** [EvictionList::insert]. *)
Definition insert {E : Type} (now : Z) (key : K) (self : EvictionList) : outcome E EvictionList :=
  let? self := prune_old now self in
  let? ' (n, self) := len now self in
  let? self := if n >=? max_size self then let? ' (_, self) := pop_front self in Ok self else Ok self in
  do? assert_that (bool_decide (unique_entries self !! key = None)) in
  Ok (mkList (<[key := now]> (unique_entries self)) (ordered_entries self ++ [key])
        (max_size self) (eviction_memory_time self)).

(** [EvictionList::clear]. *)
Definition clear (self : EvictionList) : EvictionList :=
  mkList ∅ [] (max_size self) (eviction_memory_time self).

(** ** The invariant of a list at a time *)

(** The two collections hold the same entries, which are in the order of their
    times. *)
Record entries_ok (now : Z) (self : EvictionList) (es : list (K * Z)) : Prop := mkEntries {
  e_ordered : ordered_entries self = es.*1;
  e_unique : unique_entries self = list_to_map es;
  e_nodup : NoDup es.*1;
  e_sorted : StronglySorted Z.le es.*2;
  e_past : Forall (fun t => t <= now) es.*2;
  e_bound : Z.of_nat (length es) <= max_size self;
}.
Definition list_ok (now : Z) (self : EvictionList) : Prop :=
  1 <= max_size self /\ 0 <= eviction_memory_time self /\ exists es, entries_ok now self es.

Definition same_limits (self other : EvictionList) : Prop :=
  max_size self = max_size other /\ eviction_memory_time self = eviction_memory_time other.

Lemma new_ok now max_size t : 1 <= max_size -> 0 <= t -> list_ok now (new max_size t).
Proof. intros. split_and!; [done..|]. exists []. split; cbn; try done; try constructor. lia. Qed.

Lemma list_ok_later now now' self : now <= now' -> list_ok now self -> list_ok now' self.
Proof.
  intros L (A & B & es & []). split_and!; [done..|]. exists es. split; try done.
  eapply Forall_impl; [done|]. cbn. lia.
Qed.

Lemma contains_key_earlier now now' self k : now <= now' -> contains_key now' self k = true -> contains_key now self k = true.
Proof. unfold contains_key, has_expired. destruct (_ !! k); [|done]. intros. bool_lia. Qed.

Lemma pop_front_ok {E : Type} now self k t es : entries_ok now self ((k, t) :: es) ->
  exists self', pop_front (E:=E) self = Ok (Some k, self') /\ entries_ok now self' es /\ same_limits self' self.
Proof.
  intros [O U N S P B]. unfold pop_front. rewrite O, U. cbn in *. rewrite lookup_insert_eq.
  rewrite bool_decide_eq_true_2 by eauto. cbn. eexists. split; [done|]. split; [|done].
  apply NoDup_cons in N as [N1 N2]. apply StronglySorted_inv in S as [S _]. apply Forall_cons in P as [_ P].
  split; cbn; try done; [|lia]. rewrite delete_insert_id; [done|]. by apply not_elem_of_list_to_map.
Qed.

(** Pruning removes exactly the expired entries. *)
Lemma prune_loop_ok {E : Type} now : forall es self fuel, entries_ok now self es -> (length es <= fuel)%nat ->
  exists self' es', prune_loop (E:=E) fuel now self = Ok self' /\ entries_ok now self' es' /\ same_limits self' self /\
    (forall k t, (k, t) ∈ es' <-> (k, t) ∈ es /\ has_expired now self t = false).
Proof.
  induction es as [|[k t] es IH]; intros self fuel Ok Le.
  - exists self, []. destruct Ok as [O U N S P B]. split_and!; try done; [|set_solver].
    destruct fuel; cbn; [done|]. by rewrite O.
  - destruct fuel as [|fuel]; [cbn in Le; lia|]. cbn [prune_loop]. pose proof Ok as [O U N S P B].
    rewrite O, U. cbn. rewrite lookup_insert_eq. cbn. destruct (has_expired now self t) eqn:X.
    + destruct (pop_front_ok (E:=E) _ _ _ _ _ Ok) as (s1 & -> & Ok1 & L1). cbn.
      destruct (IH s1 fuel Ok1) as (s2 & es2 & -> & Ok2 & L2 & M); [cbn in Le; lia|]. exists s2, es2. split_and!; try done.
      { destruct L1, L2. split; congruence. }
      intros k' t'. rewrite M. assert (Ex : has_expired now s1 t' = has_expired now self t') by (unfold has_expired; by rewrite (proj2 L1)).
      rewrite Ex, elem_of_cons. split; [tauto|]. intros [[[= -> ->]|?] ?]; [congruence|done].
    + exists self, ((k, t) :: es). split_and!; try done. intros k' t'. split; [|tauto]. intros I. split; [done|].
      apply StronglySorted_inv in S as [_ F]. rewrite Forall_forall in F.
      assert (t <= t') by (apply elem_of_cons in I as [[= -> ->]|I]; [lia|]; apply F, list_elem_of_fmap; by exists (k', t')).
      unfold has_expired in *. lia.
Qed.

Lemma prune_old_ok {E : Type} now es self : entries_ok now self es ->
  exists self' es', prune_old (E:=E) now self = Ok self' /\ entries_ok now self' es' /\ same_limits self' self /\
    (forall k t, (k, t) ∈ es' <-> (k, t) ∈ es /\ has_expired now self t = false).
Proof. intros Es. apply prune_loop_ok; [done|]. by rewrite (e_ordered _ _ _ Es), length_fmap. Qed.

(** The entries of a list are those of its map. *)
Lemma entries_lookup now self es k t : entries_ok now self es -> unique_entries self !! k = Some t <-> (k, t) ∈ es.
Proof. intros [O U N S P B]. rewrite U. symmetry. by apply elem_of_list_to_map. Qed.

Lemma entries_size now self es : entries_ok now self es -> base.size (unique_entries self) = length es.
Proof. intros [O U N S P B]. by rewrite U, map_size_list_to_map. Qed.

(** The oldest entry leaves a full list. *)
Lemma make_room_ok {E : Type} now self es : 1 <= max_size self -> entries_ok now self es ->
  exists self' es', (if Z.of_nat (base.size (unique_entries self)) >=? max_size self
      then let? ' (_, s) := pop_front self in Ok s else Ok self) = @Ok E _ self' /\
    entries_ok now self' es' /\ same_limits self' self /\ Z.of_nat (length es') + 1 <= max_size self' /\ forall x, x ∈ es' -> x ∈ es.
Proof.
  intros Mx Es. rewrite (entries_size _ _ _ Es). pose proof (e_bound _ _ _ Es) as B.
  destruct (Z.of_nat (length es) >=? max_size self) eqn:C.
  - destruct es as [|[k t] es]; [apply Z.geb_le in C; cbn in C; lia|].
    destruct (pop_front_ok (E:=E) _ _ _ _ _ Es) as (s & -> & E3 & L3). exists s, es. cbn in *. destruct L3 as [L3 ?].
    split_and!; try done; [rewrite L3; lia|set_solver].
  - exists self, es. split_and!; try done. lia.
Qed.

Lemma push_entry_ok now self es key : entries_ok now self es -> unique_entries self !! key = None ->
  Z.of_nat (length es) + 1 <= max_size self ->
  entries_ok now (mkList (<[key := now]> (unique_entries self)) (ordered_entries self ++ [key]) (max_size self) (eviction_memory_time self))
    (es ++ [(key, now)]).
Proof.
  intros [O U N S P _] F B. assert (Nin : key ∉ es.*1) by (apply not_elem_of_list_to_map; by rewrite <- U).
  split; cbn; rewrite ?fmap_app, ?length_app; cbn.
  - by rewrite O.
  - rewrite list_to_map_snoc by done. by rewrite U.
  - apply NoDup_app. split_and!; [done| |apply NoDup_singleton]. by intros x Hx ->%list_elem_of_singleton.
  - clear -S P. induction S as [|t l S IH F]; cbn in *; [by repeat constructor|]. apply Forall_cons in P as [? P].
    constructor; [by apply IH|]. apply Forall_app. split; [done|by repeat constructor].
  - apply Forall_app. split; [done|]. by constructor.
  - lia.
Qed.

(** [insert] does not panic for a transaction that is not in the list or has
    expired there; the list stays bounded, and contains the new one. *)
Lemma entry_inserted {E : Type} now key self : list_ok now self -> contains_key now self key = false ->
  exists self', insert (E:=E) now key self = Ok self' /\ list_ok now self' /\ same_limits self' self /\
    contains_key now self' key = true /\ (forall k, contains_key now self' k = true -> k = key \/ contains_key now self k = true).
Proof.
  intros (Mx & Tm & es & Es) Nk. unfold insert.
  destruct (prune_old_ok (E:=E) now es self Es) as (s1 & es1 & -> & E1 & L1 & M1). cbn [obind]. unfold len.
  destruct (prune_old_ok (E:=E) now es1 s1 E1) as (s2 & es2 & -> & E2 & L2 & M2). cbn [obind].
  destruct (make_room_ok (E:=E) now s2 es2) as (s3 & es3 & -> & E3 & L3 & B3 & M3); [destruct L1, L2; lia|done|]. cbn [obind].
  assert (Q : max_size s3 = max_size self /\ eviction_memory_time s3 = eviction_memory_time self) by (destruct L1, L2, L3; split; congruence).
  assert (In : forall k t, unique_entries s3 !! k = Some t -> unique_entries self !! k = Some t /\ has_expired now self t = false).
  { intros k t I%(entries_lookup _ _ _ _ _ E3). apply M3, M2 in I as [I _]. apply M1 in I as [I X]. split; [|done].
    by apply (entries_lookup _ _ _ _ _ Es). }
  assert (Fr : unique_entries s3 !! key = None).
  { destruct (unique_entries s3 !! key) as [t|] eqn:L; [|done]. apply In in L as [L X]. unfold contains_key in Nk. by rewrite L, X in Nk. }
  rewrite bool_decide_eq_true_2 by done. cbn [assert_that obind]. eexists. split; [done|]. split_and!.
  - split_and!; cbn; [destruct Q; lia..|]. exists (es3 ++ [(key, now)]). by apply push_entry_ok.
  - done.
  - unfold contains_key, has_expired. cbn. rewrite lookup_insert_eq. destruct Q. bool_lia.
  - intros k. unfold contains_key, has_expired. cbn. destruct (decide (key = k)) as [->|Nq]; [by left|]. rewrite lookup_insert_ne by done.
    destruct (unique_entries s3 !! k) as [t|] eqn:L; [|done]. apply In in L as [L X]. rewrite L. unfold has_expired in X. rewrite X. by right.
Qed.

(** [len] prunes, which does not change what the list contains. *)
Lemma len_ok {E : Type} now self : list_ok now self ->
  exists n self', len (E:=E) now self = Ok (n, self') /\ list_ok now self' /\ same_limits self' self /\
    forall k, contains_key now self' k = contains_key now self k.
Proof.
  intros (Mx & Tm & es & Es). unfold len.
  destruct (prune_old_ok (E:=E) now es self Es) as (s & es' & -> & Es' & [L1 L2] & M). cbn. eexists _, s.
  split; [done|]. split; [split_and!; [lia..|by exists es']|]. split; [done|]. intros k. apply eq_iff_eq_true.
  unfold contains_key, has_expired. rewrite L2. split.
  - destruct (unique_entries s !! k) as [t|] eqn:L; [|done]. apply (entries_lookup _ _ _ _ _ Es'), M in L as [L _].
    by apply (entries_lookup _ _ _ _ _ Es) in L as ->.
  - destruct (unique_entries self !! k) as [t|] eqn:L; [|done]. intros X. apply (entries_lookup _ _ _ _ _ Es) in L.
    assert (I : (k, t) ∈ es') by (apply M; split; [done|]; unfold has_expired; by apply negb_true_iff).
    by apply (entries_lookup _ _ _ _ _ Es') in I as ->.
Qed.
End List.
End EvictionList.

(** ** Pending outputs *)

Module PendingOutputs.
Section Pending.
Context `{CT : ChainTypes}.
Notation TxOutput := (Output (Script:=Script)).

(** [struct PendingOutputs]: the number of receivers of each channel; the
    outputs that were sent, with the receivers they were sent to, are recorded. *)
Record PendingOutputs := mkPending {
  channels : gmap OutPoint Z;
  sent : list (OutPoint * TxOutput * Z);
}.

Definition default_pending : PendingOutputs := mkPending ∅ [].

(** [PendingOutputs::queue]. *)
Definition queue (outpoint : OutPoint) (self : PendingOutputs) : PendingOutputs :=
  mkPending (<[outpoint := default 0 (channels self !! outpoint) + 1]> (channels self)) (sent self).

(** [PendingOutputs::respond]. *)
Definition respond (outpoint : OutPoint) (output : TxOutput) (self : PendingOutputs) : PendingOutputs :=
  match channels self !! outpoint with
  | Some receivers => mkPending (delete outpoint (channels self)) (sent self ++ [(outpoint, output, receivers)])
  | None => self
  end.

(** [PendingOutputs::prune] and [PendingOutputs::clear]. *)
Definition prune (self : PendingOutputs) : PendingOutputs :=
  mkPending (filter (fun c => c.2 > 0) (channels self)) (sent self).
Definition clear (self : PendingOutputs) : PendingOutputs := mkPending ∅ (sent self).
End Pending.
End PendingOutputs.
Import PendingOutputs(PendingOutputs, channels, sent).

(** ** The verified set *)

(** [enum SameEffectsTipRejectionError]. *)
Inductive SameEffectsTipRejectionError := SpendConflict | MissingOutput.

Module VerifiedSet.
Import Deps.
Section Set_.
Context `{CB : ConsensusBuild} `{CT : ChainTypes} {ME : MempoolEnv}.
Notation TxOutput := (Output (Script:=Script)).

(** [struct VerifiedSet]. *)
Record VerifiedSet := mkSet {
  transactions : gmap TxHash VerifiedUnminedTx;
  transaction_dependencies : TransactionDependencies (K:=TxHash);
  created_outputs : gmap OutPoint TxOutput;
  transactions_serialized_size : Z;
  total_cost : Z;
  spent_outpoints : gset OutPoint;
  sprout_nullifiers : gset Nullifier;
  sapling_nullifiers : gset Nullifier;
  orchard_nullifiers : gset Nullifier;
  ironwood_nullifiers : gset Nullifier;
}.

(** [VerifiedSet::default] and [VerifiedSet::clear]. *)
Definition empty_set : VerifiedSet := mkSet ∅ default_deps ∅ 0 0 ∅ ∅ ∅ ∅ ∅.
Definition clear (self : VerifiedSet) : VerifiedSet := empty_set.

(** [VerifiedSet::contains], [created_output], [has_spent_outpoint] and
    [transaction_count]. *)
Definition contains (self : VerifiedSet) (id : TxHash) : bool := bool_decide (is_Some (transactions self !! id)).
Definition created_output (self : VerifiedSet) (outpoint : OutPoint) : option TxOutput := created_outputs self !! outpoint.
Definition has_spent_outpoint (self : VerifiedSet) (outpoint : OutPoint) : bool :=
  bool_decide (outpoint ∈ spent_outpoints self).
Definition transaction_count (self : VerifiedSet) : Z := Z.of_nat (base.size (transactions self)).

(** [VerifiedSet::has_conflicts] and [VerifiedSet::has_spend_conflicts]. *)
Definition has_conflicts {T} `{Countable T} (set : gset T) (list : list T) : bool :=
  existsb (fun item => bool_decide (item ∈ set)) list.
Definition has_spend_conflicts (self : VerifiedSet) (unmined_tx : UnminedTx) : bool :=
  let tx := effects (transaction unmined_tx) in
  has_conflicts (spent_outpoints self) (TransactionValues.spent_outpoints tx)
  || has_conflicts (sprout_nullifiers self) (tx_sprout_nullifiers tx)
  || has_conflicts (sapling_nullifiers self) (tx_sapling_nullifiers tx)
  || has_conflicts (orchard_nullifiers self) (tx_orchard_nullifiers tx)
  || has_conflicts (ironwood_nullifiers self) (tx_ironwood_nullifiers tx).

(** The loop of [VerifiedSet::insert] over the outputs of a transaction;
    [OutPoint::from_usize] panics when an index is not a [u32]. *)
Fixpoint insert_outputs {E : Type} (tx_id : TxHash) (index : Z) (outs : list TxOutput)
    (created_outputs : gmap OutPoint TxOutput) (pending_outputs : PendingOutputs) :
    outcome E (gmap OutPoint TxOutput * PendingOutputs) :=
  match outs with
  | [] => Ok (created_outputs, pending_outputs)
  | output :: outs =>
      let? i := expect (u32_checked index) in
      insert_outputs tx_id (index + 1) outs (<[(tx_id, i) := output]> created_outputs)
        (PendingOutputs.respond (tx_id, i) output pending_outputs)
  end.

(** [VerifiedSet::insert]; [utc_now] is the time of the clock. *)
Definition insert (utc_now : Z) (tx : VerifiedUnminedTx) (spent_mempool_outpoints : list OutPoint)
    (pending_outputs : PendingOutputs) (height : option Z) (self : VerifiedSet) :
    outcome SameEffectsTipRejectionError (VerifiedSet * PendingOutputs) :=
  do? require (negb (has_spend_conflicts self (unmined tx))) SpendConflict in
  do? require (forallb (fun outpoint => bool_decide (is_Some (created_outputs self !! outpoint))) spent_mempool_outpoints)
        MissingOutput in
  let tx_id := mined_id (id (unmined tx)) in
  let deps := add tx_id spent_mempool_outpoints (transaction_dependencies self) in
  let t := effects (transaction (unmined tx)) in
  let? ' (created, pending) := insert_outputs tx_id 0 (outputs t) (created_outputs self) pending_outputs in
  let? serialized_size := expect (usize_checked (transactions_serialized_size self + size (unmined tx))) in
  let? cost := expect (u64_checked (total_cost self + cost tx)) in
  let tx := mkVerified (unmined tx) (miner_fee tx) (legacy_sigop_count tx) (p2sh_sigop_count tx)
    (conventional_actions_count tx) (unpaid_actions_count tx) (Some utc_now) height (verified_spent_outputs tx) in
  Ok (mkSet (<[tx_id := tx]> (transactions self)) deps created serialized_size cost
    (list_to_set (TransactionValues.spent_outpoints t) ∪ spent_outpoints self)
    (list_to_set (tx_sprout_nullifiers t) ∪ sprout_nullifiers self)
    (list_to_set (tx_sapling_nullifiers t) ∪ sapling_nullifiers self)
    (list_to_set (tx_orchard_nullifiers t) ∪ orchard_nullifiers self)
    (list_to_set (tx_ironwood_nullifiers t) ∪ ironwood_nullifiers self), pending).

(** [VerifiedSet::remove_from_set]. *)
Definition remove_from_set {T} `{Countable T} (set : gset T) (items : list T) : gset T :=
  foldl (fun set item => set ∖ {[item]}) set items.

(** [VerifiedSet::remove_outputs], of a transaction that has left the map. *)
Fixpoint remove_created {E : Type} (tx_id : TxHash) (index : Z) (outs : list TxOutput)
    (created_outputs : gmap OutPoint TxOutput) : outcome E (gmap OutPoint TxOutput) :=
  match outs with
  | [] => Ok created_outputs
  | _ :: outs =>
      let? i := expect (u32_checked index) in
      remove_created tx_id (index + 1) outs (delete (tx_id, i) created_outputs)
  end.
Definition remove_outputs {E : Type} (unmined_tx : UnminedTx) (self : VerifiedSet) : outcome E VerifiedSet :=
  let tx := effects (transaction unmined_tx) in
  let? created := remove_created (mined_id (id unmined_tx)) 0 (outputs tx) (created_outputs self) in
  Ok (mkSet (transactions self) (transaction_dependencies self) created
    (transactions_serialized_size self) (total_cost self)
    (remove_from_set (spent_outpoints self) (TransactionValues.spent_outpoints tx))
    (remove_from_set (sprout_nullifiers self) (tx_sprout_nullifiers tx))
    (remove_from_set (sapling_nullifiers self) (tx_sapling_nullifiers tx))
    (remove_from_set (orchard_nullifiers self) (tx_orchard_nullifiers tx))
    (remove_from_set (ironwood_nullifiers self) (tx_ironwood_nullifiers tx))).

(** The closure of [filter_map] in [VerifiedSet::remove], for a transaction of the
    map. *)
Definition remove_entry {E : Type} (key : TxHash) (removed_tx : VerifiedUnminedTx) (self : VerifiedSet) : outcome E VerifiedSet :=
  let? serialized_size := expect (usize_checked (transactions_serialized_size self - size (unmined removed_tx))) in
  let? cost := expect (u64_checked (total_cost self - cost removed_tx)) in
  remove_outputs (unmined removed_tx)
    (mkSet (delete key (transactions self)) (transaction_dependencies self) (created_outputs self)
      serialized_size cost (spent_outpoints self) (sprout_nullifiers self) (sapling_nullifiers self)
      (orchard_nullifiers self) (ironwood_nullifiers self)).

(** Its iterator; a key that is not in the map is skipped. *)
Fixpoint remove_keys {E : Type} (keys : list TxHash) (self : VerifiedSet) : outcome E (list VerifiedUnminedTx * VerifiedSet) :=
  match keys with
  | [] => Ok ([], self)
  | key :: keys =>
      match transactions self !! key with
      | None => remove_keys keys self
      | Some removed_tx =>
          let? self := remove_entry key removed_tx self in
          let? ' (removed, self) := remove_keys keys self in
          Ok (removed_tx :: removed, self)
      end
  end.

Definition set_dependencies (deps : TransactionDependencies) (self : VerifiedSet) : VerifiedSet :=
  mkSet (transactions self) deps (created_outputs self) (transactions_serialized_size self) (total_cost self)
    (spent_outpoints self) (sprout_nullifiers self) (sapling_nullifiers self) (orchard_nullifiers self)
    (ironwood_nullifiers self).

(** [VerifiedSet::remove]. *)
Definition remove {E : Type} (key_to_remove : TxHash) (self : VerifiedSet) : outcome E (list VerifiedUnminedTx * VerifiedSet) :=
  let (deps, dependents) := remove_all key_to_remove (transaction_dependencies self) in
  remove_keys (elements dependents ++ [key_to_remove]) (set_dependencies deps self).

(** [VerifiedSet::clear_mined_dependencies]. *)
Definition clear_mined_dependencies (mined_ids : gset TxHash) (self : VerifiedSet) : VerifiedSet :=
  set_dependencies (Deps.clear_mined_dependencies mined_ids (transaction_dependencies self)) self.

(** [VerifiedSet::remove_all_that]. *)
Fixpoint remove_each {E : Type} (keys : list TxHash) (removed_transactions : gset UnminedTxId) (self : VerifiedSet) :
    outcome E (gset UnminedTxId * VerifiedSet) :=
  match keys with
  | [] => Ok (removed_transactions, self)
  | key :: keys =>
      if negb (contains self key) then remove_each keys removed_transactions self else
      let? ' (removed, self) := remove key self in
      remove_each keys (removed_transactions ∪ list_to_set ((fun tx => id (unmined tx)) <$> removed)) self
  end.
Definition remove_all_that {E : Type} (predicate : VerifiedUnminedTx -> bool) (self : VerifiedSet) :
    outcome E (gset UnminedTxId * VerifiedSet) :=
  remove_each ((filter (fun e => predicate e.2 = true) (map_to_list (transactions self))).*1) ∅ self.

(** [VerifiedSet::evict_one]; [sample] is the draw of the weighted distribution,
    which cannot be made without weights. *)
Definition evict_one {E : Type} (sample : list Z -> nat) (self : VerifiedSet) : outcome E (option VerifiedUnminedTx * VerifiedSet) :=
  let entries := map_to_list (transactions self) in
  let keys := entries.*1 in
  let weights := (fun e => eviction_weight e.2) <$> entries in
  do? assert_that (existsb (fun w => 0 <? w) weights) in
  let? key_to_remove := expect (keys !! sample weights) in
  let? ' (removed, self) := remove key_to_remove self in
  Ok (last removed, self).
End Set_.
End VerifiedSet.
