(* ===== verification/MempoolInvariant.v ===== *)
(** * The invariant of the verified set

    What the caches of [VerifiedSet] must hold, and that every operation keeps
    it: the sums are those of the transactions, the outputs and nullifiers are
    exactly theirs, no two of them conflict, and the dependencies are an acyclic
    relation between them. *)

From S2P Require Import Prelude Amounts ValueBalances Networks NoteTrees ChainIndexes NonFinalizedChain TransactionValues HeaderCodec MempoolTx MempoolDeps MempoolSet.
Import Deps VerifiedSet.

Section Generic.
Context {K V : Type} `{Countable K}.

(** The sum of a measure over a map. *)
Definition sum_over (f : V -> Z) (m : gmap K V) : Z := map_fold (fun _ v acc => f v + acc) 0 m.

Lemma sum_over_insert f m k v : m !! k = None -> sum_over f (<[k := v]> m) = f v + sum_over f m.
Proof. intros. unfold sum_over. rewrite map_fold_insert_L; [done| |done]. intros. lia. Qed.

Lemma sum_over_delete f m k v : m !! k = Some v -> sum_over f m = f v + sum_over f (delete k m).
Proof. intros L. rewrite <- (sum_over_insert f (delete k m) k v) by apply lookup_delete_eq. by rewrite insert_delete_id. Qed.

Lemma sum_over_le f g m : (forall k v, m !! k = Some v -> f v <= g v) -> sum_over f m <= sum_over g m.
Proof.
  induction m as [|k v m F IH] using map_ind; intros L; [done|]. rewrite !sum_over_insert by done.
  assert (f v <= g v) by (apply (L k); apply lookup_insert_eq).
  enough (sum_over f m <= sum_over g m) by lia. apply IH. intros j w Hj. apply (L j).
  rewrite lookup_insert_ne; [done|]. intros ->. congruence.
Qed.

Lemma sum_over_zero m : sum_over (fun _ => 0) m = 0.
Proof. induction m as [|k v m F IH] using map_ind; [done|]. by rewrite sum_over_insert. Qed.

Lemma sum_over_nonneg f m : (forall k v, m !! k = Some v -> 0 <= f v) -> 0 <= sum_over f m.
Proof. intros. rewrite <- (sum_over_zero m). by apply sum_over_le. Qed.

Lemma sum_over_subseteq f m' : forall m, m' ⊆ m -> (forall k v, m !! k = Some v -> 0 <= f v) -> sum_over f m' <= sum_over f m.
Proof.
  induction m' as [|k v m' F IH] using map_ind; intros m Sub P; [by apply sum_over_nonneg|].
  assert (L : m !! k = Some v) by (eapply lookup_weaken; [apply lookup_insert_eq|done]).
  rewrite sum_over_insert, (sum_over_delete f m k v) by done. enough (sum_over f m' <= sum_over f (delete k m)) by lia.
  apply IH; [|by intros j w [_ Lj]%lookup_delete_Some; apply (P j)].
  apply map_subseteq_spec. intros j w Lj. assert (k <> j) by (intros ->; congruence). rewrite lookup_delete_ne by done.
  eapply lookup_weaken; [|done]. by rewrite lookup_insert_ne.
Qed.

(** The set [S] holds exactly the items of the values, and no item is of two. *)
Definition tracks {X} `{Countable X} (f : V -> list X) (m : gmap K V) (S : gset X) : Prop :=
  (forall x, x ∈ S <-> exists k v, m !! k = Some v /\ x ∈ f v) /\
  (forall k1 k2 v1 v2 x, m !! k1 = Some v1 -> m !! k2 = Some v2 -> x ∈ f v1 -> x ∈ f v2 -> k1 = k2).

Context {X : Type} `{Countable X}.

Lemma has_conflicts_false (S : gset X) l : has_conflicts S l = false <-> forall x, x ∈ l -> x ∉ S.
Proof.
  unfold has_conflicts. induction l as [|y l IH]; cbn; [set_solver|]. rewrite orb_false_iff, IH, bool_decide_eq_false. set_solver.
Qed.

Lemma elem_of_remove_from_set (S : gset X) l x : x ∈ remove_from_set S l <-> x ∈ S /\ x ∉ l.
Proof.
  unfold remove_from_set. revert S. induction l as [|y l IH]; intros S; cbn; [set_solver|]. rewrite IH. set_solver.
Qed.

Lemma tracks_empty (f : V -> list X) : tracks f ∅ ∅.
Proof. split; [intros x; split; [set_solver|]|]; intros; simplify_map_eq; naive_solver. Qed.

Lemma tracks_insert (f : V -> list X) m S k v : tracks f m S -> m !! k = None -> has_conflicts S (f v) = false ->
  tracks f (<[k := v]> m) (list_to_set (f v) ∪ S).
Proof.
  intros [T D] F C. rewrite has_conflicts_false in C. split.
  - intros x. rewrite elem_of_union, elem_of_list_to_set, T. split.
    + intros [I|(j & w & L & I)]; [exists k, v; by rewrite lookup_insert_eq|].
      exists j, w. rewrite lookup_insert_ne by congruence. done.
    + intros (j & w & [[-> ->]|[N L]]%lookup_insert_Some & I); [by left|right; eauto].
  - intros k1 k2 v1 v2 x [[<- <-]|[N1 L1]]%lookup_insert_Some [[<- <-]|[N2 L2]]%lookup_insert_Some I1 I2; [done| | |by eapply D].
    + destruct (C x I1). apply T. eauto.
    + destruct (C x I2). apply T. eauto.
Qed.

Lemma tracks_delete (f : V -> list X) m S k v : tracks f m S -> m !! k = Some v ->
  tracks f (delete k m) (remove_from_set S (f v)).
Proof.
  intros [T D] L. split.
  - intros x. rewrite elem_of_remove_from_set, T. split.
    + intros [(j & w & Lj & I) N]. exists j, w. rewrite lookup_delete_ne by (intros ->; congruence). done.
    + intros (j & w & [N Lj]%lookup_delete_Some & I). split; [eauto|]. intros I'. apply N. by apply (D k j v w x).
  - intros k1 k2 v1 v2 x [_ L1]%lookup_delete_Some [_ L2]%lookup_delete_Some. by apply D.
Qed.
End Generic.

Section Invariant.
Context `{CB : ConsensusBuild} `{CT : ChainTypes} {ME : MempoolEnv}.
Notation TxOutput := (Output (Script:=Script)).

Definition output_at (outs : list TxOutput) (i : Z) : option TxOutput :=
  if 0 <=? i then outs !! Z.to_nat i else None.

(** What is known of a transaction that has been deserialized and verified: its
    counts are unsigned. *)
Definition tx_ok (tx : VerifiedUnminedTx) : Prop :=
  0 <= size (unmined tx) /\ count (outputs (verified_effects tx)) <= U32_MAX + 1 /\
  0 <= legacy_sigop_count tx /\ 0 <= p2sh_sigop_count tx /\ 0 <= unpaid_actions_count tx.

(** The items of a transaction. *)
Definition spent_of (tx : VerifiedUnminedTx) : list OutPoint := TransactionValues.spent_outpoints (verified_effects tx).
Definition sprout_of (tx : VerifiedUnminedTx) : list Nullifier := tx_sprout_nullifiers (verified_effects tx).
Definition sapling_of (tx : VerifiedUnminedTx) : list Nullifier := tx_sapling_nullifiers (verified_effects tx).
Definition orchard_of (tx : VerifiedUnminedTx) : list Nullifier := tx_orchard_nullifiers (verified_effects tx).
Definition ironwood_of (tx : VerifiedUnminedTx) : list Nullifier := tx_ironwood_nullifiers (verified_effects tx).

(** The caches of a set, without its dependencies. *)
Record caches_ok (self : VerifiedSet) : Prop := mkCaches {
  ok_keys : forall k tx, transactions self !! k = Some tx -> verified_id tx = k /\ tx_ok tx;
  ok_size : transactions_serialized_size self = sum_over (fun tx => size (unmined tx)) (transactions self);
  ok_cost : total_cost self = sum_over cost (transactions self);
  ok_u64 : total_cost self <= U64_MAX;
  ok_created : forall h i o, created_outputs self !! (h, i) = Some o <->
    exists tx, transactions self !! h = Some tx /\ output_at (outputs (verified_effects tx)) i = Some o;
  ok_spent : tracks spent_of (transactions self) (spent_outpoints self);
  ok_sprout : tracks sprout_of (transactions self) (sprout_nullifiers self);
  ok_sapling : tracks sapling_of (transactions self) (sapling_nullifiers self);
  ok_orchard : tracks orchard_of (transactions self) (orchard_nullifiers self);
  ok_ironwood : tracks ironwood_of (transactions self) (ironwood_nullifiers self);
}.

(** The dependencies of a set. *)
Record dependencies_ok (self : VerifiedSet) : Prop := mkDependenciesOk {
  ok_consistent : consistent (transaction_dependencies self);
  ok_acyclic : acyclic (transaction_dependencies self);
  ok_within : forall a b, dep (transaction_dependencies self) a b ->
    is_Some (transactions self !! a) /\ is_Some (transactions self !! b);
}.

Record set_ok (self : VerifiedSet) : Prop := mkSetOk {
  set_caches : caches_ok self;
  set_dependencies_ok : dependencies_ok self;
}.

Lemma empty_set_ok : set_ok empty_set.
Proof.
  split; split; cbn; try apply tracks_empty; try done.
  - intros h i o. split; [done|]. intros (tx & L & _). done.
  - intros a T. by inversion T as [? ? D|? ? ? D].
Qed.

(** ** Outputs *)

Lemma output_at_cons o outs i : output_at (o :: outs) i = if i =? 0 then Some o else output_at outs (i - 1).
Proof.
  unfold output_at. destruct (Z.eqb_spec i 0) as [->|N]; [done|]. destruct (Z.leb_spec 0 i), (Z.leb_spec 0 (i - 1)); try lia; [|done].
  replace (Z.to_nat i) with (S (Z.to_nat (i - 1))) by lia. done.
Qed.

Lemma insert_outputs_ok {E} h outs : forall index m p, 0 <= index -> index + count outs <= U32_MAX + 1 ->
  exists m' p', insert_outputs (E:=E) h index outs m p = Ok (m', p') /\
    forall k i, m' !! (k, i) = match (if decide (k = h) then output_at outs (i - index) else None) with
                              | Some o => Some o | None => m !! (k, i) end.
Proof.
  induction outs as [|o outs IH]; intros index m p Hi Hc; cbn.
  - exists m, p. split; [done|]. intros k i. unfold output_at. by repeat case_match.
  - unfold count in Hc. cbn in Hc. rewrite checked_ok by bool_lia. cbn.
    destruct (IH (index + 1) (<[(h, index) := o]> m) (PendingOutputs.respond (h, index) o p)) as (m' & p' & -> & L); [lia|unfold count; lia|].
    exists m', p'. split; [done|]. intros k i. rewrite L, output_at_cons. case_decide as D.
    + subst k. replace (i - index - 1) with (i - (index + 1)) by lia. destruct (Z.eqb_spec (i - index) 0) as [Q|Q].
      * replace i with index by lia. unfold output_at. destruct (Z.leb_spec 0 (index - (index + 1))); [lia|]. by rewrite lookup_insert_eq.
      * destruct (output_at outs _); [done|]. rewrite lookup_insert_ne; [done|]. intros [= ->]. lia.
    + rewrite lookup_insert_ne; [done|]. congruence.
Qed.

Lemma remove_created_ok {E} h outs : forall index m, 0 <= index -> index + count outs <= U32_MAX + 1 ->
  exists m', remove_created (E:=E) h index outs m = Ok m' /\
    forall k i, m' !! (k, i) = if decide (k = h) then match output_at outs (i - index) with Some _ => None | None => m !! (k, i) end
                              else m !! (k, i).
Proof.
  induction outs as [|o outs IH]; intros index m Hi Hc; cbn.
  - exists m. split; [done|]. intros k i. unfold output_at. by repeat case_match.
  - unfold count in Hc. cbn in Hc. rewrite checked_ok by bool_lia. cbn.
    destruct (IH (index + 1) (delete (h, index) m)) as (m' & -> & L); [lia|unfold count; lia|].
    exists m'. split; [done|]. intros k i. rewrite L, output_at_cons. case_decide as D.
    + subst k. replace (i - index - 1) with (i - (index + 1)) by lia. destruct (Z.eqb_spec (i - index) 0) as [Q|Q].
      * replace i with index by lia. by rewrite lookup_delete_eq; destruct (output_at _ _).
      * destruct (output_at outs _); [done|]. rewrite lookup_delete_ne; [done|]. intros [= ->]. lia.
    + rewrite lookup_delete_ne; [done|]. congruence.
Qed.

(** ** Insertion *)

Lemma has_spend_conflicts_false self tx : has_spend_conflicts self (unmined tx) = false <->
  has_conflicts (spent_outpoints self) (spent_of tx) = false /\ has_conflicts (sprout_nullifiers self) (sprout_of tx) = false /\
  has_conflicts (sapling_nullifiers self) (sapling_of tx) = false /\ has_conflicts (orchard_nullifiers self) (orchard_of tx) = false /\
  has_conflicts (ironwood_nullifiers self) (ironwood_of tx) = false.
Proof. unfold has_spend_conflicts. rewrite !orb_false_iff. tauto. Qed.

Lemma cost_bounds tx : tx_ok tx -> 0 <= size (unmined tx) <= cost tx /\ 0 < cost tx.
Proof. unfold tx_ok, cost, MEMPOOL_TRANSACTION_COST_THRESHOLD. lia. Qed.

Lemma size_le_cost self : caches_ok self -> 0 <= transactions_serialized_size self <= total_cost self.
Proof.
  intros C. rewrite (ok_size _ C), (ok_cost _ C). split.
  - apply sum_over_nonneg. intros k tx L. apply cost_bounds. by apply (ok_keys _ C k).
  - apply sum_over_le. intros k tx L. apply cost_bounds. by apply (ok_keys _ C k).
Qed.

(** The transaction that is stored. *)
Definition stored (utc_now : Z) (height : option Z) (tx : VerifiedUnminedTx) : VerifiedUnminedTx :=
  mkVerified (unmined tx) (miner_fee tx) (legacy_sigop_count tx) (p2sh_sigop_count tx)
    (conventional_actions_count tx) (unpaid_actions_count tx) (Some utc_now) height (verified_spent_outputs tx).

Definition outputs_known (self : VerifiedSet) (spent : list OutPoint) : bool :=
  forallb (fun outpoint => bool_decide (is_Some (created_outputs self !! outpoint))) spent.

Lemma outputs_known_within self spent o : caches_ok self -> outputs_known self spent = true -> o ∈ spent.*1 ->
  is_Some (transactions self !! o).
Proof.
  intros C K ((h & i) & -> & I)%list_elem_of_fmap. unfold outputs_known in K. rewrite forallb_forall in K.
  specialize (K (h, i) (proj1 (list_elem_of_In _ _) I)). apply bool_decide_eq_true_1 in K as [out L]. apply (ok_created _ C) in L as (tx & L & _). eauto.
Qed.

Lemma dependencies_insert self x tx spent : caches_ok self -> dependencies_ok self -> transactions self !! x = None ->
  outputs_known self spent = true ->
  let deps := add x spent (transaction_dependencies self) in
  consistent deps /\ acyclic deps /\
  (forall a b, dep deps a b <-> dep (transaction_dependencies self) a b \/ b = x /\ a ∈ spent.*1) /\
  (forall a b, dep deps a b -> is_Some (<[x := tx]> (transactions self) !! a) /\ is_Some (<[x := tx]> (transactions self) !! b)).
Proof.
  intros C [Cs Ac W] F K. set (D := transaction_dependencies self) in *.
  assert (F1 : direct_dependents D x = ∅).
  { apply set_eq. intros y. split; [|set_solver]. intros Dx. destruct (W x y Dx) as [[? ?] _]. congruence. }
  assert (F2 : direct_dependencies D x = ∅).
  { apply set_eq. intros y. split; [|set_solver]. intros Dx%(inverse _ Cs). destruct (W y x Dx) as [_ [? ?]]. congruence. }
  assert (F3 : x ∉ spent.*1) by (intros I; destruct (outputs_known_within _ _ _ C K I); congruence).
  destruct (add_spec D x spent Cs F2) as [Cs' S]. split_and!; [done|by apply acyclic_add|done|].
  intros a b [Dab|[-> I]]%S; rewrite !lookup_insert_is_Some'.
  - destruct (W a b Dab). tauto.
  - split; [right; by eapply outputs_known_within|by left].
Qed.

(** [insert] refuses a transaction that conflicts with the set or spends an output
    that is not there; otherwise the set holds it and its invariant. *)
Lemma insert_ok now tx spent pending height self : set_ok self -> tx_ok tx ->
  transactions self !! verified_id tx = None -> total_cost self + cost tx <= U64_MAX ->
  (has_spend_conflicts self (unmined tx) = true -> insert now tx spent pending height self = Err SpendConflict) /\
  (has_spend_conflicts self (unmined tx) = false -> outputs_known self spent = false ->
   insert now tx spent pending height self = Err MissingOutput) /\
  (has_spend_conflicts self (unmined tx) = false -> outputs_known self spent = true ->
   exists self' pending', insert now tx spent pending height self = Ok (self', pending') /\ set_ok self' /\
     transactions self' = <[verified_id tx := stored now height tx]> (transactions self) /\
     (forall a b, dep (transaction_dependencies self') a b <->
        dep (transaction_dependencies self) a b \/ b = verified_id tx /\ a ∈ spent.*1) /\
     total_cost self' = total_cost self + cost tx).
Proof.
  intros [C D] T F B. split_and!.
  { intros X. unfold insert. by rewrite X. }
  { intros X Y. unfold insert. fold (outputs_known self spent). by rewrite X, Y. }
  intros X Y. unfold insert. fold (outputs_known self spent). rewrite X, Y. cbn [negb require obind].
  destruct (insert_outputs_ok (E := SameEffectsTipRejectionError) (verified_id tx) (outputs (verified_effects tx)) 0
    (created_outputs self) pending) as (m & p & Ho & L); [lia|destruct T; lia|].
  unfold verified_id, verified_effects in Ho. rewrite Ho. cbn [obind].
  pose proof (size_le_cost _ C) as Sz. pose proof (cost_bounds _ T) as Ct.
  rewrite !checked_ok by (pose proof (ok_u64 _ C); bool_lia). cbn [expect obind].
  destruct (dependencies_insert self (verified_id tx) (stored now height tx) spent C D F Y) as (D1 & D2 & D3 & D4).
  eexists _, _. split; [done|]. split; [|split_and!; [done|exact D3|done]].
  apply has_spend_conflicts_false in X as (X1 & X2 & X3 & X4 & X5). split; split; cbn [transactions transaction_dependencies created_outputs
    transactions_serialized_size total_cost spent_outpoints sprout_nullifiers sapling_nullifiers orchard_nullifiers ironwood_nullifiers].
  - intros k t [[<- <-]|[N Lk]]%lookup_insert_Some; [done|by apply (ok_keys _ C)].
  - rewrite sum_over_insert by done. cbn. rewrite <- (ok_size _ C). lia.
  - rewrite sum_over_insert by done. cbn. rewrite <- (ok_cost _ C). change (cost (mkVerified _ _ _ _ _ _ _ _ _)) with (cost tx). lia.
  - lia.
  - intros h i o. rewrite L, Z.sub_0_r. case_decide as Q.
    + subst h. setoid_rewrite lookup_insert_eq. destruct (output_at _ i) as [o'|] eqn:O.
      * split; [intros [= ->]; eauto|]. intros (? & [= <-] & O'). unfold verified_effects in *. cbn in O'. congruence.
      * split; [intros (t & Lt & _)%(ok_created _ C); congruence|]. intros (? & [= <-] & O'). unfold verified_effects in *. cbn in O'. congruence.
    + rewrite (ok_created _ C). f_equiv. intros t. by rewrite lookup_insert_ne by (intros <-; by apply Q).
  - apply (tracks_insert spent_of _ _ _ (stored now height tx)); [exact (ok_spent _ C)|done..].
  - apply (tracks_insert sprout_of _ _ _ (stored now height tx)); [exact (ok_sprout _ C)|done..].
  - apply (tracks_insert sapling_of _ _ _ (stored now height tx)); [exact (ok_sapling _ C)|done..].
  - apply (tracks_insert orchard_of _ _ _ (stored now height tx)); [exact (ok_orchard _ C)|done..].
  - apply (tracks_insert ironwood_of _ _ _ (stored now height tx)); [exact (ok_ironwood _ C)|done..].
  - done.
  - done.
  - done.
Qed.

(** ** Removal *)

Lemma remove_entry_ok {E : Type} key tx self : caches_ok self -> transactions self !! key = Some tx ->
  exists self', remove_entry (E:=E) key tx self = Ok self' /\ caches_ok self' /\
    transactions self' = delete key (transactions self) /\ transaction_dependencies self' = transaction_dependencies self.
Proof.
  intros C L. destruct (ok_keys _ C _ _ L) as [Hk T]. pose proof (cost_bounds _ T) as Ct.
  pose proof (ok_cost _ C) as Q1. pose proof (ok_size _ C) as Q2. rewrite (sum_over_delete _ _ _ _ L) in Q1. rewrite (sum_over_delete _ _ _ _ L) in Q2.
  pose proof (ok_u64 _ C) as U. pose proof (size_le_cost _ C) as Sz.
  assert (Ps : forall f, (forall t, tx_ok t -> 0 <= f t) -> 0 <= sum_over f (delete key (transactions self))).
  { intros f P. apply sum_over_nonneg. intros k t [_ Lk]%lookup_delete_Some. apply P. by apply (ok_keys _ C k). }
  pose proof (Ps cost ltac:(intros t Ht; pose proof (cost_bounds _ Ht); lia)) as P1.
  pose proof (Ps (fun t => size (unmined t)) ltac:(intros t Ht; pose proof (cost_bounds _ Ht); cbn; lia)) as P2.
  unfold remove_entry. cbn in Q2. rewrite !checked_ok by bool_lia. cbn [expect obind]. unfold remove_outputs.
  destruct (remove_created_ok (E:=E) (verified_id tx) (outputs (verified_effects tx)) 0 (created_outputs self)) as (m & Hm & Lm); [lia|destruct T; lia|].
  unfold verified_id, verified_effects in Hm. cbn [created_outputs]. rewrite Hm. cbn [obind]. eexists. split; [done|]. split; [|done].
  split; cbn [transactions created_outputs transactions_serialized_size total_cost spent_outpoints sprout_nullifiers
    sapling_nullifiers orchard_nullifiers ironwood_nullifiers].
  - intros k t [_ Lk]%lookup_delete_Some. by apply (ok_keys _ C).
  - lia.
  - lia.
  - lia.
  - intros h i o. rewrite Lm, Z.sub_0_r, Hk. case_decide as D.
    + subst h. setoid_rewrite lookup_delete_eq. split; [|by intros (? & ? & _)].
      destruct (output_at _ i) eqn:O; [done|]. intros (t & Lt & O')%(ok_created _ C). congruence.
    + rewrite (ok_created _ C). f_equiv. intros t. by rewrite lookup_delete_ne.
  - by apply (tracks_delete spent_of); [exact (ok_spent _ C)|].
  - by apply (tracks_delete sprout_of); [exact (ok_sprout _ C)|].
  - by apply (tracks_delete sapling_of); [exact (ok_sapling _ C)|].
  - by apply (tracks_delete orchard_of); [exact (ok_orchard _ C)|].
  - by apply (tracks_delete ironwood_of); [exact (ok_ironwood _ C)|].
Qed.

Lemma remove_keys_ok {E : Type} keys : forall self, NoDup keys -> caches_ok self ->
  exists self', remove_keys (E:=E) keys self = Ok (omap (fun k => transactions self !! k) keys, self') /\ caches_ok self' /\
    (forall k, transactions self' !! k = if decide (k ∈ keys) then None else transactions self !! k) /\
    transaction_dependencies self' = transaction_dependencies self.
Proof.
  induction keys as [|key keys IH]; intros self N C; cbn.
  - exists self. split_and!; try done.
  - apply NoDup_cons in N as [Nk N]. destruct (transactions self !! key) as [tx|] eqn:L.
    + destruct (remove_entry_ok (E:=E) _ _ _ C L) as (s1 & -> & C1 & T1 & D1). cbn.
      destruct (IH s1 N C1) as (s2 & -> & C2 & T2 & D2). cbn. exists s2. split_and!; [|done| |congruence].
      * do 3 f_equal. apply list_omap_ext. apply Forall2_same_length_lookup_2; [done|]. intros i x y Hx Hy. rewrite Hx in Hy. injection Hy as <-.
        rewrite T1, lookup_delete_ne; [done|]. intros ->. apply Nk. by eapply list_elem_of_lookup_2.
      * intros k. rewrite T2, T1. destruct (decide (k = key)) as [->|Nq].
        -- rewrite lookup_delete_eq. rewrite (decide_True (P := key ∈ key :: keys)) by set_solver. by case_decide.
        -- rewrite lookup_delete_ne by done. repeat case_decide; set_solver.
    + destruct (IH self N C) as (s2 & -> & C2 & T2 & D2). exists s2. split_and!; try done.
      intros k. rewrite T2. destruct (decide (k = key)) as [->|Nq]; [rewrite L; by repeat case_decide|]. repeat case_decide; set_solver.
Qed.

(** The transactions that depend on [key], with it. *)
Definition closure_of (self : VerifiedSet) (key : TxHash) (C : gset TxHash) : Prop :=
  forall x, x ∈ C <-> rtc (dep (transaction_dependencies self)) key x.

(** [self'] is [self] without the transactions of [C]. *)
Record without (C : gset TxHash) (self self' : VerifiedSet) : Prop := mkWithout {
  w_transactions : forall k, transactions self' !! k = if decide (k ∈ C) then None else transactions self !! k;
  w_dependencies : forall a b, dep (transaction_dependencies self') a b <->
    dep (transaction_dependencies self) a b /\ a ∉ C /\ b ∉ C;
}.

(** [remove] removes the transaction and what depends on it, and nothing else;
    the transaction is the last of its result. *)
Lemma remove_ok {E : Type} key tx self : set_ok self -> transactions self !! key = Some tx ->
  exists removed self' C, remove (E:=E) key self = Ok (removed ++ [tx], self') /\ set_ok self' /\
    closure_of self key C /\ without C self self' /\
    (forall t, t ∈ removed ++ [tx] <-> exists k, k ∈ C /\ transactions self !! k = Some t).
Proof.
  intros [C [Cs Ac W]] L. unfold remove. pose proof (remove_all_exact _ key Cs) as R.
  destruct (remove_all key (transaction_dependencies self)) as [D' all]. destruct R as (Cs' & Re & Tc & Dp).
  assert (Nk : key ∉ all) by (intros I; by apply (Ac key), Tc).
  destruct (remove_keys_ok (E:=E) (elements all ++ [key]) (set_dependencies D' self)) as (s' & -> & C' & T' & Dd).
  { apply NoDup_app. split_and!; [apply NoDup_elements| |apply NoDup_singleton]. intros x Hx%elem_of_elements ->%list_elem_of_singleton. done. }
  { by destruct C. }
  rewrite omap_app. cbn [omap list_omap]. cbn [transactions set_dependencies]. rewrite L.
  assert (In : forall k, k ∈ elements all ++ [key] <-> k ∈ {[key]} ∪ all)
    by (intros k; rewrite elem_of_app, elem_of_elements, list_elem_of_singleton; set_solver).
  assert (Wo : without ({[key]} ∪ all) self s').
  { split; [intros k; rewrite T'; cbn; repeat case_decide; naive_solver|]. intros a b. rewrite Dd. cbn. by rewrite Dp, !Re. }
  exists (omap (fun k => transactions self !! k) (elements all)), s', ({[key]} ∪ all). split_and!; [done| |done|done|].
  - split; [done|]. split; [by rewrite Dd| |].
    + rewrite Dd. eapply acyclic_mono; [done|]. by intros a b [? _]%Dp.
    + intros a b (Dab & Na & Nb)%(w_dependencies _ _ _ Wo). destruct (W a b Dab).
      by rewrite !(w_transactions _ _ _ Wo), !decide_False.
  - intros t. rewrite elem_of_app, list_elem_of_omap, list_elem_of_singleton. split.
    + intros [(k & I%elem_of_elements & Lk)| ->]; [exists k|exists key]; set_solver.
    + intros (k & [->%elem_of_singleton|I]%elem_of_union & Lk); [right; congruence|left]. exists k. by rewrite elem_of_elements.
Qed.

(** A path that ends outside of a closed set avoids it. *)
Lemma rtc_avoids {A : Type} `{Countable A} (R R' : A -> A -> Prop) (C : gset A) x y :
  (forall a b, a ∈ C -> R a b -> b ∈ C) -> (forall a b, R a b -> a ∉ C -> b ∉ C -> R' a b) ->
  rtc R x y -> y ∉ C -> x ∉ C /\ rtc R' x y.
Proof.
  intros Cl Sub P N. induction P as [x|x y z S P IH]; [by split; [|apply rtc_refl]|].
  destruct (IH N) as [Ny P']. assert (x ∉ C) by (intros I; by eapply Ny, Cl). split; [done|].
  eapply rtc_l; [by apply Sub|done].
Qed.

Lemma closure_closed self key C : closure_of self key C ->
  forall a b, a ∈ C -> dep (transaction_dependencies self) a b -> b ∈ C.
Proof. intros Cl a b Ha Dab. apply Cl. apply Cl in Ha. by eapply rtc_r. Qed.

(** What is removed when every key of a list is. *)
Definition closure_from (self : VerifiedSet) (keys : list TxHash) (C : gset TxHash) : Prop :=
  forall x, x ∈ C <-> exists k, k ∈ keys /\ is_Some (transactions self !! k) /\ rtc (dep (transaction_dependencies self)) k x.

Lemma closure_step self s1 key keys C1 C2 : is_Some (transactions self !! key) -> closure_of self key C1 ->
  without C1 self s1 -> closure_from s1 keys C2 -> closure_from self (key :: keys) (C1 ∪ C2).
Proof.
  intros Hk K1 W K2 x. rewrite elem_of_union, (K1 x), (K2 x). split.
  - intros [P|(k & I & Sk & P)]; [exists key; set_solver|]. exists k. split_and!; [set_solver| |].
    + rewrite (w_transactions _ _ _ W) in Sk. case_decide; [by destruct Sk|done].
    + eapply rtc_subrel; [|exact P]. by intros a b [? _]%(w_dependencies _ _ _ W).
  - intros (k & [->|I]%elem_of_cons & Sk & P); [by left|]. destruct (decide (x ∈ C1)) as [I1|N1]; [left; by apply K1|right].
    destruct (rtc_avoids _ (dep (transaction_dependencies s1)) C1 k x (closure_closed _ _ _ K1)) as [Nk P']; [|done|done|].
    { intros a b ? ? ?. by apply (w_dependencies _ _ _ W). }
    exists k. split_and!; [done| |done]. by rewrite (w_transactions _ _ _ W), decide_False.
Qed.

Lemma without_trans C1 C2 self s1 s2 : without C1 self s1 -> without C2 s1 s2 -> without (C1 ∪ C2) self s2.
Proof.
  intros [T1 D1] [T2 D2]. split.
  - intros k. rewrite T2, T1. repeat case_decide; set_solver.
  - intros a b. rewrite D2, D1. set_solver.
Qed.

Lemma without_refl self : without ∅ self self.
Proof. split; [intros k; by rewrite decide_False by set_solver|set_solver]. Qed.

Lemma without_cost C self s' : set_ok self -> set_ok s' -> without C self s' -> total_cost s' <= total_cost self.
Proof.
  intros [K _] [K' _] W. rewrite (ok_cost _ K), (ok_cost _ K'). apply sum_over_subseteq.
  - apply map_subseteq_spec. intros k t L. rewrite (w_transactions _ _ _ W) in L. by case_decide.
  - intros k t L. destruct (ok_keys _ K _ _ L) as [_ T]. pose proof (cost_bounds _ T). lia.
Qed.

Definition ids_of (self : VerifiedSet) (C : gset TxHash) (u : UnminedTxId) : Prop :=
  exists k t, k ∈ C /\ transactions self !! k = Some t /\ u = id (unmined t).

Lemma remove_each_ok {E : Type} keys : forall acc self, set_ok self ->
  exists ids self' C, remove_each (E:=E) keys acc self = Ok (ids, self') /\ set_ok self' /\ closure_from self keys C /\
    without C self self' /\ forall u, u ∈ ids <-> u ∈ acc \/ ids_of self C u.
Proof.
  induction keys as [|key keys IH]; intros acc self S; cbn.
  - exists acc, self, ∅. split_and!; [done..| |apply without_refl|].
    + intros x. set_solver.
    + intros u. split; [by left|]. intros [?|(k & t & ? & _)]; set_solver.
  - unfold contains. destruct (transactions self !! key) as [tx|] eqn:L.
    + rewrite bool_decide_eq_true_2 by eauto. cbn.
      destruct (remove_ok (E:=E) _ _ _ S L) as (removed & s1 & C1 & -> & S1 & K1 & W1 & M1). cbn.
      match goal with |- context [remove_each keys ?a s1] => destruct (IH a s1 S1) as (ids & s2 & C2 & -> & S2 & K2 & W2 & M2) end.
      exists ids, s2, (C1 ∪ C2). split_and!; [done..|by eapply closure_step; eauto|by eapply without_trans|].
      intros u. rewrite M2, elem_of_union, elem_of_list_to_set, list_elem_of_fmap. unfold ids_of. setoid_rewrite M1. split.
      * intros [[?|(t & -> & k & I & Lk)]|(k & t & I & Lk & ->)]; [by left|right; exists k, t; set_solver|right].
        exists k, t. rewrite (w_transactions _ _ _ W1) in Lk. case_decide; [done|]. set_solver.
      * intros [?|(k & t & I & Lk & ->)]; [by left; left|]. destruct (decide (k ∈ C1)) as [I1|N1]; [left; right; eauto|right].
        exists k, t. rewrite (w_transactions _ _ _ W1), decide_False by done. set_solver.
    + rewrite bool_decide_eq_false_2 by (by intros [? ?]). cbn.
      destruct (IH acc self S) as (ids & s2 & C2 & -> & S2 & K2 & W2 & M2). exists ids, s2, C2. split_and!; try done.
      intros x. rewrite (K2 x). split; intros (k & I & Sk & P); exists k; [set_solver|].
      apply elem_of_cons in I as [->|I]; [rewrite L in Sk; by destruct Sk|done].
Qed.

(** [remove_all_that] removes the transactions that satisfy the predicate and what
    depends on them. *)
Definition closure_that (self : VerifiedSet) (predicate : VerifiedUnminedTx -> bool) (C : gset TxHash) : Prop :=
  forall x, x ∈ C <-> exists k tx, transactions self !! k = Some tx /\ predicate tx = true /\
    rtc (dep (transaction_dependencies self)) k x.

Lemma remove_all_that_ok {E : Type} predicate self : set_ok self ->
  exists ids self' C, remove_all_that (E:=E) predicate self = Ok (ids, self') /\ set_ok self' /\
    closure_that self predicate C /\ without C self self' /\ forall u, u ∈ ids <-> ids_of self C u.
Proof.
  intros S. unfold remove_all_that. set (keys := _.*1).
  assert (Hk : forall k, k ∈ keys <-> exists tx, transactions self !! k = Some tx /\ predicate tx = true).
  { intros k. subst keys. rewrite list_elem_of_fmap. split.
    - intros ([k' tx] & -> & [P I]%list_elem_of_filter). exists tx. split; [by apply elem_of_map_to_list|done].
    - intros (tx & L & P). exists (k, tx). split; [done|]. apply list_elem_of_filter. split; [done|by apply elem_of_map_to_list]. }
  destruct (remove_each_ok (E:=E) keys ∅ self S) as (ids & s' & C & -> & S' & K & W & M). exists ids, s', C.
  split_and!; [done..| |done|intros u; rewrite M; set_solver].
  intros x. rewrite (K x). setoid_rewrite Hk. split.
  - intros (k & (tx & L & P) & _ & R). eauto.
  - intros (k & tx & L & P & R). exists k. eauto.
Qed.

(** [clear_mined_dependencies] forgets dependencies on mined transactions. *)
Lemma clear_mined_ok mined self : set_ok self ->
  set_ok (clear_mined_dependencies mined self) /\
  forall a b, dep (transaction_dependencies (clear_mined_dependencies mined self)) a b <->
    dep (transaction_dependencies self) a b /\ a ∉ mined.
Proof.
  intros [C [Cs Ac W]]. destruct (clear_mined_dependencies_spec _ mined Cs) as [Cs' S]. split; [|exact S].
  split; [by destruct C|]. split; [done| |].
  - eapply acyclic_mono; [done|]. by intros a b [? _]%S.
  - intros a b [Dab _]%S. by apply W.
Qed.

(** ** Eviction *)

(** [evict_one] removes one transaction, which it returns, with what depends on it. *)
Lemma evict_one_ok {E : Type} sample self : set_ok self -> transactions self <> ∅ ->
  (forall weights, weights <> [] -> (sample weights < length weights)%nat) ->
  exists key tx self' C, evict_one (E:=E) sample self = Ok (Some tx, self') /\ transactions self !! key = Some tx /\
    set_ok self' /\ closure_of self key C /\ without C self self'.
Proof.
  intros S Ne Sa. unfold evict_one. set (entries := map_to_list (transactions self)). set (weights := _ <$> entries).
  assert (Nn : entries <> []) by (intros Q; by apply Ne, map_to_list_empty_iff).
  assert (Nw : weights <> []) by (intros Q%fmap_nil_inv; done).
  replace (existsb _ weights) with true; [|symmetry].
  2: { destruct entries as [|[k t] es] eqn:Q; [done|]. assert (L : transactions self !! k = Some t) by (apply elem_of_map_to_list; fold entries; rewrite Q; set_solver).
    unfold weights. cbn. apply orb_true_iff. left. destruct (ok_keys _ (set_caches _ S) _ _ L) as [_ T].
    pose proof (cost_bounds _ T). unfold eviction_weight, MEMPOOL_TRANSACTION_LOW_FEE_PENALTY. destruct (pays_conventional_fee t); bool_lia. }
  cbn [assert_that obind]. specialize (Sa weights Nw). unfold weights in Sa at 2. rewrite length_fmap in Sa.
  destruct (lookup_lt_is_Some_2 entries _ Sa) as [[key tx] Hl]. rewrite list_lookup_fmap, Hl. cbn [fmap option_fmap option_map expect obind fst].
  assert (L : transactions self !! key = Some tx) by (apply elem_of_map_to_list; by eapply list_elem_of_lookup_2).
  destruct (remove_ok (E:=E) _ _ _ S L) as (removed & s' & C & -> & S' & K & W & _). cbn [obind].
  exists key, tx, s', C. rewrite last_snoc. done.
Qed.
End Invariant.
