(* ===== verification/MempoolStorage.v ===== *)
(** * The storage of the mempool

    [zebrad/src/components/mempool/storage.rs]: the verified set, the lists of
    rejected transactions, the policy for standard transactions, the insertion
    with its evictions, and what a new tip does to them
    ([zebrad/src/components/mempool.rs]).

    An operation that changes the storage and returns a [Result] is a pair of the
    new storage and that result, within the outcome that records panics. *)

From S2P Require Import Prelude Amounts ValueBalances Networks NoteTrees ChainIndexes NonFinalizedChain TransactionValues HeaderCodec MempoolTx MempoolDeps MempoolSet.
Import Deps PendingOutputs(PendingOutputs) VerifiedSet(VerifiedSet, transactions, transaction_dependencies, total_cost).
Import EvictionList(EvictionList, contains_key).

Definition MAX_EVICTION_MEMORY_ENTRIES : Z := 40000.

(** [enum NonStandardTransactionError]. *)
Inductive NonStandardTransactionError :=
| IsDust
| ScriptSigTooLarge
| ScriptSigNotPushOnly
| ScriptPubKeyNonStandard
| BareMultiSig
| MultiOpReturn
| DataCarrierTooLarge
| TooManySigops
| NonStandardInputs.

(** [enum SameEffectsChainRejectionError]. *)
Inductive SameEffectsChainRejectionError := Expired | DuplicateSpend | Mined | RandomlyEvicted.

#[global] Instance chain_rejection_eq_dec : EqDecision SameEffectsChainRejectionError.
Proof. solve_decision. Defined.

Definition chain_rejection_code (e : SameEffectsChainRejectionError) : Z :=
  match e with Expired => 0 | DuplicateSpend => 1 | Mined => 2 | RandomlyEvicted => 3 end.
Definition chain_rejection_of (z : Z) : SameEffectsChainRejectionError :=
  match z with 0 => Expired | 1 => DuplicateSpend | 2 => Mined | _ => RandomlyEvicted end.

#[global] Instance chain_rejection_countable : Countable SameEffectsChainRejectionError.
Proof. apply (inj_countable' chain_rejection_code chain_rejection_of). by intros []. Defined.

Module Storage.
Section Storage_.
Context `{CB : ConsensusBuild} `{CT : ChainTypes} {ME : MempoolEnv}.
Notation TxOutput := (Output (Script:=Script)).

(** [zebra_consensus::error::TransactionError]. *)
Context {TransactionError : Type}.

(** [enum ExactTipRejectionError]. *)
Inductive ExactTipRejectionError :=
| FailedVerification (error : TransactionError)
| FailedStandard (error : NonStandardTransactionError).

(** [enum RejectionError]. *)
Inductive RejectionError :=
| ExactTip (e : ExactTipRejectionError)
| SameEffectsTip (e : SameEffectsTipRejectionError)
| SameEffectsChain (e : SameEffectsChainRejectionError)
| NonStandardRejection (e : NonStandardTransactionError).

(** [enum MempoolError]. *)
Inductive MempoolError :=
| StorageExactTip (e : ExactTipRejectionError)
| StorageEffectsTip (e : SameEffectsTipRejectionError)
| StorageEffectsChain (e : SameEffectsChainRejectionError)
| InMempool
| AlreadyQueued
| FullQueue
| Disabled
| NonStandardTransaction (e : NonStandardTransactionError).

(** [enum TransactionDownloadVerifyError], without the fields that are not read
    here. *)
Inductive TransactionDownloadVerifyError :=
| InState
| StateError
| DownloadFailed
| Cancelled
| Invalid (error : TransactionError).

(** [struct Storage]. *)
Record Storage := mkStorage {
  verified : VerifiedSet;
  pending_outputs : PendingOutputs;
  tip_rejected_exact : gmap UnminedTxId ExactTipRejectionError;
  tip_rejected_same_effects : gmap TxHash SameEffectsTipRejectionError;
  chain_rejected_same_effects : gmap SameEffectsChainRejectionError (EvictionList (K:=TxHash));
  eviction_memory_time : Z;
  tx_cost_limit : Z;
  max_datacarrier_bytes : Z;
}.

Definition DEFAULT_MAX_DATACARRIER_BYTES : Z := 83.

(** [Storage::new], of the three fields of the configuration. *)
Definition new (tx_cost_limit eviction_memory_time : Z) (max_datacarrier_bytes : option Z) : Storage :=
  mkStorage VerifiedSet.empty_set PendingOutputs.default_pending ∅ ∅ ∅ eviction_memory_time tx_cost_limit
    (default DEFAULT_MAX_DATACARRIER_BYTES max_datacarrier_bytes).

Definition set_verified (v : VerifiedSet) (self : Storage) : Storage :=
  mkStorage v (pending_outputs self) (tip_rejected_exact self) (tip_rejected_same_effects self)
    (chain_rejected_same_effects self) (eviction_memory_time self) (tx_cost_limit self) (max_datacarrier_bytes self).
Definition set_pending (p : PendingOutputs) (self : Storage) : Storage :=
  mkStorage (verified self) p (tip_rejected_exact self) (tip_rejected_same_effects self)
    (chain_rejected_same_effects self) (eviction_memory_time self) (tx_cost_limit self) (max_datacarrier_bytes self).
Definition set_rejected (exact : gmap UnminedTxId ExactTipRejectionError)
    (same_effects : gmap TxHash SameEffectsTipRejectionError)
    (chain : gmap SameEffectsChainRejectionError (EvictionList (K:=TxHash))) (self : Storage) : Storage :=
  mkStorage (verified self) (pending_outputs self) exact same_effects chain
    (eviction_memory_time self) (tx_cost_limit self) (max_datacarrier_bytes self).

(** ** Rejections *)

(** [Storage::rejected_transaction_count]: the lengths prune the lists. *)
Fixpoint len_each {E : Type} (now : Z) (lists : list (SameEffectsChainRejectionError * EvictionList (K:=TxHash))) :
    outcome E (Z * list (SameEffectsChainRejectionError * EvictionList (K:=TxHash))) :=
  match lists with
  | [] => Ok (0, [])
  | (e, map) :: lists =>
      let? ' (n, map) := EvictionList.len now map in
      let? ' (sum, lists) := len_each now lists in
      Ok (n + sum, (e, map) :: lists)
  end.
Definition rejected_transaction_count {E : Type} (now : Z) (self : Storage) : outcome E (Z * Storage) :=
  let? ' (sum, lists) := len_each now (map_to_list (chain_rejected_same_effects self)) in
  Ok (Z.of_nat (base.size (tip_rejected_exact self)) + Z.of_nat (base.size (tip_rejected_same_effects self)) + sum,
      set_rejected (tip_rejected_exact self) (tip_rejected_same_effects self) (list_to_map lists) self).

(** [Storage::update_rejected_metrics]: the counts are reported; the lists stay
    pruned. *)
Definition update_rejected_metrics {E : Type} (now : Z) (self : Storage) : outcome E Storage :=
  let? ' (_, self) := rejected_transaction_count now self in
  let? ' (_, self) := rejected_transaction_count now self in
  Ok self.

(** [Storage::limit_rejection_list_memory]. *)
Definition limit_rejection_list_memory {E : Type} (now : Z) (self : Storage) : outcome E Storage :=
  let exact := if Z.of_nat (base.size (tip_rejected_exact self)) >? MAX_EVICTION_MEMORY_ENTRIES
    then ∅ else tip_rejected_exact self in
  let same_effects := if Z.of_nat (base.size (tip_rejected_same_effects self)) >? MAX_EVICTION_MEMORY_ENTRIES
    then ∅ else tip_rejected_same_effects self in
  update_rejected_metrics now (set_rejected exact same_effects (chain_rejected_same_effects self) self).

(** [Storage::reject]. *)
Definition reject {E : Type} (now : Z) (tx_id : UnminedTxId) (reason : RejectionError) (self : Storage) : outcome E Storage :=
  let? self :=
    match reason with
    | ExactTip e =>
        Ok (set_rejected (<[tx_id := e]> (tip_rejected_exact self)) (tip_rejected_same_effects self)
              (chain_rejected_same_effects self) self)
    | SameEffectsTip e =>
        Ok (set_rejected (tip_rejected_exact self) (<[mined_id tx_id := e]> (tip_rejected_same_effects self))
              (chain_rejected_same_effects self) self)
    | SameEffectsChain e =>
        let list := default (EvictionList.new MAX_EVICTION_MEMORY_ENTRIES (eviction_memory_time self))
          (chain_rejected_same_effects self !! e) in
        let? list := EvictionList.insert now (mined_id tx_id) list in
        Ok (set_rejected (tip_rejected_exact self) (tip_rejected_same_effects self)
              (<[e := list]> (chain_rejected_same_effects self)) self)
    | NonStandardRejection e =>
        Ok (set_rejected (<[tx_id := FailedStandard e]> (tip_rejected_exact self)) (tip_rejected_same_effects self)
              (chain_rejected_same_effects self) self)
    end in
  limit_rejection_list_memory now self.

(** [Storage::rejection_error]. *)
Fixpoint chain_rejection (now : Z) (txid : TxHash) (lists : list (SameEffectsChainRejectionError * EvictionList (K:=TxHash))) :
    option MempoolError :=
  match lists with
  | [] => None
  | (error, set) :: lists =>
      if contains_key now set txid then Some (StorageEffectsChain error) else chain_rejection now txid lists
  end.
Definition rejection_error (now : Z) (self : Storage) (txid : UnminedTxId) : option MempoolError :=
  match tip_rejected_exact self !! txid with
  | Some error => Some (StorageExactTip error)
  | None =>
      match tip_rejected_same_effects self !! mined_id txid with
      | Some error => Some (StorageEffectsTip error)
      | None => chain_rejection now (mined_id txid) (map_to_list (chain_rejected_same_effects self))
      end
  end.

(** [Storage::contains_rejected] and [Storage::rejected_transactions]. *)
Definition contains_rejected (now : Z) (self : Storage) (txid : UnminedTxId) : bool :=
  match rejection_error now self txid with Some _ => true | None => false end.
Definition rejected_transactions (now : Z) (self : Storage) (tx_ids : list UnminedTxId) : list UnminedTxId :=
  filter (fun txid => contains_rejected now self txid = true) tx_ids.

(** [Storage::clear_tip_rejections] and [Storage::clear]. *)
Definition clear_tip_rejections {E : Type} (now : Z) (self : Storage) : outcome E Storage :=
  update_rejected_metrics now (set_rejected ∅ ∅ (chain_rejected_same_effects self) self).
Definition clear {E : Type} (now : Z) (self : Storage) : outcome E Storage :=
  update_rejected_metrics now
    (mkStorage (VerifiedSet.clear (verified self)) (PendingOutputs.clear (pending_outputs self)) ∅ ∅ ∅
      (eviction_memory_time self) (tx_cost_limit self) (max_datacarrier_bytes self)).

(** [Storage::reject_if_needed]. *)
Definition reject_if_needed {E : Type} (now : Z) (tx_id : UnminedTxId) (e : TransactionDownloadVerifyError) (self : Storage) :
    outcome E Storage :=
  match e with
  | InState | StateError | DownloadFailed | Cancelled => Ok self
  | Invalid error => reject now tx_id (ExactTip (FailedVerification error)) self
  end.

(** ** Standard transactions *)

(** The loop of [Storage::reject_if_non_standard_tx] over the inputs. *)
Fixpoint input_violation (ins : list (Input * list byte)) : option NonStandardTransactionError :=
  match ins with
  | [] => None
  | (Coinbase, _) :: ins => input_violation ins
  | (PrevOut _, unlock_script) :: ins =>
      if count unlock_script >? MAX_STANDARD_SCRIPTSIG_SIZE then Some ScriptSigTooLarge
      else if negb (is_push_only unlock_script) then Some ScriptSigNotPushOnly
      else input_violation ins
  end.

(** Its checks of the spent outputs and of the signature operations. *)
Definition spend_violation (tx : VerifiedUnminedTx) : option NonStandardTransactionError :=
  let t := transaction (unmined tx) in
  let spent_outputs := verified_spent_outputs tx in
  if negb (count spent_outputs =? 0) then
    if negb (count (inputs (effects t)) =? count spent_outputs) then Some NonStandardInputs
    else if negb (are_inputs_standard t spent_outputs) then Some NonStandardInputs
    else if block_sigop_count tx >? MAX_STANDARD_TX_SIGOPS then Some TooManySigops else None
  else if legacy_sigop_count tx >? MAX_STANDARD_TX_SIGOPS then Some TooManySigops else None.

(** Its loop over the outputs. *)
Fixpoint output_violation {E : Type} (max_datacarrier_bytes : Z) (data_out_count : Z) (outs : list TxOutput) :
    outcome E (option NonStandardTransactionError) :=
  match outs with
  | [] => Ok (if data_out_count >? 1 then Some MultiOpReturn else None)
  | output :: outs =>
      let script_len := count (as_raw_bytes (lock_script output)) in
      match standard_script_kind (lock_script output) with
      | None => Ok (Some ScriptPubKeyNonStandard)
      | Some NullData =>
          if script_len >? max_datacarrier_bytes then Ok (Some DataCarrierTooLarge)
          else output_violation max_datacarrier_bytes (data_out_count + 1) outs
      | Some (MultiSig _ pubkeys) =>
          if pubkeys >? MAX_STANDARD_MULTISIG_PUBKEYS then Ok (Some ScriptPubKeyNonStandard) else Ok (Some BareMultiSig)
      | Some _ =>
          let? dust := is_dust output in
          if dust then Ok (Some IsDust) else output_violation max_datacarrier_bytes data_out_count outs
      end
  end.

(** The first rule that a transaction breaks. *)
Definition violation {E : Type} (max_datacarrier_bytes : Z) (tx : VerifiedUnminedTx) : outcome E (option NonStandardTransactionError) :=
  match input_violation (inputs_with_scripts (transaction (unmined tx))) with
  | Some e => Ok (Some e)
  | None =>
      match spend_violation tx with
      | Some e => Ok (Some e)
      | None => output_violation max_datacarrier_bytes 0 (outputs (verified_effects tx))
      end
  end.

(** [Storage::reject_non_standard] and [Storage::reject_if_non_standard_tx]. *)
Definition reject_non_standard {E : Type} (now : Z) (tx : VerifiedUnminedTx) (rejection_error : NonStandardTransactionError)
    (self : Storage) : outcome E (Storage * outcome MempoolError unit) :=
  let? self := reject now (id (unmined tx)) (NonStandardRejection rejection_error) self in
  Ok (self, Err (NonStandardTransaction rejection_error)).
Definition reject_if_non_standard_tx {E : Type} (now : Z) (tx : VerifiedUnminedTx) (self : Storage) :
    outcome E (Storage * outcome MempoolError unit) :=
  let? broken := violation (max_datacarrier_bytes self) tx in
  match broken with
  | Some e => reject_non_standard now tx e self
  | None => Ok (self, Ok tt)
  end.

(** ** Insertion *)

(** The draws of the evictions of one call, by their number. *)
Context (sample : nat -> list Z -> nat).

(** The loop of [Storage::insert]: each iteration removes a transaction. *)
Fixpoint evict_while_full {E : Type} (fuel round : nat) (now : Z) (unmined_tx_id : UnminedTxId) (self : Storage)
    (result : outcome MempoolError UnminedTxId) : outcome E (Storage * outcome MempoolError UnminedTxId) :=
  if total_cost (verified self) >? tx_cost_limit self then
    match fuel with
    | O => Panic
    | S fuel =>
        let? ' (victim, v) := VerifiedSet.evict_one (sample round) (verified self) in
        let? victim_tx := expect victim in
        let? self := reject now (id (unmined victim_tx)) (SameEffectsChain RandomlyEvicted) (set_verified v self) in
        let result := if decide (id (unmined victim_tx) = unmined_tx_id)
          then Err (StorageEffectsChain RandomlyEvicted) else result in
        evict_while_full fuel (S round) now unmined_tx_id self result
    end
  else Ok (self, result).

(** The rest of [Storage::insert], for a standard transaction that is not in the
    mempool. *)
Definition insert_standard {E : Type} (now utc_now : Z) (tx : VerifiedUnminedTx) (spent_mempool_outpoints : list OutPoint)
    (height : option Z) (self : Storage) : outcome E (Storage * outcome MempoolError UnminedTxId) :=
  let unmined_tx_id := id (unmined tx) in
  let? ' (self, result) :=
    match VerifiedSet.insert utc_now tx spent_mempool_outpoints (pending_outputs self) height (verified self) with
    | Ok (v, p) => Ok (set_pending p (set_verified v self), Ok unmined_tx_id)
    | Err rejection_error =>
        let? self := reject now unmined_tx_id (SameEffectsTip rejection_error) self in
        Ok (self, Err (StorageEffectsTip rejection_error))
    | Panic => Panic
    end in
  evict_while_full (base.size (transactions (verified self))) 0 now unmined_tx_id self result.

(** [Storage::insert]. *)
Definition insert {E : Type} (now utc_now : Z) (tx : VerifiedUnminedTx) (spent_mempool_outpoints : list OutPoint)
    (height : option Z) (self : Storage) : outcome E (Storage * outcome MempoolError UnminedTxId) :=
  let unmined_tx_id := id (unmined tx) in
  match rejection_error now self unmined_tx_id with
  | Some error => Ok (self, Err error)
  | None =>
      if VerifiedSet.contains (verified self) (mined_id unmined_tx_id) then Ok (self, Err InMempool) else
      let? ' (self, standard) := reject_if_non_standard_tx now tx self in
      match standard with
      | Ok _ => insert_standard now utc_now tx spent_mempool_outpoints height self
      | Err e => Ok (self, Err e)
      | Panic => Panic
      end
  end.

(** ** Removal *)

(** [Storage::remove_exact] and [Storage::clear_mined_dependencies]. *)
Definition remove_exact {E : Type} (exact_wtxids : gset UnminedTxId) (self : Storage) : outcome E (Z * Storage) :=
  let? ' (removed, v) :=
    VerifiedSet.remove_all_that (fun tx => bool_decide (id (unmined tx) ∈ exact_wtxids)) (verified self) in
  Ok (Z.of_nat (base.size removed), set_verified v self).
Definition clear_mined_dependencies (mined_ids : gset TxHash) (self : Storage) : Storage :=
  set_verified (VerifiedSet.clear_mined_dependencies mined_ids (verified self)) self.

(** The loops of rejections. *)
Fixpoint reject_each {E : Type} (now : Z) (ids : list UnminedTxId) (reason : SameEffectsChainRejectionError) (self : Storage) :
    outcome E Storage :=
  match ids with
  | [] => Ok self
  | id :: ids => let? self := reject now id (SameEffectsChain reason) self in reject_each now ids reason self
  end.

(** Whether a transaction spends or reveals something that a block does. *)
Definition spends_of {X : Type} `{Countable X} (f : Transaction -> list X) (block : list Transaction) : gset X :=
  list_to_set (block ≫= f).
Definition duplicates_spend (block : list Transaction) (tx : Transaction) : bool :=
  VerifiedSet.has_conflicts (spends_of TransactionValues.spent_outpoints block) (TransactionValues.spent_outpoints tx)
  || VerifiedSet.has_conflicts (spends_of tx_sprout_nullifiers block) (tx_sprout_nullifiers tx)
  || VerifiedSet.has_conflicts (spends_of tx_sapling_nullifiers block) (tx_sapling_nullifiers tx)
  || VerifiedSet.has_conflicts (spends_of tx_orchard_nullifiers block) (tx_orchard_nullifiers tx)
  || VerifiedSet.has_conflicts (spends_of tx_ironwood_nullifiers block) (tx_ironwood_nullifiers tx).

(** [Storage::reject_and_remove_same_effects]: the ids of the mined and of the
    invalidated transactions. *)
Definition reject_and_remove_same_effects {E : Type} (now : Z) (mined_ids : gset TxHash) (block : list Transaction)
    (self : Storage) : outcome E (gset UnminedTxId * gset UnminedTxId * Storage) :=
  let? ' (removed_mined, v) :=
    VerifiedSet.remove_all_that (fun tx => bool_decide (mined_id (id (unmined tx)) ∈ mined_ids)) (verified self) in
  let duplicates := filter (fun e => duplicates_spend block (verified_effects e.2) = true) (map_to_list (transactions v)) in
  let duplicate_spend_ids : gset UnminedTxId := list_to_set ((fun e => id (unmined e.2)) <$> duplicates) in
  let? ' (removed_duplicate_spend, v) :=
    VerifiedSet.remove_all_that (fun tx => bool_decide (id (unmined tx) ∈ duplicate_spend_ids)) v in
  let? self := reject_each now (Legacy <$> elements mined_ids) Mined (set_verified v self) in
  let? self := reject_each now (elements duplicate_spend_ids) DuplicateSpend self in
  Ok (removed_mined, removed_duplicate_spend, set_pending (PendingOutputs.prune (pending_outputs self)) self).

(** [Storage::remove_expired_transactions]. *)
Definition is_expired (tip_height : Z) (tx : VerifiedUnminedTx) : bool :=
  match expiry_height (transaction (unmined tx)) with
  | Some expiry_height => expiry_height <=? tip_height
  | None => false
  end.
Definition remove_expired_transactions {E : Type} (now tip_height : Z) (self : Storage) :
    outcome E (gset UnminedTxId * Storage) :=
  let expired := filter (fun e => is_expired tip_height e.2 = true) (map_to_list (transactions (verified self))) in
  let tx_ids : gset TxHash := list_to_set expired.*1 in
  let unmined_tx_ids : gset UnminedTxId := list_to_set ((fun e => id (unmined e.2)) <$> expired) in
  let? ' (_, v) :=
    VerifiedSet.remove_all_that (fun tx => bool_decide (mined_id (id (unmined tx)) ∈ tx_ids)) (verified self) in
  let? self := reject_each now (Legacy <$> elements tx_ids) Expired (set_verified v self) in
  Ok (unmined_tx_ids, self).

(** What [Mempool::poll_ready] does when the best chain grows by a block: its
    transactions leave the mempool, with those that it invalidates. *)
Definition tip_grows {E : Type} (now : Z) (transaction_hashes : list TxHash) (block : list Transaction) (self : Storage) :
    outcome E (gset UnminedTxId * gset UnminedTxId * Storage) :=
  let mined_ids : gset TxHash := list_to_set transaction_hashes in
  let self := clear_mined_dependencies mined_ids self in
  let? ' (mined, invalidated, self) := reject_and_remove_same_effects now mined_ids block self in
  let? self := clear_tip_rejections now self in
  Ok (mined, invalidated, self).

(** ** Reads *)

(** [Storage::contains_transaction_exact] and
    [Storage::should_download_or_verify]. *)
Definition contains_transaction_exact (self : Storage) (tx_id : TxHash) : bool := VerifiedSet.contains (verified self) tx_id.
Definition should_download_or_verify (now : Z) (txid : UnminedTxId) (self : Storage) : outcome MempoolError unit :=
  if contains_transaction_exact self (mined_id txid) then Err InMempool
  else match rejection_error now self txid with Some error => Err error | None => Ok tt end.

(** [Storage::tx_ids], [transactions_exact], [transactions_same_effects] and
    [transaction_with_deps]. *)
Definition tx_ids (self : Storage) : list UnminedTxId :=
  (fun e => id (unmined e.2)) <$> map_to_list (transactions (verified self)).
Definition transactions_exact (self : Storage) (tx_ids : list UnminedTxId) : list UnminedTx :=
  omap (fun tx_id => unmined <$> transactions (verified self) !! mined_id tx_id) tx_ids.
Definition transactions_same_effects (self : Storage) (tx_ids : gset TxHash) : list UnminedTx :=
  (fun e => unmined e.2) <$> filter (fun e => e.1 ∈ tx_ids) (map_to_list (transactions (verified self))).
Definition transaction_with_deps (self : Storage) (tx_id : TxHash) : option (VerifiedUnminedTx * gset TxHash) :=
  tx ← transactions (verified self) !! tx_id;
  Some (tx, direct_dependencies (transaction_dependencies (verified self)) tx_id).
End Storage_.
End Storage.
