(* ===== verification/MempoolTheorems.v ===== *)
(** * Theorems on the storage of the mempool

    The invariant of [Storage], which every operation keeps without a panic, and
    what insertions, evictions and new blocks do to the mempool. *)

From S2P Require Import Prelude Amounts ValueBalances Networks NoteTrees ChainIndexes NonFinalizedChain ChainTheorems TransactionValues HeaderCodec MempoolTx MempoolDeps MempoolSet MempoolInvariant MempoolStorage.
Import Deps Storage VerifiedSet(transactions, transaction_dependencies, total_cost).
Import EvictionList(EvictionList, contains_key, list_ok, same_limits).

Section Theorems.
Context `{CB : ConsensusBuild} `{CT : ChainTypes} {ME : MempoolEnv} {TransactionError : Type}.
Notation St := (Storage.Storage (TransactionError:=TransactionError)).
Notation RejectionError := (Storage.RejectionError (TransactionError:=TransactionError)).
Notation Result := (outcome (Storage.MempoolError (TransactionError:=TransactionError)) UnminedTxId).
Notation Lists := (gmap SameEffectsChainRejectionError (EvictionList (K:=TxHash))).

(** ** Rejection lists *)

(** [k] is rejected for the reason [e] at this time. *)
Definition rejected_in (now : Z) (self : St) (e : SameEffectsChainRejectionError) (k : TxHash) : bool :=
  match chain_rejected_same_effects self !! e with Some l => contains_key now l k | None => false end.

(** The rejection lists are bounded and well formed. *)
Record rejections_ok (now : Z) (self : St) : Prop := mkRejections {
  r_lists : forall e l, chain_rejected_same_effects self !! e = Some l ->
    list_ok now l /\ EvictionList.max_size l = MAX_EVICTION_MEMORY_ENTRIES /\
    EvictionList.eviction_memory_time l = eviction_memory_time self;
  r_exact : Z.of_nat (base.size (tip_rejected_exact self)) <= MAX_EVICTION_MEMORY_ENTRIES;
  r_same_effects : Z.of_nat (base.size (tip_rejected_same_effects self)) <= MAX_EVICTION_MEMORY_ENTRIES;
  r_time : 0 <= eviction_memory_time self;
}.

(** The parts that rejections do not touch. *)
Record same_pool (self self' : St) : Prop := mkSamePool {
  sp_verified : verified self' = verified self;
  sp_pending : pending_outputs self' = pending_outputs self;
  sp_time : eviction_memory_time self' = eviction_memory_time self;
  sp_limit : tx_cost_limit self' = tx_cost_limit self;
  sp_data : max_datacarrier_bytes self' = max_datacarrier_bytes self;
}.

Lemma same_pool_refl self : same_pool self self.
Proof. done. Qed.
Lemma same_pool_trans s1 s2 s3 : same_pool s1 s2 -> same_pool s2 s3 -> same_pool s1 s3.
Proof. intros [] []. split; congruence. Qed.

(** One list after pruning. *)
Definition pruned (now : Z) (a b : EvictionList (K:=TxHash)) : Prop :=
  list_ok now b /\ same_limits b a /\ forall k, contains_key now b k = contains_key now a k.

Lemma len_each_ok {E : Type} now lists : Forall (fun p => list_ok now p.2) lists ->
  exists n lists', len_each (E:=E) now lists = Ok (n, lists') /\
    forall e, option_Forall2 (pruned now) ((list_to_map lists : Lists) !! e) ((list_to_map lists' : Lists) !! e).
Proof.
  induction 1 as [|[e l] lists Hl _ IH]; cbn.
  - exists 0, []. split; [done|]. intros e. rewrite lookup_empty. constructor.
  - destruct (EvictionList.len_ok (E:=E) now l Hl) as (n & l' & -> & P). destruct IH as (m & lists' & -> & F). cbn.
    eexists _, _. split; [done|]. intros e'. cbn. destruct (decide (e = e')) as [->|N].
    + rewrite !lookup_insert_eq. by constructor.
    + rewrite !lookup_insert_ne by done. apply F.
Qed.

Lemma count_ok {E : Type} now self : rejections_ok now self ->
  exists n self', rejected_transaction_count (E:=E) now self = Ok (n, self') /\ rejections_ok now self' /\ same_pool self self' /\
    forall e k, rejected_in now self' e k = rejected_in now self e k.
Proof.
  intros [Ls Ex Se Ti]. unfold rejected_transaction_count.
  destruct (len_each_ok (E:=E) now (map_to_list (chain_rejected_same_effects self))) as (n & lists & -> & F).
  { apply Forall_forall. intros [e l] I%elem_of_map_to_list. by apply (Ls e). }
  rewrite list_to_map_to_list in F. cbn. eexists _, _. split; [done|]. split; [|split; [done|]].
  - split; cbn; try done. intros e l L. specialize (F e). rewrite L in F. inversion F as [a b (P & (S1 & S2) & _) Ha|].
    destruct (Ls e a) as (_ & M1 & M2); [done|]. split_and!; [done|congruence..].
  - intros e k. unfold rejected_in. cbn. specialize (F e).
    destruct (chain_rejected_same_effects self !! e), (list_to_map lists !! e); inversion F as [? ? (_ & _ & P)|]; subst; [apply P|done].
Qed.

Lemma update_rejected_metrics_ok {E : Type} now self : rejections_ok now self ->
  exists self', update_rejected_metrics (E:=E) now self = Ok self' /\ rejections_ok now self' /\ same_pool self self' /\
    forall e k, rejected_in now self' e k = rejected_in now self e k.
Proof.
  intros R. unfold update_rejected_metrics. destruct (count_ok (E:=E) now self R) as (n & s1 & -> & R1 & P1 & S1). cbn.
  destruct (count_ok (E:=E) now s1 R1) as (m & s2 & -> & R2 & P2 & S2). cbn. exists s2.
  split_and!; [done..|by eapply same_pool_trans|]. intros e k. by rewrite S2, S1.
Qed.

(** The tip lists are cleared when they have become too long. *)
Lemma limit_ok {E : Type} now self : 0 <= eviction_memory_time self ->
  (forall e l, chain_rejected_same_effects self !! e = Some l ->
    list_ok now l /\ EvictionList.max_size l = MAX_EVICTION_MEMORY_ENTRIES /\
    EvictionList.eviction_memory_time l = eviction_memory_time self) ->
  exists self', limit_rejection_list_memory (E:=E) now self = Ok self' /\ rejections_ok now self' /\ same_pool self self' /\
    forall e k, rejected_in now self' e k = rejected_in now self e k.
Proof.
  intros T Ls. unfold limit_rejection_list_memory. set (s1 := set_rejected _ _ _ self).
  assert (R : rejections_ok now s1).
  { split; cbn; [exact Ls| | |done]; match goal with |- context [if ?b then _ else _] => destruct b eqn:B end;
      rewrite ?map_size_empty; try bool_lia; unfold MAX_EVICTION_MEMORY_ENTRIES; cbn; lia. }
  destruct (update_rejected_metrics_ok (E:=E) now s1 R) as (s2 & -> & R2 & P2 & S2). exists s2. split_and!; [done..| |done].
  by eapply same_pool_trans; [|exact P2].
Qed.

(** A rejection that is not for the chain. *)
Lemma tip_rejection_ok {E : Type} now exact same_effects self (reason : RejectionError) (u : UnminedTxId) : rejections_ok now self ->
  (forall e, reason <> SameEffectsChain e) ->
  exists self', limit_rejection_list_memory (E:=E) now (set_rejected exact same_effects (chain_rejected_same_effects self) self) = Ok self' /\
    rejections_ok now self' /\ same_pool self self' /\
    (forall e k, rejected_in now self' e k = true -> rejected_in now self e k = true \/ reason = SameEffectsChain e /\ k = mined_id u) /\
    (forall e, reason = SameEffectsChain e -> rejected_in now self' e (mined_id u) = true).
Proof.
  intros [Ls Ex Se Ti] N. destruct (limit_ok (E:=E) now (set_rejected exact same_effects (chain_rejected_same_effects self) self))
    as (s' & -> & R' & P' & S'); [done|exact Ls|].
  exists s'. split_and!; [done|done|by eapply same_pool_trans; [|exact P']| |intros e Q; by destruct (N e)].
  intros e k. rewrite S'. by left.
Qed.

(** [reject] does not panic, unless it lists a transaction that is on the chain
    list already. *)
Lemma reject_ok {E : Type} now u (reason : RejectionError) self : rejections_ok now self ->
  (forall e, reason = SameEffectsChain e -> rejected_in now self e (mined_id u) = false) ->
  exists self', reject (E:=E) now u reason self = Ok self' /\ rejections_ok now self' /\ same_pool self self' /\
    (forall e k, rejected_in now self' e k = true -> rejected_in now self e k = true \/ reason = SameEffectsChain e /\ k = mined_id u) /\
    (forall e, reason = SameEffectsChain e -> rejected_in now self' e (mined_id u) = true).
Proof.
  intros R Nr. pose proof R as [Ls Ex Se Ti]. unfold reject. destruct reason as [x|x|e|x].
  3: {
    set (l0 := default _ _). assert (L0 : list_ok now l0 /\ EvictionList.max_size l0 = MAX_EVICTION_MEMORY_ENTRIES /\
      EvictionList.eviction_memory_time l0 = eviction_memory_time self /\ forall k, contains_key now l0 k = rejected_in now self e k).
    { unfold l0, rejected_in. destruct (chain_rejected_same_effects self !! e) as [l|] eqn:L; cbn.
      - destruct (Ls e l L) as (? & ? & ?). done.
      - split_and!; [by apply EvictionList.new_ok|done..]. }
    destruct L0 as (O & M & T & Ct). destruct (EvictionList.entry_inserted (E:=E) now (mined_id u) l0 O) as (l & -> & O' & (M' & T') & Cu & Ck);
      [rewrite Ct; by apply (Nr e)|]. cbn.
    match goal with |- context [limit_rejection_list_memory now ?s] => destruct (limit_ok (E:=E) now s) as (s' & -> & R' & P' & S') end; [done| |].
    { intros e' l'. cbn. intros [[<- <-]|[_ L]]%lookup_insert_Some; [split_and!; [done|congruence..]|by apply (Ls e')]. }
    exists s'. split_and!; [done|done|by eapply same_pool_trans; [|exact P']| |].
    - intros e' k. rewrite S'. unfold rejected_in. cbn. destruct (decide (e = e')) as [<-|N].
      + rewrite lookup_insert_eq. intros [->|C]%Ck; [by right|left]. rewrite Ct in C. exact C.
      + rewrite lookup_insert_ne by done. by left.
    - intros e' [= <-]. rewrite S'. unfold rejected_in. cbn. by rewrite lookup_insert_eq. }
  - by apply tip_rejection_ok.
  - by apply tip_rejection_ok.
  - by apply tip_rejection_ok.
Qed.

(** ** The invariant *)

(** No transaction of the mempool is on a chain list: it may be evicted or mined
    without a panic. *)
Definition apart (now : Z) (self : St) : Prop :=
  forall e k, is_Some (transactions (verified self) !! k) -> rejected_in now self e k = false.

(** The invariant of the storage, up to the limit of the total cost. *)
Record storage_wf (now : Z) (self : St) : Prop := mkStorageWf {
  st_rejections : rejections_ok now self;
  st_set : set_ok (verified self);
  st_apart : apart now self;
  st_limit : 0 <= tx_cost_limit self;
}.
Record storage_ok (now : Z) (self : St) : Prop := mkStorageOk {
  st_wf : storage_wf now self;
  st_cost : total_cost (verified self) <= tx_cost_limit self;
}.

Lemma without_is_Some C v v' k : without C v v' -> is_Some (transactions v' !! k) -> is_Some (transactions v !! k) /\ k ∉ C.
Proof. intros W. rewrite (w_transactions _ _ _ W). case_decide; [by intros []|done]. Qed.

(** Fewer transactions, and no new chain rejection of those that stay. *)
Lemma storage_wf_shrink now self self' C : storage_wf now self -> rejections_ok now self' -> set_ok (verified self') ->
  without C (verified self) (verified self') -> tx_cost_limit self' = tx_cost_limit self ->
  (forall e k, rejected_in now self' e k = true -> rejected_in now self e k = true \/ k ∈ C) -> storage_wf now self'.
Proof.
  intros [R S A L] R' S' W Q J. split; [done..| |lia]. intros e k [Sk Nk]%(without_is_Some _ _ _ _ W).
  destruct (rejected_in now self' e k) eqn:X; [|done]. apply J in X as [X|X]; [|done]. by rewrite A in X.
Qed.

Lemma without_size C v v' key : without C v v' -> key ∈ C -> is_Some (transactions v !! key) ->
  (base.size (transactions v') < base.size (transactions v))%nat.
Proof.
  intros W I [tx L]. rewrite <- !size_dom. apply subset_size. split.
  - intros k Hk. apply elem_of_dom. apply elem_of_dom in Hk. by eapply without_is_Some.
  - intros Sub. assert (X : key ∈ dom (transactions v)) by (apply elem_of_dom; eauto). apply Sub, elem_of_dom in X.
    by apply (without_is_Some _ _ _ _ W) in X as [_ ?].
Qed.

(** ** Evictions *)

Definition draws_in_range (sample : nat -> list Z -> nat) : Prop :=
  forall round weights, weights <> [] -> (sample round weights < length weights)%nat.

(** The victims of the loop, with what depends on them. *)
Record evicted (u : UnminedTxId) (self self' : St) (result result' : Result) (C : gset TxHash) : Prop := mkEvicted {
  ev_without : without C (verified self) (verified self');
  ev_limit : tx_cost_limit self' = tx_cost_limit self;
  ev_result : result' = result \/ result' = Err (StorageEffectsChain RandomlyEvicted) /\ mined_id u ∈ C;
  ev_reported : forall tx, transactions (verified self) !! mined_id u = Some tx -> id (unmined tx) = u ->
    (forall a, ~ dep (transaction_dependencies (verified self)) a (mined_id u)) -> mined_id u ∈ C ->
    result' = Err (StorageEffectsChain RandomlyEvicted);
  ev_closed : forall a b, a ∈ C -> dep (transaction_dependencies (verified self)) a b -> b ∈ C;
}.

Lemma evicted_none u self result : evicted u self self result result ∅.
Proof. split; [apply without_refl|done|by left|set_solver..]. Qed.

(** One eviction. *)
Lemma evict_step {E : Type} sample round now self : draws_in_range sample -> storage_wf now self ->
  total_cost (verified self) > tx_cost_limit self ->
  exists key tx v C self1, VerifiedSet.evict_one (E:=E) (sample round) (verified self) = Ok (Some tx, v) /\
    transactions (verified self) !! key = Some tx /\ mined_id (id (unmined tx)) = key /\ closure_of (verified self) key C /\
    reject (E:=E) now (id (unmined tx)) (SameEffectsChain RandomlyEvicted) (set_verified v self) = Ok self1 /\
    storage_wf now self1 /\ without C (verified self) (verified self1) /\ tx_cost_limit self1 = tx_cost_limit self.
Proof.
  intros Sa Wf Full. pose proof Wf as [R S A L].
  assert (Ne : transactions (verified self) <> ∅).
  { intros Q. pose proof (ok_cost _ (set_caches _ S)) as Z. rewrite Q in Z. change (sum_over cost ∅) with 0 in Z. lia. }
  destruct (evict_one_ok (E:=E) (sample round) (verified self) S Ne (Sa round)) as (key & tx & v & C & -> & Lk & Sv & K & W).
  destruct (ok_keys _ (set_caches _ S) _ _ Lk) as [Hk _]. unfold verified_id in Hk.
  assert (I : key ∈ C) by (apply K, rtc_refl).
  destruct (reject_ok (E:=E) now (id (unmined tx)) (SameEffectsChain RandomlyEvicted) (set_verified v self)) as (s1 & Rj & R1 & P1 & J1 & _).
  { by destruct R. }
  { intros e _. rewrite Hk. change (rejected_in now self e key = false). apply A. eauto. }
  exists key, tx, v, C, s1. assert (W1 : without C (verified self) (verified s1)) by (rewrite (sp_verified _ _ P1); exact W).
  split_and!; try done; [|by rewrite (sp_limit _ _ P1)].
  apply (storage_wf_shrink now self s1 C); [done|done|by rewrite (sp_verified _ _ P1)|done|by rewrite (sp_limit _ _ P1)|].
  intros e k [X|[_ ->]]%J1; [by left|right; by rewrite Hk].
Qed.

(** The loop ends within the limit. *)
Lemma evict_while_full_ok {E : Type} sample now u : draws_in_range sample -> forall fuel round self result, storage_wf now self ->
  (base.size (transactions (verified self)) <= fuel)%nat ->
  exists self' result' C, evict_while_full (E:=E) sample fuel round now u self result = Ok (self', result') /\
    storage_ok now self' /\ evicted u self self' result result' C.
Proof.
  intros Sa. induction fuel as [|fuel IH]; intros round self result Wf Sz; cbn [evict_while_full];
    destruct (total_cost (verified self) >? tx_cost_limit self) eqn:Full.
  - destruct (evict_step (E:=E) sample round now self Sa Wf ltac:(lia)) as (key & tx & v & C & s1 & _ & Lk & _).
    apply Nat.le_0_r, map_size_empty_iff in Sz. rewrite Sz in Lk. done.
  - exists self, result, ∅. split_and!; [done|split; [done|lia]|apply evicted_none].
  - destruct (evict_step (E:=E) sample round now self Sa Wf ltac:(lia)) as (key & tx & v & C & s1 & -> & Lk & Hk & K & Rj & Wf1 & W1 & Lm1).
    cbn [obind expect]. rewrite Rj. cbn [obind]. assert (I : key ∈ C) by (apply K, rtc_refl).
    assert (Sz1 : (base.size (transactions (verified s1)) <= fuel)%nat) by (pose proof (without_size _ _ _ _ W1 I ltac:(eauto)); lia).
    match goal with |- context [evict_while_full sample fuel (S round) now u s1 ?r] =>
      destruct (IH (S round) s1 r Wf1 Sz1) as (s2 & r2 & C2 & -> & O2 & [W2 Lm2 Rs2 Rp2 Cl2]) end.
    exists s2, r2, (C ∪ C2). split_and!; [done..|]. split; [by eapply without_trans|congruence| | |].
    + destruct Rs2 as [->|[-> ?]]; [|right; set_solver]. case_decide as Q; [right; split; [done|]; rewrite <- Q, Hk; set_solver|by left].
    + intros t Lt Ht Nd Iu. assert (Me : mined_id u ∈ C -> id (unmined tx) = u).
      { intros X%K. apply rtc_inv_r in X as [X|(y & _ & Dy)]; [|by apply Nd in Dy]. rewrite X in Lk. congruence. }
      destruct (decide (mined_id u ∈ C)) as [Ic|Nc].
      * destruct Rs2 as [->|[-> _]]; [|done]. by rewrite decide_True by auto.
      * apply (Rp2 t); [by rewrite (w_transactions _ _ _ W1), decide_False|done| |set_solver].
        intros a (Da & _)%(w_dependencies _ _ _ W1). by apply (Nd a).
    + intros a b Ia Dab. destruct (decide (a ∈ C)) as [Ic|Nc]; [apply elem_of_union_l; by eapply closure_closed|].
      destruct (decide (b ∈ C)) as [Ib|Nb]; [set_solver|]. apply elem_of_union_r, (Cl2 a); [set_solver|]. by apply (w_dependencies _ _ _ W1).
  - exists self, result, ∅. split_and!; [done|split; [done|lia]|apply evicted_none].
Qed.

(** ** Insertion *)

(** The scripts of the outputs fit in a block. *)
Definition scripts_small (tx : VerifiedUnminedTx) : Prop :=
  Forall (fun o => output_serialized_size o <= MAX_BLOCK_BYTES) (outputs (verified_effects tx)).

Lemma output_violation_returns {E : Type} max outs : forall n, Forall (fun o => output_serialized_size o <= MAX_BLOCK_BYTES) outs ->
  exists r, output_violation (E:=E) max n outs = Ok r.
Proof.
  induction outs as [|o outs IH]; intros n F; cbn; [eauto|]. apply Forall_cons in F as [Fo F].
  assert (D : exists b, is_dust (E:=E) o = Ok b).
  { assert (0 <= output_serialized_size o) by (unfold output_serialized_size, compact_size_len; repeat case_match; lia).
    unfold is_dust, ONE_THIRD_DUST_THRESHOLD_RATE. unfold MAX_BLOCK_BYTES in Fo. rewrite checked_ok by bool_lia. cbn [expect obind].
    rewrite checked_ok by bool_lia. cbn. eauto. }
  destruct D as [b D]. repeat case_match; eauto; rewrite D; cbn; destruct b; eauto.
Qed.

Lemma violation_returns {E : Type} max tx : scripts_small tx -> exists r, violation (E:=E) max tx = Ok r.
Proof. intros F. unfold violation. repeat case_match; eauto. by apply output_violation_returns. Qed.

Lemma storage_ok_reject {E : Type} now u (reason : RejectionError) self : storage_ok now self -> (forall e, reason <> SameEffectsChain e) ->
  exists self', reject (E:=E) now u reason self = Ok self' /\ storage_ok now self' /\ same_pool self self'.
Proof.
  intros [[R S A L] Co] N. destruct (reject_ok (E:=E) now u reason self R) as (s' & -> & R' & P & J & _); [intros e Q; by destruct (N e)|].
  exists s'. split_and!; [done| |done]. split; [split|]; [done|by rewrite (sp_verified _ _ P)| |by rewrite (sp_limit _ _ P)|
    by rewrite (sp_verified _ _ P), (sp_limit _ _ P)].
  intros e k. rewrite (sp_verified _ _ P). intros Sk. destruct (rejected_in now s' e k) eqn:X; [|done].
  apply J in X as [X|[Q _]]; [by rewrite A in X|by destruct (N e)].
Qed.

Lemma not_rejected_in now (self : St) u : rejection_error now self u = None -> forall e, rejected_in now self e (mined_id u) = false.
Proof.
  unfold rejection_error, rejected_in. repeat (destruct (_ !! _); [done|]). intros X e.
  destruct (chain_rejected_same_effects self !! e) as [l|] eqn:L; [|done]. apply elem_of_map_to_list in L.
  induction (map_to_list _) as [|[e' l'] ls IH]; [set_solver|]. cbn in X. destruct (contains_key now l' (mined_id u)) eqn:C; [done|].
  apply elem_of_cons in L as [[= -> ->]|L]; [done|by apply IH].
Qed.

(** What an insertion promises: on success the transaction was not in the mempool;
    it is there now if it spends no output of the mempool; after an error it is
    in the mempool exactly if it was.  No other transaction is added. *)
Definition inserted (tx : VerifiedUnminedTx) (spent : list OutPoint) (stored_tx : VerifiedUnminedTx) (self self' : St) (result : Result) : Prop :=
  let k := verified_id tx in
  (forall j t, j <> k -> transactions (verified self') !! j = Some t -> transactions (verified self) !! j = Some t) /\
  match result with
  | Ok u => u = id (unmined tx) /\ transactions (verified self) !! k = None /\
      (spent = [] -> transactions (verified self') !! k = Some stored_tx)
  | Err _ => transactions (verified self') !! k = transactions (verified self) !! k
  | Panic => False
  end.

Lemma inserted_same tx spent t (self self' : St) e : verified self' = verified self -> inserted tx spent t self self' (Err e).
Proof. intros Q. split; rewrite Q; [done|]. done. Qed.

Lemma not_full {E : Type} sample fuel round now u (self : St) result : total_cost (verified self) <= tx_cost_limit self ->
  evict_while_full (E:=E) sample fuel round now u self result = Ok (self, result).
Proof. intros L. destruct fuel; cbn [evict_while_full]; by destruct (total_cost (verified self) >? tx_cost_limit self) eqn:X; [lia|]. Qed.

Lemma insert_standard_ok {E : Type} sample now utc_now tx spent height self : draws_in_range sample -> storage_ok now self ->
  tx_ok tx -> tx_cost_limit self + cost tx <= U64_MAX -> transactions (verified self) !! verified_id tx = None ->
  (forall e, rejected_in now self e (verified_id tx) = false) ->
  exists self' result, insert_standard (E:=E) sample now utc_now tx spent height self = Ok (self', result) /\
    storage_ok now self' /\ inserted tx spent (stored utc_now height tx) self self' result.
Proof.
  intros Sa O T B Fr Nr. pose proof O as [[R S A L] Co]. unfold insert_standard.
  destruct (insert_ok utc_now tx spent (pending_outputs self) height (verified self) S T Fr ltac:(lia)) as (I1 & I2 & I3).
  destruct (VerifiedSet.insert utc_now tx spent (pending_outputs self) height (verified self)) as [[v p]|r|] eqn:Ins.
  2: { destruct (storage_ok_reject (E:=E) now (id (unmined tx)) (SameEffectsTip r) self O) as (s' & -> & O' & P); [done|].
    cbn [obind]. exists s', (Err (StorageEffectsTip r)). rewrite not_full by exact (st_cost _ _ O').
    split_and!; [done..|by apply inserted_same; rewrite (sp_verified _ _ P)]. }
  all: destruct (VerifiedSet.has_spend_conflicts (verified self) (unmined tx)); [by discriminate I1|].
  all: destruct (outputs_known (verified self) spent); [|by discriminate I2].
  all: destruct I3 as (v' & p' & [= <- <-] & Sv & Tv & Dv & _); try done. clear I1 I2.
  cbn [obind]. set (s1 := set_pending p (set_verified v self)).
  assert (Wf1 : storage_wf now s1).
  { split; [by destruct R|done| |done]. intros e k. cbn. rewrite Tv. intros [t [[<- _]|[_ Lk]]%lookup_insert_Some]; [apply Nr|].
    change (rejected_in now self e k = false). apply A. eauto. }
  destruct (evict_while_full_ok (E:=E) sample now (id (unmined tx)) Sa _ 0%nat s1 (Ok (id (unmined tx))) Wf1 ltac:(done))
    as (s2 & r2 & C & -> & O2 & [W2 _ Rs Rp _]).
  assert (Lk : transactions (verified s1) !! verified_id tx = Some (stored utc_now height tx)) by (cbn; rewrite Tv; apply lookup_insert_eq).
  exists s2, r2. split_and!; [done..|]. split.
  - intros j t N. rewrite (w_transactions _ _ _ W2). case_decide; [done|]. cbn. rewrite Tv, lookup_insert_ne by done. done.
  - destruct Rs as [->|[-> Ic]].
    + split_and!; [done..|]. intros ->. rewrite (w_transactions _ _ _ W2). case_decide as Ic; [|done]. exfalso.
      specialize (Rp _ Lk eq_refl). discriminate Rp; [|done]. cbn. intros a [Da|[_ Ha]]%Dv; [|set_solver].
      apply (ok_within _ (set_dependencies_ok _ S)) in Da as [_ [? Q]]. unfold verified_id in Fr. congruence.
    + rewrite Fr, (w_transactions _ _ _ W2). by rewrite decide_True.
Qed.

(** An insertion does not panic, ends, and keeps the invariant. *)
Lemma mempool_insert_ok {E : Type} sample now utc_now tx spent height (self : St) :
  draws_in_range sample -> storage_ok now self ->
  tx_ok tx -> scripts_small tx -> tx_cost_limit self + cost tx <= U64_MAX ->
  exists self' result, Storage.insert (E:=E) sample now utc_now tx spent height self = Ok (self', result) /\
    storage_ok now self' /\ inserted tx spent (stored utc_now height tx) self self' result.
Proof.
  intros Sa O T Sm B. unfold Storage.insert. destruct (rejection_error now self (id (unmined tx))) as [e|] eqn:Rj.
  { exists self, (Err e). split_and!; [done..|by apply inserted_same]. }
  unfold VerifiedSet.contains. destruct (transactions (verified self) !! mined_id (id (unmined tx))) as [t|] eqn:L.
  { rewrite bool_decide_eq_true_2 by eauto. exists self, (Err InMempool). split_and!; [done..|by apply inserted_same]. }
  rewrite bool_decide_eq_false_2 by (by intros []). unfold reject_if_non_standard_tx.
  destruct (violation_returns (E:=E) (max_datacarrier_bytes self) tx Sm) as [[e|] ->]; cbn [obind].
  - unfold reject_non_standard. destruct (storage_ok_reject (E:=E) now (id (unmined tx)) (NonStandardRejection e) self O) as (s' & -> & O' & P); [done|].
    cbn [obind]. exists s', (Err (NonStandardTransaction e)). split_and!; [done..|apply inserted_same, P].
  - apply insert_standard_ok; try done. intros e. by apply not_rejected_in.
Qed.

(** ** Removals *)

Lemma storage_wf_set now self v C : storage_wf now self -> set_ok v -> without C (verified self) v -> storage_wf now (set_verified v self).
Proof. intros Wf S W. apply (storage_wf_shrink now self _ C); try done; [by destruct Wf as [[] ]|]. by left. Qed.

(** Rejections of transactions that have left the mempool. *)
Lemma reject_each_ok {E : Type} now reason ids : forall self, storage_wf now self -> NoDup (mined_id <$> ids) ->
  (forall k, k ∈ mined_id <$> ids -> rejected_in now self reason k = false /\ transactions (verified self) !! k = None) ->
  exists self', reject_each (E:=E) now ids reason self = Ok self' /\ storage_wf now self' /\ same_pool self self' /\
    forall e k, rejected_in now self' e k = true -> rejected_in now self e k = true \/ e = reason /\ k ∈ mined_id <$> ids.
Proof.
  induction ids as [|u ids IH]; intros self Wf N Nr; cbn.
  - exists self. split_and!; [done..|by left].
  - cbn in N. apply NoDup_cons in N as [Nu N]. pose proof Wf as [R S A L].
    destruct (Nr (mined_id u) ltac:(cbn; set_solver)) as [Ru Tu].
    destruct (reject_ok (E:=E) now u (SameEffectsChain reason) self R) as (s1 & -> & R1 & P1 & J1 & _); [by intros e [= <-]|]. cbn.
    assert (Wf1 : storage_wf now s1).
    { split; [done|by rewrite (sp_verified _ _ P1)| |by rewrite (sp_limit _ _ P1)]. intros e k. rewrite (sp_verified _ _ P1). intros Sk.
      destruct (rejected_in now s1 e k) eqn:X; [|done]. apply J1 in X as [X|[_ ->]]; [by rewrite A in X|]. rewrite Tu in Sk. by destruct Sk. }
    destruct (IH s1 Wf1 N) as (s2 & -> & Wf2 & P2 & J2).
    { intros k Ik. rewrite (sp_verified _ _ P1). destruct (Nr k ltac:(cbn; set_solver)) as [Rk Tk]. split; [|done].
      destruct (rejected_in now s1 reason k) eqn:X; [|done]. apply J1 in X as [X|[_ ->]]; congruence. }
    exists s2. split_and!; [done..|by eapply same_pool_trans|]. intros e k [X|[-> X]]%J2; [|right; set_solver].
    apply J1 in X as [X|[[= ->] ->]]; [by left|right]. set_solver.
Qed.

Lemma fmap_Legacy (l : list TxHash) : mined_id <$> (Legacy <$> l) = l.
Proof. rewrite <- list_fmap_compose. apply list_fmap_id. Qed.

(** Two transactions of a set have different ids. *)
Lemma ids_distinct v k1 k2 t1 t2 : caches_ok v -> transactions v !! k1 = Some t1 -> transactions v !! k2 = Some t2 ->
  mined_id (id (unmined t1)) = mined_id (id (unmined t2)) -> k1 = k2 /\ t1 = t2.
Proof.
  intros C L1 L2 Q. destruct (ok_keys _ C _ _ L1) as [H1 _], (ok_keys _ C _ _ L2) as [H2 _]. unfold verified_id in *.
  assert (k1 = k2) as <- by congruence. split; congruence.
Qed.

(** The ids of the transactions of a set that satisfy a predicate. *)
Lemma selected_ids (f : VerifiedUnminedTx -> bool) v (ids : gset UnminedTxId) : caches_ok v ->
  ids = list_to_set ((fun e => id (unmined e.2)) <$> filter (fun e => f e.2 = true) (map_to_list (transactions v))) ->
  (forall u, u ∈ ids <-> exists t, transactions v !! mined_id u = Some t /\ u = id (unmined t) /\ f t = true) /\
  (forall k t, transactions v !! k = Some t -> bool_decide (id (unmined t) ∈ ids) = f t) /\
  NoDup (mined_id <$> elements ids).
Proof.
  intros C ->. set (ids := list_to_set _).
  assert (M : forall u, u ∈ ids <-> exists t, transactions v !! mined_id u = Some t /\ u = id (unmined t) /\ f t = true).
  { intros u. unfold ids. rewrite elem_of_list_to_set, list_elem_of_fmap. split.
    - intros ([k t] & -> & [F L%elem_of_map_to_list]%list_elem_of_filter). cbn in *. destruct (ok_keys _ C _ _ L) as [H _].
      exists t. unfold verified_id in H. by rewrite H.
    - intros (t & L & -> & F). eexists (_, t). split; [done|]. apply list_elem_of_filter. split; [done|by apply elem_of_map_to_list]. }
  split_and!; [done| |].
  - intros k t L. apply eq_iff_eq_true. rewrite bool_decide_eq_true, M. split.
    + intros (t' & L' & Q & F). destruct (ids_distinct v k _ t t' C L L') as [_ ->]; [by rewrite Q|done].
    + intros F. exists t. destruct (ok_keys _ C _ _ L) as [H _]. unfold verified_id in H. by rewrite H.
  - apply NoDup_fmap_2_strong; [|apply NoDup_elements]. intros u1 u2 (t1 & L1 & Q1 & _)%elem_of_elements%M (t2 & L2 & Q2 & _)%elem_of_elements%M Q.
    rewrite Q in L1. congruence.
Qed.

(** ** A new block *)

(** A dependency on a transaction that the block does not contain. *)
Definition unmined_dep (v : VerifiedSet.VerifiedSet) (hashes : list TxHash) (a b : TxHash) : Prop :=
  dep (transaction_dependencies v) a b /\ a ∉ hashes.

(** A transaction stays when the block neither contains it nor spends what it
    spends, nor what a transaction spends on which it depends. *)
Definition survives (v : VerifiedSet.VerifiedSet) (hashes : list TxHash) (block : list Transaction) (k : TxHash) : Prop :=
  k ∉ hashes /\ forall j t, transactions v !! j = Some t -> j ∉ hashes ->
    duplicates_spend block (verified_effects t) = true -> ~ rtc (unmined_dep v hashes) j k.

(** The transactions of the block are removed, and no other: nothing depends on
    them any more. *)
Lemma mined_removed {E : Type} v (mined : gset TxHash) : set_ok v ->
  exists ids v1, VerifiedSet.remove_all_that (E:=E) (fun tx => bool_decide (mined_id (id (unmined tx)) ∈ mined))
      (VerifiedSet.clear_mined_dependencies mined v) = Ok (ids, v1) /\ set_ok v1 /\
    (forall k, transactions v1 !! k = if decide (k ∈ mined) then None else transactions v !! k) /\
    (forall a b, dep (transaction_dependencies v1) a b <-> dep (transaction_dependencies v) a b /\ a ∉ mined /\ b ∉ mined).
Proof.
  intros S. destruct (clear_mined_ok mined v S) as [S0 D0]. set (v0 := VerifiedSet.clear_mined_dependencies mined v) in *.
  destruct (remove_all_that_ok (E:=E) (fun tx => bool_decide (mined_id (id (unmined tx)) ∈ mined)) v0 S0) as (ids & v1 & C & -> & S1 & K & W & _).
  assert (HC : forall x, x ∈ C <-> is_Some (transactions v !! x) /\ x ∈ mined).
  { intros x. rewrite (K x). split.
    - intros (k & t & L & P & R). destruct (ok_keys _ (set_caches _ S0) _ _ L) as [H _]. unfold verified_id in H.
      apply bool_decide_eq_true_1 in P. rewrite H in P. inversion R as [|? y ? D]; subst; [by split; [exists t|]|]. by apply D0 in D as [_ ?].
    - intros [[t L] I]. exists x, t. destruct (ok_keys _ (set_caches _ S) _ _ L) as [H _]. unfold verified_id in H.
      split_and!; [done|by apply bool_decide_eq_true_2; rewrite H|apply rtc_refl]. }
  exists ids, v1. split_and!; [done..| |].
  - intros k. rewrite (w_transactions _ _ _ W). cbn. specialize (HC k). destruct (transactions v !! k) as [t|] eqn:L; [|by repeat case_decide].
    repeat case_decide; try done; exfalso; naive_solver.
  - intros a b. rewrite (w_dependencies _ _ _ W), D0, !HC. split.
    + intros [[D Na] [_ Nb]]. split_and!; [done..|]. intros I. apply Nb. split; [|done]. by apply (ok_within _ (set_dependencies_ok _ S)) in D as [_ ?].
    + tauto.
Qed.

(** Those that it invalidates are removed with their dependents. *)
Lemma duplicates_removed {E : Type} v block : set_ok v ->
  let dups : gset UnminedTxId := list_to_set ((fun e => id (unmined e.2)) <$>
    filter (fun e => duplicates_spend block (verified_effects e.2) = true) (map_to_list (transactions v))) in
  exists ids v' C, VerifiedSet.remove_all_that (E:=E) (fun tx => bool_decide (id (unmined tx) ∈ dups)) v = Ok (ids, v') /\
    set_ok v' /\ without C v v' /\
    (forall x, x ∈ C <-> exists j t, transactions v !! j = Some t /\ duplicates_spend block (verified_effects t) = true /\
      rtc (dep (transaction_dependencies v)) j x) /\
    NoDup (mined_id <$> elements dups) /\
    (forall k, k ∈ mined_id <$> elements dups -> is_Some (transactions v !! k) /\ k ∈ C).
Proof.
  intros S dups. destruct (selected_ids (fun t => duplicates_spend block (verified_effects t)) v dups (set_caches _ S) eq_refl) as (M & Bd & N).
  destruct (remove_all_that_ok (E:=E) (fun tx => bool_decide (id (unmined tx) ∈ dups)) v S) as (ids & v' & C & -> & S' & K & W & _).
  assert (HC : forall x, x ∈ C <-> exists j t, transactions v !! j = Some t /\ duplicates_spend block (verified_effects t) = true /\
      rtc (dep (transaction_dependencies v)) j x).
  { intros x. rewrite (K x). split; intros (j & t & L & P & R); exists j, t; (split_and!; [done| |done]).
    - by rewrite <- (Bd j t L).
    - by rewrite (Bd j t L). }
  exists ids, v', C. split_and!; try done. intros k (u & -> & (t & L & Q & F)%elem_of_elements%M)%list_elem_of_fmap.
  split; [by exists t|]. apply HC. exists (mined_id u), t. split_and!; [done..|apply rtc_refl].
Qed.

(** Both removals together: what survives the block is left. *)
Lemma block_removals {E : Type} v hashes block : set_ok v ->
  let mined : gset TxHash := list_to_set hashes in
  exists ids1 v1, VerifiedSet.remove_all_that (E:=E) (fun tx => bool_decide (mined_id (id (unmined tx)) ∈ mined))
      (VerifiedSet.clear_mined_dependencies mined v) = Ok (ids1, v1) /\
  let dups : gset UnminedTxId := list_to_set ((fun e => id (unmined e.2)) <$>
    filter (fun e => duplicates_spend block (verified_effects e.2) = true) (map_to_list (transactions v1))) in
  exists ids2 v2, VerifiedSet.remove_all_that (E:=E) (fun tx => bool_decide (id (unmined tx) ∈ dups)) v1 = Ok (ids2, v2) /\
    set_ok v2 /\ total_cost v2 <= total_cost v /\ NoDup (mined_id <$> elements dups) /\
    (forall k, k ∈ mined_id <$> elements dups -> is_Some (transactions v !! k) /\ transactions v2 !! k = None) /\
    (forall k, k ∈ hashes -> transactions v2 !! k = None) /\
    (forall k t, transactions v2 !! k = Some t <-> transactions v !! k = Some t /\ survives v hashes block k).
Proof.
  intros S mined. destruct (mined_removed (E:=E) v mined S) as (ids1 & v1 & Rm1 & S1 & T1 & D1). exists ids1, v1. split; [done|].
  destruct (duplicates_removed (E:=E) v1 block S1) as (ids2 & v2 & C & Rm2 & S2 & W & HC & Nd & Dk). intros dups. exists ids2, v2.
  assert (T2 : forall k, transactions v2 !! k = if decide (k ∈ C ∪ mined) then None else transactions v !! k).
  { intros k. rewrite (w_transactions _ _ _ W), T1. repeat case_decide; set_solver. }
  split_and!; [done..| |done| | |].
  - rewrite (ok_cost _ (set_caches _ S)), (ok_cost _ (set_caches _ S2)). apply sum_over_subseteq.
    + apply map_subseteq_spec. intros k t. rewrite T2. by case_decide.
    + intros k t Lk. destruct (ok_keys _ (set_caches _ S) _ _ Lk) as [_ T]. pose proof (cost_bounds _ T). lia.
  - intros k Ik. destruct (Dk k Ik) as [[t Lk] Ic]. rewrite T2, decide_True by set_solver. rewrite T1 in Lk. case_decide; [done|eauto].
  - intros k Ik. rewrite T2, decide_True; [done|]. apply elem_of_union_r. by apply elem_of_list_to_set.
  - intros k t. rewrite T2. unfold survives, mined in *. split.
    + case_decide as Ic; [done|]. intros Lk. split; [done|]. split; [set_solver|]. intros j t' Lj Nj Dj P.
      apply Ic, elem_of_union_l, HC. exists j, t'. split_and!; [rewrite T1; by rewrite decide_False by set_solver|done|].
      apply (rtc_avoids (unmined_dep v hashes) _ (list_to_set hashes) j k); [|by intros a b [Dab _] ? ?; apply D1|done|set_solver].
      intros a b Ia%elem_of_list_to_set [_ ?]. done.
    + intros [Lk [Nk Sv]]. rewrite decide_False; [done|]. intros [Ic|Ic]%elem_of_union; [|set_solver].
      apply HC in Ic as (j & t' & Lj & Dj & P). rewrite T1 in Lj. case_decide; [done|]. apply (Sv j t' Lj ltac:(set_solver) Dj).
      eapply rtc_subrel; [|exact P]. intros a b (Dab & Na & _)%D1. split; [done|set_solver].
Qed.

(** What a new block leaves. *)
Lemma new_block_ok {E : Type} now hashes block (self : St) : storage_ok now self ->
  (forall h, h ∈ hashes -> rejected_in now self Mined h = false) ->
  exists mined invalidated self', tip_grows (E:=E) now hashes block self = Ok (mined, invalidated, self') /\ storage_ok now self' /\
    forall k t, transactions (verified self') !! k = Some t <->
      transactions (verified self) !! k = Some t /\ survives (verified self) hashes block k.
Proof.
  intros [Wf Co] Nm. pose proof Wf as [R S A L]. unfold tip_grows, reject_and_remove_same_effects.
  destruct (block_removals (E:=E) (verified self) hashes block S) as (ids1 & v1 & Rm1 & ids2 & v2 & Rm2 & S2 & Co2 & Nd & Dk & Mk & Sv).
  change (verified (clear_mined_dependencies ?m self)) with (VerifiedSet.clear_mined_dependencies m (verified self)).
  rewrite Rm1. cbn [obind]. rewrite Rm2. cbn [obind]. set (dups := list_to_set (_ <$> filter _ _)) in *.
  change (set_verified v2 (clear_mined_dependencies _ self)) with (set_verified v2 self).
  assert (Wf2 : storage_wf now (set_verified v2 self)).
  { split; [by destruct R|done| |done]. intros e k [t Lk%Sv]. apply A. exists t. by destruct Lk. }
  destruct (reject_each_ok (E:=E) now Mined (Legacy <$> elements (list_to_set hashes : gset TxHash)) _ Wf2) as (s3 & -> & Wf3 & P3 & J3); rewrite ?fmap_Legacy.
  { apply NoDup_elements. }
  { intros k I%elem_of_elements%elem_of_list_to_set. split; [by apply Nm|by apply Mk]. }
  cbn [obind]. destruct (reject_each_ok (E:=E) now DuplicateSpend (elements dups) s3 Wf3 Nd) as (s4 & -> & Wf4 & P4 & _).
  { intros k [Sk Nk]%Dk. rewrite (sp_verified _ _ P3). split; [|done]. destruct (rejected_in now s3 DuplicateSpend k) eqn:X; [|done].
    apply J3 in X as [X|[? _]]; [|done]. change (rejected_in now self DuplicateSpend k = true) in X. by rewrite A in X. }
  cbn [obind]. unfold clear_tip_rejections. match goal with |- context [update_rejected_metrics now ?s] =>
    destruct (update_rejected_metrics_ok (E:=E) now s) as (s5 & -> & R5 & P5 & J5) end.
  { destruct Wf4 as [[X1 X2 X3 X4] _ _ _]. split; cbn; try done; rewrite ?map_size_empty; done. }
  cbn [obind]. exists ids1, ids2, s5.
  assert (V5 : verified s5 = v2) by (by rewrite (sp_verified _ _ P5); cbn; rewrite (sp_verified _ _ P4), (sp_verified _ _ P3)).
  assert (L5 : tx_cost_limit s5 = tx_cost_limit self) by (by rewrite (sp_limit _ _ P5); cbn; rewrite (sp_limit _ _ P4), (sp_limit _ _ P3)).
  split_and!; [done| |by rewrite V5]. split; [split; [done|by rewrite V5| |lia]|rewrite V5, L5; lia].
  intros e k. rewrite V5, J5. intros Sk. change (rejected_in now s4 e k = false). apply Wf4. by rewrite (sp_verified _ _ P4), (sp_verified _ _ P3).
Qed.

(** ** Expiry and the other operations *)

(** Transactions that have expired leave the mempool with their dependents. *)
Lemma remove_expired_ok {E : Type} now tip_height (self : St) : storage_ok now self ->
  exists ids self', remove_expired_transactions (E:=E) now tip_height self = Ok (ids, self') /\ storage_ok now self' /\
    forall k t, transactions (verified self') !! k = Some t <-> transactions (verified self) !! k = Some t /\
      forall j t', transactions (verified self) !! j = Some t' -> is_expired tip_height t' = true ->
        ~ rtc (dep (transaction_dependencies (verified self))) j k.
Proof.
  intros [Wf Co]. pose proof Wf as [R S A L]. unfold remove_expired_transactions. set (expired := filter _ _).
  assert (Ex : forall k, k ∈ expired.*1 <-> exists t, transactions (verified self) !! k = Some t /\ is_expired tip_height t = true).
  { intros k. unfold expired. rewrite list_elem_of_fmap. split.
    - intros ([k' t] & -> & [F I%elem_of_map_to_list]%list_elem_of_filter). eauto.
    - intros (t & Lt & F). exists (k, t). split; [done|]. apply list_elem_of_filter. split; [done|by apply elem_of_map_to_list]. }
  destruct (remove_all_that_ok (E:=E) (fun tx => bool_decide (mined_id (id (unmined tx)) ∈ (list_to_set expired.*1 : gset TxHash))) _ S)
    as (ids & v & C & -> & Sv & K & W & _). cbn [obind].
  assert (Pk : forall k t, transactions (verified self) !! k = Some t ->
    bool_decide (mined_id (id (unmined t)) ∈ (list_to_set expired.*1 : gset TxHash)) = true <-> is_expired tip_height t = true).
  { intros k t Lt. destruct (ok_keys _ (set_caches _ S) _ _ Lt) as [H _]. unfold verified_id in H. rewrite H, bool_decide_eq_true, elem_of_list_to_set, Ex.
    split; [intros (t' & Lt' & F); congruence|eauto]. }
  assert (Wfv : storage_wf now (set_verified v self)) by (by eapply storage_wf_set).
  destruct (reject_each_ok (E:=E) now Expired (Legacy <$> elements (list_to_set expired.*1 : gset TxHash)) _ Wfv) as (s1 & -> & Wf1 & P1 & _); rewrite ?fmap_Legacy.
  { apply NoDup_elements. }
  { intros k (t & Lt & F)%elem_of_elements%elem_of_list_to_set%Ex. split; [apply A; eauto|]. cbn. rewrite (w_transactions _ _ _ W), decide_True; [done|].
    apply K. exists k, t. split_and!; [done|by apply (Pk k)|apply rtc_refl]. }
  cbn [obind]. eexists _, s1. split; [done|]. split.
  - split; [done|]. rewrite (sp_verified _ _ P1), (sp_limit _ _ P1). cbn. etrans; [|exact Co]. by eapply without_cost.
  - intros k t. rewrite (sp_verified _ _ P1). cbn. rewrite (w_transactions _ _ _ W). split.
    + case_decide as Ic; [done|]. intros Lt. split; [done|]. intros j t' Lj F P. apply Ic, K. exists j, t'. split_and!; [done|by apply (Pk j)|done].
    + intros [Lt N]. rewrite decide_False; [done|]. intros (j & t' & Lj & F%(Pk j) & P)%K; [|done]. by eapply N.
Qed.

Lemma remove_exact_ok {E : Type} now ids (self : St) : storage_ok now self ->
  exists n self', remove_exact (E:=E) ids self = Ok (n, self') /\ storage_ok now self'.
Proof.
  intros [Wf Co]. unfold remove_exact.
  destruct (remove_all_that_ok (E:=E) (fun tx => bool_decide (id (unmined tx) ∈ ids)) _ (st_set _ _ Wf)) as (us & v & C & -> & Sv & K & W & _). cbn [obind].
  eexists _, _. split; [done|]. split; [by eapply storage_wf_set|]. cbn. etrans; [|exact Co]. eapply without_cost; [apply Wf|done|done].
Qed.

Lemma clear_tip_ok {E : Type} now (self : St) : storage_ok now self ->
  exists self', clear_tip_rejections (E:=E) now self = Ok self' /\ storage_ok now self'.
Proof.
  intros [[R S A L] Co]. unfold clear_tip_rejections. match goal with |- context [update_rejected_metrics now ?s] =>
    destruct (update_rejected_metrics_ok (E:=E) now s) as (s' & -> & R' & P & J) end.
  { destruct R as [X1 X2 X3 X4]. split; cbn; try done; by rewrite map_size_empty. }
  exists s'. split; [done|]. split; [split|]; rewrite ?(sp_verified _ _ P), ?(sp_limit _ _ P); try done.
  intros e k. rewrite (sp_verified _ _ P), J. apply A.
Qed.

Lemma storage_new_ok now limit time data : 0 <= limit -> 0 <= time -> storage_ok now (new limit time data : St).
Proof.
  intros. split; [|done]. split; [|apply empty_set_ok| |done].
  - split; cbn; try done.
  - by intros e k [].
Qed.

Lemma clear_ok {E : Type} now (self : St) : storage_ok now self -> exists self', Storage.clear (E:=E) now self = Ok self' /\ storage_ok now self'.
Proof.
  intros [[R S A L] Co]. unfold Storage.clear. match goal with |- context [update_rejected_metrics now ?s] =>
    destruct (update_rejected_metrics_ok (E:=E) now s) as (s' & -> & R' & P & J) end.
  { split; cbn; try done. apply R. }
  exists s'. split; [done|]. split; [split|]; rewrite ?(sp_verified _ _ P), ?(sp_limit _ _ P); try done; [apply empty_set_ok|].
  intros e k. rewrite (sp_verified _ _ P). by intros [].
Qed.

Lemma storage_ok_later now now' (self : St) : now <= now' -> storage_ok now self -> storage_ok now' self.
Proof.
  intros Le [[[Ls X2 X3 X4] S A L] Co]. split; [|done]. split; [|done| |done].
  - split; try done. intros e l H. destruct (Ls e l H) as (? & ? & ?). split_and!; [by eapply EvictionList.list_ok_later|done..].
  - intros e k Sk. specialize (A e k Sk). unfold rejected_in in *. destruct (chain_rejected_same_effects self !! e) as [l|]; [|done].
    destruct (contains_key now' l k) eqn:X; [|done]. apply (EvictionList.contains_key_earlier now) in X; [congruence|done].
Qed.

(** ** All runs *)

(** The operations of the mempool on its storage. *)
Inductive operation :=
| Insert (sample : nat -> list Z -> nat) (utc_now : Z) (tx : VerifiedUnminedTx) (spent_mempool_outpoints : list OutPoint) (height : option Z)
| NewBlock (transaction_hashes : list TxHash) (block : list Transaction)
| RemoveExpired (tip_height : Z)
| RejectIfNeeded (tx_id : UnminedTxId) (e : TransactionDownloadVerifyError (TransactionError:=TransactionError))
| RemoveExact (exact_wtxids : gset UnminedTxId)
| ClearTipRejections
| ClearStorage
| QueueOutput (outpoint : OutPoint).

Definition perform {E : Type} (now : Z) (op : operation) (self : St) : outcome E St :=
  match op with
  | Insert sample utc_now tx spent height => let? r := Storage.insert sample now utc_now tx spent height self in Ok r.1
  | NewBlock hashes block => let? r := tip_grows now hashes block self in Ok r.2
  | RemoveExpired tip_height => let? r := remove_expired_transactions now tip_height self in Ok r.2
  | RejectIfNeeded tx_id e => reject_if_needed now tx_id e self
  | RemoveExact ids => let? r := remove_exact ids self in Ok r.2
  | ClearTipRejections => clear_tip_rejections now self
  | ClearStorage => Storage.clear now self
  | QueueOutput outpoint => Ok (set_pending (PendingOutputs.queue outpoint (pending_outputs self)) self)
  end.

(** What the callers establish: the transaction was deserialized from a message,
    and a transaction is mined once in a chain. *)
Definition allowed (now : Z) (op : operation) (self : St) : Prop :=
  match op with
  | Insert sample _ tx _ _ => draws_in_range sample /\ tx_ok tx /\ scripts_small tx /\ tx_cost_limit self + cost tx <= U64_MAX
  | NewBlock hashes _ => forall h, h ∈ hashes -> rejected_in now self Mined h = false
  | _ => True
  end.

(** The storages of a mempool and the times they are seen at. *)
Inductive reachable : Z -> St -> Prop :=
| reachable_new now limit time data : 0 <= limit -> 0 <= time -> reachable now (new limit time data)
| reachable_later now now' self : reachable now self -> now <= now' -> reachable now' self
| reachable_perform now op self self' : reachable now self -> allowed now op self ->
    perform (E:=Empty_set) now op self = Ok self' -> reachable now self'.

Lemma perform_ok now op self : storage_ok now self -> allowed now op self ->
  exists self', perform (E:=Empty_set) now op self = Ok self' /\ storage_ok now self'.
Proof.
  intros O A. destruct op as [sample utc tx spent height|hashes block|tip|u e|ids| | |o]; cbn [perform allowed] in *.
  - destruct A as (? & ? & ? & ?). destruct (mempool_insert_ok (E:=Empty_set) sample now utc tx spent height self) as (s & r & -> & ? & _); try done. by exists s.
  - destruct (new_block_ok (E:=Empty_set) now hashes block self O A) as (m & i & s & -> & ? & _). by exists s.
  - destruct (remove_expired_ok (E:=Empty_set) now tip self O) as (i & s & -> & ? & _). by exists s.
  - destruct e; cbn [reject_if_needed]; eauto. destruct (storage_ok_reject (E:=Empty_set) now u (ExactTip (FailedVerification error)) self O) as (s & -> & ? & _); [done|]. by exists s.
  - destruct (remove_exact_ok (E:=Empty_set) now ids self O) as (n & s & -> & ?). by exists s.
  - by apply clear_tip_ok.
  - by apply clear_ok.
  - eexists. split; [done|]. destruct O as [[R S A' L] Co]. split; [|done]. split; [by destruct R|done..].
Qed.

Lemma reachable_ok now self : reachable now self -> storage_ok now self.
Proof.
  induction 1 as [| |now op self self' _ IH A P]; [by apply storage_new_ok|by eapply storage_ok_later|].
  destruct (perform_ok now op self IH A) as (s & Q & O). congruence.
Qed.

Definition conflict_free {X : Type} (f : VerifiedUnminedTx -> list X) (self : St) : Prop :=
  forall k1 k2 t1 t2 x, transactions (verified self) !! k1 = Some t1 -> transactions (verified self) !! k2 = Some t2 ->
    x ∈ f t1 -> x ∈ f t2 -> k1 = k2.

(** C11: the mempool never panics, and in every state it can reach no two of its
    transactions spend the same output or reveal the same nullifier of any pool,
    its total cost is the sum of the costs of its transactions and within the
    limit, every chain rejection list has at most 40,000 entries, and no
    transaction in the mempool is on such a list. *)
Theorem mempool_invariant now self : reachable now self ->
  (forall op, allowed now op self -> exists self', perform (E:=Empty_set) now op self = Ok self') /\
  conflict_free spent_of self /\ conflict_free sprout_of self /\ conflict_free sapling_of self /\
  conflict_free orchard_of self /\ conflict_free ironwood_of self /\
  total_cost (verified self) = sum_over cost (transactions (verified self)) /\ total_cost (verified self) <= tx_cost_limit self /\
  (forall e l, chain_rejected_same_effects self !! e = Some l -> Z.of_nat (base.size (EvictionList.unique_entries l)) <= MAX_EVICTION_MEMORY_ENTRIES) /\
  (forall e k, is_Some (transactions (verified self) !! k) -> rejected_in now self e k = false).
Proof.
  intros O%reachable_ok. pose proof O as [[R [C D] A L] Co]. split_and!; try done.
  - intros op Al. destruct (perform_ok now op self O Al) as (s & ? & _). eauto.
  - exact (proj2 (ok_spent _ C)).
  - exact (proj2 (ok_sprout _ C)).
  - exact (proj2 (ok_sapling _ C)).
  - exact (proj2 (ok_orchard _ C)).
  - exact (proj2 (ok_ironwood _ C)).
  - exact (ok_cost _ C).
  - intros e l H. destruct (r_lists _ _ R e l H) as ((_ & _ & es & Es) & M & _). rewrite (EvictionList.entries_size _ _ _ Es), <- M. apply Es.
Qed.

(** C28: an insertion into a mempool ends, with the total cost within the limit.  An
    error leaves the transaction in the mempool exactly if it was there before; a
    success means that it was not, and that it is there now when it spends no
    output of another transaction of the mempool.  No other transaction is added. *)
Theorem insert_result_exact {E : Type} now sample utc_now tx spent height (self : St) : reachable now self ->
  allowed now (Insert sample utc_now tx spent height) self ->
  exists self' result, Storage.insert (E:=E) sample now utc_now tx spent height self = Ok (self', result) /\
    total_cost (verified self') <= tx_cost_limit self' /\ inserted tx spent (stored utc_now height tx) self self' result.
Proof.
  intros O%reachable_ok (? & ? & ? & ?). destruct (mempool_insert_ok (E:=E) sample now utc_now tx spent height self) as (s & r & X & Os & ?); try done.
  exists s, r. split_and!; try done. apply Os.
Qed.


(** The transactions that leave the mempool at a height are those that have
    expired and those that depend on them. *)
Theorem expiry_exact {E : Type} now tip_height (self : St) : reachable now self ->
  exists ids self', remove_expired_transactions (E:=E) now tip_height self = Ok (ids, self') /\
    forall k t, transactions (verified self') !! k = Some t <-> transactions (verified self) !! k = Some t /\
      forall j t', transactions (verified self) !! j = Some t' -> is_expired tip_height t' = true ->
        ~ rtc (dep (transaction_dependencies (verified self))) j k.
Proof. intros O%reachable_ok. destruct (remove_expired_ok (E:=E) now tip_height self O) as (i & s & ? & _ & ?). eauto. Qed.

(** ** Script policy *)

Lemma input_scripts_checked ins : forall i, input_violation ins = None -> try_for_each check_input_script i ins = Ok tt.
Proof.
  induction ins as [|[[o|] s] ins IH]; intros i X; cbn in *; [done| |by apply IH].
  destruct (count s >? MAX_STANDARD_SCRIPTSIG_SIZE); [done|]. destruct (is_push_only s); [|done]. cbn. by apply IH.
Qed.

(** The check that the verifier makes before it runs the scripts refuses no
    transaction that the storage accepts, when the spent outputs are known. *)
Theorem precheck_is_subset {E : Type} max tx : verified_spent_outputs tx <> [] -> violation (E:=E) max tx = Ok None ->
  mempool_standard_input_scripts (transaction (unmined tx)) (verified_spent_outputs tx) = Ok tt.
Proof.
  intros Ne. unfold violation. destruct (input_violation _) eqn:Iv; [done|]. destruct (spend_violation tx) eqn:Sv; [done|]. intros _.
  unfold spend_violation in Sv. assert (Nz : count (verified_spent_outputs tx) =? 0 = false) by (by destruct (verified_spent_outputs tx)).
  rewrite Nz in Sv. cbn [negb] in Sv. unfold mempool_standard_input_scripts.
  destruct (count (inputs (effects (transaction (unmined tx)))) =? count (verified_spent_outputs tx)); [|done]. cbn [negb] in Sv. cbn [require obind].
  rewrite input_scripts_checked by done. cbn [obind]. by destruct (are_inputs_standard _ _).
Qed.
End Theorems.

(** ** A concrete mempool *)

#[local] Existing Instance example_build.
#[local] Existing Instance example_types.

(** Ids and scripts are integers; every script pays to a key hash. *)
#[local] Instance example_env : MempoolEnv := {|
  zcash_serialized_size _ := 6000;
  unmined_id tx := Legacy (from_option (fun o => o.1 + 1) 0 (head (TransactionValues.spent_outpoints (effects tx))));
  as_raw_bytes _ := [];
  is_push_only _ := true;
  push_values _ := [];
  solver_standard _ := Some PubKeyHash;
  sig_op_count _ := 0;
|}.

(** A transaction that spends an output and creates one. *)
Definition example_relayed (outpoint : Z * Z) : RelayedTransaction :=
  mkRelayed (mkTransaction [PrevOut outpoint] [example_output 50000 7] [] None None None None) [[]] [41] (Some 100).
Definition example_unmined (h : Z) (outpoint : Z * Z) : UnminedTx :=
  mkUnmined (example_relayed outpoint) (Legacy h) 6000 (Amount.mk 10000).
Definition example_verified (h : Z) (outpoint : Z * Z) : VerifiedUnminedTx :=
  mkVerified (example_unmined h outpoint) (Amount.mk 10000) 1 0 2 0 None None [].

Lemma example_verified_ok h o : tx_ok (example_verified h o) /\ scripts_small (example_verified h o).
Proof.
  split; [by_eval|]. unfold scripts_small. cbn. repeat constructor. by vm_compute.
Qed.

Abbreviation ExampleStorage := (Storage.Storage (TransactionError := unit)).
Abbreviation example_reachable := (reachable (TransactionError := unit)).

(** A mempool with room for one transaction. *)
Definition example_new : ExampleStorage := new 15000 60 None.

Lemma example_new_reachable : example_reachable 0 example_new.
Proof. by apply reachable_new. Qed.

(** Every draw takes the last transaction. *)
Definition last_draw (round : nat) (weights : list Z) : nat := Nat.pred (length weights).

Lemma last_draw_in_range : draws_in_range last_draw.
Proof. intros r [|w ws] N; [done|unfold last_draw; cbn; lia]. Qed.

Definition example_insert (h : Z) (o : Z * Z) (spent : list (Z * Z)) : operation (TransactionError := unit) :=
  Insert last_draw 0 (example_verified h o) spent (Some 1).

Lemma example_insert_allowed h o spent : allowed 0 (example_insert h o spent) example_new.
Proof.
  destruct (example_verified_ok h o). split_and!; [apply last_draw_in_range|done..].
Qed.

Lemma mempool_invariant_witness :
  exists self', perform (E:=Empty_set) 0 (example_insert 1 (100, 0) []) example_new = Ok self'.
Proof.
  destruct (mempool_invariant 0 example_new example_new_reachable) as [P _]. apply P. apply example_insert_allowed.
Defined.

Lemma insert_result_exact_witness :
  exists self' result, Storage.insert (E:=Empty_set) last_draw 0 0 (example_verified 1 (100, 0)) [] (Some 1) example_new = Ok (self', result) /\
    total_cost (verified self') <= tx_cost_limit self' /\
    inserted (example_verified 1 (100, 0)) [] (stored 0 (Some 1) (example_verified 1 (100, 0))) example_new self' result.
Proof.
  exact (insert_result_exact 0 last_draw 0 (example_verified 1 (100, 0)) [] (Some 1) example_new example_new_reachable
    (example_insert_allowed 1 (100, 0) [])).
Defined.

(** The storage after an operation. *)
Definition after (op : operation (TransactionError := unit)) (self : ExampleStorage) : ExampleStorage :=
  match perform (E:=Empty_set) 0 op self with Ok self' => self' | _ => self end.
Definition example_one : ExampleStorage := after (example_insert 1 (100, 0) []) example_new.

Lemma example_one_reachable : example_reachable 0 example_one.
Proof.
  destruct (perform_ok 0 (example_insert 1 (100, 0) []) example_new) as (s & P & _); [by apply reachable_ok, example_new_reachable|apply example_insert_allowed|].
  unfold example_one, after. rewrite P. eapply reachable_perform; [apply example_new_reachable|apply example_insert_allowed|exact P].
Qed.

(** A block that spends the same output removes the transaction. *)
Definition example_mined : list (@TxHash example_types) := [9].
Definition example_mined_txs : list (@Transaction example_types) := [effects (example_relayed (100, 0))].


Lemma admitted_iff_conventional_fee_witness :
  exists v, verified_new (example_unmined 101 (100, 0)) (Amount.mk 10000) 1 0 [] = Ok v /\
    unmined v = example_unmined 101 (100, 0) /\ miner_fee v = Amount.mk 10000 /\
    unpaid_actions_count v = 0 /\ eviction_weight v = cost v.
Proof.
  assert (F : conventional_fee_of (E:=Zip317Error) (example_relayed (100, 0)) = Ok (Amount.mk 10000)) by (vm_compute; reflexivity).
  assert (U : unmined_from (E:=Zip317Error) (example_relayed (100, 0)) = Ok (example_unmined 101 (100, 0)))
    by (unfold unmined_from; rewrite F; reflexivity).
  pose proof (admitted_iff_conventional_fee (example_relayed (100, 0)) (example_unmined 101 (100, 0)) (Amount.mk 10000) 1 0 [] U) as X.
  apply X; vm_compute; split; congruence.
Defined.

(** C39: an insertion can report success for a transaction that is not in the
    mempool: when an eviction takes a transaction that it depends on, it is
    removed with it, but only the eviction of the transaction itself is reported
    and remembered.  Here a parent is evicted to make room for its child. *)
Theorem evicted_child_reported_inserted :
  exists (self self' : ExampleStorage) child spent, reachable 0 self /\
    allowed 0 (Insert last_draw 0 child spent (Some 1)) self /\
    Storage.insert (E:=Empty_set) last_draw 0 0 child spent (Some 1) self = Ok (self', Ok (id (unmined child))) /\
    transactions (verified self') = ∅ /\ rejection_error 0 self' (id (unmined child)) = None.
Proof.
  destruct (example_verified_ok 2 (1, 0)) as [T Sm].
  assert (Al : allowed 0 (example_insert 2 (1, 0) [(1, 0)]) example_one) by (split_and!; [apply last_draw_in_range|done..]).
  destruct (mempool_insert_ok (E:=Empty_set) last_draw 0 0 (example_verified 2 (1, 0)) [(1, 0)] (Some 1) example_one) as (s & r & X & _);
    [apply last_draw_in_range|by apply reachable_ok, example_one_reachable|done|done|by vm_compute|].
  assert (C : match Storage.insert (E:=Empty_set) last_draw 0 0 (example_verified 2 (1, 0)) [(1, 0)] (Some 1) example_one with
    | Ok (s, Ok u) => bool_decide (u = Legacy (2 : @TxHash example_types)) && (base.size (transactions (verified s)) =? 0)%nat &&
        match rejection_error 0 s u with None => true | _ => false end
    | _ => false end = true) by (vm_compute; reflexivity).
  rewrite X in C. destruct r as [u|e|]; [|done..]. apply andb_true_iff in C as [[U%bool_decide_eq_true_1 Sz%Nat.eqb_eq]%andb_true_iff C]. subst u.
  exists example_one, s, (example_verified 2 (1, 0)), [(1, 0)]. split_and!; [apply example_one_reachable|done|done|by apply map_size_empty_iff|].
  cbn [id unmined example_verified example_unmined] in *. by destruct (rejection_error 0 s _).
Qed.
