(* ===== verification/BlockTemplates.v ===== *)
(** * Transactions of a block template

    [zebra-rpc/src/methods/types/get_block_template/zip317.rs]: the choice of the
    transactions of the mempool for a new block, by the algorithm of ZIP-317, with
    the limits of the block and the order of dependent transactions.

    The coinbase transaction of the template is known by its size and its
    signature operations; the weights of the random choices are floating point
    numbers, so the choices and the validity of the weights are parameters. *)

From S2P Require Import Prelude Amounts ValueBalances Networks AuxCodec NoteTrees ChainIndexes NonFinalizedChain ChainTheorems TransactionValues HeaderCodec MempoolTx MempoolDeps MempoolSet MempoolInvariant MempoolStorage MempoolTheorems.
Import Deps Network VerifiedSet(VerifiedSet, transactions, transaction_dependencies).

Definition MAX_BLOCK_SIGOPS : Z := 20000.

(** [max_transaction_count_size]: the length of the largest count as a CompactSize. *)
Definition max_transaction_count_size : Z := len (encode_compact_size (MAX_BLOCK_BYTES / BlockCodec.MIN_TRANSPARENT_TX_SIZE)).

Section Selection.
Context `{CB : ConsensusBuild} `{CT : ChainTypes} {ME : MempoolEnv}.

(** [TransactionError::CoinbaseConstruction]. *)
Inductive TemplateError := CoinbaseConstruction (message : string).

(** The limits of the block that are left. *)
Record Limits := mkLimits {
  remaining_block_bytes : Z;
  remaining_block_sigops : Z;
  remaining_block_unpaid_actions : Z;
}.

(** [TryUpdateBlockLimits::try_update_block_template_limits]. *)
Definition try_update_block_template_limits (self : VerifiedUnminedTx) (limits : Limits) : option Limits :=
  let tx_block_sigops := block_sigop_count self in
  if (size (unmined self) <=? remaining_block_bytes limits) && (tx_block_sigops <=? remaining_block_sigops limits)
     && (unpaid_actions_count self <=? remaining_block_unpaid_actions limits)
  then Some (mkLimits (remaining_block_bytes limits - size (unmined self))
               (remaining_block_sigops limits - tx_block_sigops)
               (remaining_block_unpaid_actions limits - unpaid_actions_count self))
  else None.

(** [has_direct_dependencies]. *)
Fixpoint count_available (deps : gset TxHash) (num_available_deps : Z) (selected_txs : list VerifiedUnminedTx) : bool :=
  match selected_txs with
  | [] => false
  | tx :: selected_txs =>
      if bool_decide (mined_id (id (unmined tx)) ∈ deps) then
        if num_available_deps + 1 =? Z.of_nat (base.size deps) then true
        else count_available deps (num_available_deps + 1) selected_txs
      else count_available deps num_available_deps selected_txs
  end.
Definition has_direct_dependencies (candidate_tx_deps : option (gset TxHash)) (selected_txs : list VerifiedUnminedTx) : bool :=
  match candidate_tx_deps with
  | None => true
  | Some deps => if count selected_txs <? Z.of_nat (base.size deps) then false else count_available deps 0 selected_txs
  end.

(** What the loops change. *)
Record Selection := mkSelection {
  dependent_txs : gmap TxHash VerifiedUnminedTx;
  selected_txs : list VerifiedUnminedTx;
  limits : Limits;
}.

Context (mempool_tx_deps : TransactionDependencies (K:=TxHash)).

(** The body of the inner loop of [checked_add_transaction_weighted_random]: a
    dependent transaction is added when its dependencies are, it pays its fee and
    it fits. *)
Definition add_dependent (st : Selection) (next_level : gset TxHash) (dependent_tx_id : TxHash) : Selection * gset TxHash :=
  if has_direct_dependencies (dependencies mempool_tx_deps !! dependent_tx_id) (selected_txs st) then
    match dependent_txs st !! dependent_tx_id with
    | None => (st, next_level)
    | Some candidate_tx =>
        let rest := delete dependent_tx_id (dependent_txs st) in
        if negb (pays_conventional_fee candidate_tx) then (mkSelection rest (selected_txs st) (limits st), next_level) else
        match try_update_block_template_limits candidate_tx (limits st) with
        | None => (mkSelection rest (selected_txs st) (limits st), next_level)
        | Some limits =>
            (mkSelection rest (selected_txs st ++ [candidate_tx]) limits,
             next_level ∪ direct_dependents mempool_tx_deps dependent_tx_id)
        end
    end
  else (st, next_level).

Fixpoint add_level (st : Selection) (next_level : gset TxHash) (level : list TxHash) : Selection * gset TxHash :=
  match level with
  | [] => (st, next_level)
  | dependent_tx_id :: level =>
      let (st, next_level) := add_dependent st next_level dependent_tx_id in add_level st next_level level
  end.

(** Its loop over the levels: the selection and the level it stopped at.  Every
    level but the last removes a transaction from [dependent_txs]. *)
Fixpoint add_levels (fuel : nat) (st : Selection) (current_level : gset TxHash) : Selection * gset TxHash :=
  match fuel with
  | O => (st, current_level)
  | S fuel =>
      if decide (current_level = ∅) then (st, current_level) else
      let (st, next_level) := add_level st ∅ (elements current_level) in add_levels fuel st next_level
  end.

(** [choose_transaction_weighted_random], for the position that was drawn. *)
Definition choose_transaction {E : Type} (position : nat) (candidate_txs : list VerifiedUnminedTx) :
    outcome E (VerifiedUnminedTx * list VerifiedUnminedTx) :=
  let? candidate_tx := expect (candidate_txs !! position) in
  Ok (candidate_tx, swap_remove position candidate_txs).

(** [checked_add_transaction_weighted_random], for the position that was drawn. *)
Definition checked_add_transaction_weighted_random {E : Type} (position : nat) (candidate_txs : list VerifiedUnminedTx)
    (st : Selection) : outcome E (list VerifiedUnminedTx * Selection) :=
  let? ' (candidate_tx, candidate_txs) := choose_transaction position candidate_txs in
  match try_update_block_template_limits candidate_tx (limits st) with
  | None => Ok (candidate_txs, st)
  | Some limits =>
      let st := mkSelection (dependent_txs st) (selected_txs st ++ [candidate_tx]) limits in
      let level := direct_dependents mempool_tx_deps (mined_id (id (unmined candidate_tx))) in
      Ok (candidate_txs, (add_levels (S (base.size (dependent_txs st))) st level).1)
  end.

(** [setup_fee_weighted_index]: whether an index can be made of the weights. *)
Context (valid_weights : list VerifiedUnminedTx -> bool) (sample : nat -> list VerifiedUnminedTx -> nat).

Definition setup_fee_weighted_index (transactions : list VerifiedUnminedTx) : bool :=
  if decide (transactions = []) then false else valid_weights transactions.

(** The two loops of [select_mempool_transactions]: each iteration removes a
    candidate. *)
Fixpoint select_loop {E : Type} (fuel round : nat) (candidate_txs : list VerifiedUnminedTx) (st : Selection) :
    outcome E (nat * Selection) :=
  match fuel with
  | O => Ok (round, st)
  | S fuel =>
      if setup_fee_weighted_index candidate_txs then
        let? ' (candidate_txs, st) := checked_add_transaction_weighted_random (sample round candidate_txs) candidate_txs st in
        select_loop fuel (S round) candidate_txs st
      else Ok (round, st)
  end.

(** The limits that the coinbase transaction and the framing of the block leave. *)
Definition template_limits (header_size coinbase_size coinbase_sigops : Z) : outcome TemplateError Limits :=
  let? bytes := ok_or
    (b ← usize_checked (MAX_BLOCK_BYTES - header_size); b ← usize_checked (b - max_transaction_count_size);
     usize_checked (b - coinbase_size))
    (CoinbaseConstruction "the coinbase and block framing exceed the consensus block size limit") in
  let? sigops := ok_or (u32_checked (MAX_BLOCK_SIGOPS - coinbase_sigops))
    (CoinbaseConstruction "the coinbase exceeds the consensus block sigop limit") in
  Ok (mkLimits bytes sigops BLOCK_UNPAID_ACTION_LIMIT).

(** [select_mempool_transactions]; the header size is that of the network. *)
Definition select_mempool_transactions (header_size coinbase_size coinbase_sigops : Z) (mempool_txs : list VerifiedUnminedTx) :
    outcome TemplateError (list VerifiedUnminedTx) :=
  let all : gmap TxHash VerifiedUnminedTx := list_to_map ((fun tx => (mined_id (id (unmined tx)), tx)) <$> mempool_txs) in
  let independent := filter (fun e => dependencies mempool_tx_deps !! e.1 = None) all in
  let dependent := filter (fun e => dependencies mempool_tx_deps !! e.1 <> None) all in
  let independent_txs := (map_to_list independent).*2 in
  let conventional_fee_txs := filter (fun tx => pays_conventional_fee tx = true) independent_txs in
  let low_fee_txs := filter (fun tx => pays_conventional_fee tx = false) independent_txs in
  let? limits := template_limits header_size coinbase_size coinbase_sigops in
  let? ' (round, st) := select_loop (length conventional_fee_txs) 0 conventional_fee_txs (mkSelection dependent [] limits) in
  let? ' (_, st) := select_loop (length low_fee_txs) round low_fee_txs st in
  Ok (selected_txs st).
End Selection.

(** ** Correctness *)

Section Correct.
Context `{CB : ConsensusBuild} `{CT : ChainTypes} {ME : MempoolEnv}.
Context (v : VerifiedSet) (v_ok : set_ok v).
Notation D := (transaction_dependencies v).
Notation pool := (transactions v).
Notation tid tx := (mined_id (id (unmined tx))).
Notation ids l := ((fun tx : VerifiedUnminedTx => mined_id (id (unmined tx))) <$> l).

(** Every transaction comes after those it depends on. *)
Definition deps_before (l : list VerifiedUnminedTx) : Prop :=
  forall l1 tx l2, l = l1 ++ tx :: l2 -> forall d, d ∈ direct_dependencies D (tid tx) -> d ∈ ids l1.

Lemma deps_before_snoc l tx : deps_before l -> (forall d, d ∈ direct_dependencies D (tid tx) -> d ∈ ids l) -> deps_before (l ++ [tx]).
Proof.
  intros B Dx l1 t l2 E d Hd. destruct l2 as [|t' l2 _] using rev_ind.
  - apply app_inj_tail in E as [<- <-]. by apply Dx.
  - rewrite app_comm_cons, app_assoc in E. apply app_inj_tail in E as [-> _]. by eapply B.
Qed.

(** The sums of a template. *)
Definition total_size (l : list VerifiedUnminedTx) : Z := sum_Z ((fun tx => size (unmined tx)) <$> l).
Definition total_sigops (l : list VerifiedUnminedTx) : Z := sum_Z (block_sigop_count <$> l).
Definition total_unpaid (l : list VerifiedUnminedTx) : Z := sum_Z (unpaid_actions_count <$> l).

Lemma sum_Z_snoc l z : sum_Z (l ++ [z]) = sum_Z l + z.
Proof. unfold sum_Z. induction l as [|y l IH]; cbn; [lia|]. cbn in IH. lia. Qed.

Definition fits (tx : VerifiedUnminedTx) (lim : Limits) : Prop := is_Some (try_update_block_template_limits tx lim).

Lemma fits_spec tx lim : fits tx lim <-> size (unmined tx) <= remaining_block_bytes lim /\
  block_sigop_count tx <= remaining_block_sigops lim /\ unpaid_actions_count tx <= remaining_block_unpaid_actions lim.
Proof.
  unfold fits, try_update_block_template_limits. destruct (_ && _ && _) eqn:E; rewrite ?andb_true_iff, ?andb_false_iff in E.
  - split; [intros _; bool_lia|by eexists].
  - split; [by intros []|bool_lia].
Qed.

Definition limits_le (l1 l2 : Limits) : Prop :=
  remaining_block_bytes l1 <= remaining_block_bytes l2 /\ remaining_block_sigops l1 <= remaining_block_sigops l2 /\
  remaining_block_unpaid_actions l1 <= remaining_block_unpaid_actions l2.

Lemma fits_mono tx l1 l2 : limits_le l1 l2 -> ~ fits tx l2 -> ~ fits tx l1.
Proof. unfold limits_le. rewrite !fits_spec. lia. Qed.

(** The limits account for what is selected. *)
Definition accounts (init : Limits) (st : Selection) : Prop :=
  remaining_block_bytes (limits st) + total_size (selected_txs st) = remaining_block_bytes init /\
  remaining_block_sigops (limits st) + total_sigops (selected_txs st) = remaining_block_sigops init /\
  remaining_block_unpaid_actions (limits st) + total_unpaid (selected_txs st) = remaining_block_unpaid_actions init /\
  0 <= remaining_block_bytes (limits st) /\ 0 <= remaining_block_sigops (limits st) /\ 0 <= remaining_block_unpaid_actions (limits st).

Lemma pool_tx_ok k tx : pool !! k = Some tx -> tid tx = k /\ tx_ok tx.
Proof. apply (ok_keys _ (set_caches _ v_ok)). Qed.

Lemma update_accounts init st tx lim deps : accounts init st -> try_update_block_template_limits tx (limits st) = Some lim ->
  tx_ok tx -> accounts init (mkSelection deps (selected_txs st ++ [tx]) lim) /\ limits_le lim (limits st).
Proof.
  intros (A1 & A2 & A3 & A4 & A5 & A6) U (T1 & _ & T2 & T3 & T4). assert (F : fits tx (limits st)) by (by eexists).
  apply fits_spec in F as (F1 & F2 & F3). unfold try_update_block_template_limits in U. destruct (_ && _ && _); [|done]. injection U as <-.
  assert (0 <= block_sigop_count tx) by (unfold block_sigop_count; bool_lia).
  unfold accounts, limits_le, total_size, total_sigops, total_unpaid in *. cbn. rewrite !fmap_app. cbn. rewrite !sum_Z_snoc. lia.
Qed.

(** ** Dependencies that are available *)

Lemma count_available_spec deps l : forall n, 0 <= n < Z.of_nat (base.size deps) ->
  count_available deps n l = true <-> Z.of_nat (base.size deps) <= n + count (filter (fun x => x ∈ deps) (ids l)).
Proof.
  induction l as [|tx l IH]; intros n Hn; cbn [count_available fmap list_fmap].
  - cbn. split; [done|]. unfold count. cbn. lia.
  - rewrite filter_cons. destruct (decide (tid tx ∈ deps)) as [I|I].
    + rewrite bool_decide_eq_true_2 by done. unfold count in *. cbn [length].
      destruct (Z.eqb_spec (n + 1) (Z.of_nat (base.size deps))); [split; [lia|done]|]. rewrite IH by lia. lia.
    + rewrite bool_decide_eq_false_2 by done. by apply IH.
Qed.

Lemma has_direct_dependencies_spec deps l : NoDup (ids l) -> deps <> ∅ ->
  has_direct_dependencies (Some deps) l = true <-> forall d, d ∈ deps -> d ∈ ids l.
Proof.
  intros N Ne. assert (Sz : (base.size deps <> 0)%nat) by (intros Q; by apply size_empty_inv, leibniz_equiv in Q).
  set (avail := filter (fun x => x ∈ deps) (ids l)). assert (Na : NoDup avail) by (by apply NoDup_filter).
  assert (Ia : forall d, d ∈ avail <-> d ∈ deps /\ d ∈ ids l) by (intros d; unfold avail; by rewrite list_elem_of_filter).
  assert (Sa : base.size (list_to_set avail : gset TxHash) = length avail) by (by apply size_list_to_set).
  assert (Sub : (list_to_set avail : gset TxHash) ⊆ deps) by (intros d [? _]%elem_of_list_to_set%Ia; done).
  assert (Q : (forall d, d ∈ deps -> d ∈ ids l) <-> (base.size deps <= length avail)%nat).
  { split.
    - intros All. rewrite <- Sa. apply subseteq_size. intros d Hd. apply elem_of_list_to_set, Ia. auto.
    - intros Le d Hd. rewrite <- Sa in Le. rewrite <- (set_subseteq_size_equiv _ _ Sub Le) in Hd. by apply elem_of_list_to_set, Ia in Hd as [_ ?]. }
  assert (La : (length avail <= length l)%nat) by (unfold avail; rewrite <- (length_fmap (fun tx => tid tx) l); apply length_filter).
  rewrite Q. unfold has_direct_dependencies, count. destruct (Z.ltb_spec (Z.of_nat (length l)) (Z.of_nat (base.size deps))); [split; [done|lia]|].
  rewrite count_available_spec by lia. unfold count. fold avail. lia.
Qed.

(** ** The invariant of the loops *)

(** The state of the selection, the candidates that have not been drawn, and the
    dependent transactions that the current levels will look at: all others have
    been looked at, or wait for a dependency. *)
Record sel_ok (init : Limits) (others : list VerifiedUnminedTx) (pending : TxHash -> Prop) (st : Selection) : Prop := mkSelOk {
  so_mem : forall tx, tx ∈ selected_txs st -> pool !! tid tx = Some tx;
  so_nodup : NoDup (ids (selected_txs st));
  so_order : deps_before (selected_txs st);
  so_accounts : accounts init st;
  so_dependent : forall k tx, dependent_txs st !! k = Some tx ->
    pool !! k = Some tx /\ dependencies D !! k <> None /\ k ∉ ids (selected_txs st);
  so_done : forall k tx, pool !! k = Some tx -> dependencies D !! k <> None -> dependent_txs st !! k = None ->
    pays_conventional_fee tx = true -> k ∈ ids (selected_txs st) \/ ~ fits tx (limits st);
  so_ready : forall k, is_Some (dependent_txs st !! k) ->
    (forall d, d ∈ direct_dependencies D k -> d ∈ ids (selected_txs st)) -> pending k;
  so_distinct : NoDup (ids others);
  so_others : forall tx, tx ∈ others ->
    pool !! tid tx = Some tx /\ dependencies D !! tid tx = None /\ tid tx ∉ ids (selected_txs st);
  so_tried : forall k tx, pool !! k = Some tx -> dependencies D !! k = None -> pays_conventional_fee tx = true ->
    tx ∈ others \/ k ∈ ids (selected_txs st) \/ ~ fits tx (limits st);
}.

Lemma ids_snoc l tx : ids (l ++ [tx]) = ids l ++ [tid tx].
Proof. by rewrite fmap_app. Qed.

(** A transaction is added to the template. *)
Lemma push_ok init others pending st tx lim deps' others' (pending' : TxHash -> Prop) :
  sel_ok init others pending st -> pool !! tid tx = Some tx -> tid tx ∉ ids (selected_txs st) ->
  (forall d, d ∈ direct_dependencies D (tid tx) -> d ∈ ids (selected_txs st)) ->
  try_update_block_template_limits tx (limits st) = Some lim ->
  (forall k, deps' !! k = if decide (k = tid tx) then None else dependent_txs st !! k) ->
  NoDup (ids others') -> (forall t, t ∈ others' -> t ∈ others /\ tid t <> tid tx) -> (forall t, t ∈ others -> t ∈ others' \/ t = tx) ->
  (forall k, pending k -> k <> tid tx -> pending' k) -> (forall k, dep D (tid tx) k -> pending' k) ->
  sel_ok init others' pending' (mkSelection deps' (selected_txs st ++ [tx]) lim).
Proof.
  intros [M N O A De Do Re Di Ot Tr] Px Nx Dx U Ld N' O1 O2 P1 P2. destruct (pool_tx_ok _ _ Px) as [_ Tx].
  destruct (update_accounts init st tx lim deps' A U Tx) as [A' Le].
  assert (In : forall k, k ∈ ids (selected_txs st ++ [tx]) <-> k ∈ ids (selected_txs st) \/ k = tid tx)
    by (intros k; rewrite ids_snoc, elem_of_app, list_elem_of_singleton; done).
  split; cbn [selected_txs dependent_txs limits].
  - intros t [It| ->%list_elem_of_singleton]%elem_of_app; [by apply M|done].
  - rewrite ids_snoc. apply NoDup_app. split_and!; [done| |apply NoDup_singleton]. intros x Hx ->%list_elem_of_singleton. done.
  - by apply deps_before_snoc.
  - done.
  - intros k t Lk. rewrite Ld in Lk. case_decide as Qk; [done|]. destruct (De k t Lk) as (? & ? & ?). split_and!; [done..|].
    rewrite In. tauto.
  - intros k t Pk Dk Nk Fk. rewrite In. rewrite Ld in Nk. case_decide as Qk; [by left; right|].
    destruct (Do k t Pk Dk Nk Fk); [by left; left|right]. by eapply fits_mono.
  - intros k Sk Rk. rewrite Ld in Sk. case_decide as Qk; [by destruct Sk|]. setoid_rewrite In in Rk.
    destruct (decide (tid tx ∈ direct_dependencies D k)) as [I|NI].
    + apply P2. by apply (inverse _ (ok_consistent _ (set_dependencies_ok _ v_ok))).
    + apply P1; [|done]. apply Re; [done|]. intros d Hd. destruct (Rk d Hd) as [?| ->]; done.
  - done.
  - intros t [It Nt]%O1. destruct (Ot t It) as (? & ? & ?). split_and!; [done..|]. rewrite In. tauto.
  - intros k t Pk Dk Fk. rewrite In. destruct (Tr k t Pk Dk Fk) as [It|[?|?]]; [|by right; left; left|right; right; by eapply fits_mono].
    destruct (O2 t It) as [?| ->]; [by left|]. right; left; right. by destruct (pool_tx_ok _ _ Pk) as [<- _].
Qed.

(** A dependent transaction is given up. *)
Lemma skip_ok init others pending st k tx : sel_ok init others pending st -> dependent_txs st !! k = Some tx ->
  pays_conventional_fee tx = false \/ ~ fits tx (limits st) ->
  sel_ok init others (fun j => pending j /\ j <> k) (mkSelection (delete k (dependent_txs st)) (selected_txs st) (limits st)).
Proof.
  intros [M N O A De Do Re Di Ot Tr] L G. split; cbn [selected_txs dependent_txs limits]; try done.
  - intros j t [_ Lj]%lookup_delete_Some. by apply De.
  - intros j t Pj Dj [<-|Nj]%lookup_delete_None Fj; [|by apply (Do j)]. right. destruct (De k tx L) as (Pk & _). destruct G as [G|G]; congruence.
  - intros j [t [Nj Lj]%lookup_delete_Some] Rj. split; [by apply Re; eauto|done].
Qed.

(** What is pending needs to hold only of the dependent transactions that are ready. *)
Lemma sel_ok_weaken init others (P Q : TxHash -> Prop) st : sel_ok init others P st ->
  (forall k, P k -> is_Some (dependent_txs st !! k) -> (forall d, d ∈ direct_dependencies D k -> d ∈ ids (selected_txs st)) -> Q k) ->
  sel_ok init others Q st.
Proof. intros [M N O A De Do Re Di Ot Tr] I. split; try done. eauto. Qed.

Lemma add_dependent_ok init others next l st k : sel_ok init others (fun j => j ∈ k :: l \/ j ∈ (next : gset TxHash)) st ->
  let (st', next') := add_dependent D st next k in sel_ok init others (fun j => j ∈ l \/ j ∈ next') st'.
Proof.
  intros S. pose proof (so_nodup _ _ _ _ S) as N. unfold add_dependent.
  assert (Hd : forall tx, dependent_txs st !! k = Some tx -> has_direct_dependencies (dependencies D !! k) (selected_txs st) = true <->
    forall d, d ∈ direct_dependencies D k -> d ∈ ids (selected_txs st)).
  { intros tx L. destruct (so_dependent _ _ _ _ S k tx L) as (_ & Nn & _). unfold direct_dependencies, at_key.
    destruct (dependencies D !! k) as [deps|] eqn:E; [|done]. cbn. apply has_direct_dependencies_spec; [done|].
    exact (dependencies_nonempty _ (ok_consistent _ (set_dependencies_ok _ v_ok)) _ _ E). }
  destruct (has_direct_dependencies _ _) eqn:H; destruct (dependent_txs st !! k) as [tx|] eqn:L.
  2: { apply (sel_ok_weaken _ _ _ _ _ S). intros j [[->|?]%elem_of_cons|?] [t Lt] _; [congruence|by left|by right]. }
  3: { apply (sel_ok_weaken _ _ _ _ _ S). intros j [[->|?]%elem_of_cons|?] [t Lt] _; [congruence|by left|by right]. }
  2: { apply (sel_ok_weaken _ _ _ _ _ S). intros j [[->|?]%elem_of_cons|?] _ Rj; [|by left|by right]. apply (Hd tx eq_refl) in Rj. congruence. }
  destruct (so_dependent _ _ _ _ S k tx L) as (Pk & Nn & Nk). destruct (pool_tx_ok _ _ Pk) as [Tk _].
  destruct (pays_conventional_fee tx) eqn:F; cbn [negb].
  2: { eapply sel_ok_weaken; [by eapply skip_ok; eauto|]. cbn. intros j [[[->|?]%elem_of_cons|?] ?] _ _; tauto. }
  destruct (try_update_block_template_limits tx (limits st)) as [lim|] eqn:U.
  2: { eapply sel_ok_weaken; [eapply skip_ok; [exact S|exact L|right; unfold fits; rewrite U; by intros []]|].
       cbn. intros j [[[->|?]%elem_of_cons|?] ?] _ _; tauto. }
  apply (push_ok init others (fun j => j ∈ k :: l \/ j ∈ next) st); rewrite ?Tk; try done.
  - by apply (Hd tx).
  - intros j. case_decide; [subst; apply lookup_delete_eq|by apply lookup_delete_ne].
  - apply S.
  - intros t It. split; [done|]. destruct (so_others _ _ _ _ S t It) as (_ & ? & _). congruence.
  - by left.
  - intros j [[->|?]%elem_of_cons|?] Nj; [done|by left|right; set_solver].
  - intros j Dj. right. apply elem_of_union_r. exact Dj.
Qed.

(** A level either finds nothing to add, or removes a dependent transaction. *)
Lemma add_dependent_shrinks st next k : let (st', next') := add_dependent D st next k in
  (base.size (dependent_txs st') <= base.size (dependent_txs st))%nat /\
  (next' = next \/ (base.size (dependent_txs st') < base.size (dependent_txs st))%nat).
Proof.
  unfold add_dependent. destruct (has_direct_dependencies _ _); [|by split; [|left]].
  destruct (dependent_txs st !! k) as [tx|] eqn:L; [|by split; [|left]].
  assert (Sz : (base.size (delete k (dependent_txs st)) < base.size (dependent_txs st))%nat).
  { rewrite map_size_delete, L. assert (base.size (dependent_txs st) <> 0%nat); [|cbn; lia].
    intros Q%map_size_empty_iff. rewrite Q in L. done. }
  destruct (negb _); [cbn; split; [lia|by left]|]. destruct (try_update_block_template_limits _ _); cbn; (split; [lia|auto]).
Qed.

Lemma add_level_ok init others l : forall st next, sel_ok init others (fun j => j ∈ l \/ j ∈ (next : gset TxHash)) st ->
  let (st', next') := add_level D st next l in sel_ok init others (fun j => j ∈ next') st' /\
    (base.size (dependent_txs st') <= base.size (dependent_txs st))%nat /\
    (next' = next \/ (base.size (dependent_txs st') < base.size (dependent_txs st))%nat).
Proof.
  induction l as [|k l IH]; intros st next S; cbn [add_level].
  - split; [|by split; [|left]]. apply (sel_ok_weaken _ _ _ _ _ S). by intros j [?%elem_of_nil|?].
  - pose proof (add_dependent_ok _ _ _ _ _ _ S) as S'. pose proof (add_dependent_shrinks st next k) as Sh.
    destruct (add_dependent D st next k) as [st1 next1]. specialize (IH st1 next1 S'). destruct (add_level D st1 next1 l) as [st2 next2].
    destruct IH as (S2 & Le & Q), Sh as [Le1 Q1]. split_and!; [done|lia|]. destruct Q1 as [->|]; [|right; lia]. destruct Q as [->|]; [by left|right; lia].
Qed.

Lemma add_levels_ok init others fuel : forall st level, sel_ok init others (fun j => j ∈ level) st ->
  level = ∅ \/ (base.size (dependent_txs st) < fuel)%nat -> sel_ok init others (fun _ => False) (add_levels D fuel st level).1.
Proof.
  induction fuel as [|fuel IH]; intros st level S F; cbn [add_levels].
  - destruct F as [->|F]; [|lia]. apply (sel_ok_weaken _ _ _ _ _ S). set_solver.
  - destruct (decide (level = ∅)) as [->|Ne]; [apply (sel_ok_weaken _ _ _ _ _ S); set_solver|].
    pose proof (add_level_ok init others (elements level) st ∅) as L. destruct (add_level D st ∅ (elements level)) as [st' next].
    destruct L as (S' & Le & Q). { apply (sel_ok_weaken _ _ _ _ _ S). intros j Hj _ _. left. by apply elem_of_elements. }
    destruct F as [->|F]; [done|]. apply IH; [done|]. destruct Q as [->|]; [by left|right; lia].
Qed.

Lemma choose_ok {E : Type} l i : (i < length l)%nat -> exists x l', choose_transaction (E:=E) i l = Ok (x, l') /\ l ≡ₚ x :: l'.
Proof.
  intros [x Hx]%lookup_lt_is_Some_2. exists x, (swap_remove i l). unfold choose_transaction. rewrite Hx. split; [done|]. by apply swap_remove_perm.
Qed.

Lemma sel_ok_perm init o1 o2 P st : o1 ≡ₚ o2 -> sel_ok init o1 P st -> sel_ok init o2 P st.
Proof.
  intros E [M N O A De Do Re Di Ot Tr]. split; try done.
  - by rewrite <- E.
  - intros t. rewrite <- E. apply Ot.
  - intros k t. rewrite <- E. apply Tr.
Qed.

(** The candidate that was drawn does not fit. *)
Lemma sel_ok_drop init others P st tx : sel_ok init (tx :: others) P st -> ~ fits tx (limits st) -> sel_ok init others P st.
Proof.
  intros [M N O A De Do Re Di Ot Tr] F. split; try done.
  - by apply NoDup_cons in Di as [_ ?].
  - intros t It. apply Ot. by right.
  - intros k t Pk Dk Fk. destruct (Tr k t Pk Dk Fk) as [[->|?]%elem_of_cons|?]; auto.
Qed.

Lemma direct_dependencies_none k : dependencies D !! k = None -> direct_dependencies D k = ∅.
Proof. intros N. unfold direct_dependencies, at_key. by rewrite N. Qed.

(** One draw. *)
Lemma checked_add_ok {E : Type} init others st l i : sel_ok init (l ++ others) (fun _ => False) st -> (i < length l)%nat ->
  exists x l' st', checked_add_transaction_weighted_random (E:=E) D i l st = Ok (l', st') /\ l ≡ₚ x :: l' /\
    sel_ok init (l' ++ others) (fun _ => False) st'.
Proof.
  intros S Hi. destruct (choose_ok (E:=E) l i Hi) as (x & l' & Sw & Pm). unfold checked_add_transaction_weighted_random. rewrite Sw. cbn [obind].
  apply (sel_ok_perm _ _ (x :: l' ++ others)) in S; [|by rewrite Pm]. destruct (so_others _ _ _ _ S x ltac:(left)) as (Px & Dx & Nx).
  destruct (try_update_block_template_limits x (limits st)) as [lim|] eqn:U.
  2: { exists x, l', st. split_and!; [done..|]. apply (sel_ok_drop _ _ _ _ _ S). unfold fits. rewrite U. by intros []. }
  eexists x, l', _. split_and!; [done..|]. pose proof (so_distinct _ _ _ _ S) as Di. apply NoDup_cons in Di as [Nl Di].
  apply add_levels_ok; [|right; cbn; lia]. eapply push_ok; try done.
  - rewrite direct_dependencies_none by done. set_solver.
  - intros k. case_decide as Q; [subst|done]. destruct (dependent_txs st !! tid x) eqn:L; [|done]. by destruct (so_dependent _ _ _ _ S _ _ L) as (_ & ? & _).
  - intros t It. split; [by right|]. intros Q. apply Nl. rewrite <- Q. apply (list_elem_of_fmap_2 (fun tx : VerifiedUnminedTx => mined_id (id (unmined tx)))). done.
  - intros t [->|?]%elem_of_cons; auto.
Qed.

Context (valid_weights : list VerifiedUnminedTx -> bool) (sample : nat -> list VerifiedUnminedTx -> nat).
Context (sample_range : forall r l, valid_weights l = true -> (sample r l < length l)%nat).

Lemma select_loop_ok {E : Type} init others fuel : forall r l st, sel_ok init (l ++ others) (fun _ => False) st -> (length l <= fuel)%nat ->
  exists r' l' st', select_loop (E:=E) D valid_weights sample fuel r l st = Ok (r', st') /\ sel_ok init (l' ++ others) (fun _ => False) st' /\
    (forall tx, tx ∈ l' -> tx ∈ l) /\ (l' = [] \/ valid_weights l' = false).
Proof.
  induction fuel as [|fuel IH]; intros r l st S Hl; cbn [select_loop].
  - destruct l; [|cbn in Hl; lia]. exists r, [], st. split_and!; [done..|by left].
  - unfold setup_fee_weighted_index. destruct (decide (l = [])) as [->|Ne]; [exists r, [], st; split_and!; [done..|by left]|].
    destruct (valid_weights l) eqn:V; [|exists r, l, st; split_and!; [done..|by right]].
    destruct (checked_add_ok (E:=E) init others st l _ S (sample_range r l V)) as (x & l' & st' & C & Pm & S'). rewrite C. cbn [obind].
    destruct (IH (Datatypes.S r) l' st' S') as (r2 & l2 & st2 & L2 & S2 & I2 & V2); [apply Permutation_length in Pm; cbn in Pm; lia|].
    exists r2, l2, st2. split_and!; try done. intros t It. rewrite Pm. right. by apply I2.
Qed.

(** The transactions of the mempool, by their ids. *)
Lemma pool_by_id txs : txs ≡ₚ (map_to_list pool).*2 ->
  (list_to_map ((fun tx : VerifiedUnminedTx => (tid tx, tx)) <$> txs) : gmap TxHash VerifiedUnminedTx) = pool.
Proof.
  intros Pm. assert (K : forall l, (forall e, e ∈ l -> pool !! e.1 = Some e.2) -> (fun tx : VerifiedUnminedTx => (tid tx, tx)) <$> l.*2 = l).
  { induction l as [|[k tx] l IH]; intros H; [done|]. cbn. rewrite IH by (intros e He; apply H; by right).
    pose proof (H (k, tx) ltac:(left)) as L. cbn in L. by destruct (pool_tx_ok _ _ L) as [-> _]. }
  assert (E : (fun tx : VerifiedUnminedTx => (tid tx, tx)) <$> txs ≡ₚ map_to_list pool).
  { rewrite Pm. rewrite K; [done|]. intros [k tx] He. by apply elem_of_map_to_list. }
  rewrite (list_to_map_proper _ (map_to_list pool)); [apply list_to_map_to_list| |done]. rewrite E. apply NoDup_fst_map_to_list.
Qed.

(** The state before the first draw. *)
Lemma start_ok init :
  let independent := (map_to_list (filter (fun e => dependencies D !! e.1 = None) pool)).*2 in
  0 <= remaining_block_bytes init -> 0 <= remaining_block_sigops init -> 0 <= remaining_block_unpaid_actions init ->
  sel_ok init (filter (fun tx => pays_conventional_fee tx = true) independent ++ filter (fun tx => pays_conventional_fee tx = false) independent)
    (fun _ => False) (mkSelection (filter (fun e => dependencies D !! e.1 <> None) pool) [] init).
Proof.
  intros ind B1 B2 B3. assert (Ind : forall tx, tx ∈ ind <-> pool !! tid tx = Some tx /\ dependencies D !! tid tx = None).
  { intros tx. unfold ind. rewrite list_elem_of_fmap. split.
    - intros ([k t] & -> & [L Q]%elem_of_map_to_list%map_lookup_filter_Some). cbn in *. by destruct (pool_tx_ok _ _ L) as [-> _].
    - intros [L Q]. exists (tid tx, tx). split; [done|]. by apply elem_of_map_to_list, map_lookup_filter_Some. }
  assert (Pm : filter (fun tx => pays_conventional_fee tx = true) ind ++ filter (fun tx => pays_conventional_fee tx = false) ind ≡ₚ ind).
  { rewrite <- (filter_app_complement (fun tx => pays_conventional_fee tx = true) ind) at 3. apply Permutation_app_head.
    erewrite list_filter_iff; [done|]. intros tx. cbn. by destruct (pays_conventional_fee tx). }
  apply (sel_ok_perm _ ind); [done|]. split; cbn [selected_txs dependent_txs limits]; try done.
  - by intros tx ?%elem_of_nil.
  - cbn. constructor.
  - intros l1 tx l2 Q. by destruct l1.
  - unfold accounts, total_size, total_sigops, total_unpaid. cbn. lia.
  - intros k tx [L Q]%map_lookup_filter_Some. split_and!; [done..|apply not_elem_of_nil].
  - intros k tx L Q N _. exfalso. apply map_lookup_filter_None in N as [N|N]; [congruence|]. exact (N tx L Q).
  - intros k [tx [L Q]%map_lookup_filter_Some] R. cbn in Q. destruct (dependencies D !! k) as [deps|] eqn:E; [|done].
    apply (dependencies_nonempty _ (ok_consistent _ (set_dependencies_ok _ v_ok)) _ _ E). apply elem_of_equiv_empty_L. intros d Hd.
    apply (not_elem_of_nil d). apply R. unfold direct_dependencies, at_key. by rewrite E.
  - assert (E : ids ind = (map_to_list (filter (fun e => dependencies D !! e.1 = None) pool)).*1); [|rewrite E; apply NoDup_fst_map_to_list].
    unfold ind. rewrite <- list_fmap_compose. apply list_fmap_ext. intros i [k tx] L. cbn.
    apply list_elem_of_lookup_2, elem_of_map_to_list, map_lookup_filter_Some in L as [L _]. by destruct (pool_tx_ok _ _ L).
  - intros tx [L Q]%Ind. split_and!; [done..|apply not_elem_of_nil].
  - intros k tx L Q _. left. apply Ind. by destruct (pool_tx_ok _ _ L) as [-> _].
Qed.

(** The draws are of valid weights, which those of transactions that pay the
    conventional fee are. *)
Context (conventional_weights : forall l, l <> [] -> (forall tx, tx ∈ l -> pays_conventional_fee tx = true) -> valid_weights l = true).

(** No more transactions fit. *)
Definition exceeds (header_size coinbase_size coinbase_sigops : Z) (l : list VerifiedUnminedTx) : Prop :=
  MAX_BLOCK_BYTES < header_size + max_transaction_count_size + coinbase_size + total_size l \/
  MAX_BLOCK_SIGOPS < coinbase_sigops + total_sigops l \/ BLOCK_UNPAID_ACTION_LIMIT < total_unpaid l.

(** The transactions of a template. *)
Definition template_ok (header_size coinbase_size coinbase_sigops : Z) (l : list VerifiedUnminedTx) : Prop :=
  NoDup (ids l) /\ (forall tx, tx ∈ l -> pool !! tid tx = Some tx) /\ deps_before l /\
  ~ exceeds header_size coinbase_size coinbase_sigops l /\
  forall k tx, pool !! k = Some tx -> pays_conventional_fee tx = true -> (forall d, d ∈ direct_dependencies D k -> d ∈ ids l) ->
    k ∈ ids l \/ exceeds header_size coinbase_size coinbase_sigops (l ++ [tx]).

Lemma template_limits_spec header_size coinbase_size coinbase_sigops lim :
  template_limits header_size coinbase_size coinbase_sigops = Ok lim ->
  lim = mkLimits (MAX_BLOCK_BYTES - header_size - max_transaction_count_size - coinbase_size) (MAX_BLOCK_SIGOPS - coinbase_sigops) BLOCK_UNPAID_ACTION_LIMIT /\
  0 <= remaining_block_bytes lim /\ 0 <= remaining_block_sigops lim.
Proof.
  unfold template_limits. destruct (usize_checked (MAX_BLOCK_BYTES - _)) as [a|] eqn:A; [|done]. cbn.
  destruct (usize_checked (a - _)) as [b|] eqn:B; [|done]. cbn. destruct (usize_checked (b - _)) as [c|] eqn:C; [|done]. cbn.
  destruct (u32_checked _) as [d|] eqn:Dd; [|done]. cbn. intros [= <-]. cbn.
  apply checked_Some in A as [-> A], B as [-> B], C as [-> C], Dd as [-> Dd]. split; [done|]. bool_lia.
Qed.

(** The end of both loops. *)
Lemma finished_ok header_size coinbase_size coinbase_sigops lim others st :
  template_limits header_size coinbase_size coinbase_sigops = Ok lim -> sel_ok lim others (fun _ => False) st ->
  (forall tx, tx ∈ others -> pays_conventional_fee tx = false) ->
  template_ok header_size coinbase_size coinbase_sigops (selected_txs st).
Proof.
  intros (-> & B1 & B2)%template_limits_spec S Lo. pose proof (so_accounts _ _ _ _ S) as A. unfold accounts in A. cbn in A.
  split_and!; [apply S..| |].
  - unfold exceeds. lia.
  - intros k tx Pk F R. assert (N : k ∈ ids (selected_txs st) \/ ~ fits tx (limits st)).
    { destruct (dependencies D !! k) as [deps|] eqn:Q.
      - destruct (dependent_txs st !! k) as [t|] eqn:L; [exfalso; eapply (so_ready _ _ _ _ S k); eauto|]. eapply (so_done _ _ _ _ S); eauto. congruence.
      - destruct (so_tried _ _ _ _ S k tx Pk Q F) as [I|[?|?]]; [|auto..]. apply Lo in I. congruence. }
    destruct N as [N|N]; [by left|right]. rewrite fits_spec in N. unfold exceeds, total_size, total_sigops, total_unpaid in *.
    rewrite !fmap_app. cbn. rewrite !sum_Z_snoc. lia.
Qed.

Lemma select_ok header_size coinbase_size coinbase_sigops lim txs :
  template_limits header_size coinbase_size coinbase_sigops = Ok lim -> txs ≡ₚ (map_to_list pool).*2 ->
  exists l, select_mempool_transactions D valid_weights sample header_size coinbase_size coinbase_sigops txs = Ok l /\
    template_ok header_size coinbase_size coinbase_sigops l.
Proof.
  intros T Pm. destruct (template_limits_spec _ _ _ _ T) as (El & B1 & B2). unfold select_mempool_transactions. rewrite pool_by_id by done. rewrite T. cbn [obind].
  set (ind := (map_to_list _).*2). set (conv := filter (fun tx => pays_conventional_fee tx = true) ind).
  set (low := filter (fun tx => pays_conventional_fee tx = false) ind).
  assert (S0 : sel_ok lim (conv ++ low) (fun _ => False) (mkSelection (filter (fun e => dependencies D !! e.1 <> None) pool) [] lim))
    by (apply start_ok; subst lim; done).
  destruct (select_loop_ok (E:=TemplateError) lim low (length conv) 0 conv _ S0 ltac:(done)) as (r & l1 & st1 & X1 & S1 & I1 & V1). rewrite X1. cbn [obind].
  assert (l1 = []) as ->.
  { destruct V1 as [?|V1]; [done|]. destruct (decide (l1 = [])) as [?|Ne]; [done|]. rewrite conventional_weights in V1; [done|done|].
    intros tx It%I1. by apply list_elem_of_filter in It as [? _]. }
  rewrite app_nil_l in S1. rewrite <- (app_nil_r low) in S1.
  destruct (select_loop_ok (E:=TemplateError) lim [] (length low) r low _ S1 ltac:(done)) as (r2 & l2 & st2 & X2 & S2 & I2 & _). rewrite X2. cbn [obind].
  eexists. split; [done|]. eapply finished_ok; [done..|]. rewrite app_nil_r. intros tx It%I2. by apply list_elem_of_filter in It as [? _].
Qed.
End Correct.

Section Claims.
Context `{CB : ConsensusBuild} `{CT : ChainTypes} {ME : MempoolEnv} {TransactionError : Type}.

End Claims.

(** ** A template of a mempool with one transaction *)

Definition some_weights {A : Type} (l : list A) : bool := negb (bool_decide (length l = 0%nat)).
Definition first_draw {A : Type} (_ : nat) (_ : list A) : nat := 0%nat.

