(* ===== verification/AuxCandidates.v ===== *)
(** * Auxiliary block candidates

    [zebra-rpc/src/methods/wcash_aux_block.rs] and the block ids of
    [zebra-chain/src/block/hash.rs]: the bounded cache of the candidates that
    [createauxblock] hands out, with the leases by which a pool gives them back.

    A candidate is identified by a hash of its header without the AuxPoW witness, so
    that a miner can attach one.  The clock is an argument of the operations, as
    are the bytes that the random number generator draws.  The map of entries is
    walked in the order of its keys. *)

From S2P Require Import Prelude Networks AuxCodec AuxMerkle HeaderCodec.
Import Solution(Solution, Common, Regtest, WcashAux).
Import Header(Header, version, previous_block_hash, merkle_root, commitment_bytes, time, difficulty_threshold, nonce, solution).
Import BlockCodec(Block, mkBlock, header, transactions).

(** ** Block ids *)

Module BlockId.
Section Ids.
Context {H : Hashes}.

Definition WCASH_BLOCK_ID_PERSONALIZATION : list byte := bytes_of "WcashBlockIdV1" ++ [Byte.x00; Byte.x00].

(** The bytes that [wcash_block_id] hashes: every field but the solution. *)
Definition id_bytes (h : Header) (time : Z) : list byte :=
  to_le 4 (version h) ++ previous_block_hash h ++ merkle_root h ++ commitment_bytes h ++
  to_le 4 time ++ to_le 4 (difficulty_threshold h) ++ nonce h.

(** [wcash_block_id]. *)
Definition wcash_block_id {E : Type} (h : Header) : outcome E (list byte) :=
  let? time := expect (u32_checked (time h)) in
  Ok (blake2b WCASH_BLOCK_ID_PERSONALIZATION (id_bytes h time)).

(** [impl From<&Header> for Hash]. *)
Definition header_hash {E : Type} (h : Header) : outcome E (list byte) :=
  if version h =? WCASH_BLOCK_WIRE_VERSION then wcash_block_id h
  else
    let? bytes := expect_ok (Header.zcash_serialize h) in
    Ok (sha256 (sha256 bytes)).

(** The header with another solution. *)
Definition with_solution (s : Solution) (h : Header) : Header :=
  Header.mkHeader (version h) (previous_block_hash h) (merkle_root h) (commitment_bytes h) (time h)
    (difficulty_threshold h) (nonce h) s.

Lemma id_without_witness {E : Type} s h : version h = WCASH_BLOCK_WIRE_VERSION ->
  header_hash (E:=E) (with_solution s h) = header_hash h.
Proof. intros V. unfold header_hash. cbn. by rewrite V. Qed.

Lemma wcash_id {E : Type} h : header_ok h -> version h = WCASH_BLOCK_WIRE_VERSION ->
  header_hash (E:=E) h = Ok (blake2b WCASH_BLOCK_ID_PERSONALIZATION (id_bytes h (time h))).
Proof.
  intros [_ R _ _] V. unfold header_hash, wcash_block_id. rewrite V, Z.eqb_refl. rewrite checked_ok by apply R. done.
Qed.

Lemma stripped_bytes h : header_bytes (with_solution (WcashAux []) h) = id_bytes h (time h) ++ encode_compact_size 0.
Proof. unfold header_bytes, id_bytes. cbn [with_solution version previous_block_hash merkle_root commitment_bytes time difficulty_threshold nonce solution]. cbn. by rewrite <- !app_assoc. Qed.

Lemma stripped_ok h : header_ok h -> version h = WCASH_BLOCK_WIRE_VERSION -> header_ok (with_solution (WcashAux []) h).
Proof. intros [Vo R A S] V. split; done. Qed.

(** The id of a Wcash header determines everything but its witness, unless the two
    hashed strings collide. *)
Theorem block_id_binds_header {E : Type} h1 h2 : header_ok h1 -> header_ok h2 ->
  version h1 = WCASH_BLOCK_WIRE_VERSION -> version h2 = WCASH_BLOCK_WIRE_VERSION ->
  header_hash (E:=E) h1 = header_hash h2 ->
  h2 = with_solution (solution h2) h1 \/
  id_bytes h1 (time h1) <> id_bytes h2 (time h2) /\
  blake2b WCASH_BLOCK_ID_PERSONALIZATION (id_bytes h1 (time h1)) = blake2b WCASH_BLOCK_ID_PERSONALIZATION (id_bytes h2 (time h2)).
Proof.
  intros O1 O2 V1 V2. rewrite !wcash_id by done. intros [= Q].
  destruct (decide (id_bytes h1 (time h1) = id_bytes h2 (time h2))) as [E1|N]; [left|by right].
  pose proof (header_parse _ [] (stripped_ok _ O1 V1)) as P1. pose proof (header_parse _ [] (stripped_ok _ O2 V2)) as P2.
  rewrite stripped_bytes, E1, <- stripped_bytes, P2 in P1. destruct h1, h2. unfold with_solution in *. cbn in *. congruence.
Qed.
End Ids.
End BlockId.

(** ** The cache *)

Module Cache.

Definition AUX_BLOCK_CACHE_CAPACITY : nat := 16.
Definition AUX_BLOCK_MAX_ACTIVE_LEASES : nat := 16.
Definition AUX_BLOCK_RETIRED_TOKEN_CAPACITY : nat := 64.
Definition AUX_BLOCK_CACHE_TTL : Z := 10 * 60.

Inductive CandidateLookupError := Unknown | Expired.
Inductive CandidateInsertError := Full | Publishing.
Inductive CandidateRetirement := Retired | AlreadyAbsent | SubmissionStarted.
Inductive CandidateRetirementError := Unauthorized.
Inductive CacheEntryState := StatePublishing | StatePublished | StateSubmissionStarted.
#[export] Instance entry_state_dec : EqDecision CacheEntryState.
Proof. solve_decision. Defined.

(** A retirement token and a block id are 32 bytes. *)
Definition Token : Type := list byte.
Definition Id : Type := list byte.

Record CandidateLease := mkLease { id : Id; retire_token : Token; needs_publication : bool }.

Section Entries.
Context {Candidate : Type} (candidate_hash : Candidate -> Id).

Record CacheEntry := mkEntry {
  candidate : Candidate;
  created_at : Z;
  active_retire_tokens : list Token;
  state : CacheEntryState;
}.
Record RetiredCandidateToken := mkRetired { retired_id : Id; token : Token; retired_at : Z }.
Record CacheInner := mkInner { entries : gmap Id CacheEntry; retired_tokens : list RetiredCandidateToken }.

(** The capacity and the lifetime of a cache. *)
Context (capacity : nat) (ttl : Z).

(** [AuxBlockCandidateCache::new]. *)
Definition new {E : Type} : outcome E CacheInner :=
  do? assert_that (0 <? capacity)%nat in
  Ok (mkInner ∅ []).

(** [Instant::checked_duration_since] with [unwrap_or_default]. *)
Definition age (now t : Z) : Z := Z.max 0 (now - t).

(** [token_index] and [contains_token]. *)
Definition token_index (tokens : list Token) (expected : Token) : option nat :=
  fst <$> list_find (fun t => t = expected) tokens.
Definition contains_token (tokens : list Token) (expected : Token) : bool :=
  match token_index tokens expected with Some _ => true | None => false end.
Definition contains_retired_token (tokens : list RetiredCandidateToken) (i : Id) (expected : Token) : bool :=
  existsb (fun r => bool_decide (retired_id r = i) && bool_decide (token r = expected)) tokens.

(** [remember_retired_token]. *)
Definition remember_retired_token (i : Id) (t : Token) (now : Z) (self : CacheInner) : CacheInner :=
  if contains_retired_token (retired_tokens self) i t then self
  else
    let tokens := if (AUX_BLOCK_RETIRED_TOKEN_CAPACITY <=? length (retired_tokens self))%nat
                  then drop 1 (retired_tokens self) else retired_tokens self in
    mkInner (entries self) (tokens ++ [mkRetired i t now]).

(** [expire_entry] and [purge_expired]. *)
Definition expire_entry (now : Z) (i : Id) (self : CacheInner) : CacheInner :=
  match entries self !! i with
  | Some entry =>
      foldl (fun inner t => remember_retired_token i t now inner) (mkInner (delete i (entries self)) (retired_tokens self))
        (active_retire_tokens entry)
  | None => self
  end.
Definition purge_expired (now : Z) (self : CacheInner) : CacheInner :=
  let inner := mkInner (entries self) (filter (fun r => age now (retired_at r) < ttl) (retired_tokens self)) in
  let expired := (map_to_list (filter (fun e => ttl <= age now (created_at e.2)) (entries inner))).*1 in
  foldl (fun inner i => expire_entry now i inner) inner expired.

(** [unique_retire_token]: the first token that is drawn and not used for the
    candidate; [None] while there is none among the draws. *)
Definition unique_retire_token (retired : list RetiredCandidateToken) (i : Id) (active : list Token) (draws : list Token) : option Token :=
  snd <$> list_find (fun t => contains_token active t = false /\ contains_retired_token retired i t = false) draws.

Definition set_entry (i : Id) (entry : CacheEntry) (self : CacheInner) : CacheInner :=
  mkInner (<[i := entry]> (entries self)) (retired_tokens self).
Definition set_tokens (tokens : list Token) (e : CacheEntry) : CacheEntry := mkEntry (candidate e) (created_at e) tokens (state e).
Definition set_state (st : CacheEntryState) (e : CacheEntry) : CacheEntry := mkEntry (candidate e) (created_at e) (active_retire_tokens e) st.

(** [AuxBlockCandidateCache::insert_at]; nothing when the draws are used up. *)
Definition insert_at (draws : list Token) (c : Candidate) (now : Z) (self : CacheInner) :
    option (CacheInner * outcome CandidateInsertError CandidateLease) :=
  let i := candidate_hash c in
  let inner := purge_expired now self in
  match entries inner !! i with
  | Some existing =>
      if decide (state existing = StatePublishing) then Some (inner, Err Publishing)
      else if (AUX_BLOCK_MAX_ACTIVE_LEASES <=? length (active_retire_tokens existing))%nat then Some (inner, Err Full)
      else
        t ← unique_retire_token (retired_tokens inner) i (active_retire_tokens existing) draws;
        Some (set_entry i (set_tokens (active_retire_tokens existing ++ [t]) existing) inner, Ok (mkLease i t false))
  | None =>
      if (capacity <=? size (entries inner))%nat then Some (inner, Err Full)
      else
        t ← unique_retire_token (retired_tokens inner) i [] draws;
        Some (set_entry i (mkEntry c now [t] StatePublishing) inner, Ok (mkLease i t true))
  end.

(** [AuxBlockCandidateCache::publish]. *)
Definition publish {E : Type} (lease : CandidateLease) (self : CacheInner) : outcome E CacheInner :=
  if negb (needs_publication lease) then Ok self
  else
    let? entry := expect (entries self !! id lease) in
    do? assert_that (contains_token (active_retire_tokens entry) (retire_token lease)) in
    do? assert_that (bool_decide (state entry = StatePublishing)) in
    Ok (set_entry (id lease) (set_state StatePublished entry) self).

(** [AuxBlockCandidateCache::discard_unpublished]. *)
Definition discard_unpublished (lease : CandidateLease) (self : CacheInner) : CacheInner :=
  match entries self !! id lease with
  | None => self
  | Some entry =>
      match token_index (active_retire_tokens entry) (retire_token lease) with
      | None => self
      | Some i =>
          match state entry, needs_publication lease with
          | StatePublishing, true => mkInner (delete (id lease) (entries self)) (retired_tokens self)
          | StatePublished, false | StateSubmissionStarted, false =>
              let entry := set_tokens (swap_remove i (active_retire_tokens entry)) entry in
              if bool_decide (state entry = StatePublished) && bool_decide (active_retire_tokens entry = [])
              then mkInner (delete (id lease) (entries self)) (retired_tokens self)
              else set_entry (id lease) entry self
          | _, _ => self
          end
      end
  end.

(** [AuxBlockCandidateCache::remove]. *)
Definition remove (i : Id) (self : CacheInner) : CacheInner := mkInner (delete i (entries self)) (retired_tokens self).

(** [AuxBlockCandidateCache::retire]. *)
Definition retire (i : Id) (t : Token) (now : Z) (self : CacheInner) : CacheInner * outcome CandidateRetirementError CandidateRetirement :=
  let inner := purge_expired now self in
  if contains_retired_token (retired_tokens inner) i t then (inner, Ok AlreadyAbsent)
  else
    match entries inner !! i with
    | None => (inner, Ok AlreadyAbsent)
    | Some entry =>
        match token_index (active_retire_tokens entry) t with
        | None => (inner, Err Unauthorized)
        | Some index =>
            match state entry with
            | StatePublishing => (inner, Err Unauthorized)
            | StatePublished =>
                let tokens := swap_remove index (active_retire_tokens entry) in
                let inner := if decide (tokens = []) then mkInner (delete i (entries inner)) (retired_tokens inner)
                             else set_entry i (set_tokens tokens entry) inner in
                (remember_retired_token i t now inner, Ok Retired)
            | StateSubmissionStarted => (inner, Ok SubmissionStarted)
            end
        end
    end.

(** [AuxBlockCandidateCache::begin_submission_at]. *)
Definition begin_submission_at (i : Id) (now : Z) (self : CacheInner) : CacheInner * outcome CandidateLookupError Candidate :=
  let expired := match entries self !! i with Some entry => ttl <=? age now (created_at entry) | None => false end in
  if expired then (expire_entry now i self, Err Expired)
  else
    match entries self !! i with
    | None => (self, Err Unknown)
    | Some entry =>
        if decide (state entry = StatePublishing) then (self, Err Unknown)
        else (set_entry i (set_state StateSubmissionStarted entry) self, Ok (candidate entry))
    end.

(** ** Tokens *)

Lemma token_index_Some l t i : token_index l t = Some i -> l !! i = Some t.
Proof. unfold token_index. destruct (list_find _ l) as [[j u]|] eqn:F; [|done]. intros [= <-]. apply list_find_Some in F as (L & -> & _). done. Qed.

Lemma contains_token_spec l t : contains_token l t = true <-> t ∈ l.
Proof.
  unfold contains_token, token_index. destruct (list_find _ l) as [[i u]|] eqn:F; cbn.
  - split; [|done]. intros _. apply list_find_Some in F as (L & -> & _). by eapply list_elem_of_lookup_2.
  - split; [done|]. intros I. apply list_find_None in F. rewrite Forall_forall in F. by destruct (F t I).
Qed.

Lemma token_index_elem l t : t ∈ l -> exists i, token_index l t = Some i.
Proof. intros I%contains_token_spec. unfold contains_token in I. destruct (token_index l t); [eauto|done]. Qed.

Lemma contains_retired_spec l i t : contains_retired_token l i t = true <-> exists r, r ∈ l /\ retired_id r = i /\ token r = t.
Proof.
  unfold contains_retired_token. rewrite existsb_exists. setoid_rewrite <- list_elem_of_In. setoid_rewrite andb_true_iff.
  setoid_rewrite bool_decide_eq_true. naive_solver.
Qed.

(** The draws end with a token when they are more than those in use. *)
Lemma unique_retire_token_total retired i active draws : NoDup draws -> (length active + length retired < length draws)%nat ->
  exists t, unique_retire_token retired i active draws = Some t.
Proof.
  intros N L. unfold unique_retire_token. destruct (list_find _ draws) as [[j t]|] eqn:F; [by exists t|]. exfalso.
  apply list_find_None in F. rewrite Forall_forall in F.
  assert (Sub : draws ⊆+ active ++ (token <$> retired)).
  { apply NoDup_submseteq; [done|]. intros t It. specialize (F t It). destruct (contains_token active t) eqn:C; [apply contains_token_spec in C; set_solver|].
    destruct (contains_retired_token retired i t) eqn:R; [|by destruct F]. apply contains_retired_spec in R as (r & Ir & _ & <-).
    apply elem_of_app. right. by apply (list_elem_of_fmap_2 token). }
  apply submseteq_length in Sub. rewrite length_app, length_fmap in Sub. lia.
Qed.

Lemma unique_retire_token_Some retired i active draws t : unique_retire_token retired i active draws = Some t ->
  t ∈ draws /\ t ∉ active /\ contains_retired_token retired i t = false.
Proof.
  unfold unique_retire_token. destruct (list_find _ draws) as [[j u]|] eqn:F; [|done]. intros [= <-].
  apply list_find_Some in F as (L & [C R] & _). split_and!; [by eapply list_elem_of_lookup_2| |done].
  intros I%contains_token_spec. congruence.
Qed.

(** ** Expiry *)

Lemma remember_entries i t now s : entries (remember_retired_token i t now s) = entries s.
Proof. unfold remember_retired_token. by destruct (contains_retired_token _ _ _). Qed.

Lemma remember_retired i t now s j u : contains_retired_token (retired_tokens (remember_retired_token i t now s)) j u = true ->
  contains_retired_token (retired_tokens s) j u = true \/ (j = i /\ u = t).
Proof.
  unfold remember_retired_token. destruct (contains_retired_token (retired_tokens s) i t); [by left|]. cbn [retired_tokens].
  rewrite !contains_retired_spec. intros (r & [I|I]%elem_of_app & <- & <-); [|by apply list_elem_of_singleton in I as ->; right].
  left. exists r. split_and!; [|done..]. case_match; [|done]. rewrite <- (take_drop 1 (retired_tokens s)). apply elem_of_app. by right.
Qed.

Lemma remember_bound i t now s : (length (retired_tokens s) <= AUX_BLOCK_RETIRED_TOKEN_CAPACITY)%nat ->
  (length (retired_tokens (remember_retired_token i t now s)) <= AUX_BLOCK_RETIRED_TOKEN_CAPACITY)%nat.
Proof.
  intros L. unfold remember_retired_token. destruct (contains_retired_token _ _ _); [done|]. cbn [retired_tokens]. rewrite length_app. cbn [length].
  destruct (Nat.leb_spec AUX_BLOCK_RETIRED_TOKEN_CAPACITY (length (retired_tokens s))); [rewrite length_drop; unfold AUX_BLOCK_RETIRED_TOKEN_CAPACITY in *; lia|lia].
Qed.

Lemma remember_stays i t now s : contains_retired_token (retired_tokens (remember_retired_token i t now s)) i t = true.
Proof.
  unfold remember_retired_token. destruct (contains_retired_token (retired_tokens s) i t) eqn:C; [done|]. cbn. apply contains_retired_spec.
  exists (mkRetired i t now). split; [apply elem_of_app; right; by apply list_elem_of_singleton|done].
Qed.

Lemma remember_all i now l : forall s, let s' := foldl (fun inner t => remember_retired_token i t now inner) s l in
  entries s' = entries s /\
  (forall j u, contains_retired_token (retired_tokens s') j u = true ->
    contains_retired_token (retired_tokens s) j u = true \/ (j = i /\ u ∈ l)) /\
  ((length (retired_tokens s) <= AUX_BLOCK_RETIRED_TOKEN_CAPACITY)%nat -> (length (retired_tokens s') <= AUX_BLOCK_RETIRED_TOKEN_CAPACITY)%nat).
Proof.
  induction l as [|t l IH]; intros s; cbn [foldl]; [by split_and!; [|left|]|].
  destruct (IH (remember_retired_token i t now s)) as (E & R & B). split_and!.
  - by rewrite E, remember_entries.
  - intros j u [C|[-> I]]%R; [|by right; split; [|right]]. apply remember_retired in C as [C|[-> ->]]; [by left|by right; split; [|left]].
  - intros L. by apply B, remember_bound.
Qed.

Lemma expire_entry_spec now i s : let s' := expire_entry now i s in
  entries s' = delete i (entries s) /\
  (forall j u, contains_retired_token (retired_tokens s') j u = true -> contains_retired_token (retired_tokens s) j u = true \/
    exists e, j = i /\ entries s !! i = Some e /\ u ∈ active_retire_tokens e) /\
  ((length (retired_tokens s) <= AUX_BLOCK_RETIRED_TOKEN_CAPACITY)%nat -> (length (retired_tokens s') <= AUX_BLOCK_RETIRED_TOKEN_CAPACITY)%nat).
Proof.
  unfold expire_entry. destruct (entries s !! i) as [e|] eqn:L; cbn zeta.
  - destruct (remember_all i now (active_retire_tokens e) (mkInner (delete i (entries s)) (retired_tokens s))) as (E & R & B).
    split_and!; [by rewrite E| |exact B]. intros j u [C|[-> I]]%R; [by left|right; by exists e].
  - split_and!; [by rewrite delete_id|by left|done].
Qed.

Lemma expire_all now l : forall s, let s' := foldl (fun inner i => expire_entry now i inner) s l in
  (forall j, entries s' !! j = if decide (j ∈ l) then None else entries s !! j) /\
  (forall j u, contains_retired_token (retired_tokens s') j u = true -> contains_retired_token (retired_tokens s) j u = true \/
    exists e, j ∈ l /\ entries s !! j = Some e /\ u ∈ active_retire_tokens e) /\
  ((length (retired_tokens s) <= AUX_BLOCK_RETIRED_TOKEN_CAPACITY)%nat -> (length (retired_tokens s') <= AUX_BLOCK_RETIRED_TOKEN_CAPACITY)%nat).
Proof.
  induction l as [|i l IH]; intros s; cbn [foldl].
  - split_and!; [|by left|done]. intros j. rewrite decide_False by apply not_elem_of_nil. done.
  - destruct (expire_entry_spec now i s) as (E1 & R1 & B1). destruct (IH (expire_entry now i s)) as (E & R & B). split_and!.
    + intros j. rewrite E, E1. destruct (decide (j ∈ l)) as [I|I]; [by rewrite decide_True by by right|].
      destruct (decide (j = i)) as [->|N]; [by rewrite lookup_delete_eq, decide_True by by left|].
      rewrite lookup_delete_ne, decide_False by (rewrite ?not_elem_of_cons; done). done.
    + intros j u [C|(e & I & Le & Iu)]%R.
      * apply R1 in C as [C|(e & -> & Le & Iu)]; [by left|right]. exists e. split_and!; [by left|done..].
      * right. exists e. rewrite E1 in Le. apply lookup_delete_Some in Le as [_ Le]. split_and!; [by right|done..].
    + intros L. by apply B, B1.
Qed.

(** What is left of the entries: those that have not expired. *)
Lemma purge_entries now s j : entries (purge_expired now s) !! j =
  match entries s !! j with Some e => if decide (ttl <= age now (created_at e)) then None else Some e | None => None end.
Proof.
  unfold purge_expired. cbn [entries]. set (l := (map_to_list _).*1).
  destruct (expire_all now l (mkInner (entries s) (filter (fun r => age now (retired_at r) < ttl) (retired_tokens s)))) as (E & _). rewrite E. cbn [entries].
  assert (Hl : j ∈ l <-> exists e, entries s !! j = Some e /\ ttl <= age now (created_at e)).
  { unfold l. rewrite list_elem_of_fmap. split.
    - intros ([k e] & -> & [L T]%elem_of_map_to_list%map_lookup_filter_Some). eauto.
    - intros (e & L & T). exists (j, e). split; [done|]. by apply elem_of_map_to_list, map_lookup_filter_Some. }
  destruct (entries s !! j) as [e|] eqn:L; [|by case_decide].
  destruct (decide (ttl <= age now (created_at e))) as [T|T]; [by rewrite decide_True by (apply Hl; eauto)|].
  rewrite decide_False; [done|]. intros (? & [= <-] & ?)%Hl. done.
Qed.

Lemma purge_retired now s : 
  (forall j u, contains_retired_token (retired_tokens (purge_expired now s)) j u = true -> contains_retired_token (retired_tokens s) j u = true \/
    exists e, entries s !! j = Some e /\ ttl <= age now (created_at e) /\ u ∈ active_retire_tokens e) /\
  ((length (retired_tokens s) <= AUX_BLOCK_RETIRED_TOKEN_CAPACITY)%nat ->
   (length (retired_tokens (purge_expired now s)) <= AUX_BLOCK_RETIRED_TOKEN_CAPACITY)%nat).
Proof.
  unfold purge_expired. cbn [entries]. set (l := (map_to_list _).*1). set (s0 := mkInner _ _).
  destruct (expire_all now l s0) as (_ & R & B). split.
  - intros j u [C|(e & I & L & Iu)]%R.
    + left. apply contains_retired_spec in C as (r & [_ Ir]%list_elem_of_filter & ? & ?). apply contains_retired_spec. eauto.
    + right. unfold l in I. apply list_elem_of_fmap in I as ([k e'] & -> & [L' T]%elem_of_map_to_list%map_lookup_filter_Some). cbn in *. exists e'.
      split_and!; [done..|]. unfold s0 in L. cbn in L. congruence.
  - intros Le. apply B. unfold s0. cbn [retired_tokens]. etrans; [apply length_filter|done].
Qed.

(** ** The invariant *)

Record entry_ok (now : Z) (i : Id) (e : CacheEntry) : Prop := mkEntryOk {
  e_hash : candidate_hash (candidate e) = i;
  e_created : created_at e <= now;
  e_distinct : NoDup (active_retire_tokens e);
  e_bound : (length (active_retire_tokens e) <= AUX_BLOCK_MAX_ACTIVE_LEASES)%nat;
  e_leased : state e <> StateSubmissionStarted -> active_retire_tokens e <> [];
}.

Record cache_ok (now : Z) (s : CacheInner) : Prop := mkCacheOk {
  c_capacity : (size (entries s) <= capacity)%nat;
  c_entries : forall i e, entries s !! i = Some e -> entry_ok now i e;
  c_retired : (length (retired_tokens s) <= AUX_BLOCK_RETIRED_TOKEN_CAPACITY)%nat;
  c_apart : forall i e t, entries s !! i = Some e -> t ∈ active_retire_tokens e -> contains_retired_token (retired_tokens s) i t = false;
}.

Lemma cache_ok_later now now' s : now <= now' -> cache_ok now s -> cache_ok now' s.
Proof. intros L [C E R A]. split; try done. intros i e Le. destruct (E i e Le). split; try done. lia. Qed.

(** Fewer entries, and no new retirement of an active token. *)
Lemma cache_ok_shrink now s s' : cache_ok now s -> (forall i e, entries s' !! i = Some e -> entries s !! i = Some e) ->
  (length (retired_tokens s') <= AUX_BLOCK_RETIRED_TOKEN_CAPACITY)%nat ->
  (forall i e t, entries s' !! i = Some e -> t ∈ active_retire_tokens e -> contains_retired_token (retired_tokens s') i t = true ->
    contains_retired_token (retired_tokens s) i t = true) -> cache_ok now s'.
Proof.
  intros [C E R A] Sub B N. split; [|by intros i e Le; apply E, Sub|done|].
  - etrans; [|exact C]. rewrite <- !size_dom. apply subseteq_size. intros i [e Le]%elem_of_dom. apply elem_of_dom. eauto.
  - intros i e t Le It. destruct (contains_retired_token (retired_tokens s') i t) eqn:Q; [|done].
    pose proof (N i e t Le It Q). pose proof (A i e t (Sub _ _ Le) It). congruence.
Qed.

(** One entry changes. *)
Lemma cache_ok_set now s i e e' : cache_ok now s -> entries s !! i = Some e -> entry_ok now i e' ->
  (forall t, t ∈ active_retire_tokens e' -> contains_retired_token (retired_tokens s) i t = false) -> cache_ok now (set_entry i e' s).
Proof.
  intros [C E R A] L O F. split; cbn [entries retired_tokens set_entry]; [|..|done|].
  - rewrite map_size_insert_Some; [done|by eexists].
  - intros j x [[-> ->]|[_ ?]]%lookup_insert_Some; [done|by apply E].
  - intros j x t [[-> ->]|[_ ?]]%lookup_insert_Some; [apply F|by apply A].
Qed.

Lemma purge_Some now s i e : entries (purge_expired now s) !! i = Some e <-> entries s !! i = Some e /\ age now (created_at e) < ttl.
Proof.
  rewrite purge_entries. destruct (entries s !! i) as [x|]; [|naive_solver]. destruct (decide (ttl <= age now (created_at x))); naive_solver lia.
Qed.

Lemma purge_ok now s : cache_ok now s -> cache_ok now (purge_expired now s).
Proof.
  intros O. destruct (purge_retired now s) as [R B]. apply (cache_ok_shrink now s); [done| |by apply B, O|].
  - intros i e [? _]%purge_Some. done.
  - intros i e t [L T]%purge_Some It [?|(x & Lx & Tx & _)]%R; [done|]. rewrite L in Lx. injection Lx as <-. lia.
Qed.

(** ** The operations keep the invariant *)

(** What an insertion does: an error only purges; otherwise the lease is for the
    candidate, new or with another token. *)
Definition inserted (now : Z) (c : Candidate) (s s' : CacheInner) (lease : CandidateLease) : Prop :=
  id lease = candidate_hash c /\
  (exists e, entries s' = <[id lease := e]> (entries (purge_expired now s)) /\ retire_token lease ∈ active_retire_tokens e /\
    if needs_publication lease
    then entries (purge_expired now s) !! id lease = None /\ e = mkEntry c now [retire_token lease] StatePublishing
    else exists e0, entries (purge_expired now s) !! id lease = Some e0 /\ state e0 <> StatePublishing /\
           e = set_tokens (active_retire_tokens e0 ++ [retire_token lease]) e0).

Lemma reserve_ok draws c now s : cache_ok now s -> NoDup draws ->
  (AUX_BLOCK_MAX_ACTIVE_LEASES + AUX_BLOCK_RETIRED_TOKEN_CAPACITY < length draws)%nat ->
  exists s' r, insert_at draws c now s = Some (s', r) /\ cache_ok now s' /\
    match r with Ok lease => inserted now c s s' lease | Err _ => s' = purge_expired now s | Panic => False end.
Proof.
  intros O%purge_ok N L. unfold insert_at. set (p := purge_expired now s) in *. set (i := candidate_hash c).
  assert (U : forall active, (length active <= AUX_BLOCK_MAX_ACTIVE_LEASES)%nat -> exists t, unique_retire_token (retired_tokens p) i active draws = Some t).
  { intros active La. apply unique_retire_token_total; [done|]. pose proof (c_retired _ _ O). lia. }
  destruct (entries p !! i) as [e|] eqn:E.
  - destruct (decide (state e = StatePublishing)) as [?|Ns]; [by eauto|]. pose proof (c_entries _ _ O _ _ E) as [Eh Ec Ed Eb El].
    destruct (Nat.leb_spec AUX_BLOCK_MAX_ACTIVE_LEASES (length (active_retire_tokens e))); [by eauto|].
    destruct (U (active_retire_tokens e) Eb) as [t Ht]. rewrite Ht. cbn. destruct (unique_retire_token_Some _ _ _ _ _ Ht) as (_ & Nt & Rt).
    eexists _, _. split_and!; [done|..].
    + apply (cache_ok_set _ _ _ e); [done..| |].
      * split; cbn; try done; [|rewrite length_app; cbn; lia|by destruct (active_retire_tokens e)].
        apply NoDup_app. split_and!; [done| |apply NoDup_singleton]. by intros x Hx ->%list_elem_of_singleton.
      * cbn. intros x [Hx| ->%list_elem_of_singleton]%elem_of_app; [by apply (c_apart _ _ O _ _ _ E)|done].
    + split; [done|]. cbn. eexists. split; [done|]. split; [cbn; set_solver|]. exists e. by split_and!.
  - destruct (Nat.leb_spec capacity (size (entries p))); [by eauto|]. destruct (U [] ltac:(cbn; lia)) as [t Ht]. rewrite Ht. cbn.
    destruct (unique_retire_token_Some _ _ _ _ _ Ht) as (_ & Nt & Rt). eexists _, _. split_and!; [done|..].
    + split; cbn [entries retired_tokens set_entry].
      * rewrite map_size_insert_None by done. lia.
      * intros j x [[<- <-]|[_ ?]]%lookup_insert_Some; [|by apply O]. split; [done|cbn; lia|apply NoDup_singleton|cbn; unfold AUX_BLOCK_MAX_ACTIVE_LEASES; lia|done].
      * apply O.
      * intros j x u [[<- <-]|[_ ?]]%lookup_insert_Some; [|by apply O]. cbn. by intros ->%list_elem_of_singleton.
    + split; [done|]. cbn. eexists. split; [done|]. split; [cbn; set_solver|]. by split.
Qed.

Lemma delete_ok now s i : cache_ok now s -> cache_ok now (remove i s).
Proof. intros O. apply (cache_ok_shrink now s); [done| |apply O|done]. cbn. by intros j e [_ ?]%lookup_delete_Some. Qed.

Lemma swap_removed i l t : token_index l t = Some i -> NoDup l -> NoDup (swap_remove i l) /\ (length (swap_remove i l) <= length l)%nat /\
  forall x, x ∈ swap_remove i l <-> x ∈ l /\ x <> t.
Proof.
  intros L%token_index_Some N. pose proof (swap_remove_perm _ _ _ L) as P. pose proof N as N'. rewrite P in N'. apply NoDup_cons in N' as [Nt Nr].
  split_and!; [done|apply Permutation_length in P; cbn in P; lia|]. intros x. rewrite P at 2. rewrite elem_of_cons. naive_solver.
Qed.

(** A token is given up: it is gone, and the others stay. *)
Lemma drop_token_ok now s i e index t : cache_ok now s -> entries s !! i = Some e -> token_index (active_retire_tokens e) t = Some index ->
  state e = StateSubmissionStarted \/ swap_remove index (active_retire_tokens e) <> [] ->
  cache_ok now (set_entry i (set_tokens (swap_remove index (active_retire_tokens e)) e) s).
Proof.
  intros O L T Ne. pose proof (c_entries _ _ O _ _ L) as [Eh Ec Ed Eb El]. destruct (swap_removed _ _ _ T Ed) as (N & Le & I).
  apply (cache_ok_set _ _ _ e); [done..| |].
  - split; cbn; try done; [lia|]. naive_solver.
  - cbn. intros x [Hx _]%I. by apply (c_apart _ _ O _ _ _ L).
Qed.

Lemma discard_ok now s lease : cache_ok now s -> cache_ok now (discard_unpublished lease s).
Proof.
  intros O. unfold discard_unpublished. destruct (entries s !! id lease) as [e|] eqn:L; [|done].
  destruct (token_index _ _) as [index|] eqn:T; [|done].
  destruct (state e) eqn:Q, (needs_publication lease); try done; try by apply delete_ok.
  - cbn [state set_tokens active_retire_tokens]. rewrite Q. rewrite (bool_decide_eq_true_2 (StatePublished = _)) by done. cbn [andb].
    case_bool_decide; [by apply delete_ok|]. eapply drop_token_ok; eauto.
  - cbn [state set_tokens active_retire_tokens]. rewrite Q. rewrite (bool_decide_eq_false_2 (StateSubmissionStarted = _)) by done. cbn [andb]. eapply drop_token_ok; eauto.
Qed.

Lemma set_state_ok now s i e st : cache_ok now s -> entries s !! i = Some e -> st = StateSubmissionStarted \/ state e <> StateSubmissionStarted ->
  cache_ok now (set_entry i (set_state st e) s).
Proof.
  intros O L Q. pose proof (c_entries _ _ O _ _ L) as [Eh Ec Ed Eb El]. apply (cache_ok_set _ _ _ e); [done..| |].
  - split; cbn; try done. naive_solver.
  - cbn. intros x Hx. by apply (c_apart _ _ O _ _ _ L).
Qed.

Lemma expire_ok now s i : cache_ok now s -> cache_ok now (expire_entry now i s).
Proof.
  intros O. destruct (expire_entry_spec now i s) as (E & R & B). apply (cache_ok_shrink now s); [done| |by apply B, O|].
  - intros j e. rewrite E. by intros [_ ?]%lookup_delete_Some.
  - intros j e t. rewrite E. intros [Nj Lj]%lookup_delete_Some _ [?|(x & -> & _)]%R; done.
Qed.

Lemma begin_ok now s i : cache_ok now s -> cache_ok now (begin_submission_at i now s).1.
Proof.
  intros O. unfold begin_submission_at. destruct (entries s !! i) as [e|] eqn:L; [|done].
  destruct (ttl <=? _); [by apply expire_ok|]. destruct (decide _); [done|]. cbn. by apply set_state_ok; [..|left].
Qed.

Lemma retire_ok now s i t : cache_ok now s -> cache_ok now (retire i t now s).1.
Proof.
  intros O%purge_ok. unfold retire. set (p := purge_expired now s) in *. destruct (contains_retired_token _ _ _) eqn:C; [done|].
  destruct (entries p !! i) as [e|] eqn:L; [|done]. destruct (token_index _ _) as [index|] eqn:T; [|done].
  destruct (state e) eqn:Q; try done. cbn [fst].
  destruct (swap_removed _ _ _ T (e_distinct _ _ _ (c_entries _ _ O _ _ L))) as (_ & _ & I).
  assert (K : forall s', cache_ok now s' -> (forall x, entries s' !! i = Some x -> t ∉ active_retire_tokens x) -> cache_ok now (remember_retired_token i t now s')).
  { intros s' O' F. apply (cache_ok_shrink now s'); [done|by rewrite remember_entries|by apply remember_bound, O'|].
    intros j x u. rewrite remember_entries. intros Lx Iu [?|[-> ->]]%remember_retired; [done|]. by destruct (F _ Lx). }
  destruct (decide _); apply K.
  - by apply delete_ok.
  - cbn. intros x. by rewrite lookup_delete_eq.
  - eapply drop_token_ok; eauto.
  - cbn. intros x. rewrite lookup_insert_eq. intros [= <-]. cbn. rewrite I. naive_solver.
Qed.

(** ** Calls that share a cache *)

(** The cache with the clock and the leases that calls of [createauxblock] hold:
    reserved, and neither published nor discarded yet. *)
Record Sys := mkSys { cache : CacheInner; clock : Z; held : list CandidateLease }.

Inductive action :=
| Tick (now : Z)
| Insert (draws : list Token) (c : Candidate)
| Publish (lease : CandidateLease)
| Discard (lease : CandidateLease)
| Begin (i : Id)
| Remove (i : Id)
| Retire (i : Id) (t : Token).

Definition reserved (lease : CandidateLease) (s : CacheInner) (now : Z) : Prop :=
  exists c t0, entries s !! id lease = Some (mkEntry c t0 [retire_token lease] StatePublishing) /\ age now t0 < ttl.
Definition holds (s : Sys) (lease : CandidateLease) : Prop := needs_publication lease = true -> reserved lease (cache s) (clock s).

(** The steps.  A call publishes or discards its reservation before the lifetime of
    the entry is over, and no block is confirmed before its candidate is
    published. *)
Inductive step : action -> Sys -> Sys -> Prop :=
| step_tick now s : clock s <= now ->
    (forall lease c t0, lease ∈ held s -> needs_publication lease = true ->
       entries (cache s) !! id lease = Some (mkEntry c t0 [retire_token lease] StatePublishing) -> age now t0 < ttl) ->
    step (Tick now) s (mkSys (cache s) now (held s))
| step_insert draws c s c' r : NoDup draws -> (AUX_BLOCK_MAX_ACTIVE_LEASES + AUX_BLOCK_RETIRED_TOKEN_CAPACITY < length draws)%nat ->
    insert_at draws c (clock s) (cache s) = Some (c', r) ->
    step (Insert draws c) s (mkSys c' (clock s) (match r with Ok lease => lease :: held s | _ => held s end))
| step_publish lease l1 l2 s c' : held s = l1 ++ lease :: l2 -> publish (E:=Empty_set) lease (cache s) = Ok c' ->
    step (Publish lease) s (mkSys c' (clock s) (l1 ++ l2))
| step_discard lease l1 l2 s : held s = l1 ++ lease :: l2 ->
    step (Discard lease) s (mkSys (discard_unpublished lease (cache s)) (clock s) (l1 ++ l2))
| step_begin i s : step (Begin i) s (mkSys (begin_submission_at i (clock s) (cache s)).1 (clock s) (held s))
| step_remove i s : (forall e, entries (cache s) !! i = Some e -> state e <> StatePublishing) ->
    step (Remove i) s (mkSys (remove i (cache s)) (clock s) (held s))
| step_retire i t s : step (Retire i t) s (mkSys (retire i t (clock s) (cache s)).1 (clock s) (held s)).

Inductive steps : list action -> Sys -> Sys -> Prop :=
| steps_nil s : steps [] s s
| steps_cons a l s1 s2 s3 : step a s1 s2 -> steps l s2 s3 -> steps (a :: l) s1 s3.

Definition start (now : Z) : Sys := mkSys (mkInner ∅ []) now [].
Definition reachable (s : Sys) : Prop := exists now l, steps l (start now) s.

Record sys_ok (s : Sys) : Prop := mkSysOk {
  s_cache : cache_ok (clock s) (cache s);
  s_held : forall lease, lease ∈ held s -> holds s lease;
  s_owners : NoDup (id <$> filter (fun lease => needs_publication lease = true) (held s));
}.

Context (ttl_positive : 0 < ttl).

Lemma age_self now : age now now < ttl.
Proof. unfold age. lia. Qed.

(** ** Reservations of other calls *)

Lemma reserved_purge lease s now : reserved lease s now -> reserved lease (purge_expired now s) now.
Proof. intros (c & t0 & L & A). exists c, t0. split; [|done]. by apply purge_Some. Qed.

Lemma reserved_insert lease l' now c s s' : reserved lease s now -> inserted now c s s' l' -> id l' <> id lease /\ reserved lease s' now.
Proof.
  intros (c0 & t0 & L & A)%reserved_purge (_ & e & E & _ & N). assert (Ne : id l' <> id lease).
  { intros Q. rewrite Q in N. destruct (needs_publication l'); [destruct N; congruence|].
    destruct N as (e0 & L0 & S0 & _). rewrite L in L0. injection L0 as <-. by cbn in S0. }
  split; [done|]. exists c0, t0. rewrite E, lookup_insert_ne by done. done.
Qed.

Lemma reserved_publish {E : Type} lease l' s s' now : reserved lease s now -> id l' <> id lease -> publish (E:=E) l' s = Ok s' -> reserved lease s' now.
Proof.
  intros (c & t0 & L & A) N. unfold publish. destruct (negb _); [intros [= <-]; by exists c, t0|].
  intros (e & _ & H)%obind_Ok. apply obind_Ok in H as (? & _ & H). apply obind_Ok in H as (? & _ & [= <-]).
  exists c, t0. cbn. by rewrite lookup_insert_ne.
Qed.

Lemma reserved_discard lease l' s now : reserved lease s now -> (needs_publication l' = true -> id l' <> id lease) ->
  reserved lease (discard_unpublished l' s) now.
Proof.
  intros (c & t0 & L & A) N. unfold discard_unpublished. destruct (decide (id l' = id lease)) as [Q|Q].
  - rewrite Q, L. cbn [active_retire_tokens state]. destruct (token_index _ _); [|by exists c, t0].
    destruct (needs_publication l'); [by destruct N|by exists c, t0].
  - assert (K : forall x, reserved lease (set_entry (id l') x s) now) by (intros x; exists c, t0; cbn; by rewrite lookup_insert_ne).
    assert (K' : reserved lease (mkInner (delete (id l') (entries s)) (retired_tokens s)) now) by (exists c, t0; cbn; by rewrite lookup_delete_ne).
    assert (reserved lease s now) by (by exists c, t0).
    destruct (entries s !! id l') as [e|]; [|done]. destruct (token_index _ _); [|done].
    destruct (state e), (needs_publication l'); try done; by destruct (_ && _).
Qed.

Lemma reserved_begin lease i s now : reserved lease s now -> reserved lease (begin_submission_at i now s).1 now.
Proof.
  intros (c & t0 & L & A). unfold begin_submission_at. destruct (decide (i = id lease)) as [->|Q].
  - rewrite L. cbn [created_at state]. destruct (Z.leb_spec ttl (age now t0)); [lia|]. rewrite decide_True by done. by exists c, t0.
  - exists c, t0. destruct (entries s !! i) as [e|]; [|done]. destruct (ttl <=? _).
    + destruct (expire_entry_spec now i s) as (E & _). cbn [fst]. by rewrite E, lookup_delete_ne.
    + destruct (decide _); [done|]. cbn. by rewrite lookup_insert_ne.
Qed.

Lemma reserved_remove lease i s now : reserved lease s now -> (forall e, entries s !! i = Some e -> state e <> StatePublishing) ->
  reserved lease (remove i s) now.
Proof.
  intros (c & t0 & L & A) N. exists c, t0. cbn. rewrite lookup_delete_ne; [done|]. intros ->. by apply (N _ L).
Qed.

Lemma reserved_retire lease i t s now : reserved lease s now -> reserved lease (retire i t now s).1 now.
Proof.
  intros (c & t0 & L & A)%reserved_purge. unfold retire. set (p := purge_expired now s) in *. assert (reserved lease p now) by (by exists c, t0).
  destruct (contains_retired_token _ _ _); [done|]. destruct (entries p !! i) as [e|] eqn:Le; [|done]. destruct (token_index _ _); [|done].
  destruct (state e) eqn:Q; try done. cbn [fst]. exists c, t0. rewrite remember_entries. split; [|done].
  assert (Ne : i <> id lease) by (intros ->; rewrite L in Le; by injection Le as <-).
  destruct (decide _); cbn; [by rewrite lookup_delete_ne|by rewrite lookup_insert_ne].
Qed.

Lemma publish_reserved {E : Type} lease s now : (needs_publication lease = true -> reserved lease s now) ->
  exists s', publish (E:=E) lease s = Ok s' /\
    if needs_publication lease
    then exists e, entries s !! id lease = Some e /\ state e = StatePublishing /\ s' = set_entry (id lease) (set_state StatePublished e) s
    else s' = s.
Proof.
  intros R. unfold publish. destruct (needs_publication lease); [|by exists s]. destruct (R eq_refl) as (c & t0 & L & _). cbn [negb]. rewrite L. cbn [expect obind].
  assert (C : contains_token (active_retire_tokens (mkEntry c t0 [retire_token lease] StatePublishing)) (retire_token lease) = true)
    by (apply contains_token_spec; cbn; by apply list_elem_of_singleton).
  rewrite C, bool_decide_eq_true_2 by done. cbn. eexists. split; [done|]. by eexists.
Qed.

Lemma publish_ok {E : Type} lease s s' now : cache_ok now s -> (needs_publication lease = true -> reserved lease s now) ->
  publish (E:=E) lease s = Ok s' -> cache_ok now s'.
Proof.
  intros O R P. destruct (publish_reserved (E:=E) lease s now R) as (x & Px & H). rewrite P in Px. injection Px as <-.
  destruct (needs_publication lease); [|by subst]. destruct H as (e & L & Q & ->). apply set_state_ok; [done..|]. right. congruence.
Qed.

(** The other owners are for other candidates. *)
Lemma owners_apart l1 lease l2 l' : NoDup (id <$> filter (fun lease => needs_publication lease = true) (l1 ++ lease :: l2)) ->
  needs_publication lease = true -> needs_publication l' = true -> l' ∈ l1 ++ l2 -> id lease <> id l'.
Proof.
  intros N H H' I Q. rewrite filter_app, filter_cons_True, fmap_app in N by done. cbn in N. rewrite <- Permutation_middle in N.
  apply NoDup_cons in N as [Ni _]. apply Ni. rewrite <- fmap_app, <- filter_app, Q. apply (list_elem_of_fmap_2 id). by apply list_elem_of_filter.
Qed.

Lemma owners_shrink l1 lease l2 : NoDup (id <$> filter (fun lease => needs_publication lease = true) (l1 ++ lease :: l2)) ->
  NoDup (id <$> filter (fun lease => needs_publication lease = true) (l1 ++ l2)).
Proof.
  rewrite !filter_app, !fmap_app, filter_cons. destruct (decide _); [|done]. cbn. rewrite <- Permutation_middle. by intros [_ ?]%NoDup_cons.
Qed.

Lemma step_insert_ok draws c s c' r : sys_ok s -> NoDup draws -> (AUX_BLOCK_MAX_ACTIVE_LEASES + AUX_BLOCK_RETIRED_TOKEN_CAPACITY < length draws)%nat ->
  insert_at draws c (clock s) (cache s) = Some (c', r) ->
  sys_ok (mkSys c' (clock s) (match r with Ok lease => lease :: held s | _ => held s end)).
Proof.
  intros [C Hh N] Nd Ld I. destruct (reserve_ok draws c _ _ C Nd Ld) as (x & y & X & Cx & R). rewrite I in X. injection X as <- <-.
  assert (P : forall l, l ∈ held s -> needs_publication l = true -> reserved l (purge_expired (clock s) (cache s)) (clock s)) by (intros l Il Nl; by apply reserved_purge, Hh).
  destruct r as [lease|e|]; [|subst; split; [done|intros l Il Nl; by apply P|done]|done].
  assert (Fr : forall l, l ∈ held s -> needs_publication l = true -> id lease <> id l /\ reserved l c' (clock s)) by (intros l Il Nl; eapply reserved_insert; [by apply Hh|done]).
  split; [done|..].
  - intros l [->|Il]%elem_of_cons Nl; [|by apply Fr]. destruct R as (_ & e & E & _ & Q). rewrite Nl in Q. destruct Q as [_ ->].
    exists c, (clock s). cbn. rewrite E, lookup_insert_eq. split; [done|]. apply age_self.
  - cbn [held]. rewrite filter_cons. destruct (decide _) as [Nl|]; [|done]. rewrite fmap_cons. apply NoDup_cons. split; [|done].
    intros (l & Q & [Nl' Il]%list_elem_of_filter)%list_elem_of_fmap. destruct (Fr l Il Nl') as [? _]. done.
Qed.

Lemma step_ok a s s' : sys_ok s -> step a s s' -> sys_ok s'.
Proof.
  intros O St. pose proof O as [C Hh N].
  destruct St as [now s Le T|draws c s c' r Nd Ld I|lease l1 l2 s c' Hl P|lease l1 l2 s Hl|i s|i s G|i t s].
  - split; cbn; [by eapply cache_ok_later| |done]. intros l Il Nl. destruct (Hh l Il Nl) as (c & t0 & L & A). exists c, t0. split; [done|]. by eapply T.
  - exact (step_insert_ok draws c s c' r O Nd Ld I).
  - rewrite Hl in *. assert (R : needs_publication lease = true -> reserved lease (cache s) (clock s)) by (apply Hh; set_solver).
    split; cbn; [by eapply publish_ok| |by eapply owners_shrink]. intros l Il Nl.
    destruct (needs_publication lease) eqn:Q.
    + eapply reserved_publish; [apply Hh; [set_solver|done]| |done]. by eapply owners_apart.
    + unfold publish in P. rewrite Q in P. injection P as <-. apply Hh; [set_solver|done].
  - rewrite Hl in *. split; cbn; [by apply discard_ok| |by eapply owners_shrink]. intros l Il Nl.
    apply reserved_discard; [apply Hh; [set_solver|done]|]. intros Q. by eapply owners_apart.
  - split; cbn; [by apply begin_ok| |done]. intros l Il Nl. by apply reserved_begin, Hh.
  - split; cbn; [by apply delete_ok| |done]. intros l Il Nl. apply reserved_remove; [by apply Hh|done].
  - split; cbn; [by apply retire_ok| |done]. intros l Il Nl. by apply reserved_retire, Hh.
Qed.

Lemma steps_ok l s s' : sys_ok s -> steps l s s' -> sys_ok s'.
Proof. intros O St. induction St; [done|]. eauto using step_ok. Qed.

Lemma start_sys_ok now : sys_ok (start now).
Proof.
  split; cbn; [|by intros l ?%elem_of_nil|constructor]. split; cbn; [rewrite map_size_empty; lia|done|lia|done].
Qed.

Lemma reachable_step a s s' : reachable s -> step a s s' -> reachable s'.
Proof.
  intros (now & l & St) S1. exists now, (l ++ [a]). clear -St S1. induction St as [|b l s1 s2 s3 S12 _ IH]; cbn; [eauto using steps|]. econstructor; eauto.
Qed.

Lemma cache_reachable_ok s : reachable s -> sys_ok s.
Proof. intros (now & l & St). eapply steps_ok; [apply start_sys_ok|done]. Qed.

(** ** A candidate that a pool was given *)

(** The entry of a candidate, with a token that is still active, or a submission
    that has begun. *)
Definition kept (i : Id) (t : Token) (c : Candidate) (t0 : Z) (visible : bool) (s : CacheInner) : Prop :=
  exists e, entries s !! i = Some e /\ candidate e = c /\ created_at e = t0 /\
    (state e = StateSubmissionStarted \/ t ∈ active_retire_tokens e) /\ (visible = true -> state e <> StatePublishing).

(** The actions by which the holder of a lease gives it up, or the candidate is
    confirmed. *)
Definition gives_up (i : Id) (t : Token) (a : action) : Prop :=
  match a with
  | Remove j => j = i
  | Retire j u => j = i /\ u = t
  | Discard lease => id lease = i /\ retire_token lease = t
  | _ => False
  end.

Lemma kept_purge i t c t0 v s now : now < t0 + ttl -> kept i t c t0 v s -> kept i t c t0 v (purge_expired now s).
Proof. intros L (e & Le & Qc & Q0 & A & V). exists e. split_and!; [|done..]. apply purge_Some. split; [done|]. unfold age. lia. Qed.

Lemma kept_insert i t c t0 v s now x s' lease : now < t0 + ttl -> kept i t c t0 v s -> inserted now x s s' lease -> kept i t c t0 v s'.
Proof.
  intros L K%(kept_purge _ _ _ _ _ _ _ L) (_ & e' & E & It & N). destruct K as (e & Le & Qc & Q0 & A & V).
  destruct (decide (id lease = i)) as [<-|Ne]; [|exists e; by rewrite E, lookup_insert_ne].
  destruct (needs_publication lease); [destruct N; congruence|]. destruct N as (e0 & L0 & S0 & ->). rewrite Le in L0. injection L0 as <-.
  exists (set_tokens (active_retire_tokens e ++ [retire_token lease]) e). rewrite E, lookup_insert_eq. cbn. split_and!; try done.
  destruct A as [?|?]; [by left|right; set_solver].
Qed.

Lemma kept_discard i t c t0 v s lease : NoDup (default [] (active_retire_tokens <$> entries s !! i)) ->
  kept i t c t0 v s -> ~ (id lease = i /\ retire_token lease = t) ->
  (needs_publication lease = true -> exists now, reserved lease s now) -> kept i t c t0 v (discard_unpublished lease s).
Proof.
  intros Nd (e & Le & Qc & Q0 & A & V) N Hv. assert (K : kept i t c t0 v s) by (by exists e).
  unfold discard_unpublished. destruct (decide (id lease = i)) as [Q|Q].
  - rewrite Q, Le in *. cbn in Nd. destruct (token_index _ _) as [index|] eqn:T; [|done]. destruct (swap_removed _ _ _ T Nd) as (_ & _ & I).
    destruct (state e) eqn:S, (needs_publication lease) eqn:P; try done.
    + exfalso. destruct (Hv eq_refl) as (now & x & y & Lx & _). rewrite Q, Le in Lx. injection Lx as ->. cbn in A.
      destruct A as [?|A]; [done|]. apply list_elem_of_singleton in A. naive_solver.
    + destruct A as [?|A]; [done|]. assert (t ∈ swap_remove index (active_retire_tokens e)) as I' by (apply I; naive_solver).
      cbn [state set_tokens active_retire_tokens]. rewrite (bool_decide_eq_false_2 (swap_remove _ _ = [])), andb_false_r by (intros X; rewrite X in I'; by apply elem_of_nil in I').
      eexists. cbn. rewrite lookup_insert_eq. split; [done|]. cbn. rewrite S. split_and!; try done. by right.
    + cbn [state set_tokens active_retire_tokens]. rewrite S. rewrite (bool_decide_eq_false_2 (StateSubmissionStarted = _)) by done. cbn [andb].
      eexists. cbn. rewrite lookup_insert_eq. split; [done|]. cbn. rewrite S. split_and!; try done. by left.
  - assert (forall x, kept i t c t0 v (set_entry (id lease) x s)) by (intros x; exists e; cbn; by rewrite lookup_insert_ne).
    assert (kept i t c t0 v (mkInner (delete (id lease) (entries s)) (retired_tokens s))) by (exists e; cbn; by rewrite lookup_delete_ne).
    destruct (entries s !! id lease) as [x|]; [|done]. destruct (token_index _ _); [|done].
    destruct (state x), (needs_publication lease); try done; by destruct (_ && _).
Qed.

Lemma kept_publish {E : Type} i t c t0 v s s' lease now : (needs_publication lease = true -> reserved lease s now) ->
  kept i t c t0 v s -> publish (E:=E) lease s = Ok s' ->
  kept i t c t0 (v || (needs_publication lease && bool_decide (id lease = i))) s'.
Proof.
  intros R (e & Le & Qc & Q0 & A & V) P. destruct (publish_reserved (E:=E) lease s now R) as (x & Px & H). rewrite P in Px. injection Px as <-.
  destruct (needs_publication lease); cbn [andb]; [|subst; rewrite orb_false_r; by exists e].
  destruct H as (x & Lx & Qx & ->). destruct (decide (id lease = i)) as [<-|Ne].
  - rewrite Le in Lx. injection Lx as <-. exists (set_state StatePublished e). cbn. rewrite lookup_insert_eq. split_and!; try done.
    destruct A as [?|?]; [congruence|by right].
  - rewrite bool_decide_eq_false_2, orb_false_r by done. exists e. cbn. by rewrite lookup_insert_ne.
Qed.

Lemma kept_begin i t c t0 v j s now : now < t0 + ttl -> kept i t c t0 v s -> kept i t c t0 v (begin_submission_at j now s).1.
Proof.
  intros L (e & Le & Qc & Q0 & A & V). unfold begin_submission_at. destruct (decide (j = i)) as [->|Ne].
  - rewrite Le. destruct (Z.leb_spec ttl (age now (created_at e))); [unfold age in *; lia|]. destruct (decide _); [by exists e|].
    eexists. cbn. rewrite lookup_insert_eq. split; [done|]. cbn. split_and!; try done. by left.
  - exists e. destruct (entries s !! j) as [x|]; [|done]. destruct (ttl <=? _).
    + destruct (expire_entry_spec now j s) as (E & _). cbn [fst]. by rewrite E, lookup_delete_ne.
    + destruct (decide _); [done|]. cbn. by rewrite lookup_insert_ne.
Qed.

Lemma kept_retire i t c t0 v j u s now : NoDup (default [] (active_retire_tokens <$> entries s !! i)) -> now < t0 + ttl -> ~ (j = i /\ u = t) ->
  kept i t c t0 v s -> kept i t c t0 v (retire j u now s).1.
Proof.
  intros Nd L N K. assert (Nd' : NoDup (default [] (active_retire_tokens <$> entries (purge_expired now s) !! i))).
  { rewrite purge_entries. destruct (entries s !! i); [|done]. destruct (decide _); [constructor|done]. }
  apply (kept_purge _ _ _ _ _ _ _ L) in K. unfold retire. set (p := purge_expired now s) in *.
  destruct (contains_retired_token _ _ _); [done|]. destruct K as (e & Le & Qc & Q0 & A & V). assert (K : kept i t c t0 v p) by (by exists e).
  destruct (entries p !! j) as [x|] eqn:Lx; [|done]. destruct (token_index _ _) as [index|] eqn:T; [|done].
  destruct (state x) eqn:S; try done. cbn [fst]. destruct (decide (j = i)) as [->|Ne].
  - rewrite Le in Lx. injection Lx as <-. rewrite Le in Nd'. cbn in Nd'. destruct (swap_removed _ _ _ T Nd') as (_ & _ & I).
    destruct A as [?|A]; [congruence|]. assert (I' : t ∈ swap_remove index (active_retire_tokens e)) by (apply I; naive_solver).
    rewrite decide_False by (intros X; rewrite X in I'; by apply elem_of_nil in I').
    eexists. rewrite remember_entries. cbn. rewrite lookup_insert_eq. split; [done|]. cbn. rewrite S. split_and!; try done. by right.
  - exists e. rewrite remember_entries. destruct (decide _); cbn; [by rewrite lookup_delete_ne|by rewrite lookup_insert_ne].
Qed.

Lemma kept_step i t c t0 v a s s' : sys_ok s -> step a s s' -> clock s' < t0 + ttl -> ~ gives_up i t a -> kept i t c t0 v (cache s) ->
  kept i t c t0 (v || match a with Publish lease => needs_publication lease && bool_decide (id lease = i) | _ => false end) (cache s').
Proof.
  intros [C Hh N] St L G K. assert (Nd : NoDup (default [] (active_retire_tokens <$> entries (cache s) !! i))).
  { destruct (entries (cache s) !! i) as [e|] eqn:Le; [|constructor]. cbn. apply (e_distinct _ _ _ (c_entries _ _ C _ _ Le)). }
  destruct St as [now s Le T|draws x s c' r Nr Ld I|lease l1 l2 s c' Hl P|lease l1 l2 s Hl|j s|j s Gr|j u s]; cbn [cache clock] in *; rewrite ?orb_false_r.
  - done.
  - destruct (reserve_ok draws x _ _ C Nr Ld) as (y & z & X & _ & R). rewrite I in X. injection X as <- <-.
    destruct r; [by eapply kept_insert|subst; by apply kept_purge|done].
  - eapply kept_publish; [|done..]. apply Hh. rewrite Hl. set_solver.
  - apply kept_discard; [done..|]. intros Q. exists (clock s). apply Hh; [rewrite Hl; set_solver|done].
  - by apply kept_begin.
  - destruct K as (e & Le & K). exists e. cbn. rewrite lookup_delete_ne; [done|]. by intros ->; apply G.
  - by apply kept_retire.
Qed.

Lemma clock_grows l s s' : steps l s s' -> clock s <= clock s'.
Proof. induction 1 as [|a l s1 s2 s3 St _ IH]; [lia|]. destruct St; cbn in *; lia. Qed.

Lemma kept_steps i t c t0 l s s' : forall v, sys_ok s -> steps l s s' -> clock s' < t0 + ttl -> (forall a, a ∈ l -> ~ gives_up i t a) ->
  kept i t c t0 v (cache s) ->
  (v = true \/ exists lease, id lease = i /\ needs_publication lease = true /\ Publish lease ∈ l) -> kept i t c t0 true (cache s').
Proof.
  intros v O St. revert v O. induction St as [|a l s1 s2 s3 St Sts IH]; intros v O L G K V.
  - destruct V as [->|(lease & _ & _ & I)]; [done|by apply elem_of_nil in I].
  - pose proof (clock_grows _ _ _ Sts) as Le. eapply IH; [by eapply step_ok|done|intros; apply G; by right| |].
    + eapply kept_step; [done|done|lia|apply G; by left|done].
    + destruct V as [->|(lease & Q & Np & [<-|I]%elem_of_cons)]; [by left| |right; eauto].
      left. rewrite Np, bool_decide_eq_true_2 by done. by destruct v.
Qed.

Lemma kept_found i t c t0 s now : now < t0 + ttl -> kept i t c t0 true s -> (begin_submission_at i now s).2 = Ok c.
Proof.
  intros L (e & Le & Qc & Q0 & _ & V). unfold begin_submission_at. rewrite Le. destruct (Z.leb_spec ttl (age now (created_at e))); [unfold age in *; lia|].
  rewrite decide_False by (by apply V). cbn. by rewrite Qc.
Qed.

(** ** Theorems *)


(** C15: a candidate that was handed out stays: until its lifetime is over, whatever
    other calls do in between, a submission finds exactly this candidate, unless
    its holder retired or discarded the lease, or the block was confirmed.  In
    particular no other pool can make the cache forget it, and a full cache
    refuses new candidates instead of dropping old ones. *)
Theorem issued_work_retained s draws c c' lease : reachable s -> NoDup draws ->
  (AUX_BLOCK_MAX_ACTIVE_LEASES + AUX_BLOCK_RETIRED_TOKEN_CAPACITY < length draws)%nat ->
  insert_at draws c (clock s) (cache s) = Some (c', Ok lease) ->
  exists e, entries c' !! candidate_hash c = Some e /\ candidate_hash (candidate e) = candidate_hash c /\
    (needs_publication lease = true -> candidate e = c /\ created_at e = clock s) /\
    forall l s', steps l (mkSys c' (clock s) (lease :: held s)) s' -> clock s' < created_at e + ttl ->
      (forall a, a ∈ l -> ~ gives_up (candidate_hash c) (retire_token lease) a) -> (needs_publication lease = true -> Publish lease ∈ l) ->
      (begin_submission_at (candidate_hash c) (clock s') (cache s')).2 = Ok (candidate e).
Proof.
  intros O%cache_reachable_ok Nd Ld I. pose proof (step_insert_ok _ _ _ _ _ O Nd Ld I) as O'. destruct (reserve_ok draws c _ _ (s_cache _ O) Nd Ld) as (x & y & X & _ & R).
  rewrite I in X. injection X as <- <-. pose proof R as (Qi & e & E & It & Q). rewrite <- Qi. exists e.
  assert (Le : entries c' !! id lease = Some e) by (by rewrite E, lookup_insert_eq).
  split_and!; [done|exact (e_hash _ _ _ (c_entries _ _ (s_cache _ O') _ _ Le))|by intros Np; rewrite Np in Q; destruct Q as [_ ->]|].
  intros l s' St L G P. apply (kept_found _ (retire_token lease) _ (created_at e)); [done|].
  apply (kept_steps _ _ _ _ l _ _ (negb (needs_publication lease)) O' St); [done..| |].
  - exists e. cbn [cache]. split_and!; [done..|by right|]. destruct (needs_publication lease); [done|]. destruct Q as (e0 & _ & ? & ->). by cbn.
  - destruct (needs_publication lease) eqn:Np; [right; by eexists; eauto|by left].
Qed.

(** ** A submission that has begun *)

Definition started (i : Id) (c : Candidate) (t0 : Z) (s : CacheInner) : Prop :=
  exists e, entries s !! i = Some e /\ candidate e = c /\ created_at e = t0 /\ state e = StateSubmissionStarted.

Lemma started_purge i c t0 s now : now < t0 + ttl -> started i c t0 s -> started i c t0 (purge_expired now s).
Proof. intros L (e & Le & Qc & Q0 & S). exists e. split_and!; [|done..]. apply purge_Some. split; [done|]. unfold age. lia. Qed.

Lemma started_discard i c t0 s lease : started i c t0 s -> started i c t0 (discard_unpublished lease s).
Proof.
  intros (e & Le & Qc & Q0 & S). assert (K : started i c t0 s) by (by exists e). unfold discard_unpublished.
  destruct (decide (id lease = i)) as [Q|Q].
  - rewrite Q, Le. destruct (token_index _ _); [|done]. rewrite S. destruct (needs_publication lease); [done|]. cbn [state set_tokens].
    rewrite S, (bool_decide_eq_false_2 (StateSubmissionStarted = _)) by done. cbn [andb]. eexists. cbn. rewrite lookup_insert_eq. split; [done|]. by cbn.
  - assert (forall x, started i c t0 (set_entry (id lease) x s)) by (intros x; exists e; cbn; by rewrite lookup_insert_ne).
    assert (started i c t0 (mkInner (delete (id lease) (entries s)) (retired_tokens s))) by (exists e; cbn; by rewrite lookup_delete_ne).
    destruct (entries s !! id lease) as [x|]; [|done]. destruct (token_index _ _); [|done].
    destruct (state x), (needs_publication lease); try done; by destruct (_ && _).
Qed.

Lemma started_begin i c t0 s j now : now < t0 + ttl -> started i c t0 s -> started i c t0 (begin_submission_at j now s).1.
Proof.
  intros L (e & Le & Qc & Q0 & S). unfold begin_submission_at. destruct (decide (j = i)) as [->|Ne].
  - rewrite Le. destruct (Z.leb_spec ttl (age now (created_at e))); [unfold age in *; lia|]. destruct (decide _); [by exists e|].
    eexists. cbn. rewrite lookup_insert_eq. split; [done|]. by cbn.
  - exists e. destruct (entries s !! j) as [x|]; [|done]. destruct (ttl <=? _).
    + destruct (expire_entry_spec now j s) as (E & _). cbn [fst]. by rewrite E, lookup_delete_ne.
    + destruct (decide _); [done|]. cbn. by rewrite lookup_insert_ne.
Qed.

Lemma started_retire i c t0 s j u now : now < t0 + ttl -> started i c t0 s ->
  started i c t0 (retire j u now s).1 /\ (j = i -> (retire j u now s).2 <> Ok Retired).
Proof.
  intros L K%(started_purge _ _ _ _ _ L). unfold retire. set (p := purge_expired now s) in *.
  destruct (contains_retired_token _ _ _); [done|]. destruct K as (e & Le & Qc & Q0 & S). assert (K : started i c t0 p) by (by exists e).
  destruct (entries p !! j) as [x|] eqn:Lx; [|done]. destruct (token_index _ _) as [index|]; [|done].
  destruct (state x) eqn:Sx; try done. assert (Ne : j <> i) by congruence. split; [|done]. cbn [fst].
  exists e. rewrite remember_entries. destruct (decide _); cbn; [by rewrite lookup_delete_ne|by rewrite lookup_insert_ne].
Qed.

Lemma started_step i c t0 a s s' : sys_ok s -> step a s s' -> clock s' < t0 + ttl -> a <> Remove i -> started i c t0 (cache s) -> started i c t0 (cache s').
Proof.
  intros [C Hh N] St L G K. destruct St as [now s Le T|draws x s c' r Nr Ld I|lease l1 l2 s c' Hl P|lease l1 l2 s Hl|j s|j s Gr|j u s]; cbn [cache clock] in *.
  - done.
  - destruct (reserve_ok draws x _ _ C Nr Ld) as (y & z & X & _ & R). rewrite I in X. injection X as <- <-.
    apply (started_purge _ _ _ _ _ L) in K. destruct r as [lease| |]; [|by subst|done]. destruct K as (e & Le & Qc & Q0 & S), R as (_ & e' & E & _ & Q).
    destruct (decide (id lease = i)) as [<-|Ne]; [|exists e; by rewrite E, lookup_insert_ne].
    destruct (needs_publication lease); [destruct Q; congruence|]. destruct Q as (e0 & L0 & _ & ->). exists (set_tokens (active_retire_tokens e0 ++ [retire_token lease]) e0).
    rewrite E, lookup_insert_eq. rewrite Le in L0. injection L0 as <-. done.
  - destruct (publish_reserved (E:=Empty_set) lease (cache s) (clock s)) as (x & Px & R); [apply Hh; rewrite Hl; set_solver|]. rewrite P in Px. injection Px as <-.
    destruct (needs_publication lease); [|by subst]. destruct R as (x & Lx & Sx & ->), K as (e & Le & Qc & Q0 & S). exists e. cbn. rewrite lookup_insert_ne; [done|congruence].
  - by apply started_discard.
  - by apply started_begin.
  - destruct K as (e & Le & K). exists e. cbn. rewrite lookup_delete_ne; [done|congruence].
  - by apply started_retire.
Qed.

Lemma started_steps i c t0 l s s' : steps l s s' -> sys_ok s -> clock s' < t0 + ttl -> Remove i ∉ l -> started i c t0 (cache s) -> started i c t0 (cache s').
Proof.
  induction 1 as [|a l s1 s2 s3 St Sts IH]; intros O L N K; [done|]. pose proof (clock_grows _ _ _ Sts). apply not_elem_of_cons in N as [Na Nl].
  apply IH; [by eapply step_ok|done..|]. eapply started_step; [done|done|lia|congruence|done].
Qed.

(** From the begin of a submission to the end of its lifetime a candidate is only
    removed by its confirmation: no retirement takes it away. *)
Theorem submission_protected s i c c' : reachable s -> begin_submission_at i (clock s) (cache s) = (c', Ok c) ->
  exists e, entries (cache s) !! i = Some e /\ forall l s', steps l (mkSys c' (clock s) (held s)) s' -> clock s' < created_at e + ttl -> Remove i ∉ l ->
    (begin_submission_at i (clock s') (cache s')).2 = Ok c /\ forall t, (retire i t (clock s') (cache s')).2 <> Ok Retired.
Proof.
  intros O%cache_reachable_ok B. assert (O' : sys_ok (mkSys c' (clock s) (held s))) by (pose proof (step_ok (Begin i) s _ O (step_begin i s)) as X; by rewrite B in X).
  unfold begin_submission_at in B. destruct (entries (cache s) !! i) as [e|] eqn:Le; [|done]. exists e. split; [done|].
  destruct (ttl <=? _); [done|]. destruct (decide _); [done|]. injection B as <- <-.
  assert (K : started i (candidate e) (created_at e) (set_entry i (set_state StateSubmissionStarted e) (cache s))) by (eexists; cbn; rewrite lookup_insert_eq; split; [done|by cbn]).
  intros l s' St L N. pose proof (started_steps _ _ _ _ _ _ St O' L N K) as K'.
  split; [|intros t; by apply (started_retire _ _ _ _ i t _ L K')].
  destruct K' as (x & Lx & <- & Q0 & S). unfold begin_submission_at. rewrite Lx. destruct (Z.leb_spec ttl (age (clock s') (created_at x))); [unfold age in *; lia|].
  by rewrite decide_False by congruence.
Qed.
End Entries.
End Cache.
Import Cache.

(** ** A cache with one candidate *)

Definition example_draws : list Token := (fun n => to_le 1 (Z.of_nat n)) <$> seq 0 81.
Definition same_id (c : list byte) : Id := c.
Definition example_candidate : list byte := [Byte.x07].
Definition example_lease : CandidateLease := mkLease example_candidate (to_le 1 0) true.
Definition example_reserved : CacheInner (Candidate := list byte) :=
  mkInner (<[example_candidate := mkEntry example_candidate 0 [to_le 1 0] StatePublishing]> ∅) [].

Lemma example_draws_ok : NoDup example_draws /\ (AUX_BLOCK_MAX_ACTIVE_LEASES + AUX_BLOCK_RETIRED_TOKEN_CAPACITY < length example_draws)%nat.
Proof. split; [by apply (bool_decide_unpack _); vm_compute|]. unfold example_draws. rewrite length_fmap, length_seq. unfold AUX_BLOCK_MAX_ACTIVE_LEASES, AUX_BLOCK_RETIRED_TOKEN_CAPACITY. lia. Qed.

Lemma example_start_reachable : reachable same_id 16 AUX_BLOCK_CACHE_TTL (start 0).
Proof. exists 0, []. constructor. Qed.


Lemma example_inserted : insert_at same_id 16 AUX_BLOCK_CACHE_TTL example_draws example_candidate 0 (cache (start 0)) = Some (example_reserved, Ok example_lease).
Proof. vm_compute. reflexivity. Qed.

(** The candidate is published, another pool tries to retire it with a wrong token,
    and 599 seconds later a submission finds it. *)
Definition example_actions : list (action (Candidate := list byte)) :=
  [Publish example_lease; Retire example_candidate [Byte.xff]; Tick 599].

Lemma example_steps : exists s', steps same_id 16 AUX_BLOCK_CACHE_TTL example_actions (mkSys example_reserved 0 [example_lease]) s' /\ clock s' = 599.
Proof.
  eexists. split; [eapply steps_cons; [by apply (step_publish _ _ _ example_lease [] [])|]; eapply steps_cons; [apply step_retire|];
    eapply steps_cons; [|apply steps_nil]; apply step_tick; [by cbn|by intros ? ? ? ?%elem_of_nil]|done].
Qed.

Lemma issued_work_retained_witness :
  exists s', steps same_id 16 AUX_BLOCK_CACHE_TTL example_actions (mkSys example_reserved 0 [example_lease]) s' /\
    (begin_submission_at AUX_BLOCK_CACHE_TTL example_candidate (clock s') (cache s')).2 = Ok example_candidate.
Proof.
  destruct (issued_work_retained same_id 16 AUX_BLOCK_CACHE_TTL ltac:(done) (start 0) example_draws example_candidate example_reserved example_lease
    example_start_reachable (proj1 example_draws_ok) (proj2 example_draws_ok) example_inserted) as (e & Le & _ & Q & K).
  destruct (Q eq_refl) as [Qc Qt]. cbn in Qc, Qt. destruct example_steps as (s' & St & Cl). exists s'. split; [exact St|]. rewrite <- Qc at 2. apply (K _ _ St).
  - rewrite Qt, Cl. by cbn.
  - intros a. unfold example_actions. rewrite !elem_of_cons. intros [->|[->|[->|?%elem_of_nil]]]; [by intros []| |by intros []|done]. intros [_ X]. by vm_compute in X.
  - intros _. left.
Defined.
