(* ===== verification/AuxRpc.v ===== *)
(** * The AuxPoW mining requests

    The handlers [create_aux_block], [retire_aux_block], [get_aux_block_status] and
    [submit_aux_block] of [zebra-rpc/src/methods.rs], with
    [zebra-rpc/src/methods/wcash_aux_candidate.rs] and the classifications of
    [zebra-rpc/src/methods/wcash_aux_block.rs].

    A handler is a program of type [Rpc]: it asks the services it depends on (the
    template path, the chain tip, the block verifier, the state) and the candidate
    cache, and continues with the answer.  Other handlers run between two
    questions.  The answers of the services are arbitrary; those of the cache are
    given by [Cache].  Hexadecimal, addresses and the parts of a transaction are
    parameters.  Errors have the code and the fixed part of the message. *)

From S2P Require Import Prelude Amounts Emission Difficulty Networks Subsidies AuxCodec AuxMerkle AuxProof HeaderCodec AuxCandidates.
Import Network.
Import Solution(Solution, Common, Regtest, WcashAux).
Import Header(Header, version, previous_block_hash, difficulty_threshold, solution).
Import BlockCodec(Block, mkBlock, header, transactions).
Import Cache(Id, Token, CandidateLease, CandidateInsertError, CandidateLookupError, CandidateRetirement, CandidateRetirementError).
Import BlockId.

Record RpcError := mkError { code : Z; message : string }.

(** The codes of JSON-RPC, and those of the requests. *)
Definition InternalError : Z := -32603.
Definition InvalidParams : Z := -32602.
Definition InvalidRequest : Z := -32600.
Definition WCASH_AUX_TIP_CHANGED_ERROR_CODE : Z := -32001.
Definition AUX_BLOCK_CACHE_FULL_ERROR_CODE : Z := -32002.

(** [CandidateInsertError::into_rpc_error]. *)
Definition into_rpc_error (e : CandidateInsertError) : RpcError :=
  match e with
  | Cache.Full => mkError AUX_BLOCK_CACHE_FULL_ERROR_CODE "Wcash auxiliary candidate cache is full of active jobs; retire unused owned candidates or retry with backoff"
  | Cache.Publishing => mkError InternalError "the same Wcash auxiliary candidate is being published concurrently; retry createauxblock"
  end.

(** ** Errors of the verifier *)

Inductive BlockError := AlreadyInChain | InvalidWcashAuxPow | OtherBlockError.
Inductive VerifyBlockError := VerifyBlockSource (source : BlockError) | VerifyCommit (duplicate : bool) | OtherVerifyBlockError.
Inductive VerifyCheckpointError :=
| AlreadyVerified | NewerRequest | VerifyBlock (e : VerifyBlockError) | CommitCheckpointVerified (duplicate : bool) | OtherCheckpointError.
Inductive RouterError := RouterCheckpoint (source : VerifyCheckpointError) | RouterBlock (source : VerifyBlockError).

(** What a boxed error can be downcast to. *)
Inductive BoxError := BoxRouter (e : RouterError) | BoxVerify (e : VerifyBlockError) | OtherBoxError.

(** [VerifyBlockError::is_duplicate_request],
    [VerifyCheckpointError::is_duplicate_request] and
    [RouterError::is_duplicate_request]. *)
Definition verify_is_duplicate (e : VerifyBlockError) : bool :=
  match e with
  | VerifyBlockSource AlreadyInChain => true
  | VerifyBlockSource _ => false
  | VerifyCommit duplicate => duplicate
  | OtherVerifyBlockError => false
  end.
Definition checkpoint_is_duplicate (e : VerifyCheckpointError) : bool :=
  match e with
  | AlreadyVerified | NewerRequest => true
  | VerifyBlock e => verify_is_duplicate e
  | CommitCheckpointVerified duplicate => duplicate
  | OtherCheckpointError => false
  end.
Definition router_is_duplicate (e : RouterError) : bool :=
  match e with RouterCheckpoint source => checkpoint_is_duplicate source | RouterBlock source => verify_is_duplicate source end.

(** [is_duplicate_wcash_aux_proposal_error]. *)
Definition is_duplicate_wcash_aux_proposal_error (e : BoxError) : bool :=
  match e with BoxRouter e => router_is_duplicate e | BoxVerify e => verify_is_duplicate e | OtherBoxError => false end.

(** [is_invalid_wcash_auxpow]. *)
Definition invalid_block (e : VerifyBlockError) : bool :=
  match e with VerifyBlockSource InvalidWcashAuxPow => true | _ => false end.
Definition is_invalid_wcash_auxpow (e : RouterError) : bool :=
  match e with
  | RouterBlock source => invalid_block source
  | RouterCheckpoint (VerifyBlock e) => invalid_block e
  | RouterCheckpoint _ => false
  end.
Definition box_is_invalid_wcash_auxpow (e : BoxError) : bool :=
  match e with BoxRouter e => is_invalid_wcash_auxpow e | _ => false end.

(** ** States of a submitted block *)

Inductive KnownBlock := Finalized | KnownBestChain | KnownSideChain | WriteChannel | Queue.
Inductive CandidateChainState := ChainBest | ChainSide | ChainPending | ChainUnknown.

(** [impl From<Option<KnownBlock>> for CandidateChainState] and
    [CandidateChainState::committed]. *)
Definition chain_state_from (location : option KnownBlock) : CandidateChainState :=
  match location with
  | Some (Finalized | KnownBestChain) => ChainBest
  | Some KnownSideChain => ChainSide
  | Some (WriteChannel | Queue) => ChainPending
  | None => ChainUnknown
  end.
Definition chain_state_committed (is_best_chain : bool) : CandidateChainState := if is_best_chain then ChainBest else ChainSide.

(** [maximum_completed_block_size]. *)
Definition maximum_completed_block_size (proof_free_block_size : Z) : option Z :=
  size ← usize_checked (proof_free_block_size - 1);
  usize_checked (size + Solution.WCASH_MAX_SERIALIZED_SIZE).

Section Handlers.
Context `{CB : ConsensusBuild} {CC : Subsidy.ChainConstants} {FE : Foundation.FoundationEnv} {HH : Hashes}.
Context {Tx : Type} (tx_serialize : Tx -> list byte) (coinbase_height : list Tx -> option Z).
Notation Blk := (Block (Tx := Tx)).

(** [block::Hash::from_hex], the payout addresses and the configured one. *)
Context {Address : Type} `{!EqDecision Address}.
Context (parse_hash : string -> option Id) (parse_address : string -> option Address) (configured_payout : option Address).
Context (network : Network).

Inductive CandidateSubmissionState := SubmissionBest (b : Blk) | SubmissionSide | ConflictingWitness | SubmissionPending | SubmissionUnknown.

(** [has_exact_wcash_witness] and [classify_committed_wcash_submission]. *)
Definition has_exact_wcash_witness (b : Blk) (witness : list byte) : bool :=
  match Solution.as_wcash (solution (header b)) with Some committed => bool_decide (committed = witness) | None => false end.
Definition classify_committed_wcash_submission (b : Blk) (witness : list byte) (is_best_chain : bool) : CandidateSubmissionState :=
  if negb (has_exact_wcash_witness b witness) then ConflictingWitness
  else if is_best_chain then SubmissionBest b else SubmissionSide.

(** ** Programs *)

(** The template that [get_block_template] gives, with the block that
    [proposal_block_from_template] makes of it. *)
Record Template := mkTemplate {
  template_height : Z;
  template_fees : list (Amount.Amount Amount.NonNegative);
  template_block : option Blk;
  long_poll_id : list byte;
}.
Inductive TemplateAnswer := TemplateReady (t : Template) | TemplatePending | TemplateFailed (e : RpcError) | TemplateProposal.
Inductive VerifierAnswer := VerifierTimeout | Verified (hash : Id) | Rejected (e : BoxError).

(** The questions that a handler asks, with the type of the answer; a state request
    that fails, or whose answer has the wrong kind, has an error. *)
Inductive Call : Type -> Type :=
| GetBlockTemplate (payout : Address) (configured : bool) : Call TemplateAnswer
| RandomNonce : Call (option (list byte))
| BestTipHash : Call (option Id)
| CheckProposal (b : Blk) : Call VerifierAnswer
| Commit (b : Blk) : Call VerifierAnswer
| InsertCandidate (b : Blk) : Call (outcome CandidateInsertError CandidateLease)
| DiscardUnpublished (lease : CandidateLease) : Call unit
| PublishCandidate (lease : CandidateLease) : Call unit
| BeginSubmission (i : Id) : Call (outcome CandidateLookupError Blk)
| RemoveCandidate (i : Id) : Call unit
| RetireCandidate (i : Id) (t : Token) : Call (outcome CandidateRetirementError CandidateRetirement)
| ReadBlockAndDepth (i : Id) : Call (outcome RpcError (option (Blk * Z)))
| ReadAnyChainBlock (i : Id) : Call (outcome RpcError (option Blk))
| ReadAnyChainTransactionIds (i : Id) : Call (outcome RpcError (option bool))
| ReadKnownBlock (i : Id) : Call (outcome RpcError (option KnownBlock))
| AdvertiseMinedBlock (i : Id) (height : Z) : Call (outcome RpcError unit)
| PrewarmAuxiliaryCoinbase (height : Z) (fees : Amount.Amount Amount.NonNegative) : Call unit.

Inductive Rpc (A : Type) : Type :=
| Done (r : outcome RpcError A)
| Ask {X : Type} (c : Call X) (k : X -> Rpc A).
Arguments Done {A}.
Arguments Ask {A X}.

(** Sequencing: an error ends the handler. *)
Fixpoint bind {A B : Type} (p : Rpc A) (f : A -> Rpc B) : Rpc B :=
  match p with
  | Done (Ok a) => f a
  | Done (Err e) => Done (Err e)
  | Done Panic => Done Panic
  | Ask c k => Ask c (fun x => bind (k x) f)
  end.
Definition ask {X : Type} (c : Call X) : Rpc X := Ask c (fun x => Done (Ok x)).
Definition ask_ok {X : Type} (c : Call (outcome RpcError X)) : Rpc X := Ask c (fun x => Done x).
Definition lift {A : Type} (r : outcome RpcError A) : Rpc A := Done r.
Definition fail {A : Type} (code : Z) (message : string) : Rpc A := Done (Err (mkError code message)).
Definition unless {A : Type} (b : bool) (code : Z) (message : string) (p : Rpc A) : Rpc A := if b then p else fail code message.
Notation "'run!' x := p 'in' q" := (bind p (fun x => q)) (at level 200, x name, p at level 100, q at level 200).

(** An error of another kind, with its code. *)
Definition or_error {E A : Type} (code : Z) (message : string) (m : outcome E A) : Rpc A := lift (map_err (fun _ => mkError code message) m).
Definition some_or {A : Type} (code : Z) (message : string) (o : option A) : Rpc A := lift (ok_or o (mkError code message)).

(** ** Candidates *)

Definition tip_changed : Z := WCASH_AUX_TIP_CHANGED_ERROR_CODE.

Definition set_header (h : Header) (b : Blk) : Blk := mkBlock h (transactions b).
Definition set_nonce (nonce : list byte) (h : Header) : Header :=
  Header.mkHeader (version h) (previous_block_hash h) (Header.merkle_root h) (Header.commitment_bytes h) (Header.time h)
    (difficulty_threshold h) nonce (solution h).

(** [Block::hash]. *)
Definition block_hash (b : Blk) : outcome RpcError Id := header_hash (header b).

(** [wcash_aux_candidate::from_template]. *)
Definition from_template (template : Template) : Rpc Blk :=
  run! candidate := some_or InternalError "failed to construct Wcash auxiliary block" (template_block template) in
  run! nonce := ask RandomNonce in
  run! nonce := some_or InternalError "operating system randomness unavailable for Wcash auxiliary candidate" nonce in
  lift (Ok (set_header (set_nonce nonce (header candidate)) candidate)).

(** The sum of the fees of a template. *)
Fixpoint total_fees (total : Amount.Amount Amount.NonNegative) (fees : list (Amount.Amount Amount.NonNegative)) :
    outcome Amount.Error (Amount.Amount Amount.NonNegative) :=
  match fees with
  | [] => Ok total
  | fee :: fees => let? total := Amount.add total fee in total_fees total fees
  end.

(** The value that a template pays to the miner, with the fees. *)
Definition coinbase_value (height : Z) (template : Template) : Rpc (Z * Amount.Amount Amount.NonNegative) :=
  run! zero := lift (Amount.zero Amount.NonNegative) in
  run! tx_fees := or_error InternalError "failed to total Wcash candidate transaction fees" (total_fees zero (template_fees template)) in
  run! subsidy := or_error InternalError "failed to calculate Wcash block subsidy" (Subsidy.block_subsidy height network) in
  run! miner := or_error InternalError "failed to calculate Wcash miner subsidy" (Foundation.miner_subsidy height network subsidy) in
  run! value := or_error InternalError "Wcash coinbase value is out of range" (Amount.add miner tx_fees) in
  lift (Ok (Amount.zatoshis value, tx_fees)).

(** The tip is read again. *)
Definition tip_is {A : Type} (expected_tip : Id) (message : string) (p : Rpc A) : Rpc A :=
  run! tip := ask BestTipHash in
  unless (bool_decide (tip = Some expected_tip)) tip_changed message p.

(** The proposal check of [create_aux_block]. *)
Definition validate_proposal (candidate : Blk) (expected_tip : Id) : Rpc Id :=
  run! answer := ask (CheckProposal candidate) in
  match answer with
  | VerifierTimeout => fail tip_changed "Wcash candidate proposal validation timed out; retry createauxblock"
  | Verified validated_hash => lift (Ok validated_hash)
  | Rejected error =>
      if is_duplicate_wcash_aux_proposal_error error
      then fail tip_changed "Wcash candidate was accepted during proposal validation; retry createauxblock"
      else tip_is expected_tip "Wcash tip changed during proposal validation; retry createauxblock"
             (fail InternalError "generated Wcash candidate failed proposal validation")
  end.

(** The bytes of a candidate that is proof-free and leaves room for any witness. *)
Definition proof_free_data (candidate : Blk) : Rpc (list byte) :=
  unless (match Solution.as_wcash (solution (header candidate)) with Some witness => bool_decide (witness = []) | None => false end
          && (Solution.serialized_len (solution (header candidate)) =? 1))
    InternalError "generated Wcash auxiliary candidate is not proof-free"
  (run! candidate_data := or_error InternalError "failed to serialize Wcash auxiliary block" (BlockCodec.block_serialize tx_serialize candidate) in
   run! maximum_completed_size := some_or InternalError "Wcash auxiliary block size calculation overflowed"
     (maximum_completed_block_size (len candidate_data)) in
   unless (negb (maximum_completed_size >? MAX_BLOCK_BYTES))
     InternalError "Wcash auxiliary candidate leaves insufficient space for its AuxPoW witness"
   (lift (Ok candidate_data))).

Record CreateAuxBlockResponse := mkCreated {
  response_hash : Id;
  response_retire_token : Token;
  response_data : list byte;
  response_chain_id : Z;
  response_previous_block_hash : Id;
  response_coinbase_value : Z;
  response_target : Z;
  response_bits : Z;
  response_height : Z;
  response_long_poll_id : list byte;
}.

(** The insertion of a candidate and its publication. *)
Definition publish_candidate {A : Type} (candidate : Blk) (expected_tip : Id) (k : CandidateLease -> Rpc A) : Rpc A :=
  run! inserted := ask (InsertCandidate candidate) in
  run! lease := lift (map_err into_rpc_error inserted) in
  run! tip := ask BestTipHash in
  if negb (bool_decide (tip = Some expected_tip)) then
    run! _ := ask (DiscardUnpublished lease) in
    fail tip_changed "Wcash tip changed while publishing the candidate; retry createauxblock"
  else
    run! _ := ask (PublishCandidate lease) in
    k lease.

(** The part of [create_aux_block] after the template. *)
Definition create_from_template (template : Template) (uses_configured_payout : bool) : Rpc CreateAuxBlockResponse :=
  let height := template_height template in
  run! values := coinbase_value height template in
  run! candidate := from_template template in
  run! hash := lift (block_hash candidate) in
  run! candidate_height := some_or InternalError "candidate coinbase height not found" (coinbase_height (transactions candidate)) in
  unless (candidate_height =? height) InternalError "candidate height does not match its template"
  (let bits := difficulty_threshold (header candidate) in
   run! target := lift (CompactDifficulty.to_expanded bits) in
   run! target := some_or InternalError "candidate contains an invalid difficulty target" target in
   run! tip := ask BestTipHash in
   run! expected_tip := some_or InternalError "no Wcash chain tip is available" tip in
   unless (bool_decide (previous_block_hash (header candidate) = expected_tip)) tip_changed
     "Wcash tip changed while constructing the candidate; retry createauxblock"
   (run! validated_hash := validate_proposal candidate expected_tip in
    unless (bool_decide (validated_hash = hash)) InternalError "proposal validation returned a different Wcash block ID"
    (tip_is expected_tip "Wcash tip changed while validating the candidate; retry createauxblock"
     (run! candidate_data := proof_free_data candidate in
      tip_is expected_tip "Wcash tip changed before publishing the candidate; retry createauxblock"
      (publish_candidate candidate expected_tip (fun lease =>
       let response := mkCreated hash (Cache.retire_token lease) candidate_data WCASH_AUXILIARY_CHAIN_ID (previous_block_hash (header candidate))
         values.1 target bits height (long_poll_id template) in
       if uses_configured_payout then lift (Ok response)
       else
         run! _ := ask (PrewarmAuxiliaryCoinbase height values.2) in
         lift (Ok response))))))).

(** [create_aux_block]. *)
Definition create_aux_block (address : string) : Rpc CreateAuxBlockResponse :=
  unless (uses_wcash_consensus network) InvalidRequest "createauxblock is only available on a Wcash network"
  (run! payout := some_or InvalidParams "invalid Wcash coinbase address" (parse_address address) in
   let uses_configured_payout := bool_decide (configured_payout = Some payout) in
   run! answer := ask (GetBlockTemplate payout uses_configured_payout) in
   match answer with
   | TemplatePending => fail tip_changed "Wcash candidate construction is pending; retry createauxblock"
   | TemplateFailed e => lift (Err e)
   | TemplateProposal => fail InternalError "createauxblock unexpectedly received a proposal response"
   | TemplateReady template => create_from_template template uses_configured_payout
   end).

(** [retire_aux_block]. *)
Definition retire_aux_block (hash : string) (retire_token : Token) : Rpc CandidateRetirement :=
  unless (uses_wcash_consensus network) InvalidRequest "retireauxblock is only available on a Wcash network"
  (run! i := some_or InvalidParams "invalid Wcash auxiliary block hash" (parse_hash hash) in
   run! answer := ask (RetireCandidate i retire_token) in
   lift (map_err (fun _ => mkError InvalidParams "Wcash auxiliary candidate retirement was not authorized") answer)).

(** ** Reads of the state *)

(** [wcash_candidate_chain_state]. *)
Definition wcash_candidate_chain_state (i : Id) : Rpc CandidateChainState :=
  run! committed := ask_ok (ReadAnyChainTransactionIds i) in
  match committed with
  | Some is_best_chain => lift (Ok (chain_state_committed is_best_chain))
  | None => run! location := ask_ok (ReadKnownBlock i) in lift (Ok (chain_state_from location))
  end.

(** [wcash_submission_state_with_depth]. *)
Definition wcash_submission_state_with_depth (i : Id) (witness : list byte) : Rpc (CandidateSubmissionState * option Z) :=
  run! best := ask_ok (ReadBlockAndDepth i) in
  match best with
  | Some (b, depth) =>
      let state := classify_committed_wcash_submission b witness true in
      lift (Ok (state, match state with SubmissionBest _ => Some depth | _ => None end))
  | None =>
      run! any := ask_ok (ReadAnyChainBlock i) in
      match any with
      | Some b => lift (Ok (classify_committed_wcash_submission b witness false, None))
      | None =>
          run! location := ask_ok (ReadKnownBlock i) in
          lift (Ok (match location with Some _ => SubmissionPending | None => SubmissionUnknown end, None))
      end
  end.
Definition wcash_submission_state (i : Id) (witness : list byte) : Rpc CandidateSubmissionState :=
  run! r := wcash_submission_state_with_depth i witness in lift (Ok r.1).

(** [advertise_wcash_best_chain_block]. *)
Definition advertise_wcash_best_chain_block (expected_hash : Id) (b : Blk) : Rpc Z :=
  run! hash := lift (block_hash b) in
  unless (bool_decide (hash = expected_hash)) InternalError "read state returned a different Wcash block ID"
  (run! height := some_or InternalError "committed Wcash candidate coinbase height not found" (coinbase_height (transactions b)) in
   run! _ := ask_ok (AdvertiseMinedBlock expected_hash height) in
   lift (Ok height)).

(** The checked parameters of a request about a proof. *)
Definition checked_proof {A : Type} (request : string) (hash : string) (aux_pow : list byte) (k : Id -> Rpc A) : Rpc A :=
  unless (uses_wcash_consensus network) InvalidRequest request
  (run! i := some_or InvalidParams "invalid Wcash auxiliary block hash" (parse_hash hash) in
   run! _ := or_error InvalidParams "invalid Wcash AuxPoW encoding" (AuxPowProof.decode aux_pow) in
   k i).

Inductive GetAuxBlockStatusResponse := StatusBestChain (confirmations : Z) | StatusSideChain | StatusConflictingWitness | StatusPending | StatusUnknown.

(** [get_aux_block_status]. *)
Definition get_aux_block_status (hash : string) (aux_pow : list byte) : Rpc GetAuxBlockStatusResponse :=
  checked_proof "getauxblockstatus is only available on a Wcash network" hash aux_pow (fun i =>
  run! r := wcash_submission_state_with_depth i aux_pow in
  match r.1 with
  | SubmissionBest _ =>
      run! confirmations := some_or InternalError "Wcash best-chain confirmation count overflowed" (depth ← r.2; u32_checked (depth + 1)) in
      lift (Ok (StatusBestChain confirmations))
  | SubmissionSide => lift (Ok StatusSideChain)
  | ConflictingWitness => lift (Ok StatusConflictingWitness)
  | SubmissionPending => lift (Ok StatusPending)
  | SubmissionUnknown => lift (Ok StatusUnknown)
  end).

(** ** Submissions *)

(** The errors for a block that is not in the best chain. *)
Definition not_best {A : Type} (state : CandidateSubmissionState) (unknown : Rpc A) : Rpc A :=
  match state with
  | SubmissionSide => fail InternalError "Wcash candidate is currently committed only to a side chain; retry after the next tip update"
  | ConflictingWitness => fail InternalError "Wcash block ID is already committed with a different AuxPoW witness"
  | SubmissionPending => fail InternalError "Wcash candidate submission is still in progress; retry the same submission"
  | SubmissionBest _ | SubmissionUnknown => unknown
  end.

(** A block of the best chain is advertised, and its candidate released. *)
Definition confirm (i : Id) (height : Z) (committed : Blk) : Rpc bool :=
  run! committed_height := advertise_wcash_best_chain_block i committed in
  unless (committed_height =? height) InternalError "committed Wcash candidate height differs from its cached candidate"
  (run! _ := ask (RemoveCandidate i) in
   lift (Ok true)).

(** The end of [submit_aux_block], after the verifier. *)
Definition finish_submission (i : Id) (aux_pow : list byte) (height : Z) (verification : VerifierAnswer) : Rpc bool :=
  run! state := wcash_submission_state i aux_pow in
  match verification, state with
  | VerifierTimeout, SubmissionBest committed => confirm i height committed
  | VerifierTimeout, _ => fail InternalError "Wcash candidate verification timed out and remains inconclusive; retry the same submission"
  | Verified hash, _ =>
      unless (bool_decide (hash = i)) InternalError "Wcash consensus returned a different committed block ID"
      (match state with
       | SubmissionBest committed => confirm i height committed
       | _ => not_best state (fail InternalError "Wcash consensus completed but state has not exposed the candidate; retry the same submission")
       end)
  | Rejected _, SubmissionBest committed => confirm i height committed
  | Rejected error, _ =>
      not_best state (if box_is_invalid_wcash_auxpow error then lift (Ok false)
                      else fail InternalError "Wcash candidate submission was inconclusive; retry the same submission")
  end.

(** The candidate with the witness of a miner. *)
Definition complete (candidate : Blk) (s : Solution) : Blk := set_header (with_solution s (header candidate)) candidate.

(** A candidate that the cache does not have. *)
Definition lookup_error (e : CandidateLookupError) : RpcError :=
  mkError InternalError (match e with
    | Cache.Unknown => "Wcash auxiliary block ID is not in the local active-job cache; submission status is inconclusive"
    | Cache.Expired => "Wcash auxiliary block ID expired from the local active-job cache; submission status is inconclusive"
    end).

(** The part of [submit_aux_block] that attaches the witness and has the block
    verified. *)
Definition submit_candidate (i : Id) (aux_pow : list byte) (cached_candidate : outcome CandidateLookupError Blk) : Rpc bool :=
  run! candidate := lift (map_err lookup_error cached_candidate) in
  run! parent := wcash_candidate_chain_state (previous_block_hash (header candidate)) in
  match parent with
  | ChainPending => fail InternalError "Wcash candidate parent is still being committed; retry the same submission"
  | ChainUnknown => fail InternalError "Wcash candidate parent is not currently visible in a committed chain; retry the same submission"
  | ChainBest | ChainSide =>
      run! witness := or_error InvalidParams "invalid Wcash AuxPoW witness" (Solution.for_wcash aux_pow) in
      let completed_block := complete candidate witness in
      run! hash := lift (block_hash completed_block) in
      unless (bool_decide (hash = i)) InternalError "attaching AuxPoW changed the proof-independent Wcash block ID"
      (run! height := some_or InternalError "candidate coinbase height not found" (coinbase_height (transactions completed_block)) in
       run! verification := ask (Commit completed_block) in
       finish_submission i aux_pow height verification)
  end.

(** [submit_aux_block]. *)
Definition submit_aux_block (hash : string) (aux_pow : list byte) : Rpc bool :=
  checked_proof "submitauxblock is only available on a Wcash network" hash aux_pow (fun i =>
  run! cached_candidate := ask (BeginSubmission i) in
  run! state := wcash_submission_state i aux_pow in
  match state with
  | SubmissionBest committed =>
      run! _ := advertise_wcash_best_chain_block i committed in
      run! _ := ask (RemoveCandidate i) in
      lift (Ok true)
  | _ => not_best state (submit_candidate i aux_pow cached_candidate)
  end).

(** ** Executions *)

(** A question with its answer. *)
Inductive Event := | Ev {X : Type} (c : Call X) (x : X).

(** What a program does with some answers. *)
Fixpoint runs {A : Type} (p : Rpc A) (tr : list Event) (r : outcome RpcError A) : Prop :=
  match p with
  | Done r' => tr = [] /\ r = r'
  | Ask c k => exists x tr', tr = Ev c x :: tr' /\ runs (k x) tr' r
  end.

(** What holds at the end of every execution, after the events [pre]. *)
Fixpoint wp {A : Type} (p : Rpc A) (pre : list Event) (Q : list Event -> outcome RpcError A -> Prop) : Prop :=
  match p with
  | Done r => Q pre r
  | Ask c k => forall x, wp (k x) (pre ++ [Ev c x]) Q
  end.

Lemma wp_runs {A : Type} (p : Rpc A) Q : forall pre tr r, wp p pre Q -> runs p tr r -> Q (pre ++ tr) r.
Proof.
  induction p as [r'|X c k IH]; intros pre tr r; cbn.
  - intros H [-> ->]. by rewrite app_nil_r.
  - intros H (x & tr' & -> & R). rewrite cons_middle, app_assoc. by eapply IH.
Qed.

Lemma wp_sound {A : Type} (p : Rpc A) (Q : list Event -> outcome RpcError A -> Prop) tr r : wp p [] Q -> runs p tr r -> Q tr r.
Proof. apply wp_runs. Qed.

Lemma wp_mono {A : Type} (p : Rpc A) (Q Q' : list Event -> outcome RpcError A -> Prop) : forall pre,
  (forall tr r, Q (pre ++ tr) r -> Q' (pre ++ tr) r) -> wp p pre Q -> wp p pre Q'.
Proof.
  induction p as [r|X c k IH]; intros pre M; cbn.
  - intros H. rewrite <- (app_nil_r pre). apply M. by rewrite app_nil_r.
  - intros H x. apply IH; [|done]. intros tr r. rewrite <- !app_assoc. apply M.
Qed.

Lemma wp_bind {A B : Type} (p : Rpc A) (f : A -> Rpc B) Q : forall pre,
  wp p pre (fun pre r => match r with Ok a => wp (f a) pre Q | Err e => Q pre (Err e) | Panic => Q pre Panic end) -> wp (bind p f) pre Q.
Proof. induction p as [[a|e|]|X c k IH]; intros pre; cbn; [done..|]. intros H x. by apply IH. Qed.

(** The blocks that are given to the verifier for commitment, and the candidates
    that are released. *)
Definition commit_of (e : Event) : option Blk := match e with Ev c _ => match c with Commit b => Some b | _ => None end end.
Definition removal_of (e : Event) : option Id := match e with Ev c _ => match c with RemoveCandidate i => Some i | _ => None end end.
Definition commits (tr : list Event) : list Blk := omap commit_of tr.
Definition removals (tr : list Event) : list Id := omap removal_of tr.

Lemma commits_app tr1 tr2 : commits (tr1 ++ tr2) = commits tr1 ++ commits tr2.
Proof. apply omap_app. Qed.
Lemma removals_app tr1 tr2 : removals (tr1 ++ tr2) = removals tr1 ++ removals tr2.
Proof. apply omap_app. Qed.

(** A part of an execution that neither commits nor releases. *)
Definition quiet (tr : list Event) : Prop := commits tr = [] /\ removals tr = [].

Lemma quiet_app tr1 tr2 : quiet tr1 -> quiet tr2 -> quiet (tr1 ++ tr2).
Proof. intros [C1 R1] [C2 R2]. split; [by rewrite commits_app, C1, C2|by rewrite removals_app, R1, R2]. Qed.

(** ** Reads of the state *)

Definition unknown_reads (i : Id) : list Event :=
  [Ev (ReadBlockAndDepth i) (Ok None); Ev (ReadAnyChainBlock i) (Ok None); Ev (ReadKnownBlock i) (Ok None)].

(** What a read of the submission state means. *)
Definition state_read (i : Id) (witness : list byte) (tr : list Event) (r : outcome RpcError CandidateSubmissionState) : Prop :=
  match r with
  | Ok (SubmissionBest b) => has_exact_wcash_witness b witness = true /\ exists depth, tr = [Ev (ReadBlockAndDepth i) (Ok (Some (b, depth)))]
  | Ok SubmissionUnknown => tr = unknown_reads i
  | _ => quiet tr
  end.

Lemma state_read_quiet i w tr r : state_read i w tr r -> quiet tr.
Proof. destruct r as [[b| | | |]|e|]; cbn; try done; [by intros (_ & d & ->)|by intros ->]. Qed.

Lemma wp_submission_state i w pre Q : (forall tr r, state_read i w tr r -> Q (pre ++ tr) r) -> wp (wcash_submission_state i w) pre Q.
Proof.
  intros H. unfold wcash_submission_state, wcash_submission_state_with_depth, ask_ok, lift. cbn. intros [[[b d]|]|e|]; cbn.
  - unfold classify_committed_wcash_submission. destruct (has_exact_wcash_witness b w) eqn:X; cbn; apply H; cbn; [|done]. eauto.
  - intros [[b|]|e|]; cbn; rewrite <- ?app_assoc; cbn.
    + unfold classify_committed_wcash_submission. destruct (has_exact_wcash_witness b w); cbn; by apply H.
    + intros [[l|]|e|]; cbn; rewrite <- ?app_assoc; cbn; by apply H.
    + by apply H.
    + by apply H.
  - by apply H.
  - by apply H.
Qed.

Lemma wp_chain_state i pre Q : (forall tr r, quiet tr -> Q (pre ++ tr) r) -> wp (wcash_candidate_chain_state i) pre Q.
Proof.
  intros H. unfold wcash_candidate_chain_state, ask_ok, lift. cbn. intros [[b|]|e|]; cbn; try by apply H.
  intros [[l|]|e|]; cbn; rewrite <- ?app_assoc; cbn; by apply H.
Qed.

(** ** The result of a submission *)

(** The end of an execution that confirms a block: it is read from the best chain
    with the exact witness, advertised, and released. *)
Definition confirmed (i : Id) (aux_pow : list byte) (tr : list Event) : Prop :=
  exists tr1 b depth height, has_exact_wcash_witness b aux_pow = true /\ block_hash b = Ok i /\ coinbase_height (transactions b) = Some height /\
    removals tr1 = [] /\
    tr = tr1 ++ [Ev (ReadBlockAndDepth i) (Ok (Some (b, depth))); Ev (AdvertiseMinedBlock i height) (Ok tt); Ev (RemoveCandidate i) tt].

(** The end of an execution that refuses a proof: the verifier found it invalid and
    the state does not know the block. *)
Definition refused (i : Id) (tr : list Event) : Prop :=
  exists tr1 b e, box_is_invalid_wcash_auxpow e = true /\ tr = tr1 ++ Ev (Commit b) (Rejected e) :: unknown_reads i.

Definition submission_result (i : Id) (aux_pow : list byte) (tr : list Event) (r : outcome RpcError bool) : Prop :=
  match r with
  | Ok true => confirmed i aux_pow tr
  | Ok false => removals tr = [] /\ refused i tr
  | _ => removals tr = []
  end.

Lemma wp_advertise i b pre Q :
  (forall height, block_hash b = Ok i -> coinbase_height (transactions b) = Some height -> Q (pre ++ [Ev (AdvertiseMinedBlock i height) (Ok tt)]) (Ok height)) ->
  (forall tr e, quiet tr -> Q (pre ++ tr) (Err e)) -> (forall tr, quiet tr -> Q (pre ++ tr) Panic) ->
  wp (advertise_wcash_best_chain_block i b) pre Q.
Proof.
  intros H He Hp. unfold advertise_wcash_best_chain_block, ask_ok, lift, unless, fail, some_or. cbn. rewrite <- (app_nil_r pre).
  destruct (block_hash b) as [h|e|] eqn:Bh; cbn; [|by apply He|by apply Hp]. case_bool_decide as Q1; [subst h|by apply He].
  destruct (coinbase_height (transactions b)) as [height|] eqn:Ch; cbn; [|by apply He]. rewrite app_nil_r.
  intros [[]|e|]; cbn; [by apply H|by apply He|by apply Hp].
Qed.

Lemma wp_confirm i aux_pow height b depth pre : has_exact_wcash_witness b aux_pow = true -> removals pre = [] ->
  wp (confirm i height b) (pre ++ [Ev (ReadBlockAndDepth i) (Ok (Some (b, depth)))])
    (fun tr r => submission_result i aux_pow tr r /\ commits tr = commits pre).
Proof.
  intros X R. unfold confirm. apply wp_bind. apply wp_advertise.
  - intros h Bh Ch. unfold unless, fail, ask, lift. destruct (h =? height); cbn.
    + intros []. rewrite <- !app_assoc. cbn. split; [|by rewrite commits_app, app_nil_r]. exists pre, b, depth, h. by split_and!.
    + rewrite !commits_app, !removals_app, R. cbn. by rewrite !app_nil_r.
  - intros tr e [C R']. cbn. rewrite !commits_app, !removals_app, R, R', C, !app_nil_r. done.
  - intros tr [C R']. cbn. rewrite !commits_app, !removals_app, R, R', C, !app_nil_r. done.
Qed.

Lemma wp_finish i aux_pow height verification b pre : removals pre = [] ->
  wp (finish_submission i aux_pow height verification) (pre ++ [Ev (Commit b) verification])
    (fun tr r => submission_result i aux_pow tr r /\ commits tr = commits pre ++ [b]).
Proof.
  intros R. unfold finish_submission. apply wp_bind, wp_submission_state. set (pre' := pre ++ [Ev (Commit b) verification]).
  assert (R' : removals pre' = []) by (unfold pre'; by rewrite removals_app, R).
  assert (C' : commits pre' = commits pre ++ [b]) by (unfold pre'; by rewrite commits_app).
  assert (K : forall tr (r : outcome RpcError bool), quiet tr -> (forall x, r <> Ok x) -> submission_result i aux_pow (pre' ++ tr) r /\ commits (pre' ++ tr) = commits pre ++ [b]).
  { intros tr r [Ct Rt] N. split; [|by rewrite commits_app, Ct, C', app_nil_r]. destruct r as [x|e|]; [by destruct (N x)|..]; cbn; by rewrite removals_app, R', Rt. }
  intros tr [st|e|] S; [|by apply K; [apply state_read_quiet in S|]|by apply K; [apply state_read_quiet in S|]].
  pose proof (state_read_quiet _ _ _ _ S) as Qt. destruct st as [c| | | |]; cbn in S.
  - destruct S as (X & depth & ->). pose proof (wp_confirm i aux_pow height c depth pre' X R') as W. rewrite C' in W.
    destruct verification as [|h|e]; [exact W| |exact W]. unfold unless. destruct (bool_decide _); [exact W|by apply K].
  - destruct verification; unfold unless; try destruct (bool_decide _); by apply K.
  - destruct verification; unfold unless; try destruct (bool_decide _); by apply K.
  - destruct verification; unfold unless; try destruct (bool_decide _); by apply K.
  - subst tr. destruct verification as [|h|e]; [by apply K|unfold unless; destruct (bool_decide _); by apply K|]. cbn.
    destruct (box_is_invalid_wcash_auxpow e) eqn:I; [|by apply K]. cbn. destruct Qt as [Ct Rt]. rewrite commits_app, removals_app, R', C', Ct, Rt, !app_nil_r.
    split_and!; [done| |done]. exists pre, b, e. split; [done|]. unfold pre'. by rewrite <- app_assoc.
Qed.

Lemma wp_submit_candidate i aux_pow candidate pre : removals pre = [] -> commits pre = [] -> len aux_pow <= MAX_WCASH_AUXPOW_BYTES ->
  wp (submit_candidate i aux_pow (Ok candidate)) pre (fun tr r => submission_result i aux_pow tr r /\
    (commits tr = [] \/ commits tr = [complete candidate (WcashAux aux_pow)] /\ block_hash (complete candidate (WcashAux aux_pow)) = Ok i)).
Proof.
  intros R C L. unfold submit_candidate, or_error, lift, fail. cbn [map_err]. apply wp_bind. cbn [wp]. apply wp_bind, wp_chain_state.
  assert (K : forall tr (r : outcome RpcError bool), quiet tr -> (forall x, r <> Ok x) -> submission_result i aux_pow (pre ++ tr) r /\ (commits (pre ++ tr) = [] \/
      commits (pre ++ tr) = [complete candidate (WcashAux aux_pow)] /\ block_hash (complete candidate (WcashAux aux_pow)) = Ok i)).
  { intros tr r [Ct Rt] N. split; [|left; by rewrite commits_app, Ct, C]. destruct r as [x|e|]; [by destruct (N x)|..]; cbn; by rewrite removals_app, R, Rt. }
  intros tr [[]|e|] Qt; try by apply K.
  all: unfold Solution.for_wcash; destruct (Z.gtb_spec (len aux_pow) MAX_WCASH_AUXPOW_BYTES); [lia|]; cbn [map_err bind].
  all: destruct (block_hash _) as [h|e|] eqn:Bh; cbn [bind]; [|by apply K..]; unfold unless, some_or, lift, fail, ask; case_bool_decide; [subst h|by apply K].
  all: destruct (coinbase_height _) as [height|]; cbn [ok_or bind]; [|by apply K]; intros v; destruct Qt as [Ct Rt].
  all: eapply wp_mono; [|apply wp_finish; by rewrite removals_app, R, Rt]; cbn; intros tr' r [S Cs]; split; [exact S|right; split; [|done]]; rewrite Cs, commits_app, C, Ct; done.
Qed.

Lemma decode_len bytes proof : AuxPowProof.decode bytes = Ok proof -> len bytes <= MAX_WCASH_AUXPOW_BYTES.
Proof. unfold AuxPowProof.decode. destruct (Z.gtb_spec (len bytes) MAX_PROOF_BYTES) as [|L]; [done|]. intros _. exact L. Qed.

(** C13: the answer to a submission is exact.  [true] is answered only after the
    block with exactly the submitted witness was read from the best chain and
    queued for gossip; [false] only if the verifier found the proof invalid and the
    state does not know the block; the candidate is released only with the answer
    [true], so every other answer can be retried.  At most one block is given to the
    verifier: the cached candidate with the submitted witness, whose id is that of
    the request. *)
Theorem submission_exact hash aux_pow tr r : runs (submit_aux_block hash aux_pow) tr r ->
  match parse_hash hash with
  | None => tr = [] /\ exists e, r = Err e
  | Some i => submission_result i aux_pow tr r /\
      (commits tr = [] \/ exists candidate tr', tr = Ev (BeginSubmission i) (Ok candidate) :: tr' /\
         commits tr = [complete candidate (WcashAux aux_pow)] /\ block_hash (complete candidate (WcashAux aux_pow)) = Ok i /\
         exists proof, AuxPowProof.decode aux_pow = Ok proof)
  end.
Proof.
  intros Rn. pattern tr, r. eapply wp_sound; [|exact Rn]. unfold submit_aux_block, checked_proof, unless, some_or, or_error, lift, fail.
  destruct (uses_wcash_consensus network); cbn [wp]; [|destruct (parse_hash hash); cbn; eauto].
  destruct (parse_hash hash) as [i|]; cbn [ok_or bind wp]; [|eauto].
  destruct (AuxPowProof.decode aux_pow) as [proof|e|] eqn:Dc; cbn [map_err bind wp]; [|by split; [|left]..].
  intros cached. cbn [app]. apply (wp_bind (wcash_submission_state i aux_pow)), wp_submission_state. intros tr1 st S.
  pose proof (state_read_quiet _ _ _ _ S) as [C1 R1]. set (pre := [Ev (BeginSubmission i) cached] ++ tr1).
  assert (Rp : removals pre = []) by (unfold pre; by rewrite removals_app, R1). assert (Cp : commits pre = []) by (unfold pre; by rewrite commits_app, C1).
  destruct st as [st|e|]; [|by split; [|left]..]. destruct st as [b| | | |]; cbn [not_best]; try by split; [|left].
  - destruct S as (X & depth & ->). apply (wp_bind (advertise_wcash_best_chain_block i b)), wp_advertise.
    + intros height Bh Ch. cbn. intros []. split; [|by left]. exists [Ev (BeginSubmission i) cached], b, depth, height. by split_and!.
    + intros tr2 e [C2 R2]. split; [cbn [submission_result]; by rewrite removals_app, R2|left; by rewrite commits_app, C2].
    + intros tr2 [C2 R2]. split; [cbn [submission_result]; by rewrite removals_app, R2|left; by rewrite commits_app, C2].
  - destruct cached as [candidate|e|]; [|by split; [|left]..].
    eapply wp_mono; [|apply wp_submit_candidate; [done..|exact (decode_len _ _ Dc)]].
    cbn beta. intros tr2 r2 [Sr [C2|[C2 Bh]]]; (split; [exact Sr|]); [by left|right]. exists candidate, (tr1 ++ tr2). split_and!; eauto.
Qed.

(** ** Candidates that are handed out *)

Lemma witness_serialize proof : len proof <= MAX_WCASH_AUXPOW_BYTES ->
  Solution.zcash_serialize (WcashAux proof) = Ok (encode_compact_size (len proof) ++ proof).
Proof.
  intros L. apply (solution_serialize WCASH_BLOCK_WIRE_VERSION). by split.
Qed.

(** The bytes of a proof-free block, up to its solution and after it. *)
Lemma proof_free_split b data : solution (header b) = WcashAux [] -> BlockCodec.block_serialize tx_serialize b = Ok data ->
  exists front back, data = front ++ [Byte.x00] ++ back /\
    forall proof, len proof <= MAX_WCASH_AUXPOW_BYTES ->
      BlockCodec.block_serialize tx_serialize (complete b (WcashAux proof)) = Ok (front ++ (encode_compact_size (len proof) ++ proof) ++ back).
Proof.
  intros S. unfold BlockCodec.block_serialize, Header.zcash_serialize, complete, set_header, with_solution.
  cbn [header transactions version previous_block_hash Header.merkle_root Header.commitment_bytes Header.time difficulty_threshold Header.nonce solution]. rewrite S.
  destruct (Header.check_version _) as [[]|e|]; cbn [obind]; [|done..]. destruct (expect _) as [t|e|]; cbn [obind]; [|done..].
  rewrite witness_serialize by done. cbn [obind]. destruct (BlockCodec.vec_serialize _ _) as [back|e|]; cbn [obind]; [|done..].
  match goal with |- Ok ?x = Ok _ -> _ => set (full := x) end. intros Q. assert (data = full) as -> by congruence. unfold full. clear Q full.
  exists (to_le 4 (version (header b)) ++ previous_block_hash (header b) ++ Header.merkle_root (header b) ++ Header.commitment_bytes (header b) ++
    to_le 4 t ++ to_le 4 (difficulty_threshold (header b)) ++ Header.nonce (header b)), back. split.
  - replace (encode_compact_size (len (@nil byte))) with [Byte.x00] by (by vm_compute). rewrite <- !app_assoc. done.
  - intros proof L. rewrite witness_serialize by done. cbn [obind]. rewrite <- !app_assoc. done.
Qed.

Lemma completed_len proof : len proof <= MAX_WCASH_AUXPOW_BYTES ->
  len (encode_compact_size (len proof) ++ proof) <= Solution.WCASH_MAX_SERIALIZED_SIZE.
Proof.
  intros L. rewrite length_app, Nat2Z.inj_add. pose proof (encode_len (len proof)) as E. unfold Solution.WCASH_MAX_SERIALIZED_SIZE, Solution.compact_size_len, MAX_WCASH_AUXPOW_BYTES, U32_MAX in *.
  rewrite E by lia. rewrite (proj2 (Z.leb_gt (256 * 1024) 252)), (proj2 (Z.leb_gt (256 * 1024) 65535)) by lia.
  destruct (Z.leb_spec (len proof) 252), (Z.leb_spec (len proof) 65535); lia.
Qed.

(** A candidate whose size was checked has room for every witness. *)
Lemma completed_fits b data size proof : solution (header b) = WcashAux [] -> BlockCodec.block_serialize tx_serialize b = Ok data ->
  maximum_completed_block_size (len data) = Some size -> size <= MAX_BLOCK_BYTES -> len proof <= MAX_WCASH_AUXPOW_BYTES ->
  exists bytes, BlockCodec.block_serialize tx_serialize (complete b (WcashAux proof)) = Ok bytes /\ len bytes <= MAX_BLOCK_BYTES.
Proof.
  intros S Dt M Le L. destruct (proof_free_split b data S Dt) as (front & back & -> & C). eexists. split; [by apply C|].
  unfold maximum_completed_block_size in M. destruct (usize_checked _) as [a|] eqn:A; [|done]. cbn in M. apply checked_Some in A as [-> _], M as [-> _].
  pose proof (completed_len proof L). rewrite !length_app in *. cbn [length] in *. lia.
Qed.

(** The candidate of a template. *)
Definition candidate_of (b : Blk) (nonce : list byte) : Blk := set_header (set_nonce nonce (header b)) b.

Record created (template : Template) (b : Blk) (nonce : list byte) (lease : CandidateLease) (resp : CreateAuxBlockResponse) : Prop := mkCreatedOk {
  cr_block : template_block template = Some b;
  cr_id : block_hash (candidate_of b nonce) = Ok (response_hash resp);
  cr_parent : previous_block_hash (header b) = response_previous_block_hash resp;
  cr_token : response_retire_token resp = Cache.retire_token lease;
  cr_height : coinbase_height (transactions b) = Some (response_height resp);
  cr_data : BlockCodec.block_serialize tx_serialize (candidate_of b nonce) = Ok (response_data resp);
  cr_target : CompactDifficulty.to_expanded (E:=RpcError) (difficulty_threshold (header b)) = Ok (Some (response_target resp));
  cr_proof_free : solution (header b) = WcashAux [];
  cr_room : exists size, maximum_completed_block_size (len (response_data resp)) = Some size /\ size <= MAX_BLOCK_BYTES;
}.

(** What a program guarantees when it succeeds. *)
Definition on_success {A : Type} (P : list Event -> A -> Prop) (tr : list Event) (r : outcome RpcError A) : Prop :=
  match r with Ok a => P tr a | _ => True end.

Lemma success_bind {A B : Type} (p : Rpc A) (f : A -> Rpc B) pre P :
  wp p pre (on_success (fun tr a => wp (f a) tr (on_success P))) -> wp (bind p f) pre (on_success P).
Proof. intros H. apply wp_bind. eapply wp_mono; [|exact H]. intros tr [a|e|]; done. Qed.

Lemma success_lift {A B : Type} (r : outcome RpcError A) (f : A -> Rpc B) pre P :
  (forall a, r = Ok a -> wp (f a) pre (on_success P)) -> wp (bind (lift r) f) pre (on_success P).
Proof. intros H. destruct r; cbn; auto. Qed.

Lemma success_ask {X B : Type} (c : Call X) (f : X -> Rpc B) pre P :
  (forall x, wp (f x) (pre ++ [Ev c x]) (on_success P)) -> wp (bind (ask c) f) pre (on_success P).
Proof. done. Qed.

Lemma success_unless {A : Type} b code message (p : Rpc A) pre P :
  (b = true -> wp p pre (on_success P)) -> wp (unless b code message p) pre (on_success P).
Proof. destruct b; cbn; auto. Qed.

Lemma success_or_error {E A B : Type} code message (m : outcome E A) (f : A -> Rpc B) pre P :
  (forall a, m = Ok a -> wp (f a) pre (on_success P)) -> wp (bind (or_error code message m) f) pre (on_success P).
Proof. intros H. destruct m; cbn; auto. Qed.

Lemma success_some_or {A B : Type} code message (o : option A) (f : A -> Rpc B) pre P :
  (forall a, o = Some a -> wp (f a) pre (on_success P)) -> wp (bind (some_or code message o) f) pre (on_success P).
Proof. intros H. destruct o; cbn; auto. Qed.

Lemma success_tip_is {A : Type} tip message (p : Rpc A) pre P :
  wp p (pre ++ [Ev BestTipHash (Some tip)]) (on_success P) -> wp (tip_is tip message p) pre (on_success P).
Proof. intros H. unfold tip_is. cbn. intros x. apply success_unless. by intros ->%bool_decide_eq_true. Qed.

Lemma success_coinbase_value {B : Type} height template (f : Z * Amount.Amount Amount.NonNegative -> Rpc B) pre P :
  (forall v, wp (f v) pre (on_success P)) -> wp (bind (coinbase_value height template) f) pre (on_success P).
Proof.
  intros H. apply success_bind. unfold coinbase_value. apply success_lift. intros z _. do 4 (apply success_or_error; intros ? _). cbn. apply H.
Qed.

Lemma success_validate candidate tip (f : Id -> Rpc CreateAuxBlockResponse) pre P :
  (forall h, wp (f h) (pre ++ [Ev (CheckProposal candidate) (Verified h)]) (on_success P)) ->
  wp (bind (validate_proposal candidate tip) f) pre (on_success P).
Proof.
  intros H. apply success_bind. unfold validate_proposal. apply success_ask. intros [|h|e]; [done|apply H|].
  destruct (is_duplicate_wcash_aux_proposal_error e); [done|]. by apply success_tip_is.
Qed.

(** The questions after the template of a call that hands out a candidate: the tip
    is read before and after the proposal check, and before and after the
    insertion. *)
Definition published_events (nonce : list byte) (candidate : Blk) (lease : CandidateLease) (resp : CreateAuxBlockResponse) : list Event :=
  let tip := Ev BestTipHash (Some (response_previous_block_hash resp)) in
  [Ev RandomNonce (Some nonce); tip; Ev (CheckProposal candidate) (Verified (response_hash resp)); tip; tip;
   Ev (InsertCandidate candidate) (Ok lease); tip; Ev (PublishCandidate lease) tt].

Lemma success_from_template template (f : Blk -> Rpc CreateAuxBlockResponse) pre P :
  (forall b nonce, template_block template = Some b -> wp (f (candidate_of b nonce)) (pre ++ [Ev RandomNonce (Some nonce)]) (on_success P)) ->
  wp (bind (from_template template) f) pre (on_success P).
Proof.
  intros H. apply success_bind. unfold from_template. apply success_some_or. intros b Tb. apply success_ask. intros [nonce|]; [|done]. cbn. by apply H.
Qed.

Lemma success_proof_free candidate (f : list byte -> Rpc CreateAuxBlockResponse) pre P :
  (forall data size, solution (header candidate) = WcashAux [] -> BlockCodec.block_serialize tx_serialize candidate = Ok data ->
     maximum_completed_block_size (len data) = Some size -> size <= MAX_BLOCK_BYTES -> wp (f data) pre (on_success P)) ->
  wp (bind (proof_free_data candidate) f) pre (on_success P).
Proof.
  intros H. apply success_bind. unfold proof_free_data. apply success_unless. intros [W _]%andb_true_iff. apply success_or_error. intros data Dt.
  apply success_some_or. intros size Sz. apply success_unless. intros Le. cbn. eapply H; [|done..|bool_lia].
  destruct (solution (header candidate)) as [| |w]; [done..|]. cbn in W. apply bool_decide_eq_true in W. by subst.
Qed.

Lemma success_publish {A : Type} candidate tip (k : CandidateLease -> Rpc A) pre P :
  (forall lease, wp (k lease) (pre ++ [Ev (InsertCandidate candidate) (Ok lease); Ev BestTipHash (Some tip); Ev (PublishCandidate lease) tt]) (on_success P)) ->
  wp (publish_candidate candidate tip k) pre (on_success P).
Proof.
  intros H. unfold publish_candidate. apply success_ask. intros [lease|e|]; cbn; [|done..]. intros x. case_bool_decide; cbn; [|by intros []].
  subst x. intros []. rewrite <- !app_assoc. apply H.
Qed.

Lemma create_from_template_ok template configured pre :
  wp (create_from_template template configured) pre (on_success (fun tr resp => exists b nonce lease fees, created template b nonce lease resp /\
    tr = pre ++ published_events nonce (candidate_of b nonce) lease resp ++ fees /\ (fees = [] \/ exists v, fees = [Ev (PrewarmAuxiliaryCoinbase (response_height resp) v) tt]))).
Proof.
  unfold create_from_template. apply success_coinbase_value. intros v. apply success_from_template. intros b nonce Tb.
  apply success_lift. intros hash Bh. apply success_some_or. intros h Ch. apply success_unless. intros ->%Z.eqb_eq.
  apply success_lift. intros t Tt. apply success_some_or. intros target ->. apply success_ask. intros x. apply success_some_or. intros tip ->.
  apply success_unless. intros <-%bool_decide_eq_true. apply success_validate. intros vh. apply success_unless. intros ->%bool_decide_eq_true.
  apply success_tip_is. apply success_proof_free. intros data size Sf Dt Sz Le. apply success_tip_is. apply success_publish. intros lease. cbv zeta.
  set (resp := mkCreated hash _ _ _ _ _ _ _ _ _). assert (Cr : created template b nonce lease resp) by (split; try done; by exists size).
  destruct configured; cbn.
  - exists b, nonce, lease, []. split_and!; [done| |by left]. rewrite <- !app_assoc. done.
  - intros []. exists b, nonce, lease, [Ev (PrewarmAuxiliaryCoinbase (template_height template) v.2) tt]. split_and!; [done| |right; by exists v.2].
    rewrite <- !app_assoc. done.
Qed.

(** C14: a candidate is handed out only after the verifier accepted it under its id,
    and while the chain tip, read before and after the check and before and after
    the insertion, is its parent.  Every proof that decodes can be attached: the id
    stays, and the completed block serializes within the block size limit and is
    read back by the parser of blocks. *)
Theorem created_candidate_completes tx_deserialize address tr resp : BlockCodec.tx_codec_exact tx_serialize tx_deserialize ->
  runs (create_aux_block address) tr (Ok resp) ->
  exists payout configured template b nonce lease rest, let candidate := candidate_of b nonce in
    template_block template = Some b /\
    tr = Ev (GetBlockTemplate payout configured) (TemplateReady template) :: published_events nonce candidate lease resp ++ rest /\
    response_retire_token resp = Cache.retire_token lease /\ previous_block_hash (header candidate) = response_previous_block_hash resp /\
    block_hash candidate = Ok (response_hash resp) /\ BlockCodec.block_serialize tx_serialize candidate = Ok (response_data resp) /\
    forall aux_pow proof, AuxPowProof.decode aux_pow = Ok proof -> header_ok (header candidate) -> len (transactions candidate) <= BlockCodec.tx_max_allocation ->
      let completed := complete candidate (WcashAux aux_pow) in
      block_hash completed = Ok (response_hash resp) /\
      exists bytes, BlockCodec.block_serialize tx_serialize completed = Ok bytes /\ len bytes <= MAX_BLOCK_BYTES /\
        BlockCodec.block_deserialize tx_deserialize bytes = Ok (completed, []).
Proof.
  intros Tc Rn.
  assert (W : wp (create_aux_block address) [] (on_success (fun tr resp => exists payout configured template b nonce lease fees, created template b nonce lease resp /\
    tr = Ev (GetBlockTemplate payout configured) (TemplateReady template) :: published_events nonce (candidate_of b nonce) lease resp ++ fees))).
  { unfold create_aux_block. apply success_unless. intros _. apply success_some_or. intros payout _. apply success_ask. intros [t| |e|]; [|done..].
    eapply wp_mono; [|apply create_from_template_ok]. cbn. intros tr' [x|e|]; [|done..]. intros (b & nonce & lease & fees & Cr & Q & _).
    exists payout, (bool_decide (configured_payout = Some payout)), t, b, nonce, lease, fees. done. }
  destruct (wp_sound _ _ _ _ W Rn) as (payout & configured & template & b & nonce & lease & fees & [Cb Ci Cp Ct Ch Cd Cg Cf (size & Sz & Le)] & ->).
  exists payout, configured, template, b, nonce, lease, fees. cbv zeta. split_and!; [done..|]. intros aux_pow proof Dc Ho Lt.
  assert (Ve : version (header b) = WCASH_BLOCK_WIRE_VERSION) by (pose proof (h_solution _ Ho) as S; cbn in S; rewrite Cf in S; apply S).
  pose proof (decode_len _ _ Dc) as La. split; [unfold block_hash, complete, set_header; cbn [header]; by rewrite id_without_witness|].
  destruct (completed_fits (candidate_of b nonce) (response_data resp) size aux_pow) as (bytes & Sb & Lb); [done..|].
  exists bytes. split_and!; [done..|]. rewrite <- (app_nil_r bytes). apply (block_exact tx_serialize tx_deserialize Tc). split_and!; [|done|by exists bytes].
  destruct Ho as [V R A S]. by split.
Qed.

(** ** Reservations *)

(** The reservation that a call holds after an answer of the cache. *)
Definition lease_of (r : outcome CandidateInsertError CandidateLease) : option CandidateLease :=
  match r with Ok lease => Some lease | _ => None end.

(** A program that holds at most one reservation: it publishes or discards what it
    reserved, once, before it ends or reserves again. *)
Fixpoint disciplined {A : Type} (o : option CandidateLease) (p : Rpc A) : Prop :=
  match p with
  | Done _ => o = None
  | Ask c k =>
      match c in Call X return (option CandidateLease -> X -> Prop) -> Prop with
      | InsertCandidate _ => fun rest => o = None /\ forall x, rest (lease_of x) x
      | PublishCandidate lease => fun rest => o = Some lease /\ forall x, rest None x
      | DiscardUnpublished lease => fun rest => o = Some lease /\ forall x, rest None x
      | _ => fun rest => forall x, rest o x
      end (fun o x => disciplined o (k x))
  end.

Lemma disciplined_bind {A B : Type} (p : Rpc A) (f : A -> Rpc B) : forall o, disciplined o p -> (forall a, disciplined None (f a)) -> disciplined o (bind p f).
Proof.
  induction p as [r|X c k IH]; intros o Dp Df; cbn in *.
  - subst o. destruct r; cbn; auto.
  - destruct c; try (intros x; apply IH; [apply Dp|done]); destruct Dp as [-> Dp]; (split; [done|]); intros x; (apply IH; [apply Dp|done]).
Qed.

Lemma disciplined_unless {A : Type} b code message (p : Rpc A) : disciplined None p -> disciplined None (unless b code message p).
Proof. by destruct b. Qed.

Lemma disciplined_publish {A : Type} candidate tip (k : CandidateLease -> Rpc A) : (forall lease, disciplined None (k lease)) ->
  disciplined None (publish_candidate candidate tip k).
Proof.
  intros Dk. unfold publish_candidate. cbn. split; [done|]. intros [lease|e|]; cbn; [|done..]. intros tip'. destruct (negb _); cbn; split; try done.
Qed.

(** The handlers, one constructor at a time. *)
Ltac disciplined_step :=
  first
    [ apply disciplined_publish; intros ?
    | apply disciplined_unless
    | apply disciplined_bind; [|intros ?]
    | match goal with |- disciplined None (match ?x with _ => _ end) => destruct x end
    | done ].

Lemma create_disciplined address : disciplined None (create_aux_block address).
Proof.
  unfold create_aux_block, create_from_template, coinbase_value, from_template, validate_proposal, proof_free_data, tip_is. repeat disciplined_step.
Qed.

Lemma retire_disciplined hash token : disciplined None (retire_aux_block hash token).
Proof. unfold retire_aux_block. repeat disciplined_step. Qed.

Lemma status_disciplined hash aux_pow : disciplined None (get_aux_block_status hash aux_pow).
Proof. unfold get_aux_block_status, checked_proof, wcash_submission_state_with_depth. repeat disciplined_step. Qed.

Lemma submit_disciplined hash aux_pow : disciplined None (submit_aux_block hash aux_pow).
Proof.
  unfold submit_aux_block, checked_proof, wcash_submission_state, wcash_submission_state_with_depth, advertise_wcash_best_chain_block, not_best,
    submit_candidate, wcash_candidate_chain_state, finish_submission, confirm. repeat disciplined_step.
Qed.

(** ** Calls that run at the same time *)

(** The id under which the cache keeps a block. *)
Definition block_id (b : Blk) : Id := match block_hash b with Ok i => i | _ => [] end.

Context (capacity : nat) (ttl : Z) (ttl_positive : 0 < ttl).
Notation Inner := (Cache.CacheInner (Candidate := Blk)).

(** The answers: those of the cache change it, those of the services are
    arbitrary. *)
Definition answers {X : Type} (c : Call X) (x : X) (now : Z) (s s' : Inner) : Prop :=
  match c in Call X return X -> Prop with
  | InsertCandidate b => fun x => exists draws, NoDup draws /\
      (Cache.AUX_BLOCK_MAX_ACTIVE_LEASES + Cache.AUX_BLOCK_RETIRED_TOKEN_CAPACITY < length draws)%nat /\
      Cache.insert_at block_id capacity ttl draws b now s = Some (s', x)
  | DiscardUnpublished lease => fun _ => s' = Cache.discard_unpublished lease s
  | PublishCandidate lease => fun _ => Cache.publish (E:=Empty_set) lease s = Ok s'
  | BeginSubmission i => fun x => Cache.begin_submission_at ttl i now s = (s', x)
  | RemoveCandidate i => fun _ => s' = Cache.remove i s /\ forall e, Cache.entries s !! i = Some e -> Cache.state e <> Cache.StatePublishing
  | RetireCandidate i t => fun x => Cache.retire ttl i t now s = (s', x)
  | _ => fun _ => s' = s
  end x.

(** A call that runs. *)
Inductive Thread := | Th {A : Type} (p : Rpc A).

Record World := mkWorld { shared : Inner; world_clock : Z; threads : list Thread }.

Inductive request : Thread -> Prop :=
| request_create address : request (Th (create_aux_block address))
| request_retire hash token : request (Th (retire_aux_block hash token))
| request_status hash aux_pow : request (Th (get_aux_block_status hash aux_pow))
| request_submit hash aux_pow : request (Th (submit_aux_block hash aux_pow)).

(** The steps: the clock, a new request, an answer to one of the calls, the end of a
    call.  No reservation is left for the lifetime of an entry. *)
Inductive world_step : World -> World -> Prop :=
| world_tick now w : world_clock w <= now ->
    (forall i e, Cache.entries (shared w) !! i = Some e -> Cache.state e = Cache.StatePublishing -> Cache.age now (Cache.created_at e) < ttl) ->
    world_step w (mkWorld (shared w) now (threads w))
| world_request th w : request th -> world_step w (mkWorld (shared w) (world_clock w) (th :: threads w))
| world_answer {A X : Type} (c : Call X) (k : X -> Rpc A) x l1 l2 s' w : threads w = l1 ++ Th (Ask c k) :: l2 ->
    answers c x (world_clock w) (shared w) s' -> world_step w (mkWorld s' (world_clock w) (l1 ++ Th (k x) :: l2))
| world_end {A : Type} (r : outcome RpcError A) l1 l2 w : threads w = l1 ++ Th (Done r) :: l2 ->
    world_step w (mkWorld (shared w) (world_clock w) (l1 ++ l2)).

Definition world_start (now : Z) : World := mkWorld (Cache.mkInner ∅ []) now [].
Definition world_reachable (w : World) : Prop := exists now, rtc world_step (world_start now) w.

(** The calls hold the reservations of the cache. *)
Definition holds_lease (o : option CandidateLease) (th : Thread) : Prop := match th with Th p => disciplined o p end.
Definition simulated (w : World) : Prop :=
  exists s owners, Cache.reachable block_id capacity ttl s /\ Cache.cache s = shared w /\ Cache.clock s = world_clock w /\
    Forall2 holds_lease owners (threads w) /\ Cache.held s ≡ₚ omap Datatypes.id owners.

Lemma held_split s (owners1 owners2 : list (option CandidateLease)) lease : Cache.held (Candidate := Blk) s ≡ₚ omap Datatypes.id (owners1 ++ Some lease :: owners2) ->
  exists h1 h2, Cache.held s = h1 ++ lease :: h2 /\ h1 ++ h2 ≡ₚ omap Datatypes.id (owners1 ++ None :: owners2).
Proof.
  intros P. rewrite omap_app in P. cbn in P. assert (I : lease ∈ Cache.held s) by (rewrite P; set_solver).
  apply list_elem_of_split in I as (h1 & h2 & E). exists h1, h2. split; [done|]. rewrite E in P. rewrite omap_app. cbn.
  rewrite <- Permutation_middle in P. rewrite <- (Permutation_middle _ (omap _ owners2)) in P. by apply Permutation_cons_inv in P.
Qed.

Lemma simulated_step w w' : simulated w -> world_step w w' -> simulated w'.
Proof.
  intros (s & owners & R & Ec & Ek & F & P) St. destruct St as [now w Le T|th w Rq|A X c k x l1 l2 s' w E An|A r l1 l2 w E].
  - exists (Cache.mkSys (Cache.cache s) now (Cache.held s)), owners. cbn. split_and!; try done. eapply Cache.reachable_step; [exact R|]. apply Cache.step_tick; [by rewrite Ek|].
    intros lease c t0 _ _ L. rewrite Ec in L. exact (T _ _ L eq_refl).
  - exists s, (None :: owners). cbn. split_and!; try done. constructor; [|done].
    destruct Rq; [apply create_disciplined|apply retire_disciplined|apply status_disciplined|apply submit_disciplined].
  - rewrite E in F. apply Forall2_app_inv_r in F as (o1 & o' & F1 & F2 & ->). apply Forall2_cons_inv_r in F2 as (o & o2 & Do & F2 & ->).
    rewrite <- Ec, <- Ek in An. cbn in Do.
    assert (K : forall o' s2, Cache.reachable block_id capacity ttl s2 -> Cache.cache s2 = s' -> Cache.clock s2 = Cache.clock s -> disciplined o' (k x) ->
      Cache.held s2 ≡ₚ omap Datatypes.id (o1 ++ o' :: o2) -> simulated (mkWorld s' (world_clock w) (l1 ++ Th (k x) :: l2))).
    { intros o' s2 R2 C2 K2 D2 P2. exists s2, (o1 ++ o' :: o2). cbn. split_and!; try done; [congruence|]. by apply Forall2_app, Forall2_cons. }
    destruct c; cbn in An; try (subst s'; apply (K o s); [done..|apply Do|done]).
    + destruct Do as [-> Do], An as (draws & N & L & I). eapply (K (lease_of x)); [eapply Cache.reachable_step; [exact R|by eapply Cache.step_insert]|done..|apply Do|].
      cbn. rewrite omap_app in *. cbn in *. destruct x as [lease|e|]; cbn; [|done..]. rewrite P. apply Permutation_middle.
    + destruct Do as [-> Do]. destruct (held_split s o1 o2 lease P) as (h1 & h2 & Eh & Ph). subst s'.
      eapply (K None); [eapply Cache.reachable_step; [exact R|by eapply Cache.step_discard]|done..|apply Do|done].
    + destruct Do as [-> Do]. destruct (held_split s o1 o2 lease P) as (h1 & h2 & Eh & Ph).
      eapply (K None); [eapply Cache.reachable_step; [exact R|by eapply Cache.step_publish]|done..|apply Do|done].
    + eapply (K o); [eapply Cache.reachable_step; [exact R|apply Cache.step_begin]|cbn; by rewrite An|done|apply Do|done].
    + destruct An as [-> G]. eapply (K o); [eapply Cache.reachable_step; [exact R|by apply Cache.step_remove]|done..|apply Do|done].
    + eapply (K o); [eapply Cache.reachable_step; [exact R|apply Cache.step_retire]|cbn; by rewrite An|done|apply Do|done].
  - rewrite E in F. apply Forall2_app_inv_r in F as (o1 & o' & F1 & F2 & ->). apply Forall2_cons_inv_r in F2 as (o & o2 & Do & F2 & ->). cbn in Do. subst o.
    exists s, (o1 ++ o2). cbn. split_and!; try done; [by apply Forall2_app|]. rewrite omap_app in *. exact P.
Qed.

Lemma simulated_reachable w : world_reachable w -> simulated w.
Proof.
  intros (now & St). assert (S0 : simulated (world_start now)).
  { exists (Cache.start now), []. cbn. split_and!; try done. exists now, []. constructor. }
  induction St; eauto using simulated_step.
Qed.

End Handlers.

(** ** Concrete requests *)

Section RunIntro.
Context `{CB : ConsensusBuild} {CC : Subsidy.ChainConstants} {FE : Foundation.FoundationEnv} {HH : Hashes}.
Context {Tx Address : Type}.

Lemma runs_pure {A B : Type} (m : outcome RpcError A) (f : A -> Rpc (Tx:=Tx) (Address:=Address) B) a tr r :
  m = Ok a -> runs (f a) tr r -> runs (bind (lift m) f) tr r.
Proof. by intros ->. Qed.

Lemma runs_answer {X B : Type} (c : Call X) (f : X -> Rpc (Tx:=Tx) (Address:=Address) B) x tr r :
  runs (f x) tr r -> runs (bind (ask c) f) (Ev c x :: tr) r.
Proof. intros R. by exists x, tr. Qed.

Lemma runs_answer_ok {X B : Type} (c : Call (outcome RpcError X)) (f : X -> Rpc (Tx:=Tx) (Address:=Address) B) x tr r :
  runs (f x) tr r -> runs (bind (ask_ok c) f) (Ev c (Ok x) :: tr) r.
Proof. intros R. by exists (Ok x), tr. Qed.

Lemma runs_unless {A : Type} b code message (p : Rpc (Tx:=Tx) (Address:=Address) A) tr r : b = true -> runs p tr r -> runs (unless b code message p) tr r.
Proof. by intros ->. Qed.

Lemma runs_assoc {A B C : Type} (p : Rpc (Tx:=Tx) (Address:=Address) A) (f : A -> Rpc B) (g : B -> Rpc C) tr r :
  runs (bind p (fun a => bind (f a) g)) tr r -> runs (bind (bind p f) g) tr r.
Proof.
  revert tr. induction p as [[a|e|]|X c k IH]; cbn; try done. intros tr (x & tr' & -> & R). exists x, tr'. split; [done|]. by apply IH.
Qed.

Lemma runs_bind_unless {A B : Type} b code message (p : Rpc (Tx:=Tx) (Address:=Address) A) (f : A -> Rpc B) tr r :
  b = true -> runs (bind p f) tr r -> runs (bind (unless b code message p) f) tr r.
Proof. by intros ->. Qed.
End RunIntro.

#[local] Existing Instance wcash_build.
#[local] Existing Instance example_constants.
#[local] Existing Instance Subsidies.example_env.
#[local] Existing Instance example_hashes.

(** Transactions are bytes, the coinbase is of height 1,700,000 and the template is
    for the Wcash Testnet. *)
Definition example_height (txs : list byte) : option Z := match txs with [] => None | _ => Some 1700000 end.
Definition example_template_block : Block (Tx := byte) := mkBlock example_wcash_header [Byte.xaa].
Definition example_template : Template (Tx := byte) := mkTemplate 1700000 [] (Some example_template_block) [].
Definition example_nonce : list byte := replicate 32 Byte.x09.
Definition example_candidate_block : Block (Tx := byte) := candidate_of example_template_block example_nonce.
Definition example_id : Id := match block_hash example_candidate_block with Ok i => i | _ => [] end.
Definition example_token : Token := replicate 32 Byte.x05.
Definition example_response : CreateAuxBlockResponse :=
  mkCreated example_id example_token
    (match BlockCodec.block_serialize byte_serialize example_candidate_block with Ok data => data | _ => [] end)
    WCASH_AUXILIARY_CHAIN_ID (replicate 32 Byte.x01) 312500000
    (match CompactDifficulty.to_expanded (E:=unit) (difficulty_threshold example_wcash_header) with Ok (Some t) => t | _ => 0 end)
    (difficulty_threshold example_wcash_header) 1700000 [].
Definition example_create : Rpc (Tx:=byte) (Address:=unit) CreateAuxBlockResponse :=
  create_aux_block byte_serialize example_height (fun _ => Some tt) (Some tt) example_testnet "address".
Definition example_lease_of_block : CandidateLease := Cache.mkLease example_id example_token true.

Definition example_trace : list Event :=
  Ev (GetBlockTemplate tt true) (TemplateReady example_template) :: published_events example_nonce example_candidate_block example_lease_of_block example_response.

Lemma example_create_runs : runs example_create example_trace (Ok example_response).
Proof.
  unfold example_create, create_aux_block. apply runs_unless; [by vm_compute|]. apply (runs_pure _ _ tt); [done|].
  apply runs_answer. unfold create_from_template, coinbase_value.
  do 5 (apply runs_assoc; eapply runs_pure; [vm_compute; reflexivity|]).
  eapply runs_pure; [reflexivity|]. unfold from_template. apply runs_assoc. apply (runs_pure _ _ example_template_block); [done|].
  apply runs_assoc, (runs_answer RandomNonce _ (Some example_nonce)). apply runs_assoc, (runs_pure _ _ example_nonce); [done|].
  apply (runs_pure _ _ example_candidate_block); [done|]. apply (runs_pure _ _ example_id); [vm_compute; reflexivity|].
  apply (runs_pure _ _ 1700000); [done|]. apply runs_unless; [done|].
  apply (runs_pure _ _ (Some (response_target example_response))); [vm_compute; reflexivity|]. apply (runs_pure _ _ (response_target example_response)); [done|].
  apply (runs_answer BestTipHash _ (Some (response_previous_block_hash example_response))).
  apply (runs_pure _ _ (response_previous_block_hash example_response)); [done|]. apply runs_unless; [by vm_compute|].
  unfold validate_proposal. apply runs_assoc, (runs_answer (CheckProposal example_candidate_block) _ (Verified example_id)). apply (runs_pure _ _ example_id); [done|].
  apply runs_unless; [by apply bool_decide_eq_true|]. unfold tip_is. apply (runs_answer BestTipHash). apply runs_unless; [by apply bool_decide_eq_true|].
  unfold proof_free_data. apply runs_bind_unless; [by vm_compute|]. apply runs_assoc, (runs_pure _ _ (response_data example_response)); [vm_compute; reflexivity|].
  set (size := match maximum_completed_block_size (len (response_data example_response)) with Some size => size | None => 0 end).
  apply runs_assoc, (runs_pure _ _ size); [vm_compute; reflexivity|]. apply runs_bind_unless; [by vm_compute|].
  apply (runs_pure _ _ (response_data example_response)); [done|]. apply (runs_answer BestTipHash). apply runs_unless; [by apply bool_decide_eq_true|].
  unfold publish_candidate. apply (runs_answer (InsertCandidate example_candidate_block) _ (Ok example_lease_of_block)).
  apply (runs_pure _ _ example_lease_of_block); [done|]. apply (runs_answer BestTipHash). rewrite bool_decide_true by done.
  apply (runs_answer (PublishCandidate example_lease_of_block) _ tt). done.
Qed.

(** The template and the nonce in an event. *)
Definition event_template (e : Event (Tx:=byte) (Address:=unit)) : option (Template (Tx:=byte)) :=
  match e with
  | Ev c x => match c in Call X return X -> _ with
              | GetBlockTemplate _ _ => fun x => match x with TemplateReady t => Some t | _ => None end
              | _ => fun _ => None
              end x
  end.
Definition event_nonce (e : Event (Tx:=byte) (Address:=unit)) : option (list byte) :=
  match e with Ev c x => match c in Call X return X -> _ with RandomNonce => fun x => x | _ => fun _ => None end x end.

Definition example_aux_pow : list byte := encoding example_proof.
Definition example_completed : Block (Tx := byte) := complete example_candidate_block (WcashAux example_aux_pow).

Lemma example_aux_pow_decodes : AuxPowProof.decode example_aux_pow = Ok example_proof.
Proof. apply decode_Ok. split_and!; [exact example_typed|split; by_eval|done]. Qed.

Lemma created_candidate_completes_witness :
  runs example_create example_trace (Ok example_response) /\
  block_hash example_completed = Ok example_id /\
  exists bytes, BlockCodec.block_serialize byte_serialize example_completed = Ok bytes /\ len bytes <= MAX_BLOCK_BYTES /\
    BlockCodec.block_deserialize byte_deserialize bytes = Ok (example_completed, []).
Proof.
  split; [exact example_create_runs|].
  pose proof (created_candidate_completes byte_serialize example_height (fun _ => Some tt) (Some tt) example_testnet byte_deserialize "address"
    example_trace example_response byte_codec_exact) as C.
  specialize (C example_create_runs). destruct C as (payout & configured & template & b & nonce & lease & rest & Tb & Tr & _ & _ & _ & _ & K).
  assert (Some example_template = Some template) as Et by exact (f_equal (fun tr : list Event => match tr with e :: _ => event_template e | _ => None end) Tr).
  apply (inj Some) in Et as <-.
  assert (Some example_nonce = Some nonce) as En by exact (f_equal (fun tr : list Event => match tr with _ :: e :: _ => event_nonce e | _ => None end) Tr).
  apply (inj Some) in En as <-.
  apply (inj Some) in Tb as <-. apply (K example_aux_pow example_proof example_aux_pow_decodes); [split; by_eval|by vm_compute].
Defined.

(** The proof is submitted again after the completed block is in the best chain and
    the cache has forgotten the candidate. *)
Definition example_submission : Rpc (Tx:=byte) (Address:=unit) bool :=
  submit_aux_block example_height (fun _ => Some example_id) example_testnet "hash" example_aux_pow.
Definition example_submission_trace : list (Event (Tx:=byte) (Address:=unit)) :=
  [Ev (BeginSubmission example_id) (Err Cache.Unknown); Ev (ReadBlockAndDepth example_id) (Ok (Some (example_completed, 3)));
   Ev (AdvertiseMinedBlock example_id 1700000) (Ok tt); Ev (RemoveCandidate example_id) tt].

Lemma example_submission_runs : runs example_submission example_submission_trace (Ok true).
Proof.
  apply runs_unless; [done|]. apply (runs_pure _ _ example_id); [done|].
  apply (runs_pure _ _ example_proof); [by rewrite example_aux_pow_decodes|]. apply runs_answer.
  unfold wcash_submission_state, wcash_submission_state_with_depth. do 2 apply runs_assoc. apply runs_answer_ok.
  apply (runs_pure _ _ (SubmissionBest example_completed, Some 3)); [by vm_compute|]. apply (runs_pure _ _ (SubmissionBest example_completed)); [done|].
  unfold advertise_wcash_best_chain_block. apply runs_assoc, (runs_pure _ _ example_id); [vm_compute; reflexivity|].
  apply runs_bind_unless; [by apply bool_decide_eq_true|]. apply runs_assoc, (runs_pure _ _ 1700000); [done|].
  apply runs_assoc, runs_answer_ok. apply (runs_pure _ _ 1700000); [done|]. by apply runs_answer.
Qed.

Lemma submission_exact_witness :
  runs example_submission example_submission_trace (Ok true) /\
  submission_result example_height example_id example_aux_pow example_submission_trace (Ok true).
Proof.
  split; [exact example_submission_runs|].
  pose proof (submission_exact example_height (fun _ => Some example_id) example_testnet "hash" example_aux_pow example_submission_trace (Ok true)) as C.
  specialize (C example_submission_runs). apply C.
Defined.

(** A request of a candidate has arrived. *)
Definition example_world : World (Tx:=byte) (Address:=unit) := mkWorld (Cache.mkInner ∅ []) 0 [Th example_create].

Lemma example_world_reachable :
  world_reachable byte_serialize example_height (fun _ => Some example_id) (fun _ => Some tt) (Some tt) example_testnet 16 Cache.AUX_BLOCK_CACHE_TTL example_world.
Proof. exists 0. apply rtc_once. apply (world_request _ _ _ _ _ _ _ _ (Th example_create)). constructor. Qed.

